(* ===== verification/_CoqProject ===== *)
-Q . S2P
Prelude.v
Mem.v
Cstring.v
Riscv.v
Spinlock.v
Kalloc.v
Vm.v
Uvm.v
Cow.v
Usermem.v
Demo.v
Sleeplock.v
Bio.v
Bcache.v
Log.v
LogCrash.v
LogSpace.v
Txn.v
Fs.v
Balloc.v
Bmap.v
Idisk.v
Itrunc.v
Itable.v
Virtio.v
VirtioSafe.v
State.v
Sched.v
Dir.v
Fileio.v
DirMap.v
PathWalk.v
FileCrash.v
FileDemo.v
Console.v
Pipe.v
File.v
Proc.v
ProcMem.v
Exec.v
Sysarg.v
Sysfile.v
Frame.v
Syscall.v
Refs.v
Fork.v
ForkDemo.v
Trap.v
User.v
Ulib.v
Umalloc.v
Grep.v
Sh.v
ShPrint.v
Uprogs.v
Asm.v
Initcode.v
