(* ===== verification/Prelude.v ===== *)
(** * A verification library for the xv6 kernel with copy-on-write fork

    The program is the xv6 kernel for RISC-V (src/kernel) with the copy-on-write
    change to [fork], and its user programs (src/user).  C functions become
    functions in a state and outcome monad ([M], below) over the state they
    touch; the theorems are about those functions.

    ** The parts, and where they are

    - Prelude: machine integers, the outcome monad and its [wp] rules, loops,
      the tactics and hint databases.  Mem: byte-addressed memory.
    - Cstring: kernel/string.c.  Riscv: the macros of riscv.h and memlayout.h.
    - Spinlock: spinlock.c, for one hart ([Cpu]), for many ([Smp]), and as the
      class [HasLocks] that the other components use.
    - Kalloc: kalloc.c, the free list and the page reference counts.
    - Vm, Uvm, Cow, Usermem: vm.c and [CowHandler] of trap.c: page tables, user
      address spaces, copy-on-write, and user memory seen by user code.  Demo:
      a small concrete machine on which the theorems are run.
    - Sleeplock, Bio, Bcache, Log, LogCrash, LogSpace, Fs: sleeplock.c, bio.c,
      log.c and the first half of fs.c on the file system's state [fsst].
    - Txn, Balloc, Bmap, Idisk, Itrunc, Itable: proofs about fs.c inside a
      transaction.  [txn E c W O I s] says that the blocks are [c] (on the disk
      or still in the cache), that [W] is in the log, that the buffers [O] are
      held and that the inode table is [I]; each file has the rules of the
      functions it is named after, and a file is its bytes [fbyte c x].
    - Virtio, VirtioSafe: virtio_disk.c and the device behind it.
    - State: the whole kernel's state [kern], which contains the states of the
      components above.  Sched, Dir, Console, Pipe, File, Proc, Exec, Sysarg,
      Sysfile, Syscall, Trap: proc.c, the second half of fs.c, console.c,
      uart.c, printf.c, pipe.c, file.c, exec.c, syscall.c, sysfile.c, sysproc.c,
      trap.c, plic.c and main.c.
    - Fileio, DirMap, PathWalk, FileCrash: the contents of files, directories
      as maps, the walk of a path, and writes with crashes, on top of Txn and
      the files after it.  FileDemo: a small file system on which they are run.
    - Frame, Refs: the proof that the file reference counts are right.
    - ProcMem, Fork: the memory of a process (user pages, tables, trapframe and
      trampoline) with its references, and [fork] on top of it.  ForkDemo: a
      kernel with one process, on which [fork] is run.
    - Asm: entry.S, start.c, trampoline.S, swtch.S, kernelvec.S and the
      control-register accessors of riscv.h, as instruction lists and register
      accesses on the state [hart] of one hart.
    - Initcode: user/initcode.S, which assembles to the array of proc.c, and the
      stubs that usys.pl writes, as user instructions.
    - User: a user process, its memory and its system calls (user.h).  Ulib:
      ulib.c ([Ulib]) and user/printf.c ([Uprintf]).  Umalloc: umalloc.c.  Grep:
      grep.c.  Sh, ShPrint: sh.c, and the printer its parser is compared with.
      Uprogs: cat, wc, echo, ls, ln, mkdir, rm, kill, init and zombie, a module
      each.

    ** How the model corresponds to the code

    A definition has the name of the C function it translates.  A loop of
    [f] is [f_loop] or a name that says what it does; a long function is cut
    where the code has a label or a loop.  A C array is a total function or a
    map of the indices, a pointer to an element is the index, and a null
    pointer is [None] (or 0, where the code computes with addresses).  Integers
    are [Z], truncated where the C type truncates; signed overflow and indices
    out of bounds are the outcome [UB], [panic()] is the outcome [Panic].
    Kernel memory that C code treats as bytes is memory in the model as well.

    [acquire] and [release] keep the set of locks held and panic as the code
    does.  Code that sleeps: on [kern], what other processes do meanwhile is
    the parameter [others] of class [Others] (its laws are the hypotheses of
    the theorems that need any); on the file system's own state, where nothing
    else can run, a process that would sleep does not return ([Fuel]).  The
    interleavings that matter are step relations: the atomic steps of the spin
    lock ([Smp.step]), of sleep and wakeup ([SleepWakeup.step]), of the log's
    operations ([LogSpace.step]) and of the disk driver and its device
    ([VirtioSafe.act]).

    A user program runs in the monad [U O] over its memory and a kernel [O],
    which is a parameter: class [Os] has the system calls as transitions of
    [O], and class [Stream] the law that reading a descriptor gives its bytes
    in order in non-empty pieces and that writing appends.  A program ends with
    [Exited] or, when it calls exec, [Execed].  [fork] returns in one process;
    the other is the run in which [os_fork] gives the other number.  The
    assembly runs as [exec] of a list of instructions; address translation and
    the code that runs between a save and its restore are parameters.

    ** What the theorems show

    - Memory: [cow_refines_private] (processes that share pages behave as if
      each had its own), [uvmcopy_spec], [CowHandler_spec], [copyout_spec],
      [copyin_spec], [uvmalloc_spec]; [kalloc_refines] for the allocator.
      [CowHandler_sole_owner_fails] and [CowHandler_maxva_panics] are defects
      of the handler.
    - Disk: [bio_refines] (the buffer cache is a map), [commit_atomic]
      and [crash_safe] (a transaction happens entirely or not at all),
      [log_space_safe] (how much room the log needs), [disk_action_safe] and
      [virtio_disk_rw_refines] (the driver under any interleaving, and as the
      atomic operation that the buffer cache assumes; a device error panics).
    - The file system: [readi_spec] and [writei_spec] (a file is a string of
      bytes, and different files do not interfere), [itrunc_spec] (the blocks
      of a file are freed, and no others), [dirlink_spec] (a directory is a map
      from names to inode numbers), [namex_spec] (a path leads where the
      directories say, and the references taken on the way are given back),
      [write_atomic] (a write to a file is entirely there or not at all after a
      crash: the cache, the log, the block allocator and the inode together).
      [readi], [writei] and [write_atomic] are for kernel memory and for the
      memory of the running process ([source], [target]; a write needs its
      bytes to be readable, and [small_short_run] shows what happens
      otherwise); directories and paths are in kernel memory.  They are about
      one process in the file system at a time.
    - Processes: [fork_spec] (fork puts the process table, the allocator, page
      tables, copy-on-write and the file table together: the child sees the
      parent's memory and files, and a fork that fails gives back what it took
      and fails only for want of a slot or of pages); [mutual_exclusion] for
      the locks, [scheduler_fair] (one turn for each ready process in a
      round), [no_lost_wakeup], [kill_zero_dooms] (a defect of kill).
    - Files: [file_refs_invariant] (every system call keeps the reference
      counts right), [piperead_spec] and [pipewrite_spec] (which may sleep on
      a full pipe; [reader_law] is what it needs of the others meanwhile).
    - Traps and boot: [trap_roundtrip] and [kernelvec_transparent] (what is
      interrupted gets its registers back), [swtch_resumes], [boot_starts].
    - User programs: [malloc_free_safe] (the allocator is safe);
      [match_decides] (grep's matcher against the language of the expression)
      and [grep_prints]; [parse_ends],
      [parsecmd_typed] and [parsecmd_print] (the shell's parser ends, gives
      well-formed commands, and inverts printing); [wc_counts].

    ** Fuel

    A loop that the code bounds by a constant or an array has that bound as its
    number of steps; the wait loops of the driver and the walk of a path take
    their fuel as an argument or from the length of what they walk.  The
    shell's parser has [parse_fuel], four steps a character, and [parse_ends]
    shows that it is enough; a loop over a string has the number of bytes in
    memory; the loops of the programs that read to the end of a file, and those
    of malloc and free, take their fuel as an argument, with a bound on it in
    the theorem.  The theorems are total: they say that the code returns, so
    the fuel they are stated with is enough.

    ** Not modelled

    The test programs (usertests.c, grind.c, cowtest.c, forktest.c,
    stressfs.c), which exercise the kernel and promise nothing themselves;
    ramdisk.c, which is not linked and does not fit the kernel's [struct buf];
    the [wait] of user programs with an address for the status, which only the
    tests call; the concurrency of kernel code on several harts beyond the step
    relations above; the TLB and the memory ordering that
    [__sync_synchronize] is about.  [panic]'s own message is an argument of the
    outcome.  The device behind the virtio driver and the UART is not code of
    the repository: it is the class [Device] with its laws (a request is
    served, or fails with an error status and leaves any data behind), and
    lists of bytes in and out. *)

From stdpp Require Export base tactics numbers list gmap sets strings.
From stdpp Require Export ssreflect.

#[global] Open Scope Z_scope.

(** ** Machine integers

    A C integer is a [Z]; every place where the C type truncates is written
    out with one of these functions. *)

Definition u8 (x : Z) : Z := x mod 2 ^ 8.
Definition u16 (x : Z) : Z := x mod 2 ^ 16.
Definition u32 (x : Z) : Z := x mod 2 ^ 32.
Definition u64 (x : Z) : Z := x mod 2 ^ 64.
Definition s16 (x : Z) : Z := (x + 2 ^ 15) mod 2 ^ 16 - 2 ^ 15.
Definition s32 (x : Z) : Z := (x + 2 ^ 31) mod 2 ^ 32 - 2 ^ 31.

(** The characters of a C string literal. *)
Definition chars (s : string) : list Z := (λ c, Z.of_N (Ascii.N_of_ascii c)) <$> String.list_ascii_of_string s.

(** ** The outcome of running kernel code

    [Ret] is a normal return; [Panic] is a call of [panic()], which never
    returns; [UB] is an access C gives no meaning to (an array index out of
    bounds); [Fuel] marks a loop that was cut before it finished, which every
    termination theorem rules out. *)

Inductive outcome (A : Type) : Type :=
| Ret (a : A)
| Panic (msg : string)
| UB
| Fuel.
Arguments Ret {_} a.
Arguments Panic {_} msg.
Arguments UB {_}.
Arguments Fuel {_}.

(** A kernel computation reads and writes a state [S]. *)
Definition M (S A : Type) : Type := S → outcome (A * S).

#[global] Instance M_ret (S : Type) : MRet (M S) := λ A a s, Ret (a, s).
#[global] Instance M_bind (S : Type) : MBind (M S) := λ A B k c s,
  match c s with
  | Ret (a, s') => k a s'
  | Panic msg => Panic msg
  | UB => UB
  | Fuel => Fuel
  end.

Section monad.
Context {S : Type}.

Definition panic {A} (msg : string) : M S A := λ _, Panic msg.
Definition undefined {A} : M S A := λ _, UB.
Definition out_of_fuel {A} : M S A := λ _, Fuel.
Definition gets {A} (f : S → A) : M S A := λ s, Ret (f s, s).
Definition modify (f : S → S) : M S unit := λ s, Ret (tt, f s).
End monad.

(** ** Total-correctness postconditions

    [wp c Q s]: run from [s], [c] returns, and its result and final state
    satisfy [Q].  It excludes panics, undefined behaviour and exhausted
    fuel. *)

Definition wp {S A} (c : M S A) (Q : A → S → Prop) (s : S) : Prop :=
  match c s with
  | Ret (a, s') => Q a s'
  | _ => False
  end.

Section wp.
Context {S : Type}.

Lemma wp_ret {A} (a : A) (Q : A → S → Prop) s : Q a s → wp (mret a) Q s.
Proof. done. Qed.

Lemma wp_bind {A B} (c : M S A) (k : A → M S B) (Q : B → S → Prop) s :
  wp c (λ a, wp (k a) Q) s → wp (c ≫= k) Q s.
Proof.
  rw /wp /mbind /M_bind. by destruct (c s) as [[a s']| | |].
Qed.

Lemma wp_bind_inv {A B} (c : M S A) (k : A → M S B) (Q : B → S → Prop) s :
  wp (c ≫= k) Q s → wp c (λ a, wp (k a) Q) s.
Proof.
  rw /wp /mbind /M_bind. by destruct (c s) as [[a s']| | |].
Qed.

Lemma wp_mono {A} (c : M S A) (P Q : A → S → Prop) s :
  wp c P s → (∀ a s', P a s' → Q a s') → wp c Q s.
Proof. rw /wp. destruct (c s) as [[a s']| | |]; naive_solver. Qed.

Lemma wp_and {A} (c : M S A) (P Q : A → S → Prop) s :
  wp c P s → wp c Q s → wp c (λ a s', P a s' ∧ Q a s') s.
Proof. rw /wp. destruct (c s) as [[a s']| | |]; naive_solver. Qed.

Lemma wp_gets {A} (f : S → A) (Q : A → S → Prop) s :
  Q (f s) s → wp (gets f) Q s.
Proof. done. Qed.

Lemma wp_modify (f : S → S) (Q : unit → S → Prop) s :
  Q tt (f s) → wp (modify f) Q s.
Proof. done. Qed.

Lemma wp_Ret {A} (c : M S A) (Q : A → S → Prop) s a s' :
  c s = Ret (a, s') → Q a s' → wp c Q s.
Proof. by rw /wp => ->. Qed.

Lemma wp_elim {A} (c : M S A) (Q : A → S → Prop) s :
  wp c Q s → ∃ a s', c s = Ret (a, s') ∧ Q a s'.
Proof. rw /wp. destruct (c s) as [[a s']| | |]; naive_solver. Qed.
End wp.

(** A sequence that returns: each part returns. *)
Lemma bind_Ret_inv {S A B} (c : M S A) (k : A → M S B) s b s' :
  (c ≫= k) s = Ret (b, s') → ∃ a s1, c s = Ret (a, s1) ∧ k a s1 = Ret (b, s').
Proof. rewrite /mbind /M_bind. destruct (c s) as [[a s1]| | |]; [eauto|done..]. Qed.

(** ** Counted loops

    [for(i = lo; i < hi; i++) body(i)] where the body leaves the bound alone. *)

Fixpoint for_range {S} (n : nat) (i : Z) (body : Z → M S unit) : M S unit :=
  match n with
  | O => mret tt
  | Datatypes.S n' => body i;; for_range n' (i + 1) body
  end.

Definition for_upto {S} (lo hi : Z) (body : Z → M S unit) : M S unit :=
  for_range (Z.to_nat (hi - lo)) lo body.

Lemma wp_for_range {S} (I : Z → S → Prop) n i (body : Z → M S unit) (Q : unit → S → Prop) s :
  I i s →
  (∀ j s', i ≤ j < i + Z.of_nat n → I j s' → wp (body j) (λ _ s'', I (j + 1) s'') s') →
  (∀ s', I (i + Z.of_nat n) s' → Q tt s') → wp (for_range n i body) Q s.
Proof.
  revert i s. induction n as [|n IH]; intros i s HI Hb HQ; simpl.
  { apply wp_ret, HQ. by rewrite Z.add_0_r. }
  apply wp_bind. eapply wp_mono; [apply Hb; [lia|done]|]. intros [] s' HI'. apply IH; [done| |].
  - intros j s'' Hj. apply Hb. lia.
  - intros s'' Hs. apply HQ. by rewrite (_ : i + Z.of_nat (Datatypes.S n) = i + 1 + Z.of_nat n); [|lia].
Qed.

Lemma wp_for_upto {S} (I : Z → S → Prop) lo hi (body : Z → M S unit) (Q : unit → S → Prop) s :
  lo ≤ hi → I lo s →
  (∀ j s', lo ≤ j < hi → I j s' → wp (body j) (λ _ s'', I (j + 1) s'') s') →
  (∀ s', I hi s' → Q tt s') → wp (for_upto lo hi body) Q s.
Proof.
  intros Hle HI Hb HQ. apply (wp_for_range I); [done| |].
  - intros j s' Hj. apply Hb. lia.
  - intros s'. rewrite Z2Nat.id; [|lia]. rewrite (_ : lo + (hi - lo) = hi); [|lia]. apply HQ.
Qed.

Lemma for_upto_inv {S} (I : Z → S → Prop) lo hi (body : Z → M S unit) s s' :
  lo ≤ hi → I lo s → (∀ j s1 s2, lo ≤ j < hi → I j s1 → body j s1 = Ret (tt, s2) → I (j + 1) s2) →
  for_upto lo hi body s = Ret (tt, s') → I hi s'.
Proof.
  intros Hle HI Hb. rewrite /for_upto. replace hi with (lo + Z.of_nat (Z.to_nat (hi - lo))) by lia.
  replace (lo + Z.of_nat (Z.to_nat (hi - lo)) - lo) with (Z.of_nat (Z.to_nat (hi - lo))) by lia. rewrite Nat2Z.id.
  assert (lo + Z.of_nat (Z.to_nat (hi - lo)) ≤ hi) as Hn by lia. revert Hn Hb HI.
  generalize (Z.to_nat (hi - lo)) as n. intros n. revert lo s Hle. induction n as [|n IH]; intros lo s Hle Hn Hb HI H.
  { injection H as <-. by rewrite Z.add_0_r. }
  simpl in H. apply bind_Ret_inv in H as ([] & s1 & H1 & H).
  replace (lo + Z.of_nat (Datatypes.S n)) with (lo + 1 + Z.of_nat n) by lia.
  eapply (IH (lo + 1)); [lia|lia| |by eapply Hb; [lia|..]|exact H].
  intros j s2 s3 Hj. apply Hb. lia.
Qed.

(** ** Frames

    [keeps f c]: whatever [c] does when it returns, the part [f] of the state
    is as before.  The lemmas form the hint database [keeps]. *)

Definition keeps {S A X} (f : S → X) (c : M S A) : Prop :=
  ∀ s a s', c s = Ret (a, s') → f s' = f s.

Create HintDb keeps.

Section keeps.
Context {S X : Type} (f : S → X).

Lemma keeps_ret {A} (a : A) : keeps f (mret a).
Proof. by intros s b s' [= _ <-]. Qed.
Lemma keeps_bind {A B} (c : M S A) (k : A → M S B) :
  keeps f c → (∀ a, keeps f (k a)) → keeps f (c ≫= k).
Proof.
  intros Hc Hk s b s'. rewrite /mbind /M_bind. destruct (c s) as [[a s1]| | |] eqn:E; try done.
  intros Ek. rewrite (Hk _ _ _ _ Ek). by eapply Hc.
Qed.
Lemma keeps_gets {A} (g : S → A) : keeps f (gets g).
Proof. by intros s b s' [= _ <-]. Qed.
Lemma keeps_modify (g : S → S) : (∀ s, f (g s) = f s) → keeps f (modify g).
Proof. intros Hg s b s' [= _ <-]. apply Hg. Qed.
Lemma keeps_panic {A} msg : keeps f (panic msg : M S A).
Proof. done. Qed.
Lemma keeps_undefined {A} : keeps f (undefined : M S A).
Proof. done. Qed.
Lemma keeps_fuel {A} : keeps f (out_of_fuel : M S A).
Proof. done. Qed.
Lemma keeps_if {A} (b : bool) (c d : M S A) : keeps f c → keeps f d → keeps f (if b then c else d).
Proof. by destruct b. Qed.
Lemma keeps_for_range n i body : (∀ j, keeps f (body j)) → keeps f (for_range n i body).
Proof.
  intros Hb. revert i. induction n as [|n IH]; intros i; [apply keeps_ret|].
  apply keeps_bind; [apply Hb|]. by intros _.
Qed.
Lemma keeps_for_upto lo hi body : (∀ j, keeps f (body j)) → keeps f (for_upto lo hi body).
Proof. apply keeps_for_range. Qed.
End keeps.

#[export] Hint Resolve keeps_ret keeps_gets keeps_panic keeps_undefined keeps_fuel : keeps.

Ltac solve_keeps :=
  repeat (intros; lazymatch goal with
  | |- keeps _ (_ ≫= _) => apply keeps_bind
  | |- keeps _ (if _ then _ else _) => apply keeps_if
  | |- keeps _ (for_upto _ _ _) => apply keeps_for_upto
  | |- keeps _ (match ?x with _ => _ end) => destruct x
  | |- keeps _ _ => first [solve [eauto 3 with keeps] | apply keeps_modify]
  | |- _ => reflexivity
  end).

(** [upholds R c]: whatever [c] does when it returns, the states before and
    after are related by the preorder [R]. *)
Definition upholds {S A} (R : S → S → Prop) (c : M S A) : Prop :=
  ∀ s a s', c s = Ret (a, s') → R s s'.

Create HintDb upholds.

Lemma wp_upholds {S A} (R : S → S → Prop) (c : M S A) (Q : A → S → Prop) s :
  upholds R c → wp c Q s → wp c (λ a s', Q a s' ∧ R s s') s.
Proof. rewrite /wp. intros Hc. destruct (c s) as [[a s']| | |] eqn:E; [|done..]. intros HQ. split; [done|]. by eapply Hc. Qed.

Section upholds.
Context {S : Type} (R : S → S → Prop) `{!PreOrder R}.

Lemma upholds_ret {A} (a : A) : upholds R (mret a).
Proof. by intros s b s' [= _ <-]. Qed.
Lemma upholds_bind {A B} (c : M S A) (k : A → M S B) :
  upholds R c → (∀ a, upholds R (k a)) → upholds R (c ≫= k).
Proof.
  intros Hc Hk s b s' H. apply bind_Ret_inv in H as (a & s1 & H1 & H2).
  etrans; [by eapply Hc|by eapply Hk].
Qed.
Lemma upholds_gets {A} (g : S → A) : upholds R (gets g).
Proof. by intros s b s' [= _ <-]. Qed.
Lemma upholds_modify (g : S → S) : (∀ s, R s (g s)) → upholds R (modify g).
Proof. intros Hg s b s' [= _ <-]. apply Hg. Qed.
Lemma upholds_panic {A} msg : upholds R (panic msg : M S A).
Proof. done. Qed.
Lemma upholds_undefined {A} : upholds R (undefined : M S A).
Proof. done. Qed.
Lemma upholds_fuel {A} : upholds R (out_of_fuel : M S A).
Proof. done. Qed.
Lemma upholds_if {A} (b : bool) (c d : M S A) : upholds R c → upholds R d → upholds R (if b then c else d).
Proof. by destruct b. Qed.
Lemma upholds_for_upto lo hi body : (∀ j, upholds R (body j)) → upholds R (for_upto lo hi body).
Proof.
  intros Hb. rewrite /for_upto. generalize (Z.to_nat (hi - lo)) as n. intros n. revert lo.
  induction n as [|n IH]; intros i; [apply upholds_ret|]. apply upholds_bind; [apply Hb|]. by intros _.
Qed.
End upholds.

#[export] Hint Resolve upholds_ret upholds_gets upholds_panic upholds_undefined upholds_fuel : upholds.

Ltac solve_upholds :=
  repeat (intros; lazymatch goal with
  | |- upholds _ (_ ≫= _) => apply upholds_bind; [typeclasses eauto|..]
  | |- upholds _ (if _ then _ else _) => apply upholds_if
  | |- upholds _ (for_upto _ _ _) => apply upholds_for_upto; [typeclasses eauto|]
  | |- upholds _ (match ?x with _ => _ end) => destruct x
  | |- upholds _ _ => first [solve [eauto 3 with upholds typeclass_instances] | apply upholds_modify]
  end).

(** [panics_in P c]: [c] panics only with messages in [P]. *)
Definition panics_in {S A} (P : string → Prop) (c : M S A) : Prop := ∀ s msg, c s = Panic msg → P msg.

Create HintDb panics.

Section panics.
Context {S : Type} (P : string → Prop).

Lemma panics_ret {A} (a : A) : panics_in P (mret a : M S A).
Proof. done. Qed.
Lemma panics_gets {A} (f : S → A) : panics_in P (gets f).
Proof. done. Qed.
Lemma panics_modify (f : S → S) : panics_in P (modify f).
Proof. done. Qed.
Lemma panics_undefined {A} : panics_in P (undefined : M S A).
Proof. done. Qed.
Lemma panics_fuel {A} : panics_in P (out_of_fuel : M S A).
Proof. done. Qed.
Lemma panics_bind {A B} (c : M S A) (k : A → M S B) :
  panics_in P c → (∀ a, panics_in P (k a)) → panics_in P (c ≫= k).
Proof.
  intros Hc Hk s msg. rewrite /mbind /M_bind.
  destruct (c s) as [[a s1]| | |] eqn:E; [apply Hk| |done..]. intros [= <-]. by eapply Hc.
Qed.
Lemma panics_if {A} (b : bool) (c d : M S A) :
  panics_in P c → panics_in P d → panics_in P (if b then c else d).
Proof. by destruct b. Qed.
End panics.

#[export] Hint Resolve panics_ret panics_gets panics_modify panics_undefined panics_fuel : panics.

Ltac solve_panics :=
  repeat first
    [ progress intros | solve [eauto with panics] | apply panics_if | apply panics_bind ].

(** ** Tactics

    [dlia] is [lia] after replacing divisions and remainders by their
    Euclidean equations. *)

Ltac dlia := Z.to_euclidean_division_equations; lia.

(** Run one [wp] of a monadic program up to the next call. *)
Ltac wp_steps :=
  repeat first
    [ apply wp_bind | apply wp_gets | apply wp_modify | apply wp_ret ]; cbv beta.
