(* ===== verification/Mem.v ===== *)
(** * Byte-addressed memory

    The memory the kernel's C code reads and writes: a finite map from
    addresses to bytes, with little-endian loads and stores of wider
    integers, as RISC-V does them.  Pointers are addresses ([Z]); the null
    pointer is [0].  The components use these accesses for physical memory
    and, with addresses from [0], for the data of a disk block. *)

From S2P Require Import Prelude.

(** A missing cell reads as zero; every cell holds eight bits. *)
Definition ld8 (m : gmap Z Z) (a : Z) : Z := default 0 (m !! a) mod 256.
Definition st8 (m : gmap Z Z) (a v : Z) : gmap Z Z := <[a := v mod 256]> m.

Fixpoint ldle (n : nat) (m : gmap Z Z) (a : Z) : Z :=
  match n with
  | O => 0
  | S n' => ld8 m a + 256 * ldle n' m (a + 1)
  end.

Fixpoint stle (n : nat) (m : gmap Z Z) (a v : Z) : gmap Z Z :=
  match n with
  | O => m
  | S n' => stle n' (st8 m a v) (a + 1) (v / 256)
  end.

Definition ld16 := ldle 2.
Definition st16 := stle 2.
Definition ld32 := ldle 4.
Definition st32 := stle 4.
Definition ld64 := ldle 8.
Definition st64 := stle 8.

(** Two memories agree on the addresses that satisfy [P]. *)
Definition mem_eq_on (P : Z → Prop) (m m' : gmap Z Z) : Prop :=
  ∀ a, P a → ld8 m' a = ld8 m a.

(** The addresses [p, p + n). *)
Definition span (p n a : Z) : Prop := p ≤ a < p + n.
#[global] Instance span_dec p n a : Decision (span p n a).
Proof. rw /span. apply _. Defined.

#[global] Instance mem_eq_on_equiv P : Equivalence (mem_eq_on P).
Proof.
  split.
  - by intros m a.
  - intros m m' H a Ha. by rw H.
  - intros m1 m2 m3 H12 H23 a Ha. by rw (H23 a Ha) (H12 a Ha).
Qed.

Lemma mem_eq_on_weaken (P Q : Z → Prop) m m' :
  mem_eq_on P m m' → (∀ a, Q a → P a) → mem_eq_on Q m m'.
Proof. intros H HQ a Ha. by apply H, HQ. Qed.

Lemma ld8_bound m a : 0 ≤ ld8 m a < 256.
Proof. apply Z.mod_pos_bound. lia. Qed.

Lemma ld8_st8 m a v b :
  ld8 (st8 m a v) b = if decide (b = a) then v mod 256 else ld8 m b.
Proof.
  rw /ld8 /st8. case_decide as Hb.
  - subst. rw lookup_insert_eq /=. apply Z.mod_mod. lia.
  - by rw lookup_insert_ne.
Qed.

(** A byte that was never written is zero. *)
Lemma ld8_None m a : m !! a = None → ld8 m a = 0.
Proof. by rw /ld8 => ->. Qed.

Lemma ldle_bound n m a : 0 ≤ ldle n m a < 256 ^ Z.of_nat n.
Proof.
  revert a. induction n as [|n IH]; intros a; simpl ldle.
  - simpl. lia.
  - rw Nat2Z.inj_succ. rewrite -> Z.pow_succ_r by lia.
    pose proof (IH (a + 1)). pose proof (ld8_bound m a). lia.
Qed.

Lemma ld8_stle n m a v b :
  ld8 (stle n m a v) b =
    if decide (span a (Z.of_nat n) b) then (v / 256 ^ (b - a)) mod 256 else ld8 m b.
Proof.
  revert m a v. induction n as [|n IH]; intros m a v; simpl stle.
  - case_decide as H; [unfold span in H; lia|done].
  - rw IH ld8_st8.
    destruct (decide (b = a)) as [->|Hne].
    + rewrite -> decide_False by (unfold span; lia).
      rewrite -> decide_True by (unfold span; lia).
      by rw Z.sub_diag Z.div_1_r.
    + destruct (decide (span (a + 1) (Z.of_nat n) b)) as [Hs|Hs]; unfold span in Hs.
      * rewrite -> decide_True by (unfold span; lia).
        rewrite -> Z.div_div by (try apply Z.pow_pos_nonneg; lia).
        replace (b - a) with (Z.succ (b - (a + 1))) by lia.
        by rewrite -> Z.pow_succ_r by lia.
      * rewrite -> decide_False by (unfold span; lia); done.
Qed.

Lemma ldle_ext n m m' a :
  mem_eq_on (span a (Z.of_nat n)) m m' → ldle n m' a = ldle n m a.
Proof.
  revert a. induction n as [|n IH]; intros a H; simpl; [done|].
  rewrite -> (H a) by (unfold span; lia).
  rewrite -> IH; [done|].
  eapply mem_eq_on_weaken; [exact H|]. unfold span. lia.
Qed.

Lemma ldle_of_bytes n m a v :
  (∀ b, span a (Z.of_nat n) b → ld8 m b = (v / 256 ^ (b - a)) mod 256) →
  ldle n m a = v mod 256 ^ Z.of_nat n.
Proof.
  revert a v. induction n as [|n IH]; intros a v H; simpl ldle.
  - by rw Z.mod_1_r.
  - rewrite -> (H a) by (unfold span; lia). rw Z.sub_diag Z.pow_0_r Z.div_1_r.
    rewrite -> (IH (a + 1) (v / 256)); cycle 1.
    + intros b Hb. rewrite -> H by (unfold span in *; lia).
      unfold span in Hb.
      rewrite -> Z.div_div by (try apply Z.pow_pos_nonneg; lia).
      do 2 f_equal. replace (b - a) with (Z.succ (b - (a + 1))) by lia.
      by rewrite -> Z.pow_succ_r by lia.
    + rw Nat2Z.inj_succ. rewrite -> Z.pow_succ_r by lia.
      rewrite -> Z.rem_mul_r by (try apply Z.pow_pos_nonneg; lia). lia.
Qed.

Lemma ldle_stle n m a v : ldle n (stle n m a v) a = v mod 256 ^ Z.of_nat n.
Proof.
  apply ldle_of_bytes. intros b Hb. by rw ld8_stle decide_True.
Qed.

Lemma mem_eq_on_stle n m a v (P : Z → Prop) :
  (∀ b, P b → ¬ span a (Z.of_nat n) b) → mem_eq_on P m (stle n m a v).
Proof. intros HP b Hb. rw ld8_stle. rewrite -> decide_False by (by apply HP). done. Qed.

Lemma ldle_stle_ne k n m a b v :
  b + Z.of_nat k ≤ a ∨ a + Z.of_nat n ≤ b → ldle k (stle n m a v) b = ldle k m b.
Proof.
  intros H. apply ldle_ext, mem_eq_on_stle. unfold span. lia.
Qed.

(** ** The widths the kernel uses *)

Lemma ld64_bound m a : 0 ≤ ld64 m a < 2 ^ 64.
Proof. apply (ldle_bound 8). Qed.
Lemma ld32_bound m a : 0 ≤ ld32 m a < 2 ^ 32.
Proof. apply (ldle_bound 4). Qed.

Lemma ld64_st64 m a v : ld64 (st64 m a v) a = u64 v.
Proof. apply (ldle_stle 8). Qed.
Lemma ld32_st32 m a v : ld32 (st32 m a v) a = u32 v.
Proof. apply (ldle_stle 4). Qed.

Lemma ld64_st64_ne m a b v : b + 8 ≤ a ∨ a + 8 ≤ b → ld64 (st64 m a v) b = ld64 m b.
Proof. apply (ldle_stle_ne 8 8). Qed.

Lemma ld64_ext m m' a : mem_eq_on (span a 8) m m' → ld64 m' a = ld64 m a.
Proof. apply (ldle_ext 8). Qed.

Lemma mem_eq_on_st64 m a v (P : Z → Prop) :
  (∀ b, P b → ¬ span a 8 b) → mem_eq_on P m (st64 m a v).
Proof. apply (mem_eq_on_stle 8). Qed.

Lemma ld64_zeros m a : (∀ b, span a 8 b → ld8 m b = 0) → ld64 m a = 0.
Proof.
  intros H. rw /ld64. rewrite -> (ldle_of_bytes 8 m a 0); [done|].
  intros b Hb. by rewrite -> H.
Qed.

(** Outside this file a byte is only known through the lemmas above. *)
#[global] Opaque ld8 st8.
