(* ===== verification/Cstring.v ===== *)
(** * The kernel's memory and string routines (kernel/string.c)

    Each routine is the C loop, byte by byte, over the memory of [Mem].  The
    lemmas give the closed form of the loops that the other components rely
    on; the theorems state what the routines promise, overlap of the two
    areas of [memmove] included. *)

From S2P Require Import Prelude Mem.

Fixpoint memset_loop (k : nat) (m : gmap Z Z) (cdst c i : Z) : gmap Z Z :=
  match k with
  | O => m
  | S k' => memset_loop k' (st8 m (cdst + i) c) cdst c (i + 1)
  end.

Definition memset (m : gmap Z Z) (dst c n : Z) : gmap Z Z :=
  memset_loop (Z.to_nat (u32 n)) m dst c 0.

Fixpoint memcmp_loop (k : nat) (m : gmap Z Z) (s1 s2 : Z) : Z :=
  match k with
  | O => 0
  | S k' =>
      if negb (ld8 m s1 =? ld8 m s2) then ld8 m s1 - ld8 m s2
      else memcmp_loop k' m (s1 + 1) (s2 + 1)
  end.

Definition memcmp (m : gmap Z Z) (v1 v2 n : Z) : Z :=
  memcmp_loop (Z.to_nat (u32 n)) m v1 v2.

(** [while(n-- > 0) *--d = *--s;] *)
Fixpoint copy_down (k : nat) (m : gmap Z Z) (d s : Z) : gmap Z Z :=
  match k with
  | O => m
  | S k' => copy_down k' (st8 m (d - 1) (ld8 m (s - 1))) (d - 1) (s - 1)
  end.

(** [while(n-- > 0) *d++ = *s++;] *)
Fixpoint copy_up (k : nat) (m : gmap Z Z) (d s : Z) : gmap Z Z :=
  match k with
  | O => m
  | S k' => copy_up k' (st8 m d (ld8 m s)) (d + 1) (s + 1)
  end.

Definition memmove (m : gmap Z Z) (dst src n : Z) : gmap Z Z :=
  let n := u32 n in
  if n =? 0 then m
  else if (src <? dst) && (dst <? src + n)
  then copy_down (Z.to_nat n) m (dst + n) (src + n)
  else copy_up (Z.to_nat n) m dst src.

Definition memcpy (m : gmap Z Z) (dst src n : Z) : gmap Z Z := memmove m dst src n.

Fixpoint strncmp_loop (k : nat) (m : gmap Z Z) (p q : Z) : Z :=
  match k with
  | O => 0
  | S k' =>
      if negb (ld8 m p =? 0) && (ld8 m p =? ld8 m q)
      then strncmp_loop k' m (p + 1) (q + 1)
      else ld8 m p - ld8 m q
  end.

Definition strncmp (m : gmap Z Z) (p q n : Z) : Z := strncmp_loop (Z.to_nat (u32 n)) m p q.

(** The second loop of [strncpy]: pad with zeros. *)
Fixpoint strncpy_pad (k : nat) (m : gmap Z Z) (s : Z) : gmap Z Z :=
  match k with
  | O => m
  | S k' => strncpy_pad k' (st8 m s 0) (s + 1)
  end.

Fixpoint strncpy_loop (k : nat) (m : gmap Z Z) (s t : Z) : gmap Z Z :=
  match k with
  | O => m
  | S k' =>
      let c := ld8 m t in
      let m' := st8 m s c in
      if c =? 0 then strncpy_pad k' m' (s + 1)
      else strncpy_loop k' m' (s + 1) (t + 1)
  end.

Definition strncpy (m : gmap Z Z) (s t n : Z) : gmap Z Z := strncpy_loop (Z.to_nat (s32 n)) m s t.

(** The loop of [safestrcpy], which copies bytes while [--n > 0] and the byte
    copied is not NUL; [k] is [n - 1] at entry, the result the memory and the
    final [s]. *)
Fixpoint safestrcpy_loop (k : nat) (m : gmap Z Z) (s t : Z) : gmap Z Z * Z :=
  match k with
  | O => (m, s)
  | S k' =>
      let c := ld8 m t in
      let m' := st8 m s c in
      if c =? 0 then (m', s + 1) else safestrcpy_loop k' m' (s + 1) (t + 1)
  end.

Definition safestrcpy (m : gmap Z Z) (s t n : Z) : gmap Z Z :=
  let n := s32 n in
  if n <=? 0 then m
  else let '(m', s') := safestrcpy_loop (Z.to_nat (n - 1)) m s t in st8 m' s' 0.

(** [strlen] scans until it meets a zero byte; [fuel] bounds the scan. *)
Fixpoint strlen_loop (fuel : nat) (m : gmap Z Z) (s n : Z) : option Z :=
  match fuel with
  | O => None
  | S fuel' => if ld8 m (s + n) =? 0 then Some n else strlen_loop fuel' m s (n + 1)
  end.

Definition strlen (fuel : nat) (m : gmap Z Z) (s : Z) : option Z := strlen_loop fuel m s 0.

(** A NUL-terminated string with contents [l] at [p]. *)
Fixpoint cstr (m : gmap Z Z) (p : Z) (l : list Z) : Prop :=
  match l with
  | [] => ld8 m p = 0
  | c :: l' => ld8 m p = c ∧ c ≠ 0 ∧ cstr m (p + 1) l'
  end.

(** ** Closed forms *)

Lemma u32_id n : 0 ≤ n < 2 ^ 32 → u32 n = n.
Proof. apply Z.mod_small. Qed.

Lemma ld8_memset_loop k m dst c i a :
  ld8 (memset_loop k m dst c i) a =
    if decide (span (dst + i) (Z.of_nat k) a) then c mod 256 else ld8 m a.
Proof.
  revert m i. induction k as [|k IH]; intros m i; simpl memset_loop.
  - rewrite decide_False //. unfold span. lia.
  - rw IH ld8_st8. unfold span. repeat case_decide; try lia; done.
Qed.

Lemma ld8_memset m dst c n a :
  0 ≤ n < 2 ^ 32 →
  ld8 (memset m dst c n) a = if decide (span dst n a) then c mod 256 else ld8 m a.
Proof.
  intros Hn. rw /memset ld8_memset_loop u32_id //. unfold span.
  repeat case_decide; try lia; done.
Qed.

Lemma ld8_copy_up k m d s a :
  ¬ (s < d < s + Z.of_nat k) →
  ld8 (copy_up k m d s) a =
    if decide (span d (Z.of_nat k) a) then ld8 m (s + (a - d)) else ld8 m a.
Proof.
  revert m d s. induction k as [|k IH]; intros m d s Hov; simpl copy_up.
  - rewrite decide_False //. unfold span. lia.
  - rewrite -> IH by lia. rw !ld8_st8. unfold span.
    pose proof (ld8_bound m s).
    destruct (decide (a = d)) as [->|Had].
    + rewrite -> decide_False by lia. rewrite -> decide_True by lia.
      rw Z.sub_diag Z.add_0_r. apply Z.mod_small. lia.
    + destruct (decide (d + 1 ≤ a < d + 1 + Z.of_nat k)).
      * rewrite -> decide_False by lia. rewrite -> decide_True by lia. f_equal. lia.
      * by rewrite -> decide_False by lia.
Qed.

Lemma ld8_copy_down k m d s a :
  ¬ (d < s < d + Z.of_nat k) →
  ld8 (copy_down k m d s) a =
    if decide (span (d - Z.of_nat k) (Z.of_nat k) a) then ld8 m (s - (d - a)) else ld8 m a.
Proof.
  revert m d s. induction k as [|k IH]; intros m d s Hov; simpl copy_down.
  - rewrite decide_False //. unfold span. lia.
  - rewrite -> IH by lia. rw !ld8_st8. unfold span.
    pose proof (ld8_bound m (s - 1)).
    destruct (decide (a = d - 1)) as [->|Had].
    + rewrite -> decide_False by lia. rewrite -> decide_True by lia.
      rewrite Z.mod_small; [|lia]. f_equal. lia.
    + destruct (decide (d - 1 - Z.of_nat k ≤ a < d - 1 - Z.of_nat k + Z.of_nat k)).
      * rewrite -> decide_False by lia. rewrite -> decide_True by lia. f_equal. lia.
      * by rewrite -> decide_False by lia.
Qed.

(** The contents of a name field of [k] bytes at [p]: the bytes before the
    first NUL, or all [k] when there is none. *)
Fixpoint cname (k : nat) (m : gmap Z Z) (p : Z) : list Z :=
  match k with
  | O => []
  | S k' => if ld8 m p =? 0 then [] else ld8 m p :: cname k' m (p + 1)
  end.

Lemma cname_ext k m m' p :
  mem_eq_on (span p (Z.of_nat k)) m m' → cname k m' p = cname k m p.
Proof.
  revert p. induction k as [|k IH]; intros p H; simpl; [done|].
  rewrite -> (H p) by (unfold span; lia). case_match; [done|]. f_equal.
  apply IH. eapply mem_eq_on_weaken; [exact H|]. unfold span. lia.
Qed.

Lemma cname_of_cstr k m p l : cstr m p l → cname k m p = take k l.
Proof.
  revert p l. induction k as [|k IH]; intros p l H; simpl; [done|].
  destruct l as [|c l]; simpl in H.
  - by rewrite H.
  - destruct H as (Hc & Hnz & Hl). rewrite Hc.
    case_match; [lia|]. simpl. f_equal. by apply IH.
Qed.

Lemma ld8_memmove m dst src n a :
  0 ≤ n < 2 ^ 32 →
  ld8 (memmove m dst src n) a =
    if decide (span dst n a) then ld8 m (src + (a - dst)) else ld8 m a.
Proof.
  intros Hn. rw /memmove u32_id //. unfold span.
  case_match; [case_decide; [lia|done]|].
  case_match.
  - rewrite ld8_copy_down; [|lia]. unfold span.
    repeat case_decide; try lia; f_equal; lia.
  - rewrite ld8_copy_up; [|lia]. unfold span.
    repeat case_decide; try lia; f_equal; lia.
Qed.

(** [memmove] copies [n] bytes as if through a temporary buffer, also
    when the source and the destination overlap in either direction, and
    changes nothing outside the destination. *)
Lemma memmove_spec m dst src n :
  0 ≤ n < 2 ^ 32 →
  (∀ i, 0 ≤ i < n → ld8 (memmove m dst src n) (dst + i) = ld8 m (src + i)) ∧
  mem_eq_on (λ a, ¬ span dst n a) m (memmove m dst src n).
Proof.
  intros Hn. split.
  - intros i Hi. rewrite ld8_memmove // decide_True; [f_equal; lia|unfold span; lia].
  - intros a Ha. by rewrite ld8_memmove // decide_False.
Qed.

Lemma strncmp_loop_eq k m p q :
  strncmp_loop k m p q = 0 ↔ cname k m p = cname k m q.
Proof.
  revert p q. induction k as [|k IH]; intros p q; simpl; [done|].
  pose proof (ld8_bound m p). pose proof (ld8_bound m q).
  destruct (Z.eqb_spec (ld8 m p) 0), (Z.eqb_spec (ld8 m q) 0),
    (Z.eqb_spec (ld8 m p) (ld8 m q)); simpl; try (split; [lia|done]); try lia.
  - split; [done|lia].
  - rewrite IH. split; [by intros ->; congruence|by intros [=]].
  - split; [lia|by intros [=]].
Qed.

Lemma mem_eq_on_st8 m a v (P : Z → Prop) : ¬ P a → mem_eq_on P m (st8 m a v).
Proof. intros Ha b Hb. rw ld8_st8. rewrite -> decide_False; [done|naive_solver]. Qed.

Lemma mem_eq_on_strncpy_pad k m s (P : Z → Prop) :
  (∀ a, P a → ¬ span s (Z.of_nat k) a) → mem_eq_on P m (strncpy_pad k m s).
Proof.
  revert m s. induction k as [|k IH]; intros m s HP; simpl; [done|].
  etrans; [|apply IH; intros a Ha; specialize (HP a Ha); unfold span in *; lia].
  apply mem_eq_on_st8. intros Ha. specialize (HP s Ha). unfold span in HP. lia.
Qed.

Lemma mem_eq_on_strncpy_loop k m s t (P : Z → Prop) :
  (∀ a, P a → ¬ span s (Z.of_nat k) a) → mem_eq_on P m (strncpy_loop k m s t).
Proof.
  revert m s t. induction k as [|k IH]; intros m s t HP; simpl; [done|].
  assert (mem_eq_on P m (st8 m s (ld8 m t))).
  { apply mem_eq_on_st8. intros Ha. specialize (HP s Ha). unfold span in HP. lia. }
  case_match; (etrans; [eassumption|]).
  - apply mem_eq_on_strncpy_pad. intros a Ha. specialize (HP a Ha). unfold span in *. lia.
  - apply IH. intros a Ha. specialize (HP a Ha). unfold span in *. lia.
Qed.

Lemma cname_strncpy_loop k m s t :
  s + Z.of_nat k ≤ t ∨ t + Z.of_nat k ≤ s →
  cname k (strncpy_loop k m s t) s = cname k m t.
Proof.
  revert m s t. induction k as [|k IH]; intros m s t Hd; simpl; [done|].
  pose proof (ld8_bound m t) as Hb.
  assert (Hs : ld8 (st8 m s (ld8 m t)) s = ld8 m t).
  { rw ld8_st8 decide_True //. apply Z.mod_small. lia. }
  destruct (Z.eqb_spec (ld8 m t) 0) as [H0|H0].
  - rewrite -> (mem_eq_on_strncpy_pad _ _ _ (λ a, a = s)); [|unfold span; lia|done].
    by rewrite Hs H0.
  - rewrite -> (mem_eq_on_strncpy_loop _ _ _ _ (λ a, a = s)); [|unfold span; lia|done].
    rewrite Hs. case_match; [lia|]. f_equal.
    rewrite IH; [|lia]. apply cname_ext, mem_eq_on_st8. unfold span. lia.
Qed.

(** Two name fields of [n] bytes compare equal under [strncmp] exactly
    when their contents (up to a NUL or the field width) are equal. *)
Lemma strncmp_eq m p q n :
  0 ≤ n < 2 ^ 32 →
  strncmp m p q n = 0 ↔ cname (Z.to_nat n) m p = cname (Z.to_nat n) m q.
Proof. intros Hn. rewrite /strncmp u32_id //. apply strncmp_loop_eq. Qed.

(** A name written with [strncpy] into a field of [n] bytes compares
    equal to the name it was copied from, whether or not it fills the field,
    and nothing outside the field changes. *)
Lemma strncpy_strncmp m s t n :
  0 ≤ n < 2 ^ 31 →
  s + n ≤ t ∨ t + n ≤ s →
  strncmp (strncpy m s t n) t s n = 0 ∧
  mem_eq_on (λ a, ¬ span s n a) m (strncpy m s t n).
Proof.
  intros Hn Hd.
  assert (s32 n = n) as Hs by (unfold s32; rewrite Z.mod_small; lia).
  assert (mem_eq_on (λ a, ¬ span s n a) m (strncpy m s t n)) as Hout.
  { rewrite /strncpy Hs. apply mem_eq_on_strncpy_loop. rewrite Z2Nat.id; [done|lia]. }
  split; [|done]. rewrite /strncmp u32_id; [|lia].
  apply strncmp_loop_eq.
  rewrite /strncpy Hs. rewrite cname_strncpy_loop; [|lia].
  apply cname_ext. eapply mem_eq_on_weaken.
  - rewrite /strncpy Hs in Hout. exact Hout.
  - unfold span. rewrite Z2Nat.id; lia.
Qed.

Lemma safestrcpy_loop_spec k m s t :
  let '(m', s') := safestrcpy_loop k m s t in
  s ≤ s' ≤ s + Z.of_nat k ∧
  mem_eq_on (λ a, ¬ span s (Z.of_nat k) a) m m' ∧
  (s + Z.of_nat k ≤ t ∨ t + Z.of_nat k ≤ s →
   cname k m t = cname (Z.to_nat (s' - s)) m' s).
Proof.
  revert m s t. induction k as [|k IH]; intros m s t; simpl.
  { split_and!; [lia..|done|]. by rewrite Z.sub_diag. }
  pose proof (ld8_bound m t) as Hb.
  assert (Hs : ld8 (st8 m s (ld8 m t)) s = ld8 m t).
  { rewrite ld8_st8 decide_True //. apply Z.mod_small. lia. }
  assert (Hout : mem_eq_on (λ a, ¬ span s (Z.of_nat (S k)) a) m (st8 m s (ld8 m t))).
  { apply mem_eq_on_st8. unfold span. lia. }
  destruct (Z.eqb_spec (ld8 m t) 0) as [H0|H0].
  - split_and!; [lia..|done|]. intros _.
    replace (s + 1 - s) with 1 by lia. simpl. by rewrite Hs H0.
  - specialize (IH (st8 m s (ld8 m t)) (s + 1) (t + 1)).
    destruct (safestrcpy_loop _ _ _ _) as [m' s'].
    destruct IH as (Hs' & Heq & Hn). split_and!; [lia..| |].
    + etrans; [exact Hout|]. eapply mem_eq_on_weaken; [exact Heq|]. unfold span. lia.
    + intros Hd. replace (Z.to_nat (s' - s)) with (S (Z.to_nat (s' - (s + 1)))) by lia.
      simpl. rewrite (Heq s); [|unfold span; lia]. rewrite Hs.
      case_match; [lia|]. f_equal. rewrite -Hn; [|lia].
      symmetry. apply cname_ext, mem_eq_on_st8. unfold span. lia.
Qed.

(** The bytes before the first NUL fill a prefix of the field: appending a
    NUL gives a terminated string. *)
Lemma cstr_snoc_nul k m p :
  cstr (st8 m (p + Z.of_nat k) 0) p (cname k m p).
Proof.
  revert p. induction k as [|k IH]; intros p; simpl.
  - by rewrite Z.add_0_r ld8_st8 decide_True.
  - destruct (Z.eqb_spec (ld8 m p) 0) as [H0|H0]; simpl.
    + rewrite ld8_st8. rewrite -> decide_False by lia. done.
    + split_and!; [|done|].
      * rewrite ld8_st8. by rewrite -> decide_False by lia.
      * replace (p + Z.of_nat (S k)) with (p + 1 + Z.of_nat k) by lia. apply IH.
Qed.

(** [safestrcpy] always leaves a NUL-terminated string in the [n] bytes
    of the destination: the source string cut to [n - 1] bytes, and nothing
    outside the destination changes. *)
Lemma safestrcpy_spec m s t n :
  0 < n < 2 ^ 31 →
  s + n ≤ t ∨ t + n ≤ s →
  cstr (safestrcpy m s t n) s (cname (Z.to_nat (n - 1)) m t) ∧
  mem_eq_on (λ a, ¬ span s n a) m (safestrcpy m s t n).
Proof.
  intros Hn Hd.
  assert (s32 n = n) as Hs by (unfold s32; rewrite Z.mod_small; lia).
  rewrite /safestrcpy Hs. case_match; [lia|].
  pose proof (safestrcpy_loop_spec (Z.to_nat (n - 1)) m s t) as Hl.
  destruct (safestrcpy_loop _ _ _ _) as [m' s'].
  destruct Hl as (Hs' & Hout & Hc). split.
  - rewrite Hc; [|lia]. replace s' with (s + Z.of_nat (Z.to_nat (s' - s))) at 1 by lia.
    apply cstr_snoc_nul.
  - etrans; [eapply mem_eq_on_weaken; [exact Hout|unfold span; lia]|].
    apply mem_eq_on_st8. unfold span. lia.
Qed.

Lemma strlen_loop_cstr fuel m s n l :
  cstr m (s + n) l → (length l < fuel)%nat →
  strlen_loop fuel m s n = Some (n + Z.of_nat (length l)).
Proof.
  revert n l. induction fuel as [|fuel IH]; intros n l Hl Hf; [lia|]. simpl.
  destruct l as [|c l]; simpl in Hl, Hf.
  - rewrite Hl /=. f_equal. simpl. lia.
  - destruct Hl as (-> & Hc & Hl). case_match; [lia|].
    rewrite (IH _ l); [|by rewrite Z.add_assoc|lia]. f_equal. simpl. lia.
Qed.

(** The clients reason with [ld8_memset] and [ld8_memmove], never by
    unrolling the loops. *)
#[global] Opaque memset memmove.

(** ** C strings *)

Lemma cstr_app m p l1 l2 : cstr m p (l1 ++ l2) → cstr m (p + Z.of_nat (length l1)) l2.
Proof.
  revert p. induction l1 as [|c l1 IH]; intros p; simpl; [by rewrite Z.add_0_r|]. intros (_ & _ & Hl).
  replace (p + Z.of_nat (S (length l1))) with (p + 1 + Z.of_nat (length l1)) by lia. by apply IH.
Qed.

Lemma cstr_ext m m' p l :
  (∀ a, p ≤ a ≤ p + Z.of_nat (length l) → ld8 m' a = ld8 m a) → cstr m p l → cstr m' p l.
Proof.
  revert p. induction l as [|c l IH]; intros p He; simpl in *.
  - intros H. rewrite He //. lia.
  - intros (E1 & E2 & Hc). split_and!; [rewrite He //; lia|done|]. apply IH; [|done]. intros a Ha. apply He. lia.
Qed.
