(* ===== verification/Riscv.v ===== *)
(** * Pages, page-table entries and the memory layout
      (kernel/riscv.h, kernel/memlayout.h)

    The macros of the two headers, with the C operators written as [Z.land],
    [Z.lor], [Z.shiftl] and [Z.shiftr], and their arithmetic readings, which
    the later files use. *)

From S2P Require Import Prelude.

Notation PGSIZE := 4096.
Notation KERNBASE := 0x80000000.
Notation PHYSTOP := 0x88000000.
Notation MAXVA := 0x4000000000.
Notation TRAMPOLINE := 0x3ffffff000.
Notation TRAPFRAME := 0x3fffffe000.

Definition PGSHIFT : Z := 12.
Definition PGROUNDUP (sz : Z) : Z := Z.land (u64 (sz + PGSIZE - 1)) (Z.lnot (PGSIZE - 1)).
Definition PGROUNDDOWN (a : Z) : Z := Z.land a (Z.lnot (PGSIZE - 1)).
Definition PGINDEX (a : Z) : Z := Z.shiftr a PGSHIFT.

Definition PTE_V : Z := Z.shiftl 1 0.
Definition PTE_R : Z := Z.shiftl 1 1.
Definition PTE_W : Z := Z.shiftl 1 2.
Definition PTE_X : Z := Z.shiftl 1 3.
Definition PTE_U : Z := Z.shiftl 1 4.
Definition PTE_COW : Z := Z.shiftl 1 8.

Definition PA2PTE (pa : Z) : Z := u64 (Z.shiftl (Z.shiftr pa 12) 10).
Definition PTE2PA (pte : Z) : Z := u64 (Z.shiftl (Z.shiftr pte 10) 12).
Definition PTE_FLAGS (pte : Z) : Z := Z.land pte 0x3FF.

Definition PXMASK : Z := 0x1FF.
Definition PXSHIFT (level : Z) : Z := PGSHIFT + 9 * level.
Definition PX (level va : Z) : Z := Z.land (Z.shiftr va (PXSHIFT level)) PXMASK.

(** [KSTACK(p)]: the kernel stack of process slot [p], a guard page below it. *)
Definition KSTACK (p : Z) : Z := TRAMPOLINE - (p + 1) * 2 * PGSIZE.

(** [x & f] as a C condition. *)
Definition flag (x f : Z) : bool := negb (Z.land x f =? 0).

(** The addresses kernel.ld and the linker give to the kernel image: the
    first address after the kernel, the end of its text and the trampoline
    page. *)
Class KernelImage := {
  kend : Z;
  etext : Z;
  trampoline : Z;
  etext_range : KERNBASE < etext ≤ kend;
  etext_aligned : etext mod PGSIZE = 0;
  kend_range : kend ≤ PHYSTOP;
  trampoline_range : KERNBASE ≤ trampoline < etext;
  trampoline_aligned : trampoline mod PGSIZE = 0;
}.

(** An image that leaves 64 pages to the allocator, for concrete runs. *)
#[refine] Definition small_image : KernelImage := {|
  kend := 0x87fc0000;
  etext := 0x80008000;
  trampoline := 0x80007000;
|}.
Proof. all: vm_compute; try done; by split. Defined.

(** ** Arithmetic readings *)

Lemma lnot_pgmask a : Z.land a (Z.lnot 4095) = a / 4096 * 4096.
Proof.
  change 4095 with (Z.ones 12). rw -Z.ldiff_land. rewrite -> Z.ldiff_ones_r by lia.
  rewrite -> Z.shiftl_mul_pow2, Z.shiftr_div_pow2 by lia. done.
Qed.

Lemma PGROUNDDOWN_eq a : PGROUNDDOWN a = a / 4096 * 4096.
Proof. apply lnot_pgmask. Qed.

Lemma PGROUNDUP_eq a :
  0 ≤ a → a + 4095 < 2 ^ 64 → PGROUNDUP a = (a + 4095) / 4096 * 4096.
Proof.
  intros H0 H1. rw /PGROUNDUP /u64. rewrite -> Z.mod_small by lia.
  rw lnot_pgmask. f_equal. f_equal. lia.
Qed.

Lemma PGINDEX_eq a : PGINDEX a = a / 4096.
Proof. rw /PGINDEX /PGSHIFT. by rewrite -> Z.shiftr_div_pow2 by lia. Qed.

Lemma PX_eq level va : 0 ≤ level → PX level va = (va / 2 ^ (12 + 9 * level)) mod 512.
Proof.
  intros Hl. rw /PX /PXSHIFT /PXMASK /PGSHIFT. change 0x1FF with (Z.ones 9).
  rewrite -> Z.land_ones, Z.shiftr_div_pow2 by lia. done.
Qed.

Lemma PX_bound level va : 0 ≤ level → 0 ≤ PX level va < 512.
Proof. intros Hl. rewrite -> PX_eq by done. apply Z.mod_pos_bound. lia. Qed.

(** The three indices determine the page of a legal virtual address. *)
Lemma PX_page va :
  0 ≤ va < MAXVA →
  va / 4096 = PX 2 va * 2 ^ 18 + PX 1 va * 2 ^ 9 + PX 0 va.
Proof.
  intros Hva. rewrite -> !PX_eq by lia.
  change (2 ^ (12 + 9 * 2)) with 1073741824.
  change (2 ^ (12 + 9 * 1)) with 2097152. change (2 ^ (12 + 9 * 0)) with 4096.
  change (2 ^ 18) with 262144. change (2 ^ 9) with 512.
  dlia.
Qed.

Lemma PX_top va : 0 ≤ va < MAXVA → PX 2 va < 256.
Proof.
  intros Hva. rewrite -> PX_eq by lia. change (2 ^ (12 + 9 * 2)) with 1073741824. dlia.
Qed.

(** The address with given indices. *)
Lemma PX_make i j k :
  0 ≤ i < 256 → 0 ≤ j < 512 → 0 ≤ k < 512 →
  let va := (i * 2 ^ 18 + j * 2 ^ 9 + k) * 4096 in
  0 ≤ va < MAXVA ∧ PX 2 va = i ∧ PX 1 va = j ∧ PX 0 va = k.
Proof.
  intros Hi Hj Hk va. rewrite -> !PX_eq by lia. subst va.
  change (2 ^ (12 + 9 * 2)) with 1073741824.
  change (2 ^ (12 + 9 * 1)) with 2097152. change (2 ^ (12 + 9 * 0)) with 4096.
  change (2 ^ 18) with 262144. change (2 ^ 9) with 512.
  split_and!; dlia.
Qed.

Lemma PX_page_eq va va' :
  0 ≤ va → 0 ≤ va' → va / 4096 = va' / 4096 → ∀ l, 0 ≤ l ≤ 2 → PX l va = PX l va'.
Proof.
  intros H0 H0' Hp l Hl. rewrite -> !PX_eq by lia.
  replace (2 ^ (12 + 9 * l)) with (4096 * 2 ^ (9 * l)) by (rewrite -> Z.pow_add_r by lia; done).
  assert (0 < 2 ^ (9 * l)) by (apply Z.pow_pos_nonneg; lia).
  rewrite <- !Z.div_div by lia. by rewrite Hp.
Qed.

Lemma PA2PTE_eq pa : 0 ≤ pa < 2 ^ 64 → PA2PTE pa = pa / 4096 * 1024.
Proof.
  intros H. rw /PA2PTE /u64. rewrite -> Z.shiftl_mul_pow2, Z.shiftr_div_pow2 by lia.
  change (2 ^ 12) with 4096. change (2 ^ 10) with 1024.
  apply Z.mod_small. dlia.
Qed.

Lemma PTE2PA_eq pte : 0 ≤ pte < 2 ^ 62 → PTE2PA pte = pte / 1024 * 4096.
Proof.
  intros H. rw /PTE2PA /u64. rewrite -> Z.shiftl_mul_pow2, Z.shiftr_div_pow2 by lia.
  change (2 ^ 12) with 4096. change (2 ^ 10) with 1024.
  apply Z.mod_small. dlia.
Qed.

Lemma PTE_FLAGS_eq pte : PTE_FLAGS pte = pte mod 1024.
Proof. rw /PTE_FLAGS. change 0x3FF with (Z.ones 10). by rewrite -> Z.land_ones by lia. Qed.

(** Or-ing flags below bit [k] into a multiple of [2 ^ k] adds them. *)
Lemma lor_disjoint k a f : 0 ≤ k → 0 ≤ f < 2 ^ k → Z.lor (a * 2 ^ k) f = a * 2 ^ k + f.
Proof.
  intros Hk Hf.
  cut (Z.land (a * 2 ^ k) f = 0); [intros H; pose proof (Z.add_lor_land (a * 2 ^ k) f); lia|].
  apply Z.bits_inj'. intros n Hn. rw Z.land_spec Z.bits_0.
  destruct (decide (n < k)).
  - by rewrite -> Z.mul_pow2_bits_low by lia.
  - destruct (decide (f = 0)) as [->|]; [by rw Z.bits_0 andb_false_r|].
    rewrite (Z.bits_above_log2 f n); [by rw andb_false_r|lia|apply Z.log2_lt_pow2; [lia|]].
    eapply Z.lt_le_trans; [apply Hf|]. apply Z.pow_le_mono_r; lia.
Qed.

Lemma mk_pte_eq pa f :
  0 ≤ pa < 2 ^ 64 → 0 ≤ f < 1024 → Z.lor (PA2PTE pa) f = pa / 4096 * 1024 + f.
Proof. intros Hpa Hf. rewrite -> PA2PTE_eq by done. by apply (lor_disjoint 10). Qed.
