(* ===== verification/Spinlock.v ===== *)
(** * Spin locks and interrupt nesting (kernel/spinlock.c)

    Three views of the same code.  [Module Cpu]: [push_off], [pop_off],
    [holding], [acquire] and [release] as one hart runs them, on the machine
    state they touch (every hart's interrupt bit, nesting depth and saved
    interrupt state, and every lock word).  [Module Smp]: the same code cut
    at its atomic steps and interleaved over any number of harts, with the
    mutual-exclusion invariant.  [HasLocks]: the set of locks the running
    hart holds, which is what the sequential models of the other components
    carry; its [acquire] panics on a lock already held and its [release] on
    one that is not, as the C code does. *)

From S2P Require Import Prelude.
From stdpp Require Import functions.

Local Open Scope Z_scope.

(** Every spin lock of the kernel, by the variable that holds it. *)
Inductive lockid : Type :=
| KMEM | REFLOCK | PID_LOCK | WAIT_LOCK | TICKSLOCK | FTABLE | ITABLE | LOGLOCK
| BCACHE | CONS | UART_TX | PR | VDISK
| PROC (slot : Z)      (** [proc[slot].lock] *)
| PIPE (pi : Z)        (** the lock of the pipe at address [pi] *)
| SLEEP (lk : Z).      (** the spin lock inside a sleep lock *)

#[global] Instance lockid_eq_dec : EqDecision lockid.
Proof. solve_decision. Defined.

#[global] Instance lockid_countable : Countable lockid.
Proof.
  refine (inj_countable'
    (λ l, match l with
          | KMEM => (0, 0) | REFLOCK => (1, 0) | PID_LOCK => (2, 0) | WAIT_LOCK => (3, 0)
          | TICKSLOCK => (4, 0) | FTABLE => (5, 0) | ITABLE => (6, 0) | LOGLOCK => (7, 0)
          | BCACHE => (8, 0) | CONS => (9, 0) | UART_TX => (10, 0) | PR => (11, 0)
          | VDISK => (12, 0) | PROC z => (13, z) | PIPE z => (14, z) | SLEEP z => (15, z)
          end : Z * Z)
    (λ p, match p with
          | (0, _) => KMEM | (1, _) => REFLOCK | (2, _) => PID_LOCK | (3, _) => WAIT_LOCK
          | (4, _) => TICKSLOCK | (5, _) => FTABLE | (6, _) => ITABLE | (7, _) => LOGLOCK
          | (8, _) => BCACHE | (9, _) => CONS | (10, _) => UART_TX | (11, _) => PR
          | (12, _) => VDISK | (13, z) => PROC z | (14, z) => PIPE z | (_, z) => SLEEP z
          end) _).
  by intros [].
Defined.

Module Cpu.
(** [struct cpu] as far as spinlock.c uses it, with the hart's SIE bit. *)
Record cpu := mk_cpu { intr : bool; noff : Z; intena : bool }.

(** [struct spinlock]; [lcpu] is the hart recorded in [lk->cpu]. *)
Record spinlock := mk_lock { locked : bool; lcpu : option Z }.

Record mach := mk_mach { cpus : Z → cpu; locks : lockid → spinlock }.

Definition set_cpu (h : Z) (c : cpu) (s : mach) : mach :=
  mk_mach (<[h := c]> (cpus s)) (locks s).
Definition set_lock (l : lockid) (k : spinlock) (s : mach) : mach :=
  mk_mach (cpus s) (<[l := k]> (locks s)).

Definition initlock (l : lockid) : M mach unit := modify (set_lock l (mk_lock false None)).

Definition push_off (h : Z) : M mach unit :=
  c ← gets (λ s, cpus s h);
  let old := intr c in
  let c := mk_cpu false (noff c) (intena c) in
  let c := if noff c =? 0 then mk_cpu (intr c) (noff c) old else c in
  modify (set_cpu h (mk_cpu (intr c) (noff c + 1) (intena c))).

Definition pop_off (h : Z) : M mach unit :=
  c ← gets (λ s, cpus s h);
  if intr c then panic "pop_off - interruptible"
  else if noff c <? 1 then panic "pop_off"
  else
    let c := mk_cpu (intr c) (noff c - 1) (intena c) in
    let c := if (noff c =? 0) && intena c then mk_cpu true (noff c) (intena c) else c in
    modify (set_cpu h c).

Definition holding (h : Z) (l : lockid) (s : mach) : bool :=
  locked (locks s l) && bool_decide (lcpu (locks s l) = Some h).

(** [__sync_lock_test_and_set(&lk->locked, 1)]: the old value. *)
Definition test_and_set (l : lockid) : M mach bool :=
  old ← gets (λ s, locked (locks s l));
  k ← gets (λ s, locks s l);
  modify (set_lock l (mk_lock true (lcpu k)));;
  mret old.

(** [while(__sync_lock_test_and_set(...) != 0);]: a hart that spins alone
    spins forever, so one failed swap exhausts the sequential run. *)
Definition acquire (h : Z) (l : lockid) : M mach unit :=
  push_off h;;
  held ← gets (holding h l);
  if held : bool then panic "acquire"
  else
    old ← test_and_set l;
    if old : bool then out_of_fuel
    else modify (set_lock l (mk_lock true (Some h))).

Definition release (h : Z) (l : lockid) : M mach unit :=
  held ← gets (holding h l);
  if negb held then panic "release"
  else
    modify (λ s, set_lock l (mk_lock (locked (locks s l)) None) s);;
    modify (λ s, set_lock l (mk_lock false (lcpu (locks s l))) s);;
    pop_off h.

(** A hart with consistent interrupt bookkeeping: interrupts are off inside
    a [push_off] section. *)
Definition cpu_ok (c : cpu) : Prop := 0 ≤ noff c ∧ (0 < noff c → intr c = false).

Lemma push_off_eq h s :
  push_off h s =
    Ret (tt, set_cpu h (mk_cpu false (noff (cpus s h) + 1)
                          (if noff (cpus s h) =? 0 then intr (cpus s h)
                           else intena (cpus s h))) s).
Proof. rewrite /push_off /gets /modify /mbind /M_bind /=. by case_match. Qed.

Lemma pop_off_eq h s :
  intr (cpus s h) = false → 0 < noff (cpus s h) →
  pop_off h s =
    Ret (tt, set_cpu h (mk_cpu ((noff (cpus s h) =? 1) && intena (cpus s h))
                          (noff (cpus s h) - 1) (intena (cpus s h))) s).
Proof.
  intros Hi Hn. rewrite /pop_off /gets /modify /mbind /M_bind /= Hi.
  case_match; [lia|]. simpl.
  replace (noff (cpus s h) - 1 =? 0) with (noff (cpus s h) =? 1) by lia.
  by case_match.
Qed.

(** Run a sequence of [push_off] ([true]) and [pop_off] ([false]). *)
Fixpoint run_offs (h : Z) (l : list bool) : M mach unit :=
  match l with
  | [] => mret tt
  | b :: l' => (if b then push_off h else pop_off h);; run_offs h l'
  end.

(** The sequence stays balanced above depth [d] and ends at depth [d]. *)
Fixpoint balanced (d : nat) (l : list bool) : Prop :=
  match l with
  | [] => d = O
  | true :: l' => balanced (S d) l'
  | false :: l' => match d with O => False | S d' => balanced d' l' end
  end.

(** What [d] nested [push_off]s since a moment when the hart was in state
    [c0] have made of it. *)
Definition nested (c0 : cpu) (d : nat) (c : cpu) : Prop :=
  noff c = noff c0 + Z.of_nat d ∧
  (if decide (d = O) then intr c = intr c0 else intr c = false) ∧
  (d ≠ O ∨ noff c0 ≠ 0 → intena c = if noff c0 =? 0 then intr c0 else intena c0).

Lemma nested_push c0 d c h s :
  cpu_ok c0 → nested c0 d c → cpus s h = c →
  ∃ c', push_off h s = Ret (tt, set_cpu h c' s) ∧ nested c0 (S d) c'.
Proof.
  intros [Hc0 Hoff] (Hn & Hi & He) Hc. eexists. split; [apply push_off_eq|].
  rewrite Hc /nested /=. split_and!; [lia|done|]. intros _.
  destruct (Z.eqb_spec (noff c) 0) as [Hz|Hz].
  - destruct d; [simpl in Hi|lia].
    by rewrite (_ : noff c0 =? 0 = true) ; [|lia].
  - apply He. lia.
Qed.

Lemma nested_pop c0 d c h s :
  cpu_ok c0 → nested c0 (S d) c → cpus s h = c →
  ∃ c', pop_off h s = Ret (tt, set_cpu h c' s) ∧ nested c0 d c'.
Proof.
  intros [Hc0 Hoff] (Hn & Hi & He) Hc. simpl in Hi.
  eexists. split; [apply pop_off_eq; rewrite Hc; [done|lia]|].
  rewrite Hc /nested /=. rewrite He; [|by left].
  split_and!; [lia| |done].
  destruct (Z.eqb_spec (noff c) 1) as [H1|H1]; simpl.
  - destruct d; [simpl|lia].
    by rewrite (_ : noff c0 =? 0 = true); [|lia].
  - case_decide; [|done]. rewrite Hoff //. lia.
Qed.

(** Two machine states that differ at most in one hart's [struct cpu]. *)
Definition same_but_cpu (h : Z) (s s' : mach) : Prop :=
  locks s' = locks s ∧ ∀ h', h' ≠ h → cpus s' h' = cpus s h'.

Lemma same_but_cpu_set h c s s' :
  same_but_cpu h (set_cpu h c s) s' → same_but_cpu h s s'.
Proof.
  intros [Hl Hc]. split; [done|]. intros h' Hne. rewrite Hc // /=.
  by rewrite fn_lookup_insert_ne.
Qed.

Lemma run_offs_nested l h d c0 s :
  cpu_ok c0 → nested c0 d (cpus s h) → balanced d l →
  wp (run_offs h l) (λ _ s', nested c0 O (cpus s' h) ∧ same_but_cpu h s s') s.
Proof.
  revert d s. induction l as [|b l IH]; intros d s Hc0 Hd Hb; simpl.
  { simpl in Hb. subst d. apply wp_ret. split; [done|by split]. }
  destruct b; [|destruct d as [|d]; [done|]].
  - destruct (nested_push c0 d _ h s Hc0 Hd eq_refl) as (c' & Hrun & Hn').
    apply wp_bind. eapply wp_Ret; [exact Hrun|]. eapply wp_mono.
    + eapply IH; [done| |exact Hb]. by rewrite /= fn_lookup_insert.
    + intros _ s' [Hs' Hsame]. eauto using same_but_cpu_set.
  - destruct (nested_pop c0 d _ h s Hc0 Hd eq_refl) as (c' & Hrun & Hn').
    apply wp_bind. eapply wp_Ret; [exact Hrun|]. eapply wp_mono.
    + eapply IH; [done| |exact Hb]. by rewrite /= fn_lookup_insert.
    + intros _ s' [Hs' Hsame]. eauto using same_but_cpu_set.
Qed.

(** [push_off] and [pop_off] match: any balanced sequence of them runs
    without panicking and leaves the hart at the nesting depth and with the
    interrupt enable bit it started with, and touches nothing else. *)
Lemma push_pop_balanced h l s :
  cpu_ok (cpus s h) → balanced 0 l →
  wp (run_offs h l) (λ _ s',
    noff (cpus s' h) = noff (cpus s h) ∧ intr (cpus s' h) = intr (cpus s h) ∧
    same_but_cpu h s s') s.
Proof.
  intros Hok Hb. eapply wp_mono.
  - apply (run_offs_nested l h 0 (cpus s h)); [done| |done].
    split_and!; [lia|done|]. intros [?|Hnz]; [done|]. by case_match; [lia|].
  - intros _ s' [(Hn & Hi & _) Hsame]. split_and!; [lia|done|done].
Qed.

(** [acquire] then [release] of a free lock: what each leaves behind. *)
Lemma acquire_free h l s :
  locked (locks s l) = false →
  ∃ s', acquire h l s = Ret (tt, s') ∧ holding h l s' = true ∧
    noff (cpus s' h) = noff (cpus s h) + 1 ∧ intr (cpus s' h) = false ∧
    (∀ l', l' ≠ l → locks s' l' = locks s l').
Proof.
  intros Hl. rewrite /acquire {1}/mbind /M_bind push_off_eq.
  rewrite /gets /modify /test_and_set /holding /mret /M_ret /=.
  rewrite /mbind /M_bind /gets /= Hl /= Hl /=.
  eexists. split; [done|]. rewrite /= !fn_lookup_insert /=.
  split_and!; [by rewrite bool_decide_eq_true_2|done|done|].
  intros l' Hne. by rewrite !fn_lookup_insert_ne.
Qed.

Lemma acquire_held_panics h l s :
  holding h l s = true → acquire h l s = Panic "acquire".
Proof.
  intros Hh. rewrite /acquire /mbind /M_bind push_off_eq /gets.
  by rewrite (_ : holding h l _ = true).
Qed.
End Cpu.

(** ** Interleaved harts *)

Module Smp.
Import Cpu.

(** Where a hart stands between two atomic steps of [acquire] and
    [release]. *)
Inductive pc : Type :=
| Run                  (** outside the lock code *)
| Spin (l : lockid)    (** in the test-and-set loop of [acquire] *)
| Took (l : lockid)    (** the swap succeeded; [lk->cpu] not yet written *)
| Unown (l : lockid)   (** in [release], [lk->cpu] cleared *)
| Freed (l : lockid).  (** in [release], [lk->locked] cleared, [pop_off] next *)

(** A hart: where it stands and the locks it has finished acquiring. *)
Record hart := mk_hart { at_pc : pc; holds : gset lockid }.

Record conf := mk_conf { ms : mach; harts : Z → hart }.

Definition set_hart (h : Z) (t : hart) (s : mach) (c : conf) : conf :=
  mk_conf s (<[h := t]> (harts c)).

(** One atomic step of hart [h]. *)
Inductive step (h : Z) : conf → conf → Prop :=
| step_enter c l s' :
    at_pc (harts c h) = Run →
    push_off h (ms c) = Ret (tt, s') → holding h l s' = false →
    step h c (set_hart h (mk_hart (Spin l) (holds (harts c h))) s' c)
| step_spin c l s' :
    at_pc (harts c h) = Spin l → test_and_set l (ms c) = Ret (true, s') →
    step h c (set_hart h (harts c h) s' c)
| step_take c l s' :
    at_pc (harts c h) = Spin l → test_and_set l (ms c) = Ret (false, s') →
    step h c (set_hart h (mk_hart (Took l) (holds (harts c h))) s' c)
| step_own c l :
    at_pc (harts c h) = Took l →
    step h c (set_hart h (mk_hart Run ({[l]} ∪ holds (harts c h)))
              (set_lock l (mk_lock true (Some h)) (ms c)) c)
| step_unown c l :
    at_pc (harts c h) = Run → holding h l (ms c) = true →
    step h c (set_hart h (mk_hart (Unown l) (holds (harts c h) ∖ {[l]}))
              (set_lock l (mk_lock (locked (locks (ms c) l)) None) (ms c)) c)
| step_free c l :
    at_pc (harts c h) = Unown l →
    step h c (set_hart h (mk_hart (Freed l) (holds (harts c h)))
              (set_lock l (mk_lock false (lcpu (locks (ms c) l))) (ms c)) c)
| step_pop c l s' :
    at_pc (harts c h) = Freed l → pop_off h (ms c) = Ret (tt, s') →
    step h c (set_hart h (mk_hart Run (holds (harts c h))) s' c).

(** All locks free, no hart in the lock code. *)
Definition initial (c : conf) : Prop :=
  (∀ l, locks (ms c) l = mk_lock false None) ∧
  (∀ h, harts c h = mk_hart Run ∅ ∧ noff (cpus (ms c) h) = 0).

(** The hart is the one that set the lock word. *)
Definition owns (t : hart) (l : lockid) : Prop :=
  l ∈ holds t ∨ at_pc t = Took l ∨ at_pc t = Unown l.

Definition depth (t : hart) : Z :=
  Z.of_nat (size (holds t)) + match at_pc t with Run => 0 | _ => 1 end.

Record inv (c : conf) : Prop := {
  inv_excl : ∀ h h' l, owns (harts c h) l → owns (harts c h') l → h = h';
  inv_locked : ∀ h l, owns (harts c h) l → locked (locks (ms c) l) = true;
  inv_lcpu : ∀ h l, l ∈ holds (harts c h) ↔ lcpu (locks (ms c) l) = Some h;
  inv_pend : ∀ h l, at_pc (harts c h) = Took l ∨ at_pc (harts c h) = Unown l →
                    lcpu (locks (ms c) l) = None;
  inv_depth : ∀ h, noff (cpus (ms c) h) = depth (harts c h) ∧
                   (0 < noff (cpus (ms c) h) → intr (cpus (ms c) h) = false);
}.

(** Case analysis on updated harts, CPUs and lock words. *)
Ltac upd :=
  repeat match goal with
  | H : context [(<[?x := _]> _) ?x] |- _ => rewrite fn_lookup_insert in H
  | |- context [(<[?x := _]> _) ?x] => rewrite fn_lookup_insert
  | H : context [(<[?x := _]> _) ?y], Hne : ?x ≠ ?y |- _ =>
      rewrite -> fn_lookup_insert_ne in H by exact Hne
  | Hne : ?x ≠ ?y |- context [(<[?x := _]> _) ?y] =>
      rewrite -> fn_lookup_insert_ne by exact Hne
  | H : context [(<[?x := _]> _) ?y] |- _ => destruct (decide (x = y)) as [<-|?]
  | |- context [(<[?x := _]> _) ?y] => destruct (decide (x = y)) as [<-|?]
  end; simpl in *.

Lemma test_and_set_eq l s :
  test_and_set l s =
    Ret (locked (locks s l), set_lock l (mk_lock true (lcpu (locks s l))) s).
Proof. done. Qed.

Lemma initial_inv c : initial c → inv c.
Proof.
  intros [Hl Hh]. split.
  - intros h h' l Ho. exfalso. destruct (Hh h) as [Ht _]. rewrite /owns Ht /= in Ho. set_solver.
  - intros h l Ho. exfalso. destruct (Hh h) as [Ht _]. rewrite /owns Ht /= in Ho. set_solver.
  - intros h l. destruct (Hh h) as [-> _]. rewrite Hl /=. set_solver.
  - intros h l _. by rewrite Hl.
  - intros h. destruct (Hh h) as [Ht Hn]. rewrite Hn Ht. split; [done|lia].
Qed.

Lemma depth_nonneg t : 0 ≤ depth t.
Proof. rewrite /depth. destruct (at_pc t); lia. Qed.

(** The ownership clauses of the invariant are about who owns what; a step
    of hart [h] changes that for one lock at most. *)
Lemma owns_set h t c s h1 k :
  owns (harts (set_hart h t s c) h1) k ↔ if decide (h1 = h) then owns t k else owns (harts c h1) k.
Proof.
  rewrite /set_hart /=. case_decide as Hh; [subst; by rewrite fn_lookup_insert|].
  by rewrite fn_lookup_insert_ne.
Qed.

Ltac owns_cases h1 :=
  rewrite owns_set; destruct (decide (h1 = _)) as [->|]; [rewrite /owns /=|].

(** A lock owned after a step of [h] was owned by the same hart before, or
    its word was clear and [h] has just set it; its word is set. *)
Lemma step_owns h c c' h1 k :
  step h c c' → inv c → owns (harts c' h1) k →
  locked (locks (ms c') k) = true ∧
  (owns (harts c h1) k ∨ h1 = h ∧ locked (locks (ms c) k) = false).
Proof.
  intros Hstep [Hx Hk Hc Hp Hd].
  destruct Hstep as [c l s' Hpc Hr Hh|c l s' Hpc Hr|c l s' Hpc Hr|c l Hpc
                    |c l Hpc Hh|c l Hpc|c l s' Hpc Hr].
  - rewrite push_off_eq in Hr. injection Hr as <-.
    owns_cases h1; [|naive_solver].
    intros Ho. assert (owns (harts c h) k) by (rewrite /owns; naive_solver). naive_solver.
  - rewrite test_and_set_eq in Hr. injection Hr as Hl <-. rewrite owns_set.
    intros Ho. assert (owns (harts c h1) k) by (case_decide; by subst).
    simpl. upd; naive_solver.
  - rewrite test_and_set_eq in Hr. injection Hr as Hl <-.
    owns_cases h1; [|simpl; upd; naive_solver]. intros Ho.
    assert (owns (harts c h) k ∨ k = l) as [Ho'| ->] by (rewrite /owns; naive_solver);
      simpl; upd; naive_solver.
  - owns_cases h1; [|simpl; upd; naive_solver]. intros Ho.
    assert (owns (harts c h) k) by (rewrite /owns; set_solver). simpl; upd; naive_solver.
  - apply andb_prop in Hh as [Hl Hh%bool_decide_eq_true%Hc].
    owns_cases h1; [|simpl; upd; naive_solver]. intros Ho.
    assert (owns (harts c h) k) by (rewrite /owns; set_solver). simpl; upd; naive_solver.
  - assert (owns (harts c h) l) by (right; by right).
    assert (l ∉ holds (harts c h)) as Hnl by (intros Hin%Hc; rewrite (Hp h l) in Hin; naive_solver).
    owns_cases h1; intros Ho.
    + assert (owns (harts c h) k) by (rewrite /owns; naive_solver).
      simpl. upd; [set_solver|naive_solver].
    + assert (k ≠ l) by naive_solver. simpl. upd; naive_solver.
  - rewrite pop_off_eq in Hr; [|apply (Hd h); rewrite (proj1 (Hd h)) /depth Hpc; lia
                              |rewrite (proj1 (Hd h)) /depth Hpc; lia].
    injection Hr as <-. owns_cases h1; [|naive_solver].
    intros Ho. assert (owns (harts c h) k) by (rewrite /owns; naive_solver). naive_solver.
Qed.

Lemma step_lcpu h c c' :
  step h c c' → inv c →
  (∀ h1 k, k ∈ holds (harts c' h1) ↔ lcpu (locks (ms c') k) = Some h1) ∧
  (∀ h1 k, at_pc (harts c' h1) = Took k ∨ at_pc (harts c' h1) = Unown k →
           lcpu (locks (ms c') k) = None).
Proof.
  intros Hstep [Hx Hk Hc Hp Hd].
  destruct Hstep as [c l s' Hpc Hr Hh|c l s' Hpc Hr|c l s' Hpc Hr|c l Hpc
                    |c l Hpc Hh|c l Hpc|c l s' Hpc Hr].
  - rewrite push_off_eq in Hr. injection Hr as <-.
    split; intros h1 k; specialize (Hc h1 k); specialize (Hp h1 k); simpl; upd; naive_solver.
  - rewrite test_and_set_eq in Hr. injection Hr as Hl <-.
    split; intros h1 k; specialize (Hc h1 k); specialize (Hp h1 k); simpl; upd; naive_solver.
  - rewrite test_and_set_eq in Hr. injection Hr as Hl <-.
    assert (lcpu (locks (ms c) l) = None) as Hn.
    { destruct (lcpu _) as [h2|] eqn:E; [|done]. apply Hc in E.
      rewrite (Hk h2 l) in Hl; [done|by left]. }
    split; intros h1 k; specialize (Hc h1 k); specialize (Hp h1 k); simpl; upd; naive_solver.
  - assert (lcpu (locks (ms c) l) = None) as Hn by (apply (Hp h); by left).
    assert (∀ h1, at_pc (harts c h1) = Took l ∨ at_pc (harts c h1) = Unown l → h1 = h) as Hu.
    { intros h1 H1. apply (Hx h1 h l); [by right|right; by left]. }
    split; intros h1 k; specialize (Hc h1 k); specialize (Hp h1 k); simpl; upd; set_solver.
  - apply andb_prop in Hh as [Hl Hh%bool_decide_eq_true].
    split; intros h1 k; specialize (Hc h1 k); specialize (Hp h1 k); simpl; upd; set_solver.
  - split; intros h1 k; specialize (Hc h1 k); specialize (Hp h1 k); simpl; upd; naive_solver.
  - rewrite pop_off_eq in Hr; [|apply (Hd h); rewrite (proj1 (Hd h)) /depth Hpc; lia
                              |rewrite (proj1 (Hd h)) /depth Hpc; lia].
    injection Hr as <-.
    split; intros h1 k; specialize (Hc h1 k); specialize (Hp h1 k); simpl; upd; naive_solver.
Qed.

Lemma step_depth h c c' :
  step h c c' → inv c →
  ∀ h1, noff (cpus (ms c') h1) = depth (harts c' h1) ∧
        (0 < noff (cpus (ms c') h1) → intr (cpus (ms c') h1) = false).
Proof.
  intros Hstep [Hx Hk Hc Hp Hd] h1.
  pose proof (Hd h) as [Hdh Hih]. specialize (Hd h1).
  destruct Hstep as [c l s' Hpc Hr Hh|c l s' Hpc Hr|c l s' Hpc Hr|c l Hpc
                    |c l Hpc Hh|c l Hpc|c l s' Hpc Hr]; unfold depth in *.
  - rewrite push_off_eq in Hr. injection Hr as <-. simpl. upd; [|done].
    rewrite Hpc in Hdh. split; [lia|done].
  - rewrite test_and_set_eq in Hr. injection Hr as Hl <-. simpl. by upd.
  - rewrite test_and_set_eq in Hr. injection Hr as Hl <-. simpl. upd; [|done].
    by rewrite Hpc in Hdh.
  - simpl. upd; [|done]. rewrite Hpc in Hdh.
    rewrite size_union; [|set_unfold; intros ? -> Hin%Hc; rewrite (Hp h l) in Hin; naive_solver].
    rewrite size_singleton. split; [lia|done].
  - apply andb_prop in Hh as [Hl Hh%bool_decide_eq_true%Hc].
    simpl. upd; [|done]. rewrite Hpc in Hdh. split; [|done].
    assert (size {[l]} ≤ size (holds (harts c h)))%nat by (apply subseteq_size; set_solver).
    rewrite size_difference; [|set_solver]. rewrite size_singleton in H *. lia.
  - simpl. upd; [|done]. by rewrite Hpc in Hdh.
  - rewrite Hpc in Hdh. rewrite pop_off_eq in Hr; [|apply Hih; lia|lia].
    injection Hr as <-. simpl. upd; [|done]. split; [lia|].
    intros Hn. rewrite (_ : noff (cpus (ms c) h) =? 1 = false); [done|lia].
Qed.

Lemma step_inv h c c' : step h c c' → inv c → inv c'.
Proof.
  intros Hstep Hinv. destruct (step_lcpu h c c' Hstep Hinv) as [Hc' Hp'].
  split; [|..|exact (step_depth h c c' Hstep Hinv)]; [|..|exact Hp'].
  - intros h1 h2 k H1 H2.
    destruct (step_owns h c c' h1 k Hstep Hinv H1) as [_ [O1|[-> E1]]],
      (step_owns h c c' h2 k Hstep Hinv H2) as [_ [O2|[-> E2]]]; [|..|done].
    + by apply (inv_excl c Hinv _ _ k).
    + by rewrite (inv_locked c Hinv h1 k O1) in E2.
    + by rewrite (inv_locked c Hinv h2 k O2) in E1.
  - intros h1 k H1. by destruct (step_owns h c c' h1 k Hstep Hinv H1).
  - exact Hc'.
Qed.

Definition reachable (c : conf) : Prop :=
  ∃ c0, initial c0 ∧ rtc (λ a b, ∃ h, step h a b) c0 c.

Lemma reachable_inv c : reachable c → inv c.
Proof.
  intros (c0 & Hi & Hs). apply initial_inv in Hi. revert Hi.
  induction Hs as [|a b d [h Hab] _ IH]; [done|]. eauto using step_inv.
Qed.

(** C30: mutual exclusion. However the atomic steps of [acquire] and
    [release] of any number of harts interleave, no two harts are ever
    between taking the same lock and giving it up; the lock word is set
    while a hart is, [holding()] answers yes exactly on the hart that
    finished [acquire], and interrupts are off on every hart inside. *)
Theorem mutual_exclusion c h h' l :
  reachable c → owns (harts c h) l →
  (owns (harts c h') l → h' = h) ∧
  locked (locks (ms c) l) = true ∧
  (holding h l (ms c) = true ↔ l ∈ holds (harts c h)) ∧
  intr (cpus (ms c) h) = false.
Proof.
  intros Hr Ho. destruct (reachable_inv c Hr) as [Hx Hk Hc Hp Hd].
  specialize (Hk h l Ho). split_and!.
  - intros Ho'. by apply (Hx h' h l).
  - done.
  - rewrite /holding Hk /= bool_decide_eq_true. symmetry. apply Hc.
  - apply (Hd h). rewrite (proj1 (Hd h)) /depth. destruct Ho as [Hin|Hpc].
    + assert (size (holds (harts c h)) ≠ 0)%nat.
      { rewrite size_non_empty_iff. set_solver. }
      destruct (at_pc _); lia.
    + destruct Hpc as [-> | ->]; lia.
Qed.

(** Hart 0 has entered [acquire] of [kmem.lock] and taken it. *)
Definition free_machine : mach := mk_mach (λ _, mk_cpu true 0 false) (λ _, mk_lock false None).
Definition idle : conf := mk_conf free_machine (λ _, mk_hart Run ∅).
Definition taken_machine : mach :=
  set_lock KMEM (mk_lock true None) (set_cpu 0 (mk_cpu false 1 true) free_machine).
Definition spin_conf : conf :=
  set_hart 0 (mk_hart (Spin KMEM) ∅) (set_cpu 0 (mk_cpu false 1 true) free_machine) idle.
Definition taken_conf : conf := set_hart 0 (mk_hart (Took KMEM) ∅) taken_machine spin_conf.

Lemma taken_reachable : reachable taken_conf.
Proof.
  exists idle. split; [by split|].
  apply (rtc_l _ _ spin_conf); [exists 0; exact (step_enter 0 idle KMEM _ eq_refl eq_refl eq_refl)|].
  apply rtc_once. exists 0. exact (step_take 0 spin_conf KMEM taken_machine eq_refl eq_refl).
Qed.

Lemma mutual_exclusion_witness :
  (owns (harts taken_conf 1) KMEM → 1 = 0) ∧ locked (locks (ms taken_conf) KMEM) = true ∧
  (holding 0 KMEM (ms taken_conf) = true ↔ KMEM ∈ holds (harts taken_conf 0)) ∧
  intr (cpus (ms taken_conf) 0) = false.
Proof.
  apply (mutual_exclusion taken_conf 0 1 KMEM taken_reachable). right. by left.
Defined.
End Smp.

(** ** The locks the running hart holds

    The state of a sequential component model carries this set. *)

Class HasLocks (S : Type) := {
  held : S → gset lockid;
  set_held : gset lockid → S → S;
  held_set h s : held (set_held h s) = h;
  set_held_held s : set_held (held s) s = s;
  set_held_set h h' s : set_held h (set_held h' s) = set_held h s;
}.

Section tracker.
Context {S : Type} `{!HasLocks S}.

Definition acquire (l : lockid) : M S unit := λ s,
  if decide (l ∈ held s) then Panic "acquire" else Ret (tt, set_held ({[l]} ∪ held s) s).

Definition release (l : lockid) : M S unit := λ s,
  if decide (l ∈ held s) then Ret (tt, set_held (held s ∖ {[l]}) s) else Panic "release".

Lemma acquire_eq l s : l ∉ held s → acquire l s = Ret (tt, set_held ({[l]} ∪ held s) s).
Proof. intros H. rewrite /acquire decide_False //. Qed.

Lemma release_eq l s : l ∈ held s → release l s = Ret (tt, set_held (held s ∖ {[l]}) s).
Proof. intros H. rewrite /release decide_True //. Qed.

Lemma wp_acquire l Q s :
  l ∉ held s → Q tt (set_held ({[l]} ∪ held s) s) → wp (acquire l) Q s.
Proof. intros Hl HQ. rewrite /wp acquire_eq //. Qed.

Lemma wp_release l Q s :
  l ∈ held s → Q tt (set_held (held s ∖ {[l]}) s) → wp (release l) Q s.
Proof. intros Hl HQ. rewrite /wp release_eq //. Qed.

(** Taking and giving back a lock around a change of the rest of the state
    leaves that change. *)
Lemma held_restore l (h : gset lockid) : l ∉ h → ({[l]} ∪ h) ∖ {[l]} = h.
Proof. set_solver. Qed.
End tracker.
