(* ===== verification/Kalloc.v ===== *)
(** * The physical page allocator with reference counts (kernel/kalloc.c)

    State: physical memory, the head [kmem.freelist] of the free list, which
    is threaded through the first eight bytes of the free pages themselves,
    the array [pgref] of reference counts that copy-on-write fork added, and
    the locks the running hart holds.  The free list as a Rocq list and the
    counts are related to the machine state by [kinv]; [Spec] is the
    allocator as its clients see it and [kalloc_refines] the refinement. *)

From S2P Require Import Prelude Mem Cstring Riscv Spinlock.

Local Open Scope Z_scope.

Record kst := mk_kst {
  mem : gmap Z Z;
  freelist : Z;
  pgref : gmap Z Z;
  kheld : gset lockid;
}.

Definition set_mem (m : gmap Z Z) (s : kst) : kst :=
  mk_kst m (freelist s) (pgref s) (kheld s).
Definition set_freelist (r : Z) (s : kst) : kst :=
  mk_kst (mem s) r (pgref s) (kheld s).
Definition set_pgref (g : gmap Z Z) (s : kst) : kst :=
  mk_kst (mem s) (freelist s) g (kheld s).

#[global] Program Instance kst_locks : HasLocks kst := {|
  held := kheld;
  set_held h s := mk_kst (mem s) (freelist s) (pgref s) h;
|}.
Solve Obligations with by intros; destruct_and?; try match goal with s : kst |- _ => destruct s end.

(** The number of entries of [pgref]. *)
Notation NPGREF := 0x88000.

(** The addresses of page [p]. *)
Abbreviation in_page p := (span p PGSIZE).

Section kalloc.
Context {KI : KernelImage}.

(** [pgref[idx]]; the array covers the indices below [PHYSTOP >> PGSHIFT]. *)
Definition count (s : kst) (idx : Z) : Z := default 0 (pgref s !! idx).

Definition pgref_get (idx : Z) : M kst Z :=
  if (0 <=? idx) && (idx <? NPGREF) then gets (λ s, count s idx) else undefined.
Definition pgref_set (idx cnt : Z) : M kst unit :=
  if (0 <=? idx) && (idx <? NPGREF)
  then modify (λ s, set_pgref (<[idx := cnt]> (pgref s)) s) else undefined.

Definition incref (pa : Z) : M kst unit :=
  let idx := u32 (PGINDEX pa) in
  acquire REFLOCK;;
  c ← pgref_get idx;
  pgref_set idx (u32 (c + 1));;
  release REFLOCK.

Definition setref (pa cnt : Z) : M kst unit :=
  let idx := u32 (PGINDEX pa) in
  acquire REFLOCK;;
  pgref_set idx cnt;;
  release REFLOCK.

Definition decref (pa : Z) : M kst unit :=
  let idx := u32 (PGINDEX pa) in
  acquire REFLOCK;;
  c ← pgref_get idx;
  pgref_set idx (u32 (c - 1));;
  release REFLOCK.

Definition kfree (pa : Z) : M kst unit :=
  if negb (pa mod PGSIZE =? 0) || (pa <? kend) || (PHYSTOP <=? pa) then panic "kfree"
  else
    acquire REFLOCK;;
    let index := u32 (PGINDEX pa) in
    c ← pgref_get index;
    if 1 <? c then
      pgref_set index (u32 (c - 1));;
      release REFLOCK
    else
      pgref_set index 0;;
      release REFLOCK;;
      modify (λ s, set_mem (memset (mem s) pa 1 PGSIZE) s);;
      acquire KMEM;;
      modify (λ s, set_mem (st64 (mem s) pa (freelist s)) s);;
      modify (set_freelist pa);;
      release KMEM.

Definition kalloc : M kst Z :=
  acquire KMEM;;
  r ← gets freelist;
  (if negb (r =? 0) then modify (λ s, set_freelist (ld64 (mem s) r) s) else mret tt);;
  release KMEM;;
  (if negb (r =? 0) then
     modify (λ s, set_mem (memset (mem s) r 5 PGSIZE) s);;
     setref r 1
   else mret tt);;
  mret r.

(** [for(; p + PGSIZE <= pa_end; p += PGSIZE)]. *)
Fixpoint freerange_loop (fuel : nat) (p pa_end : Z) : M kst unit :=
  match fuel with
  | O => out_of_fuel
  | S fuel' =>
      if p + PGSIZE <=? pa_end then
        setref p 1;;
        kfree p;;
        freerange_loop fuel' (p + PGSIZE) pa_end
      else mret tt
  end.

Definition freerange (pa_start pa_end : Z) : M kst unit :=
  let p := PGROUNDUP pa_start in
  freerange_loop (S (Z.to_nat ((pa_end - p) / PGSIZE))) p pa_end.

Definition initlock (l : lockid) : M kst unit := modify (λ s, set_held (held s ∖ {[l]}) s).

Definition kinit : M kst unit :=
  initlock KMEM;;
  initlock REFLOCK;;
  freerange kend PHYSTOP.

(** ** The operations in closed form *)

Definition page_ok (p : Z) : Prop := p mod PGSIZE = 0 ∧ kend ≤ p < PHYSTOP.
#[global] Instance page_ok_dec p : Decision (page_ok p).
Proof. rewrite /page_ok. apply _. Defined.

Lemma page_ok_range p : page_ok p → KERNBASE < p < PHYSTOP ∧ p mod PGSIZE = 0.
Proof. intros [Ha Hr]. pose proof etext_range. lia. Qed.

(** The reference count of the page at [p]. *)
Definition ref (s : kst) (p : Z) : Z := count s (p / PGSIZE).

Definition with_ref (p c : Z) (s : kst) : kst := set_pgref (<[p / PGSIZE := c]> (pgref s)) s.

Lemma index_eq pa : 0 ≤ pa < PHYSTOP → u32 (PGINDEX pa) = pa / PGSIZE.
Proof. intros H. rewrite PGINDEX_eq u32_id //. dlia. Qed.

Lemma index_in_bounds pa :
  0 ≤ pa < PHYSTOP → (0 <=? pa / PGSIZE) && (pa / PGSIZE <? NPGREF) = true.
Proof. intros H. apply andb_true_intro. split; dlia. Qed.

(** Run the code on a symbolic state: locks, counts and plain updates. *)
Ltac run :=
  rewrite /mbind /M_bind;
  repeat (progress first
    [ rewrite acquire_eq; [|set_solver] | rewrite release_eq; [|set_solver]
    | rewrite index_eq; [|lia] | rewrite index_in_bounds; [|lia]
    | rewrite /gets /modify /mret /M_ret /= ]).

(** Two states with the same fields, the held locks up to set equality. *)
Lemma kst_eq s s' :
  mem s = mem s' → freelist s = freelist s' → pgref s = pgref s' → kheld s = kheld s' → s = s'.
Proof. destruct s, s'. simpl. by intros -> -> -> ->. Qed.

Lemma setref_eq pa cnt s :
  0 ≤ pa < PHYSTOP → REFLOCK ∉ held s → setref pa cnt s = Ret (tt, with_ref pa cnt s).
Proof.
  intros Hpa Hl. rewrite /setref /pgref_set. run.
  do 2 f_equal. apply kst_eq; simpl; [done..|]. by apply held_restore.
Qed.

Lemma incref_eq pa s :
  0 ≤ pa < PHYSTOP → REFLOCK ∉ held s →
  incref pa s = Ret (tt, with_ref pa (u32 (ref s pa + 1)) s).
Proof.
  intros Hpa Hl. rewrite /incref /pgref_set /pgref_get. run.
  do 2 f_equal. apply kst_eq; simpl; [done..|]. by apply held_restore.
Qed.

Lemma decref_eq pa s :
  0 ≤ pa < PHYSTOP → REFLOCK ∉ held s →
  decref pa s = Ret (tt, with_ref pa (u32 (ref s pa - 1)) s).
Proof.
  intros Hpa Hl. rewrite /decref /pgref_set /pgref_get. run.
  do 2 f_equal. apply kst_eq; simpl; [done..|]. by apply held_restore.
Qed.

Lemma kfree_guard pa :
  negb (pa mod PGSIZE =? 0) || (pa <? kend) || (PHYSTOP <=? pa) = negb (bool_decide (page_ok pa)).
Proof.
  rewrite /page_ok. case_bool_decide as Hp; simpl.
  - repeat (apply orb_false_intro); lia.
  - destruct (Z.eqb_spec (pa mod PGSIZE) 0), (Z.ltb_spec pa kend), (Z.leb_spec PHYSTOP pa);
      simpl; try done. exfalso. apply Hp. lia.
Qed.

Lemma kfree_bad pa s : ¬ page_ok pa → kfree pa s = Panic "kfree".
Proof. intros Hp. rewrite /kfree kfree_guard bool_decide_eq_false_2 //. Qed.

Lemma kfree_shared_eq pa s :
  page_ok pa → 1 < ref s pa → REFLOCK ∉ held s →
  kfree pa s = Ret (tt, with_ref pa (u32 (ref s pa - 1)) s).
Proof.
  intros Hp Hr Hl. pose proof (page_ok_range pa Hp) as [Hrng _].
  rewrite /kfree kfree_guard bool_decide_eq_true_2 // /= /pgref_get /pgref_set. run.
  rewrite (_ : 1 <? _ = true); [|unfold ref, count in *; simpl; lia]. run.
  do 2 f_equal. apply kst_eq; simpl; [done..|]. by apply held_restore.
Qed.

(** The state after the last reference to [pa] is dropped. *)
Definition freed (pa : Z) (s : kst) : kst :=
  mk_kst (st64 (memset (mem s) pa 1 PGSIZE) pa (freelist s)) pa
    (<[pa / PGSIZE := 0]> (pgref s)) (kheld s).

Lemma kfree_last_eq pa s :
  page_ok pa → ref s pa ≤ 1 → REFLOCK ∉ held s → KMEM ∉ held s →
  kfree pa s = Ret (tt, freed pa s).
Proof.
  intros Hp Hr Hl Hl'. pose proof (page_ok_range pa Hp) as [Hrng _].
  rewrite /kfree kfree_guard bool_decide_eq_true_2 // /= /pgref_get /pgref_set. run.
  rewrite (_ : 1 <? _ = false); [|unfold ref, count in *; simpl; lia]. run.
  do 2 f_equal. apply kst_eq; simpl; [done..|].
  rewrite !held_restore //.
Qed.

(** The state after the page [r] at the head of the free list is taken. *)
Definition taken (r : Z) (s : kst) : kst :=
  mk_kst (memset (mem s) r 5 PGSIZE) (ld64 (mem s) r) (<[r / PGSIZE := 1]> (pgref s)) (kheld s).

Lemma kalloc_eq s :
  KMEM ∉ held s → REFLOCK ∉ held s → freelist s ≠ 0 → 0 ≤ freelist s < PHYSTOP →
  kalloc s = Ret (freelist s, taken (freelist s) s).
Proof.
  intros Hl Hl' Hr Hrng. rewrite /kalloc. run.
  rewrite (_ : freelist s =? 0 = false); [|lia]. run.
  rewrite setref_eq //=; [|set_solver]. do 2 f_equal.
  apply kst_eq; simpl; [done..|]. by apply held_restore.
Qed.

Lemma kalloc_empty_eq s :
  KMEM ∉ held s → freelist s = 0 → kalloc s = Ret (0, s).
Proof.
  intros Hl Hr. rewrite /kalloc. run. rewrite Hr /=. run.
  do 2 f_equal. apply kst_eq; simpl; [done..|]. by apply held_restore.
Qed.

(** ** The invariant *)

(** The free list from [p] on: each page starts with the address of the
    next one. *)
Fixpoint chain (m : gmap Z Z) (p : Z) (l : list Z) : Prop :=
  match l with
  | [] => p = 0
  | a :: l' => p = a ∧ chain m (ld64 m a) l'
  end.

(** [fl] is the free list; a page is on it exactly when its count is zero;
    counts are 32-bit and zero outside the allocator's range. *)
Record kinv (s : kst) (fl : list Z) : Prop := {
  ki_chain : chain (mem s) (freelist s) fl;
  ki_nodup : NoDup fl;
  ki_ok : Forall page_ok fl;
  ki_ref : ∀ p, page_ok p → p ∈ fl ↔ ref s p = 0;
  ki_out : ∀ i, ¬ page_ok (i * PGSIZE) → count s i = 0;
  ki_bound : ∀ i, 0 ≤ count s i < 2 ^ 32;
}.

Lemma pages_disjoint p q a : page_ok p → page_ok q → in_page p a → in_page q a → p = q.
Proof. rewrite /page_ok /span. intros [Hp _] [Hq _] Ha Hb. dlia. Qed.

Lemma chain_ext m m' p l :
  Forall page_ok l →
  (∀ a, a ∈ l → mem_eq_on (in_page a) m m') → chain m p l → chain m' p l.
Proof.
  revert p. induction l as [|a l IH]; intros p Hok Hm Hc; simpl in *; [done|].
  destruct Hc as [-> Hc]. inversion_clear Hok as [|? ? Ha Hl]. split; [done|].
  rewrite (ld64_ext m m').
  - apply IH; [done| |done]. intros b Hb. apply Hm. set_solver.
  - eapply mem_eq_on_weaken; [apply (Hm a); set_solver|]. unfold span. lia.
Qed.

Lemma count_with_ref p c s i :
  count (with_ref p c s) i = if decide (i = p / PGSIZE) then c else count s i.
Proof.
  rewrite /count /=. case_decide; [subst; by rewrite lookup_insert_eq|].
  by rewrite lookup_insert_ne.
Qed.

Lemma ref_with_ref p c s q :
  p mod PGSIZE = 0 → q mod PGSIZE = 0 →
  ref (with_ref p c s) q = if decide (q = p) then c else ref s q.
Proof.
  intros Hp Hq. rewrite /ref count_with_ref. repeat case_decide; try done; [|by subst].
  exfalso. dlia.
Qed.

Lemma page_of_index p : p mod PGSIZE = 0 → p / PGSIZE * PGSIZE = p.
Proof. intros H. dlia. Qed.

(** Changing the count of an allocated page to another non-zero count. *)
Lemma kinv_with_ref s fl p c :
  kinv s fl → page_ok p → p ∉ fl → 0 < c < 2 ^ 32 → kinv (with_ref p c s) fl.
Proof.
  intros [Hc Hn Ho Hr Hout Hb] Hp Hfl Hc32. split; try done.
  - intros q Hq. rewrite ref_with_ref; [|apply Hp|apply Hq].
    case_decide; [|by apply Hr]. subst. split; [done|lia].
  - intros i Hi. rewrite count_with_ref. case_decide; [|by apply Hout].
    subst. rewrite page_of_index in Hi; [done|apply Hp].
  - intros i. rewrite count_with_ref. case_decide; [lia|apply Hb].
Qed.

Lemma ld8_memset_page m p c a :
  ld8 (memset m p c PGSIZE) a = if decide (in_page p a) then c mod 256 else ld8 m a.
Proof. by rewrite ld8_memset. Qed.

Lemma kinv_taken s p fl :
  kinv s (p :: fl) →
  freelist s = p ∧ kinv (taken p s) fl.
Proof.
  intros [Hc Hn Ho Hr Hout Hb]. destruct Hc as [Hp Hc].
  apply NoDup_cons in Hn as [Hnp Hn]. apply Forall_cons in Ho as [Hop Ho].
  split; [done|]. split; try done.
  - eapply chain_ext; [done| |exact Hc].
    intros a Ha b Hb'. rewrite /= ld8_memset_page decide_False //.
    intros Hb''. assert (a = p); [|by subst].
    eapply pages_disjoint; [|exact Hop|exact Hb'|exact Hb'']. by eapply Forall_forall in Ha.
  - intros q Hq. change (ref (taken p s) q) with (ref (with_ref p 1 s) q).
    rewrite ref_with_ref; [|apply Hop|apply Hq].
    case_decide; [subst; split; [done|lia]|].
    rewrite -Hr //. set_solver.
  - intros i Hi. change (count (taken p s) i) with (count (with_ref p 1 s) i). rewrite count_with_ref.
    case_decide; [|by apply Hout]. subst. rewrite page_of_index in Hi; [done|apply Hop].
  - intros i. change (count (taken p s) i) with (count (with_ref p 1 s) i). rewrite count_with_ref.
    case_decide; [lia|apply Hb].
Qed.

(** Pushing a page that is not on the free list. *)
Lemma chain_freed s p fl :
  chain (mem s) (freelist s) fl → Forall page_ok fl → page_ok p → p ∉ fl →
  chain (mem (freed p s)) (freelist (freed p s)) (p :: fl).
Proof.
  intros Hc Ho Hp Hfl. simpl. split; [done|].
  assert (Hr0 : 0 ≤ freelist s < 2 ^ 64).
  { destruct fl as [|a fl]; simpl in Hc; [lia|]. destruct Hc as [-> _].
    apply Forall_cons in Ho as [Ha _]. pose proof (page_ok_range a Ha). lia. }
  rewrite ld64_st64 /u64 Z.mod_small; [|done].
  eapply chain_ext; [done| |exact Hc].
  intros a Ha b Hb'. simpl.
  assert (¬ in_page p b) as Hnp.
  { intros Hpb. assert (a = p); [|by subst].
    eapply pages_disjoint; [|exact Hp|exact Hb'|exact Hpb]. by eapply Forall_forall in Ha. }
  rewrite /st64 ld8_stle decide_False; [|unfold span in *; lia].
  by rewrite ld8_memset_page decide_False.
Qed.

Lemma kinv_freed s p fl :
  kinv s fl → page_ok p → p ∉ fl → kinv (freed p s) (p :: fl).
Proof.
  intros [Hc Hn Ho Hr Hout Hb] Hp Hfl. split.
  - by apply chain_freed.
  - by constructor.
  - by constructor.
  - intros q Hq. change (ref (freed p s) q) with (ref (with_ref p 0 s) q).
    rewrite ref_with_ref; [|apply Hp|apply Hq].
    case_decide; [subst; split; [done|set_solver]|]. rewrite -Hr //. set_solver.
  - intros i Hi. change (count (freed p s) i) with (count (with_ref p 0 s) i). rewrite count_with_ref.
    case_decide; [done|by apply Hout].
  - intros i. change (count (freed p s) i) with (count (with_ref p 0 s) i). rewrite count_with_ref.
    case_decide; [lia|apply Hb].
Qed.

(** ** Rules for the clients *)

Definition unlocked (s : kst) : Prop := KMEM ∉ held s ∧ REFLOCK ∉ held s.

Lemma wp_kalloc s fl (Q : Z → kst → Prop) :
  kinv s fl → unlocked s →
  (∀ p fl', fl = p :: fl' → kinv (taken p s) fl' → Q p (taken p s)) →
  (fl = [] → Q 0 s) → wp kalloc Q s.
Proof.
  intros Hk [Hl Hl'] Hsome Hnone. rewrite /wp. destruct fl as [|p fl].
  - rewrite kalloc_empty_eq //; [by apply Hnone|]. by apply (ki_chain _ _ Hk).
  - destruct (kinv_taken s p fl Hk) as [Hp Hk'].
    assert (page_ok p) as Hok by (pose proof (ki_ok _ _ Hk) as Ho; by inversion Ho).
    pose proof (page_ok_range p Hok).
    rewrite kalloc_eq //; [by rewrite Hp; apply (Hsome p fl)|lia..].
Qed.

Lemma wp_kfree s fl p (Q : unit → kst → Prop) :
  kinv s fl → unlocked s → page_ok p → p ∉ fl →
  (1 < ref s p → kinv (with_ref p (ref s p - 1) s) fl → Q tt (with_ref p (ref s p - 1) s)) →
  (ref s p = 1 → kinv (freed p s) (p :: fl) → Q tt (freed p s)) →
  wp (kfree p) Q s.
Proof.
  intros Hk [Hl Hl'] Hok Hfl Hsh Hlast. rewrite /wp.
  pose proof (ki_bound _ _ Hk (p / PGSIZE)) as Hb. fold (ref s p) in Hb.
  assert (ref s p ≠ 0) by (rewrite -(ki_ref _ _ Hk p Hok); done).
  destruct (decide (1 < ref s p)) as [H1|H1].
  - rewrite kfree_shared_eq // u32_id; [|lia]. apply Hsh; [done|].
    apply kinv_with_ref; [done..|lia].
  - rewrite kfree_last_eq //; [|lia]. apply Hlast; [lia|]. by apply kinv_freed.
Qed.

Lemma wp_incref s fl p (Q : unit → kst → Prop) :
  kinv s fl → unlocked s → page_ok p → p ∉ fl → ref s p + 1 < 2 ^ 32 →
  (kinv (with_ref p (ref s p + 1) s) fl → Q tt (with_ref p (ref s p + 1) s)) →
  wp (incref p) Q s.
Proof.
  intros Hk [Hl Hl'] Hok Hfl Hb HQ. rewrite /wp. pose proof (page_ok_range p Hok).
  pose proof (ki_bound _ _ Hk (p / PGSIZE)) as Hb'. fold (ref s p) in Hb'.
  rewrite incref_eq // ?u32_id; [|lia..]. apply HQ. apply kinv_with_ref; [done..|lia].
Qed.
End kalloc.

(** ** The allocator its clients see *)

Module Spec.
(** The pages that can be handed out, in order, and the number of
    references to each page that has been. *)
Record alloc := mk_alloc { free : list Z; rc : gmap Z Z }.

Inductive op := Alloc | Free (p : Z) | Inc (p : Z).

(** [None]: the client broke the contract (a page it has no reference to,
    or more references than a [uint] counts). *)
Definition step (o : op) (a : alloc) : option (Z * alloc) :=
  match o with
  | Alloc =>
      match free a with
      | [] => Some (0, a)
      | p :: l => Some (p, mk_alloc l (<[p := 1]> (rc a)))
      end
  | Free p =>
      c ← rc a !! p;
      Some (0, if 1 <? c then mk_alloc (free a) (<[p := c - 1]> (rc a))
               else mk_alloc (p :: free a) (delete p (rc a)))
  | Inc p =>
      c ← rc a !! p;
      if c + 1 <? 2 ^ 32 then Some (0, mk_alloc (free a) (<[p := c + 1]> (rc a))) else None
  end.

Fixpoint run (os : list op) (a : alloc) : option (list Z * alloc) :=
  match os with
  | [] => Some ([], a)
  | o :: os' =>
      '(r, a') ← step o a;
      '(rs, a'') ← run os' a';
      Some (r :: rs, a'')
  end.
End Spec.

Section refinement.
Context {KI : KernelImage}.

Definition exec (o : Spec.op) : M kst Z :=
  match o with
  | Spec.Alloc => kalloc
  | Spec.Free p => kfree p;; mret 0
  | Spec.Inc p => incref p;; mret 0
  end.

Fixpoint exec_all (os : list Spec.op) : M kst (list Z) :=
  match os with
  | [] => mret []
  | o :: os' => r ← exec o; rs ← exec_all os'; mret (r :: rs)
  end.

(** The machine state [s] implements the abstract allocator [a]. *)
Record refines (s : kst) (a : Spec.alloc) : Prop := {
  rf_inv : kinv s (Spec.free a);
  rf_locks : unlocked s;
  rf_rc : ∀ p, Spec.rc a !! p =
    if decide (page_ok p ∧ ref s p ≠ 0) then Some (ref s p) else None;
}.

Lemma refines_rc s a p c :
  refines s a → Spec.rc a !! p = Some c → page_ok p ∧ p ∉ Spec.free a ∧ ref s p = c.
Proof.
  intros [Hk _ Hrc] Hp. rewrite Hrc in Hp. case_decide as Hd; [|done].
  injection Hp as <-. destruct Hd as [Hok Hnz].
  split_and!; [done| |done]. by rewrite (ki_ref _ _ Hk p Hok).
Qed.

Lemma page_ok_aligned p : page_ok p → p mod PGSIZE = 0.
Proof. by intros []. Qed.

Lemma ref_ok_with_ref s p c q :
  page_ok p → page_ok q →
  ref (with_ref p c s) q = if decide (q = p) then c else ref s q.
Proof. intros Hp Hq. apply ref_with_ref; by apply page_ok_aligned. Qed.

Lemma rc_with_ref s p c (g : gmap Z Z) :
  page_ok p → c ≠ 0 →
  (∀ q, g !! q = if decide (page_ok q ∧ ref s q ≠ 0) then Some (ref s q) else None) →
  ∀ q, <[p := c]> g !! q =
    if decide (page_ok q ∧ ref (with_ref p c s) q ≠ 0)
    then Some (ref (with_ref p c s) q) else None.
Proof.
  intros Hp Hc Hg q. rewrite lookup_insert. case_decide as Hq.
  - subst q. rewrite ref_ok_with_ref // decide_True // decide_True //.
  - rewrite Hg. destruct (decide (page_ok q)) as [Hok|Hok].
    + rewrite ref_ok_with_ref // (decide_False (P := q = p)) //.
    + rewrite !decide_False //; naive_solver.
Qed.

Lemma exec_refines o s a r a' :
  refines s a → Spec.step o a = Some (r, a') →
  wp (exec o) (λ r' s', r' = r ∧ refines s' a') s.
Proof.
  intros Hr Hs. pose proof Hr as [Hk Hl Hrc]. destruct o as [|p|p]; simpl in *.
  - eapply (wp_kalloc s _ _ Hk Hl).
    + intros p fl Hfl Hk'. rewrite Hfl in Hs. injection Hs as <- <-.
      split; [done|]. split; [done|done|]. simpl.
      assert (page_ok p) by (pose proof (ki_ok _ _ Hk) as Ho; rewrite Hfl in Ho; by inversion Ho).
      by apply (rc_with_ref s p 1).
    + intros Hfl. rewrite Hfl in Hs. by injection Hs as <- <-.
  - apply bind_Some in Hs as (c & Hc & Hs). injection Hs as <- <-.
    destruct (refines_rc s a p c Hr Hc) as (Hok & Hnf & Href).
    apply wp_bind, (wp_kfree s (Spec.free a)); [done..| |].
    + intros H1 Hk'. apply wp_ret. split; [done|].
      rewrite (_ : 1 <? c = true); [|lia]. split; [done..|]. simpl.
      rewrite Href. apply (rc_with_ref s p); [done|lia|done].
    + intros H1 Hk'. apply wp_ret. split; [done|].
      rewrite (_ : 1 <? c = false); [|lia]. split; [done..|]. simpl. intros q.
      rewrite lookup_delete. change (ref (freed p s) q) with (ref (with_ref p 0 s) q).
      destruct (decide (page_ok q)) as [Hq|Hq].
      * rewrite ref_ok_with_ref // Hrc.
        repeat case_decide; naive_solver.
      * rewrite Hrc. repeat case_decide; naive_solver.
  - apply bind_Some in Hs as (c & Hc & Hs). case_match eqn:Hlt; [|done]. injection Hs as <- <-.
    destruct (refines_rc s a p c Hr Hc) as (Hok & Hnf & Href).
    pose proof (ki_bound _ _ Hk (p / PGSIZE)) as Hb. fold (ref s p) in Hb.
    apply wp_bind, (wp_incref s (Spec.free a)); [done..|lia|].
    intros Hk'. apply wp_ret. split; [done|]. split; [done..|]. simpl.
    rewrite Href. apply (rc_with_ref s p); [done|lia|done].
Qed.

(** C23: refinement. Any sequence of [kalloc], [kfree] and [incref] that
    respects the contract runs on the machine without panicking and returns
    the same pages as the abstract allocator: a page is handed out only
    while no references to it exist, and goes back to the free list exactly
    when its last reference is dropped. *)
Theorem kalloc_refines os s a rs a' :
  refines s a → Spec.run os a = Some (rs, a') →
  wp (exec_all os) (λ rs' s', rs' = rs ∧ refines s' a') s.
Proof.
  revert s a rs a'. induction os as [|o os IH]; intros s a rs a' Hr Hs; simpl in *.
  { by injection Hs as <- <-. }
  apply bind_Some in Hs as ([r a1] & Hs1 & Hs). apply bind_Some in Hs as ([rs1 a2] & Hs2 & Hs).
  injection Hs as <- <-. apply wp_bind. eapply wp_mono; [by eapply exec_refines|].
  intros r' s1 [-> Hr1]. apply wp_bind. eapply wp_mono; [by eapply IH|].
  intros rs' s2 [-> Hr2]. by apply wp_ret.
Qed.

(** ** Boot *)

(** The free list [fl] holds exactly the pages below [b], and every count
    is zero. *)
Record booting (s : kst) (fl : list Z) (b : Z) : Prop := {
  bo_chain : chain (mem s) (freelist s) fl;
  bo_nodup : NoDup fl;
  bo_in : ∀ q, q ∈ fl ↔ page_ok q ∧ q < b;
  bo_zero : ∀ i, count s i = 0;
  bo_locks : unlocked s;
}.

Lemma booting_free s fl p :
  booting s fl p → page_ok p → booting (freed p (with_ref p 1 s)) (p :: fl) (p + PGSIZE).
Proof.
  intros [Hc Hn Hin Hz Hl] Hp.
  assert (p ∉ fl) as Hfl by (rewrite Hin; lia).
  split; [|by constructor| | |done].
  - apply (chain_freed (with_ref p 1 s)); [done| |done|done].
    apply Forall_forall. intros q Hq. by apply Hin.
  - intros q. rewrite elem_of_cons Hin. split; [intros [->|[? ?]]; [|]; split; try done; lia|].
    intros [Hq Hlt]. destruct (decide (q = p)); [by left|right]. split; [done|].
    pose proof (page_ok_aligned p Hp). pose proof (page_ok_aligned q Hq). dlia.
  - intros i. rewrite /count /=. rewrite insert_insert_eq.
    specialize (Hz i). rewrite /count in Hz.
    destruct (decide (i = p / PGSIZE)) as [->|]; simplify_map_eq; done.
Qed.

Lemma freerange_loop_spec fuel p s fl :
  booting s fl p → p mod PGSIZE = 0 → kend ≤ p ≤ PHYSTOP → (PHYSTOP - p) / PGSIZE < Z.of_nat fuel →
  wp (freerange_loop fuel p PHYSTOP)
    (λ _ s', ∃ fl', booting s' fl' PHYSTOP ∧ held s' = held s) s.
Proof.
  revert p s fl. induction fuel as [|fuel IH]; intros p s fl Hb Ha Hk Hf; simpl.
  { dlia. }
  destruct (Z.leb_spec (p + PGSIZE) PHYSTOP) as [Hle|Hgt].
  - assert (page_ok p) as Hp by (split; [done|lia]).
    pose proof (page_ok_range p Hp). destruct (bo_locks _ _ _ Hb) as [Hl Hl'].
    apply wp_bind. eapply wp_Ret; [apply setref_eq; [lia|done]|].
    apply wp_bind. eapply wp_Ret.
    { apply kfree_last_eq; [done| |done|done].
      rewrite ref_ok_with_ref // decide_True //. }
    eapply wp_mono; [eapply IH; [by apply booting_free|dlia|lia|dlia]|]. done.
  - apply wp_ret. exists fl. split; [|done]. destruct Hb as [Hc Hn Hin Hz Hl].
    split; try done. intros q. rewrite Hin. split; [naive_solver lia|].
    intros [Hq _]. split; [done|]. destruct Hq as [Hq ?]. dlia.
Qed.

(** [kinit] run on zeroed kernel data puts every page between the end of
    the kernel and [PHYSTOP] on the free list, once, and leaves a state
    that implements the abstract allocator with no page handed out. *)
Lemma kinit_spec s :
  pgref s = ∅ → freelist s = 0 →
  wp kinit (λ _ s', ∃ fl, NoDup fl ∧ (∀ p, p ∈ fl ↔ page_ok p) ∧
              refines s' (Spec.mk_alloc fl ∅)) s.
Proof.
  intros Hg Hf. pose proof etext_range. pose proof kend_range.
  rewrite /kinit /initlock. wp_steps. rewrite /freerange.
  rewrite PGROUNDUP_eq; [|lia..].
  eapply wp_mono.
  - apply (freerange_loop_spec _ _ _ []); [|dlia|dlia|dlia]. split; simpl.
    + done.
    + constructor.
    + intros q. rewrite elem_of_nil. split; [done|]. intros [[Ha Hr] Hlt]. dlia.
    + intros i. by rewrite /count /= Hg lookup_empty.
    + rewrite /unlocked /=. set_solver.
  - intros _ s' (fl & [Hc Hn Hin Hz Hl] & _). exists fl.
    assert (∀ p, p ∈ fl ↔ page_ok p) as Hin'.
    { intros q. rewrite Hin. split; [naive_solver|]. intros Hq. split; [done|apply Hq]. }
    split_and!; [done|done|]. split; [|done|].
    + split; simpl; [done|done| | |done|].
      * apply Forall_forall. intros q. apply Hin'.
      * intros q Hq. rewrite Hin'. by rewrite /ref Hz.
      * intros i. rewrite Hz. lia.
    + intros q. simpl. rewrite decide_False; [done|]. rewrite /ref Hz. naive_solver.
Qed.

(** [kalloc] never hands out a page that has references, and fails only
    when every page has. *)
Lemma kalloc_exhaustive s a :
  refines s a →
  wp kalloc (λ r s',
    (r = 0 ∧ s' = s ∧ ∀ p, page_ok p → 0 < ref s p) ∨
    (page_ok r ∧ ref s r = 0 ∧ ref s' r = 1 ∧
     (∀ b, in_page r b → ld8 (mem s') b = 5) ∧
     mem_eq_on (λ b, ¬ in_page r b) (mem s) (mem s'))) s.
Proof.
  intros [Hk Hl Hrc]. eapply (wp_kalloc s _ _ Hk Hl).
  - intros p fl Hfl Hk'. right.
    assert (page_ok p) as Hp by (pose proof (ki_ok _ _ Hk) as Ho; rewrite Hfl in Ho; by inversion Ho).
    split_and!.
    + done.
    + apply (ki_ref _ _ Hk p Hp). rewrite Hfl. set_solver.
    + change (ref (taken p s) p) with (ref (with_ref p 1 s) p).
      by rewrite ref_ok_with_ref // decide_True.
    + intros b Hb. by rewrite /= ld8_memset_page decide_True.
    + intros b Hb. by rewrite /= ld8_memset_page decide_False.
  - intros Hfl. left. split_and!; [done..|]. intros p Hp.
    pose proof (ki_ref _ _ Hk p Hp) as Hr. rewrite Hfl in Hr.
    pose proof (ki_bound _ _ Hk (p / PGSIZE)) as Hb. fold (ref s p) in Hb.
    assert (ref s p ≠ 0); [|lia]. rewrite -Hr. set_solver.
Qed.
End refinement.

(** ** Concrete runs *)

(** A machine with two free pages, the second linked from the first; the
    other 62 pages have one reference each. *)
Definition ones (f : Z → Z) : gmap Z Z := list_to_map ((λ i, (f i, 1)) <$> seqZ 0x87fc0 62).

Lemma ones_in (f : Z → Z) i :
  (∀ i j, f i = f j → i = j) → 0x87fc0 ≤ i < 0x87ffe → ones f !! f i = Some 1.
Proof.
  intros Hf Hi. apply elem_of_list_to_map_1.
  - rewrite -list_fmap_compose. apply NoDup_fmap_2_strong; [|apply NoDup_seqZ].
    intros i' j _ _ Hij. by apply Hf.
  - apply list_elem_of_fmap. exists i. split; [done|]. apply elem_of_seqZ. lia.
Qed.

Lemma ones_out (f : Z → Z) x : (∀ i, 0x87fc0 ≤ i < 0x87ffe → f i ≠ x) → ones f !! x = None.
Proof.
  intros Hx. apply not_elem_of_list_to_map_1. rewrite -list_fmap_compose list_elem_of_fmap.
  intros (j & -> & Hj%elem_of_seqZ). apply (Hx j); [lia|done].
Qed.

Definition two_free : kst :=
  mk_kst (st64 ∅ 0x87ffe000 0x87fff000) 0x87ffe000 (ones id) ∅.

Definition two_free_spec : Spec.alloc :=
  Spec.mk_alloc [0x87ffe000; 0x87fff000] (ones (λ i, i * 4096)).

Lemma two_free_count i :
  count two_free i = if decide (0x87fc0 ≤ i < 0x87ffe) then 1 else 0.
Proof.
  rewrite /count. change (pgref two_free) with (ones id). case_decide as Hi.
  - by rewrite (ones_in id i).
  - rewrite ones_out; [done|]. simpl. lia.
Qed.

Lemma two_free_rc p :
  Spec.rc two_free_spec !! p =
    if decide (p mod 4096 = 0 ∧ 0x87fc0000 ≤ p < 0x87ffe000) then Some 1 else None.
Proof.
  change (Spec.rc two_free_spec) with (ones (λ i, i * 4096)). case_decide as Hi.
  - replace p with ((λ i, i * 4096) (p / 4096)) at 1 by (simpl; dlia).
    apply (ones_in (λ i, i * 4096)); [lia|dlia].
  - apply ones_out. intros i Hr <-. apply Hi. dlia.
Qed.

Lemma two_free_refines : @refines small_image two_free two_free_spec.
Proof.
  split.
  - split.
    + vm_compute. by repeat split.
    + apply (bool_decide_unpack _). by vm_compute.
    + apply (bool_decide_unpack _). by vm_compute.
    + intros p [Ha Hr]. rewrite /ref two_free_count. change kend with 0x87fc0000 in Hr.
      change (Spec.free two_free_spec) with [0x87ffe000; 0x87fff000].
      rewrite !elem_of_cons elem_of_nil. case_decide; split; try done; [intros [|[|]]; dlia|].
      intros _. destruct (decide (p = 0x87ffe000)); [by left|right; left; dlia].
    + intros i Hi. rewrite two_free_count. case_decide as Hd; [|done]. exfalso. apply Hi.
      rewrite /page_ok. change kend with 0x87fc0000. dlia.
    + intros i. rewrite two_free_count. case_decide; lia.
  - rewrite /unlocked. change (held two_free) with (∅ : gset lockid). set_solver.
  - intros p. rewrite two_free_rc /ref two_free_count /page_ok. change kend with 0x87fc0000.
    repeat case_decide; try done; exfalso; dlia.
Qed.

(** Take both pages, share the first, drop it twice and take it again; then
    memory is exhausted. *)
Lemma kalloc_refines_witness :
  wp (@exec_all small_image
        [Spec.Alloc; Spec.Inc 0x87ffe000; Spec.Alloc; Spec.Free 0x87ffe000;
         Spec.Free 0x87ffe000; Spec.Alloc; Spec.Alloc])
    (λ rs s', rs = [0x87ffe000; 0; 0x87fff000; 0; 0; 0x87ffe000; 0] ∧
       ∃ a', @refines small_image s' a') two_free.
Proof.
  eapply wp_mono.
  - eapply (@kalloc_refines small_image _ _ two_free_spec); [exact two_free_refines|].
    vm_compute. reflexivity.
  - intros rs s' [-> Hr]. split; [reflexivity|eauto].
Defined.

