(* ===== verification/Vm.v ===== *)
(** * Page tables (kernel/vm.c)

    The functions of vm.c that build, read, copy and free page tables, on the
    allocator's state: page-table pages are physical pages, entries are
    64-bit words in memory.  [CowHandler] of kernel/trap.c is here because
    [copyout] calls it; the page table of the running process
    ([myproc()->pagetable]) is an argument of both. *)

From S2P Require Import Prelude Mem Cstring Riscv Spinlock Kalloc.

Local Open Scope Z_scope.

Section vm.
Context {KI : KernelImage}.

(** Reads and writes of memory through a kernel pointer. *)
Definition load64 (a : Z) : M kst Z := gets (λ s, ld64 (mem s) a).
Definition store64 (a v : Z) : M kst unit := modify (λ s, set_mem (st64 (mem s) a v) s).
Definition load8 (a : Z) : M kst Z := gets (λ s, ld8 (mem s) a).
Definition store8 (a v : Z) : M kst unit := modify (λ s, set_mem (st8 (mem s) a v) s).
Definition kmemset (dst c n : Z) : M kst unit := modify (λ s, set_mem (memset (mem s) dst c n) s).
Definition kmemmove (dst src n : Z) : M kst unit :=
  modify (λ s, set_mem (memmove (mem s) dst src n) s).

Lemma wp_load64 a (Q : Z → kst → Prop) s : Q (ld64 (mem s) a) s → wp (load64 a) Q s.
Proof. done. Qed.
Lemma wp_load8 a (Q : Z → kst → Prop) s : Q (ld8 (mem s) a) s → wp (load8 a) Q s.
Proof. done. Qed.
Lemma wp_store64 a v (Q : unit → kst → Prop) s :
  Q tt (set_mem (st64 (mem s) a v) s) → wp (store64 a v) Q s.
Proof. done. Qed.
Lemma wp_store8 a v (Q : unit → kst → Prop) s :
  Q tt (set_mem (st8 (mem s) a v) s) → wp (store8 a v) Q s.
Proof. done. Qed.
Lemma wp_kmemset d c n (Q : unit → kst → Prop) s :
  Q tt (set_mem (memset (mem s) d c n) s) → wp (kmemset d c n) Q s.
Proof. done. Qed.
Lemma wp_kmemmove d r n (Q : unit → kst → Prop) s :
  Q tt (set_mem (memmove (mem s) d r n) s) → wp (kmemmove d r n) Q s.
Proof. done. Qed.

(** [&pagetable[i]] *)
Definition pte_ptr (pagetable i : Z) : Z := pagetable + 8 * i.

(** [for(int level = 2; level > 0; level--)]; the result is the address of
    the level-0 entry or the null pointer. *)
Fixpoint walk_loop (level : nat) (pagetable va : Z) (alloc : bool) : M kst Z :=
  match level with
  | O => mret (pte_ptr pagetable (PX 0 va))
  | S level' =>
      let pte := pte_ptr pagetable (PX (Z.of_nat level) va) in
      v ← load64 pte;
      if flag v PTE_V then walk_loop level' (PTE2PA v) va alloc
      else if negb alloc then mret 0
      else
        pagetable ← kalloc;
        if pagetable =? 0 then mret 0
        else
          kmemset pagetable 0 PGSIZE;;
          store64 pte (Z.lor (PA2PTE pagetable) PTE_V);;
          walk_loop level' pagetable va alloc
  end.

Definition walk (pagetable va : Z) (alloc : bool) : M kst Z :=
  if MAXVA <=? va then panic "walk" else walk_loop 2 pagetable va alloc.

Definition walkaddr (pagetable va : Z) : M kst Z :=
  if MAXVA <=? va then mret 0
  else
    pte ← walk pagetable va false;
    if pte =? 0 then mret 0
    else
      v ← load64 pte;
      if negb (flag v PTE_V) then mret 0
      else if negb (flag v PTE_U) then mret 0
      else mret (PTE2PA v).

(** The loop of [mappages], from address [a] up to [last]. *)
Fixpoint mappages_loop (fuel : nat) (pagetable a last pa perm : Z) : M kst Z :=
  match fuel with
  | O => out_of_fuel
  | S fuel' =>
      pte ← walk pagetable a true;
      if pte =? 0 then mret (-1)
      else
        v ← load64 pte;
        if flag v PTE_V then panic "mappages: remap"
        else
          store64 pte (Z.lor (Z.lor (PA2PTE pa) perm) PTE_V);;
          if a =? last then mret 0
          else mappages_loop fuel' pagetable (u64 (a + PGSIZE)) last (u64 (pa + PGSIZE)) perm
  end.

Definition mappages (pagetable va size pa perm : Z) : M kst Z :=
  if negb (va mod PGSIZE =? 0) then panic "mappages: va not aligned"
  else if negb (size mod PGSIZE =? 0) then panic "mappages: size not aligned"
  else if size =? 0 then panic "mappages: size"
  else mappages_loop (Z.to_nat (size / PGSIZE)) pagetable va (u64 (va + size - PGSIZE)) pa perm.

Definition kvmmap (kpgtbl va pa sz perm : Z) : M kst unit :=
  r ← mappages kpgtbl va sz pa perm;
  if negb (r =? 0) then panic "kvmmap" else mret tt.

(** [for(a = va; a < va + npages*PGSIZE; a += PGSIZE)]; [bound] is the value
    [va + npages*PGSIZE]. *)
Fixpoint uvmunmap_loop (fuel : nat) (pagetable a bound : Z) (do_free : bool) : M kst unit :=
  match fuel with
  | O => out_of_fuel
  | S fuel' =>
      if a <? bound then
        pte ← walk pagetable a false;
        if pte =? 0 then panic "uvmunmap: walk"
        else
          v ← load64 pte;
          if negb (flag v PTE_V) then panic "uvmunmap: not mapped"
          else if PTE_FLAGS v =? PTE_V then panic "uvmunmap: not a leaf"
          else
            (if do_free then kfree (PTE2PA v) else mret tt);;
            store64 pte 0;;
            uvmunmap_loop fuel' pagetable (u64 (a + PGSIZE)) bound do_free
      else mret tt
  end.

Definition uvmunmap (pagetable va npages : Z) (do_free : bool) : M kst unit :=
  if negb (va mod PGSIZE =? 0) then panic "uvmunmap: not aligned"
  else
    let bound := u64 (va + npages * PGSIZE) in
    uvmunmap_loop (S (Z.to_nat ((bound - va) / PGSIZE))) pagetable va bound do_free.

Definition uvmcreate : M kst Z :=
  pagetable ← kalloc;
  if pagetable =? 0 then mret 0
  else kmemset pagetable 0 PGSIZE;; mret pagetable.

Definition uvmfirst (pagetable src sz : Z) : M kst unit :=
  if PGSIZE <=? sz then panic "uvmfirst: more than a page"
  else
    mem ← kalloc;
    kmemset mem 0 PGSIZE;;
    mappages pagetable 0 PGSIZE mem (Z.lor (Z.lor (Z.lor PTE_W PTE_R) PTE_X) PTE_U);;
    kmemmove mem src sz.

Definition uvmdealloc (pagetable oldsz newsz : Z) : M kst Z :=
  if oldsz <=? newsz then mret oldsz
  else
    (if PGROUNDUP newsz <? PGROUNDUP oldsz then
       let npages := s32 ((PGROUNDUP oldsz - PGROUNDUP newsz) / PGSIZE) in
       uvmunmap pagetable (PGROUNDUP newsz) (u64 npages) true
     else mret tt);;
    mret newsz.

Fixpoint uvmalloc_loop (fuel : nat) (pagetable a oldsz newsz xperm : Z) : M kst Z :=
  match fuel with
  | O => out_of_fuel
  | S fuel' =>
      if a <? newsz then
        mem ← kalloc;
        if mem =? 0 then uvmdealloc pagetable a oldsz;; mret 0
        else
          kmemset mem 0 PGSIZE;;
          r ← mappages pagetable a PGSIZE mem (Z.lor (Z.lor PTE_R PTE_U) xperm);
          if negb (r =? 0) then
            kfree mem;;
            uvmdealloc pagetable a oldsz;;
            mret 0
          else uvmalloc_loop fuel' pagetable (u64 (a + PGSIZE)) oldsz newsz xperm
      else mret newsz
  end.

Definition uvmalloc (pagetable oldsz newsz xperm : Z) : M kst Z :=
  if newsz <? oldsz then mret oldsz
  else
    let oldsz := PGROUNDUP oldsz in
    uvmalloc_loop (S (Z.to_nat ((newsz - oldsz + PGSIZE - 1) / PGSIZE))) pagetable oldsz oldsz
      newsz xperm.

(** [for(int i = 0; i < 512; i++)] of [freewalk], from entry [i] with [n]
    entries to go; [walk_child] is the recursive call. *)
Fixpoint freewalk_loop (walk_child : Z → M kst unit) (n : nat) (pagetable i : Z) : M kst unit :=
  match n with
  | O => mret tt
  | S n' =>
      pte ← load64 (pte_ptr pagetable i);
      (if flag pte PTE_V && (Z.land pte (Z.lor (Z.lor PTE_R PTE_W) PTE_X) =? 0) then
         walk_child (PTE2PA pte);;
         store64 (pte_ptr pagetable i) 0
       else if flag pte PTE_V then panic "freewalk: leaf"
       else mret tt);;
      freewalk_loop walk_child n' pagetable (i + 1)
  end.

(** [depth] bounds the recursion: a page table has three levels. *)
Fixpoint freewalk (depth : nat) (pagetable : Z) : M kst unit :=
  match depth with
  | O => out_of_fuel
  | S depth' =>
      freewalk_loop (freewalk depth') 512 pagetable 0;;
      kfree pagetable
  end.

Definition uvmfree (pagetable sz : Z) : M kst unit :=
  (if 0 <? sz then uvmunmap pagetable 0 (PGROUNDUP sz / PGSIZE) true else mret tt);;
  freewalk 3 pagetable.

Definition uvmclear (pagetable va : Z) : M kst unit :=
  pte ← walk pagetable va false;
  if pte =? 0 then panic "uvmclear"
  else
    v ← load64 pte;
    store64 pte (Z.land v (Z.lnot PTE_U)).

(** ** Page tables as trees

    A page table is described by the map [T] from index paths to page-table
    pages: [[]] is the root, [[i]] the level-1 table under entry [i] of the
    root, [[i; j]] the level-0 table under entry [j] of that one. *)

Record pt_wf (m : gmap Z Z) (root : Z) (T : gmap (list Z) Z) : Prop := {
  pw_root : T !! [] = Some root;
  pw_ok : ∀ π p, T !! π = Some p → page_ok p;
  pw_len : ∀ π p, T !! π = Some p → (length π ≤ 2)%nat;
  pw_inj : ∀ π π' p, T !! π = Some p → T !! π' = Some p → π = π';
  pw_parent : ∀ π i p, T !! (π ++ [i]) = Some p → is_Some (T !! π) ∧ 0 ≤ i < 512;
  pw_top : ∀ i π p, T !! (i :: π) = Some p → i < 256;
  pw_dir : ∀ π p i, T !! π = Some p → (length π ≤ 1)%nat → 0 ≤ i < 512 →
    ld64 m (pte_ptr p i) =
      match T !! (π ++ [i]) with Some q => Z.lor (PA2PTE q) PTE_V | None => 0 end;
}.

(** The address of the level-0 entry of [va], and the entry; an address
    without a level-0 table has the entry [0]. *)
Definition pte_addr (T : gmap (list Z) Z) (va : Z) : option Z :=
  (λ q, pte_ptr q (PX 0 va)) <$> T !! [PX 2 va; PX 1 va].

Definition pte_of (m : gmap Z Z) (T : gmap (list Z) Z) (va : Z) : Z :=
  match pte_addr T va with Some a => ld64 m a | None => 0 end.

(** A byte of one of the table's pages. *)
Definition table_byte (T : gmap (list Z) Z) (a : Z) : Prop :=
  ∃ π p, T !! π = Some p ∧ in_page p a.

Definition legal (va : Z) : Prop := 0 ≤ va < MAXVA.

Lemma page_ok_64 p : page_ok p → 0 ≤ p < 2 ^ 64.
Proof. intros Hp%page_ok_range. lia. Qed.

Lemma flag_V v : flag v PTE_V = Z.odd v.
Proof.
  rewrite /flag /PTE_V. change (Z.shiftl 1 0) with (Z.ones 1).
  rewrite Z.land_ones; [|lia]. change (2 ^ 1) with 2. rewrite Zmod_odd. by destruct (Z.odd v).
Qed.

(** A directory entry for page [q] is valid and leads back to [q]. *)
Lemma dir_pte_V q : page_ok q → flag (Z.lor (PA2PTE q) PTE_V) PTE_V = true.
Proof.
  intros Hq. rewrite flag_V mk_pte_eq; [|by apply page_ok_64|done].
  change PTE_V with 1. rewrite Z.odd_add Z.odd_mul andb_false_r //.
Qed.

Lemma dir_pte_pa q : page_ok q → PTE2PA (Z.lor (PA2PTE q) PTE_V) = q.
Proof.
  intros Hq. pose proof (page_ok_range q Hq) as [Hr Ha].
  rewrite mk_pte_eq; [|lia|done]. change PTE_V with 1.
  rewrite PTE2PA_eq; [|dlia]. dlia.
Qed.

(** [walk] without [alloc] reads the tree. *)
Lemma walk_noalloc root T va s :
  pt_wf (mem s) root T → legal va →
  walk root va false s = Ret (default 0 (pte_addr T va), s).
Proof.
  intros Hw Hva. unfold legal in Hva. rewrite /walk.
  destruct (Z.leb_spec MAXVA va); [lia|].
  pose proof (PX_bound 2 va ltac:(lia)) as H2. pose proof (PX_bound 1 va ltac:(lia)) as H1.
  simpl walk_loop. change (Z.of_nat 2) with 2. change (Z.of_nat 1) with 1.
  rewrite /mbind /M_bind {1}/load64 /gets /=.
  rewrite (pw_dir _ _ _ Hw [] root); [|apply Hw|simpl; lia|lia]. simpl.
  destruct (T !! [PX 2 va]) as [p1|] eqn:E1; last first.
  { rewrite /= /pte_addr. destruct (T !! [PX 2 va; PX 1 va]) as [p|] eqn:E0; [|done].
    destruct (pw_parent _ _ _ Hw [PX 2 va] (PX 1 va) p E0) as [[? ?] _]. congruence. }
  pose proof (pw_ok _ _ _ Hw _ _ E1) as Hp1.
  rewrite dir_pte_V // dir_pte_pa //.
  rewrite (pw_dir _ _ _ Hw [PX 2 va] p1); [|done|simpl; lia|lia]. simpl.
  rewrite /pte_addr. destruct (T !! [PX 2 va; PX 1 va]) as [p0|] eqn:E0; [|done].
  pose proof (pw_ok _ _ _ Hw _ _ E0) as Hp0.
  by rewrite dir_pte_V // dir_pte_pa.
Qed.

(** ** Frame lemmas *)

Lemma pte_ptr_in_page p i a : 0 ≤ i < 512 → span (pte_ptr p i) 8 a → in_page p a.
Proof. rewrite /span /pte_ptr. lia. Qed.

Lemma pte_ptr_disjoint p i p' i' :
  page_ok p → page_ok p' → 0 ≤ i < 512 → 0 ≤ i' < 512 → p ≠ p' ∨ i ≠ i' →
  pte_ptr p i + 8 ≤ pte_ptr p' i' ∨ pte_ptr p' i' + 8 ≤ pte_ptr p i.
Proof. intros [Hp _] [Hp' _]. rewrite /pte_ptr. dlia. Qed.

(** A directory entry is a non-zero 64-bit word. *)
Lemma dir_pte_u64 q : page_ok q → u64 (Z.lor (PA2PTE q) PTE_V) = Z.lor (PA2PTE q) PTE_V.
Proof.
  intros Hq. pose proof (page_ok_range q Hq). rewrite mk_pte_eq; [|lia|done].
  change PTE_V with 1. apply Z.mod_small. dlia.
Qed.

Lemma pt_wf_ext m m' root T :
  pt_wf m root T → mem_eq_on (table_byte T) m m' → pt_wf m' root T.
Proof.
  intros [Hr Ho Hl Hi Hp Ht Hd] Hm. split; try done.
  intros π p i Hπ Hlen Hrng. rewrite -(Hd π p i) //. apply ld64_ext.
  eapply mem_eq_on_weaken; [exact Hm|]. intros a Ha. exists π, p. split; [done|].
  by eapply pte_ptr_in_page.
Qed.

Lemma pte_addr_Some T va a :
  pte_addr T va = Some a → ∃ q, T !! [PX 2 va; PX 1 va] = Some q ∧ a = pte_ptr q (PX 0 va).
Proof. rewrite /pte_addr. intros (q & -> & Hq)%fmap_Some. eauto. Qed.

Lemma pte_of_ext m m' T va :
  mem_eq_on (table_byte T) m m' → pte_of m' T va = pte_of m T va.
Proof.
  intros Hm. rewrite /pte_of. destruct (pte_addr T va) as [a|] eqn:Ha; [|done].
  apply pte_addr_Some in Ha as (q & Hq & ->). apply ld64_ext.
  eapply mem_eq_on_weaken; [exact Hm|]. intros a Ha. exists [PX 2 va; PX 1 va], q.
  split; [done|]. eapply pte_ptr_in_page; [|exact Ha]. apply PX_bound. lia.
Qed.

(** Writing a level-0 entry changes that entry only. *)
Lemma pt_wf_set_pte m root T va a v :
  pt_wf m root T → pte_addr T va = Some a → pt_wf (st64 m a v) root T.
Proof.
  intros Hw (q & Hq & ->)%pte_addr_Some. destruct Hw as [Hr Ho Hl Hi Hp Ht Hd]. split; try done.
  intros π p i Hπ Hlen Hrng. rewrite -(Hd π p i) //. apply ld64_st64_ne.
  apply pte_ptr_disjoint; eauto; [apply PX_bound; lia|]. left. intros ->.
  specialize (Hi _ _ _ Hq Hπ). subst π. simpl in Hlen. lia.
Qed.

Lemma pte_of_set_pte m root T va a v va' :
  pt_wf m root T → legal va → legal va' → pte_addr T va = Some a →
  pte_of (st64 m a v) T va' = if decide (va' / PGSIZE = va / PGSIZE) then u64 v else pte_of m T va'.
Proof.
  intros Hw Hva Hva' Ha. rewrite /pte_of. case_decide as Hpg.
  - rewrite (_ : pte_addr T va' = Some a); [apply ld64_st64|].
    unfold legal in *. rewrite /pte_addr !(PX_page_eq va' va) //; lia.
  - destruct (pte_addr T va') as [a'|] eqn:Ha'; [|done].
    apply pte_addr_Some in Ha as (q & Hq & ->). apply pte_addr_Some in Ha' as (q' & Hq' & ->).
    apply ld64_st64_ne. apply pte_ptr_disjoint; eauto using pw_ok; [apply PX_bound; lia..|].
    destruct (decide (q' = q)) as [->|]; [right|by left]. intros Heq.
    pose proof (pw_inj _ _ _ Hw _ _ _ Hq Hq') as [= E2 E1]. apply Hpg.
    rewrite (PX_page va) // (PX_page va') //. congruence.
Qed.

(** Adding the zeroed page [q] as the table under entry [i] of the
    directory [p] at [π]. *)
Lemma pt_wf_extend m root T π p i q :
  pt_wf m root T → T !! π = Some p → (length π ≤ 1)%nat → 0 ≤ i < 512 →
  T !! (π ++ [i]) = None → page_ok q → (∀ π', T !! π' ≠ Some q) →
  (∀ a, in_page q a → ld8 m a = 0) → (π = [] → i < 256) →
  pt_wf (st64 m (pte_ptr p i) (Z.lor (PA2PTE q) PTE_V)) root (<[π ++ [i] := q]> T).
Proof.
  intros Hw Hπ Hlen Hi Hnone Hq Hfresh Hz Htop. destruct Hw as [Hr Ho Hl Hinj Hpar Ht Hd].
  assert (p ≠ q) as Hpq by (intros ->; by eapply Hfresh).
  split.
  - rewrite lookup_insert_ne //. by destruct π.
  - intros π' p' [[<- <-]|[_ H']]%lookup_insert_Some; [done|eauto].
  - intros π' p' [[<- <-]|[_ H']]%lookup_insert_Some; [rewrite length_app /=; lia|eauto].
  - intros π1 π2 p' [[<- <-]|[_ H1]]%lookup_insert_Some [[<- ?]|[_ H2]]%lookup_insert_Some;
      [done|by exfalso; eapply Hfresh|subst; by exfalso; eapply Hfresh|eauto].
  - intros π' j p' [[E <-]|[_ H']]%lookup_insert_Some.
    + apply app_inj_tail in E as [<- <-]. split; [|done].
      rewrite lookup_insert_ne; [eauto|]. intros E. apply (f_equal length) in E.
      rewrite length_app /= in E. lia.
    + destruct (Hpar _ _ _ H') as [[p'' Hp''] Hj]. split; [|done].
      destruct (decide (π' = π ++ [i])) as [->|]; [by rewrite lookup_insert_eq|].
      by rewrite lookup_insert_ne.
  - intros j π' p' [[E <-]|[_ H']]%lookup_insert_Some; [|eauto].
    destruct π as [|j' π]; simplify_eq/=; eauto.
  - intros π' p' j [[<- <-]|[Hne H']]%lookup_insert_Some Hlen' Hj.
    + rewrite lookup_insert_ne; [|intros E; apply (f_equal length) in E; rewrite !length_app /= in E; lia].
      destruct (T !! ((π ++ [i]) ++ [j])) as [p'|] eqn:E.
      { destruct (Hpar _ _ _ E) as [[? ?] _]. congruence. }
      rewrite ld64_st64_ne; [|apply pte_ptr_disjoint; eauto].
      apply ld64_zeros. intros b Hb. apply Hz. by eapply pte_ptr_in_page.
    + destruct (decide (π' = π ∧ j = i)) as [[-> ->]|Hne'].
      * rewrite lookup_insert_eq. replace p' with p by congruence.
        by rewrite ld64_st64 dir_pte_u64.
      * rewrite lookup_insert_ne; [|intros [? ?]%app_inj_tail; naive_solver].
        rewrite -(Hd π' p' j) //. apply ld64_st64_ne. apply pte_ptr_disjoint; eauto.
        destruct (decide (p' = p)) as [->|]; [right|by left]. intros ->.
        apply Hne'. split; [|done]. by eapply Hinj.
Qed.

Lemma pte_of_extend m root T π p i q va :
  pt_wf m root T → T !! π = Some p → (length π ≤ 1)%nat → 0 ≤ i < 512 →
  T !! (π ++ [i]) = None → page_ok q → (∀ π', T !! π' ≠ Some q) →
  (∀ a, in_page q a → ld8 m a = 0) →
  pte_of (st64 m (pte_ptr p i) (Z.lor (PA2PTE q) PTE_V)) (<[π ++ [i] := q]> T) va = pte_of m T va.
Proof.
  intros Hw Hπ Hlen Hi Hnone Hq Hfresh Hz.
  pose proof (PX_bound 0 va ltac:(lia)) as H0.
  assert (p ≠ q) as Hpq by (intros ->; by eapply Hfresh).
  rewrite /pte_of /pte_addr.
  destruct (decide (π ++ [i] = [PX 2 va; PX 1 va])) as [E|E].
  - rewrite E in Hnone. rewrite Hnone E lookup_insert_eq /=.
    rewrite ld64_st64_ne; [|apply pte_ptr_disjoint; eauto using pw_ok].
    apply ld64_zeros. intros b Hb. apply Hz. by eapply pte_ptr_in_page.
  - rewrite lookup_insert_ne //. destruct (T !! [PX 2 va; PX 1 va]) as [q'|] eqn:Eq; [|done].
    simpl. apply ld64_st64_ne, pte_ptr_disjoint; eauto using pw_ok.
    left. intros ->. pose proof (pw_inj _ _ _ Hw _ _ _ Hπ Eq) as ->. simpl in Hlen. lia.
Qed.

(** ** Growing a table

    [space]: the table's pages are not free.  [grown l]: between two states
    pages were taken from the free list, each with one reference; they
    became level-1 or level-0 tables, except for the pages [l], which went
    to the caller; memory outside the table and the free pages did not
    change.  [same_map]: the mappings are the same. *)

Record space (s : kst) (fl : list Z) (root : Z) (T : gmap (list Z) Z) : Prop := {
  sp_wf : pt_wf (mem s) root T;
  sp_free : ∀ π p, T !! π = Some p → p ∉ fl;
}.

Definition free_byte (fl : list Z) (a : Z) : Prop := ∃ p, p ∈ fl ∧ in_page p a.

Record grown (l : list Z) (s : kst) (T : gmap (list Z) Z) (fl : list Z)
    (s' : kst) (T' : gmap (list Z) Z) (fl' : list Z) : Prop := {
  gr_fl : ∃ used, fl = used ++ fl';
  gr_sub : T ⊆ T';
  gr_new : ∀ π q, T' !! π = Some q → T !! π = Some q ∨ (q ∈ fl ∧ q ∉ fl');
  gr_used : ∀ p, p ∈ fl → p ∉ fl' → p ∈ l ∨ ∃ π, T' !! π = Some p;
  gr_nodup : NoDup l;
  gr_taken : ∀ p, p ∈ l → p ∈ fl ∧ p ∉ fl' ∧ ∀ π, T' !! π ≠ Some p;
  gr_mem : mem_eq_on (λ a, ¬ table_byte T a ∧ ¬ free_byte fl a) (mem s) (mem s');
  gr_ref : ∀ p, page_ok p → ref s' p = if decide (p ∈ fl ∧ p ∉ fl') then 1 else ref s p;
  gr_held : held s' = held s;
}.

Definition same_map (s : kst) (T : gmap (list Z) Z) (s' : kst) (T' : gmap (list Z) Z) : Prop :=
  ∀ va, pte_of (mem s') T' va = pte_of (mem s) T va.

Lemma grown_refl s T fl : grown [] s T fl s T fl.
Proof.
  split; try done; [by exists []|eauto|constructor|set_solver|].
  intros p Hp. rewrite decide_False //. naive_solver.
Qed.

Lemma grown_trans l s T fl s1 T1 fl1 l' s2 T2 fl2 :
  grown l s T fl s1 T1 fl1 → grown l' s1 T1 fl1 s2 T2 fl2 → grown (l ++ l') s T fl s2 T2 fl2.
Proof.
  intros [[u Hfl] Hsub Hnew Huse Hnd Htk Hmem Href Hheld]
    [[u1 Hfl1] Hsub1 Hnew1 Huse1 Hnd1 Htk1 Hmem1 Href1 Hheld1].
  assert (∀ p, p ∈ fl1 → p ∈ fl) as Hin1 by (intros p; rewrite Hfl; set_solver).
  assert (∀ p, p ∈ fl2 → p ∈ fl1) as Hin2 by (intros p; rewrite Hfl1; set_solver).
  split.
  - exists (u ++ u1). by rewrite -app_assoc -Hfl1.
  - by etrans.
  - intros π q [H1|[H1 H1']]%Hnew1; [|naive_solver].
    apply Hnew in H1 as [|[? ?]]; naive_solver.
  - intros p Hp Hp2. rewrite elem_of_app. destruct (decide (p ∈ fl1)) as [Hp1|Hp1].
    + destruct (Huse1 p Hp1 Hp2); eauto.
    + destruct (Huse p Hp Hp1) as [|[π Hπ]]; [by eauto|]. right. exists π. by eapply lookup_weaken.
  - apply NoDup_app. split_and!; [done| |done]. intros p (_ & Hp & _)%Htk (Hp' & _)%Htk1. done.
  - intros p [Hp|Hp]%elem_of_app.
    + destruct (Htk p Hp) as (H1 & H2 & H3). split_and!; [done|naive_solver|].
      intros π [H4|[H4 _]]%Hnew1; [by eapply H3|done].
    + destruct (Htk1 p Hp) as (H1 & H2 & H3). naive_solver.
  - intros a [Ha Hf]. rewrite (Hmem1 a); [by apply Hmem|]. split.
    + intros (π & p & Hp & Hin). apply Hnew in Hp as [Hp|[Hp _]]; [by apply Ha; exists π, p|].
      apply Hf. by exists p.
    + intros (p & Hp & Hin). apply Hf. exists p. eauto.
  - intros p Hp. rewrite Href1 // Href //. repeat case_decide; naive_solver.
  - congruence.
Qed.

Lemma grown_unlocked l s T fl s' T' fl' :
  grown l s T fl s' T' fl' → unlocked s → unlocked s'.
Proof. intros Hg. by rewrite /unlocked (gr_held _ _ _ _ _ _ _ Hg). Qed.

(** Memory changes outside the free pages keep the allocator's invariant. *)
Lemma kinv_set_mem s fl m :
  kinv s fl → mem_eq_on (free_byte fl) (mem s) m → kinv (set_mem m s) fl.
Proof.
  intros [Hc Hn Ho Hr Hout Hb] Hm. split; try done. simpl.
  eapply chain_ext; [done| |exact Hc].
  intros a Ha. eapply mem_eq_on_weaken; [exact Hm|]. intros b Hb'. by exists a.
Qed.

(** The state after [walk] has put the free page [q] under entry [i] of the
    directory page [p]. *)
Definition extended (p i q : Z) (s : kst) : kst :=
  let s1 := taken q s in
  let s2 := set_mem (memset (mem s1) q 0 PGSIZE) s1 in
  set_mem (st64 (mem s2) (pte_ptr p i) (Z.lor (PA2PTE q) PTE_V)) s2.

Lemma ld8_zeroed m q c a :
  ld8 (memset (memset m q c PGSIZE) q 0 PGSIZE) a = if decide (in_page q a) then 0 else ld8 m a.
Proof. rewrite ld8_memset_page ld8_memset_page. by repeat case_decide. Qed.

Lemma kinv_head s q fl : kinv s (q :: fl) → page_ok q ∧ q ∉ fl.
Proof.
  intros [_ Hn Ho _ _ _]. apply NoDup_cons in Hn as [? _]. by apply Forall_cons in Ho as [? _].
Qed.

Lemma kinv_extended s fl root T π p i q :
  kinv s (q :: fl) → space s (q :: fl) root T → T !! π = Some p → 0 ≤ i < 512 →
  kinv (extended p i q s) fl.
Proof.
  intros Hk [Hw Hf] Hπ Hi. destruct (kinv_head _ _ _ Hk) as [Hq Hqf].
  destruct (kinv_taken s q fl Hk) as [_ Hk'].
  rewrite /extended. cbv zeta. apply kinv_set_mem.
  - apply kinv_set_mem; [exact Hk'|]. intros a (r & Hr & Ha). rewrite ld8_memset_page decide_False //.
    intros Ha'. assert (page_ok r) by (pose proof (ki_ok _ _ Hk') as Ho; by eapply Forall_forall in Ho).
    by rewrite (pages_disjoint r q a) in Hr.
  - apply mem_eq_on_st64. intros a (r & Hr & Ha) Hsp.
    apply (pte_ptr_in_page p i) in Hsp; [|done].
    assert (page_ok r) by (pose proof (ki_ok _ _ Hk') as Ho; by eapply Forall_forall in Ho).
    pose proof (pages_disjoint r p a ltac:(done) (pw_ok _ _ _ Hw _ _ Hπ) Ha Hsp) as ->.
    apply (Hf _ _ Hπ). set_solver.
Qed.

Lemma extended_space s fl root T π p i q :
  kinv s (q :: fl) → space s (q :: fl) root T → T !! π = Some p → (length π ≤ 1)%nat →
  0 ≤ i < 512 → T !! (π ++ [i]) = None → (π = [] → i < 256) →
  space (extended p i q s) fl root (<[π ++ [i] := q]> T) ∧
  grown [] s T (q :: fl) (extended p i q s) (<[π ++ [i] := q]> T) fl ∧
  same_map s T (extended p i q s) (<[π ++ [i] := q]> T).
Proof.
  intros Hk [Hw Hf] Hπ Hlen Hi Hnone Htop. destruct (kinv_head _ _ _ Hk) as [Hq Hqf].
  assert (∀ π', T !! π' ≠ Some q) as Hfresh by (intros π' H'; apply (Hf _ _ H'); set_solver).
  set (m1 := memset (memset (mem s) q 5 PGSIZE) q 0 PGSIZE).
  assert (mem_eq_on (table_byte T) (mem s) m1) as Hm1.
  { intros a (π' & p' & Hp' & Ha). rewrite /m1 ld8_zeroed decide_False //. intros Ha'.
    apply (Hfresh π'). by rewrite (pages_disjoint q p' a) //; eauto using pw_ok. }
  assert (∀ a, in_page q a → ld8 m1 a = 0) as Hz.
  { intros a Ha. by rewrite /m1 ld8_zeroed decide_True. }
  pose proof (pt_wf_ext _ m1 _ _ Hw Hm1) as Hw1.
  split; [split|split; [split|]].
  - by apply (pt_wf_extend m1 root T π p i q).
  - intros π' p' [[<- <-]|[_ H']]%lookup_insert_Some; [done|]. specialize (Hf _ _ H'). set_solver.
  - by exists [q].
  - by apply insert_subseteq.
  - intros π' p' [[<- <-]|[_ H']]%lookup_insert_Some; [right; set_solver|by left].
  - intros r [->|?]%elem_of_cons ?; [|done]. right. exists (π ++ [i]). by rewrite lookup_insert_eq.
  - constructor.
  - set_solver.
  - intros a [Ha Hfr]. simpl. rewrite /st64 ld8_stle decide_False.
    + rewrite ld8_zeroed decide_False //. intros Ha'. apply Hfr. exists q. split; [set_solver|done].
    + intros Hsp. apply Ha. exists π, p. split; [done|]. by eapply pte_ptr_in_page.
  - intros r Hr. change (ref (extended p i q s) r) with (ref (with_ref q 1 s) r).
    rewrite ref_ok_with_ref //. repeat case_decide; set_solver.
  - done.
  - intros va. simpl. rewrite (pte_of_extend m1 root T π p i q) //. by apply pte_of_ext.
Qed.

(** ** [walk] *)

(** What a computation on a table must be shown from: the allocator's
    invariant, free locks and a well-formed table. *)
Record vm_ok (s : kst) (fl : list Z) (root : Z) (T : gmap (list Z) Z) : Prop := {
  vo_inv : kinv s fl;
  vo_locks : unlocked s;
  vo_space : space s fl root T;
}.

Lemma wp_walk_level level π p va s fl root T (Q : Z → kst → Prop) :
  vm_ok s fl root T → T !! π = Some p → (length π ≤ 1)%nat →
  (π = [] → PX (Z.of_nat (S level)) va < 256) →
  (∀ s' fl' T' q, grown [] s T fl s' T' fl' → (length fl ≤ length fl' + 1)%nat → same_map s T s' T' → vm_ok s' fl' root T' →
     T' !! (π ++ [PX (Z.of_nat (S level)) va]) = Some q →
     wp (walk_loop level q va true) Q s') →
  (fl = [] → Q 0 s) →
  wp (walk_loop (S level) p va true) Q s.
Proof.
  intros [Hk Hl Hsp] Hπ Hlen Htop Hok Hoom. pose proof (sp_wf _ _ _ _ Hsp) as Hw.
  pose proof (PX_bound (Z.of_nat (S level)) va ltac:(lia)) as Hi.
  set (i := PX (Z.of_nat (S level)) va) in *.
  simpl walk_loop. apply wp_bind, wp_load64. fold i.
  rewrite (pw_dir _ _ _ Hw π p i Hπ Hlen Hi).
  destruct (T !! (π ++ [i])) as [q|] eqn:E.
  - pose proof (pw_ok _ _ _ Hw _ _ E) as Hq. rewrite dir_pte_V // dir_pte_pa //.
    by apply (Hok s fl T q (grown_refl s T fl)); [lia|..].
  - simpl. apply wp_bind. eapply (wp_kalloc s fl _ Hk Hl).
    + intros q fl' -> _. destruct (kinv_head _ _ _ Hk) as [Hq _].
      pose proof (page_ok_range q Hq). rewrite (_ : q =? 0 = false); [|lia].
      apply wp_bind, wp_kmemset, wp_bind, wp_store64.
      destruct (extended_space s fl' root T π p i q Hk Hsp Hπ Hlen Hi E Htop) as (Hsp' & Hg & Hs).
      eapply (Hok _ fl' (<[π ++ [i] := q]> T)); [exact Hg|simpl; lia|exact Hs| |by rewrite lookup_insert_eq].
      split; [by eapply kinv_extended|done|done].
    + intros Hfl. simpl. apply wp_ret. by apply Hoom.
Qed.

Lemma pte_addr_nonzero m root T va a : pt_wf m root T → pte_addr T va = Some a → a ≠ 0.
Proof.
  intros Hw (q & Hq & ->)%pte_addr_Some. pose proof (page_ok_range q (pw_ok _ _ _ Hw _ _ Hq)).
  pose proof (PX_bound 0 va ltac:(lia)). rewrite /pte_ptr. lia.
Qed.

(** [walk] with [alloc]: the address of the entry in a grown table, or null
    with the free list exhausted, which at most one page did not prevent. *)
Lemma wp_walk_alloc root va s fl T (Q : Z → kst → Prop) :
  vm_ok s fl root T → legal va →
  (∀ s' fl' T' a, grown [] s T fl s' T' fl' → (length fl ≤ length fl' + 2)%nat → same_map s T s' T' → vm_ok s' fl' root T' →
     pte_addr T' va = Some a → a ≠ 0 → Q a s') →
  (∀ s' T', grown [] s T fl s' T' [] → (length fl ≤ 1)%nat → same_map s T s' T' → vm_ok s' [] root T' → Q 0 s') →
  wp (walk root va true) Q s.
Proof.
  intros Hok Hva Hsome Hnone. rewrite /walk. unfold legal in Hva.
  destruct (Z.leb_spec MAXVA va); [lia|].
  apply (wp_walk_level 1 [] root va s fl root T); [done|apply Hok|simpl; lia|by intros _; apply PX_top| |].
  - intros s1 fl1 T1 q1 Hg1 Hl1 Hs1 Hok1 Hq1.
    apply (wp_walk_level 0 [PX 2 va] q1 va s1 fl1 root T1); [done|done|simpl; lia|done| |].
    + intros s2 fl2 T2 q2 Hg2 Hl2 Hs2 Hok2 Hq2. apply wp_ret.
      assert (pte_addr T2 va = Some (pte_ptr q2 (PX 0 va))) as Ha.
      { change ([PX 2 va] ++ [PX 1 va]) with [PX 2 va; PX 1 va] in Hq2.
        by rewrite /pte_addr Hq2. }
      apply (Hsome s2 fl2 T2); [by apply (grown_trans [] _ _ _ _ _ _ [] _ _ _ Hg1 Hg2)|lia|by intros va'; rewrite Hs2|done|done|].
      eapply pte_addr_nonzero; [apply Hok2|done].
    + intros ->. by apply (Hnone s1 T1).
  - intros ->. apply (Hnone s T); [apply grown_refl|simpl; lia|done|done].
Qed.

(** ** [mappages] *)

Lemma pte_addr_byte T va a b : pte_addr T va = Some a → span a 8 b → table_byte T b.
Proof.
  intros (q & Hq & ->)%pte_addr_Some Hb. exists [PX 2 va; PX 1 va], q. split; [done|].
  eapply pte_ptr_in_page; [|exact Hb]. apply PX_bound. lia.
Qed.

Lemma table_byte_not_free s fl root T b :
  vm_ok s fl root T → table_byte T b → ¬ free_byte fl b.
Proof.
  intros [Hk _ [Hw Hf]] (π & p & Hp & Hb) (r & Hr & Hb').
  assert (page_ok r) by (pose proof (ki_ok _ _ Hk) as Ho; by eapply Forall_forall in Ho).
  apply (Hf _ _ Hp). by rewrite (pages_disjoint p r b) //; eauto using pw_ok.
Qed.

Lemma vm_ok_set_pte s fl root T va a v :
  vm_ok s fl root T → pte_addr T va = Some a →
  vm_ok (set_mem (st64 (mem s) a v) s) fl root T ∧
  grown [] s T fl (set_mem (st64 (mem s) a v) s) T fl.
Proof.
  intros Hok Ha. pose proof Hok as [Hk Hl [Hw Hf]]. split; [split; [|done|split]|].
  - apply kinv_set_mem; [done|]. apply mem_eq_on_st64. intros b Hb Hsp.
    by eapply table_byte_not_free; [|eapply pte_addr_byte|].
  - by eapply pt_wf_set_pte.
  - done.
  - destruct (grown_refl s T fl) as [H1 H2 H3 H4 H4' H4'' _ H5 H6]. split; try done.
    apply mem_eq_on_st64. intros b [Hb _] Hsp. apply Hb. by eapply pte_addr_byte.
Qed.

(** The entry [mappages] writes. *)
Definition leaf_pte (pa perm : Z) : Z := Z.lor (Z.lor (PA2PTE pa) perm) PTE_V.

Lemma lor_bound k a b : 0 ≤ k → 0 ≤ a < 2 ^ k → 0 ≤ b < 2 ^ k → 0 ≤ Z.lor a b < 2 ^ k.
Proof.
  intros Hk Ha Hb. assert (Z.land (Z.lor a b) (Z.ones k) = Z.lor a b) as <-.
  { rewrite Z.land_lor_distr_l !Z.land_ones // !Z.mod_small //. }
  rewrite Z.land_ones //. apply Z.mod_pos_bound. lia.
Qed.

Lemma leaf_pte_eq pa perm :
  0 ≤ pa < 2 ^ 56 → 0 ≤ perm < 1024 →
  leaf_pte pa perm = pa / 4096 * 1024 + Z.lor perm 1 ∧ 0 ≤ Z.lor perm 1 < 1024.
Proof.
  intros Hpa Hperm. pose proof (lor_bound 10 perm 1 ltac:(lia) Hperm ltac:(lia)) as Hb.
  split; [|done]. rewrite /leaf_pte -Z.lor_assoc. apply mk_pte_eq; [lia|done].
Qed.

Lemma leaf_pte_u64 pa perm :
  0 ≤ pa < 2 ^ 56 → 0 ≤ perm < 1024 → u64 (leaf_pte pa perm) = leaf_pte pa perm.
Proof.
  intros Hpa Hperm. destruct (leaf_pte_eq pa perm) as [-> Hb]; [done..|].
  apply Z.mod_small. dlia.
Qed.

(** The mapping [f] with the [n] pages from [a] mapped to the physical pages
    from [pa]. *)
Definition map_range (f : Z → Z) (a n pa perm : Z) : Z → Z := λ va,
  if decide (span a (n * PGSIZE) va)
  then leaf_pte (pa + (va / PGSIZE * PGSIZE - a)) perm else f va.

Lemma map_range_step f a n pa perm va :
  a mod PGSIZE = 0 → 0 ≤ n →
  map_range (λ va, if decide (va / PGSIZE = a / PGSIZE) then leaf_pte pa perm else f va)
    (a + PGSIZE) n (pa + PGSIZE) perm va = map_range f a (n + 1) pa perm va.
Proof.
  intros Ha Hn. rewrite /map_range /span. repeat case_decide; try done; try dlia.
  - f_equal. lia.
  - f_equal. dlia.
Qed.

(** What a mapping operation promises: the table grew, it maps [f], and
    nothing else happened. *)
Record mapped_to (s : kst) (T : gmap (list Z) Z) (fl : list Z) (root : Z) (f : Z → Z)
    (s' : kst) (T' : gmap (list Z) Z) (fl' : list Z) : Prop := {
  mt_grown : grown [] s T fl s' T' fl';
  mt_ok : vm_ok s' fl' root T';
  mt_map : ∀ va, legal va → pte_of (mem s') T' va = f va;
}.

Lemma mapped_to_trans s T fl root g s1 T1 fl1 f s2 T2 fl2 :
  mapped_to s T fl root g s1 T1 fl1 → mapped_to s1 T1 fl1 root f s2 T2 fl2 →
  mapped_to s T fl root f s2 T2 fl2.
Proof. intros [Hg _ _] [Hg' ? ?]. split; try done. apply (grown_trans [] _ _ _ _ _ _ [] _ _ _ Hg Hg'). Qed.

Lemma mapped_to_ext s T fl root f g s' T' fl' :
  mapped_to s T fl root f s' T' fl' → (∀ va, legal va → f va = g va) →
  mapped_to s T fl root g s' T' fl'.
Proof. intros [] Hfg. split; try done. intros va Hva. rewrite -Hfg //. eauto. Qed.

Lemma mapped_to_set s fl root T va p v :
  vm_ok s fl root T → legal va → pte_addr T va = Some p →
  mapped_to s T fl root
    (λ va', if decide (va' / PGSIZE = va / PGSIZE) then u64 v else pte_of (mem s) T va')
    (set_mem (st64 (mem s) p v) s) T fl.
Proof.
  intros Hok Hva Hp. destruct (vm_ok_set_pte s fl root T va p v) as [Hok' Hg]; [done..|].
  split; [done..|]. intros va' Hva'. eapply pte_of_set_pte; [apply Hok|done..].
Qed.

Lemma pte_of_addr m T va a : pte_addr T va = Some a → ld64 m a = pte_of m T va.
Proof. by rewrite /pte_of => ->. Qed.

(** One round of the loop. *)
Lemma wp_map_one perm root a pa s fl T k (Q : Z → kst → Prop) :
  vm_ok s fl root T → 0 ≤ perm < 1024 → 0 ≤ pa < 2 ^ 56 → legal a →
  flag (pte_of (mem s) T a) PTE_V = false →
  (∀ s' T' fl',
     mapped_to s T fl root
       (λ va, if decide (va / PGSIZE = a / PGSIZE) then leaf_pte pa perm else pte_of (mem s) T va)
       s' T' fl' → (length fl ≤ length fl' + 2)%nat → wp k Q s') →
  (∀ s' T', mapped_to s T fl root (pte_of (mem s) T) s' T' [] → (length fl ≤ 1)%nat → Q (-1) s') →
  wp (pte ← walk root a true;
      if pte =? 0 then mret (-1)
      else
        v ← load64 pte;
        if flag v PTE_V then panic "mappages: remap" else store64 pte (leaf_pte pa perm);; k) Q s.
Proof.
  intros Hok Hperm Hpa Ha Hun Hs Hn. apply wp_bind.
  apply (wp_walk_alloc root a s fl T); [done..| |].
  - intros s1 fl1 T1 p Hg Hlen Hsame Hok1 Hp Hnz. destruct (Z.eqb_spec p 0); [done|].
    apply wp_bind, wp_load64. rewrite (pte_of_addr _ _ _ _ Hp) Hsame Hun.
    apply wp_bind, wp_store64. eapply Hs; [|exact Hlen]. eapply mapped_to_trans; [by split|].
    eapply mapped_to_ext; [by apply (mapped_to_set s1 fl1 root T1 a p)|].
    intros va Hva. cbv beta. rewrite Hsame leaf_pte_u64 //.
  - intros s1 T1 Hg Hlen Hsame Hok1. simpl. apply wp_ret. by eapply Hn.
Qed.

Lemma mappages_loop_S n root a last pa perm :
  mappages_loop (S n) root a last pa perm =
    (pte ← walk root a true;
     if pte =? 0 then mret (-1)
     else
       v ← load64 pte;
       if flag v PTE_V then panic "mappages: remap"
       else
         store64 pte (leaf_pte pa perm);;
         if a =? last then mret 0
         else mappages_loop n root (u64 (a + PGSIZE)) last (u64 (pa + PGSIZE)) perm).
Proof. done. Qed.

Lemma wp_mappages_loop perm last n root a pa s fl T :
  vm_ok s fl root T → 0 ≤ perm < 1024 → a mod PGSIZE = 0 → 0 ≤ a → 0 ≤ pa →
  a + Z.of_nat (S n) * PGSIZE ≤ MAXVA → pa + Z.of_nat (S n) * PGSIZE ≤ 2 ^ 56 →
  last = a + Z.of_nat n * PGSIZE →
  (∀ va, span a (Z.of_nat (S n) * PGSIZE) va → flag (pte_of (mem s) T va) PTE_V = false) →
  wp (mappages_loop (S n) root a last pa perm) (λ r s', ∃ T' fl',
    (r = 0 ∧ mapped_to s T fl root
               (map_range (pte_of (mem s) T) a (Z.of_nat (S n)) pa perm) s' T' fl' ∧
     (length fl ≤ length fl' + 2 * S n)%nat) ∨
    (r = -1 ∧ fl' = [] ∧ (length fl < 2 * S n)%nat ∧ ∃ k, 0 ≤ k < Z.of_nat (S n) ∧
       mapped_to s T fl root (map_range (pte_of (mem s) T) a k pa perm) s' T' fl')) s.
Proof.
  revert a pa s fl T. induction n as [|n IH];
    intros a pa s fl T Hok Hperm Ha Ha0 Hpa0 Hmax Hpa Hlast Hun;
    rewrite mappages_loop_S;
    (apply (wp_map_one perm root a pa s fl T);
     [done|done|lia|unfold legal; lia|apply Hun; unfold span; lia| |]).
  2,4: intros s1 T1 Hm Hlen; exists T1, []; right; split_and!; [done..|lia|]; exists 0; split; [lia|];
    eapply mapped_to_ext; [exact Hm|]; intros va _; rewrite /map_range decide_False //; unfold span; lia.
  - intros s1 T1 fl1 Hm Hlen. rewrite (_ : a =? last = true); [|lia]. apply wp_ret.
    exists T1, fl1. left. split; [done|]. split; [|lia]. eapply mapped_to_ext; [exact Hm|].
    intros va Hva. rewrite -(map_range_step _ a 0) // /map_range (decide_False (P:=span _ _ _)) //.
    unfold span. lia.
  - intros s1 T1 fl1 Hm Hlen. rewrite (_ : a =? last = false); [|lia].
    rewrite /u64 !(Z.mod_small _ (2 ^ 64)); [|lia..].
    eapply wp_mono; [apply (IH (a + PGSIZE) (pa + PGSIZE) s1 fl1 T1); try done; try lia; [apply Hm|dlia|]|].
    + intros va Hva. assert (legal va) by (unfold legal, span in *; lia).
      rewrite (mt_map _ _ _ _ _ _ _ _ Hm) // decide_False; [|unfold span in *; dlia].
      apply Hun. unfold span in *. lia.
    + assert (∀ k va, 0 ≤ k → legal va →
        map_range (pte_of (mem s1) T1) (a + PGSIZE) k (pa + PGSIZE) perm va =
        map_range (pte_of (mem s) T) a (k + 1) pa perm va) as Hstep.
      { intros k va Hk Hva. rewrite -map_range_step // /map_range. case_decide; [done|]. by apply Hm. }
      intros r s2 (T2 & fl2 & [(-> & Hm2 & Hlen2)|(-> & -> & Hlen2 & k & Hk & Hm2)]).
      * exists T2, fl2. left. split; [done|]. split; [|lia]. eapply mapped_to_trans; [exact Hm|].
        eapply mapped_to_ext; [exact Hm2|]. intros va Hva. rewrite Hstep //. f_equal. lia.
      * exists T2, []. right. split_and!; [done..|lia|]. exists (k + 1). split; [lia|].
        eapply mapped_to_trans; [exact Hm|]. eapply mapped_to_ext; [exact Hm2|].
        intros va Hva. rewrite Hstep //. lia.
Qed.

(** on a well-formed page table and an aligned range of unmapped legal
    addresses, [mappages] either returns 0 with exactly that range mapped to
    consecutive physical pages with the given permissions, or returns -1
    with the free list exhausted and a prefix of the range mapped.  All other
    mappings are kept, the table stays well formed, and no memory outside
    the table and the free pages is written. *)
Lemma mappages_spec root va size pa perm s fl T :
  vm_ok s fl root T → 0 ≤ perm < 1024 → va mod PGSIZE = 0 → size mod PGSIZE = 0 →
  0 ≤ va → 0 < size → va + size ≤ MAXVA → 0 ≤ pa → pa + size ≤ 2 ^ 56 →
  (∀ a, span va size a → flag (pte_of (mem s) T a) PTE_V = false) →
  wp (mappages root va size pa perm) (λ r s', ∃ T' fl',
    (r = 0 ∧ mapped_to s T fl root
               (map_range (pte_of (mem s) T) va (size / PGSIZE) pa perm) s' T' fl') ∨
    (r = -1 ∧ fl' = [] ∧ ∃ k, 0 ≤ k < size / PGSIZE ∧
       mapped_to s T fl root (map_range (pte_of (mem s) T) va k pa perm) s' T' fl')) s.
Proof.
  intros Hok Hperm Ha Hsz Hva Hpos Hmax Hpa Hpamax Hun. rewrite /mappages Ha Hsz /=.
  rewrite (_ : size =? 0 = false); [|lia].
  destruct (Z.to_nat (size / PGSIZE)) as [|n] eqn:En; [dlia|].
  replace (size / PGSIZE) with (Z.of_nat (S n)) by dlia.
  eapply wp_mono; [apply (wp_mappages_loop perm _ n root va pa s fl T); try done; try dlia|].
  - rewrite /u64 Z.mod_small; dlia.
  - intros a Ha'. apply Hun. unfold span in *. dlia.
  - intros r s' (T' & fl' & [(-> & Hm & _)|(-> & -> & _ & Hm)]); exists T'; [exists fl'; by left|exists []; by right].
Qed.

(** A zeroed page is an empty table. *)
Lemma empty_table_wf m p :
  page_ok p → (∀ a, in_page p a → ld8 m a = 0) → pt_wf m p {[ [] := p ]}.
Proof.
  intros Hp Hz. split.
  - apply lookup_singleton_eq.
  - intros π q [_ <-]%lookup_singleton_Some. done.
  - intros π q [<- _]%lookup_singleton_Some. simpl. lia.
  - intros π π' q [<- _]%lookup_singleton_Some [<- _]%lookup_singleton_Some. done.
  - intros π i q [E _]%lookup_singleton_Some. by destruct π.
  - intros i π q [E _]%lookup_singleton_Some. done.
  - intros π q i [<- <-]%lookup_singleton_Some _ Hi. rewrite lookup_singleton_ne; [|done].
    apply ld64_zeros. intros b Hb. apply Hz. by eapply pte_ptr_in_page.
Qed.
End vm.
