(* ===== verification/Uvm.v ===== *)
(** * User address spaces (kernel/vm.c)

    The theorems about the operations of vm.c that unmap, grow, shrink and
    free a user address space: [uvmunmap], [uvmdealloc], [uvmalloc],
    [freewalk] and [uvmfree], whose definitions are in the file Vm. *)

From S2P Require Import Prelude Mem Cstring Riscv Spinlock Kalloc Vm.

Local Open Scope Z_scope.

Section uvm.
Context {KI : KernelImage}.

(** ** Dropping references *)

Definition occ (l : list Z) (p : Z) : Z := Z.of_nat (count_occ Z.eq_dec l p).

Lemma occ_cons q l p : occ (q :: l) p = (if decide (p = q) then 1 else 0) + occ l p.
Proof.
  rewrite /occ. destruct (decide (p = q)) as [->|].
  - rewrite count_occ_cons_eq //. lia.
  - rewrite count_occ_cons_neq //.
Qed.

Lemma occ_app l l' p : occ (l ++ l') p = occ l p + occ l' p.
Proof. rewrite /occ count_occ_app. lia. Qed.

Lemma occ_pos l p : p ∈ l → 1 ≤ occ l p.
Proof. intros Hp%list_elem_of_In%(count_occ_In Z.eq_dec). rewrite /occ. lia. Qed.

Lemma occ_not_in l p : p ∉ l → occ l p = 0.
Proof.
  intros Hp. rewrite list_elem_of_In in Hp.
  apply (count_occ_not_In Z.eq_dec) in Hp. by rewrite /occ Hp.
Qed.

Lemma occ_NoDup l p : NoDup l → p ∈ l → occ l p = 1.
Proof.
  induction l as [|q l IH]; [set_solver|]. intros [Hq Hn]%NoDup_cons [->|Hp]%elem_of_cons.
  - rewrite occ_cons decide_True // occ_not_in //.
  - rewrite occ_cons IH // decide_False //. by intros ->.
Qed.

(** [dropped T l]: one reference to each page of [l] was given up, pages
    whose last reference that was are free, and memory outside the table
    [T] and the free pages did not change. *)
Record dropped (T : gmap (list Z) Z) (l : list Z) (s : kst) (fl : list Z)
    (s' : kst) (fl' : list Z) : Prop := {
  dr_ref : ∀ p, page_ok p → ref s' p = ref s p - occ l p;
  dr_fl : ∃ new, fl' = new ++ fl ∧ ∀ p, p ∈ new → p ∈ l;
  dr_mem : mem_eq_on (λ a, ¬ table_byte T a ∧ ¬ free_byte fl' a) (mem s) (mem s');
  dr_held : held s' = held s;
}.

Lemma free_byte_mono fl fl' a : (∀ p, p ∈ fl → p ∈ fl') → free_byte fl a → free_byte fl' a.
Proof. intros Hs (p & Hp & Ha). exists p. eauto. Qed.

Lemma dropped_refl T s fl : dropped T [] s fl s fl.
Proof.
  split; [|by exists []; split; [|set_solver]|done..].
  intros p Hp. rewrite /occ /=. lia.
Qed.

Lemma dropped_trans T l s fl s1 fl1 l' s2 fl2 :
  dropped T l s fl s1 fl1 → dropped T l' s1 fl1 s2 fl2 → dropped T (l ++ l') s fl s2 fl2.
Proof.
  intros [Hr (n & -> & Hn) Hm Hh] [Hr' (n' & -> & Hn') Hm' Hh']. split.
  - intros p Hp. rewrite Hr' // Hr // occ_app. lia.
  - exists (n' ++ n). split; [by rewrite app_assoc|]. set_solver.
  - intros a [Ha Hf]. rewrite (Hm' a) //. apply Hm. split; [done|].
    intros Hf'. apply Hf. eapply free_byte_mono; [|exact Hf']. set_solver.
  - congruence.
Qed.

Lemma dropped_app_nil T l s fl s1 fl1 s2 fl2 :
  dropped T l s fl s1 fl1 → dropped T [] s1 fl1 s2 fl2 → dropped T l s fl s2 fl2.
Proof. intros H1 H2. rewrite -(app_nil_r l). by eapply dropped_trans. Qed.

Lemma kinv_not_free s fl p : kinv s fl → page_ok p → 1 ≤ ref s p → p ∉ fl.
Proof. intros Hk Hp Hr. rewrite (ki_ref _ _ Hk) //. lia. Qed.

(** The memory a [kfree] of the last reference changes is in that page. *)
Lemma freed_mem p s a : ¬ in_page p a → ld8 (mem (freed p s)) a = ld8 (mem s) a.
Proof.
  intros Ha. simpl. rewrite /st64 ld8_stle decide_False; [|unfold span in *; lia].
  rewrite ld8_memset_page decide_False //.
Qed.

Lemma freed_ref p s q : page_ok p → page_ok q → ref (freed p s) q = if decide (q = p) then 0 else ref s q.
Proof. intros Hp Hq. rewrite -(ref_ok_with_ref s p 0 q) //. Qed.

Lemma wp_kfree_vm p s fl root T (Q : unit → kst → Prop) :
  vm_ok s fl root T → page_ok p → 1 ≤ ref s p → (∀ π, T !! π ≠ Some p) →
  (∀ s' fl', vm_ok s' fl' root T → dropped T [p] s fl s' fl' → same_map s T s' T → Q tt s') →
  wp (kfree p) Q s.
Proof.
  intros [Hk Hl [Hw Hf]] Hp Hr HT HQ. assert (p ∉ fl) as Hfl by by eapply kinv_not_free.
  apply (wp_kfree s fl p _ Hk Hl Hp Hfl).
  - intros Hr1 Hk'. apply (HQ _ fl); [by split| |done]. split; [|by exists []; split; [|set_solver]|done..].
    intros q Hq. rewrite ref_ok_with_ref // occ_cons /occ /=. case_decide; [subst|]; lia.
  - intros Hr1 Hk'. assert (mem_eq_on (table_byte T) (mem s) (mem (freed p s))) as Hm.
    { intros a (π & q & Hq & Ha). apply freed_mem. intros Ha'. apply (HT π).
      by rewrite (pages_disjoint p q a) //; eauto using pw_ok. }
    apply (HQ _ (p :: fl)).
    + split; [done|done|]. split; [by eapply pt_wf_ext|].
      intros π q Hq [->|Hin]%elem_of_cons; [by apply (HT π)|by eapply Hf].
    + split; [|by exists [p]; split; [|set_solver]| |done].
      * intros q Hq. rewrite freed_ref // occ_cons /occ /=. case_decide; [subst|]; lia.
      * intros a [_ Ha]. apply freed_mem. intros Hin. apply Ha. exists p. set_solver.
    + intros va. by apply pte_of_ext.
Qed.

Lemma dropped_set_pte s fl T va a v :
  pte_addr T va = Some a → dropped T [] s fl (set_mem (st64 (mem s) a v) s) fl.
Proof.
  intros Ha. destruct (dropped_refl T s fl) as [H1 H2 _ H4]. split; try done.
  apply mem_eq_on_st64. intros b [Hb _] Hsp. apply Hb. by eapply pte_addr_byte.
Qed.

(** ** [uvmunmap] *)

(** A valid entry that is not a directory entry. *)
Definition leaf (v : Z) : Prop := flag v PTE_V = true ∧ PTE_FLAGS v ≠ PTE_V.

(** The physical pages of the [n] pages from [a]. *)
Fixpoint range_pages (f : Z → Z) (a : Z) (n : nat) : list Z :=
  match n with
  | O => []
  | S n' => PTE2PA (f a) :: range_pages f (a + PGSIZE) n'
  end.

Lemma range_pages_ext f g a n :
  (∀ i, 0 ≤ i < Z.of_nat n → f (a + i * PGSIZE) = g (a + i * PGSIZE)) →
  range_pages f a n = range_pages g a n.
Proof.
  revert a. induction n as [|n IH]; intros a Hfg; [done|]. simpl. f_equal.
  - specialize (Hfg 0 ltac:(lia)). replace (a + 0 * PGSIZE) with a in Hfg by lia. by rewrite Hfg.
  - apply IH. intros i Hi. specialize (Hfg (i + 1) ltac:(lia)).
    by replace (a + (i + 1) * PGSIZE) with (a + PGSIZE + i * PGSIZE) in Hfg by lia.
Qed.

Definition unmap_range (f : Z → Z) (a n : Z) : Z → Z := λ va,
  if decide (span a (n * PGSIZE) va) then 0 else f va.

(** A page-table that owns a reference to each of the pages [l]. *)
Definition owned (s : kst) (T : gmap (list Z) Z) (l : list Z) : Prop :=
  ∀ p, p ∈ l → page_ok p ∧ (∀ π, T !! π ≠ Some p) ∧ occ l p ≤ ref s p.

Lemma owned_cons s T p l : owned s T (p :: l) →
  page_ok p ∧ (∀ π, T !! π ≠ Some p) ∧ 1 ≤ ref s p ∧
  ∀ fl s' fl', dropped T [p] s fl s' fl' → owned s' T l.
Proof.
  intros Ho. destruct (Ho p ltac:(set_solver)) as (Hp & HT & Hr). split_and!; try done.
  - rewrite occ_cons decide_True // in Hr. pose proof (Nat2Z.is_nonneg (count_occ Z.eq_dec l p)).
    rewrite /occ in Hr. lia.
  - intros fl s' fl' Hd q Hq. destruct (Ho q ltac:(set_solver)) as (Hq1 & Hq2 & Hq3).
    split_and!; try done. rewrite (dr_ref _ _ _ _ _ _ Hd) //.
    rewrite occ_cons in Hq3. rewrite occ_cons /occ /= in Hq3 |- *. lia.
Qed.

Lemma unmap_range_step f a n va :
  a mod PGSIZE = 0 → 0 ≤ n →
  unmap_range (λ va, if decide (va / PGSIZE = a / PGSIZE) then 0 else f va) (a + PGSIZE) n va =
  unmap_range f a (n + 1) va.
Proof. intros Ha Hn. rewrite /unmap_range /span. repeat case_decide; try done; dlia. Qed.

Lemma uvmunmap_loop_S n root a bound do_free :
  uvmunmap_loop (S n) root a bound do_free =
    if a <? bound then
      pte ← walk root a false;
      if pte =? 0 then panic "uvmunmap: walk"
      else
        v ← load64 pte;
        if negb (flag v PTE_V) then panic "uvmunmap: not mapped"
        else if PTE_FLAGS v =? PTE_V then panic "uvmunmap: not a leaf"
        else
          (if do_free then kfree (PTE2PA v) else mret tt);;
          store64 pte 0;;
          uvmunmap_loop n root (u64 (a + PGSIZE)) bound do_free
    else mret tt.
Proof. done. Qed.

(** The entry of a mapped address is in the table. *)
Lemma leaf_addr m T va : leaf (pte_of m T va) → ∃ a, pte_addr T va = Some a.
Proof. rewrite /pte_of. destruct (pte_addr T va); [eauto|]. by intros [Hv _]. Qed.

Definition unmapped_to (do_free : bool) (s : kst) (fl : list Z) (root : Z) (T : gmap (list Z) Z)
    (a : Z) (n : nat) (s' : kst) (fl' : list Z) : Prop :=
  vm_ok s' fl' root T ∧
  dropped T (if do_free then range_pages (pte_of (mem s) T) a n else []) s fl s' fl' ∧
  ∀ va, legal va → pte_of (mem s') T va = unmap_range (pte_of (mem s) T) a (Z.of_nat n) va.

Lemma wp_unmap_free (do_free : bool) p s fl root T (Q : unit → kst → Prop) :
  vm_ok s fl root T → (if do_free then page_ok p ∧ (∀ π, T !! π ≠ Some p) ∧ 1 ≤ ref s p else True) →
  (∀ s' fl', vm_ok s' fl' root T → dropped T (if do_free then [p] else []) s fl s' fl' →
     same_map s T s' T → Q tt s') →
  wp (if do_free then kfree p else mret tt) Q s.
Proof.
  intros Hok Hp HQ. destruct do_free.
  - destruct Hp as (? & ? & ?). by eapply wp_kfree_vm.
  - apply wp_ret. eapply HQ; [done|apply dropped_refl|done].
Qed.

Lemma wp_uvmunmap_loop do_free bound n root a s fl T :
  vm_ok s fl root T → a mod PGSIZE = 0 → 0 ≤ a → a + Z.of_nat n * PGSIZE ≤ MAXVA →
  bound = a + Z.of_nat n * PGSIZE →
  (∀ i, 0 ≤ i < Z.of_nat n → leaf (pte_of (mem s) T (a + i * PGSIZE))) →
  (do_free = true → owned s T (range_pages (pte_of (mem s) T) a n)) →
  wp (uvmunmap_loop (S n) root a bound do_free)
    (λ _ s', ∃ fl', unmapped_to do_free s fl root T a n s' fl') s.
Proof.
  revert a s fl. induction n as [|n IH]; intros a s fl Hok Ha Ha0 Hmax Hb Hleaf Hown;
    rewrite uvmunmap_loop_S.
  { rewrite (_ : a <? bound = false); [|lia]. apply wp_ret. exists fl. split; [done|].
    split; [by destruct do_free; apply dropped_refl|].
    intros va _. rewrite /unmap_range decide_False //. unfold span. lia. }
  rewrite (_ : a <? bound = true); [|lia].
  assert (legal a) as Hla by (unfold legal; lia).
  assert (leaf (pte_of (mem s) T a)) as Hl0.
  { specialize (Hleaf 0 ltac:(lia)). by replace (a + 0 * PGSIZE) with a in Hleaf by lia. }
  destruct (leaf_addr _ _ _ Hl0) as [e He].
  apply wp_bind. eapply wp_Ret; [by apply walk_noalloc; [apply Hok|]|]. rewrite He /=.
  pose proof (pte_addr_nonzero _ _ _ _ _ (sp_wf _ _ _ _ (vo_space _ _ _ _ Hok)) He).
  destruct (Z.eqb_spec e 0); [done|]. apply wp_bind, wp_load64.
  rewrite (pte_of_addr _ _ _ _ He). destruct Hl0 as [-> Hnl].
  destruct (Z.eqb_spec (PTE_FLAGS (pte_of (mem s) T a)) PTE_V); [done|]. simpl.
  apply wp_bind. eapply (wp_unmap_free do_free _ s fl root T); [done| |].
  { destruct do_free; [|done]. by destruct (owned_cons _ _ _ _ (Hown eq_refl)) as (? & ? & ? & _). }
  intros s1 fl1 Hok1 Hd1 Hs1. apply wp_bind, wp_store64.
  destruct (mapped_to_set s1 fl1 root T a e 0) as [_ Hok2 Hm2]; [done..|].
  change (u64 0) with 0 in Hm2.
  pose proof (dropped_app_nil _ _ _ _ _ _ _ _ Hd1 (dropped_set_pte s1 fl1 T a e 0 He)) as Hd2.
  set (s2 := set_mem (st64 (mem s1) e 0) s1) in *. rewrite /u64 (Z.mod_small (a + PGSIZE)); [|lia].
  assert (∀ i, 0 ≤ i < Z.of_nat n →
    pte_of (mem s2) T (a + PGSIZE + i * PGSIZE) = pte_of (mem s) T (a + PGSIZE + i * PGSIZE)) as Hrest.
  { intros i Hi. rewrite Hm2; [|unfold legal; lia]. rewrite decide_False; [apply Hs1|dlia]. }
  pose proof (range_pages_ext _ _ (a + PGSIZE) n Hrest) as Hpg.
  eapply wp_mono; [apply (IH (a + PGSIZE) s2 fl1); try done; try lia; [dlia| |]|].
  - intros i Hi. rewrite Hrest //. specialize (Hleaf (i + 1) ltac:(lia)).
    by replace (a + (i + 1) * PGSIZE) with (a + PGSIZE + i * PGSIZE) in Hleaf by lia.
  - intros ->. rewrite Hpg. destruct (owned_cons _ _ _ _ (Hown eq_refl)) as (_ & _ & _ & Ho). by eapply Ho.
  - intros _ s3 (fl3 & Hok3 & Hd3 & Hm3). exists fl3. split; [done|]. split.
    + rewrite Hpg in Hd3. pose proof (dropped_trans _ _ _ _ _ _ _ _ _ Hd2 Hd3) as Hd.
      by destruct do_free.
    + intros va Hva. rewrite Hm3 //. rewrite (_ : Z.of_nat (S n) = Z.of_nat n + 1); [|lia].
      rewrite -unmap_range_step //; [|lia]. rewrite /unmap_range. case_decide; [done|].
      rewrite Hm2 //. case_decide; [done|]. apply Hs1.
Qed.

Lemma wp_uvmunmap do_free root va n s fl T :
  vm_ok s fl root T → va mod PGSIZE = 0 → 0 ≤ va → va + Z.of_nat n * PGSIZE ≤ MAXVA →
  (∀ i, 0 ≤ i < Z.of_nat n → leaf (pte_of (mem s) T (va + i * PGSIZE))) →
  (do_free = true → owned s T (range_pages (pte_of (mem s) T) va n)) →
  wp (uvmunmap root va (Z.of_nat n) do_free)
    (λ _ s', ∃ fl', unmapped_to do_free s fl root T va n s' fl') s.
Proof.
  intros Hok Ha Hva Hmax Hleaf Hown. rewrite /uvmunmap Ha /=.
  rewrite /u64 Z.mod_small; [|lia].
  rewrite (_ : (va + Z.of_nat n * PGSIZE - va) / PGSIZE = Z.of_nat n); [|dlia].
  rewrite Nat2Z.id. by apply wp_uvmunmap_loop.
Qed.

(** unmapping [n] mapped pages of a table that owns a reference to each
    of their physical pages clears exactly those entries, drops exactly one
    reference per entry (none without [do_free]), puts on the free list the
    pages whose last reference went and no others, and changes no memory but
    the table and the free pages. *)
Lemma uvmunmap_spec do_free root va n s fl T :
  vm_ok s fl root T → va mod PGSIZE = 0 → 0 ≤ va → va + Z.of_nat n * PGSIZE ≤ MAXVA →
  (∀ i, 0 ≤ i < Z.of_nat n → leaf (pte_of (mem s) T (va + i * PGSIZE))) →
  (do_free = true → owned s T (range_pages (pte_of (mem s) T) va n)) →
  wp (uvmunmap root va (Z.of_nat n) do_free) (λ _ s', ∃ fl',
    unmapped_to do_free s fl root T va n s' fl' ∧
    ∀ p, p ∈ fl' ↔ p ∈ fl ∨
      (do_free = true ∧ p ∈ range_pages (pte_of (mem s) T) va n ∧
       ref s p = occ (range_pages (pte_of (mem s) T) va n) p)) s.
Proof.
  intros Hok Ha Hva Hmax Hleaf Hown.
  eapply wp_mono; [by apply wp_uvmunmap|]. intros _ s' (fl' & Hu). exists fl'. split; [done|].
  destruct Hu as (Hok' & [Hr (new & -> & Hnew) _ _] & _).
  intros p. rewrite elem_of_app. split.
  - intros [Hp|Hp]; [|by left]. right. specialize (Hnew _ Hp).
    destruct do_free; [|set_solver]. split_and!; [done..|].
    destruct (Hown eq_refl _ Hnew) as (Hpo & _).
    specialize (Hr p Hpo). assert (ref s' p = 0); [|lia].
    apply (ki_ref _ _ (vo_inv _ _ _ _ Hok')); [done|]. rewrite elem_of_app. by left.
  - intros [Hp|(-> & Hp & Hocc)]; [by right|]. rewrite -elem_of_app.
    destruct (Hown eq_refl _ Hp) as (Hpo & _).
    apply (ki_ref _ _ (vo_inv _ _ _ _ Hok')); [done|]. rewrite Hr //. lia.
Qed.

(** ** [uvmdealloc] *)

Lemma PGROUNDUP_ok a : 0 ≤ a ≤ MAXVA →
  PGROUNDUP a mod PGSIZE = 0 ∧ a ≤ PGROUNDUP a < a + PGSIZE ∧ PGROUNDUP a ≤ MAXVA.
Proof. intros Ha. rewrite PGROUNDUP_eq; [dlia|lia|lia]. Qed.

(** The number of pages [uvmdealloc] releases. *)
Definition dealloc_pages (oldsz newsz : Z) : nat :=
  Z.to_nat ((PGROUNDUP oldsz - PGROUNDUP newsz) / PGSIZE).

Lemma wp_uvmdealloc root oldsz newsz s fl T :
  vm_ok s fl root T → 0 ≤ newsz < oldsz → oldsz ≤ MAXVA →
  (∀ va, span (PGROUNDUP newsz) (PGROUNDUP oldsz - PGROUNDUP newsz) va → va mod PGSIZE = 0 →
     leaf (pte_of (mem s) T va)) →
  owned s T (range_pages (pte_of (mem s) T) (PGROUNDUP newsz) (dealloc_pages oldsz newsz)) →
  wp (uvmdealloc root oldsz newsz) (λ r s', r = newsz ∧ ∃ fl',
    unmapped_to true s fl root T (PGROUNDUP newsz) (dealloc_pages oldsz newsz) s' fl') s.
Proof.
  intros Hok Hsz Hmax Hleaf Hown.
  destruct (PGROUNDUP_ok oldsz) as (Ho1 & Ho2 & Ho3); [lia|].
  destruct (PGROUNDUP_ok newsz) as (Hn1 & Hn2 & Hn3); [lia|].
  rewrite /uvmdealloc. destruct (Z.leb_spec oldsz newsz); [lia|].
  rewrite /dealloc_pages in Hown |- *. destruct (Z.ltb_spec (PGROUNDUP newsz) (PGROUNDUP oldsz)).
  - apply wp_bind. rewrite /s32 (Z.mod_small (_ + 2 ^ 31)); [|dlia].
    rewrite Z.add_simpl_r /u64 Z.mod_small; [|dlia].
    rewrite -{1}(Z2Nat.id (_ / PGSIZE)); [|dlia].
    eapply wp_mono; [apply wp_uvmunmap; try done; try lia; [dlia|]|].
    + intros i Hi. apply Hleaf; [unfold span; dlia|dlia].
    + intros [] s' Hs'. by apply wp_ret.
  - apply wp_bind, wp_ret, wp_ret. split; [done|]. exists fl.
    rewrite (_ : Z.to_nat _ = 0%nat); [|dlia]. split; [done|]. split; [apply dropped_refl|].
    intros va _. rewrite /unmap_range decide_False //. unfold span. lia.
Qed.

(** ** [uvmalloc] *)

(** A page taken from the allocator and zeroed. *)
Definition fresh (p : Z) (s : kst) : kst :=
  set_mem (memset (mem (taken p s)) p 0 PGSIZE) (taken p s).

Lemma ld8_fresh p s a : ld8 (mem (fresh p s)) a = if decide (in_page p a) then 0 else ld8 (mem s) a.
Proof. apply ld8_zeroed. Qed.

(** A page taken from the allocator and then filled. *)
Lemma grown_taken s p fl root T m :
  vm_ok s (p :: fl) root T → (∀ a, ¬ in_page p a → ld8 m a = ld8 (mem s) a) →
  grown [p] s T (p :: fl) (set_mem m (taken p s)) T fl ∧
  vm_ok (set_mem m (taken p s)) fl root T ∧ same_map s T (set_mem m (taken p s)) T.
Proof.
  intros [Hk Hl [Hw Hf]] Hm'. destruct (kinv_head _ _ _ Hk) as [Hp Hpf].
  destruct (kinv_taken s p fl Hk) as [_ Hk'].
  assert (∀ π, T !! π ≠ Some p) as HT by (intros π H'; apply (Hf _ _ H'); set_solver).
  assert (mem_eq_on (table_byte T) (mem s) m) as Hm.
  { intros a (π & q & Hq & Ha). apply Hm'. intros Ha'. apply (HT π).
    by rewrite (pages_disjoint p q a) //; eauto using pw_ok. }
  split; [split|split; [split; [|done|split]|]].
  - by exists [p].
  - done.
  - eauto.
  - set_solver.
  - apply NoDup_singleton.
  - intros q ->%list_elem_of_singleton. set_solver.
  - intros a [_ Ha]. apply Hm'. intros Hin. apply Ha. exists p. set_solver.
  - intros q Hq. change (ref (set_mem m (taken p s)) q) with (ref (with_ref p 1 s) q).
    rewrite ref_ok_with_ref //. repeat case_decide; set_solver.
  - done.
  - apply kinv_set_mem; [done|]. intros a (r & Hr & Ha). simpl.
    assert (¬ in_page p a) as Hpa.
    { intros Ha'. assert (page_ok r) by (pose proof (ki_ok _ _ Hk') as Ho; by eapply Forall_forall in Ho).
      by rewrite (pages_disjoint r p a) in Hr. }
    rewrite Hm' // ld8_memset_page decide_False //.
  - by eapply pt_wf_ext.
  - intros π q Hq Hin. apply (Hf _ _ Hq). set_solver.
  - intros va. by apply pte_of_ext.
Qed.

Lemma grown_fresh s p fl root T :
  vm_ok s (p :: fl) root T →
  grown [p] s T (p :: fl) (fresh p s) T fl ∧ vm_ok (fresh p s) fl root T ∧
  same_map s T (fresh p s) T.
Proof.
  intros Hok. apply grown_taken; [done|]. intros a Ha.
  change (ld8 (mem (fresh p s)) a = ld8 (mem s) a). by rewrite ld8_fresh decide_False.
Qed.

(** The mapping [f] with the pages [l] mapped in order from [a]. *)
Definition map_pages (f : Z → Z) (a : Z) (l : list Z) (perm : Z) : Z → Z := λ va,
  if decide (a ≤ va) then
    match l !! Z.to_nat ((va - a) / PGSIZE) with Some p => leaf_pte p perm | None => f va end
  else f va.

Lemma map_pages_snoc f a l perm p va :
  a mod PGSIZE = 0 →
  map_pages f a (l ++ [p]) perm va =
  map_range (map_pages f a l perm) (a + Z.of_nat (length l) * PGSIZE) 1 p perm va.
Proof.
  intros Ha. rewrite /map_pages /map_range /span. case_decide; [|rewrite decide_False //; dlia].
  case_decide as Hr.
  - rewrite lookup_app_r; [|dlia]. rewrite (_ : (_ - length l)%nat = 0%nat); [|dlia].
    simpl. f_equal. dlia.
  - destruct (decide (Z.to_nat ((va - a) / PGSIZE) < length l)%nat).
    + by rewrite lookup_app_l.
    + rewrite (lookup_ge_None_2 l); [|lia]. rewrite lookup_ge_None_2 // length_app /=. dlia.
Qed.

(** What [uvmalloc] has done when the pages [l] are mapped from [a]. *)
Record growing (s : kst) (T : gmap (list Z) Z) (fl : list Z) (root a perm : Z) (l : list Z)
    (s' : kst) (T' : gmap (list Z) Z) (fl' : list Z) : Prop := {
  go_grown : grown l s T fl s' T' fl';
  go_ok : vm_ok s' fl' root T';
  go_map : ∀ va, legal va → pte_of (mem s') T' va = map_pages (pte_of (mem s) T) a l perm va;
  go_zero : ∀ p b, p ∈ l → in_page p b → ld8 (mem s') b = 0;
}.

Lemma growing_nil s T fl root a perm : vm_ok s fl root T → growing s T fl root a perm [] s T fl.
Proof.
  intros Hok. split; [apply grown_refl|done| |set_solver].
  intros va Hva. rewrite /map_pages. by case_decide.
Qed.

(** Pages of [l] are outside the table and the free pages. *)
Lemma taken_outside s T fl s' T' fl' root l p b :
  grown l s T fl s' T' fl' → vm_ok s fl root T → vm_ok s' fl' root T' → p ∈ l → in_page p b →
  page_ok p ∧ ¬ table_byte T' b ∧ ¬ free_byte fl' b.
Proof.
  intros Hg Hok Hok' Hp Hb. destruct (gr_taken _ _ _ _ _ _ _ Hg p Hp) as (H1 & H2 & H3).
  assert (page_ok p) as Hpo
    by (pose proof (ki_ok _ _ (vo_inv _ _ _ _ Hok)) as Ho; by eapply Forall_forall in Ho).
  split_and!; [done| |].
  - intros (π & q & Hq & Hb'). apply (H3 π). rewrite (pages_disjoint p q b) //.
    apply (pw_ok _ _ _ (sp_wf _ _ _ _ (vo_space _ _ _ _ Hok')) _ _ Hq).
  - intros (q & Hq & Hb'). apply H2. rewrite (pages_disjoint p q b) //.
    pose proof (ki_ok _ _ (vo_inv _ _ _ _ Hok')) as Ho. by eapply Forall_forall in Ho.
Qed.

Lemma growing_step s T fl root a perm l s1 T1 p fl1 s2 T2 fl2 :
  vm_ok s fl root T → a mod PGSIZE = 0 → growing s T fl root a perm l s1 T1 (p :: fl1) →
  mapped_to (fresh p s1) T1 fl1 root
    (map_range (pte_of (mem (fresh p s1)) T1) (a + Z.of_nat (length l) * PGSIZE) 1 p perm) s2 T2 fl2 →
  growing s T fl root a perm (l ++ [p]) s2 T2 fl2.
Proof.
  intros Hok Ha [Hg Hok1 Hmap Hz] [Hg2 Hok2 Hm2].
  destruct (grown_fresh _ _ _ _ _ Hok1) as (Hgf & Hokf & Hsf).
  pose proof (grown_trans _ _ _ _ _ _ _ _ _ _ _ Hg Hgf) as Hgf'.
  split; [|done| |].
  - rewrite -(app_nil_r (l ++ [p])). by eapply grown_trans.
  - intros va Hva. rewrite Hm2 // map_pages_snoc // /map_range. case_decide; [done|].
    rewrite Hsf. by apply Hmap.
  - intros q b Hq Hb. rewrite (gr_mem _ _ _ _ _ _ _ Hg2 b).
    + rewrite ld8_fresh. case_decide as Hpb; [done|].
      apply elem_of_app in Hq as [Hq| ->%list_elem_of_singleton]; [by eapply Hz|done].
    + by destruct (taken_outside _ _ _ _ _ _ _ _ _ _ Hgf' Hok Hokf Hq Hb) as (_ & ? & ?).
Qed.

(** The state after a failed [uvmalloc]: page-table pages may have been
    added, everything else is as before. *)
Record restored (s : kst) (T : gmap (list Z) Z) (fl : list Z) (root : Z)
    (s' : kst) (T' : gmap (list Z) Z) (fl' : list Z) : Prop := {
  rs_ok : vm_ok s' fl' root T';
  rs_sub : T ⊆ T';
  rs_new : ∀ π q, T' !! π = Some q → T !! π = Some q ∨ q ∈ fl;
  rs_mem : mem_eq_on (λ a, ¬ table_byte T a ∧ ¬ free_byte fl a) (mem s) (mem s');
  rs_ref : ∀ p, page_ok p → (∀ π, T' !! π = Some p → T !! π = Some p) → ref s' p = ref s p;
  rs_map : ∀ va, legal va → pte_of (mem s') T' va = pte_of (mem s) T va;
}.

Lemma occ_perm l l' p : l ≡ₚ l' → occ l p = occ l' p.
Proof.
  intros Hl. rewrite /occ. f_equal.
  by apply (proj1 (Permutation_count_occ Z.eq_dec l l')).
Qed.

Lemma grown_dropped s T fl root l s1 T1 fl1 l' s2 fl2 :
  vm_ok s fl root T → grown l s T fl s1 T1 fl1 → l ≡ₚ l' → dropped T1 l' s1 fl1 s2 fl2 →
  vm_ok s2 fl2 root T1 → (∀ va, legal va → pte_of (mem s2) T1 va = pte_of (mem s) T va) →
  restored s T fl root s2 T1 fl2.
Proof.
  intros [Hk Hl [Hw Hf]] [[u Hfl] Hsub Hnew Huse Hnd Htk Hmem Href Hh] Hperm
    [Hr (n & -> & Hn) Hm Hh'] Hok2 Hmap.
  assert (∀ p, p ∈ l' → p ∈ l) as Hll by (intros p; by rewrite Hperm).
  split; [done|done|naive_solver| | |done].
  - intros a [Ha Hfa]. rewrite (Hm a); [by apply Hmem|]. split.
    + intros (π & p & Hp & Hin). apply Hnew in Hp as [Hp|[Hp _]]; [apply Ha; by exists π, p|].
      apply Hfa. by exists p.
    + intros (p & Hp & Hin). apply Hfa. exists p. split; [|done].
      apply elem_of_app in Hp as [Hp|Hp]; [by apply Htk, Hll, Hn|]. rewrite Hfl. set_solver.
  - intros p Hp Hnt. rewrite Hr // Href // -(occ_perm l l') //. case_decide as Hd.
    + destruct Hd as [H1 H2]. assert (ref s p = 0) as -> by by apply (ki_ref _ _ Hk).
      destruct (Huse p H1 H2) as [Hpl|[π Hπ]]; [rewrite occ_NoDup //|].
      by destruct (Hf _ _ (Hnt _ Hπ)).
    + rewrite occ_not_in; [lia|]. intros Hpl. destruct (Htk p Hpl). naive_solver.
Qed.

Lemma leaf_pte_pa p perm : page_ok p → 0 ≤ perm < 1024 → PTE2PA (leaf_pte p perm) = p.
Proof.
  intros Hp Hperm. pose proof (page_ok_range p Hp) as [Hr Ha].
  destruct (leaf_pte_eq p perm) as [-> Hb]; [lia|done|]. rewrite PTE2PA_eq; dlia.
Qed.

Lemma leaf_pte_flags p perm : page_ok p → 0 ≤ perm < 1024 → PTE_FLAGS (leaf_pte p perm) = Z.lor perm 1.
Proof.
  intros Hp Hperm. pose proof (page_ok_range p Hp) as [Hr Ha].
  destruct (leaf_pte_eq p perm) as [-> Hb]; [lia|done|]. rewrite PTE_FLAGS_eq. dlia.
Qed.

Lemma leaf_pte_V p perm : flag (leaf_pte p perm) PTE_V = true.
Proof.
  rewrite /leaf_pte flag_V -Z.bit0_odd Z.lor_spec. by rewrite orb_true_r.
Qed.

Lemma leaf_pte_leaf p perm :
  page_ok p → 0 ≤ perm < 1024 → Z.lor perm 1 ≠ 1 → leaf (leaf_pte p perm).
Proof. intros Hp Hperm Hnt. split; [apply leaf_pte_V|]. by rewrite leaf_pte_flags. Qed.

Lemma range_pages_map (g : Z → Z) a l perm :
  Forall page_ok l → 0 ≤ perm < 1024 →
  (∀ i p, l !! i = Some p → g (a + Z.of_nat i * PGSIZE) = leaf_pte p perm) →
  range_pages g a (length l) = l.
Proof.
  revert a. induction l as [|p l IH]; intros a Hok Hperm Hg; [done|]. simpl.
  apply Forall_cons in Hok as [Hp Hok]. f_equal.
  - specialize (Hg 0%nat p eq_refl). rewrite Z.add_0_r in Hg. by rewrite Hg leaf_pte_pa.
  - apply IH; [done..|]. intros i q Hq. rewrite -(Hg (S i) q) //. f_equal. lia.
Qed.

(** Undoing a partial [uvmalloc]: [uvmdealloc] from the current top. *)
Lemma wp_undo root a perm l e s T fl s0 T1 fl0 s1 fl1 :
  vm_ok s fl root T → grown (l ++ e) s T fl s0 T1 fl0 → dropped T1 e s0 fl0 s1 fl1 →
  vm_ok s1 fl1 root T1 → a mod PGSIZE = 0 → 0 ≤ a → a + Z.of_nat (length l) * PGSIZE ≤ MAXVA →
  0 ≤ perm < 1024 → Z.lor perm 1 ≠ 1 →
  (∀ va, legal va → pte_of (mem s1) T1 va = map_pages (pte_of (mem s) T) a l perm va) →
  (∀ va, span a (Z.of_nat (length l) * PGSIZE) va → pte_of (mem s) T va = 0) →
  wp (uvmdealloc root (a + Z.of_nat (length l) * PGSIZE) a;; mret 0)
    (λ r s', r = 0 ∧ ∃ fl', restored s T fl root s' T1 fl') s1.
Proof.
  intros Hok Hg Hd Hok1 Ha Ha0 Hmax Hperm Hnt Hmap Hun.
  assert (PGROUNDUP a = a) as Ea by (rewrite PGROUNDUP_eq; [dlia|lia|lia]).
  assert (PGROUNDUP (a + Z.of_nat (length l) * PGSIZE) = a + Z.of_nat (length l) * PGSIZE) as Eb
    by (rewrite PGROUNDUP_eq; [dlia|lia|lia]).
  assert (∀ p, p ∈ l → page_ok p ∧ (∀ π, T1 !! π ≠ Some p) ∧ ref s1 p = 1) as Hl.
  { intros p Hp. destruct (gr_taken _ _ _ _ _ _ _ Hg p) as (H1 & H2 & H3); [set_solver|].
    assert (page_ok p) as Hpo
      by (pose proof (ki_ok _ _ (vo_inv _ _ _ _ Hok)) as Ho; by eapply Forall_forall in Ho).
    split_and!; [done..|]. rewrite (dr_ref _ _ _ _ _ _ Hd) // (gr_ref _ _ _ _ _ _ _ Hg) // decide_True //.
    pose proof (gr_nodup _ _ _ _ _ _ _ Hg) as (_ & Hdis & _)%NoDup_app.
    rewrite occ_not_in //. by apply Hdis. }
  assert (∀ i p, l !! i = Some p →
    pte_of (mem s1) T1 (a + Z.of_nat i * PGSIZE) = leaf_pte p perm) as Hpte.
  { intros i p Hi. pose proof (lookup_lt_Some _ _ _ Hi). rewrite Hmap; [|unfold legal; lia].
    rewrite /map_pages decide_True; [|lia]. rewrite (_ : Z.to_nat _ = i); [by rewrite Hi|dlia]. }
  assert (range_pages (pte_of (mem s1) T1) a (length l) = l) as Hrp.
  { apply (range_pages_map _ _ _ perm); [|done|done]. apply Forall_forall. intros p Hp. by apply Hl. }
  apply wp_bind. destruct (decide (l = [])) as [->|Hne].
  { rewrite /uvmdealloc (_ : _ <=? a = true); [|apply Z.leb_le; simpl; lia]. apply wp_ret, wp_ret.
    split; [done|]. exists fl1. eapply grown_dropped; [done|exact Hg|done|exact Hd|done|].
    intros va Hva. rewrite Hmap // /map_pages. by case_decide. }
  assert (0 < length l)%nat by (destruct l; [done|simpl; lia]).
  eapply wp_mono; [apply (wp_uvmdealloc root _ a s1 fl1 T1); try done; try lia|].
  - rewrite Ea Eb. intros va Hva Hal. unfold span in Hva.
    destruct (lookup_lt_is_Some_2 l (Z.to_nat ((va - a) / PGSIZE))) as [p Hp]; [dlia|].
    specialize (Hpte _ _ Hp). rewrite (_ : a + _ = va) in Hpte; [|dlia]. rewrite Hpte.
    apply leaf_pte_leaf; [|done..]. by eapply Hl, list_elem_of_lookup_2.
  - rewrite /dealloc_pages Ea Eb (_ : Z.to_nat _ = length l); [|dlia]. rewrite Hrp.
    intros p Hp. destruct (Hl p Hp) as (? & ? & ->). split_and!; [done..|].
    pose proof (gr_nodup _ _ _ _ _ _ _ Hg) as (Hnd & _ & _)%NoDup_app. rewrite occ_NoDup //.
  - intros r s2 (-> & fl2 & Hok2 & Hd2 & Hm2). apply wp_ret. split; [done|]. exists fl2.
    rewrite /dealloc_pages Ea Eb (_ : Z.to_nat _ = length l) in Hd2 Hm2; [|dlia]. rewrite Hrp in Hd2.
    eapply grown_dropped; [done|exact Hg| |by eapply dropped_trans|done|].
    + apply Permutation_app_comm.
    + intros va Hva. rewrite Hm2 // /unmap_range. case_decide as Hsp; [by rewrite Hun|].
      rewrite Hmap // /map_pages. case_decide; [|done].
      rewrite lookup_ge_None_2 //. unfold span in Hsp. dlia.
Qed.

Lemma uvmalloc_loop_S n root a oldsz newsz xperm :
  uvmalloc_loop (S n) root a oldsz newsz xperm =
    if a <? newsz then
      mem ← kalloc;
      if mem =? 0 then uvmdealloc root a oldsz;; mret 0
      else
        kmemset mem 0 PGSIZE;;
        r ← mappages root a PGSIZE mem (Z.lor (Z.lor PTE_R PTE_U) xperm);
        if negb (r =? 0) then
          kfree mem;;
          uvmdealloc root a oldsz;;
          mret 0
        else uvmalloc_loop n root (u64 (a + PGSIZE)) oldsz newsz xperm
    else mret newsz.
Proof. done. Qed.

(** [mappages] of one page, as [uvmalloc] and [uvmcopy] call it. *)
Lemma wp_mappages_page root va pa perm s fl T (Q : Z → kst → Prop) :
  vm_ok s fl root T → 0 ≤ perm < 1024 → va mod PGSIZE = 0 → 0 ≤ va → va + PGSIZE ≤ MAXVA →
  0 ≤ pa → pa + PGSIZE ≤ 2 ^ 56 → flag (pte_of (mem s) T va) PTE_V = false →
  (∀ s' T' fl', mapped_to s T fl root (map_range (pte_of (mem s) T) va 1 pa perm) s' T' fl' →
     (length fl ≤ length fl' + 2)%nat → Q 0 s') →
  (∀ s' T', mapped_to s T fl root (pte_of (mem s) T) s' T' [] → (length fl ≤ 1)%nat → Q (-1) s') →
  wp (mappages root va PGSIZE pa perm) Q s.
Proof.
  intros Hok Hperm Hal Hva Hmax Hpa Hpa' Hun Hs Hf. rewrite /mappages Hal /=.
  eapply wp_mono; [apply (wp_mappages_loop perm _ 0 root va pa s fl T); try done; try lia|].
  - rewrite /u64 Z.mod_small; lia.
  - intros a Ha. rewrite -Hun. f_equal. rewrite /pte_of /pte_addr. unfold span in Ha.
    rewrite !(PX_page_eq a va) //; dlia.
  - intros r s' (T' & fl' & [(-> & Hm & Hlen)|(-> & -> & Hlen & k & Hk & Hm)]); [by eapply Hs|].
    eapply Hf; [|lia]. eapply mapped_to_ext; [exact Hm|]. intros a _. rewrite /map_range decide_False //.
    unfold span. lia.
Qed.

Definition alloc_post (newsz : Z) (n : nat) (s : kst) (T : gmap (list Z) Z) (fl : list Z)
    (root a perm : Z) (r : Z) (s' : kst) : Prop :=
  (r = newsz ∧ ∃ l T' fl', length l = n ∧ growing s T fl root a perm l s' T' fl') ∨
  (r = 0 ∧ (length fl < 3 * n)%nat ∧ ∃ T' fl', restored s T fl root s' T' fl').

Lemma wp_uvmalloc_loop xperm n k root a newsz s T fl l s1 T1 fl1 :
  let perm := Z.lor (Z.lor PTE_R PTE_U) xperm in
  let top := a + Z.of_nat (length l) * PGSIZE in
  vm_ok s fl root T → growing s T fl root a perm l s1 T1 fl1 → (length fl ≤ length fl1 + 3 * length l)%nat →
  a mod PGSIZE = 0 → 0 ≤ a → 0 ≤ xperm < 1024 → k = (length l + n)%nat →
  a + Z.of_nat k * PGSIZE ≤ MAXVA →
  newsz ≤ top + Z.of_nat n * PGSIZE → (n ≠ 0%nat → top + (Z.of_nat n - 1) * PGSIZE < newsz) →
  (∀ va, span a (Z.of_nat k * PGSIZE) va → pte_of (mem s) T va = 0) →
  wp (uvmalloc_loop (S n) root top a newsz xperm) (alloc_post newsz k s T fl root a perm) s1.
Proof.
  revert l s1 T1 fl1. induction n as [|n IH];
    intros l s1 T1 fl1 perm top Hok Hgo Hlen Ha Ha0 Hx Hk Hmax Hn1 Hn2 Hun; rewrite uvmalloc_loop_S.
  { rewrite (_ : top <? newsz = false); [|lia]. apply wp_ret. left. split; [done|].
    exists l, T1, fl1. split; [lia|done]. }
  rewrite (_ : top <? newsz = true); [|lia].
  assert (0 ≤ perm < 1024) as Hperm by (by apply (lor_bound 10)).
  assert (Z.lor perm 1 ≠ 1) as Hnt.
  { intros E. apply (f_equal (λ x, Z.testbit x 1)) in E.
    rewrite /perm !Z.lor_spec in E. by destruct (Z.testbit xperm 1). }
  assert (∀ va, span a (Z.of_nat (length l) * PGSIZE) va → pte_of (mem s) T va = 0) as Hun'.
  { intros va Hva. apply Hun. unfold span in *. lia. }
  pose proof Hgo as [Hg Hok1 Hm1 Hz1].
  apply wp_bind. apply (wp_kalloc s1 fl1); [apply Hok1|apply Hok1| |].
  2:{ intros ->. simpl. eapply wp_mono;
        [eapply (wp_undo root a perm l [] s T fl s1 T1 []); try done; try lia|].
      - by rewrite app_nil_r.
      - apply dropped_refl.
      - intros r s' (-> & fl' & Hr). right. simpl in Hlen. split_and!; [done|lia|eauto]. }
  intros p fl' -> Hkt. destruct (kinv_head _ _ _ (vo_inv _ _ _ _ Hok1)) as [Hp _].
  pose proof (page_ok_range p Hp). rewrite (_ : p =? 0 = false); [|lia].
  apply wp_bind, wp_kmemset. change (set_mem _ _) with (fresh p s1).
  destruct (grown_fresh _ _ _ _ _ Hok1) as (Hgf & Hokf & Hsf).
  apply wp_bind, (wp_mappages_page root top p perm (fresh p s1) fl' T1); try done; try lia.
  { dlia. }
  { rewrite Hsf Hm1; [|unfold legal; lia]. rewrite /map_pages decide_True; [|lia].
    rewrite lookup_ge_None_2; [|dlia]. rewrite Hun //. unfold span. lia. }
  - intros s2 T2 fl2 Hmt Hlm. simpl.
    pose proof (growing_step _ _ _ _ _ _ _ _ _ _ _ _ _ _ Hok Ha Hgo Hmt) as Hgo2.
    rewrite /u64 Z.mod_small; [|lia].
    rewrite (_ : top + PGSIZE = a + Z.of_nat (length (l ++ [p])) * PGSIZE); [|rewrite length_app /=; lia].
    simpl in Hlen. apply (IH _ _ T2 fl2); try done; rewrite ?length_app /=; lia.
  - intros s2 T2 [Hg2 Hok2 Hm2] Hlm. simpl.
    pose proof (grown_trans _ _ _ _ _ _ _ _ _ _ _ (grown_trans _ _ _ _ _ _ _ _ _ _ _ Hg Hgf) Hg2) as Hgg.
    rewrite app_nil_r in Hgg.
    destruct (gr_taken _ _ _ _ _ _ _ Hgg p) as (Hpfl & _ & HpT); [set_solver|].
    apply wp_bind, (wp_kfree_vm p s2 [] root T2); [done|done| |done|].
    { rewrite (gr_ref _ _ _ _ _ _ _ Hgg) // decide_True //. set_solver. }
    intros s3 fl3 Hok3 Hd3 Hs3. eapply wp_mono;
      [apply (wp_undo root a perm l [p] s T fl s2 T2 [] s3 fl3); try done; try lia|].
    + intros va Hva. by rewrite Hs3 Hm2 // Hsf Hm1.
    + intros r s' (-> & fl'' & Hr). right. simpl in Hlen. split_and!; [done|lia|eauto].
Qed.

(** C37: growing a process from [oldsz] to [newsz] either returns [newsz]
    with the pages in between mapped, in order, to distinct zeroed pages
    taken from the free list with one reference each, or returns 0, which it
    does only when fewer than three pages per new page are free, with the
    mapping, all counts of pages that are not new page-table pages, and all
    memory outside the table as they were. *)
Theorem uvmalloc_spec root oldsz newsz xperm s fl T :
  vm_ok s fl root T → 0 ≤ oldsz ≤ newsz → newsz ≤ MAXVA → 0 ≤ xperm < 1024 →
  (∀ va, PGROUNDUP oldsz ≤ va < PGROUNDUP newsz → pte_of (mem s) T va = 0) →
  wp (uvmalloc root oldsz newsz xperm)
    (alloc_post newsz (dealloc_pages newsz oldsz) s T fl root (PGROUNDUP oldsz)
       (Z.lor (Z.lor PTE_R PTE_U) xperm)) s.
Proof.
  intros Hok Hsz Hmax Hx Hun.
  destruct (PGROUNDUP_ok oldsz) as (Ho1 & Ho2 & Ho3); [lia|].
  destruct (PGROUNDUP_ok newsz) as (Hn1 & Hn2 & Hn3); [lia|].
  rewrite /uvmalloc. destruct (Z.ltb_spec newsz oldsz); [lia|].
  rewrite (_ : Z.to_nat ((newsz - _ + PGSIZE - 1) / PGSIZE) = dealloc_pages newsz oldsz);
    [|rewrite /dealloc_pages; dlia].
  rewrite -{1}(Z.add_0_r (PGROUNDUP oldsz)).
  eapply (wp_uvmalloc_loop xperm _ _ root _ newsz s T fl [] s T fl); try done; try lia;
    rewrite /dealloc_pages /=.
  - by apply growing_nil.
  - dlia.
  - dlia.
  - dlia.
  - intros va Hva. apply Hun. unfold span in Hva. dlia.
Qed.

(** ** [freewalk] *)

(** The pages of the subtree at [π]. *)
Definition sub_pages (T : gmap (list Z) Z) (π : list Z) : list Z :=
  (filter (λ e : list Z * Z, π `prefix_of` e.1) (map_to_list T)).*2.

Lemma elem_of_sub_pages T π q : q ∈ sub_pages T π ↔ ∃ π', T !! (π ++ π') = Some q.
Proof.
  rewrite /sub_pages list_elem_of_fmap. split.
  - intros ([ρ q'] & -> & [[π' Hπ] Hin]%list_elem_of_filter). simpl in *. subst ρ.
    apply elem_of_map_to_list in Hin. eauto.
  - intros [π' Hq]. exists (π ++ π', q). split; [done|]. apply list_elem_of_filter.
    split; [by exists π'|by apply elem_of_map_to_list].
Qed.

(** The pages of the subtrees under the first [i] entries of [π]. *)
Definition child_pages (T : gmap (list Z) Z) (π : list Z) (i : nat) : list Z :=
  concat ((λ j : nat, sub_pages T (π ++ [Z.of_nat j])) <$> seq 0 i).

Lemma child_pages_S T π i :
  child_pages T π (S i) = child_pages T π i ++ sub_pages T (π ++ [Z.of_nat i]).
Proof. rewrite /child_pages seq_S fmap_app concat_app /= app_nil_r //. Qed.

Lemma elem_of_child_pages T π i q :
  q ∈ child_pages T π i ↔ ∃ j π', (j < i)%nat ∧ T !! (π ++ Z.of_nat j :: π') = Some q.
Proof.
  induction i as [|i IH]; [split; [set_solver|intros (?&?&?&?); lia]|].
  rewrite child_pages_S elem_of_app IH elem_of_sub_pages. split.
  - intros [(j & π' & Hj & Hq)|[π' Hq]]; [exists j, π'; split; [lia|done]|].
    exists i, π'. rewrite -app_assoc in Hq. split; [lia|done].
  - intros (j & π' & Hj & Hq). destruct (decide (j = i)) as [->|].
    + right. exists π'. by rewrite -app_assoc.
    + left. exists j, π'. split; [lia|done].
Qed.

(** Pages [l] were released: their counts are 0 and nothing else changed. *)
Record released (l : list Z) (P : Z → Prop) (s s' : kst) : Prop := {
  re_inv : ∃ fl, kinv s' fl;
  re_locks : unlocked s';
  re_ref : ∀ q, page_ok q → ref s' q = if decide (q ∈ l) then 0 else ref s q;
  re_mem : mem_eq_on (λ a, ¬ free_byte l a ∧ ¬ P a) (mem s) (mem s');
}.

(** The tables of a tree of which every level-0 entry is clear. *)
Definition cleared (m : gmap Z Z) (T : gmap (list Z) Z) : Prop :=
  ∀ π p i, T !! π = Some p → 0 ≤ i < 512 →
    ld64 m (pte_ptr p i) =
      match T !! (π ++ [i]) with Some q => Z.lor (PA2PTE q) PTE_V | None => 0 end.

Lemma dir_pte_rwx q : page_ok q →
  Z.land (Z.lor (PA2PTE q) PTE_V) (Z.lor (Z.lor PTE_R PTE_W) PTE_X) = 0.
Proof.
  intros Hq. rewrite mk_pte_eq; [|by apply page_ok_64|done].
  change (Z.lor (Z.lor PTE_R PTE_W) PTE_X) with (Z.land (Z.ones 10) 14).
  rewrite Z.land_assoc Z.land_ones; [|lia]. change PTE_V with 1.
  rewrite (_ : (_ + 1) mod 2 ^ 10 = 1); [done|dlia].
Qed.

(** What [freewalk] at [π] needs: the subtree as it was in the memory [m],
    in which it was cleared, with one reference to each of its pages. *)
Record walkable (m : gmap Z Z) (T : gmap (list Z) Z) (π : list Z) (s : kst) : Prop := {
  wk_inv : ∃ fl, kinv s fl;
  wk_locks : unlocked s;
  wk_ref : ∀ q, q ∈ sub_pages T π → ref s q = 1;
  wk_mem : mem_eq_on (free_byte (sub_pages T π)) m (mem s);
}.

Section freewalk.
Context (m : gmap Z Z) (root : Z) (T : gmap (list Z) Z).
Context (Hw : pt_wf m root T) (Hcl : cleared m T).

Lemma ancestor π π' q : T !! (π ++ π') = Some q → is_Some (T !! π).
Proof.
  revert q. induction π' as [|j π' IH] using rev_ind; intros q Hq.
  - rewrite app_nil_r in Hq. eauto.
  - rewrite app_assoc in Hq. destruct (pw_parent _ _ _ Hw _ _ _ Hq) as [[q' Hq'] _]. by eapply IH.
Qed.

Lemma sub_page_ok π q : q ∈ sub_pages T π → page_ok q.
Proof. intros [π' Hq]%elem_of_sub_pages. by eapply pw_ok. Qed.

Lemma child_page_ok π i q : q ∈ child_pages T π i → page_ok q.
Proof. intros (j & π' & _ & Hq)%elem_of_child_pages. by eapply pw_ok. Qed.

Lemma child_not_parent π i p : T !! π = Some p → p ∉ child_pages T π i.
Proof.
  intros Hp (j & π' & _ & Hq)%elem_of_child_pages.
  pose proof (pw_inj _ _ _ Hw _ _ _ Hp Hq) as E. apply (f_equal length) in E.
  rewrite length_app /= in E. lia.
Qed.

(** Subtrees under different entries share no page. *)
Lemma child_disjoint π i q :
  q ∈ sub_pages T (π ++ [Z.of_nat i]) → q ∉ child_pages T π i.
Proof.
  intros [π' Hq]%elem_of_sub_pages (j & π'' & Hj & Hq')%elem_of_child_pages.
  pose proof (pw_inj _ _ _ Hw _ _ _ Hq Hq') as E. rewrite -app_assoc in E.
  apply app_inv_head in E. simplify_eq/=. lia.
Qed.

Lemma sub_pages_split π p q :
  T !! π = Some p → q ∈ sub_pages T π ↔ q = p ∨ q ∈ child_pages T π 512.
Proof.
  intros Hp. rewrite elem_of_sub_pages elem_of_child_pages. split.
  - intros [[|i π'] Hq]; [rewrite app_nil_r in Hq; left; congruence|]. right.
    assert (is_Some (T !! (π ++ [i]))) as [p' Hp'] by (apply (ancestor _ π' q); by rewrite -app_assoc).
    destruct (pw_parent _ _ _ Hw _ _ _ Hp') as [_ Hi]. exists (Z.to_nat i), π'.
    split; [lia|]. by rewrite Z2Nat.id; [|lia].
  - intros [->|(j & π' & _ & Hq)]; [exists []; by rewrite app_nil_r|eauto].
Qed.

Lemma free_byte_page l q a : (∀ r, r ∈ l → page_ok r) → page_ok q → in_page q a →
  free_byte l a → q ∈ l.
Proof. intros Hl Hq Ha (r & Hr & Ha'). rewrite (pages_disjoint q r a) //. eauto. Qed.

Lemma sub_of_child π i q : q ∈ sub_pages T (π ++ [i]) → q ∈ sub_pages T π.
Proof. rewrite !elem_of_sub_pages. intros [π' Hq]. exists (i :: π'). by rewrite -app_assoc in Hq. Qed.

Lemma child_of_sub π i q : q ∈ child_pages T π i → q ∈ sub_pages T π.
Proof. rewrite elem_of_child_pages elem_of_sub_pages. intros (j & π' & _ & Hq). eauto. Qed.

Lemma parent_sub π p : T !! π = Some p → p ∈ sub_pages T π.
Proof. intros Hp. apply elem_of_sub_pages. exists []. by rewrite app_nil_r. Qed.

(** The state of the loop at entry [i] of [p]. *)
Definition loop_inv (π : list Z) (p : Z) (s0 : kst) (i : nat) (s : kst) : Prop :=
  released (child_pages T π i) (in_page p) s0 s ∧
  mem_eq_on (span (p + 8 * Z.of_nat i) (8 * (512 - Z.of_nat i))) m (mem s).

Lemma loop_child π p s0 i s :
  T !! π = Some p → walkable m T π s0 → loop_inv π p s0 i s →
  walkable m T (π ++ [Z.of_nat i]) s.
Proof.
  intros Hp [_ _ Hr0 Hm0] [[Hk Hl Hr Hm] _]. split; [done..| |].
  - intros q Hq. rewrite Hr; [|by eapply sub_page_ok]. rewrite decide_False; [|by apply child_disjoint].
    by eapply Hr0, sub_of_child.
  - intros a (q & Hq & Ha). rewrite (Hm a).
    + apply Hm0. exists q. split; [by eapply sub_of_child|done].
    + pose proof (sub_page_ok _ _ Hq) as Hqo. split.
      * intros Hf. apply (child_disjoint π i q Hq). eapply free_byte_page; [|done..].
        intros r. apply child_page_ok.
      * intros Hpa. apply elem_of_sub_pages in Hq as [π' Hq].
        rewrite (pages_disjoint q p a) // in Hq; [|by eapply pw_ok].
        pose proof (pw_inj _ _ _ Hw _ _ _ Hp Hq) as E. apply (f_equal length) in E.
        rewrite !length_app /= in E. lia.
Qed.

(** Clearing entry [i] once the subtree under it is released. *)
Lemma loop_next π p s0 i s s1 :
  T !! π = Some p → walkable m T π s0 → (i < 512)%nat → loop_inv π p s0 i s →
  released (sub_pages T (π ++ [Z.of_nat i])) (λ _, False) s s1 →
  loop_inv π p s0 (S i) (set_mem (st64 (mem s1) (pte_ptr p (Z.of_nat i)) 0) s1).
Proof.
  intros Hp Hwk Hi [[_ _ Hr Hm] He] [[fl1 Hk1] Hl1 Hr1 Hm1].
  pose proof (pw_ok _ _ _ Hw _ _ Hp) as Hpo.
  assert (p ∉ sub_pages T (π ++ [Z.of_nat i])) as Hps.
  { intros Hin. apply (child_not_parent π (S i) p Hp). rewrite child_pages_S. set_solver. }
  assert (ref s1 p = 1) as Hrp.
  { rewrite Hr1 // decide_False // Hr // decide_False; [|by apply child_not_parent].
    by apply (wk_ref _ _ _ _ Hwk), parent_sub. }
  split; [split|].
  - exists fl1. apply kinv_set_mem; [done|]. apply mem_eq_on_st64. intros a (q & Hq & Ha) Hsp.
    apply pte_ptr_in_page in Hsp; [|lia]. assert (page_ok q) as Hqo
      by (pose proof (ki_ok _ _ Hk1) as Ho; by eapply Forall_forall in Ho).
    rewrite (pages_disjoint q p a) // in Hq. apply (ki_ref _ _ Hk1) in Hq; [lia|done].
  - done.
  - intros q Hq. change (ref (set_mem _ s1) q) with (ref s1 q). rewrite Hr1 // Hr // child_pages_S.
    repeat case_decide; set_solver.
  - intros a [Hf Hpa]. rewrite /st64 ld8_stle decide_False; [|by intros ?%pte_ptr_in_page; [|lia]].
    rewrite (Hm1 a); [apply Hm|]; (split; [|tauto]);
      intros Hf'; apply Hf; (eapply free_byte_mono; [|exact Hf']); rewrite child_pages_S; set_solver.
  - intros a Ha. rewrite /st64 ld8_stle decide_False; [|unfold span, pte_ptr in *; lia].
    rewrite (Hm1 a); [apply He; unfold span in *; lia|]. split; [|by intros []]. intros Hf. apply Hps.
    eapply free_byte_page; [apply sub_page_ok|done| |exact Hf]. unfold span in *. lia.
Qed.

Lemma loop_skip π p s0 i s :
  T !! π = Some p → T !! (π ++ [Z.of_nat i]) = None → loop_inv π p s0 i s → loop_inv π p s0 (S i) s.
Proof.
  intros Hp Hn [Hr He]. split.
  - rewrite child_pages_S (_ : sub_pages T _ = []); [by rewrite app_nil_r|].
    apply elem_of_nil_inv. intros q [π' Hq]%elem_of_sub_pages.
    apply ancestor in Hq as [? ?]. congruence.
  - intros a Ha. apply He. unfold span in *. lia.
Qed.

Lemma wp_freewalk_loop d π p s0 n i s :
  T !! π = Some p → walkable m T π s0 →
  (∀ i q s, T !! (π ++ [i]) = Some q → walkable m T (π ++ [i]) s →
     wp (freewalk d q) (λ _ s', released (sub_pages T (π ++ [i])) (λ _, False) s s') s) →
  (i + n = 512)%nat → loop_inv π p s0 i s →
  wp (freewalk_loop (freewalk d) n p (Z.of_nat i)) (λ _ s', loop_inv π p s0 512 s') s.
Proof.
  intros Hp Hwk Hrec. revert i s. induction n as [|n IH]; intros i s Hi Hinv.
  { replace i with 512%nat in Hinv by lia. by apply wp_ret. }
  simpl freewalk_loop. apply wp_bind, wp_load64. rewrite (ld64_ext m).
  2:{ intros a Ha. apply Hinv. unfold span, pte_ptr in *. lia. }
  rewrite (Hcl π p) //; [|lia].
  destruct (T !! (π ++ [Z.of_nat i])) as [q|] eqn:Hq.
  - pose proof (pw_ok _ _ _ Hw _ _ Hq) as Hqo.
    rewrite dir_pte_V // dir_pte_rwx // dir_pte_pa //=.
    apply wp_bind, wp_bind. eapply wp_mono.
    { apply (Hrec _ _ _ Hq). by eapply loop_child. }
    intros [] s1 Hrel. apply wp_store64. rewrite (_ : Z.of_nat i + 1 = Z.of_nat (S i)); [|lia].
    apply IH; [lia|]. eapply loop_next; [done|done|lia|done|done].
  - simpl. apply wp_bind, wp_ret. rewrite (_ : Z.of_nat i + 1 = Z.of_nat (S i)); [|lia].
    apply IH; [lia|]. by apply loop_skip.
Qed.

Lemma wp_freewalk d π p s :
  (length π + d = 3)%nat → T !! π = Some p → walkable m T π s →
  wp (freewalk d p) (λ _ s', released (sub_pages T π) (λ _, False) s s') s.
Proof.
  revert π p s. induction d as [|d IH]; intros π p s Hlen Hp Hwk.
  { pose proof (pw_len _ _ _ Hw _ _ Hp). lia. }
  pose proof (pw_ok _ _ _ Hw _ _ Hp) as Hpo.
  simpl freewalk. apply wp_bind. eapply wp_mono.
  { apply (wp_freewalk_loop d π p s 512 0); [done|done| |done|].
    - intros i q s' Hq. apply IH; [|done]. rewrite length_app /=. lia.
    - destruct Hwk as [Hk Hl Hr Hm]. split; [split; [done|done| |done]|].
      + intros q Hq. case_decide; [set_solver|done].
      + intros a Ha. apply Hm. exists p. split; [by apply parent_sub|]. unfold span in *. lia. }
  intros [] s1 [[[fl1 Hk1] Hl1 Hr1 Hm1] _].
  assert (ref s1 p = 1) as Hrp.
  { rewrite Hr1 // decide_False; [|by apply child_not_parent]. by apply (wk_ref _ _ _ _ Hwk), parent_sub. }
  apply (wp_kfree s1 fl1 p); [done|done|done|eapply kinv_not_free; [done|done|lia]|lia|].
  intros _ Hk2. split; [by eexists|done| |].
  - intros q Hq. rewrite freed_ref // Hr1 //. pose proof (sub_pages_split π p q Hp) as Hs.
    repeat case_decide; naive_solver.
  - intros a [Hf _]. rewrite freed_mem.
    + apply Hm1. split.
      * intros Hf'. apply Hf. eapply free_byte_mono; [|exact Hf']. intros q. apply child_of_sub.
      * intros Ha. apply Hf. exists p. split; [by apply parent_sub|done].
    + intros Ha. apply Hf. exists p. split; [by apply parent_sub|done].
Qed.
End freewalk.

Lemma cleared_of_empty m root T :
  pt_wf m root T → (∀ va, legal va → pte_of m T va = 0) → cleared m T.
Proof.
  intros Hw Hz π p k Hp Hk. destruct (decide (length π ≤ 1)%nat); [by apply Hw|].
  pose proof (pw_len _ _ _ Hw _ _ Hp) as Hl. destruct π as [|i [|j [|? ?]]]; simpl in *; try lia.
  destruct (T !! [i; j; k]) as [q|] eqn:Hq; [pose proof (pw_len _ _ _ Hw _ _ Hq); simpl in *; lia|].
  destruct (pw_parent _ _ _ Hw [i] j p Hp) as [[q Hq'] Hj].
  destruct (pw_parent _ _ _ Hw [] i q Hq') as [_ Hi]. pose proof (pw_top _ _ _ Hw _ _ _ Hq').
  destruct (PX_make i j k) as (Hva & H2 & H1 & H0); [lia..|].
  specialize (Hz _ Hva). by rewrite /pte_of /pte_addr H2 H1 H0 Hp in Hz.
Qed.

(** Freeing a process's address space releases every page-table page
    and exactly one reference per mapped page: afterwards no table page is
    allocated, the count of every other page has dropped by the number of
    times it was mapped, and memory outside the pages that became free is
    unchanged. *)
Lemma wp_uvmfree root sz s fl T :
  vm_ok s fl root T → 0 ≤ sz ≤ MAXVA →
  let n := Z.to_nat (PGROUNDUP sz / PGSIZE) in
  let l := range_pages (pte_of (mem s) T) 0 n in
  (∀ va, 0 ≤ va < PGROUNDUP sz → va mod PGSIZE = 0 → leaf (pte_of (mem s) T va)) →
  (∀ va, legal va → PGROUNDUP sz ≤ va → pte_of (mem s) T va = 0) →
  owned s T l → (∀ π p, T !! π = Some p → ref s p = 1) →
  wp (uvmfree root sz) (λ _ s', ∃ fl', kinv s' fl' ∧ unlocked s' ∧
    (∀ q, page_ok q → ref s' q = if decide (q ∈ sub_pages T []) then 0 else ref s q - occ l q) ∧
    mem_eq_on (λ a, ¬ free_byte fl' a) (mem s) (mem s')) s.
Proof.
  intros Hok Hsz n l Hleaf Hz Hown Hone.
  destruct (PGROUNDUP_ok sz) as (Hr1 & Hr2 & Hr3); [lia|].
  rewrite /uvmfree. apply wp_bind.
  assert (wp (if 0 <? sz then uvmunmap root 0 (PGROUNDUP sz / PGSIZE) true else mret tt)
    (λ _ s', ∃ fl', unmapped_to true s fl root T 0 n s' fl') s) as Hun.
  { destruct (Z.ltb_spec 0 sz).
    - rewrite -(Z2Nat.id (PGROUNDUP sz / PGSIZE)); [|dlia]. apply wp_uvmunmap; try done; [subst n; dlia|].
      intros i Hi. apply Hleaf; subst n; dlia.
    - apply wp_ret. exists fl. assert (n = 0%nat) as -> by (subst n; by replace sz with 0 by lia).
      split; [done|]. split; [apply dropped_refl|].
      intros va _. rewrite /unmap_range decide_False //. unfold span. lia. }
  eapply wp_mono; [exact Hun|]. intros [] s1 (fl1 & Hok1 & [Hdr (new & -> & Hnew) Hdm Hdh] & Hm1).
  fold l in Hdr, Hnew. pose proof (sp_wf _ _ _ _ (vo_space _ _ _ _ Hok1)) as Hw1.
  assert (∀ q, q ∈ sub_pages T [] → page_ok q ∧ q ∉ l) as Hsub.
  { intros q [π Hq]%elem_of_sub_pages. split; [by eapply pw_ok|].
    intros (_ & HT & _)%Hown. by eapply HT. }
  eapply wp_mono; [apply (wp_freewalk (mem s1) root T Hw1) with (π := []); [|done|apply Hw1|]|].
  - eapply cleared_of_empty; [done|]. intros va Hva. rewrite Hm1 // /unmap_range.
    case_decide as Hsp; [done|]. apply Hz; [done|]. unfold span, legal in *. subst n. dlia.
  - split; [eexists; apply Hok1|apply Hok1| |done]. intros q Hq. destruct (Hsub q Hq) as [Hqo Hql].
    rewrite Hdr // occ_not_in //. apply elem_of_sub_pages in Hq as [π Hq]. rewrite (Hone _ _ Hq). lia.
  - intros [] s2 [[fl2 Hk2] Hl2 Hr Hm]. exists fl2. split_and!; [done..| |].
    + intros q Hq. rewrite Hr //. case_decide; [done|]. by apply Hdr.
    + assert (∀ q, q ∈ sub_pages T [] ∨ q ∈ new ++ fl → q ∈ fl2) as Hin.
      { intros q Hq. assert (page_ok q) as Hqo.
        { destruct Hq as [?|Hq]; [by apply Hsub|].
          pose proof (ki_ok _ _ (vo_inv _ _ _ _ Hok1)) as Ho. by eapply Forall_forall in Ho. }
        apply (ki_ref _ _ Hk2); [done|]. rewrite Hr //. case_decide; [done|].
        apply (ki_ref _ _ (vo_inv _ _ _ _ Hok1)); naive_solver. }
      intros a Ha. rewrite (Hm a).
      * apply Hdm. split; [|intros Hf; apply Ha; eapply free_byte_mono; [|exact Hf]; eauto].
        intros (π & q & Hq & Hqa). apply Ha. exists q. split; [|done]. apply Hin. left.
        apply elem_of_sub_pages. eauto.
      * split; [|tauto]. intros Hf. apply Ha. eapply free_byte_mono; [|exact Hf]. eauto.
Qed.
End uvm.
