(* ===== verification/Cow.v ===== *)
(** * Copy-on-write memory (kernel/vm.c, kernel/trap.c)

    [uvmcopy], the page-fault handler [CowHandler], and the routines that
    move data between the kernel and a user address space: [copyout],
    [copyin], [copyinstr].  [CowHandler] works on [myproc()->pagetable]; the
    model takes that page table as an argument. *)

From S2P Require Import Prelude Mem Cstring Riscv Spinlock Kalloc Vm Uvm.

Local Open Scope Z_scope.

Section cow.
Context {KI : KernelImage}.

(** The entry both processes get: a writable page becomes copy-on-write. *)
Definition cow_pte (v : Z) : Z :=
  if flag v PTE_W || flag v PTE_COW
  then Z.lor (Z.land v (Z.lnot PTE_W)) PTE_COW else v.

Definition uvmcopy_err (new i : Z) : M kst Z :=
  uvmunmap new 0 (i / PGSIZE) true;; mret (-1).

Fixpoint uvmcopy_loop (fuel : nat) (old new i sz : Z) : M kst Z :=
  match fuel with
  | O => out_of_fuel
  | S fuel' =>
      if i <? sz then
        pte ← walk old i false;
        if pte =? 0 then panic "uvmcopy: pte should exist"
        else
          v ← load64 pte;
          if negb (flag v PTE_V) then panic "uvmcopy: page not present"
          else
            let pa := PTE2PA v in
            (if flag v PTE_W || flag v PTE_COW then
               store64 pte (Z.land v (Z.lnot PTE_W));;
               v1 ← load64 pte;
               store64 pte (Z.lor v1 PTE_COW)
             else mret tt);;
            v ← load64 pte;
            let flags := u32 (PTE_FLAGS v) in
            r ← mappages new i PGSIZE pa flags;
            if negb (r =? 0) then uvmcopy_err new i
            else
              incref pa;;
              uvmcopy_loop fuel' old new (u64 (i + PGSIZE)) sz
      else mret 0
  end.

Definition uvmcopy (old new sz : Z) : M kst Z :=
  uvmcopy_loop (S (Z.to_nat ((sz + PGSIZE - 1) / PGSIZE))) old new 0 sz.

(** [pagetable] is [myproc()->pagetable]. *)
Definition CowHandler (pagetable va : Z) : M kst Z :=
  pte ← walk pagetable va false;
  if pte =? 0 then mret (-1)
  else
    v ← load64 pte;
    if negb (flag v PTE_V) || negb (flag v PTE_U) || negb (flag v PTE_COW) then mret (-1)
    else
      acquire REFLOCK;;
      v ← load64 pte;
      cnt ← pgref_get (PGINDEX v);
      if cnt =? 1 then
        store64 pte (Z.land v (Z.lnot PTE_COW));;
        v ← load64 pte;
        store64 pte (Z.lor v PTE_W);;
        release REFLOCK;;
        mret 0
      else
        release REFLOCK;;
        mem ← kalloc;
        if mem =? 0 then mret (-2)
        else
          v ← load64 pte;
          let pa := PTE2PA v in
          kmemmove mem pa PGSIZE;;
          kfree pa;;
          v ← load64 pte;
          store64 pte (Z.lor (Z.lor (PA2PTE mem) PTE_W) (PTE_FLAGS v));;
          v ← load64 pte;
          store64 pte (Z.land v (Z.lnot PTE_COW));;
          mret 0.

(** The loop of [copyout]; [mine] is [myproc()->pagetable]. *)
Fixpoint copyout_loop (fuel : nat) (mine pagetable dstva src len : Z) : M kst Z :=
  match fuel with
  | O => out_of_fuel
  | S fuel' =>
      if 0 <? len then
        let va0 := PGROUNDDOWN dstva in
        if MAXVA <=? va0 then mret (-1)
        else
          pte ← walk pagetable va0 false;
          if pte =? 0 then mret (-1)
          else
            v ← load64 pte;
            if negb (flag v PTE_V) || negb (flag v PTE_U) then mret (-1)
            else
              err ← (if negb (flag v PTE_W) then CowHandler mine va0 else mret 0);
              if err <? 0 then mret (-1)
              else
                v ← load64 pte;
                let pa0 := PTE2PA v in
                let n := PGSIZE - (dstva - va0) in
                let n := if len <? n then len else n in
                kmemmove (u64 (pa0 + (dstva - va0))) src (u32 n);;
                copyout_loop fuel' mine pagetable (u64 (va0 + PGSIZE)) (u64 (src + n)) (len - n)
      else mret 0
  end.

(** The first round copies at least one byte and every later one a whole
    page or the rest, so [len / PGSIZE + 2] rounds are enough. *)
Definition copyout (mine pagetable dstva src len : Z) : M kst Z :=
  copyout_loop (S (S (S (Z.to_nat (len / PGSIZE))))) mine pagetable dstva src len.

Fixpoint copyin_loop (fuel : nat) (pagetable dst srcva len : Z) : M kst Z :=
  match fuel with
  | O => out_of_fuel
  | S fuel' =>
      if 0 <? len then
        let va0 := PGROUNDDOWN srcva in
        pa0 ← walkaddr pagetable va0;
        if pa0 =? 0 then mret (-1)
        else
          let n := PGSIZE - (srcva - va0) in
          let n := if len <? n then len else n in
          kmemmove dst (u64 (pa0 + (srcva - va0))) (u32 n);;
          copyin_loop fuel' pagetable (u64 (dst + n)) (u64 (va0 + PGSIZE)) (len - n)
      else mret 0
  end.

Definition copyin (pagetable dst srcva len : Z) : M kst Z :=
  copyin_loop (S (S (S (Z.to_nat (len / PGSIZE))))) pagetable dst srcva len.

(** The inner loop of [copyinstr], over [n] bytes of one page; the result is
    whether a NUL was copied. *)
Fixpoint copyinstr_page (n : nat) (p dst : Z) : M kst bool :=
  match n with
  | O => mret false
  | S n' =>
      c ← load8 p;
      if c =? 0 then store8 dst 0;; mret true
      else
        store8 dst c;;
        copyinstr_page n' (p + 1) (dst + 1)
  end.

(** [max] and [dst] advance by [n] over a page without a NUL. *)
Fixpoint copyinstr_loop (fuel : nat) (pagetable dst srcva max : Z) : M kst Z :=
  match fuel with
  | O => out_of_fuel
  | S fuel' =>
      if 0 <? max then
        let va0 := PGROUNDDOWN srcva in
        pa0 ← walkaddr pagetable va0;
        if pa0 =? 0 then mret (-1)
        else
          let n := PGSIZE - (srcva - va0) in
          let n := if max <? n then max else n in
          got_null ← copyinstr_page (Z.to_nat n) (u64 (pa0 + (srcva - va0))) dst;
          if got_null : bool then mret 0
          else copyinstr_loop fuel' pagetable (dst + n) (u64 (va0 + PGSIZE)) (max - n)
      else mret (-1)
  end.

Definition copyinstr (pagetable dst srcva max : Z) : M kst Z :=
  copyinstr_loop (S (S (S (Z.to_nat (max / PGSIZE))))) pagetable dst srcva max.

(** ** Entries *)

Lemma flag_testbit v k : 0 ≤ k → flag v (Z.shiftl 1 k) = Z.testbit v k.
Proof.
  intros Hk. rewrite /flag Z.shiftl_1_l.
  assert (Z.land v (2 ^ k) = if Z.testbit v k then 2 ^ k else 0) as ->.
  { apply Z.bits_inj'. intros n Hn. rewrite Z.land_spec Z.pow2_bits_eqb //.
    destruct (Z.eqb_spec k n) as [->|].
    - destruct (Z.testbit v n); [by rewrite Z.pow2_bits_true|by rewrite Z.bits_0].
    - rewrite andb_false_r. destruct (Z.testbit v k); [by rewrite Z.pow2_bits_false|by rewrite Z.bits_0]. }
  destruct (Z.testbit v k); [|done]. pose proof (Z.pow_pos_nonneg 2 k). 
  destruct (Z.eqb_spec (2 ^ k) 0); [lia|done].
Qed.

(** The page part of an entry does not depend on its flags. *)
Lemma lor_page v m : 0 ≤ m < 1024 → Z.lor v m / 1024 = v / 1024.
Proof.
  intros Hm. change 1024 with (2 ^ 10). rewrite -!Z.shiftr_div_pow2; [|lia..].
  rewrite Z.shiftr_lor (Z.shiftr_div_pow2 m); [|lia]. rewrite (Z.div_small m); [|lia]. apply Z.lor_0_r.
Qed.

Lemma land_lnot_page v m : 0 ≤ m < 1024 → Z.land v (Z.lnot m) / 1024 = v / 1024.
Proof.
  intros Hm. change 1024 with (2 ^ 10). rewrite -!Z.shiftr_div_pow2; [|lia..].
  rewrite Z.shiftr_land -Z.lnot_shiftr; [|lia]. rewrite (Z.shiftr_div_pow2 m); [|lia].
  rewrite (Z.div_small m); [|lia]. apply Z.land_m1_r.
Qed.

(** A canonical entry: the reserved high bits are clear. *)
Definition canonical (v : Z) : Prop := 0 ≤ v < 2 ^ 54.

Lemma canonical_page v w : canonical v → w / 1024 = v / 1024 → canonical w ∧ PTE2PA w = PTE2PA v.
Proof.
  rewrite /canonical. intros Hv E. assert (0 ≤ w < 2 ^ 54) as Hw by dlia. split; [done|].
  rewrite !PTE2PA_eq; [by rewrite E|lia..].
Qed.

Lemma canonical_leaf v : canonical v → flag v PTE_V = true → leaf_pte (PTE2PA v) (PTE_FLAGS v) = v.
Proof.
  rewrite /canonical => Hv. rewrite (flag_testbit v 0) // => Ho.
  rewrite PTE2PA_eq; [|lia]. rewrite PTE_FLAGS_eq /leaf_pte mk_pte_eq; [|dlia|dlia].
  rewrite (_ : _ + _ = v); [|dlia]. apply Z.bits_inj'. intros n Hn. rewrite Z.lor_spec.
  change PTE_V with (2 ^ 0). rewrite Z.pow2_bits_eqb //.
  destruct (Z.eqb_spec 0 n) as [<-|]; [by rewrite Ho|by rewrite orb_false_r].
Qed.

(** Bits of an entry after the code's flag updates. *)
Ltac bits :=
  rewrite ?(flag_testbit _ 0) ?(flag_testbit _ 1) ?(flag_testbit _ 2) ?(flag_testbit _ 3)
    ?(flag_testbit _ 4) ?(flag_testbit _ 8) //;
  rewrite ?(Z.lor_spec, Z.land_spec, Z.lnot_spec) //.

Definition is_cow (v : Z) : bool := flag v PTE_W || flag v PTE_COW.

Lemma cow_pte_ok v : canonical v →
  canonical (cow_pte v) ∧ PTE2PA (cow_pte v) = PTE2PA v ∧
  flag (cow_pte v) PTE_V = flag v PTE_V ∧ flag (cow_pte v) PTE_U = flag v PTE_U ∧
  flag (cow_pte v) PTE_W = false ∧ flag (cow_pte v) PTE_COW = is_cow v.
Proof.
  intros Hv. rewrite /is_cow /cow_pte. destruct (flag v PTE_W || flag v PTE_COW) eqn:E.
  - destruct (canonical_page v (Z.lor (Z.land v (Z.lnot PTE_W)) PTE_COW)) as [Hc Hp]; [done| |].
    { by rewrite lor_page // land_lnot_page. }
    split_and!; [done|done|..]; unfold PTE_V, PTE_W, PTE_U, PTE_COW; bits.
    + by rewrite andb_true_r orb_false_r.
    + by rewrite andb_true_r orb_false_r.
    + by rewrite andb_false_r.
    + by rewrite orb_true_r.
  - apply orb_false_iff in E as [-> E]. by rewrite E.
Qed.

(** The entry [CowHandler] installs for the private copy [q]. *)
Definition priv_pte (q v : Z) : Z :=
  Z.land (Z.lor (Z.lor (PA2PTE q) PTE_W) (PTE_FLAGS v)) (Z.lnot PTE_COW).

Lemma priv_pte_ok q v : page_ok q → canonical v →
  canonical (priv_pte q v) ∧ PTE2PA (priv_pte q v) = q ∧
  flag (priv_pte q v) PTE_V = flag v PTE_V ∧ flag (priv_pte q v) PTE_U = flag v PTE_U ∧
  flag (priv_pte q v) PTE_W = true ∧ flag (priv_pte q v) PTE_COW = false.
Proof.
  intros Hq Hv. pose proof (page_ok_range q Hq) as [Hr Ha].
  assert (∀ k, 0 ≤ k < 10 → Z.testbit (PA2PTE q) k = false) as Hlow.
  { intros k Hk. rewrite PA2PTE_eq; [|lia]. apply (Z.mul_pow2_bits_low _ 10). lia. }
  assert (∀ k, 0 ≤ k < 10 → Z.testbit (PTE_FLAGS v) k = Z.testbit v k) as Hfl.
  { intros k Hk. rewrite PTE_FLAGS_eq. apply (Z.mod_pow2_bits_low v 10). lia. }
  assert (priv_pte q v / 1024 = q / 4096) as Hpg.
  { rewrite /priv_pte land_lnot_page // lor_page; [|rewrite PTE_FLAGS_eq; dlia].
    rewrite lor_page // PA2PTE_eq; dlia. }
  assert (canonical (priv_pte q v)) as Hc by (rewrite /canonical; dlia).
  split_and!; [done|rewrite PTE2PA_eq; [dlia|destruct Hc; lia]|..];
    unfold priv_pte, PTE_V, PTE_W, PTE_U, PTE_COW; bits;
    rewrite ?Hlow // ?Hfl // ?andb_true_r ?andb_false_r ?orb_true_r //.
Qed.

(** ** Counting mapped pages *)

Lemma occ_concat_le ls i l p : ls !! i = Some l → occ l p ≤ occ (concat ls) p.
Proof.
  intros Hi. rewrite -(take_drop_middle ls i l) // concat_app /= !occ_app. rewrite /occ. lia.
Qed.

Lemma occ_in l p : 1 ≤ occ l p → p ∈ l.
Proof. intros Ho. destruct (decide (p ∈ l)) as [|Hn]; [done|]. rewrite occ_not_in // in Ho. Qed.

Lemma occ_nonneg l p : 0 ≤ occ l p.
Proof. rewrite /occ. lia. Qed.

Lemma occ_concat_insert ls i l l' p :
  ls !! i = Some l → occ (concat (<[i := l']> ls)) p = occ (concat ls) p - occ l p + occ l' p.
Proof.
  intros Hi. rewrite insert_take_drop; [|by eapply lookup_lt_Some].
  rewrite -{3}(take_drop_middle ls i l) // !concat_app /= !occ_app. lia.
Qed.

Lemma occ_concat_two ls i j l l' p :
  ls !! i = Some l → ls !! j = Some l' → i ≠ j → p ∈ l → p ∈ l' → 2 ≤ occ (concat ls) p.
Proof.
  intros Hi Hj Hij Hl Hl'. apply occ_pos in Hl, Hl'.
  pose proof (occ_concat_insert ls i l [] p Hi) as E.
  assert (<[i := []]> ls !! j = Some l') as Hj' by by rewrite list_lookup_insert_ne.
  pose proof (occ_concat_le _ _ _ p Hj'). change (occ [] p) with 0 in E. lia.
Qed.

Lemma occ_insert l k x y p :
  l !! k = Some x →
  occ (<[k := y]> l) p =
    occ l p - (if decide (p = x) then 1 else 0) + (if decide (p = y) then 1 else 0).
Proof.
  intros Hk. rewrite insert_take_drop; [|by eapply lookup_lt_Some].
  rewrite -{3}(take_drop_middle l k x) // !occ_app !occ_cons. lia.
Qed.

Lemma occ_two l i j p : l !! i = Some p → l !! j = Some p → i ≠ j → 2 ≤ occ l p.
Proof.
  intros Hi Hj Hij. pose proof (occ_insert l i p (p + 1) p Hi) as E.
  rewrite decide_True // decide_False in E; [|lia].
  assert (p ∈ <[i := p + 1]> l) as Hp%occ_pos; [|lia].
  apply list_elem_of_lookup. exists j. by rewrite list_lookup_insert_ne.
Qed.

Lemma range_pages_length f a n : length (range_pages f a n) = n.
Proof. revert a. induction n as [|n IH]; intros a; simpl; [done|by rewrite IH]. Qed.

Lemma range_pages_lookup f a n k :
  (k < n)%nat → range_pages f a n !! k = Some (PTE2PA (f (a + Z.of_nat k * PGSIZE))).
Proof.
  revert a k. induction n as [|n IH]; intros a k Hk; [lia|]. destruct k as [|k]; simpl.
  - do 2 f_equal. f_equal. lia.
  - rewrite IH; [|lia]. do 3 f_equal. lia.
Qed.

Lemma range_pages_snoc f a n :
  range_pages f a (S n) = range_pages f a n ++ [PTE2PA (f (a + Z.of_nat n * PGSIZE))].
Proof.
  revert a. induction n as [|n IH]; intros a; [simpl; do 2 f_equal; f_equal; lia|].
  simpl. f_equal. etrans; [apply IH|]. do 4 f_equal. lia.
Qed.

Lemma elem_of_range_pages f a n p :
  p ∈ range_pages f a n ↔ ∃ k, (k < n)%nat ∧ p = PTE2PA (f (a + Z.of_nat k * PGSIZE)).
Proof.
  rewrite list_elem_of_lookup. split.
  - intros [k Hk]. pose proof (lookup_lt_Some _ _ _ Hk) as Hlt. rewrite range_pages_length in Hlt.
    exists k. rewrite range_pages_lookup // in Hk. split; [done|congruence].
  - intros (k & Hk & ->). exists k. by apply range_pages_lookup.
Qed.

(** ** Address spaces

    The memory of several processes: each address space has a page table
    and [as_n] pages of user memory from address 0. *)

Record aspace := mk_as { as_root : Z; as_tab : gmap (list Z) Z; as_n : nat }.

Definition upte (s : kst) (a : aspace) (va : Z) : Z := pte_of (mem s) (as_tab a) va.
Definition in_as (a : aspace) (va : Z) : Prop := span 0 (Z.of_nat (as_n a) * PGSIZE) va.
Definition as_pages (s : kst) (a : aspace) : list Z := range_pages (upte s a) 0 (as_n a).
Definition all_pages (s : kst) (ps : list aspace) : list Z := concat (as_pages s <$> ps).

(** An entry that maps a page of user memory. *)
Definition user_pte (v : Z) : Prop := leaf v ∧ canonical v ∧ page_ok (PTE2PA v).

(** User mode reaches no other page, every reference is counted, the tables are disjoint from each other and
    from the user memory and have one reference, and a writable page is mapped once: all other
    sharing is copy-on-write. *)
Record world (s : kst) (fl : list Z) (ps : list aspace) : Prop := {
  wo_inv : kinv s fl;
  wo_locks : unlocked s;
  wo_space : ∀ i a, ps !! i = Some a → space s fl (as_root a) (as_tab a);
  wo_disj : ∀ i j a b π π' p, ps !! i = Some a → ps !! j = Some b → i ≠ j →
    as_tab a !! π = Some p → as_tab b !! π' ≠ Some p;
  wo_size : ∀ i a, ps !! i = Some a → Z.of_nat (as_n a) * PGSIZE ≤ MAXVA;
  wo_map : ∀ i a va, ps !! i = Some a → in_as a va → user_pte (upte s a va);
  wo_out : ∀ i a va, ps !! i = Some a → legal va → ¬ in_as a va → flag (upte s a va) PTE_U = false;
  wo_table : ∀ i a p π, ps !! i = Some a → p ∈ all_pages s ps → as_tab a !! π ≠ Some p;
  wo_ref : ∀ p, p ∈ all_pages s ps → occ (all_pages s ps) p ≤ ref s p;
  wo_cow : ∀ i a va, ps !! i = Some a → in_as a va → flag (upte s a va) PTE_W = true →
    occ (all_pages s ps) (PTE2PA (upte s a va)) = 1;
  wo_tref : ∀ i a π p, ps !! i = Some a → as_tab a !! π = Some p → ref s p = 1;
}.

Lemma world_vm_ok s fl ps i a :
  world s fl ps → ps !! i = Some a → vm_ok s fl (as_root a) (as_tab a).
Proof. intros [] Hi. split; eauto. Qed.

Lemma in_as_legal s fl ps i a va : world s fl ps → ps !! i = Some a → in_as a va → legal va.
Proof.
  intros Hw Hi Hva. pose proof (wo_size _ _ _ Hw _ _ Hi). unfold in_as, span, legal in *. lia.
Qed.

Lemma pte_of_page m T va va' :
  0 ≤ va → 0 ≤ va' → va / PGSIZE = va' / PGSIZE → pte_of m T va = pte_of m T va'.
Proof. intros H0 H1 E. rewrite /pte_of /pte_addr !(PX_page_eq va va') //. Qed.

(** The page a mapped address lies in. *)
Lemma as_pages_lookup s a va :
  in_as a va → as_pages s a !! Z.to_nat (va / PGSIZE) = Some (PTE2PA (upte s a va)).
Proof.
  rewrite /in_as /span. intros Hva. rewrite /as_pages range_pages_lookup; [|dlia].
  do 2 f_equal. apply pte_of_page; dlia.
Qed.

Lemma as_pages_in s ps i a va :
  ps !! i = Some a → in_as a va → PTE2PA (upte s a va) ∈ all_pages s ps.
Proof.
  intros Hi Hva%(as_pages_lookup s). apply list_elem_of_lookup_2 in Hva.
  apply list_elem_of_In, in_concat. exists (as_pages s a).
  rewrite -!list_elem_of_In. split; [|done]. apply list_elem_of_fmap. exists a.
  split; [done|]. by eapply list_elem_of_lookup_2.
Qed.

Lemma all_pages_inv s ps p :
  p ∈ all_pages s ps → ∃ i a va, ps !! i = Some a ∧ in_as a va ∧ va mod PGSIZE = 0 ∧ p = PTE2PA (upte s a va).
Proof.
  intros (l & Hl & Hp)%list_elem_of_In%in_concat. rewrite -!list_elem_of_In in Hl Hp.
  apply list_elem_of_fmap in Hl as (a & -> & [i Ha]%list_elem_of_lookup).
  apply elem_of_range_pages in Hp as (k & Hk & ->).
  exists i, a, (0 + Z.of_nat k * PGSIZE). split_and!; [done| |dlia|done].
  rewrite /in_as /span. lia.
Qed.

(** Mapped pages are allocated. *)
Lemma mapped_page s fl ps p : world s fl ps → p ∈ all_pages s ps → page_ok p ∧ 1 ≤ ref s p ∧ p ∉ fl.
Proof.
  intros Hw Hp. pose proof (occ_pos _ _ Hp). pose proof (wo_ref _ _ _ Hw _ Hp).
  pose proof (all_pages_inv _ _ _ Hp) as (i & a & va & Hi & Hva & _ & ->).
  destruct (wo_map _ _ _ Hw _ _ _ Hi Hva) as (_ & _ & Hok).
  split_and!; [done|lia|]. eapply kinv_not_free; [apply Hw|done|lia].
Qed.

(** A page that is mapped once is reached from one page of one address
    space only. *)
Lemma mapped_once s ps i j a b va va' :
  ps !! i = Some a → ps !! j = Some b → in_as a va → in_as b va' →
  occ (all_pages s ps) (PTE2PA (upte s a va)) = 1 →
  PTE2PA (upte s b va') = PTE2PA (upte s a va) → i = j ∧ va / PGSIZE = va' / PGSIZE.
Proof.
  intros Hi Hj Hva Hvb Hocc Heq.
  pose proof (as_pages_lookup s a va Hva) as Ha. pose proof (as_pages_lookup s b va' Hvb) as Hb.
  assert ((as_pages s <$> ps) !! i = Some (as_pages s a)) as Hi' by by rewrite list_lookup_fmap Hi.
  assert ((as_pages s <$> ps) !! j = Some (as_pages s b)) as Hj' by by rewrite list_lookup_fmap Hj.
  rewrite Heq in Hb. destruct (decide (i = j)) as [->|Hij].
  - replace b with a in * by congruence. split; [done|]. unfold in_as, span in *.
    destruct (decide (Z.to_nat (va / PGSIZE) = Z.to_nat (va' / PGSIZE))) as [E|E]; [dlia|].
    pose proof (occ_two _ _ _ _ Ha Hb E). 
    pose proof (occ_concat_le _ _ _ (PTE2PA (upte s a va)) Hi'). rewrite /all_pages in Hocc. lia.
  - exfalso. apply list_elem_of_lookup_2 in Ha, Hb.
    pose proof (occ_concat_two _ _ _ _ _ _ Hi' Hj' Hij Ha Hb). rewrite /all_pages in Hocc. lia.
Qed.

Lemma upte_ext s s' a : mem_eq_on (table_byte (as_tab a)) (mem s) (mem s') → ∀ va, upte s' a va = upte s a va.
Proof. intros Hm va. by apply pte_of_ext. Qed.

Lemma as_pages_ext s s' a : (∀ va, in_as a va → upte s' a va = upte s a va) → as_pages s' a = as_pages s a.
Proof. intros Hm. apply range_pages_ext. intros k Hk. apply Hm. rewrite /in_as /span. lia. Qed.

(** What a step of one process leaves alone in the others. *)
Definition others_kept (s : kst) (ps : list aspace) (i : nat) (s' : kst) : Prop :=
  ∀ j b, j ≠ i → ps !! j = Some b → mem_eq_on (table_byte (as_tab b)) (mem s) (mem s').

Lemma all_pages_update s ps i a s' a' p :
  ps !! i = Some a → others_kept s ps i s' →
  occ (all_pages s' (<[i := a']> ps)) p =
    occ (all_pages s ps) p - occ (as_pages s a) p + occ (as_pages s' a') p.
Proof.
  intros Hi Hk. rewrite /all_pages -(occ_concat_insert _ i); [|by rewrite list_lookup_fmap Hi].
  f_equal. f_equal. apply list_eq. intros j. rewrite list_lookup_fmap.
  destruct (decide (j = i)) as [->|].
  - pose proof (lookup_lt_Some _ _ _ Hi).
    rewrite !list_lookup_insert_eq //. by rewrite length_fmap.
  - rewrite !list_lookup_insert_ne // list_lookup_fmap. destruct (ps !! j) as [b|] eqn:Hj; [|done].
    simpl. f_equal. apply as_pages_ext. intros va _. apply upte_ext. by eapply Hk.
Qed.

Lemma elem_of_update s ps i a s' a' p :
  ps !! i = Some a → others_kept s ps i s' → p ∈ all_pages s' (<[i := a']> ps) →
  p ∈ as_pages s' a' ∨ (p ∈ all_pages s ps ∧ p ∉ as_pages s' a').
Proof.
  intros Hi Hk Hp%occ_pos. rewrite (all_pages_update s ps i a) // in Hp.
  destruct (decide (p ∈ as_pages s' a')) as [|Hn]; [by left|right]. split; [|done].
  rewrite (occ_not_in (as_pages s' a')) // in Hp.
  destruct (decide (p ∈ all_pages s ps)) as [|Hn']; [done|]. rewrite (occ_not_in _ _ Hn') in Hp.
  pose proof (occ_nonneg (as_pages s a) p). lia.
Qed.

(** Every page of a page table has one reference. *)
Definition tables_once (s : kst) (ps : list aspace) : Prop :=
  ∀ i a π p, ps !! i = Some a → as_tab a !! π = Some p → ref s p = 1.

Lemma world_update s fl ps i a s' fl' a' :
  world s fl ps → ps !! i = Some a → vm_ok s' fl' (as_root a') (as_tab a') →
  others_kept s ps i s' →
  (∀ π q, as_tab a' !! π = Some q → as_tab a !! π = Some q ∨ q ∈ fl) →
  (∀ p, p ∈ fl' → p ∈ fl ∨ p ∈ all_pages s ps) →
  Z.of_nat (as_n a') * PGSIZE ≤ MAXVA →
  (∀ va, in_as a' va → user_pte (upte s' a' va)) →
  (∀ va, legal va → ¬ in_as a' va → flag (upte s' a' va) PTE_U = false) →
  (∀ p, p ∈ as_pages s' a' → (p ∈ all_pages s ps ∨ p ∈ fl) ∧ ∀ π, as_tab a' !! π ≠ Some p) →
  (∀ p, p ∈ all_pages s' (<[i := a']> ps) → occ (all_pages s' (<[i := a']> ps)) p ≤ ref s' p) →
  (∀ va, in_as a' va → flag (upte s' a' va) PTE_W = true →
     occ (all_pages s' (<[i := a']> ps)) (PTE2PA (upte s' a' va)) = 1) →
  (∀ j b va, j ≠ i → ps !! j = Some b → in_as b va → flag (upte s b va) PTE_W = true →
     PTE2PA (upte s b va) ∉ as_pages s' a') →
  tables_once s' (<[i := a']> ps) →
  world s' fl' (<[i := a']> ps).
Proof.
  intros Hw Hi Hok Hk Htab Hfl Hsz Hmap Hout Hpg Href Hcow Hcow' Hone.
  pose proof (lookup_lt_Some _ _ _ Hi) as Hlt.
  assert (∀ j b, (<[i := a']> ps) !! j = Some b → (j = i ∧ b = a') ∨ (j ≠ i ∧ ps !! j = Some b)) as Hlook.
  { intros j b Hj. destruct (decide (j = i)) as [->|]; [|rewrite list_lookup_insert_ne // in Hj; eauto].
    rewrite list_lookup_insert_eq // in Hj. left. split; congruence. }
  assert (∀ j b π q, ps !! j = Some b → as_tab b !! π = Some q → q ∉ fl ∧ q ∉ all_pages s ps) as Hold.
  { intros j b π q Hj Hq. split; [by eapply (sp_free _ _ _ _ (wo_space _ _ _ Hw _ _ Hj))|].
    intros Hin. by eapply (wo_table _ _ _ Hw). }
  assert (∀ π q, as_tab a' !! π = Some q → q ∉ all_pages s ps) as Hnew.
  { intros π q [Hq|Hq]%Htab; [by destruct (Hold _ _ _ _ Hi Hq)|]. intros Hin.
    by destruct (mapped_page _ _ _ _ Hw Hin) as (_ & _ & ?). }
  assert (∀ j b, j ≠ i → ps !! j = Some b → ∀ va, upte s' b va = upte s b va) as Hoth.
  { intros j b Hji Hj va. apply upte_ext. by eapply Hk. }
  split.
  - apply Hok.
  - apply Hok.
  - intros j b [[-> ->]|[Hji Hj]]%Hlook; [apply Hok|]. split.
    + eapply pt_wf_ext; [apply (wo_space _ _ _ Hw _ _ Hj)|by eapply Hk].
    + intros π q Hq [Hin|Hin]%Hfl; by destruct (Hold _ _ _ _ Hj Hq).
  - intros j k b c π π' p Hb Hc Hjk Hp Hp'.
    apply Hlook in Hb as [[-> ->]|[Hji Hb]]; apply Hlook in Hc as [[-> ->]|[Hki Hc]]; [done|..].
    + apply Htab in Hp as [Hp|Hp]; [by eapply (wo_disj _ _ _ Hw i k)|by destruct (Hold _ _ _ _ Hc Hp')].
    + apply Htab in Hp' as [Hp'|Hp']; [by eapply (wo_disj _ _ _ Hw j i)|by destruct (Hold _ _ _ _ Hb Hp)].
    + by eapply (wo_disj _ _ _ Hw j k).
  - intros j b [[-> ->]|[Hji Hj]]%Hlook; [done|by eapply wo_size].
  - intros j b va [[-> ->]|[Hji Hj]]%Hlook Hva; [by apply Hmap|]. rewrite (Hoth j) //. by eapply wo_map.
  - intros j b va [[-> ->]|[Hji Hj]]%Hlook Hva Hn; [by apply Hout|]. rewrite (Hoth j) //. by eapply wo_out.
  - intros j b p π Hj Hin Hp. apply Hlook in Hj.
    destruct (elem_of_update s ps i a s' a' p Hi Hk Hin) as [Hin'|[Hin' _]].
    + apply Hpg in Hin' as [Hin' HT]. destruct Hj as [[-> ->]|[Hji Hj]]; [by eapply HT|].
      destruct (Hold _ _ _ _ Hj Hp). naive_solver.
    + destruct Hj as [[-> ->]|[Hji Hj]]; [by eapply Hnew|by destruct (Hold _ _ _ _ Hj Hp)].
  - done.
  - intros j b va Hj Hva HW. apply Hlook in Hj as [[-> ->]|[Hji Hj]]; [by apply Hcow|].
    rewrite (Hoth j) // in HW |- *. rewrite (all_pages_update s ps i a) //.
    rewrite (occ_not_in (as_pages s' a')); [|by eapply Hcow'].
    rewrite (wo_cow _ _ _ Hw _ _ _ Hj Hva HW) occ_not_in; [lia|].
    intros (k & Hk1 & Hk2)%elem_of_range_pages.
    destruct (mapped_once s ps j i b a va (0 + Z.of_nat k * PGSIZE)) as [? _]; try done.
    + rewrite /in_as /span. lia.
    + by eapply wo_cow.
  - done.
Qed.

#[global] Instance in_as_dec a va : Decision (in_as a va).
Proof. rewrite /in_as /span. apply _. Defined.

(** The byte a process reads at a user address; [None] is a page fault. *)
Definition uread (s : kst) (a : aspace) (va : Z) : option Z :=
  let v := upte s a va in
  if bool_decide (in_as a va) && (flag v PTE_V && flag v PTE_U)
  then Some (ld8 (mem s) (PTE2PA v + va mod PGSIZE)) else None.

Definition ubyte (s : kst) (a : aspace) (va : Z) : Z := PTE2PA (upte s a va) + va mod PGSIZE.

Lemma ubyte_page s a va : in_page (PTE2PA (upte s a va)) (ubyte s a va).
Proof. rewrite /ubyte /span. pose proof (Z.mod_pos_bound va PGSIZE). lia. Qed.

(** Bytes of user memory are outside all tables and free pages. *)
Lemma ubyte_outside s fl ps i a j b va :
  world s fl ps → ps !! i = Some a → ps !! j = Some b → in_as b va →
  ¬ table_byte (as_tab a) (ubyte s b va) ∧ ¬ free_byte fl (ubyte s b va).
Proof.
  intros Hw Hi Hj Hva. pose proof (as_pages_in s ps j b va Hj Hva) as Hin.
  destruct (mapped_page _ _ _ _ Hw Hin) as (Hok & _ & Hfl). pose proof (ubyte_page s b va) as Hb. split.
  - intros (π & q & Hq & Hb'). eapply (wo_table _ _ _ Hw _ _ _ π Hi Hin).
    rewrite (pages_disjoint _ q _ Hok _ Hb Hb') //. eapply pw_ok; [apply (wo_space _ _ _ Hw _ _ Hi)|done].
  - intros (q & Hq & Hb'). apply Hfl. rewrite (pages_disjoint _ q _ Hok _ Hb Hb') //.
    pose proof (ki_ok _ _ (wo_inv _ _ _ Hw)) as Ho. by eapply Forall_forall in Ho.
Qed.

(** Table bytes of another process are outside this table and the free
    pages. *)
Lemma other_table_byte s fl ps i a j b x :
  world s fl ps → ps !! i = Some a → ps !! j = Some b → i ≠ j → table_byte (as_tab b) x →
  ¬ table_byte (as_tab a) x ∧ ¬ free_byte fl x.
Proof.
  intros Hw Hi Hj Hij (π & q & Hq & Hx).
  pose proof (wo_space _ _ _ Hw _ _ Hi) as [Hwa _]. pose proof (wo_space _ _ _ Hw _ _ Hj) as [Hwb Hfb].
  pose proof (pw_ok _ _ _ Hwb _ _ Hq) as Hqo. split.
  - intros (π' & q' & Hq' & Hx'). pose proof (pw_ok _ _ _ Hwa _ _ Hq') as Hqo'.
    rewrite (pages_disjoint q' q x) // in Hq'. by eapply (wo_disj _ _ _ Hw i j).
  - intros (q' & Hq' & Hx'). apply (Hfb _ _ Hq). rewrite (pages_disjoint q q' x) //.
    pose proof (ki_ok _ _ (wo_inv _ _ _ Hw)) as Ho. by eapply Forall_forall in Ho.
Qed.

Lemma grown_others l s fl ps i a s' T' fl' :
  world s fl ps → ps !! i = Some a → grown l s (as_tab a) fl s' T' fl' → others_kept s ps i s'.
Proof.
  intros Hw Hi Hg j b Hji Hj x Hx. apply (gr_mem _ _ _ _ _ _ _ Hg).
  by eapply (other_table_byte s fl ps i a j b).
Qed.

(** Two states in which every process sees the same user memory. *)
Definition same_view (s : kst) (ps : list aspace) (s' : kst) (ps' : list aspace) : Prop :=
  ∀ i a b, ps !! i = Some a → ps' !! i = Some b → ∀ va, uread s' b va = uread s a va.

Lemma uread_ext s a s' a' va :
  as_n a' = as_n a →
  (in_as a va → flag (upte s' a' va) PTE_V = flag (upte s a va) PTE_V ∧
     flag (upte s' a' va) PTE_U = flag (upte s a va) PTE_U ∧
     ld8 (mem s') (ubyte s' a' va) = ld8 (mem s) (ubyte s a va)) →
  uread s' a' va = uread s a va.
Proof.
  intros Hn Hva. assert (in_as a' va = in_as a va) as E by by rewrite /in_as Hn.
  rewrite /uread. destruct (decide (in_as a va)) as [Hin|Hin].
  - rewrite !bool_decide_eq_true_2 //; [|by rewrite E]. destruct (Hva Hin) as (-> & -> & Hb).
    rewrite /ubyte in Hb. by rewrite Hb.
  - by rewrite !bool_decide_eq_false_2 // E.
Qed.

Lemma view_after_growth l s fl ps i a s' a' T' fl' :
  world s fl ps → ps !! i = Some a → grown l s (as_tab a) fl s' T' fl' →
  as_n a' = as_n a →
  (∀ va, in_as a va → flag (upte s' a' va) PTE_V = flag (upte s a va) PTE_V ∧
     flag (upte s' a' va) PTE_U = flag (upte s a va) PTE_U ∧
     PTE2PA (upte s' a' va) = PTE2PA (upte s a va)) →
  same_view s ps s' (<[i := a']> ps).
Proof.
  intros Hw Hi Hg Hn Ha j b b' Hj Hj' va. pose proof (lookup_lt_Some _ _ _ Hi) as Hlt.
  destruct (decide (j = i)) as [->|Hji].
  - rewrite list_lookup_insert_eq // in Hj'. simplify_eq. apply uread_ext; [done|].
    intros Hva. destruct (Ha va Hva) as (H1 & H2 & H3). split_and!; [done..|].
    rewrite {1}/ubyte H3. apply (gr_mem _ _ _ _ _ _ _ Hg). by eapply (ubyte_outside s fl ps i a i a).
  - rewrite list_lookup_insert_ne // in Hj'. assert (b = b') as -> by congruence.
    apply uread_ext; [done|]. intros Hva.
    rewrite /ubyte (upte_ext s s' b'); [|by eapply (grown_others l s fl ps i a s' T' fl' Hw Hi Hg j)]. split_and!; [done..|].
    apply (gr_mem _ _ _ _ _ _ _ Hg). by eapply (ubyte_outside s fl ps i a j b').
Qed.

Lemma gr_ref_same s T fl s' T' p : grown [] s T fl s' T' fl → page_ok p → ref s' p = ref s p.
Proof. intros Hg Hp. rewrite (gr_ref _ _ _ _ _ _ _ Hg) // decide_False //. tauto. Qed.

(** The pages of a table that is in use: in order, not free, with one
    reference, not mapped. *)
Lemma table_page s fl ps i a π p :
  world s fl ps → ps !! i = Some a → as_tab a !! π = Some p → page_ok p ∧ p ∉ fl ∧ ref s p = 1 ∧ p ∉ all_pages s ps.
Proof.
  intros Hw Hi Hp. destruct (wo_space _ _ _ Hw _ _ Hi) as [Hwf Hf]. split_and!; [by eapply pw_ok|by eapply Hf|by eapply wo_tref|].
  intros Hin. by eapply wo_table.
Qed.

Lemma insert_table_ok s fl ps i a s' fl' r T' n j b π q :
  world s fl ps → ps !! i = Some a → vm_ok s' fl' r T' → (<[i := mk_as r T' n]> ps) !! j = Some b → as_tab b !! π = Some q → page_ok q.
Proof.
  intros Hw Hi Hok Hj Hq. destruct (decide (j = i)) as [->|Hji].
  - rewrite list_lookup_insert_eq in Hj; [|by eapply lookup_lt_Some]. injection Hj as <-.
    by eapply (pw_ok _ _ _ (sp_wf _ _ _ _ (vo_space _ _ _ _ Hok))).
  - rewrite list_lookup_insert_ne // in Hj. by destruct (table_page _ _ _ _ _ _ _ Hw Hj Hq).
Qed.

(** A new page of a table has one reference too. *)
Lemma grown_once l s fl ps i a s' T' fl' r n :
  world s fl ps → ps !! i = Some a → grown l s (as_tab a) fl s' T' fl' → tables_once s' (<[i := mk_as r T' n]> ps).
Proof.
  intros Hw Hi Hg j b π q Hj Hq. pose proof (lookup_lt_Some _ _ _ Hi) as Hlt.
  assert ((∃ k c, ps !! k = Some c ∧ as_tab c !! π = Some q) ∨ (q ∈ fl ∧ q ∉ fl')) as [(k & c & Hk & Hc)|Hn].
  { destruct (decide (j = i)) as [->|Hji].
    - rewrite list_lookup_insert_eq // in Hj. injection Hj as <-. simpl in Hq.
      destruct (gr_new _ _ _ _ _ _ _ Hg _ _ Hq) as [H|H]; [left; eauto|by right].
    - rewrite list_lookup_insert_ne // in Hj. left. eauto. }
  - destruct (table_page _ _ _ _ _ _ _ Hw Hk Hc) as (Hok & Hf & H1 & _). rewrite (gr_ref _ _ _ _ _ _ _ Hg) // decide_False //. tauto.
  - destruct Hn as [H1 H2]. rewrite (gr_ref _ _ _ _ _ _ _ Hg); [by rewrite decide_True|].
    pose proof (ki_ok _ _ (wo_inv _ _ _ Hw)) as Ho. rewrite Forall_forall in Ho. by apply Ho.
Qed.

(** Changing the flags of one user page, without making it writable. *)
Lemma world_remap s fl ps i a va w s' :
  world s fl ps → ps !! i = Some a → in_as a va →
  mapped_to s (as_tab a) fl (as_root a)
    (λ va', if decide (va' / PGSIZE = va / PGSIZE) then w else upte s a va') s' (as_tab a) fl →
  user_pte w → PTE2PA w = PTE2PA (upte s a va) → flag w PTE_V = flag (upte s a va) PTE_V →
  flag w PTE_U = flag (upte s a va) PTE_U →
  (flag w PTE_W = true → flag (upte s a va) PTE_W = true) →
  world s' fl ps ∧ same_view s ps s' ps.
Proof.
  intros Hw Hi Hva [Hg Hok Hm] Hwp Hpa HV HU HW.
  assert (∀ va', in_as a va' → upte s' a va' = if decide (va' / PGSIZE = va / PGSIZE) then w else upte s a va') as Hm'.
  { intros va' Hva'. apply Hm. by eapply in_as_legal. }
  assert (∀ va', in_as a va' → va' / PGSIZE = va / PGSIZE → upte s a va = upte s a va') as Hpage.
  { intros va' Hva' E. unfold in_as, span in *. apply pte_of_page; lia. }
  assert (∀ va', in_as a va' → PTE2PA (upte s' a va') = PTE2PA (upte s a va')) as Hpa'.
  { intros va' Hva'. rewrite Hm' //. case_decide; [|done]. by rewrite Hpa (Hpage va'). }
  assert (as_pages s' a = as_pages s a) as Hpg.
  { apply list_eq. intros k. destruct (decide (k < as_n a)%nat) as [Hk|Hk].
    - rewrite /as_pages !range_pages_lookup // Hpa' //. rewrite /in_as /span. lia.
    - rewrite !lookup_ge_None_2 // /as_pages range_pages_length; lia. }
  pose proof (grown_others _ _ _ _ _ _ _ _ _ Hw Hi Hg) as Hk.
  assert (∀ p, occ (all_pages s' (<[i := a]> ps)) p = occ (all_pages s ps) p) as Hocc.
  { intros p. rewrite (all_pages_update s ps i a) // Hpg. lia. }
  rewrite -{1 3}(list_insert_id ps i a) //. split.
  - apply (world_update s fl ps i a); try done; [eauto..| | | | | | | |].
    + by eapply wo_size.
    + intros va' Hva'. rewrite Hm' //. case_decide; [done|]. by eapply wo_map.
    + intros va' Hva' Hn. unfold upte. rewrite Hm // decide_False; [by eapply wo_out|].
      intros E. apply Hn. unfold in_as, span, legal in *. dlia.
    + intros p Hp. rewrite Hpg in Hp. assert (p ∈ all_pages s ps) as Hin.
      { apply elem_of_range_pages in Hp as (k & Hk1 & ->). eapply as_pages_in; [done|].
        rewrite /in_as /span. lia. }
      split; [by left|]. intros π. by eapply wo_table.
    + intros p Hp%occ_pos. rewrite Hocc in Hp |- *. apply occ_in in Hp.
      destruct (mapped_page _ _ _ _ Hw Hp) as [? _]. rewrite (gr_ref_same _ _ _ _ _ _ Hg) //.
      by apply (wo_ref _ _ _ Hw).
    + intros va' Hva' HW'. rewrite Hocc Hpa' //. rewrite Hm' // in HW'.
      case_decide; eapply (wo_cow _ _ _ Hw); try done. rewrite -(Hpage va') //. by apply HW.
    + intros j b va' Hji Hj Hva' HW'. rewrite Hpg. intros (k & Hk1 & Hk2)%elem_of_range_pages.
      destruct (mapped_once s ps j i b a va' (0 + Z.of_nat k * PGSIZE)) as [? _]; try done.
      * rewrite /in_as /span. lia.
      * by eapply wo_cow.
    + destruct a. by eapply grown_once.
  - eapply view_after_growth; [done..|]. intros va' Hva'. rewrite Hpa' // Hm' //.
    case_decide; [|done]. by rewrite HV HU (Hpage va').
Qed.

(** A page user code may write, at once or after a copy. *)
Definition writable (s : kst) (a : aspace) (va : Z) : bool :=
  flag (upte s a va) PTE_U && is_cow (upte s a va).

(** A process sees the same memory in the same pages with the same permission
    to write, and the entries above it are the same. *)
Definition ukept (s : kst) (b : aspace) (s' : kst) (va : Z) : Prop :=
  uread s' b va = uread s b va ∧ (legal va → ¬ in_as b va → upte s' b va = upte s b va) ∧
  (in_as b va → PTE2PA (upte s' b va) = PTE2PA (upte s b va) ∧ writable s' b va = writable s b va).

(** The other processes' view of their memory. *)
Definition view_kept (s : kst) (ps : list aspace) (i : nat) (s' : kst) : Prop :=
  ∀ j b va, j ≠ i → ps !! j = Some b → ukept s b s' va.

Lemma ukept_trans s b s1 s2 va : ukept s b s1 va → ukept s1 b s2 va → ukept s b s2 va.
Proof.
  intros (E1 & H1 & P1) (E2 & H2 & P2). split_and!; [congruence|intros Hl Hn; rewrite H2 //; by apply H1|].
  intros Hva. destruct (P1 Hva), (P2 Hva). split; congruence.
Qed.

Lemma grown_view l s fl ps i a s' T' fl' :
  world s fl ps → ps !! i = Some a → grown l s (as_tab a) fl s' T' fl' → view_kept s ps i s'.
Proof.
  intros Hw Hi Hg j b va Hji Hj. assert (∀ va, upte s' b va = upte s b va) as Hu.
  { apply upte_ext. by eapply (grown_others l s fl ps i a s' T' fl' Hw Hi Hg j). }
  split_and!; [|done|by rewrite /writable Hu]. apply uread_ext; [done|]. intros Hva. rewrite /ubyte Hu. split_and!; [done..|]. apply (gr_mem _ _ _ _ _ _ _ Hg). by eapply (ubyte_outside s fl ps i a j b).
Qed.

(** Mapped pages are not taken by growth. *)
Lemma grown_ref_mapped l s fl ps T s' T' fl' p :
  world s fl ps → grown l s T fl s' T' fl' → p ∈ all_pages s ps → ref s' p = ref s p.
Proof.
  intros Hw Hg Hp. destruct (mapped_page _ _ _ _ Hw Hp) as (Hok & _ & Hfl).
  rewrite (gr_ref _ _ _ _ _ _ _ Hg) // decide_False //. tauto.
Qed.

Lemma as_page_slot s a p : p ∈ as_pages s a → ∃ va, in_as a va ∧ p = PTE2PA (upte s a va).
Proof.
  intros (k & Hk & ->)%elem_of_range_pages. exists (0 + Z.of_nat k * PGSIZE).
  split; [rewrite /in_as /span; lia|done].
Qed.

(** A writable page of another process is not among this one's pages. *)
Lemma writable_elsewhere s fl ps i a j b va :
  world s fl ps → ps !! i = Some a → ps !! j = Some b → j ≠ i → in_as b va →
  flag (upte s b va) PTE_W = true → PTE2PA (upte s b va) ∉ as_pages s a.
Proof.
  intros Hw Hi Hj Hji Hva HW (va' & Hva' & E)%as_page_slot.
  destruct (mapped_once s ps j i b a va va') as [? _]; try done. by eapply wo_cow.
Qed.

Lemma as_pages_table s fl ps i a p π :
  world s fl ps → ps !! i = Some a → p ∈ as_pages s a → p ∈ all_pages s ps ∧ as_tab a !! π ≠ Some p.
Proof.
  intros Hw Hi (va & Hva & ->)%as_page_slot. pose proof (as_pages_in s ps i a va Hi Hva) as Hin.
  split; [done|by eapply wo_table].
Qed.

(** New page-table pages are not mapped pages. *)
Lemma grown_table s fl ps i a s' T' fl' p π :
  world s fl ps → ps !! i = Some a → grown [] s (as_tab a) fl s' T' fl' →
  p ∈ all_pages s ps → T' !! π ≠ Some p.
Proof.
  intros Hw Hi Hg Hin Hπ. destruct (mapped_page _ _ _ _ Hw Hin) as (_ & _ & Hfl).
  apply (gr_new _ _ _ _ _ _ _ Hg) in Hπ as [Hπ|[? _]]; [|done]. by eapply wo_table.
Qed.

(** Growing a table without changing the user's part of the mapping. *)
Lemma world_kmap s fl ps i a f s' T' fl' :
  world s fl ps → ps !! i = Some a → mapped_to s (as_tab a) fl (as_root a) f s' T' fl' →
  (∀ va, in_as a va → f va = upte s a va) → (∀ va, legal va → ¬ in_as a va → flag (f va) PTE_U = false) →
  world s' fl' (<[i := mk_as (as_root a) T' (as_n a)]> ps).
Proof.
  intros Hw Hi [Hg Hok Hm] Hf Hfo. set (a' := mk_as _ _ _).
  pose proof (grown_others _ _ _ _ _ _ _ _ _ Hw Hi Hg) as Hk.
  assert (∀ va, in_as a va → upte s' a' va = upte s a va) as Hm'.
  { intros va Hva. rewrite -Hf //. apply Hm. by eapply in_as_legal. }
  assert (as_pages s' a' = as_pages s a) as Hpg.
  { apply (range_pages_ext (upte s' a')). intros k Hk'. apply Hm'. rewrite /in_as /span. simpl in *. lia. }
  assert (∀ p, occ (all_pages s' (<[i := a']> ps)) p = occ (all_pages s ps) p) as Hocc.
  { intros p. rewrite (all_pages_update s ps i a) // Hpg. lia. }
  apply (world_update s fl ps i a); try done.
  - intros π q Hq. destruct (gr_new _ _ _ _ _ _ _ Hg π q Hq) as [|[? _]]; by auto.
  - intros p Hp. left. destruct (gr_fl _ _ _ _ _ _ _ Hg) as [u ->]. set_solver.
  - by eapply (wo_size _ _ _ Hw i a).
  - intros va Hva. rewrite Hm' //. by eapply wo_map.
  - intros va Hva Hn. unfold upte. rewrite Hm //. by apply Hfo.
  - intros p Hp. rewrite Hpg in Hp. destruct (as_pages_table s fl ps i a p [] Hw Hi Hp) as [Hin _].
    split; [by left|]. intros π. by eapply grown_table.
  - intros p Hp%occ_pos. rewrite Hocc in Hp |- *. apply occ_in in Hp.
    rewrite (grown_ref_mapped [] s fl ps (as_tab a) s' T' fl') //. by apply (wo_ref _ _ _ Hw).
  - intros va Hva HW. rewrite Hocc Hm' //. rewrite Hm' // in HW. by eapply wo_cow.
  - intros j b va Hji Hj Hva HW. rewrite Hpg. by eapply writable_elsewhere.
  - by eapply grown_once.
Qed.

Lemma world_grow s fl ps i a s' T' fl' :
  world s fl ps → ps !! i = Some a →
  mapped_to s (as_tab a) fl (as_root a) (upte s a) s' T' fl' →
  world s' fl' (<[i := mk_as (as_root a) T' (as_n a)]> ps).
Proof. intros Hw Hi Hm. eapply world_kmap; [done|done|exact Hm|done|]. intros va Hva Hn. by eapply wo_out. Qed.

(** Mapping one more page [p]. *)
Lemma share_upte s a p flags s1 T1 :
  Z.of_nat (S (as_n a)) * PGSIZE ≤ MAXVA →
  (∀ va, legal va → pte_of (mem s1) T1 va = map_range (upte s a) (Z.of_nat (as_n a) * PGSIZE) 1 p flags va) →
  let a' := mk_as (as_root a) T1 (S (as_n a)) in
  ∀ va, in_as a' va → upte s1 a' va = if decide (in_as a va) then upte s a va else leaf_pte p flags.
Proof.
  intros Hsz Hm a' va Hva. unfold in_as, span in Hva. simpl in Hva. rewrite /upte /=.
  rewrite Hm; [|unfold legal; lia]. rewrite /map_range /in_as. unfold span.
  repeat case_decide; try lia; try done. f_equal. dlia.
Qed.

Lemma share_pages s a p flags s1 T1 :
  Z.of_nat (S (as_n a)) * PGSIZE ≤ MAXVA →
  (∀ va, legal va → pte_of (mem s1) T1 va = map_range (upte s a) (Z.of_nat (as_n a) * PGSIZE) 1 p flags va) →
  PTE2PA (leaf_pte p flags) = p → as_pages s1 (mk_as (as_root a) T1 (S (as_n a))) = as_pages s a ++ [p].
Proof.
  intros Hsz Hm Hpa. pose proof (share_upte s a p flags s1 T1 Hsz Hm) as Hm'. cbv zeta in Hm'. set (a' := mk_as _ _ _) in *.
  rewrite /as_pages. change (as_n a') with (S (as_n a)). rewrite range_pages_snoc. f_equal.
  - apply range_pages_ext. intros k Hk'. rewrite Hm'; [|rewrite /in_as /span /=; lia].
    rewrite decide_True //. rewrite /in_as /span. lia.
  - f_equal. rewrite Hm'; [|rewrite /in_as /span /=; lia]. rewrite decide_False // /in_as /span. lia.
Qed.

(** Mapping one more page, a page that some process has and none can
    write, and counting the reference. *)
Lemma world_share s fl ps i a p flags s1 T1 fl1 :
  world s fl ps → ps !! i = Some a → Z.of_nat (S (as_n a)) * PGSIZE ≤ MAXVA →
  mapped_to s (as_tab a) fl (as_root a)
    (map_range (upte s a) (Z.of_nat (as_n a) * PGSIZE) 1 p flags) s1 T1 fl1 →
  p ∈ all_pages s ps → user_pte (leaf_pte p flags) → PTE2PA (leaf_pte p flags) = p →
  flag (leaf_pte p flags) PTE_W = false →
  (∀ j b va, ps !! j = Some b → in_as b va → flag (upte s b va) PTE_W = true → PTE2PA (upte s b va) ≠ p) →
  kinv (with_ref p (ref s1 p + 1) s1) fl1 →
  world (with_ref p (ref s1 p + 1) s1) fl1 (<[i := mk_as (as_root a) T1 (S (as_n a))]> ps).
Proof.
  intros Hw Hi Hsz [Hg Hok Hm] Hp Hup Hpa HW0 Hnw Hk1.
  set (s2 := with_ref _ _ s1) in *. set (a' := mk_as _ _ _).
  destruct (mapped_page _ _ _ _ Hw Hp) as (Hpo & _ & _).
  pose proof (grown_others _ _ _ _ _ _ _ _ _ Hw Hi Hg) as Hk.
  assert (∀ va, in_as a' va → upte s2 a' va = if decide (in_as a va) then upte s a va else leaf_pte p flags) as Hm'
    by exact (share_upte s a p flags s1 T1 Hsz Hm).
  assert (as_pages s2 a' = as_pages s a ++ [p]) as Hpg by exact (share_pages s a p flags s1 T1 Hsz Hm Hpa).
  assert (∀ q, occ (all_pages s2 (<[i := a']> ps)) q =
    occ (all_pages s ps) q + if decide (q = p) then 1 else 0) as Hocc.
  { intros q. rewrite (all_pages_update s ps i a) // Hpg occ_app occ_cons. change (occ [] q) with 0. lia. }
  apply (world_update s fl ps i a); try done.
  - split; [done|apply Hok|]. destruct (vo_space _ _ _ _ Hok) as [H1 H2]. by split.
  - intros π q Hq. destruct (gr_new _ _ _ _ _ _ _ Hg π q Hq) as [|[? _]]; by auto.
  - intros q Hq. left. destruct (gr_fl _ _ _ _ _ _ _ Hg) as [u ->]. set_solver.
  - intros va Hva. rewrite Hm' //. case_decide; [by eapply wo_map|done].
  - intros va Hva Hn. change (upte s2 a' va) with (pte_of (mem s1) T1 va). rewrite Hm // /map_range.
    unfold in_as, span, legal in *. simpl in Hn. rewrite decide_False; [|lia].
    eapply wo_out; [done..|unfold in_as, span; lia].
  - intros q Hq. assert (q ∈ all_pages s ps) as Hin.
    { rewrite Hpg in Hq. apply elem_of_app in Hq as [Hq|Hq]; [|set_solver].
      by destruct (as_pages_table s fl ps i a q [] Hw Hi Hq). }
    split; [by left|]. intros π. by eapply grown_table.
  - intros q Hq%occ_pos. rewrite Hocc in Hq |- *. assert (q ∈ all_pages s ps) as Hin.
    { apply occ_in. case_decide; [subst; by apply occ_pos|lia]. }
    destruct (mapped_page _ _ _ _ Hw Hin) as (Hqo & _). rewrite ref_ok_with_ref //.
    pose proof (wo_ref _ _ _ Hw _ Hin).
    rewrite !(grown_ref_mapped [] s fl ps (as_tab a) s1 T1 fl1) //. case_decide; [subst|]; lia.
  - intros va Hva HW. rewrite Hm' // in HW |- *. case_decide as Hin; [|congruence].
    rewrite Hocc decide_False; [|by eapply Hnw]. rewrite Z.add_0_r. by eapply wo_cow.
  - intros j b va Hji Hj Hva HW. rewrite Hpg. intros [Hin|Hin]%elem_of_app.
    + by apply (writable_elsewhere s fl ps i a j b va).
    + apply list_elem_of_singleton in Hin. by eapply Hnw.
  - intros j b π q Hj Hq. pose proof (grown_once [] s fl ps i a s1 T1 fl1 (as_root a) (S (as_n a)) Hw Hi Hg j b π q Hj Hq) as H1.
    pose proof (insert_table_ok _ _ _ _ _ _ _ _ _ _ _ _ _ _ Hw Hi Hok Hj Hq) as Hqo. rewrite ref_ok_with_ref // decide_False //. intros ->.
    destruct (decide (j = i)) as [->|Hji]; [|rewrite list_lookup_insert_ne // in Hj; by eapply wo_table].
    rewrite list_lookup_insert_eq in Hj; [|by eapply lookup_lt_Some]. injection Hj as <-. by eapply grown_table.
Qed.

(** Unmapping all pages of one process. *)
Lemma world_unmap s fl ps i a s' fl' :
  world s fl ps → ps !! i = Some a →
  unmapped_to true s fl (as_root a) (as_tab a) 0 (as_n a) s' fl' →
  world s' fl' (<[i := mk_as (as_root a) (as_tab a) 0]> ps) ∧ view_kept s ps i s'.
Proof.
  intros Hw Hi (Hok & [Hr (new & -> & Hnew) Hm Hh] & Hmap). set (a' := mk_as _ _ _).
  change (range_pages (pte_of (mem s) (as_tab a)) 0 (as_n a)) with (as_pages s a) in Hr, Hnew.
  cbv iota in Hr, Hnew.
  assert (∀ q, q ∈ new ++ fl → q ∈ fl ∨ q ∈ all_pages s ps) as Hfl.
  { intros q [Hq|Hq]%elem_of_app; [|by left]. right.
    by destruct (as_pages_table s fl ps i a q [] Hw Hi (Hnew _ Hq)). }
  assert (others_kept s ps i s') as Hk.
  { intros j b Hji Hj x Hx. apply Hm. destruct (other_table_byte s fl ps i a j b x) as [H1 H2]; try done.
    split; [done|]. intros (q & Hq & Hx'). destruct (Hfl q Hq) as [Hin|Hin]; [apply H2; by exists q|].
    destruct Hx as (π & r & Hr' & Hx). eapply (wo_table _ _ _ Hw j b q π Hj Hin). rewrite Hr'. f_equal.
    pose proof (wo_space _ _ _ Hw _ _ Hj) as [Hwb _]. eapply pages_disjoint; [by eapply pw_ok| |done|done].
    by destruct (mapped_page _ _ _ _ Hw Hin). }
  assert (∀ q, occ (all_pages s' (<[i := a']> ps)) q = occ (all_pages s ps) q - occ (as_pages s a) q) as Hocc.
  { intros q. rewrite (all_pages_update s ps i a) //. change (occ (as_pages s' a') q) with 0. lia. }
  assert (world s' (new ++ fl) (<[i := a']> ps)) as Hw'.
  { apply (world_update s fl ps i a); try done; [eauto|..].
    + intros va Hva. unfold in_as, span in Hva. simpl in Hva. lia.
    + intros va Hva _. unfold upte. simpl. rewrite Hmap // /unmap_range. case_decide; [done|by eapply wo_out].
    + set_solver.
    + intros q Hq%occ_pos. rewrite Hocc in Hq |- *. pose proof (occ_nonneg (as_pages s a) q).
      assert (q ∈ all_pages s ps) as Hin by (apply occ_in; lia).
      destruct (mapped_page _ _ _ _ Hw Hin) as (Hqo & _). rewrite Hr //.
      pose proof (wo_ref _ _ _ Hw _ Hin). lia.
    + intros va Hva. unfold in_as, span in Hva. simpl in Hva. lia.
    + set_solver.
    + intros j b π q Hj Hq. assert (∃ k d, ps !! k = Some d ∧ as_tab d !! π = Some q) as (k & d & Hkd & Hd).
      { destruct (decide (j = i)) as [->|Hji]; [|rewrite list_lookup_insert_ne // in Hj; eauto].
        rewrite list_lookup_insert_eq in Hj; [|by eapply lookup_lt_Some]. injection Hj as <-. eauto. }
      destruct (table_page _ _ _ _ _ _ _ Hw Hkd Hd) as (Hqo & _ & H1 & Hnp). rewrite Hr // occ_not_in; [lia|].
      intros Hin. by destruct (as_pages_table s fl ps i a q [] Hw Hi Hin). }
  split; [done|]. intros j b va Hji Hj. split_and!;
    [|intros _ _; apply upte_ext; by eapply Hk|intros _; rewrite /writable (upte_ext s s' b) //; by eapply Hk].
  apply uread_ext; [done|]. intros Hva. pose proof (lookup_lt_Some _ _ _ Hi).
  destruct (ubyte_outside s' _ _ i a' j b va Hw') as [H1 H2];
    [by rewrite list_lookup_insert_eq|by rewrite list_lookup_insert_ne|done|].
  rewrite /ubyte (upte_ext s s' b) in H1 H2 |- *; [|by eapply Hk]. split_and!; [done..|].
  by apply Hm.
Qed.

(** ** Quiet memory *)

(** Bytes that are neither free, nor user memory, nor a page table; [calm]:
    there are no fewer of them, and they did not change. *)
Definition quiet (s : kst) (fl : list Z) (ps : list aspace) (x : Z) : Prop :=
  ¬ free_byte fl x ∧ ¬ free_byte (all_pages s ps) x ∧
  ∀ i a, ps !! i = Some a → ¬ table_byte (as_tab a) x.

Definition calm_to (s : kst) (fl : list Z) (ps : list aspace) (s' : kst) (fl' : list Z) (ps' : list aspace) : Prop :=
  ∀ x, quiet s fl ps x → quiet s' fl' ps' x ∧ ld8 (mem s') x = ld8 (mem s) x.
Definition calm (s : kst) (fl : list Z) (ps : list aspace) (s' : kst) (fl' : list Z) : Prop := calm_to s fl ps s' fl' ps.

Lemma calm_to_trans s fl ps s1 fl1 ps1 s2 fl2 ps2 :
  calm_to s fl ps s1 fl1 ps1 → calm_to s1 fl1 ps1 s2 fl2 ps2 → calm_to s fl ps s2 fl2 ps2.
Proof. intros H1 H2 x Hx. destruct (H1 x Hx) as [Hq E1]. destruct (H2 x Hq) as [Hq2 E2]. split; [done|congruence]. Qed.

(** Growing the table of one process takes pages from the free list only. *)
Lemma grown_calm l s fl ps i a s' fl' a' :
  ps !! i = Some a → grown l s (as_tab a) fl s' (as_tab a') fl' →
  (∀ p, p ∈ all_pages s' (<[i := a']> ps) → p ∈ all_pages s ps) → calm_to s fl ps s' fl' (<[i := a']> ps).
Proof.
  intros Hi Hg Hpg x (Hf & Hp & Ht). destruct (gr_fl _ _ _ _ _ _ _ Hg) as [u ->]. split; [split_and!|].
  - intros (p & Hin & Hx). apply Hf. exists p. split; [set_solver|done].
  - intros (p & Hin & Hx). apply Hp. exists p. split; [by apply Hpg|done].
  - intros j b Hj (π & q & Hq & Hx). destruct (decide (j = i)) as [->|Hji].
    + rewrite list_lookup_insert_eq in Hj; [|by eapply lookup_lt_Some]. injection Hj as <-.
      destruct (gr_new _ _ _ _ _ _ _ Hg _ _ Hq) as [Hq'|[Hin _]]; [eapply Ht; [exact Hi|by exists π, q]|]. apply Hf. by exists q.
    + rewrite list_lookup_insert_ne // in Hj. eapply Ht; [exact Hj|by exists π, q].
  - apply (gr_mem _ _ _ _ _ _ _ Hg). split; [by eapply Ht|done].
Qed.

(** Unmapping frees pages of the process only. *)
Lemma unmap_calm s fl ps i a s' fl' :
  world s fl ps → ps !! i = Some a → unmapped_to true s fl (as_root a) (as_tab a) 0 (as_n a) s' fl' →
  calm_to s fl ps s' fl' (<[i := mk_as (as_root a) (as_tab a) 0]> ps).
Proof.
  intros Hw Hi Hu. pose proof (world_unmap s fl ps i a s' fl' Hw Hi Hu) as [Hw' _].
  destruct Hu as (Hok & [Hr (new & -> & Hnew) Hm Hh] & Hmap). set (a' := mk_as _ _ _) in *. intros x (Hf & Hp & Ht).
  change (range_pages (pte_of (mem s) (as_tab a)) 0 (as_n a)) with (as_pages s a) in Hnew. cbv iota in Hnew.
  assert (¬ free_byte (new ++ fl) x) as Hf'.
  { intros (p & [Hin|Hin]%elem_of_app & Hx); [|apply Hf; by exists p]. apply Hp. exists p. split; [|done].
    by destruct (as_pages_table s fl ps i a p [] Hw Hi (Hnew _ Hin)). }
  assert (others_kept s ps i s') as Hk.
  { intros j b Hji Hj y Hy. apply Hm. destruct (other_table_byte s fl ps i a j b y) as [H1 H2]; try done.
    split; [done|]. intros (q & [Hq|Hq]%elem_of_app & Hx'); [|apply H2; by exists q].
    destruct (as_pages_table s fl ps i a q [] Hw Hi (Hnew _ Hq)) as [Hin _].
    destruct Hy as (π & r & Hr' & Hy). eapply (wo_table _ _ _ Hw j b q π Hj Hin). rewrite Hr'. f_equal.
    pose proof (wo_space _ _ _ Hw _ _ Hj) as [Hwb _]. eapply pages_disjoint; [by eapply pw_ok| |done|done].
    by destruct (mapped_page _ _ _ _ Hw Hin). }
  split; [split_and!|].
  - done.
  - intros (p & Hin & Hx). apply Hp. exists p. split; [|done].
    by destruct (elem_of_update s ps i a s' a' p Hi Hk Hin) as [Hin'|[Hin' _]]; [apply elem_of_nil in Hin'|].
  - intros j b Hj Hx. destruct (decide (j = i)) as [->|Hji].
    + rewrite list_lookup_insert_eq in Hj; [|by eapply lookup_lt_Some]. injection Hj as <-. by eapply Ht.
    + rewrite list_lookup_insert_ne // in Hj. by eapply Ht.
  - apply Hm. split; [by eapply Ht|done].
Qed.

(** ** [uvmcopy] *)

Lemma canonical_u64 v : canonical v → u64 v = v.
Proof. rewrite /canonical. intros Hv. apply Z.mod_small. lia. Qed.

Lemma user_pte_cow v : user_pte v → user_pte (cow_pte v).
Proof.
  intros ([HV Hf] & Hc & Hp). destruct (cow_pte_ok v Hc) as (Hc' & Hp' & HV' & _).
  split_and!; [split; [congruence|]|done|congruence]. rewrite /cow_pte.
  destruct (flag v PTE_W || flag v PTE_COW); [|done]. intros E.
  apply (f_equal (λ x, Z.testbit x 8)) in E. rewrite PTE_FLAGS_eq in E.
  rewrite (Z.mod_pow2_bits_low _ 10) in E; [|lia]. rewrite Z.lor_spec orb_true_r in E. done.
Qed.

Lemma mapped_to_refl s T fl root f :
  vm_ok s fl root T → (∀ va, legal va → pte_of (mem s) T va = f va) → mapped_to s T fl root f s T fl.
Proof. intros Hok Hf. split; [apply grown_refl|done|done]. Qed.

(** The update of the parent's entry. *)
Lemma wp_make_cow s fl root T va e (Q : unit → kst → Prop) :
  vm_ok s fl root T → legal va → pte_addr T va = Some e → canonical (pte_of (mem s) T va) →
  (∀ s1, mapped_to s T fl root
     (λ va', if decide (va' / PGSIZE = va / PGSIZE) then cow_pte (pte_of (mem s) T va)
             else pte_of (mem s) T va') s1 T fl → Q tt s1) →
  let v := pte_of (mem s) T va in
  wp (if flag v PTE_W || flag v PTE_COW then
        store64 e (Z.land v (Z.lnot PTE_W));;
        v1 ← load64 e;
        store64 e (Z.lor v1 PTE_COW)
      else mret tt) Q s.
Proof.
  intros Hok Hva He Hc HQ v. rewrite /cow_pte in HQ. fold v in HQ, Hc.
  destruct (flag v PTE_W || flag v PTE_COW).
  - destruct (canonical_page v (Z.land v (Z.lnot PTE_W))) as [Hc1 _]; [done|by apply land_lnot_page|].
    destruct (canonical_page _ (Z.lor (Z.land v (Z.lnot PTE_W)) PTE_COW) Hc1) as [Hc2 _];
      [by apply lor_page|].
    apply wp_bind, wp_store64, wp_bind, wp_load64. simpl. rewrite ld64_st64 canonical_u64 //.
    apply wp_store64, HQ.
    pose proof (mapped_to_set s fl root T va e (Z.land v (Z.lnot PTE_W)) Hok Hva He) as Hm1.
    pose proof (mapped_to_set _ fl root T va e (Z.lor (Z.land v (Z.lnot PTE_W)) PTE_COW)
      (mt_ok _ _ _ _ _ _ _ _ Hm1) Hva He) as Hm2.
    eapply mapped_to_trans; [exact Hm1|]. eapply mapped_to_ext; [exact Hm2|].
    intros va' Hva'. simpl. case_decide as E; [by apply canonical_u64|].
    rewrite (mt_map _ _ _ _ _ _ _ _ Hm1) // decide_False //.
  - apply wp_ret, HQ. apply mapped_to_refl; [done|]. intros va' Hva'. case_decide; [|done].
    unfold legal in *. apply pte_of_page; lia.
Qed.

Lemma uvmcopy_loop_S n old new i sz :
  uvmcopy_loop (S n) old new i sz =
    if i <? sz then
      pte ← walk old i false;
      if pte =? 0 then panic "uvmcopy: pte should exist"
      else
        v ← load64 pte;
        if negb (flag v PTE_V) then panic "uvmcopy: page not present"
        else
          (if flag v PTE_W || flag v PTE_COW then
             store64 pte (Z.land v (Z.lnot PTE_W));;
             v1 ← load64 pte;
             store64 pte (Z.lor v1 PTE_COW)
           else mret tt);;
          v' ← load64 pte;
          r ← mappages new i PGSIZE (PTE2PA v) (u32 (PTE_FLAGS v'));
          if negb (r =? 0) then uvmcopy_err new i
          else
            incref (PTE2PA v);;
            uvmcopy_loop n old new (u64 (i + PGSIZE)) sz
    else mret 0.
Proof. done. Qed.

(** ** Accounting *)

(** Between two states the counts changed by the references of one process,
    and the pages that left the free list are in its table. *)
Definition accounted (s : kst) (fl : list Z) (a : aspace) (s' : kst) (fl' : list Z) (a' : aspace) : Prop :=
  as_tab a ⊆ as_tab a' ∧
  (∀ π q, as_tab a' !! π = Some q → as_tab a !! π = Some q ∨ q ∈ fl) ∧
  (∀ p, page_ok p → p ∉ fl → ref s' p = ref s p - occ (as_pages s a) p + occ (as_pages s' a') p) ∧
  (∀ p, p ∈ fl → p ∈ fl' ∨ ∃ π, as_tab a' !! π = Some p).

Lemma accounted_refl s fl a : accounted s fl a s fl a.
Proof. split_and!; [done|by left|lia|by left]. Qed.

Lemma accounted_trans s fl a s1 fl1 a1 s2 fl2 a2 :
  (∀ p, p ∈ fl1 → p ∈ fl) → accounted s fl a s1 fl1 a1 → accounted s1 fl1 a1 s2 fl2 a2 → accounted s fl a s2 fl2 a2.
Proof.
  intros Hfl (Ht1 & Hn1 & Hr1 & Hf1) (Ht2 & Hn2 & Hr2 & Hf2). split_and!; [by etrans|..].
  - intros π q [Hq|Hq]%Hn2; [by apply Hn1|]. right. by apply Hfl.
  - intros p Hp Hn. rewrite Hr2; [|done|naive_solver]. rewrite Hr1 //. lia.
  - intros p [Hp|[π Hp]]%Hf1; [by apply Hf2|]. right. exists π. by eapply lookup_weaken.
Qed.

(** What growth and new references to pages [l] amount to. *)
Lemma grown_accounted s fl a s1 T1 fl1 s' n l :
  grown [] s (as_tab a) fl s1 T1 fl1 → as_pages s' (mk_as (as_root a) T1 n) = as_pages s a ++ l →
  (∀ p, page_ok p → p ∉ fl → ref s' p = ref s1 p + occ l p) →
  accounted s fl a s' fl1 (mk_as (as_root a) T1 n).
Proof.
  intros Hg Hp Hr. split_and!.
  - apply Hg.
  - intros π q Hq. destruct (gr_new _ _ _ _ _ _ _ Hg π q Hq) as [|[? _]]; by auto.
  - intros p Hpo Hn. rewrite Hp Hr // (gr_ref _ _ _ _ _ _ _ Hg) // decide_False; [rewrite occ_app; lia|tauto].
  - intros p Hin. destruct (decide (p ∈ fl1)); [by left|]. right.
    destruct (gr_used _ _ _ _ _ _ _ Hg p) as [?|?]; [done..|set_solver|done].
Qed.

Lemma grow_accounted s fl a s' T' fl' :
  grown [] s (as_tab a) fl s' T' fl' → (∀ va, in_as a va → pte_of (mem s') T' va = upte s a va) →
  accounted s fl a s' fl' (mk_as (as_root a) T' (as_n a)).
Proof.
  intros Hg Hm. apply (grown_accounted s fl a s' T' fl' s' (as_n a) []); [done| |intros p _ _; rewrite /occ /=; lia].
  rewrite app_nil_r. apply (range_pages_ext (upte s' (mk_as (as_root a) T' (as_n a)))). intros j Hj.
  apply Hm. unfold in_as, span. lia.
Qed.

Lemma share_accounted s fl a p flags s1 T1 fl1 :
  Z.of_nat (S (as_n a)) * PGSIZE ≤ MAXVA → page_ok p →
  mapped_to s (as_tab a) fl (as_root a) (map_range (upte s a) (Z.of_nat (as_n a) * PGSIZE) 1 p flags) s1 T1 fl1 →
  PTE2PA (leaf_pte p flags) = p →
  accounted s fl a (with_ref p (ref s1 p + 1) s1) fl1 (mk_as (as_root a) T1 (S (as_n a))).
Proof.
  intros Hsz Hp [Hg Hok Hm] Hpa. eapply (grown_accounted s fl a s1 T1 fl1 _ _ [p]); [done|exact (share_pages s a p flags s1 T1 Hsz Hm Hpa)|].
  intros q Hq _. rewrite ref_ok_with_ref // occ_cons. change (occ [] q) with 0. case_decide; subst; lia.
Qed.

Lemma unmap_accounted s fl a s' fl' :
  unmapped_to true s fl (as_root a) (as_tab a) 0 (as_n a) s' fl' →
  accounted s fl a s' fl' (mk_as (as_root a) (as_tab a) 0).
Proof.
  intros (_ & [Hr (new & -> & _) _ _] & _). split_and!; [done|by left| |set_solver].
  intros p Hp _. rewrite Hr //. change (occ (as_pages s' _) p) with 0.
  change (range_pages (pte_of (mem s) (as_tab a)) 0 (as_n a)) with (as_pages s a). cbv iota. lia.
Qed.

(** The error path: the child's pages are unmapped again. *)
Lemma wp_uvmcopy_err s fl ps i a :
  world s fl ps → ps !! i = Some a →
  wp (uvmcopy_err (as_root a) (Z.of_nat (as_n a) * PGSIZE)) (λ r s', r = -1 ∧ ∃ fl',
    world s' fl' (<[i := mk_as (as_root a) (as_tab a) 0]> ps) ∧ view_kept s ps i s' ∧
    calm_to s fl ps s' fl' (<[i := mk_as (as_root a) (as_tab a) 0]> ps) ∧
    accounted s fl a s' fl' (mk_as (as_root a) (as_tab a) 0) ∧
    ∀ va, legal va → upte s' a va = if decide (in_as a va) then 0 else upte s a va) s.
Proof.
  intros Hw Hi. rewrite /uvmcopy_err Z.div_mul //. apply wp_bind.
  pose proof (wo_size _ _ _ Hw _ _ Hi). pose proof (world_vm_ok _ _ _ _ _ Hw Hi) as Hok.
  eapply wp_mono; [apply (wp_uvmunmap true (as_root a) 0 (as_n a) s fl (as_tab a)); try done; try lia|].
  - intros k Hk. destruct (wo_map _ _ _ Hw i a (0 + k * PGSIZE) Hi) as (? & _ & _); [|done].
    rewrite /in_as /span. lia.
  - intros _ p Hp. change (p ∈ as_pages s a) in Hp.
    destruct (as_pages_table s fl ps i a p [] Hw Hi Hp) as [Hin _].
    destruct (mapped_page _ _ _ _ Hw Hin) as (? & _). split_and!; [done|by intros π; eapply wo_table|].
    etrans; [|by apply (wo_ref _ _ _ Hw)]. apply (occ_concat_le _ i). by rewrite list_lookup_fmap Hi.
  - intros [] s' (fl' & Hu). apply wp_ret. split; [done|]. exists fl'.
    destruct (world_unmap s fl ps i a s' fl' Hw Hi Hu) as [Hw' Hv]. split_and!; [done|done|by eapply unmap_calm|by eapply unmap_accounted|].
    intros va Hva. destruct Hu as (_ & _ & Hm). by rewrite /upte Hm.
Qed.

Lemma view_kept_trans s ps i s1 x s2 :
  view_kept s ps i s1 → view_kept s1 (<[i := x]> ps) i s2 → view_kept s ps i s2.
Proof.
  intros H1 H2 j b va Hji Hj. eapply ukept_trans; [by apply (H1 j)|]. apply (H2 j); [done|]. by rewrite list_lookup_insert_ne.
Qed.

(** A page mapped without write permission somewhere is writable nowhere. *)
Lemma not_writable s fl ps i a va :
  world s fl ps → ps !! i = Some a → in_as a va → flag (upte s a va) PTE_W = false →
  ∀ j b va', ps !! j = Some b → in_as b va' → flag (upte s b va') PTE_W = true →
    PTE2PA (upte s b va') ≠ PTE2PA (upte s a va).
Proof.
  intros Hw Hi Hva HW j b va' Hj Hva' HW' E.
  destruct (mapped_once s ps j i b a va' va) as [-> Hpg]; try done; [by eapply wo_cow|].
  assert (a = b) as -> by congruence. unfold in_as, span, upte in *.
  rewrite (pte_of_page _ _ va' va) in HW'; [congruence|lia..].
Qed.

(** The result of copying pages from the parent to the child, process [ci],
    so that it has [N]: the child shares all of them, or it has none; its other
    entries are as before, and what the other processes see of their memory
    does not change, nor does quiet memory.  A page needs at most two new
    page-table pages. *)
Definition copy_post (s : kst) (fl : list Z) (ps : list aspace) (par : aspace) (ci : nat) (child : aspace) (N : nat)
    (r : Z) (s' : kst) : Prop :=
  ∃ T' fl', view_kept s ps ci s' ∧
    ((r = 0 ∧ let child' := mk_as (as_root child) T' N in
      world s' fl' (<[ci := child']> ps) ∧ calm_to s fl ps s' fl' (<[ci := child']> ps) ∧
      accounted s fl child s' fl' child' ∧ (length fl ≤ length fl' + 2 * (N - as_n child))%nat ∧
      (∀ va, legal va → ¬ in_as child' va → upte s' child' va = upte s child va) ∧
      ∀ va, in_as child' va → upte s' child' va = upte s' par va) ∨
     (r = -1 ∧ let child' := mk_as (as_root child) T' 0 in
      world s' fl' (<[ci := child']> ps) ∧ calm_to s fl ps s' fl' (<[ci := child']> ps) ∧
      accounted s fl child s' fl' child' ∧ (length fl < 2 * (N - as_n child))%nat ∧
      ∀ va, legal va → upte s' child' va = if decide (in_as child va) then 0 else upte s child va)).

Definition room (n : nat) (s : kst) : Prop := ∀ p, page_ok p → ref s p + Z.of_nat n < 2 ^ 32.

Lemma room_grown l n s T fl s' T' fl' :
  grown l s T fl s' T' fl' → room n s → Z.of_nat n < 2 ^ 31 → room n s'.
Proof.
  intros Hg Hr Hn p Hp. rewrite (gr_ref _ _ _ _ _ _ _ Hg) //. specialize (Hr p Hp). case_decide; lia.
Qed.

Lemma grow_pages s fl ps i a f s' T' fl' p :
  world s fl ps → ps !! i = Some a → mapped_to s (as_tab a) fl (as_root a) f s' T' fl' →
  (∀ va, in_as a va → f va = upte s a va) → p ∈ all_pages s' (<[i := mk_as (as_root a) T' (as_n a)]> ps) → p ∈ all_pages s ps.
Proof.
  intros Hw Hi [Hg Hok Hm] Hf Hp. pose proof (grown_others _ _ _ _ _ _ _ _ _ Hw Hi Hg) as Hk.
  destruct (elem_of_update s ps i a s' _ p Hi Hk Hp) as [(va & Hva & ->)%as_page_slot|[? _]]; [|done].
  rewrite /upte /= Hm; [|by eapply (in_as_legal s fl ps i a)]. rewrite Hf //. by eapply (as_pages_in s ps i a).
Qed.

Lemma share_calm s fl ps i a p flags s1 T1 fl1 r :
  world s fl ps → ps !! i = Some a → Z.of_nat (S (as_n a)) * PGSIZE ≤ MAXVA →
  mapped_to s (as_tab a) fl (as_root a) (map_range (upte s a) (Z.of_nat (as_n a) * PGSIZE) 1 p flags) s1 T1 fl1 →
  p ∈ all_pages s ps → PTE2PA (leaf_pte p flags) = p →
  calm_to s fl ps (with_ref p r s1) fl1 (<[i := mk_as (as_root a) T1 (S (as_n a))]> ps).
Proof.
  intros Hw Hi Hsz [Hg Hok Hm] Hp Hpa. pose proof (grown_others _ _ _ _ _ _ _ _ _ Hw Hi Hg) as Hk.
  assert (calm_to s fl ps s1 fl1 (<[i := mk_as (as_root a) T1 (S (as_n a))]> ps)) as Hc; [|exact Hc].
  eapply grown_calm; [done|exact Hg|]. intros q Hq.
  destruct (elem_of_update s ps i a s1 _ q Hi Hk Hq) as [Hin|[? _]]; [|done].
  rewrite (share_pages s a p flags) // in Hin. apply elem_of_app in Hin as [Hin|Hin]; [|set_solver].
  by destruct (as_pages_table s fl ps i a q [] Hw Hi Hin).
Qed.

(** Sharing the next page, once the parent's entry is copy-on-write. *)
Lemma wp_share_page s fl ps pi ci par child n N (k : M kst Z) :
  world s fl ps → ps !! pi = Some par → ps !! ci = Some child → pi ≠ ci →
  let i := Z.of_nat (as_n child) * PGSIZE in
  let w := upte s par i in
  in_as par i → flag w PTE_W = false → upte s child i = 0 → room (S n) s → Z.of_nat (S n) < 2 ^ 31 → i + PGSIZE ≤ MAXVA → (as_n child < N)%nat →
  (∀ s' T' fl',
     let child' := mk_as (as_root child) T' (S (as_n child)) in
     world s' fl' (<[ci := child']> ps) → view_kept s ps ci s' → calm_to s fl ps s' fl' (<[ci := child']> ps) →
     accounted s fl child s' fl' child' → (∀ p, p ∈ fl' → p ∈ fl) → (length fl ≤ length fl' + 2)%nat → room n s' →
     (∀ va, upte s' par va = upte s par va) →
     (∀ va, legal va → upte s' child' va =
        if decide (va / PGSIZE = i / PGSIZE) then w else upte s child va) →
     wp k (copy_post s fl ps par ci child N) s') →
  wp (r ← mappages (as_root child) i PGSIZE (PTE2PA w) (u32 (PTE_FLAGS w));
      if negb (r =? 0) then uvmcopy_err (as_root child) i
      else
        incref (PTE2PA w);; k)
    (copy_post s fl ps par ci child N) s.
Proof.
  intros Hw Hpi Hci Hne i w Hin HW Hz Hroom Hn Hmax HN Hcont.
  destruct (wo_map _ _ _ Hw _ _ _ Hpi Hin) as ([HV Hlf] & Hc & Hpo). fold w in HV, Hlf, Hc, Hpo.
  pose proof (world_vm_ok _ _ _ _ _ Hw Hci) as Hokc.
  pose proof (as_pages_in s ps pi par i Hpi Hin) as Hpin.
  destruct (mapped_page _ _ _ _ Hw Hpin) as (_ & Hr1 & Hpf). fold w in Hpin, Hr1, Hpf.
  pose proof (page_ok_range _ Hpo) as Hrng.
  assert (0 ≤ PTE_FLAGS w < 1024) as Hfl by (rewrite PTE_FLAGS_eq; dlia).
  rewrite (u32_id (PTE_FLAGS w)); [|lia]. pose proof (canonical_leaf w Hc HV) as Hleaf.
  apply wp_bind, (wp_mappages_page _ i _ _ s fl (as_tab child)); try done; try lia.
  { subst i. dlia. }
  { change (pte_of (mem s) (as_tab child) i) with (upte s child i). by rewrite Hz. }
  - intros s1 T1 fl1 Hm Hlen. simpl. pose proof Hm as [Hg Hok1 Hmap].
    pose proof (grown_ref_mapped _ _ _ _ _ _ _ _ _ Hw Hg Hpin) as Href.
    apply wp_bind, (wp_incref s1 fl1); [apply Hok1|apply Hok1|done| |specialize (Hroom _ Hpo); lia|].
    { eapply kinv_not_free; [apply Hok1|done|lia]. }
    intros Hk2. apply (Hcont _ T1 fl1).
    + apply (world_share s fl ps ci child (PTE2PA w) (PTE_FLAGS w)); try done; rewrite ?Hleaf //.
      * lia.
      * by eapply not_writable.
    + exact (grown_view _ _ _ _ _ _ _ _ _ Hw Hci Hg).
    + apply (share_calm s fl ps ci child (PTE2PA w) (PTE_FLAGS w)); try done; [lia|]. by rewrite Hleaf.
    + apply (share_accounted s fl child (PTE2PA w) (PTE_FLAGS w)); try done; [lia|]. by rewrite Hleaf.
    + destruct (gr_fl _ _ _ _ _ _ _ Hg) as [u ->]. set_solver.
    + done.
    + intros p Hp. rewrite ref_ok_with_ref //. case_decide.
      * subst. rewrite Href. specialize (Hroom _ Hpo). lia.
      * pose proof (room_grown _ _ _ _ _ _ _ _ Hg Hroom) as Hr'. specialize (Hr' ltac:(lia) p Hp). lia.
    + intros va. apply (upte_ext s s1 par). by eapply (grown_others [] s fl ps ci child s1).
    + intros va Hva. change (upte (with_ref _ _ s1) _ va) with (pte_of (mem s1) T1 va). rewrite Hmap //.
      rewrite /map_range /span. subst i. repeat case_decide; try done; try dlia.
      etrans; [|exact Hleaf]. f_equal. dlia.
  - intros s1 T1 Hm Hlen. simpl. pose proof Hm as [Hg Hok1 Hmap].
    pose proof (world_grow _ _ _ _ _ _ _ _ Hw Hci Hm) as Hw1.
    eapply wp_mono; [apply (wp_uvmcopy_err s1 [] _ ci (mk_as (as_root child) T1 (as_n child)) Hw1)|].
    { rewrite list_lookup_insert_eq //. by eapply lookup_lt_Some. }
    intros r s2 (-> & fl2 & Hw2 & Hv2 & Hc2 & Ha2 & Hm2). exists T1, fl2. split.
    + eapply view_kept_trans; [by eapply grown_view|exact Hv2].
    + right. split; [done|]. cbv zeta. rewrite list_insert_insert_eq in Hw2 Hc2. split_and!; [done| | |lia|].
      * eapply calm_to_trans; [|exact Hc2]. eapply grown_calm; [done|exact Hg|]. intros p. by apply (grow_pages s fl ps ci child (upte s child) s1 T1 [] p).
      * eapply accounted_trans; [| |exact Ha2]; [set_solver|]. eapply grow_accounted; [exact Hg|].
        intros va Hva. apply Hmap. by apply (in_as_legal s fl ps ci child).
      * intros va Hva. etrans; [by apply Hm2|]. destruct (decide (in_as child va)); [by rewrite decide_True|].
        rewrite decide_False //. by apply Hmap.
Qed.

(** Everything a round needs from the parent's side: its entry becomes
    copy-on-write and nobody notices. *)
Lemma world_make_cow s fl ps i a va s1 :
  world s fl ps → ps !! i = Some a → in_as a va →
  mapped_to s (as_tab a) fl (as_root a)
    (λ va', if decide (va' / PGSIZE = va / PGSIZE) then cow_pte (upte s a va) else upte s a va')
    s1 (as_tab a) fl →
  world s1 fl ps ∧ same_view s ps s1 ps ∧ upte s1 a va = cow_pte (upte s a va) ∧ calm_to s fl ps s1 fl ps ∧
  (∀ j b va', ps !! j = Some b → ukept s b s1 va').
Proof.
  intros Hw Hi Hva Hm. pose proof (wo_map _ _ _ Hw _ _ _ Hi Hva) as Hu.
  destruct (cow_pte_ok (upte s a va)) as (Hc & Hp & HV & HU & HW & Hcow); [apply Hu|].
  destruct (world_remap s fl ps i a va (cow_pte (upte s a va)) s1) as [Hw1 Hv1]; try done.
  - by apply user_pte_cow.
  - by rewrite HW.
  - split_and!; [done..| | |].
    + etrans; [apply (mt_map _ _ _ _ _ _ _ _ Hm); by eapply in_as_legal|]. by rewrite decide_True.
    + destruct Hm as [Hg _ Hm]. pose proof (grown_others _ _ _ _ _ _ _ _ _ Hw Hi Hg) as Hk.
      rewrite -{2}(list_insert_id ps i a) //. eapply grown_calm; [done|exact Hg|]. intros q Hq.
      destruct (elem_of_update s ps i a s1 a q Hi Hk Hq) as [(va' & Hva' & ->)%as_page_slot|[? _]]; [|done].
      rewrite /upte Hm; [|by eapply in_as_legal]. case_decide; [rewrite Hp|]; by eapply (as_pages_in s ps i a).
    + intros j b va' Hj. split; [by apply (Hv1 j b b)|]. destruct (decide (j = i)) as [->|Hji].
      * assert (b = a) as -> by congruence. split.
        2:{ intros Hin. assert (upte s1 a va' = _) as E by (apply (mt_map _ _ _ _ _ _ _ _ Hm); by eapply in_as_legal).
            rewrite /writable E. clear E.
            case_decide; [|done]. assert (upte s a va' = upte s a va) as -> by (unfold upte, in_as, span in *; apply pte_of_page; lia).
            by rewrite Hp HU {1}/is_cow HW Hcow. }
        intros Hl Hn. etrans; [by apply (mt_map _ _ _ _ _ _ _ _ Hm)|]. rewrite decide_False //.
        intros E. apply Hn. unfold in_as, span, legal in *. dlia.
      * apply (grown_view _ _ _ _ _ _ _ _ _ Hw Hi (mt_grown _ _ _ _ _ _ _ _ Hm) j b va'); done.
Qed.

(** One more page: what the rest of the loop does, seen from before it. *)
Lemma copy_post_step s fl ps par ci child N r s1 fl1 T1 w s' :
  let i := Z.of_nat (as_n child) * PGSIZE in
  let child' := mk_as (as_root child) T1 (S (as_n child)) in
  view_kept s ps ci s1 → calm_to s fl ps s1 fl1 (<[ci := child']> ps) →
  accounted s fl child s1 fl1 child' → (∀ p, p ∈ fl1 → p ∈ fl) → (length fl ≤ length fl1 + 2)%nat →
  (∀ va, legal va → upte s1 child' va = if decide (va / PGSIZE = i / PGSIZE) then w else upte s child va) →
  upte s child i = 0 → (as_n child < N)%nat →
  copy_post s1 fl1 (<[ci := child']> ps) par ci child' N r s' → copy_post s fl ps par ci child N r s'.
Proof.
  intros i child' Hv Hc Ha Hfl Hlen Hm Hz HN (T' & fl' & Hv' & Hpost). exists T', fl'. split; [by eapply view_kept_trans|].
  cbv zeta in Hpost. rewrite !list_insert_insert_eq in Hpost.
  destruct Hpost as [(-> & Hw & Hc' & Ha' & Hl' & Ho & He)|(-> & Hw & Hc' & Ha' & Hl' & Ho)]; [left|right]; cbv zeta in *; simpl in *.
  - split_and!; [done|done|by eapply calm_to_trans|by eapply accounted_trans|lia| |done]. intros va Hva Hn. rewrite Ho // Hm // decide_False //.
    intros E. apply Hn. unfold in_as, span, legal in *. simpl. subst i. dlia.
  - split_and!; [done|done|by eapply calm_to_trans|by eapply accounted_trans|lia|]. intros va Hva. rewrite Ho // Hm //.
    unfold in_as, span, legal in *. subst i child'. simpl in *. repeat case_decide; try done; try dlia.
    rewrite /upte in Hz |- *. rewrite (pte_of_page _ _ _ (Z.of_nat (as_n child) * PGSIZE)) //; dlia.
Qed.

(** The same for a step that leaves the child alone. *)
Lemma copy_post_pre s fl ps par ci child N r s1 s' :
  view_kept s ps ci s1 → calm_to s fl ps s1 fl ps → (∀ p, page_ok p → ref s1 p = ref s p) → (∀ va, upte s1 child va = upte s child va) →
  copy_post s1 fl ps par ci child N r s' → copy_post s fl ps par ci child N r s'.
Proof.
  intros Hv Hc Hr Hch (T' & fl' & Hv' & Hpost). exists T', fl'. split.
  { intros j b va Hji Hj. eapply ukept_trans; [by apply (Hv j)|by apply (Hv' j)]. }
  assert (accounted s fl child s1 fl child) as Ha.
  { split_and!; [done|by left| |by left]. intros p Hp _. rewrite Hr // (as_pages_ext s s1 child); [lia|done]. }
  destruct Hpost as [(-> & Hw & Hc' & Ha' & Hl' & Hm & Hs)|(-> & Hw & Hc' & Ha' & Hl' & Hm)]; [left|right]; cbv zeta in *.
  - split_and!; [done|done|by eapply calm_to_trans|by eapply accounted_trans|done| |done]. intros va Hva Hn. by rewrite Hm // Hch.
  - split_and!; [done|done|by eapply calm_to_trans|by eapply accounted_trans|done|]. intros va Hva. by rewrite Hm // Hch.
Qed.

Lemma wp_uvmcopy_loop sz n s fl ps pi ci par child :
  world s fl ps → ps !! pi = Some par → ps !! ci = Some child → pi ≠ ci →
  (as_n child + n ≤ as_n par)%nat → room n s → Z.of_nat n < 2 ^ 31 →
  let i := Z.of_nat (as_n child) * PGSIZE in
  sz ≤ i + Z.of_nat n * PGSIZE → (n ≠ 0%nat → i + (Z.of_nat n - 1) * PGSIZE < sz) →
  (∀ va, span i (Z.of_nat n * PGSIZE) va → upte s child va = 0) →
  (∀ va, in_as child va → upte s child va = upte s par va) →
  wp (uvmcopy_loop (S n) (as_root par) (as_root child) i sz)
    (copy_post s fl ps par ci child (as_n child + n)) s.
Proof.
  revert s fl ps child. induction n as [|n IH];
    intros s fl ps child Hw Hpi Hci Hne Hle Hroom Hn i Hsz Hsz' Hz Heq; rewrite uvmcopy_loop_S.
  { rewrite (_ : i <? sz = false); [|lia]. apply wp_ret. exists (as_tab child), fl.
    split; [done|]. left. rewrite Nat.add_0_r. destruct child as [rc Tc nc].
    cbv zeta. cbn [as_root as_tab as_n]. rewrite list_insert_id //. split_and!; try done; [apply accounted_refl|lia]. }
  rewrite (_ : i <? sz = true); [|lia].
  assert (in_as par i) as Hin by (rewrite /in_as /span; lia).
  pose proof (wo_size _ _ _ Hw _ _ Hpi) as Hpsz.
  pose proof (in_as_legal _ _ _ _ _ _ Hw Hpi Hin) as Hleg.
  destruct (wo_map _ _ _ Hw _ _ _ Hpi Hin) as (Hlf & Hc & Hpo).
  destruct (leaf_addr _ _ _ Hlf) as [e He]. pose proof (world_vm_ok _ _ _ _ _ Hw Hpi) as Hokp.
  apply wp_bind. eapply wp_Ret; [apply walk_noalloc; [apply Hokp|done]|]. rewrite He /=.
  pose proof (pte_addr_nonzero _ _ _ _ _ (sp_wf _ _ _ _ (vo_space _ _ _ _ Hokp)) He).
  destruct (Z.eqb_spec e 0); [done|]. apply wp_bind, wp_load64. rewrite (pte_of_addr _ _ _ _ He).
  destruct Hlf as [HV Hnl]. rewrite HV /=.
  apply wp_bind, (wp_make_cow s fl (as_root par) (as_tab par) i e); [done..|].
  intros s1 Hm. change (pte_of (mem s) (as_tab par) i) with (upte s par i) in *.
  destruct (world_make_cow s fl ps pi par i s1) as (Hw1 & Hv1 & Hw1e & Hc1 & Hk1); [done..|].
  destruct (cow_pte_ok (upte s par i) Hc) as (_ & Hpa & _ & _ & HW & _).
  assert (∀ va, upte s1 child va = upte s child va) as Hch.
  { apply upte_ext. eapply (grown_others [] s fl ps pi par s1); [done|done|apply Hm|done|done]. }
  apply wp_bind, wp_load64. rewrite (pte_of_addr _ _ _ _ He).
  change (pte_of (mem s1) (as_tab par) i) with (upte s1 par i). rewrite -Hpa -Hw1e.
  assert (view_kept s ps ci s1) as Hvk by (intros j b va _ Hj; by apply (Hk1 j)).
  eapply wp_mono; [eapply (wp_share_page s1 fl ps pi ci par child n (as_n child + S n)); try done|].
  - by rewrite Hw1e.
  - rewrite Hch. apply Hz. rewrite /span. lia.
  - eapply room_grown; [apply Hm|done|done].
  - subst i. lia.
  - lia.
  - intros s2 T2 fl2 child' Hw2 Hv2 Hc2 Ha2 Hf2 Hl2 Hroom2 Hpar2 Hchild2. fold i in Hchild2.
    rewrite /u64 Z.mod_small; [|subst i; lia].
    rewrite (_ : i + PGSIZE = Z.of_nat (as_n child') * PGSIZE); [|subst i child'; simpl; lia].
    eapply wp_mono; [apply (IH s2 fl2 (<[ci := child']> ps) child'); try done|].
    + by rewrite list_lookup_insert_ne.
    + rewrite list_lookup_insert_eq //. by eapply lookup_lt_Some.
    + simpl. lia.
    + lia.
    + subst i child'. simpl in *. lia.
    + intros Hn0. subst i child'. simpl in *. lia.
    + intros va Hva. unfold span in Hva. subst child'. simpl in Hva. subst i.
      rewrite Hchild2; [|unfold legal; lia]. rewrite decide_False; [|dlia].
      rewrite Hch. apply Hz. unfold span. lia.
    + intros va Hva. subst child'. unfold in_as, span in Hva. simpl in Hva. subst i.
      rewrite Hchild2; [|unfold legal; lia]. rewrite Hpar2.
      case_decide as E; [apply pte_of_page; lia|].
      rewrite Hch Heq; [|rewrite /in_as /span; dlia].
      etrans; [|symmetry; apply (mt_map _ _ _ _ _ _ _ _ Hm); unfold legal; lia].
      by rewrite decide_False.
    + intros r s3 Hpost.
      rewrite (_ : (as_n child' + n = as_n child + S n)%nat) in Hpost; [|subst child'; simpl; lia].
      eapply copy_post_step; [exact Hv2|exact Hc2|exact Ha2|exact Hf2|exact Hl2| | |lia|exact Hpost]; subst i.
      * intros va Hva. by apply Hchild2.
      * rewrite Hch. apply Hz. rewrite /span. lia.
  - intros r s3. apply copy_post_pre; try done. intros p Hp. by apply (gr_ref_same _ _ _ _ _ _ (mt_grown _ _ _ _ _ _ _ _ Hm)).
Qed.

(** [uvmcopy] into an empty child. *)
Lemma wp_uvmcopy s fl ps pi ci par root T sz :
  world s fl ps → ps !! pi = Some par → ps !! ci = Some (mk_as root T 0) → pi ≠ ci →
  0 ≤ sz ≤ Z.of_nat (as_n par) * PGSIZE →
  let N := Z.to_nat ((sz + PGSIZE - 1) / PGSIZE) in
  room N s → (∀ va, 0 ≤ va < Z.of_nat N * PGSIZE → pte_of (mem s) T va = 0) →
  wp (uvmcopy (as_root par) root sz) (copy_post s fl ps par ci (mk_as root T 0) N) s.
Proof.
  intros Hw Hpi Hci Hne Hsz N Hroom Hz. pose proof (wo_size _ _ _ Hw _ _ Hpi) as Hpsz.
  apply (wp_uvmcopy_loop sz N s fl ps pi ci par (mk_as root T 0)); try done; try (subst N; dlia).
  - simpl. subst N. dlia.
  - intros Hn. simpl. subst N. dlia.
  - intros va Hva. unfold in_as, span in Hva. simpl in Hva. lia.
Qed.

(** The pages of the first [n] pages of a process. *)
Definition first_pages (s : kst) (a : aspace) (n : nat) : list Z := as_pages s (mk_as (as_root a) (as_tab a) n).

(** The result of [uvmcopy] of [N] pages into the empty process [ci].  What the
    other processes see is kept; the child's page table may have grown, by
    pages of the free list, and no free page is lost. *)
Definition uvmcopy_post (s : kst) (fl : list Z) (ps : list aspace) (ci : nat) (par : aspace) (root : Z)
    (T : gmap (list Z) Z) (N : nat) (r : Z) (s' : kst) : Prop :=
  ∃ T' fl', view_kept s ps ci s' ∧ T ⊆ T' ∧ (∀ π q, T' !! π = Some q → T !! π = Some q ∨ q ∈ fl) ∧
    (∀ p, p ∈ fl → p ∈ fl' ∨ ∃ π, T' !! π = Some p) ∧
    ((r = 0 ∧ world s' fl' (<[ci := mk_as root T' N]> ps) ∧
      (∀ p, page_ok p → p ∉ fl → ref s' p = ref s p + occ (first_pages s par N) p) ∧
      ∀ va, in_as (mk_as root T' N) va →
        upte s' (mk_as root T' N) va = upte s' par va ∧ flag (upte s' par va) PTE_W = false ∧
        uread s' (mk_as root T' N) va = uread s par va) ∨
     (r = -1 ∧ (length fl < 2 * N)%nat ∧ world s' fl' (<[ci := mk_as root T' 0]> ps) ∧
      (∀ p, page_ok p → p ∉ fl → ref s' p = ref s p) ∧
      ∀ va, legal va → upte s' (mk_as root T' 0) va = pte_of (mem s) T va)).

(** The child's pages are the parent's. *)
Lemma shared_pages s s' ps pi ci par child :
  view_kept s ps ci s' → ps !! pi = Some par → pi ≠ ci → (as_n child ≤ as_n par)%nat →
  (∀ va, in_as child va → upte s' child va = upte s' par va) → as_pages s' child = first_pages s par (as_n child).
Proof.
  intros Hv Hpi Hne Hn Heq. apply list_eq. intros k. destruct (decide (k < as_n child)%nat) as [Hk|Hk].
  - rewrite /first_pages /as_pages !range_pages_lookup //. f_equal.
    rewrite Heq; [|rewrite /in_as /span; lia]. apply (Hv pi par); [done..|]. rewrite /in_as /span. lia.
  - rewrite !lookup_ge_None_2 // /first_pages /as_pages range_pages_length; simpl; lia.
Qed.

(** A page that two processes map is writable in neither. *)
Lemma shared_not_writable s fl ps i j a b va :
  world s fl ps → ps !! i = Some a → ps !! j = Some b → i ≠ j → in_as a va → in_as b va →
  upte s b va = upte s a va → flag (upte s a va) PTE_W = false.
Proof.
  intros Hw Hi Hj Hij Ha Hb E. destruct (flag (upte s a va) PTE_W) eqn:HW; [|done].
  destruct (mapped_once s ps i j a b va va) as [? _]; try done; [by eapply wo_cow|by rewrite E].
Qed.

(** C5: [fork]'s copy of an address space.  Starting from any set of
    processes whose sharing is copy-on-write, [uvmcopy] into an empty child
    either returns 0 with the child's first [N] pages mapped to the
    parent's physical pages by the same entries, none of them writable, and
    every page with exactly one more reference for each time it was copied;
    or it returns -1 with the child empty again and every reference count as
    before, and that only when fewer than two pages per page to copy are free.
    Either way no other process sees a change in its memory, free pages go
    nowhere but into the child's page table, and the set of processes keeps
    the sharing discipline. *)
Theorem uvmcopy_spec s fl ps pi ci par root T sz :
  world s fl ps → ps !! pi = Some par → ps !! ci = Some (mk_as root T 0) → pi ≠ ci →
  0 ≤ sz ≤ Z.of_nat (as_n par) * PGSIZE →
  let N := Z.to_nat ((sz + PGSIZE - 1) / PGSIZE) in
  room N s → (∀ va, 0 ≤ va < Z.of_nat N * PGSIZE → pte_of (mem s) T va = 0) →
  wp (uvmcopy (as_root par) root sz) (uvmcopy_post s fl ps ci par root T N) s.
Proof.
  intros Hw Hpi Hci Hne Hsz N Hroom Hz. pose proof (wo_size _ _ _ Hw _ _ Hpi) as Hpsz.
  assert (N ≤ as_n par)%nat as HN by (subst N; dlia). pose proof (lookup_lt_Some _ _ _ Hci) as Hlt.
  eapply wp_mono; [by apply (wp_uvmcopy s fl ps pi ci par root T sz)|].
  intros r s' (T' & fl' & Hv & [(-> & Hw' & _ & (A1 & A2 & A3 & A4) & _ & _ & Heq)|(-> & Hw' & _ & (A1 & A2 & A3 & A4) & Hl & Hu)]);
    exists T', fl'; (split_and!; [done..|]); cbn [as_root as_tab as_n] in *; [left|right].
  - assert (∀ va, in_as (mk_as root T' N) va → in_as par va) as Hin by (intros va; rewrite /in_as /span /=; lia).
    split_and!; [done..| |].
    + intros p Hp Hnf. fold N in A3. rewrite A3 // -(shared_pages s s' ps pi ci par (mk_as root T' N)) //.
      change (occ (as_pages s (mk_as root T 0)) p) with 0. simpl. lia.
    + intros va Hva. split_and!; [by apply Heq| |].
      * eapply (shared_not_writable s' _ _ pi ci par (mk_as root T' N)); [exact Hw'|..]; auto.
        -- by rewrite list_lookup_insert_ne.
        -- by rewrite list_lookup_insert_eq.
      * destruct (Hv pi par va) as [<- _]; [done..|]. rewrite /uread Heq // !bool_decide_eq_true_2 //. by apply Hin.
  - split_and!; [done|lia|done| |].
    + intros p Hp Hnf. rewrite A3 //. change (occ (as_pages s _) p) with 0. change (occ (as_pages s' _) p) with 0. lia.
    + intros va Hva. rewrite Hu // decide_False //. rewrite /in_as /span /=. lia.
Qed.

(** ** [CowHandler] *)

(** The count [CowHandler] looks at is that of the page with index
    [*pte >> 12], which is below the memory the allocator manages. *)
Lemma cow_count s fl v :
  kinv s fl → user_pte v → (0 <=? PGINDEX v) && (PGINDEX v <? NPGREF) = true ∧ count s (PGINDEX v) = 0.
Proof.
  intros Hk (_ & [Hv1 Hv2] & Hp). pose proof (page_ok_range _ Hp) as [Hr _].
  rewrite PTE2PA_eq in Hr; [|lia]. rewrite PGINDEX_eq. split.
  - apply andb_true_intro. split; [apply Z.leb_le|apply Z.ltb_lt]; dlia.
  - apply (ki_out _ _ Hk). intros Hok%page_ok_range. dlia.
Qed.

Lemma relock s : REFLOCK ∉ held s → set_held (held (set_held ({[REFLOCK]} ∪ held s) s) ∖ {[REFLOCK]})
  (set_held ({[REFLOCK]} ∪ held s) s) = s.
Proof.
  intros Hl. destruct s as [m f g h]. simpl in *. unfold set_held, held. simpl. f_equal.
  by apply held_restore.
Qed.

(** The entry store of [CowHandler]. *)
Lemma mapped_to_priv s fl root T va e q :
  vm_ok s fl root T → legal va → pte_addr T va = Some e → page_ok q → canonical (pte_of (mem s) T va) →
  let v := pte_of (mem s) T va in
  let w := Z.lor (Z.lor (PA2PTE q) PTE_W) (PTE_FLAGS v) in
  let s1 := set_mem (st64 (mem s) e w) s in
  u64 w = w ∧
  mapped_to s T fl root
    (λ va', if decide (va' / PGSIZE = va / PGSIZE) then priv_pte q v else pte_of (mem s) T va')
    (set_mem (st64 (mem s1) e (Z.land w (Z.lnot PTE_COW))) s1) T fl.
Proof.
  intros Hok Hva He Hq Hc v w s1.
  destruct (priv_pte_ok q v Hq Hc) as (Hcp & _). change (canonical (Z.land w (Z.lnot PTE_COW))) in Hcp.
  destruct (canonical_page _ w Hcp) as [Hcw _]; [by rewrite land_lnot_page|].
  split; [by apply canonical_u64|].
  pose proof (mapped_to_set s fl root T va e w Hok Hva He) as Hm1.
  pose proof (mapped_to_set _ fl root T va e (Z.land w (Z.lnot PTE_COW))
    (mt_ok _ _ _ _ _ _ _ _ Hm1) Hva He) as Hm2.
  eapply mapped_to_trans; [exact Hm1|]. eapply mapped_to_ext; [exact Hm2|].
  intros va' Hva'. simpl. case_decide as E; [by apply canonical_u64|].
  rewrite (mt_map _ _ _ _ _ _ _ _ Hm1) // decide_False //.
Qed.

(** Replacing the page of [va] in process [i] by the private copy [q]. *)
Section private.
Context (s : kst) (q : Z) (fl : list Z) (ps : list aspace) (i : nat) (a : aspace) (va : Z).
Context (m2 : gmap Z Z) (s3 s5 : kst) (fl3 : list Z).
Let T := as_tab a.
Let v := upte s a va.
Let s2 := set_mem m2 (taken q s).
Context (Hw : world s (q :: fl) ps) (Hi : ps !! i = Some a) (Hva : in_as a va).
Context (Hcopy : ∀ x, ld8 m2 x =
  if decide (in_page q x) then ld8 (mem s) (PTE2PA v + (x - q)) else ld8 (mem s) x).
Context (Hd : dropped T [PTE2PA v] s2 fl s3 fl3) (Hs3 : same_map s2 T s3 T).
Context (Hm5 : mapped_to s3 T fl3 (as_root a)
  (λ va', if decide (va' / PGSIZE = va / PGSIZE) then priv_pte q v else pte_of (mem s3) T va') s5 T fl3).

Lemma private_grown : grown [q] s T (q :: fl) s2 T fl ∧ same_map s T s2 T.
Proof.
  destruct (grown_taken s q fl (as_root a) T m2) as (Hg & _ & Hs); [by eapply world_vm_ok| |done].
  intros x Hx. by rewrite Hcopy decide_False.
Qed.

Lemma private_q : page_ok q ∧ q ∉ fl ∧ q ∉ all_pages s ps ∧ ∀ j b π, ps !! j = Some b → as_tab b !! π ≠ Some q.
Proof.
  destruct (kinv_head _ _ _ (wo_inv _ _ _ Hw)) as [Hq Hqf]. split_and!; [done..| |].
  - intros Hin. destruct (mapped_page _ _ _ _ Hw Hin) as (_ & _ & Hn). set_solver.
  - intros j b π Hj Hb. apply (sp_free _ _ _ _ (wo_space _ _ _ Hw _ _ Hj) _ _ Hb). set_solver.
Qed.

Lemma private_upte va' : in_as a va' →
  upte s5 a va' = if decide (va' / PGSIZE = va / PGSIZE) then priv_pte q v else upte s a va'.
Proof.
  intros Hva'. unfold upte. fold T. rewrite (mt_map _ _ _ _ _ _ _ _ Hm5); [|by eapply in_as_legal].
  case_decide; [done|]. rewrite Hs3. apply private_grown.
Qed.

Lemma private_pages : as_pages s5 a = <[Z.to_nat (va / PGSIZE) := q]> (as_pages s a).
Proof.
  pose proof Hva as Hva0. unfold in_as, span in Hva0. destruct private_q as [Hq _].
  assert (canonical v) as Hc by (by eapply wo_map).
  apply list_eq. intros k. destruct (decide (k < as_n a)%nat) as [Hk|Hk].
  - rewrite /as_pages range_pages_lookup // private_upte; [|rewrite /in_as /span; lia].
    case_decide as E.
    + replace k with (Z.to_nat (va / PGSIZE)) by dlia.
      rewrite list_lookup_insert_eq ?range_pages_length; [|dlia].
      by destruct (priv_pte_ok q v Hq Hc) as (_ & -> & _).
    + rewrite list_lookup_insert_ne; [|dlia]. by rewrite range_pages_lookup.
  - rewrite !lookup_ge_None_2 // ?length_insert /as_pages range_pages_length; lia.
Qed.

Lemma private_free r : r ∈ fl3 → r ∈ q :: fl ∨ r ∈ all_pages s ps.
Proof.
  destruct (dr_fl _ _ _ _ _ _ Hd) as (new & -> & Hnew). intros [Hr|Hr]%elem_of_app; [|set_solver].
  apply Hnew, list_elem_of_singleton in Hr as ->. right. by eapply as_pages_in.
Qed.

Lemma private_others : others_kept s ps i s5.
Proof.
  intros j b Hji Hj x Hx.
  destruct (other_table_byte s _ ps i a j b x Hw Hi Hj) as [H1 H2]; [done..|].
  assert (¬ free_byte fl3 x) as H3.
  { intros (r & [Hr|Hin]%private_free & Hxr); [apply H2; by exists r|].
    destruct Hx as (π & r' & Hr' & Hx). eapply (wo_table _ _ _ Hw j b _ π Hj Hin). rewrite Hr'. f_equal.
    pose proof (wo_space _ _ _ Hw _ _ Hj) as [Hwb _].
    eapply pages_disjoint; [by eapply pw_ok| |done|done]. by destruct (mapped_page _ _ _ _ Hw Hin). }
  rewrite (gr_mem _ _ _ _ _ _ _ (mt_grown _ _ _ _ _ _ _ _ Hm5) x) //.
  rewrite (dr_mem _ _ _ _ _ _ Hd x) //=.
  rewrite Hcopy decide_False //. intros Hxq. apply H2. exists q. set_solver.
Qed.

Lemma private_occ p :
  occ (all_pages s5 (<[i := a]> ps)) p =
    occ (all_pages s ps) p - (if decide (p = PTE2PA v) then 1 else 0) + (if decide (p = q) then 1 else 0).
Proof.
  rewrite (all_pages_update s ps i a) //; [|apply private_others].
  rewrite private_pages (occ_insert _ _ (PTE2PA v)); [lia|]. by apply as_pages_lookup.
Qed.

Lemma private_ref p : page_ok p →
  ref s5 p = (if decide (p = q) then 1 else ref s p) - (if decide (p = PTE2PA v) then 1 else 0).
Proof.
  intros Hp. destruct private_grown as [Hg _]. destruct private_q as (_ & Hqf & _).
  rewrite (gr_ref_same _ _ _ _ _ _ (mt_grown _ _ _ _ _ _ _ _ Hm5)) //.
  rewrite (dr_ref _ _ _ _ _ _ Hd) // occ_cons. change (occ [] p) with 0.
  rewrite (gr_ref _ _ _ _ _ _ _ Hg) //. repeat case_decide; set_solver by lia.
Qed.

Lemma private_world : world s5 fl3 ps.
Proof.
  destruct private_q as (Hq & Hqf & Hqp & HqT). pose proof private_others as Hk.
  assert (canonical v) as Hc by (by eapply wo_map).
  destruct (priv_pte_ok q v Hq Hc) as (Hcp & Hpq & HV & _).
  pose proof (as_pages_in s ps i a va Hi Hva) as Hin. fold v in Hin.
  assert (q ≠ PTE2PA v) as Hqv by (by intros ->).
  rewrite -(list_insert_id ps i a) //. apply (world_update s (q :: fl) ps i a); try done.
  - apply Hm5.
  - eauto.
  - apply private_free.
  - by eapply wo_size.
  - intros va' Hva'. rewrite private_upte //. case_decide; [|by eapply wo_map].
    split_and!; [split|done|by rewrite Hpq].
    + rewrite HV. by eapply wo_map.
    + intros E. apply (f_equal (λ x, Z.testbit x 2)) in E. rewrite PTE_FLAGS_eq in E.
      rewrite (Z.mod_pow2_bits_low _ 10) in E; [|lia].
      destruct (priv_pte_ok q v Hq Hc) as (_ & _ & _ & _ & HW & _).
      rewrite (flag_testbit _ 2) // in HW. rewrite HW in E. done.
  - intros va' Hva' Hn. unfold upte. fold T. rewrite (mt_map _ _ _ _ _ _ _ _ Hm5) // decide_False.
    + rewrite Hs3. rewrite (proj2 private_grown va'). by eapply wo_out.
    + intros E. apply Hn. unfold in_as, span, legal in *. dlia.
  - intros p Hp. rewrite private_pages in Hp. apply list_elem_of_lookup in Hp as [k Hk'].
    apply list_lookup_insert_Some in Hk' as [(_ & <- & _)|(_ & Hk')].
    + split; [right; set_solver|]. intros π. by eapply HqT.
    + apply list_elem_of_lookup_2 in Hk'. split; [left|intros π];
        by eapply (as_pages_table s _ ps i a p).
  - intros p Hp%occ_pos. rewrite private_occ in Hp |- *.
    destruct (decide (p = q)) as [->|Hpq'].
    + rewrite private_ref // occ_not_in //. repeat case_decide; first [done|lia].
    + assert (p ∈ all_pages s ps) as Hin' by (apply occ_in; case_decide; lia).
      destruct (mapped_page _ _ _ _ Hw Hin') as (Hpo & _). pose proof (wo_ref _ _ _ Hw _ Hin').
      rewrite private_ref // (decide_False (P:=p = q)) //. lia.
  - intros va' Hva' HW. rewrite private_occ. rewrite private_upte // in HW |- *.
    destruct (decide (va' / PGSIZE = va / PGSIZE)) as [E|E].
    + rewrite Hpq decide_False // decide_True // occ_not_in //.
    + pose proof (wo_cow _ _ _ Hw _ _ _ Hi Hva' HW) as Ho. rewrite Ho decide_False.
      * rewrite decide_False //. intros E'. apply Hqp. rewrite -E'. by eapply as_pages_in.
      * intros E'. by destruct (mapped_once s ps i i a a va' va) as [_ ?].
  - intros j b va' Hji Hj Hva' HW. rewrite private_pages. intros [k Hk']%list_elem_of_lookup.
    apply list_lookup_insert_Some in Hk' as [(_ & E & _)|(_ & Hk')].
    + apply Hqp. rewrite E. by eapply as_pages_in.
    + apply list_elem_of_lookup_2 in Hk'. by apply (writable_elsewhere s (q :: fl) ps i a j b va').
  - rewrite list_insert_id //. intros j b π r Hj Hr. destruct (table_page _ _ _ _ _ _ _ Hw Hj Hr) as (Hro & _ & H1 & Hnp).
    rewrite private_ref // !decide_False; [lia| |].
    + intros ->. by apply Hnp.
    + intros ->. by eapply HqT.
Qed.

Lemma private_calm : calm s (q :: fl) ps s5 fl3.
Proof.
  intros x (Hf & Hp & Ht). assert (¬ free_byte fl3 x) as Hf3.
  { intros (r & [Hr|Hr]%private_free & Hx); [apply Hf|apply Hp]; by exists r. }
  split; [split_and!; [done| |done]|].
  - intros (r & Hr & Hx). assert (r = q ∨ r ∈ all_pages s ps) as [->|Hr'].
    { apply occ_pos in Hr. rewrite -(list_insert_id ps i a) // private_occ in Hr.
      destruct (decide (r = q)); [by left|right]. apply occ_in. case_decide; lia. }
    + apply Hf. exists q. set_solver.
    + apply Hp. by exists r.
  - rewrite (gr_mem _ _ _ _ _ _ _ (mt_grown _ _ _ _ _ _ _ _ Hm5) x); [|split; [by eapply Ht|done]].
    rewrite (dr_mem _ _ _ _ _ _ Hd x) /=; [|split; [by eapply Ht|done]].
    rewrite Hcopy decide_False //. intros Hxq. apply Hf. exists q. set_solver.
Qed.

Lemma private_view : same_view s ps s5 ps.
Proof.
  pose proof private_world as Hw5. destruct private_q as (Hq & Hqf & Hqp & HqT).
  assert (canonical v) as Hc by (by eapply wo_map).
  destruct (priv_pte_ok q v Hq Hc) as (Hcp & Hpq & HV & HU & _).
  intros j b b' Hj Hj' va'. assert (b' = b) as -> by congruence. clear Hj'.
  apply uread_ext; [done|]. intros Hva'.
  destruct (ubyte_outside s5 fl3 ps i a j b va' Hw5 Hi Hj Hva') as [H1 H2].
  rewrite (gr_mem _ _ _ _ _ _ _ (mt_grown _ _ _ _ _ _ _ _ Hm5) (ubyte s5 b va')) //.
  rewrite (dr_mem _ _ _ _ _ _ Hd (ubyte s5 b va')) //=. rewrite Hcopy.
  assert (¬ in_page q (ubyte s b va')) as Hnq.
  { intros Hx. destruct (ubyte_outside s _ ps i a j b va' Hw Hi Hj Hva') as [_ Hf].
    apply Hf. exists q. set_solver. }
  destruct (decide (j = i)) as [->|Hji].
  - assert (b = a) as -> by congruence. 
    pose proof (private_upte va' Hva') as Hu. assert (ubyte s5 a va' = PTE2PA (upte s5 a va') + va' mod PGSIZE) as -> by done.
    rewrite Hu. clear Hu. rewrite /ubyte in Hnq. pose proof (Z.mod_pos_bound va' PGSIZE). case_decide as E.
    + assert (v = upte s a va') as Ev by (unfold in_as, span in *; apply pte_of_page; lia).
      rewrite HV HU Hpq decide_True; [|unfold span; lia]. rewrite -Ev. split_and!; [done..|].
      rewrite /ubyte -Ev. f_equal. lia.
    + split_and!; [done..|]. by rewrite decide_False.
  - rewrite /ubyte (upte_ext s s5 b); [|by eapply private_others]. split_and!; [done..|].
    by rewrite decide_False.
Qed.
End private.

(** The bytes of the copied page. *)
Lemma copied_bytes s q fl ps i a va x :
  world s (q :: fl) ps → ps !! i = Some a → in_as a va →
  ld8 (memmove (mem (taken q s)) q (PTE2PA (upte s a va)) PGSIZE) x =
    if decide (in_page q x) then ld8 (mem s) (PTE2PA (upte s a va) + (x - q)) else ld8 (mem s) x.
Proof.
  intros Hw Hi Hva. assert (∀ x, ¬ in_page q x → ld8 (mem (taken q s)) x = ld8 (mem s) x) as Htx.
  { intros y Hy. simpl. by rewrite ld8_memset_page decide_False. }
  rewrite ld8_memmove //. case_decide; [|by apply Htx]. apply Htx. intros Hx.
  destruct (ubyte_outside s _ ps i a i a (va / PGSIZE * PGSIZE + (x - q)) Hw Hi Hi) as [_ Hf].
  - unfold in_as, span in *. dlia.
  - apply Hf. exists q. split; [set_solver|]. unfold ubyte.
    rewrite (_ : upte s a (_ + _) = upte s a va).
    + rewrite (_ : (va / PGSIZE * PGSIZE + (x - q)) mod PGSIZE = x - q); [done|unfold span in *; dlia].
    + unfold in_as, span in *. apply pte_of_page; dlia.
Qed.

Definition perms_kept (s : kst) (ps : list aspace) (s' : kst) : Prop :=
  ∀ j b va, ps !! j = Some b → in_as b va → writable s' b va = writable s b va.

(** What breaking the sharing of a page of process [i] costs: one page, and no
    other process gains or loses a writable page. *)
Definition one_page (s : kst) (fl : list Z) (ps : list aspace) (i : nat) (s' : kst) (fl' : list Z) : Prop :=
  (length fl ≤ S (length fl'))%nat ∧
  ∀ j b va, ps !! j = Some b → j ≠ i → flag (upte s' b va) PTE_W = flag (upte s b va) PTE_W.

Definition made_writable (s : kst) (a : aspace) (va : Z) (s' : kst) : Prop :=
  ∀ va', in_as a va' → flag (upte s' a va') PTE_W =
    if decide (va' / PGSIZE = va / PGSIZE) then true else flag (upte s a va') PTE_W.

(** The second half of [CowHandler], from the newly allocated page [q]. *)
Lemma wp_cow_copy s q fl ps i a va e (Q : Z → kst → Prop) :
  world s (q :: fl) ps → ps !! i = Some a → in_as a va → pte_addr (as_tab a) va = Some e →
  is_cow (upte s a va) = true →
  (∀ s' fl', world s' fl' ps → same_view s ps s' ps → made_writable s a va s' →
     perms_kept s ps s' → calm s (q :: fl) ps s' fl' → one_page s (q :: fl) ps i s' fl' → Q 0 s') →
  wp (v ← load64 e;
      let pa := PTE2PA v in
      kmemmove q pa PGSIZE;;
      kfree pa;;
      v ← load64 e;
      store64 e (Z.lor (Z.lor (PA2PTE q) PTE_W) (PTE_FLAGS v));;
      v ← load64 e;
      store64 e (Z.land v (Z.lnot PTE_COW));;
      mret 0) Q (taken q s).
Proof.
  intros Hw Hi Hva He Hcow HQ. pose proof (wo_map _ _ _ Hw _ _ _ Hi Hva) as (Hlf & Hc & Hpo).
  pose proof (world_vm_ok _ _ _ _ _ Hw Hi) as Hok. pose proof (in_as_legal _ _ _ _ _ _ Hw Hi Hva) as Hleg.
  assert (∀ m, ld64 m e = pte_of m (as_tab a) va) as Hld by (intros m; by apply pte_of_addr).
  destruct (kinv_head _ _ _ (wo_inv _ _ _ Hw)) as [Hq _].
  apply wp_bind, wp_load64. rewrite Hld.
  rewrite (_ : pte_of (mem (taken q s)) (as_tab a) va = upte s a va); last first.
  { destruct (grown_taken s q fl (as_root a) (as_tab a) (mem (taken q s)) Hok) as (_ & _ & Hs); [|apply Hs].
    intros x Hx. simpl. by rewrite ld8_memset_page decide_False. }
  apply wp_bind, wp_kmemmove. pose proof (copied_bytes s q fl ps i a va) as Hcopy.
  set (m2 := memmove _ _ _ _) in *. set (v := upte s a va) in *.
  destruct (grown_taken s q fl (as_root a) (as_tab a) m2 Hok) as (Hg2 & Hok2 & Hs2).
  { intros x Hx. rewrite Hcopy // decide_False //. }
  pose proof (as_pages_in s ps i a va Hi Hva) as Hin.
  destruct (mapped_page _ _ _ _ Hw Hin) as (_ & Hr1 & Hpf).
  apply wp_bind, (wp_kfree_vm (PTE2PA v) _ fl (as_root a) (as_tab a)); [done|done| | |].
  { by rewrite (grown_ref_mapped _ _ _ _ _ _ _ _ _ Hw Hg2 Hin). }
  { intros π. by eapply wo_table. }
  intros s3 fl3 Hok3 Hd3 Hs3. apply wp_bind, wp_load64. rewrite Hld Hs3 Hs2.
  apply wp_bind, wp_store64, wp_bind, wp_load64. simpl. rewrite ld64_st64.
  assert (pte_of (mem s3) (as_tab a) va = v) as Hv3 by by rewrite Hs3 Hs2.
  destruct (mapped_to_priv s3 fl3 (as_root a) (as_tab a) va e q) as [Hu Hm5]; [done..|by rewrite Hv3|].
  rewrite Hv3 in Hu Hm5. change (pte_of (mem s) (as_tab a) va) with v. rewrite Hu.
  apply wp_bind, wp_store64, wp_ret.
  pose proof (λ x, Hcopy x Hw Hi Hva) as Hcopy'.
  pose proof (private_world s q fl ps i a va m2 s3 _ fl3 Hw Hi Hva Hcopy' Hd3 Hs3 Hm5).
  apply (HQ _ fl3); [done|..].
  - exact (private_view s q fl ps i a va m2 s3 _ fl3 Hw Hi Hva Hcopy' Hd3 Hs3 Hm5).
  - intros va' Hva'. rewrite (private_upte s q fl ps i a va m2 s3 _ fl3 Hw Hi Hcopy' Hs3 Hm5) //.
    case_decide; [|done]. by destruct (priv_pte_ok q v Hq Hc) as (_ & _ & _ & _ & HW & _).
  - intros j b va' Hj Hva'. unfold writable. destruct (decide (j = i)) as [->|Hji].
    + assert (b = a) as -> by congruence.
      rewrite (private_upte s q fl ps i a va m2 s3 _ fl3 Hw Hi Hcopy' Hs3 Hm5) //. case_decide as E; [|done].
      assert (upte s a va' = v) as -> by (unfold in_as, span in *; apply pte_of_page; lia).
      destruct (priv_pte_ok q v Hq Hc) as (_ & _ & _ & HU & HW & _). by rewrite HU Hcow /is_cow HW.
    + rewrite (upte_ext s) //. by eapply (private_others s q fl ps i a va m2 s3 _ fl3 Hw Hi Hva Hcopy' Hd3 Hs3 Hm5).
  - exact (private_calm s q fl ps i a va m2 s3 _ fl3 Hw Hi Hva Hcopy' Hd3 Hs3 Hm5).
  - split; [destruct (dr_fl _ _ _ _ _ _ Hd3) as (new & -> & _); rewrite length_app /=; lia|].
    intros j b va' Hj Hji. rewrite (upte_ext s) //.
    by eapply (private_others s q fl ps i a va m2 s3 _ fl3 Hw Hi Hva Hcopy' Hd3 Hs3 Hm5).
Qed.

(** The first half of [CowHandler] on a copy-on-write page always gets to
    the allocation. *)
Lemma CowHandler_alloc s fl ps i a va e :
  world s fl ps → ps !! i = Some a → in_as a va → pte_addr (as_tab a) va = Some e →
  flag (upte s a va) PTE_U = true → flag (upte s a va) PTE_COW = true →
  CowHandler (as_root a) va s =
    (mem ← kalloc;
     if mem =? 0 then mret (-2)
     else
       v ← load64 e;
       let pa := PTE2PA v in
       kmemmove mem pa PGSIZE;;
       kfree pa;;
       v ← load64 e;
       store64 e (Z.lor (Z.lor (PA2PTE mem) PTE_W) (PTE_FLAGS v));;
       v ← load64 e;
       store64 e (Z.land v (Z.lnot PTE_COW));;
       mret 0) s.
Proof.
  intros Hw Hi Hva He HU HC. pose proof (wo_map _ _ _ Hw _ _ _ Hi Hva) as Hu.
  pose proof (world_vm_ok _ _ _ _ _ Hw Hi) as Hok. pose proof (in_as_legal _ _ _ _ _ _ Hw Hi Hva) as Hleg.
  destruct (wo_locks _ _ _ Hw) as [_ Hrl].
  pose proof (pte_addr_nonzero _ _ _ _ _ (sp_wf _ _ _ _ (vo_space _ _ _ _ Hok)) He) as Hnz.
  destruct (cow_count s fl (upte s a va) (wo_inv _ _ _ Hw) Hu) as [Hidx Hcnt].
  rewrite /CowHandler {1}/mbind {1}/M_bind (walk_noalloc _ (as_tab a)) //; [|apply Hok].
  rewrite He /= (proj2 (Z.eqb_neq e 0) Hnz).
  rewrite {1}/mbind {1}/M_bind {1}/load64 {1}/gets (pte_of_addr _ _ _ _ He).
  change (pte_of (mem s) (as_tab a) va) with (upte s a va). rewrite (proj1 (proj1 Hu)) HU HC /=.
  rewrite {1}/mbind {1}/M_bind acquire_eq //.
  rewrite {1}/mbind {1}/M_bind {1}/load64 {1}/gets (pte_of_addr _ _ _ _ He).
  change (pte_of _ (as_tab a) va) with (upte s a va).
  rewrite {1}/mbind {1}/M_bind /pgref_get Hidx {1}/gets.
  change (count _ (PGINDEX _)) with (count s (PGINDEX (upte s a va))). rewrite Hcnt /=.
  rewrite {1}/mbind {1}/M_bind release_eq; [by rewrite relock|rewrite /held /=; set_solver].
Qed.

Lemma wp_CowHandler s fl ps i a va (Q : Z → kst → Prop) :
  world s fl ps → ps !! i = Some a → in_as a va →
  flag (upte s a va) PTE_U = true → flag (upte s a va) PTE_COW = true →
  (∀ s' fl', world s' fl' ps → same_view s ps s' ps → made_writable s a va s' →
     perms_kept s ps s' → calm s fl ps s' fl' → one_page s fl ps i s' fl' → Q 0 s') →
  (fl = [] → Q (-2) s) →
  wp (CowHandler (as_root a) va) Q s.
Proof.
  intros Hw Hi Hva HU HC HQ Hoom. pose proof (wo_map _ _ _ Hw _ _ _ Hi Hva) as (Hlf & _).
  destruct (leaf_addr _ _ _ Hlf) as [e He].
  rewrite {1}/wp (CowHandler_alloc s fl ps i a va e) //.
  apply wp_bind, (wp_kalloc s fl); [apply Hw|apply Hw| |by intros ->; apply wp_ret, Hoom].
  intros q fl' -> _. destruct (kinv_head _ _ _ (wo_inv _ _ _ Hw)) as [Hq _].
  pose proof (page_ok_range q Hq). rewrite (_ : q =? 0 = false); [|lia].
  eapply wp_cow_copy; [done..|by rewrite /is_cow HC orb_true_r|done].
Qed.

Lemma CowHandler_not_cow s fl ps i a va :
  world s fl ps → ps !! i = Some a → in_as a va →
  flag (upte s a va) PTE_U && flag (upte s a va) PTE_COW = false →
  CowHandler (as_root a) va s = Ret (-1, s).
Proof.
  intros Hw Hi Hva E. pose proof (world_vm_ok _ _ _ _ _ Hw Hi) as Hok.
  destruct (wo_map _ _ _ Hw _ _ _ Hi Hva) as (Hlf & _). destruct (leaf_addr _ _ _ Hlf) as [e He].
  pose proof (pte_addr_nonzero _ _ _ _ _ (sp_wf _ _ _ _ (vo_space _ _ _ _ Hok)) He) as Hnz.
  rewrite /CowHandler {1}/mbind {1}/M_bind (walk_noalloc _ (as_tab a));
    [|apply Hok|by eapply in_as_legal].
  rewrite He /= (proj2 (Z.eqb_neq e 0) Hnz).
  rewrite {1}/mbind {1}/M_bind {1}/load64 {1}/gets (pte_of_addr _ _ _ _ He).
  change (pte_of (mem s) (as_tab a) va) with (upte s a va).
  by rewrite (proj1 Hlf) /= -negb_andb E.
Qed.

(** C24: on a mapped user page, [CowHandler] refuses a page that is not
    copy-on-write and changes nothing; on a copy-on-write page it returns 0
    with that page writable for this process, no process seeing a change in
    its memory and all sharing still copy-on-write, or it returns -2,
    changing nothing, when no page is free. *)
Theorem CowHandler_spec s fl ps i a va :
  world s fl ps → ps !! i = Some a → in_as a va →
  wp (CowHandler (as_root a) va) (λ r s',
    if flag (upte s a va) PTE_U && flag (upte s a va) PTE_COW then
      (r = 0 ∧ ∃ fl', world s' fl' ps ∧ same_view s ps s' ps ∧ made_writable s a va s') ∨
      (r = -2 ∧ s' = s ∧ fl = [])
    else r = -1 ∧ s' = s) s.
Proof.
  intros Hw Hi Hva. destruct (flag (upte s a va) PTE_U && flag (upte s a va) PTE_COW) eqn:E.
  - apply andb_true_iff in E as [HU HC]. eapply wp_CowHandler; [done..| |].
    + intros s' fl' ??????. left. eauto.
    + by right.
  - by eapply wp_Ret; [eapply CowHandler_not_cow|].
Qed.

(** C38: the test for a single reference in [CowHandler] reads the count at
    [*pte >> 12], which is not the page's: even the only owner of a
    copy-on-write page gets -2 when no page is free. *)
Theorem CowHandler_sole_owner_fails s ps i a va :
  world s [] ps → ps !! i = Some a → in_as a va →
  flag (upte s a va) PTE_U = true → flag (upte s a va) PTE_COW = true →
  ref s (PTE2PA (upte s a va)) = 1 →
  CowHandler (as_root a) va s = Ret (-2, s).
Proof.
  intros Hw Hi Hva HU HC _.
  destruct (wo_map _ _ _ Hw _ _ _ Hi Hva) as (Hlf & _). destruct (leaf_addr _ _ _ Hlf) as [e He].
  rewrite (CowHandler_alloc s [] ps i a va e) // /mbind /M_bind kalloc_empty_eq //; [apply Hw|].
  apply (ki_chain _ _ (wo_inv _ _ _ Hw)).
Qed.

(** C39: a user store fault at an address of [MAXVA] or above makes
    [CowHandler] panic in [walk], whatever the state. *)
Theorem CowHandler_maxva_panics pagetable va s :
  MAXVA ≤ va → CowHandler pagetable va s = Panic "walk".
Proof.
  intros Hva. rewrite /CowHandler /walk /mbind /M_bind. by destruct (Z.leb_spec MAXVA va); [|lia].
Qed.
End cow.
