(* ===== verification/Usermem.v ===== *)
(** * User memory through copy-on-write pages (kernel/vm.c, kernel/trap.c)

    Stores by user code, with the page fault and the retry that [usertrap]
    gives them, and the theorems about [copyout] and [copyin], whose
    definitions are in the file Cow: each process has a private memory, as if
    [fork] had copied it. *)

From S2P Require Import Prelude Mem Cstring Riscv Spinlock Kalloc Vm Uvm Cow.

Local Open Scope Z_scope.

Section usermem.
Context {KI : KernelImage}.



(** ** Writing user memory *)

Lemma world_set_mem s fl ps m :
  world s fl ps → (∀ i a, ps !! i = Some a → mem_eq_on (table_byte (as_tab a)) (mem s) m) →
  mem_eq_on (free_byte fl) (mem s) m → world (set_mem m s) fl ps.
Proof.
  intros Hw Ht Hf. set (s' := set_mem m s).
  assert (∀ i a, ps !! i = Some a → ∀ va, upte s' a va = upte s a va) as Hu.
  { intros i a Hi. apply upte_ext. by eapply Ht. }
  assert (all_pages s' ps = all_pages s ps) as Hp.
  { rewrite /all_pages. f_equal. apply list_fmap_ext. intros i a Hi. apply as_pages_ext.
    intros va _. by eapply Hu. }
  split; try apply Hw.
  - apply kinv_set_mem; [apply Hw|done].
  - intros i a Hi. destruct (wo_space _ _ _ Hw _ _ Hi) as [H1 H2]. split; [|done].
    eapply pt_wf_ext; [done|by eapply Ht].
  - intros i a va Hi Hva. rewrite (Hu i) //. by eapply wo_map.
  - intros i a va Hi Hva Hn. rewrite (Hu i) //. by eapply wo_out.
  - rewrite Hp. apply Hw.
  - rewrite Hp. apply Hw.
  - intros i a va Hi Hva HW. rewrite (Hu i) // in HW |- *. rewrite Hp. by eapply wo_cow.
Qed.

Lemma world_set_data s fl ps m P :
  world s fl ps →
  (∀ x, P x → ∃ i a va, ps !! i = Some a ∧ in_as a va ∧ x = ubyte s a va) →
  mem_eq_on (λ x, ¬ P x) (mem s) m → world (set_mem m s) fl ps.
Proof.
  intros Hw HP Hm. apply world_set_mem; [done|..].
  - intros j b Hj x Hx. apply Hm. intros (i & a & va & Hi & Hva & ->)%HP.
    by destruct (ubyte_outside s fl ps j b i a va Hw Hj Hi Hva).
  - intros x Hx. apply Hm. intros (i & a & va & Hi & Hva & ->)%HP.
    by destruct (ubyte_outside s fl ps i a i a va Hw Hi Hi Hva).
Qed.

(** Two user addresses name the same byte of a writable page only if they
    are the same address of the same process. *)
Lemma ubyte_inj s fl ps i a va j b va' :
  world s fl ps → ps !! i = Some a → ps !! j = Some b → in_as a va → in_as b va' →
  flag (upte s a va) PTE_W = true → ubyte s a va = ubyte s b va' → i = j ∧ va = va'.
Proof.
  intros Hw Hi Hj Hva Hva' HW E.
  destruct (wo_map _ _ _ Hw _ _ _ Hi Hva) as (_ & _ & Hp).
  destruct (wo_map _ _ _ Hw _ _ _ Hj Hva') as (_ & _ & Hp').
  pose proof (ubyte_page s a va) as H1. pose proof (ubyte_page s b va') as H2. rewrite E in H1.
  pose proof (pages_disjoint _ _ _ Hp Hp' H1 H2) as Epg.
  destruct (mapped_once s ps i j a b va va') as [-> Hpg]; try done; [by eapply wo_cow|].
  split; [done|]. unfold ubyte in E. dlia.
Qed.

(** What every process sees after process [i] has written [f] at [n]
    addresses from [va]. *)
Definition view_write (s : kst) (ps : list aspace) (i : nat) (va n : Z) (f : Z → Z) (s' : kst) : Prop :=
  ∀ j b va', ps !! j = Some b →
    uread s' b va' =
      if decide (j = i ∧ span va n va') then Some (f va') else uread s b va'.

(** A write within one writable page. *)
Lemma write_page s fl ps i a va n m (f : Z → Z) :
  world s fl ps → ps !! i = Some a → in_as a va →
  flag (upte s a va) PTE_W = true → flag (upte s a va) PTE_U = true →
  0 ≤ n → va mod PGSIZE + n ≤ PGSIZE →
  (∀ x, ld8 m x = if decide (span (ubyte s a va) n x) then f (va + (x - ubyte s a va)) else ld8 (mem s) x) →
  world (set_mem m s) fl ps ∧ view_write s ps i va n f (set_mem m s) ∧
  (∀ j b va', ps !! j = Some b → upte (set_mem m s) b va' = upte s b va').
Proof.
  intros Hw Hi Hva HW HU Hn0 Hn Hm.
  assert (∀ k, 0 ≤ k < n → in_as a (va + k) ∧ upte s a (va + k) = upte s a va ∧
    ubyte s a (va + k) = ubyte s a va + k) as Hk.
  { intros k Hk. unfold in_as, span, ubyte in *.
    assert (upte s a (va + k) = upte s a va) as E by (apply pte_of_page; dlia).
    rewrite E. split_and!; [dlia..|]. dlia. }
  assert (world (set_mem m s) fl ps) as Hw'.
  { apply (world_set_data s fl ps m (span (ubyte s a va) n)); [done|..].
    - intros x Hx. unfold span in Hx. destruct (Hk (x - ubyte s a va)) as (H1 & _ & H3); [lia|].
      exists i, a, (va + (x - ubyte s a va)). split_and!; [done..|]. rewrite H3. lia.
    - intros x Hx. by rewrite Hm decide_False. }
  assert (∀ j b va', ps !! j = Some b → upte (set_mem m s) b va' = upte s b va') as Hu.
  { intros j b va' Hj. apply upte_ext. intros x Hx. simpl. rewrite Hm decide_False //. intros Hsp.
    unfold span in Hsp. destruct (Hk (x - ubyte s a va)) as (H1 & _ & H3); [lia|].
    destruct (ubyte_outside s fl ps j b i a (va + (x - ubyte s a va)) Hw Hj Hi H1) as [H4 _].
    apply H4. rewrite H3. by replace (ubyte s a va + (x - ubyte s a va)) with x by lia. }
  split_and!; [done| |done]. intros j b va' Hj. rewrite /uread (Hu j) //.
  case_bool_decide as Hin; simpl.
  2:{ rewrite decide_False //. intros [-> Hsp]. assert (b = a) as -> by congruence. apply Hin.
      unfold span in Hsp. destruct (Hk (va' - va)) as [H1 _]; [lia|].
      by replace (va + (va' - va)) with va' in H1 by lia. }
  change (PTE2PA (upte s b va') + va' mod PGSIZE) with (ubyte s b va'). rewrite Hm.
  case_decide as Hsp; unfold span in Hsp.
  - destruct (Hk (ubyte s b va' - ubyte s a va)) as (H1 & H2 & H3); [lia|].
    destruct (ubyte_inj s fl ps i a (va + (ubyte s b va' - ubyte s a va)) j b va') as [<- E];
      [done..|by rewrite H2|rewrite H3; lia|].
    assert (b = a) as -> by congruence. rewrite E in H1 H2 |- *.
    rewrite H2 HU (proj1 (proj1 (wo_map _ _ _ Hw _ _ _ Hi Hva))) /= decide_True //.
    split; [done|]. unfold span. lia.
  - rewrite (decide_False (P:=j = i ∧ _)) //. intros [-> Hsp']. assert (b = a) as -> by congruence.
    unfold span in Hsp'. destruct (Hk (va' - va)) as (_ & _ & H3); [lia|].
    replace (va + (va' - va)) with va' in H3 by lia. lia.
Qed.

(** ** User stores *)





(** ** Copy-on-write refines private memories

    The abstract machine has one memory per process.  A store writes the
    storing process's memory, or kills the process and writes nothing. *)



(** A store: process, address, byte. *)
Definition store_op : Type := nat * Z * Z.






(** Which stores may fail.  [n] pages are free, and process [i] writes page [p]
    without a fault when [w i p].  Any other store faults: it takes a free page
    and succeeds, and the page is the process's own from then on; only when as
    many faults as there were free pages have been before it can it fail. *)
Fixpoint stores_ok (n : nat) (w : nat → Z → bool) (l : list store_op) (oks : list bool) : Prop :=
  match l, oks with
  | [], [] => True
  | (i, va, b) :: l', ok :: oks' =>
      (ok = false → w i (va / PGSIZE) = false ∧ n = 0%nat) ∧
      stores_ok (if w i (va / PGSIZE) then n else pred n)
        (if ok then λ j p, bool_decide (j = i ∧ p = va / PGSIZE) || w j p else w) l' oks'
  | _, _ => False
  end.

(** With a free page for each store, none fails. *)
Lemma stores_ok_all n w l oks : stores_ok n w l oks → (length l ≤ n)%nat → oks = replicate (length l) true.
Proof.
  revert n w oks. induction l as [|[[i va] b] l IH]; intros n w [|ok oks]; simpl; [done..|]. intros [Hok H] Hn.
  destruct ok; [|destruct Hok as [_ ->]; [done|lia]]. f_equal. eapply IH; [exact H|]. case_match; lia.
Qed.






(** ** [copyout] *)

Lemma copyout_loop_S fuel mine pagetable dstva src len :
  copyout_loop (S fuel) mine pagetable dstva src len =
    if 0 <? len then
      let va0 := PGROUNDDOWN dstva in
      if MAXVA <=? va0 then mret (-1)
      else
        pte ← walk pagetable va0 false;
        if pte =? 0 then mret (-1)
        else
          v ← load64 pte;
          if negb (flag v PTE_V) || negb (flag v PTE_U) then mret (-1)
          else
            err ← (if negb (flag v PTE_W) then CowHandler mine va0 else mret 0);
            if err <? 0 then mret (-1)
            else
              v ← load64 pte;
              let pa0 := PTE2PA v in
              let n := PGSIZE - (dstva - va0) in
              let n := if len <? n then len else n in
              kmemmove (u64 (pa0 + (dstva - va0))) src (u32 n);;
              copyout_loop fuel mine pagetable (u64 (va0 + PGSIZE)) (u64 (src + n)) (len - n)
    else mret 0.
Proof. done. Qed.

Lemma quiet_set_mem s fl ps m x :
  (∀ j b va, ps !! j = Some b → upte (set_mem m s) b va = upte s b va) →
  quiet s fl ps x → quiet (set_mem m s) fl ps x.
Proof.
  intros Hu (H1 & H2 & H3). split_and!; [done| |done].
  rewrite (_ : all_pages (set_mem m s) ps = all_pages s ps) //. rewrite /all_pages. f_equal.
  apply list_fmap_ext. intros j b Hj. apply as_pages_ext. intros va _. by eapply Hu.
Qed.

Lemma quiet_not_user s fl ps i a va x :
  quiet s fl ps x → ps !! i = Some a → in_as a va → ¬ in_page (PTE2PA (upte s a va)) x.
Proof.
  intros (_ & Hq & _) Hi Hva Hx. apply Hq. exists (PTE2PA (upte s a va)).
  split; [by eapply as_pages_in|done].
Qed.

(** Copying one chunk into a writable page. *)
Lemma write_chunk s fl ps i a va n src :
  world s fl ps → ps !! i = Some a → in_as a va →
  flag (upte s a va) PTE_W = true → flag (upte s a va) PTE_U = true →
  0 ≤ n → va mod PGSIZE + n ≤ PGSIZE →
  let s' := set_mem (memmove (mem s) (ubyte s a va) src n) s in
  world s' fl ps ∧ view_write s ps i va n (λ va', ld8 (mem s) (src + (va' - va))) s' ∧
  perms_kept s ps s' ∧ calm s fl ps s' fl.
Proof.
  intros Hw Hi Hva HW HU Hn0 Hn s'. pose proof (Z.mod_pos_bound va PGSIZE ltac:(lia)) as Hmod.
  destruct (write_page s fl ps i a va n (memmove (mem s) (ubyte s a va) src n)
    (λ va', ld8 (mem s) (src + (va' - va)))) as (Hw' & Hv & Hu); try done.
  { intros x. rewrite ld8_memmove; [|lia]. case_decide; [|done]. do 2 f_equal. lia. }
  split_and!; [done..| |].
  - intros j b va' Hj _. by rewrite /writable (Hu j).
  - intros x Hx. split; [by apply quiet_set_mem|]. simpl. rewrite ld8_memmove; [|lia].
    rewrite decide_False //. intros Hsp. eapply (quiet_not_user s fl ps i a va x); [done..|].
    unfold ubyte, span in *. lia.
Qed.

Lemma view_write_0 s ps i va f s' : same_view s ps s' ps → view_write s ps i va 0 f s'.
Proof.
  intros Hv j b va' Hj. rewrite decide_False; [by apply (Hv j b b)|]. unfold span. lia.
Qed.

Lemma view_write_pre s s1 ps i va n f s' :
  same_view s ps s1 ps → view_write s1 ps i va n f s' → view_write s ps i va n f s'.
Proof. intros Hv Hw j b va' Hj. rewrite (Hw j) //. case_decide; [done|]. by apply (Hv j b b). Qed.

Lemma view_write_app s s1 ps i va n n' f f' s' :
  0 ≤ n → 0 ≤ n' → view_write s ps i va n f s1 → view_write s1 ps i (va + n) n' f' s' →
  (∀ x, span (va + n) n' x → f' x = f x) →
  view_write s ps i va (n + n') f s'.
Proof.
  intros Hn Hn' H1 H2 Hf j b va' Hj. rewrite (H2 j) //. case_decide as E1.
  - destruct E1 as [-> E1]. rewrite Hf // decide_True //. split; [done|]. unfold span in *. lia.
  - rewrite (H1 j) //. repeat case_decide; try done; unfold span in *; naive_solver lia.
Qed.

Lemma view_write_ext s ps i va n f g s' :
  view_write s ps i va n f s' → (∀ x, span va n x → f x = g x) → view_write s ps i va n g s'.
Proof.
  intros Hv Hfg j b va' Hj. rewrite (Hv j) //. case_decide as E; [|done]. rewrite Hfg //. apply E.
Qed.

Lemma calm_trans s fl ps s1 fl1 s2 fl2 : calm s fl ps s1 fl1 → calm s1 fl1 ps s2 fl2 → calm s fl ps s2 fl2.
Proof. intros H1 H2 x Hx. destruct (H1 x Hx) as [Hx1 <-]. by apply H2. Qed.

Lemma same_view_refl s ps : same_view s ps s ps.
Proof. intros j b c Hb Hc va. congruence. Qed.

Lemma same_view_trans s s1 s2 ps : same_view s ps s1 ps → same_view s1 ps s2 ps → same_view s ps s2 ps.
Proof. intros H1 H2 j b c Hb Hc va. assert (c = b) as -> by congruence. by rewrite (H2 j b b) // (H1 j b b). Qed.

Lemma calm_refl s fl ps : calm s fl ps s fl.
Proof. done. Qed.

Lemma perms_kept_trans s ps s1 s2 : perms_kept s ps s1 → perms_kept s1 ps s2 → perms_kept s ps s2.
Proof. intros H1 H2 j b va Hj Hva. rewrite (H2 j) //. by apply (H1 j). Qed.

(** The page of an address. *)
Lemma page_start s a va :
  0 ≤ va → let va0 := PGROUNDDOWN va in
  va0 = va - va mod PGSIZE ∧ upte s a va0 = upte s a va ∧ (in_as a va → in_as a va0) ∧
  va0 / PGSIZE = va / PGSIZE ∧ (legal va0 ↔ legal va).
Proof.
  intros Hva va0. subst va0. rewrite PGROUNDDOWN_eq. split_and!; [dlia|apply pte_of_page; dlia|..|dlia|].
  - unfold in_as, span. dlia.
  - unfold legal. dlia.
Qed.

(** Up to the copy: the entry is checked and the page made writable. *)
Lemma wp_copyout_ready s fl ps i a va e (k : M kst Z) (Q : Z → kst → Prop) :
  world s fl ps → ps !! i = Some a → in_as a va → pte_addr (as_tab a) va = Some e →
  (∀ s1 fl1, world s1 fl1 ps → same_view s ps s1 ps → flag (upte s1 a va) PTE_W = true →
     flag (upte s1 a va) PTE_U = true → perms_kept s ps s1 → calm s fl ps s1 fl1 → wp k Q s1) →
  (writable s a va = false ∨ fl = [] → Q (-1) s) →
  let v := upte s a va in
  wp (if negb (flag v PTE_V) || negb (flag v PTE_U) then mret (-1)
      else
        err ← (if negb (flag v PTE_W) then CowHandler (as_root a) va else mret 0);
        if err <? 0 then mret (-1) else k) Q s.
Proof.
  intros Hw Hi Hva He HQ Hfail v. destruct (wo_map _ _ _ Hw _ _ _ Hi Hva) as ([HV _] & _). fold v in HV.
  rewrite HV /=. destruct (flag v PTE_U) eqn:HU; simpl.
  2:{ apply wp_ret, Hfail. left. by rewrite /writable; fold v; rewrite HU. }
  apply wp_bind. destruct (flag v PTE_W) eqn:HW; simpl.
  { apply wp_ret. simpl. apply (HQ s fl); try done. apply same_view_refl. }
  destruct (flag v PTE_COW) eqn:HC.
  - eapply wp_CowHandler; [done..| |].
    + intros s1 fl1 Hw1 Hv1 Hmw Hpk Hcalm _. simpl. apply (HQ s1 fl1); try done.
      * rewrite Hmw // decide_True //.
      * pose proof (Hpk _ _ _ Hi Hva) as E. rewrite /writable {2}/is_cow in E. fold v in E.
        rewrite HU HW HC /= in E. by apply andb_true_iff in E as [? _].
    + intros ->. simpl. apply wp_ret, Hfail. by right.
  - eapply wp_Ret; [eapply CowHandler_not_cow; try done; fold v; by rewrite HC andb_false_r|].
    simpl. apply wp_ret, Hfail. left. by rewrite /writable /is_cow; fold v; rewrite HW HC andb_false_r.
Qed.

(** An address the process does not own. *)
Lemma wp_copyout_bad fuel s fl ps i a dstva src len (Q : Z → kst → Prop) :
  world s fl ps → ps !! i = Some a → ¬ in_as a dstva → 0 ≤ dstva → 0 < len → Q (-1) s →
  wp (copyout_loop (S fuel) (as_root a) (as_root a) dstva src len) Q s.
Proof.
  intros Hw Hi Hn Hva Hlen HQ. rewrite copyout_loop_S. destruct (Z.ltb_spec 0 len); [|lia].
  destruct (page_start s a dstva Hva) as (E0 & Eu & _ & _ & El). cbv zeta.
  destruct (Z.leb_spec MAXVA (PGROUNDDOWN dstva)); [by apply wp_ret|].
  pose proof (world_vm_ok _ _ _ _ _ Hw Hi) as Hok.
  assert (legal (PGROUNDDOWN dstva)) as Hleg by (unfold legal; rewrite E0 in H0 |- *; dlia).
  apply wp_bind. eapply wp_Ret; [apply walk_noalloc; [apply Hok|done]|].
  destruct (pte_addr (as_tab a) (PGROUNDDOWN dstva)) as [e|] eqn:He; simpl; [|by apply wp_ret].
  destruct (Z.eqb_spec e 0); [by apply wp_ret|]. apply wp_bind, wp_load64. rewrite (pte_of_addr _ _ _ _ He).
  change (pte_of (mem s) (as_tab a) (PGROUNDDOWN dstva)) with (upte s a (PGROUNDDOWN dstva)).
  rewrite Eu (wo_out _ _ _ Hw i a dstva) //; [|by apply El]. rewrite orb_true_r. by apply wp_ret.
Qed.

Definition copyout_post (s : kst) (ps : list aspace) (i : nat) (a : aspace) (dstva src len r : Z)
    (s' : kst) : Prop :=
  ∃ fl' n, world s' fl' ps ∧ 0 ≤ n ≤ len ∧
    view_write s ps i dstva n (λ va, ld8 (mem s) (src + (va - dstva))) s' ∧ perms_kept s ps s' ∧
    ((r = 0 ∧ n = len) ∨
     (r = -1 ∧ n < len ∧ ((in_as a (dstva + n) → writable s a (dstva + n) = false) ∨ fl' = []))).

(** The number of bytes one round copies. *)
Definition chunk (va len : Z) : Z := Z.min len (PGSIZE - va mod PGSIZE).

(** One round on an address the process owns. *)
Lemma wp_copyout_round fuel s fl ps i a dstva src len (Q : Z → kst → Prop) :
  world s fl ps → ps !! i = Some a → in_as a dstva → 0 < len → 0 ≤ src → src + len < 2 ^ 64 →
  let n := chunk dstva len in
  (∀ s2 fl2, world s2 fl2 ps →
     (∀ f, (∀ k, 0 ≤ k < n → quiet s fl ps (src + k)) →
        (∀ va, f va = ld8 (mem s) (src + (va - dstva))) → view_write s ps i dstva n f s2) →
     perms_kept s ps s2 → calm s fl ps s2 fl2 →
     wp (copyout_loop fuel (as_root a) (as_root a) (dstva - dstva mod PGSIZE + PGSIZE) (src + n) (len - n)) Q s2) →
  (writable s a dstva = false ∨ fl = [] → Q (-1) s) →
  wp (copyout_loop (S fuel) (as_root a) (as_root a) dstva src len) Q s.
Proof.
  intros Hw Hi Hin Hpos Hsrc Hsrc' n HQ Hfail.
  pose proof (in_as_legal _ _ _ _ _ _ Hw Hi Hin) as Hleg. unfold legal in Hleg.
  pose proof (Z.mod_pos_bound dstva PGSIZE ltac:(lia)) as Hmod.
  rewrite copyout_loop_S. destruct (Z.ltb_spec 0 len); [|lia].
  destruct (page_start s a dstva) as (E0 & Eu & Ein & _ & _); [lia|].
  set (va0 := PGROUNDDOWN dstva) in *. cbv zeta. fold va0.
  destruct (Z.leb_spec MAXVA va0); [lia|].
  pose proof (world_vm_ok _ _ _ _ _ Hw Hi) as Hok. specialize (Ein Hin).
  destruct (wo_map _ _ _ Hw _ _ _ Hi Ein) as (Hlf & _). destruct (leaf_addr _ _ _ Hlf) as [e He].
  pose proof (pte_addr_nonzero _ _ _ _ _ (sp_wf _ _ _ _ (vo_space _ _ _ _ Hok)) He) as Hnz.
  apply wp_bind. eapply wp_Ret; [apply walk_noalloc; [apply Hok|unfold legal; dlia]|]. rewrite He /=.
  rewrite (proj2 (Z.eqb_neq e 0) Hnz). apply wp_bind, wp_load64. rewrite (pte_of_addr _ _ _ _ He).
  apply (wp_copyout_ready s fl ps i a va0 e); [done..| |by rewrite /writable Eu].
  intros s1 fl1 Hw1 Hv1 HW1 HU1 Hpk1 Hcalm1. apply wp_bind, wp_load64. rewrite (pte_of_addr _ _ _ _ He).
  change (pte_of (mem s1) (as_tab a) va0) with (upte s1 a va0).
  destruct (page_start s1 a dstva) as (_ & Eu1 & _); [lia|]. fold va0 in Eu1. rewrite Eu1 in HW1 HU1 |- *.
  rewrite (_ : (if len <? _ then _ else _) = n); [|subst n; unfold chunk; destruct (Z.ltb_spec len (PGSIZE - (dstva - va0))); lia].
  assert (0 < n ≤ PGSIZE - dstva mod PGSIZE ∧ n ≤ len) as [Hn Hn'] by (subst n; unfold chunk; lia).
  rewrite (u32_id n); [|lia].
  rewrite (_ : u64 (PTE2PA (upte s1 a dstva) + (dstva - va0)) = ubyte s1 a dstva); last first.
  { rewrite /ubyte E0 Z.sub_sub_distr Z.sub_diag. apply Z.mod_small.
    destruct (wo_map _ _ _ Hw1 _ _ _ Hi Hin) as (_ & _ & Hp%page_ok_range). lia. }
  apply wp_bind, wp_kmemmove.
  destruct (write_chunk s1 fl1 ps i a dstva n src) as (Hw2 & Hv2 & Hpk2 & Hcalm2); try done; try lia.
  rewrite /u64 !(Z.mod_small _ (2 ^ 64)); [|dlia..]. rewrite E0. apply (HQ _ fl1); [done| |..].
  - intros f Hq Hf. eapply view_write_pre; [done|]. eapply view_write_ext; [exact Hv2|].
    intros va Hva. unfold span in Hva. rewrite Hf. apply Hcalm1.
    apply Hq. lia.
  - by eapply perms_kept_trans.
  - by eapply calm_trans.
Qed.

(** What [copyout] leaves, with the free pages [fl'] afterwards. *)
Definition copied_out (s : kst) (ps : list aspace) (i : nat) (a : aspace) (dstva src len r : Z)
    (s' : kst) (fl' : list Z) : Prop :=
  ∃ n, world s' fl' ps ∧ 0 ≤ n ≤ len ∧
    view_write s ps i dstva n (λ va, ld8 (mem s) (src + (va - dstva))) s' ∧ perms_kept s ps s' ∧
    ((r = 0 ∧ n = len) ∨
     (r = -1 ∧ n < len ∧ ((in_as a (dstva + n) → writable s a (dstva + n) = false) ∨ fl' = []))).

Lemma wp_copyout_loop fuel s fl ps i a dstva src len :
  world s fl ps → ps !! i = Some a → 0 ≤ dstva → 0 ≤ len → 0 ≤ src → src + len < 2 ^ 64 →
  (∀ k, 0 ≤ k < len → quiet s fl ps (src + k)) →
  (dstva mod PGSIZE + len + PGSIZE - 1) / PGSIZE < Z.of_nat fuel →
  wp (copyout_loop fuel (as_root a) (as_root a) dstva src len)
    (λ r s', ∃ fl', copied_out s ps i a dstva src len r s' fl' ∧ calm s fl ps s' fl') s.
Proof.
  revert s fl dstva src len. induction fuel as [|fuel IH];
    intros s fl dstva src len Hw Hi Hva Hlen Hsrc Hsrc' Hq Hfuel; [dlia|].
  assert (view_write s ps i dstva 0 (λ va, ld8 (mem s) (src + (va - dstva))) s) as Hv0
    by apply view_write_0, same_view_refl.
  assert (calm s fl ps s fl) as Hc0 by done.
  destruct (decide (len = 0)) as [->|Hpos].
  { rewrite copyout_loop_S /=. apply wp_ret. exists fl. split; [|done]. exists 0. split_and!; [done|lia|lia|done|done|by left]. }
  destruct (decide (in_as a dstva)) as [Hin|Hn]; last first.
  { eapply wp_copyout_bad; [done..|lia|]. exists fl. split; [|done]. exists 0. split_and!; [done|lia|lia|done|done|].
    right. split_and!; [done|lia|]. left. by rewrite Z.add_0_r. }
  eapply wp_copyout_round; [done..|lia|lia|lia| |].
  2:{ intros Hbad. exists fl. split; [|done]. exists 0. split_and!; [done|lia|lia|done|done|].
      right. split_and!; [done|lia|]. rewrite Z.add_0_r. destruct Hbad; [by left|by right]. }
  set (n := chunk dstva len). pose proof (Z.mod_pos_bound dstva PGSIZE ltac:(lia)) as Hmod.
  assert (0 < n ≤ len) as Hn by (subst n; unfold chunk; lia).
  intros s2 fl2 Hw2 Hv2 Hpk2 Hcalm2.
  assert (view_write s ps i dstva n (λ va, ld8 (mem s) (src + (va - dstva))) s2) as Hv.
  { apply Hv2; [|done]. intros k Hk. apply Hq. lia. }
  eapply wp_mono; [apply (IH s2 fl2); try done; try lia|].
  - intros k Hk. apply Hcalm2. rewrite -Z.add_assoc. apply Hq. lia.
  - subst n. unfold chunk in *. dlia.
  - intros r s3 (fl3 & (n3 & Hw3 & Hn3 & Hv3 & Hpk3 & Hr) & Hcalm3). exists fl3. split; [|by eapply calm_trans]. exists (n + n3).
    assert (n3 = 0 ∨ dstva - dstva mod PGSIZE + PGSIZE = dstva + n) as Hcase
      by (subst n; unfold chunk in *; lia).
    assert (n < len → dstva - dstva mod PGSIZE + PGSIZE = dstva + n) as Hnext
      by (subst n; unfold chunk in *; lia).
    split_and!; [done|lia|lia| |by eapply perms_kept_trans|].
    + destruct Hcase as [->|E].
      * rewrite Z.add_0_r. intros j b va Hj. rewrite (Hv3 j) // (decide_False (P:=j = i ∧ _)); [by apply Hv|].
        unfold span. lia.
      * rewrite E in Hv3. eapply view_write_app; [lia|lia|done|done|].
        intros va Hva'. cbv beta. unfold span in Hva'. replace (src + n + (va - (dstva + n))) with (src + (va - dstva)) by lia.
        apply Hcalm2, Hq. lia.
    + destruct Hr as [[-> ->]|(-> & Hlt & Hbad)]; [left; split; [done|lia]|right].
      split_and!; [done|lia|]. rewrite Hnext in Hbad; [|lia]. rewrite Z.add_assoc.
      destruct Hbad as [Hbad|]; [left|by right]. intros Hin'. rewrite -(Hpk2 i) //. by apply Hbad.
Qed.

Lemma wp_copyout_calm s fl ps i a dstva src len :
  world s fl ps → ps !! i = Some a → 0 ≤ dstva → 0 ≤ len → 0 ≤ src → src + len < 2 ^ 64 →
  (∀ k, 0 ≤ k < len → quiet s fl ps (src + k)) →
  wp (copyout (as_root a) (as_root a) dstva src len)
    (λ r s', ∃ fl', copied_out s ps i a dstva src len r s' fl' ∧ calm s fl ps s' fl') s.
Proof. intros. eapply wp_copyout_loop; [done..|]. dlia. Qed.

Lemma wp_copyout s fl ps i a dstva src len :
  world s fl ps → ps !! i = Some a → 0 ≤ dstva → 0 ≤ len → 0 ≤ src → src + len < 2 ^ 64 →
  (∀ k, 0 ≤ k < len → quiet s fl ps (src + k)) →
  wp (copyout (as_root a) (as_root a) dstva src len) (copyout_post s ps i a dstva src len) s.
Proof.
  intros. eapply wp_mono; [by eapply wp_copyout_calm|]. intros r s' (fl' & (n & H') & _). by exists fl', n.
Qed.

(** C35: [copyout] to the running process writes exactly the bytes of the
    kernel buffer at the user addresses, giving the process private copies
    of the pages it shares, and no other process sees a change.  It returns
    0 when all [len] bytes are written, and -1 only at an address that is
    not the process's or not writable, or when no page is free; the bytes
    before that address are written, and no others.  What the processes may
    write stays the same. *)
Theorem copyout_spec s fl ps i a dstva src len :
  world s fl ps → ps !! i = Some a → 0 ≤ dstva → 0 ≤ len → 0 ≤ src → src + len < 2 ^ 64 →
  (∀ k, 0 ≤ k < len → quiet s fl ps (src + k)) →
  wp (copyout (as_root a) (as_root a) dstva src len) (copyout_post s ps i a dstva src len) s.
Proof. apply wp_copyout. Qed.

(** ** [copyin] *)

(** [walkaddr] gives the page of a readable address and 0 for any other. *)
Lemma walkaddr_eq s fl ps i a va :
  world s fl ps → ps !! i = Some a → 0 ≤ va →
  walkaddr (as_root a) (PGROUNDDOWN va) s =
    Ret (match uread s a va with Some _ => PTE2PA (upte s a va) | None => 0 end, s).
Proof.
  intros Hw Hi Hva. destruct (page_start s a va Hva) as (E0 & Eu & _ & _ & El).
  rewrite /walkaddr. destruct (Z.leb_spec MAXVA (PGROUNDDOWN va)).
  { rewrite /uread bool_decide_eq_false_2 // => Hin.
    pose proof (in_as_legal _ _ _ _ _ _ Hw Hi Hin) as Hleg. apply El in Hleg. unfold legal in Hleg. lia. }
  assert (legal (PGROUNDDOWN va)) as Hleg by (unfold legal; rewrite E0 in H |- *; dlia).
  pose proof (world_vm_ok _ _ _ _ _ Hw Hi) as Hok.
  rewrite {1}/mbind {1}/M_bind (walk_noalloc _ (as_tab a)) //; [|apply Hok].
  assert (∀ v, upte s a va = v → flag v PTE_V && flag v PTE_U = false → uread s a va = None) as Hnone.
  { intros v <- Hf. by rewrite /uread Hf andb_false_r. }
  destruct (pte_addr (as_tab a) (PGROUNDDOWN va)) as [e|] eqn:He; simpl; last first.
  { rewrite (Hnone 0) // -Eu /upte /pte_of He //. }
  pose proof (pte_addr_nonzero _ _ _ _ _ (sp_wf _ _ _ _ (vo_space _ _ _ _ Hok)) He) as Hnz.
  rewrite (proj2 (Z.eqb_neq e 0) Hnz).
  rewrite {1}/mbind {1}/M_bind {1}/load64 {1}/gets (pte_of_addr _ _ _ _ He).
  change (pte_of (mem s) (as_tab a) (PGROUNDDOWN va)) with (upte s a (PGROUNDDOWN va)). rewrite Eu.
  destruct (flag (upte s a va) PTE_V) eqn:HV; simpl; [|by rewrite (Hnone _ eq_refl) // HV].
  destruct (flag (upte s a va) PTE_U) eqn:HU; simpl; [|by rewrite (Hnone _ eq_refl) // HV HU].
  rewrite /uread HV HU. destruct (decide (in_as a va)) as [Hin|Hn].
  - by rewrite bool_decide_eq_true_2.
  - rewrite (wo_out _ _ _ Hw i a va) // in HU. by apply El.
Qed.

Lemma uread_Some s a va c : uread s a va = Some c → in_as a va ∧ c = ld8 (mem s) (ubyte s a va).
Proof.
  rewrite /uread. case_bool_decide as Hin; [|done]. case_match; [|done]. intros [= <-]. done.
Qed.

(** Kernel memory at [dst] after [n] user bytes from [srcva] were read. *)
Definition read_in (s : kst) (a : aspace) (dst srcva n : Z) (s' : kst) : Prop :=
  ∀ x, ld8 (mem s') x =
    if decide (span dst n x) then default 0 (uread s a (srcva + (x - dst))) else ld8 (mem s) x.

(** A write to kernel memory that is no page table, user page or free
    page. *)
Lemma quiet_upte s fl ps m P j b va :
  (∀ x, P x → quiet s fl ps x) → mem_eq_on (λ x, ¬ P x) (mem s) m → ps !! j = Some b →
  upte (set_mem m s) b va = upte s b va.
Proof.
  intros HP Hm Hj. apply upte_ext. intros x Hx. apply Hm. intros (_ & _ & H)%HP. by eapply H.
Qed.

Lemma quiet_perms s fl ps m P :
  (∀ x, P x → quiet s fl ps x) → mem_eq_on (λ x, ¬ P x) (mem s) m → perms_kept s ps (set_mem m s).
Proof. intros HP Hm j b va Hj _. by rewrite /writable (quiet_upte s fl ps m P j). Qed.

Lemma world_quiet s fl ps m P :
  world s fl ps → (∀ x, P x → quiet s fl ps x) → mem_eq_on (λ x, ¬ P x) (mem s) m →
  world (set_mem m s) fl ps ∧ same_view s ps (set_mem m s) ps ∧
  (∀ x, quiet s fl ps x → quiet (set_mem m s) fl ps x).
Proof.
  intros Hw HP Hm.
  assert (∀ j b, ps !! j = Some b → mem_eq_on (table_byte (as_tab b)) (mem s) m) as Ht.
  { intros j b Hj x Hx. apply Hm. intros (_ & _ & H)%HP. by eapply H. }
  assert (∀ j b va, ps !! j = Some b → upte (set_mem m s) b va = upte s b va) as Hu.
  { intros j b va Hj. by apply (quiet_upte s fl ps m P j). }
  split_and!.
  - apply world_set_mem; [done|done|]. intros x Hx. apply Hm. by intros (H & _)%HP.
  - intros j b c Hj Hj' va. assert (c = b) as -> by congruence. apply uread_ext; [done|]. intros Hva.
    rewrite /ubyte (Hu j) //. split_and!; [done..|]. apply Hm. intros Hx%HP.
    by eapply (quiet_not_user s fl ps j b va); [..|apply ubyte_page].
  - intros x. by apply quiet_set_mem.
Qed.

Lemma copyin_loop_S fuel pagetable dst srcva len :
  copyin_loop (S fuel) pagetable dst srcva len =
    if 0 <? len then
      let va0 := PGROUNDDOWN srcva in
      pa0 ← walkaddr pagetable va0;
      if pa0 =? 0 then mret (-1)
      else
        let n := PGSIZE - (srcva - va0) in
        let n := if len <? n then len else n in
        kmemmove dst (u64 (pa0 + (srcva - va0))) (u32 n);;
        copyin_loop fuel pagetable (u64 (dst + n)) (u64 (va0 + PGSIZE)) (len - n)
    else mret 0.
Proof. done. Qed.

(** Reading within one page. *)
Lemma uread_page s a va k c :
  uread s a va = Some c → 0 ≤ k → va mod PGSIZE + k < PGSIZE →
  uread s a (va + k) = Some (ld8 (mem s) (ubyte s a va + k)).
Proof.
  rewrite /uread. case_bool_decide as Hin; [|done]. case_match eqn:Hf; [|done]. intros _ Hk0 Hk.
  unfold in_as, span in Hin. pose proof (Z.mod_pos_bound va PGSIZE ltac:(lia)).
  rewrite (_ : upte s a (va + k) = upte s a va); [|apply pte_of_page; dlia].
  simpl in Hf. rewrite Hf bool_decide_eq_true_2; [|unfold in_as, span; dlia]. simpl. do 2 f_equal.
  rewrite /ubyte. dlia.
Qed.

Definition copyin_post (s : kst) (fl : list Z) (ps : list aspace) (a : aspace) (dst srcva len r : Z)
    (s' : kst) : Prop :=
  ∃ n, world s' fl ps ∧ same_view s ps s' ps ∧ 0 ≤ n ≤ len ∧ read_in s a dst srcva n s' ∧
    (∀ k, 0 ≤ k < n → is_Some (uread s a (srcva + k))) ∧
    ((r = 0 ∧ n = len) ∨ (r = -1 ∧ n < len ∧ uread s a (srcva + n) = None)).

Lemma copyin_post_none s fl ps a dst srcva len r :
  world s fl ps → 0 ≤ len →
  (r = 0 ∧ 0 = len) ∨ (r = -1 ∧ 0 < len ∧ uread s a (srcva + 0) = None) →
  copyin_post s fl ps a dst srcva len r s.
Proof.
  intros Hw Hlen Hr. exists 0. split_and!; [done|apply same_view_refl|lia|lia| |lia|done].
  intros x. rewrite decide_False //. unfold span. lia.
Qed.

Lemma wp_copyin_loop fuel s fl ps i a dst srcva len :
  world s fl ps → ps !! i = Some a → 0 ≤ srcva → 0 ≤ len → 0 ≤ dst → dst + len < 2 ^ 64 →
  (∀ k, 0 ≤ k < len → quiet s fl ps (dst + k)) →
  (srcva mod PGSIZE + len + PGSIZE - 1) / PGSIZE < Z.of_nat fuel →
  wp (copyin_loop fuel (as_root a) dst srcva len) (copyin_post s fl ps a dst srcva len) s.
Proof.
  revert s dst srcva len. induction fuel as [|fuel IH];
    intros s dst srcva len Hw Hi Hva Hlen Hdst Hdst' Hq Hfuel; [dlia|].
  rewrite copyin_loop_S. destruct (Z.ltb_spec 0 len) as [Hpos|]; last first.
  { apply wp_ret, copyin_post_none; [done..|lia]. }
  cbv zeta. apply wp_bind. eapply wp_Ret; [by eapply walkaddr_eq|].
  destruct (uread s a srcva) as [c|] eqn:Hc; last first.
  { simpl. apply wp_ret, copyin_post_none; [done|lia|]. right. by rewrite Z.add_0_r. }
  destruct (uread_Some _ _ _ _ Hc) as [Hin _].
  destruct (wo_map _ _ _ Hw _ _ _ Hi Hin) as (_ & _ & Hp%page_ok_range).
  rewrite (_ : PTE2PA (upte s a srcva) =? 0 = false); [|lia].
  destruct (page_start s a srcva Hva) as (E0 & _). set (va0 := PGROUNDDOWN srcva) in *.
  pose proof (Z.mod_pos_bound srcva PGSIZE ltac:(lia)) as Hmod.
  pose proof (in_as_legal _ _ _ _ _ _ Hw Hi Hin) as Hleg. unfold legal in Hleg.
  rewrite (_ : (if len <? _ then _ else _) = chunk srcva len);
    [|unfold chunk; destruct (Z.ltb_spec len (PGSIZE - (srcva - va0))); lia].
  set (n := chunk srcva len).
  assert (0 < n ≤ len ∧ n ≤ PGSIZE - srcva mod PGSIZE) as [Hn Hn'] by (subst n; unfold chunk; lia).
  rewrite (u32_id n); [|lia].
  rewrite (_ : u64 (PTE2PA (upte s a srcva) + (srcva - va0)) = ubyte s a srcva); last first.
  { rewrite /ubyte E0 Z.sub_sub_distr Z.sub_diag. apply Z.mod_small. lia. }
  apply wp_bind, wp_kmemmove. set (m := memmove _ _ _ _).
  assert (∀ x, ld8 m x = if decide (span dst n x) then ld8 (mem s) (ubyte s a srcva + (x - dst)) else ld8 (mem s) x) as Hm.
  { intros x. apply ld8_memmove. lia. }
  destruct (world_quiet s fl ps m (span dst n)) as (Hw1 & Hv1 & Hq1); [done| | |].
  { intros x Hx. unfold span in Hx. replace x with (dst + (x - dst)) by lia. apply Hq. lia. }
  { intros x Hx. by rewrite Hm decide_False. }
  assert (∀ va, uread (set_mem m s) a va = uread s a va) as Hu1 by (intros va; by apply (Hv1 i)).
  assert (∀ k, 0 ≤ k < n → uread s a (srcva + k) = Some (ld8 (mem s) (ubyte s a srcva + k))) as Hrd.
  { intros k Hk. eapply uread_page; [done|lia|lia]. }
  rewrite /u64 !(Z.mod_small _ (2 ^ 64)); [|lia..].
  eapply wp_mono; [apply (IH (set_mem m s)); try done; try lia|].
  - intros k Hk. apply Hq1. rewrite -Z.add_assoc. apply Hq. lia.
  - rewrite E0. subst n. unfold chunk in *. dlia.
  - intros r s2 (n2 & Hw2 & Hv2 & Hn2 & Hrd2 & Hs2 & Hr2). exists (n + n2).
    assert (n2 = 0 ∨ va0 + PGSIZE = srcva + n) as Hcase by (subst n; unfold chunk in *; lia).
    assert (n < len → va0 + PGSIZE = srcva + n) as Hnext by (subst n; unfold chunk in *; lia).
    split_and!; [done| |lia|lia| | |].
    + intros j b c' Hj Hj' va. rewrite (Hv2 j b c') //. by apply (Hv1 j b b).
    + intros x. rewrite Hrd2 Hu1 /= Hm. unfold span. repeat case_decide; try lia; try done.
      * destruct Hcase as [->|E]; [lia|]. do 2 f_equal. lia.
      * rewrite Hrd; [done|lia].
    + intros k Hk. destruct (decide (k < n)); [rewrite Hrd; [eauto|lia]|].
      destruct Hcase as [->|E]; [lia|]. specialize (Hs2 (k - n) ltac:(lia)).
      rewrite Hu1 E in Hs2. by replace (srcva + n + (k - n)) with (srcva + k) in Hs2 by lia.
    + destruct Hr2 as [[-> ->]|(-> & Hlt & Hbad)]; [left; split; [done|lia]|right].
      split_and!; [done|lia|]. rewrite Hu1 Hnext in Hbad; [|lia]. by rewrite Z.add_assoc.
Qed.

(** Only memory changes. *)
Definition only_mem (s s' : kst) : Prop := s' = set_mem (mem s') s.
#[local] Instance only_mem_pre : PreOrder only_mem.
Proof. split; [by intros []|]. rewrite /only_mem. intros s1 s2 s3 -> ->. done. Qed.

Lemma kmemmove_only d r n : upholds only_mem (kmemmove d r n).
Proof. by apply upholds_modify. Qed.
Lemma walk_loop_only k pt va : upholds only_mem (walk_loop k pt va false).
Proof. revert pt. induction k as [|k IH]; intros pt; cbn [walk_loop negb]; rewrite /load64; solve_upholds. Qed.
#[local] Hint Resolve kmemmove_only walk_loop_only : upholds.
Lemma copyin_loop_only k pt d r n : upholds only_mem (copyin_loop k pt d r n).
Proof. revert d r n. induction k as [|k IH]; intros d r n; cbn [copyin_loop]; rewrite /walkaddr /walk /load64; solve_upholds. Qed.

Lemma wp_copyin s fl ps i a dst srcva len :
  world s fl ps → ps !! i = Some a → 0 ≤ srcva → 0 ≤ len → 0 ≤ dst → dst + len < 2 ^ 64 →
  (∀ k, 0 ≤ k < len → quiet s fl ps (dst + k)) →
  wp (copyin (as_root a) dst srcva len) (λ r s', copyin_post s fl ps a dst srcva len r s' ∧ only_mem s s') s.
Proof.
  intros. apply wp_upholds; [apply copyin_loop_only|]. eapply wp_copyin_loop; [done..|]. dlia.
Qed.

(** C36: [copyin] returns 0 with the [len] bytes the process has at [srcva]
    copied to kernel memory, or returns -1 at the first address the process
    cannot read, with the bytes before it copied; it changes no other
    memory. *)
Theorem copyin_spec s fl ps i a dst srcva len :
  world s fl ps → ps !! i = Some a → 0 ≤ srcva → 0 ≤ len → 0 ≤ dst → dst + len < 2 ^ 64 →
  (∀ k, 0 ≤ k < len → quiet s fl ps (dst + k)) →
  wp (copyin (as_root a) dst srcva len) (copyin_post s fl ps a dst srcva len) s.
Proof. intros. eapply wp_mono; [by eapply wp_copyin|]. by intros r s' [? _]. Qed.
End usermem.
