(* ===== verification/Demo.v ===== *)
(** * A small concrete machine

    A kernel image that leaves 64 pages to the allocator, a parent process
    with one page of user memory behind a three-level page table, and a child
    with an empty table, with two free pages, with none and with twenty-four.
    The theorems about page tables and copy-on-write memory are run on it. *)

From S2P Require Import Prelude Mem Cstring Riscv Spinlock Kalloc Vm Uvm Cow Usermem.

Local Open Scope Z_scope.

#[local] Existing Instance small_image.

(** The pages: the parent's three table pages, its page of user memory and
    the child's root. *)
Definition pA2 : Z := 0x87fc0000.
Definition pA1 : Z := 0x87fc1000.
Definition pA0 : Z := 0x87fc2000.
Definition pU : Z := 0x87fc3000.
Definition pB2 : Z := 0x87fc4000.

Lemma demo_page_ok p : p mod 4096 = 0 → 0x87fc0000 ≤ p < 0x88000000 → page_ok p.
Proof. intros Ha Hr. split; [done|]. by change kend with 0x87fc0000. Qed.

Ltac demo_ok := apply demo_page_ok; vm_compute; by repeat split.

(** A machine with every page in use. *)
Definition none_free : kst := mk_kst ∅ 0 (list_to_map ((λ i, (i, 1)) <$> seqZ 0x87fc0 64)) ∅.

Lemma none_free_count i :
  count none_free i = if decide (0x87fc0 ≤ i < 0x88000) then 1 else 0.
Proof.
  rewrite /count /pgref /none_free. case_decide as Hi.
  - rewrite (elem_of_list_to_map_1 _ i 1); [done| |].
    + rewrite -list_fmap_compose. apply NoDup_fmap_2_strong; [done|apply NoDup_seqZ].
    + apply list_elem_of_fmap. exists i. split; [done|]. apply elem_of_seqZ. lia.
  - rewrite not_elem_of_list_to_map_1; [done|]. rewrite -list_fmap_compose list_elem_of_fmap.
    intros (j & -> & Hj%elem_of_seqZ). simpl in *. lia.
Qed.

Lemma none_free_kinv : kinv none_free [].
Proof.
  split; [done|constructor|constructor|..].
  - intros p [Ha Hr]. change kend with 0x87fc0000 in Hr. rewrite /ref none_free_count.
    rewrite decide_True; [|dlia]. split; [by intros ?%elem_of_nil|done].
  - intros i Hi. rewrite none_free_count decide_False //. intros Hr. apply Hi, demo_page_ok; dlia.
  - intros i. rewrite none_free_count. case_decide; lia.
Qed.

(** ** The processes on top of an allocator state *)

Section demo.
Context (s0 : kst) (fl : list Z).

Class demo_base : Prop := {
  db_inv : kinv s0 fl;
  db_lock : unlocked s0;
  db_zero : ∀ a, 0x87fc0000 ≤ a < 0x87fc5000 → ld8 (mem s0) a = 0;
  db_ref : ∀ p, p ∈ [pA2; pA1; pA0; pU; pB2] → ref s0 p = 1;
}.

Context `{Hbase : demo_base}.
(** The entry of the page of user memory. *)
Context (v : Z).

Definition demo_m1 : gmap Z Z := st64 (mem s0) (pte_ptr pA2 0) (Z.lor (PA2PTE pA1) PTE_V).
Definition demo_m2 : gmap Z Z := st64 demo_m1 (pte_ptr pA1 0) (Z.lor (PA2PTE pA0) PTE_V).
Definition demo_m3 : gmap Z Z := st64 demo_m2 (pte_ptr pA0 0) v.
Definition demo : kst := set_mem demo_m3 s0.
Definition TA : gmap (list Z) Z := <[[0; 0] := pA0]> (<[[0] := pA1]> {[ [] := pA2 ]}).
Definition TB : gmap (list Z) Z := {[ [] := pB2 ]}.
Definition demo_parent : aspace := mk_as pA2 TA 1.
Definition demo_child : aspace := mk_as pB2 TB 0.
Definition demo_ps : list aspace := [demo_parent; demo_child].

Lemma demo_zero p a : p ∈ [pA2; pA1; pA0; pU; pB2] → in_page p a → ld8 (mem s0) a = 0.
Proof.
  intros Hp Ha. apply db_zero. unfold span in Ha. repeat apply elem_of_cons in Hp as [->|Hp];
    [unfold pA2, pA1, pA0, pU, pB2 in Ha; lia..|by apply elem_of_nil in Hp].
Qed.

(** An entry written in page [p] leaves the other pages as they were. *)
Lemma st_outside m p w a : ¬ in_page p a → ld8 (st64 m (pte_ptr p 0) w) a = ld8 m a.
Proof.
  intros Ha. apply (mem_eq_on_st64 m (pte_ptr p 0) w (λ b, ¬ in_page p b)); [|done].
  intros b Hb Hs. apply Hb. by eapply pte_ptr_in_page; [|exact Hs].
Qed.

Ltac demo_unfold := unfold span, pA2, pA1, pA0, pU, pB2 in *.

Lemma demo_m1_zero a : 0x87fc1000 ≤ a < 0x87fc5000 → ld8 demo_m1 a = 0.
Proof. intros Ha. rewrite /demo_m1 st_outside; [apply db_zero; lia|demo_unfold; lia]. Qed.

Lemma demo_m2_zero a : 0x87fc2000 ≤ a < 0x87fc5000 → ld8 demo_m2 a = 0.
Proof. intros Ha. rewrite /demo_m2 st_outside; [apply demo_m1_zero; lia|demo_unfold; lia]. Qed.

Lemma TA1_wf : pt_wf demo_m1 pA2 (<[[0] := pA1]> {[ [] := pA2 ]}).
Proof.
  apply (pt_wf_extend (mem s0) pA2 {[ [] := pA2 ]} [] pA2 0 pA1); try done; try demo_ok; try (simpl; lia).
  - apply empty_table_wf; [demo_ok|]. intros a Ha. apply (demo_zero pA2); [set_solver|done].
  - intros π [_ E]%lookup_singleton_Some. done.
  - intros a Ha. apply (demo_zero pA1); [set_solver|done].
Qed.

Lemma TA2_wf : pt_wf demo_m2 pA2 TA.
Proof.
  apply (pt_wf_extend demo_m1 pA2 _ [0] pA1 0 pA0); try done; try demo_ok; try (simpl; lia).
  - apply TA1_wf.
  - intros π [[_ E]|[_ [_ E]%lookup_singleton_Some]]%lookup_insert_Some; done.
  - intros a Ha. apply demo_m1_zero. demo_unfold. lia.
Qed.

Lemma TA_wf : pt_wf demo_m3 pA2 TA.
Proof. apply (pt_wf_set_pte _ _ _ 0); [apply TA2_wf|done]. Qed.

Lemma TB_wf : pt_wf demo_m3 pB2 TB.
Proof.
  apply empty_table_wf; [demo_ok|]. intros a Ha. rewrite /demo_m3 st_outside; [|demo_unfold; lia].
  apply demo_m2_zero. demo_unfold. lia.
Qed.

(** The parent maps page 0 only; the child maps nothing. *)
Lemma demo_pte va : legal va → pte_of demo_m3 TA va = if decide (va / PGSIZE = 0) then u64 v else 0.
Proof.
  intros Hva. rewrite /demo_m3 (pte_of_set_pte _ pA2 TA 0); [|apply TA2_wf|done|done|done].
  change (0 / PGSIZE) with 0. case_decide; [done|].
  rewrite /demo_m2 (pte_of_extend demo_m1 pA2 (<[[0] := pA1]> {[ [] := pA2 ]}) [0] pA1 0 pA0);
    try done; try demo_ok; try (simpl; lia).
  2: apply TA1_wf.
  2: intros π [[_ E]|[_ [_ E]%lookup_singleton_Some]]%lookup_insert_Some; done.
  2: intros a Ha; apply demo_m1_zero; demo_unfold; lia.
  rewrite /pte_of /pte_addr lookup_insert_ne // lookup_singleton_ne //.
Qed.

Lemma demo_child_pte m va : pte_of m TB va = 0.
Proof. by rewrite /pte_of /pte_addr lookup_singleton_ne. Qed.

Lemma TA_inv π p : TA !! π = Some p → p = pA2 ∨ p = pA1 ∨ p = pA0.
Proof.
  rewrite /TA.
  intros [[_ <-]|[_ [[_ <-]|[_ [_ <-]%lookup_singleton_Some]]%lookup_insert_Some]]%lookup_insert_Some; auto.
Qed.

Lemma TB_inv π p : TB !! π = Some p → p = pB2.
Proof. rewrite /TB. by intros [_ <-]%lookup_singleton_Some. Qed.

Lemma demo_free p : p ∈ [pA2; pA1; pA0; pU; pB2] → p ∉ fl.
Proof.
  intros Hp Hf. pose proof (db_ref p Hp) as Hr. apply (ki_ref _ _ db_inv) in Hf; [lia|].
  repeat apply elem_of_cons in Hp as [->|Hp]; [demo_ok..|by apply elem_of_nil in Hp].
Qed.

Lemma demo_kinv : kinv demo fl.
Proof.
  destruct db_inv as [Hc Hn Ho Hr Hout Hb]. split; try done.
  eapply chain_ext; [done| |exact Hc]. intros p Hp a Ha.
  assert (p ∉ [pA2; pA1; pA0; pU; pB2]) as Hne by (intros ?; by apply (demo_free p)).
  rewrite Forall_forall in Ho. specialize (Ho p Hp).
  assert (∀ q, page_ok q → q ∈ [pA2; pA1; pA0; pU; pB2] → ¬ in_page q a) as Hd.
  { intros q Hq Hin Hqa. apply Hne. by rewrite (pages_disjoint p q a Ho Hq Ha Hqa). }
  rewrite /demo /demo_m3 /demo_m2 /demo_m1 /=.
  rewrite !st_outside; [done|apply Hd; [demo_ok|set_solver]..].
Qed.

Lemma demo_vm_ok : vm_ok demo fl pA2 TA.
Proof.
  split; [apply demo_kinv|apply db_lock|]. split; [apply TA_wf|].
  intros π p Hp. apply demo_free. apply TA_inv in Hp as [->|[->| ->]]; set_solver.
Qed.

(** ** The processes share memory copy-on-write *)

Context (Hv : user_pte v) (Hpa : PTE2PA v = pU).

Lemma demo_u64 : u64 v = v.
Proof. destruct Hv as (_ & Hc & _). unfold canonical in Hc. apply Z.mod_small. lia. Qed.

Lemma demo_upte va : in_as demo_parent va → upte demo demo_parent va = v.
Proof.
  intros Ha. unfold in_as, span in Ha. simpl in Ha. rewrite /upte /= demo_pte; [|unfold legal; lia].
  rewrite decide_True ?demo_u64 //. dlia.
Qed.

Lemma demo_all_pages : all_pages demo demo_ps = [pU].
Proof.
  rewrite /all_pages /demo_ps /= /as_pages /= demo_upte; [|by vm_compute]. by rewrite Hpa.
Qed.

Lemma demo_ps_inv i a : demo_ps !! i = Some a → (i = 0%nat ∧ a = demo_parent) ∨ (i = 1%nat ∧ a = demo_child).
Proof. destruct i as [|[|i]]; simpl; intros [= <-]; auto. Qed.

Lemma demo_child_empty va : ¬ in_as demo_child va.
Proof. unfold in_as, span. simpl. lia. Qed.

Lemma demo_world : world demo fl demo_ps.
Proof.
  split.
  - apply demo_kinv.
  - apply db_lock.
  - intros i a [[-> ->]|[-> ->]]%demo_ps_inv; [apply demo_vm_ok|]. split; [apply TB_wf|].
    intros π p ->%TB_inv. apply demo_free. set_solver.
  - intros i j a b π π' p [[-> ->]|[-> ->]]%demo_ps_inv [[-> ->]|[-> ->]]%demo_ps_inv Hij;
      try done; simpl; intros H1 H2.
    + apply TA_inv in H1. apply TB_inv in H2. subst. by destruct H1 as [|[|]].
    + apply TA_inv in H2. apply TB_inv in H1. subst. by destruct H2 as [|[|]].
  - intros i a [[-> ->]|[-> ->]]%demo_ps_inv; by vm_compute.
  - intros i a va [[-> ->]|[-> ->]]%demo_ps_inv Ha; [by rewrite demo_upte|by apply demo_child_empty in Ha].
  - intros i a va [[-> ->]|[-> ->]]%demo_ps_inv Hl Ha; rewrite /upte /=.
    + rewrite demo_pte // decide_False //. intros E. apply Ha.
      unfold in_as, span, legal in *. simpl. dlia.
    + by rewrite demo_child_pte.
  - intros i a p π [[-> ->]|[-> ->]]%demo_ps_inv; rewrite demo_all_pages list_elem_of_singleton => ->.
    + intros H. apply TA_inv in H. by destruct H as [|[|]].
    + intros H. by apply TB_inv in H.
  - intros p. rewrite demo_all_pages list_elem_of_singleton => ->.
    rewrite (_ : ref demo pU = 1); [by vm_compute|]. apply db_ref. set_solver.
  - intros i a va [[-> ->]|[-> ->]]%demo_ps_inv Ha _; [|by apply demo_child_empty in Ha].
    by rewrite demo_all_pages demo_upte // Hpa.
  - intros i a π p [[-> ->]|[-> ->]]%demo_ps_inv Hp; apply db_ref.
    + apply TA_inv in Hp as [->|[->| ->]]; set_solver.
    + apply TB_inv in Hp as ->. set_solver.
Qed.
End demo.

(** ** Two free pages, and none *)

#[local] Instance two_free_base : demo_base two_free [0x87ffe000; 0x87fff000].
Proof.
  destruct two_free_refines as [Hk Hl _]. split; [exact Hk|exact Hl| |].
  - intros a Ha. change (mem two_free) with (st64 ∅ 0x87ffe000 0x87fff000).
    change 0 with (ld8 ∅ a).
    apply (mem_eq_on_st64 ∅ 0x87ffe000 0x87fff000 (λ b, b < 0x87fc5000)); [unfold span|]; lia.
  - intros p Hp. repeat apply elem_of_cons in Hp as [->|Hp]; [by vm_compute..|by apply elem_of_nil in Hp].
Qed.

#[local] Instance none_free_base : demo_base none_free [].
Proof.
  split; [apply none_free_kinv| |done|].
  - rewrite /unlocked. change (held none_free) with (∅ : gset lockid). set_solver.
  - intros p Hp. repeat apply elem_of_cons in Hp as [->|Hp]; [by vm_compute..|by apply elem_of_nil in Hp].
Qed.

(** The page of user memory mapped writable, and copy-on-write. *)
Definition pte_w : Z := Z.lor (PA2PTE pU) (Z.lor (Z.lor PTE_R PTE_W) (Z.lor PTE_U PTE_V)).
Definition pte_cow : Z := Z.lor (PA2PTE pU) (Z.lor (Z.lor PTE_R PTE_COW) (Z.lor PTE_U PTE_V)).

Lemma pte_w_user : user_pte pte_w.
Proof. split_and!; [by split|by vm_compute|demo_ok]. Qed.
Lemma pte_cow_user : user_pte pte_cow.
Proof. split_and!; [by split|by vm_compute|demo_ok]. Qed.

Abbreviation fl2 := [0x87ffe000; 0x87fff000].
Abbreviation run_w := (demo two_free pte_w).
Abbreviation run_cow := (demo two_free pte_cow).

Lemma run_w_world : world run_w fl2 demo_ps.
Proof. exact (demo_world two_free fl2 pte_w pte_w_user eq_refl). Qed.
Lemma run_cow_world : world run_cow fl2 demo_ps.
Proof. exact (demo_world two_free fl2 pte_cow pte_cow_user eq_refl). Qed.
Lemma full_cow_world : world (demo none_free pte_cow) [] demo_ps.
Proof. exact (demo_world none_free [] pte_cow pte_cow_user eq_refl). Qed.

Lemma run_w_pte va : legal va → PGSIZE ≤ va → pte_of (mem run_w) TA va = 0.
Proof.
  intros Hl Hva. rewrite (demo_pte two_free fl2 pte_w va Hl). rewrite decide_False //. dlia.
Qed.

Lemma run_w_low x : x < 0x87fc0000 → quiet run_w fl2 demo_ps x.
Proof.
  intros Hx. split_and!.
  - intros (p & Hp & Ha). unfold span in Ha.
    repeat apply elem_of_cons in Hp as [->|Hp]; [lia..|by apply elem_of_nil in Hp].
  - rewrite (demo_all_pages two_free fl2 pte_w pte_w_user eq_refl).
    intros (p & ->%list_elem_of_singleton & Ha). unfold span, pU in Ha. lia.
  - intros i a [[_ ->]|[_ ->]]%demo_ps_inv (π & p & Hp & Ha); unfold span in Ha.
    + apply TA_inv in Hp as [->|[->| ->]]; unfold pA2, pA1, pA0 in Ha; lia.
    + apply TB_inv in Hp as ->. unfold pB2 in Ha. lia.
Qed.

Lemma run_w_quiet k : 0 ≤ k < 8 → quiet run_w fl2 demo_ps (0x80010000 + k).
Proof. intros Hk. apply run_w_low. lia. Qed.

Lemma run_w_room : room 1 run_w.
Proof.
  intros p Hp. rewrite /ref (_ : count run_w (p / PGSIZE) = count two_free (p / PGSIZE)) // two_free_count.
  case_decide; lia.
Qed.

(** ** Twenty-four free pages *)

Definition pages24 : list Z := (λ i, 0x87fe8000 + i * 4096) <$> seqZ 0 24.
Definition many_free : kst := foldr freed none_free pages24.

Lemma freed_list_facts l :
  NoDup l → (∀ p, p ∈ l → page_ok p) → let s := foldr freed none_free l in
  kinv s l ∧ held s = ∅ ∧ (∀ q, page_ok q → ref s q = if decide (q ∈ l) then 0 else 1) ∧
  (∀ x, (∀ p, p ∈ l → ¬ in_page p x) → ld8 (mem s) x = 0).
Proof.
  induction l as [|p l IH]; intros Hnd Hok s.
  - split_and!; [apply none_free_kinv|done| |done]. intros q Hq. case_decide as Hd; [by apply elem_of_nil in Hd|].
    destruct Hq as [Ha Hr]. change kend with 0x87fc0000 in Hr. rewrite /s /= /ref none_free_count. case_decide; [done|dlia].
  - apply NoDup_cons in Hnd as [Hp Hnd]. destruct IH as (Hk & Hh & Hr & Hz); [done|intros q Hq; apply Hok, elem_of_cons; by right|].
    assert (page_ok p) as Hpo by (apply Hok, elem_of_cons; by left). split_and!.
    + by apply kinv_freed.
    + done.
    + intros q Hq. rewrite /s /= freed_ref // Hr //. repeat case_decide; set_solver.
    + intros x Hx. rewrite /s /= freed_mem; [|apply Hx, elem_of_cons; by left]. apply Hz. intros q Hq. apply Hx, elem_of_cons. by right.
Qed.

Lemma pages24_ok p : p ∈ pages24 → 0x87fe8000 ≤ p < 0x88000000 ∧ page_ok p.
Proof.
  intros (i & -> & Hi%elem_of_seqZ)%list_elem_of_fmap. split; [lia|]. apply demo_page_ok; dlia.
Qed.

Lemma many_free_facts :
  kinv many_free pages24 ∧ held many_free = ∅ ∧
  (∀ q, page_ok q → ref many_free q = if decide (q ∈ pages24) then 0 else 1) ∧
  (∀ x, (∀ p, p ∈ pages24 → ¬ in_page p x) → ld8 (mem many_free) x = 0).
Proof.
  apply freed_list_facts; [|intros p Hp; by apply pages24_ok].
  apply NoDup_fmap_2_strong; [intros i j _ _ E; lia|apply NoDup_seqZ].
Qed.

#[local] Instance many_free_base : demo_base many_free pages24.
Proof.
  destruct many_free_facts as (Hk & Hh & Hr & Hz). split; [done| | |].
  - rewrite /unlocked Hh. set_solver.
  - intros a Ha. apply Hz. intros p [Hp _]%pages24_ok. unfold span. lia.
  - intros p Hp. assert (page_ok p ∧ p < 0x87fe8000) as [Hpo Hlt].
    { repeat apply elem_of_cons in Hp as [->|Hp]; [split; [demo_ok|by vm_compute]..|by apply elem_of_nil in Hp]. }
    rewrite Hr // decide_False //. intros [? _]%pages24_ok. lia.
Qed.

Definition run_many : kst := demo many_free pte_w.

Lemma run_many_world : world run_many pages24 demo_ps.
Proof. exact (demo_world many_free pages24 pte_w pte_w_user eq_refl). Qed.

Lemma demo_ref s0 v p : ref (demo s0 v) p = ref s0 p.
Proof. done. Qed.

Lemma run_many_room : room 2 run_many.
Proof.
  intros p Hp. destruct many_free_facts as (_ & _ & Hr & _). rewrite /run_many demo_ref Hr; [|exact Hp].
  case_decide; lia.
Qed.

Lemma run_many_pages : first_pages run_many demo_parent 1 = [pU].
Proof. by vm_compute. Qed.


(** ** The theorems at work *)

(** The parent grows from one page to two. *)
Lemma uvmalloc_witness :
  wp (uvmalloc pA2 PGSIZE (2 * PGSIZE) PTE_W)
    (alloc_post (2 * PGSIZE) (dealloc_pages (2 * PGSIZE) PGSIZE) run_w TA fl2 pA2
       (PGROUNDUP PGSIZE) (Z.lor (Z.lor PTE_R PTE_U) PTE_W)) run_w.
Proof.
  apply (uvmalloc_spec pA2 PGSIZE (2 * PGSIZE) PTE_W run_w fl2 TA); [apply demo_vm_ok, _|by vm_compute..|].
  intros va Hva. change (PGROUNDUP PGSIZE) with 4096 in Hva.
    change (PGROUNDUP (2 * PGSIZE)) with 8192 in Hva. apply run_w_pte; [unfold legal|]; lia.
Defined.

(** The parent forks: its page has two references. *)
Lemma uvmcopy_witness :
  wp (uvmcopy pA2 pB2 PGSIZE) (λ r s', r = 0 ∧ ref s' pU = 2 ∧
    uvmcopy_post run_many pages24 demo_ps 1 demo_parent pB2 TB 1 r s') run_many.
Proof.
  eapply wp_mono; [apply (uvmcopy_spec run_many pages24 demo_ps 0 1 demo_parent pB2 TB PGSIZE)|].
  - exact run_many_world.
  - done.
  - done.
  - done.
  - by vm_compute.
  - intros p Hp. change (Z.to_nat _) with 1%nat. pose proof (run_many_room p Hp). lia.
  - intros va _. apply demo_child_pte.
  - intros r s' Hpost. change (Z.to_nat _) with 1%nat in Hpost. pose proof Hpost as (T' & fl' & _ & _ & _ & _ & [(-> & _ & Hr & _)|(_ & Hl & _)]).
    + split_and!; [done| |exact Hpost]. rewrite (Hr pU); [|demo_ok|by apply (demo_free many_free pages24); set_solver].
      rewrite (_ : first_pages run_many demo_parent 1 = [pU]); [|exact run_many_pages].
      rewrite /run_many demo_ref (db_ref many_free pages24); [done|set_solver].
    + exfalso. change (length pages24) with 24%nat in Hl. lia.
Defined.

(** The parent stores to a copy-on-write page. *)
Lemma CowHandler_witness :
  wp (CowHandler pA2 16) (λ r s',
    (r = 0 ∧ ∃ fl', world s' fl' demo_ps ∧ same_view run_cow demo_ps s' demo_ps ∧
       made_writable run_cow demo_parent 16 s') ∨
    (r = -2 ∧ s' = run_cow ∧ fl2 = [])) run_cow.
Proof.
  exact (CowHandler_spec run_cow fl2 demo_ps 0 demo_parent 16 run_cow_world eq_refl
           ltac:(by vm_compute)).
Defined.

Lemma CowHandler_sole_owner_witness :
  CowHandler pA2 16 (demo none_free pte_cow) = Ret (-2, demo none_free pte_cow).
Proof.
  apply (CowHandler_sole_owner_fails (demo none_free pte_cow) demo_ps 0 demo_parent 16);
    [exact full_cow_world|done|by vm_compute..].
Defined.

Lemma CowHandler_maxva_witness : CowHandler pA2 MAXVA run_w = Panic "walk".
Proof. apply CowHandler_maxva_panics. by vm_compute. Defined.


Lemma copyout_witness :
  wp (copyout pA2 pA2 100 0x80010000 8)
    (copyout_post run_w demo_ps 0 demo_parent 100 0x80010000 8) run_w.
Proof.
  apply (copyout_spec run_w fl2 demo_ps 0 demo_parent 100 0x80010000 8);
    [exact run_w_world|done|by vm_compute..|apply run_w_quiet].
Defined.

Lemma copyin_witness :
  wp (copyin pA2 0x80010000 100 8) (copyin_post run_w fl2 demo_ps demo_parent 0x80010000 100 8) run_w.
Proof.
  apply (copyin_spec run_w fl2 demo_ps 0 demo_parent 0x80010000 100 8);
    [exact run_w_world|done|by vm_compute..|apply run_w_quiet].
Defined.

(** Eight free pages in a row, and no other page. *)
Definition eight_free : kst :=
  mk_kst (foldr (λ i m, st64 m (0x87ff8000 + i * 4096) (0x87ff8000 + (i + 1) * 4096)) ∅ (seqZ 0 7)) 0x87ff8000 ∅ ∅.
