(* ===== verification/Sleeplock.v ===== *)
(** * Sleep locks (kernel/sleeplock.c)

    A sleep lock as the process that runs sees it: the wait loop of
    [acquiresleep] returns only once the lock is free, so a process that finds
    the lock taken, with no other process to run, waits forever; the model
    gives that run the outcome [Fuel].  The lock's own spin lock and the
    wake-up of other processes have no effect on the state of one process. *)

From S2P Require Import Prelude.

Local Open Scope Z_scope.

Record sleeplock := mk_sleeplock { locked : bool; lk_pid : Z }.

#[global] Instance sleeplock_eq_dec : EqDecision sleeplock.
Proof. solve_decision. Defined.

Definition initsleeplock : sleeplock := mk_sleeplock false 0.

(** A state with sleep locks named by [L] and a running process. *)
Class HasSleep (L S : Type) := {
  get_sleep : L → S → sleeplock;
  set_sleep : L → sleeplock → S → S;
  my_pid : S → Z;
}.

Section sleeplock.
Context {L S : Type} {HS : HasSleep L S}.

Definition acquiresleep (l : L) : M S unit := λ s,
  if locked (get_sleep l s) then Fuel
  else Ret (tt, set_sleep l (mk_sleeplock true (my_pid s)) s).

Definition releasesleep (l : L) : M S unit :=
  modify (λ s, set_sleep l (mk_sleeplock false 0) s).

Definition holdingsleep (l : L) : M S bool :=
  gets (λ s, locked (get_sleep l s) && (lk_pid (get_sleep l s) =? my_pid s)).

Lemma wp_acquiresleep l (Q : unit → S → Prop) s :
  locked (get_sleep l s) = false →
  Q tt (set_sleep l (mk_sleeplock true (my_pid s)) s) → wp (acquiresleep l) Q s.
Proof. intros Hl HQ. by rewrite /wp /acquiresleep Hl. Qed.

Lemma wp_releasesleep l (Q : unit → S → Prop) s :
  Q tt (set_sleep l (mk_sleeplock false 0) s) → wp (releasesleep l) Q s.
Proof. done. Qed.

Lemma wp_holdingsleep l (Q : bool → S → Prop) s :
  Q (locked (get_sleep l s) && (lk_pid (get_sleep l s) =? my_pid s)) s → wp (holdingsleep l) Q s.
Proof. done. Qed.
End sleeplock.
