(* ===== verification/Bio.v ===== *)
(** * The buffer cache (kernel/bio.c)

    The state of the file system code ([fsst]) and the buffer cache on it.
    The cache's buffers are numbered 0 to [NBUF] - 1, and [bhead] is [NBUF]; a
    buffer's [prev] and [next] are such numbers, so the LRU list is the linked
    ring of the code.  Section [ring] relates the ring to a list; Module
    [BufSpec] says what the cache promises, and [bio_refines] that it keeps
    the promise.

    The disk is a map from block numbers to block contents; [disk_rw] is the
    effect of [virtio_disk_rw] on the buffer and the disk, and every write is
    also recorded in [wtrace], newest first, for the theorems about crashes. *)

From S2P Require Import Prelude Mem Cstring Spinlock Sleeplock.
From stdpp Require Import functions list.

Local Open Scope Z_scope.

Notation NBUF := 30.
Notation BSIZE := 1024.
Notation NINODE := 50.
Notation LOGSIZE := 30.
Notation MAXOPBLOCKS := 10.
Notation NDIRECT := 12.
Notation NINDIRECT := 256.

(** The contents of a block: its bytes, at offsets 0 to [BSIZE] - 1. *)
Definition block : Type := gmap Z Z.

(** [struct buf] *)
Record buf := mk_buf {
  valid : bool;
  dev : Z;
  blockno : Z;
  block_lock : sleeplock;
  refcnt : Z;
  prev : Z;
  next : Z;
  data : block;
}.

(** [struct log], with [lh] unfolded. *)
Record log := mk_log {
  lstart : Z;
  lsize : Z;
  outstanding : Z;
  committing : bool;
  ldev : Z;
  lh_n : Z;
  lh_block : gmap Z Z;
}.

(** [struct superblock] *)
Record superblock := mk_sb {
  sb_magic : Z; sb_size : Z; sb_nblocks : Z; sb_ninodes : Z;
  sb_nlog : Z; sb_logstart : Z; sb_inodestart : Z; sb_bmapstart : Z;
}.

(** [struct inode] *)
Record inode := mk_inode {
  i_dev : Z;
  i_inum : Z;
  i_ref : Z;
  i_lock : sleeplock;
  i_valid : bool;
  i_type : Z;
  i_major : Z;
  i_minor : Z;
  i_nlink : Z;
  i_size : Z;
  i_addrs : gmap Z Z;
}.

(** The state of the file system code: the disk, the buffer cache, the log,
    the superblock, the inode table, the spin locks held, and the process
    that runs. *)
Record fsst := mk_fsst {
  disk : gmap Z block;
  wtrace : list (Z * block);
  bufs : Z → buf;
  lg : log;
  sb : superblock;
  inodes : Z → inode;
  fheld : gset lockid;
  fpid : Z;
}.

Definition set_disk d t (s : fsst) := mk_fsst d t (bufs s) (lg s) (sb s) (inodes s) (fheld s) (fpid s).
Definition set_bufs b (s : fsst) := mk_fsst (disk s) (wtrace s) b (lg s) (sb s) (inodes s) (fheld s) (fpid s).
Definition set_lg l (s : fsst) := mk_fsst (disk s) (wtrace s) (bufs s) l (sb s) (inodes s) (fheld s) (fpid s).
Definition set_sb b (s : fsst) := mk_fsst (disk s) (wtrace s) (bufs s) (lg s) b (inodes s) (fheld s) (fpid s).
Definition set_inodes i (s : fsst) := mk_fsst (disk s) (wtrace s) (bufs s) (lg s) (sb s) i (fheld s) (fpid s).
Definition set_fheld h (s : fsst) := mk_fsst (disk s) (wtrace s) (bufs s) (lg s) (sb s) (inodes s) h (fpid s).

#[global, refine] Instance fsst_locks : HasLocks fsst := {|
  held := fheld;
  set_held := set_fheld;
|}.
Proof. all: by intros; try destruct s. Defined.

(** The sleep locks of buffers and inodes. *)
Inductive fslock := BUF (i : Z) | INODE (i : Z).

Definition set_buf (i : Z) (b : buf) (s : fsst) : fsst := set_bufs (<[i := b]> (bufs s)) s.
Definition set_inode (i : Z) (ip : inode) (s : fsst) : fsst := set_inodes (<[i := ip]> (inodes s)) s.

Definition with_lock (l : sleeplock) (b : buf) : buf :=
  mk_buf (valid b) (dev b) (blockno b) l (refcnt b) (prev b) (next b) (data b).
Definition with_refcnt (n : Z) (b : buf) : buf :=
  mk_buf (valid b) (dev b) (blockno b) (block_lock b) n (prev b) (next b) (data b).
Definition with_prev (p : Z) (b : buf) : buf :=
  mk_buf (valid b) (dev b) (blockno b) (block_lock b) (refcnt b) p (next b) (data b).
Definition with_next (p : Z) (b : buf) : buf :=
  mk_buf (valid b) (dev b) (blockno b) (block_lock b) (refcnt b) (prev b) p (data b).
Definition with_data (d : block) (b : buf) : buf :=
  mk_buf (valid b) (dev b) (blockno b) (block_lock b) (refcnt b) (prev b) (next b) d.
Definition with_valid (v : bool) (b : buf) : buf :=
  mk_buf v (dev b) (blockno b) (block_lock b) (refcnt b) (prev b) (next b) (data b).
Definition recycled (d n : Z) (b : buf) : buf :=
  mk_buf false d n (block_lock b) 1 (prev b) (next b) (data b).
Definition with_ilock (l : sleeplock) (ip : inode) : inode :=
  mk_inode (i_dev ip) (i_inum ip) (i_ref ip) l (i_valid ip) (i_type ip) (i_major ip) (i_minor ip)
    (i_nlink ip) (i_size ip) (i_addrs ip).

#[global] Instance fs_sleep : HasSleep fslock fsst := {|
  get_sleep l s := match l with BUF i => block_lock (bufs s i) | INODE i => i_lock (inodes s i) end;
  set_sleep l v s :=
    match l with
    | BUF i => set_buf i (with_lock v (bufs s i)) s
    | INODE i => set_inode i (with_ilock v (inodes s i)) s
    end;
  my_pid := fpid;
|}.

Definition buf_at (i : Z) : M fsst buf := gets (λ s, bufs s i).
Definition upd_buf (i : Z) (f : buf → buf) : M fsst unit := modify (λ s, set_buf i (f (bufs s i)) s).

(** [&bcache.head] *)
Notation bhead := NBUF.

(** The body of the loop of [binit] for buffer [b]. *)
Definition binit_one (b : Z) : M fsst unit :=
  h ← buf_at bhead;
  upd_buf b (with_next (next h));;
  upd_buf b (with_prev bhead);;
  upd_buf b (with_lock initsleeplock);;
  h ← buf_at bhead;
  upd_buf (next h) (with_prev b);;
  upd_buf bhead (with_next b).

Fixpoint binit_loop (n : nat) (b : Z) : M fsst unit :=
  match n with
  | O => mret tt
  | S n' => binit_one b;; binit_loop n' (b + 1)
  end.

Definition binit : M fsst unit :=
  modify (λ s, set_held (held s ∖ {[BCACHE]}) s);;
  upd_buf bhead (with_prev bhead);;
  upd_buf bhead (with_next bhead);;
  binit_loop (Z.to_nat NBUF) 0.

(** [for(b = bcache.head.next; b != &bcache.head; b = b->next)] *)
Fixpoint find_cached (fuel : nat) (b d n : Z) : M fsst (option Z) :=
  match fuel with
  | O => out_of_fuel
  | S fuel' =>
      if b =? bhead then mret None
      else
        x ← buf_at b;
        if (dev x =? d) && (blockno x =? n) then mret (Some b)
        else find_cached fuel' (next x) d n
  end.

(** [for(b = bcache.head.prev; b != &bcache.head; b = b->prev)] *)
Fixpoint find_unused (fuel : nat) (b : Z) : M fsst (option Z) :=
  match fuel with
  | O => out_of_fuel
  | S fuel' =>
      if b =? bhead then mret None
      else
        x ← buf_at b;
        if refcnt x =? 0 then mret (Some b) else find_unused fuel' (prev x)
  end.

(** The ring has [NBUF] buffers, so [NBUF] + 1 rounds visit all of it. *)
Notation ring_fuel := 31%nat.

Definition bget (d n : Z) : M fsst Z :=
  acquire BCACHE;;
  h ← buf_at bhead;
  r ← find_cached ring_fuel (next h) d n;
  match r with
  | Some b =>
      upd_buf b (λ x, with_refcnt (u32 (refcnt x + 1)) x);;
      release BCACHE;;
      acquiresleep (BUF b);;
      mret b
  | None =>
      h ← buf_at bhead;
      r ← find_unused ring_fuel (prev h);
      match r with
      | Some b =>
          upd_buf b (recycled d n);;
          release BCACHE;;
          acquiresleep (BUF b);;
          mret b
      | None => panic "bget: no buffers"
      end
  end.

(** The transfer [virtio_disk_rw] makes between a buffer and the disk. *)
Definition disk_rw (b : Z) (write : bool) : M fsst unit :=
  x ← buf_at b;
  if write then modify (λ s, set_disk (<[blockno x := data x]> (disk s)) ((blockno x, data x) :: wtrace s) s)
  else s ← gets (λ s, default ∅ (disk s !! blockno x)); upd_buf b (with_data s).

Definition bread (d n : Z) : M fsst Z :=
  b ← bget d n;
  x ← buf_at b;
  (if negb (valid x) then disk_rw b false;; upd_buf b (with_valid true) else mret tt);;
  mret b.

Definition bwrite (b : Z) : M fsst unit :=
  h ← holdingsleep (BUF b);
  if negb h then panic "bwrite" else disk_rw b true.

Definition brelse (b : Z) : M fsst unit :=
  h ← holdingsleep (BUF b);
  if negb h then panic "brelse"
  else
    releasesleep (BUF b);;
    acquire BCACHE;;
    upd_buf b (λ x, with_refcnt (u32 (refcnt x - 1)) x);;
    x ← buf_at b;
    (if refcnt x =? 0 then
       x ← buf_at b;
       upd_buf (next x) (with_prev (prev x));;
       x ← buf_at b;
       upd_buf (prev x) (with_next (next x));;
       h ← buf_at bhead;
       upd_buf b (with_next (next h));;
       upd_buf b (with_prev bhead);;
       h ← buf_at bhead;
       upd_buf (next h) (with_prev b);;
       upd_buf bhead (with_next b)
     else mret tt);;
    release BCACHE.

Definition bpin (b : Z) : M fsst unit :=
  acquire BCACHE;;
  upd_buf b (λ x, with_refcnt (u32 (refcnt x + 1)) x);;
  release BCACHE.

Definition bunpin (b : Z) : M fsst unit :=
  acquire BCACHE;;
  upd_buf b (λ x, with_refcnt (u32 (refcnt x - 1)) x);;
  release BCACHE.

(** What a client does with a buffer it has locked. *)
Definition get_data (b : Z) : M fsst block := gets (λ s, data (bufs s b)).
Definition put_data (b : Z) (d : block) : M fsst unit := upd_buf b (with_data d).

Notation ROOTDEV := 1.

Lemma fn_insert_dec {A} (f : Z → A) i x j : <[i := x]> f j = if decide (j = i) then x else f j.
Proof. case_decide; [subst; by rewrite fn_lookup_insert|by rewrite fn_lookup_insert_ne]. Qed.

(** ** The ring as a list *)

Section ring.
Implicit Types B : Z → buf.

(** The pointers lead from [x] through [l] to [y] and back. *)
Fixpoint path B (x : Z) (l : list Z) (y : Z) : Prop :=
  match l with
  | [] => next (B x) = y ∧ prev (B y) = x
  | z :: l' => next (B x) = z ∧ prev (B z) = x ∧ path B z l' y
  end.

Lemma path_app B x l1 z l2 y : path B x (l1 ++ z :: l2) y ↔ path B x l1 z ∧ path B z l2 y.
Proof. revert x. induction l1 as [|w l1 IH]; intros x; simpl; [tauto|]. rewrite IH. tauto. Qed.

Lemma path_snoc B x l z y : path B x (l ++ [z]) y ↔ path B x l z ∧ next (B z) = y ∧ prev (B y) = z.
Proof. by rewrite path_app. Qed.

Lemma path_ext B B' x l y :
  (∀ z, z ∈ x :: l → next (B' z) = next (B z)) → (∀ z, z ∈ l ++ [y] → prev (B' z) = prev (B z)) →
  path B x l y → path B' x l y.
Proof.
  revert x. induction l as [|z l IH]; intros x Hn Hp; simpl.
  - rewrite Hn; [|set_solver]. rewrite Hp; [|set_solver]. done.
  - rewrite Hn; [|set_solver]. rewrite (Hp z); [|set_solver]. intros (H1 & H2 & H3).
    split_and!; [done..|]. apply IH; [|set_solver|done]. intros w Hw. apply Hn. set_solver.
Qed.

(** Taking [b] out of the ring, as [brelse] does. *)
Definition unlink B (b : Z) : Z → buf :=
  let B1 := <[next (B b) := with_prev (prev (B b)) (B (next (B b)))]> B in
  <[prev (B1 b) := with_next (next (B1 b)) (B1 (prev (B1 b)))]> B1.

(** Putting [b] in front, as [brelse] and [binit] do. *)
Definition link B (b : Z) : Z → buf :=
  let B1 := <[b := with_next (next (B bhead)) (B b)]> B in
  let B2 := <[b := with_prev bhead (B1 b)]> B1 in
  let B3 := <[next (B2 bhead) := with_prev b (B2 (next (B2 bhead)))]> B2 in
  <[bhead := with_next b (B3 bhead)]> B3.

(** The fields of a buffer that are not list pointers. *)
Definition same_buf (x y : buf) : Prop :=
  valid x = valid y ∧ dev x = dev y ∧ blockno x = blockno y ∧ block_lock x = block_lock y ∧
  refcnt x = refcnt y ∧ data x = data y.

Lemma next_insert_prev B i p j : next (<[i := with_prev p (B i)]> B j) = next (B j).
Proof.
  destruct (decide (j = i)) as [->|]; [by rewrite fn_lookup_insert|by rewrite fn_lookup_insert_ne].
Qed.
Lemma prev_insert_next B i p j : prev (<[i := with_next p (B i)]> B j) = prev (B j).
Proof.
  destruct (decide (j = i)) as [->|]; [by rewrite fn_lookup_insert|by rewrite fn_lookup_insert_ne].
Qed.
Lemma prev_insert_prev B i p j :
  prev (<[i := with_prev p (B i)]> B j) = if decide (j = i) then p else prev (B j).
Proof. case_decide; [subst; by rewrite fn_lookup_insert|by rewrite fn_lookup_insert_ne]. Qed.
Lemma next_insert_next B i p j :
  next (<[i := with_next p (B i)]> B j) = if decide (j = i) then p else next (B j).
Proof. case_decide; [subst; by rewrite fn_lookup_insert|by rewrite fn_lookup_insert_ne]. Qed.

Lemma unlink_ptrs B b :
  next (B b) ≠ b →
  (∀ j, next (unlink B b j) = if decide (j = prev (B b)) then next (B b) else next (B j)) ∧
  (∀ j, prev (unlink B b j) = if decide (j = next (B b)) then prev (B b) else prev (B j)).
Proof.
  intros Hb. unfold unlink. set (B1 := <[next (B b) := _]> B).
  assert (B1 b = B b) as -> by by rewrite /B1 fn_lookup_insert_ne.
  split; intros j.
  - by rewrite next_insert_next /B1 next_insert_prev.
  - by rewrite prev_insert_next /B1 prev_insert_prev.
Qed.

Lemma link_ptrs B b :
  b ≠ bhead → next (B bhead) ≠ b →
  (∀ j, next (link B b j) =
     if decide (j = bhead) then b else if decide (j = b) then next (B bhead) else next (B j)) ∧
  (∀ j, prev (link B b j) =
     if decide (j = next (B bhead)) then b else if decide (j = b) then bhead else prev (B j)).
Proof.
  intros Hb Hn. unfold link. set (B1 := <[b := with_next _ _]> B). set (B2 := <[b := with_prev _ _]> B1).
  assert (B2 bhead = B bhead) as E by by rewrite /B2 /B1 !fn_lookup_insert_ne.
  rewrite E. split; intros j.
  - by rewrite next_insert_next next_insert_prev /B2 next_insert_prev /B1 next_insert_next.
  - by rewrite prev_insert_next prev_insert_prev /B2 prev_insert_prev /B1 prev_insert_next.
Qed.

Lemma path_last B x l y : path B x l y → prev (B y) = default x (last l).
Proof.
  destruct l as [|z l _] using rev_ind; simpl; [by intros []|].
  rewrite path_snoc last_snoc. by intros (_ & _ & ?).
Qed.

Lemma path_first B x l y : path B x l y → next (B x) = default y (head l).
Proof. destruct l; simpl; by intros [? _]. Qed.

(** The part of a path that pointer changes at its ends leave alone. *)
Lemma unlink_path B b l1 l2 :
  NoDup (bhead :: l1 ++ b :: l2) → path B bhead (l1 ++ b :: l2) bhead →
  path (unlink B b) bhead (l1 ++ l2) bhead.
Proof.
  intros Hnd [H1 H2]%path_app. apply NoDup_cons in Hnd as [Hh Hnd].
  apply NoDup_app in Hnd as (Hn1 & Hdis & Hn2). apply NoDup_cons in Hn2 as [Hb2 Hn2].
  pose proof (path_last _ _ _ _ H1) as Hp. pose proof (path_first _ _ _ _ H2) as Hn.
  assert (next (B b) ≠ b) as Hnb.
  { rewrite Hn. destruct l2; simpl; set_solver. }
  destruct (unlink_ptrs B b Hnb) as [En Ep].
  destruct l1 as [|p l1 _] using rev_ind; destruct l2 as [|n l2]; simpl in *.
  - rewrite En Ep Hp Hn. by repeat case_decide.
  - rewrite En Ep Hp Hn. split_and!; [by case_decide..|].
    eapply path_ext; [..|apply H2]; intros z Hz.
    + rewrite En Hp decide_False //. set_solver.
    + rewrite Ep Hn decide_False //. apply NoDup_cons in Hn2 as [? _]. set_solver.
  - rewrite last_snoc /= in Hp. rewrite app_nil_r. apply path_snoc. apply path_snoc in H1 as (H1 & _ & _).
    rewrite En Ep Hp Hn. split; [|split; by case_decide].
    apply NoDup_app in Hn1 as (_ & Hpl & _).
    eapply path_ext; [..|exact H1]; intros z Hz.
    + rewrite En Hp decide_False //. set_solver.
    + rewrite Ep Hn decide_False //. set_solver.
  - rewrite last_snoc /= in Hp. apply path_snoc in H1 as (H1 & _ & _).
    rewrite -app_assoc /=. apply path_app. apply NoDup_app in Hn1 as (_ & Hpl & _).
    apply NoDup_cons in Hn2 as [? _]. split; [|simpl].
    + eapply path_ext; [..|exact H1]; intros z Hz.
      * rewrite En Hp decide_False //. set_solver.
      * rewrite Ep Hn decide_False //. set_solver.
    + rewrite En Ep Hp Hn. split_and!; [by case_decide..|].
      eapply path_ext; [..|apply H2]; intros z Hz.
      * rewrite En Hp decide_False //. set_solver.
      * rewrite Ep Hn decide_False //. set_solver.
Qed.

(** [B'] is [B] with [b] in front. *)
Definition linked B (b : Z) B' : Prop :=
  (∀ j, next (B' j) =
     if decide (j = bhead) then b else if decide (j = b) then next (B bhead) else next (B j)) ∧
  (∀ j, prev (B' j) =
     if decide (j = next (B bhead)) then b else if decide (j = b) then bhead else prev (B j)).

Lemma linked_path B B' b l :
  linked B b B' → NoDup (bhead :: b :: l) → path B bhead l bhead → path B' bhead (b :: l) bhead.
Proof.
  intros [En Ep] Hnd Hl. apply NoDup_cons in Hnd as [Hh Hnd]. apply NoDup_cons in Hnd as [Hb Hnd].
  pose proof (path_first _ _ _ _ Hl) as Hn.
  assert (next (B bhead) ≠ b) as Hnb by (rewrite Hn; destruct l; simpl; set_solver).
  assert (b ≠ bhead) by set_solver.
  cbn [path]. rewrite En Ep. split_and!; [by repeat case_decide..|].
  destruct l as [|n l]; cbn [path] in *; simpl in Hn.
  - rewrite En Ep Hn. by repeat case_decide.
  - rewrite !En !Ep Hn. split_and!; [by repeat case_decide..|].
    apply NoDup_cons in Hnd as [? _].
    eapply path_ext; [..|apply Hl]; intros z Hz.
    + rewrite En !decide_False //; set_solver.
    + rewrite Ep Hn !decide_False //; set_solver.
Qed.

Lemma link_path B b l :
  NoDup (bhead :: b :: l) → path B bhead l bhead → path (link B b) bhead (b :: l) bhead.
Proof.
  intros Hnd Hl. eapply linked_path; [|done|done].
  apply NoDup_cons in Hnd as [Hh Hnd]. apply NoDup_cons in Hnd as [Hb Hnd].
  pose proof (path_first _ _ _ _ Hl) as Hn.
  apply link_ptrs; [set_solver|]. rewrite Hn. destruct l; simpl; set_solver.
Qed.

Lemma same_buf_refl x : same_buf x x.
Proof. done. Qed.

Lemma same_buf_insert B i x j : same_buf x (B i) → same_buf (<[i := x]> B j) (B j).
Proof.
  intros H. destruct (decide (j = i)) as [->|]; [by rewrite fn_lookup_insert|].
  by rewrite fn_lookup_insert_ne.
Qed.

Lemma same_buf_trans x y z : same_buf x y → same_buf y z → same_buf x z.
Proof. unfold same_buf. intuition congruence. Qed.

Lemma unlink_same B b j : same_buf (unlink B b j) (B j).
Proof. unfold unlink. eapply same_buf_trans; apply same_buf_insert; done. Qed.

Lemma link_same B b j : same_buf (link B b j) (B j).
Proof.
  unfold link. eapply same_buf_trans; [by apply same_buf_insert|].
  eapply same_buf_trans; [by apply same_buf_insert|].
  eapply same_buf_trans; by apply same_buf_insert.
Qed.
End ring.

(** ** The cache's contract

    The state of the contract, for the blocks of the root device: what each
    block holds, the blocks in use with their reference counts, the blocks
    locked with the buffer that holds each, and the disk. *)

Record babs := mk_babs {
  lgc : Z → block;
  pin : gmap Z Z;
  own : gmap Z Z;
  dsk : gmap Z block;
}.

Definition slot (i : Z) : Prop := 0 ≤ i < NBUF.

(** The cache state [s] holds the contents [a]. *)
Record rep (s : fsst) (a : babs) : Prop := {
  rp_ring : ∃ l, path (bufs s) bhead l bhead ∧ l ≡ₚ seqZ 0 NBUF;
  rp_lock : BCACHE ∉ held s;
  rp_uniq : ∀ i j, slot i → slot j → dev (bufs s i) = ROOTDEV → dev (bufs s j) = ROOTDEV →
    blockno (bufs s i) = blockno (bufs s j) → i = j;
  rp_unused : ∀ i, slot i → dev (bufs s i) ≠ ROOTDEV →
    refcnt (bufs s i) = 0 ∧ locked (block_lock (bufs s i)) = false;
  rp_valid : ∀ i, slot i → dev (bufs s i) = ROOTDEV →
    valid (bufs s i) = true ∧ data (bufs s i) = lgc a (blockno (bufs s i));
  rp_pin : ∀ i, slot i → dev (bufs s i) = ROOTDEV →
    refcnt (bufs s i) = default 0 (pin a !! blockno (bufs s i));
  rp_pinned : ∀ n c, pin a !! n = Some c → 0 < c < 2 ^ 32 ∧
    ∃ i, slot i ∧ dev (bufs s i) = ROOTDEV ∧ blockno (bufs s i) = n;
  rp_own : ∀ i, slot i → dev (bufs s i) = ROOTDEV →
    block_lock (bufs s i) =
      if decide (own a !! blockno (bufs s i) = Some i) then mk_sleeplock true (fpid s)
      else mk_sleeplock false (lk_pid (block_lock (bufs s i)));
  rp_owned : ∀ n i, own a !! n = Some i →
    slot i ∧ dev (bufs s i) = ROOTDEV ∧ blockno (bufs s i) = n ∧ is_Some (pin a !! n);
  rp_disk : disk s = dsk a;
  rp_clean : ∀ n, pin a !! n = None → lgc a n = default ∅ (dsk a !! n);
}.

Section loops.
Context (s : fsst).
Let B := bufs s.

Lemma find_cached_eq fuel x l d n :
  path B x l bhead → bhead ∉ l → (length l < fuel)%nat →
  find_cached fuel (next (B x)) d n s =
    Ret (find (λ b, (dev (B b) =? d) && (blockno (B b) =? n)) l, s).
Proof.
  revert x fuel. induction l as [|z l IH]; intros x fuel Hp Hh Hf; (destruct fuel as [|fuel]; [simpl in Hf; lia|]).
  - destruct Hp as [-> _]. done.
  - destruct Hp as (-> & _ & Hp). simpl in Hf |- *. destruct (Z.eqb_spec z bhead); [set_solver|].
    rewrite /mbind /M_bind /buf_at /gets. fold B.
    destruct ((dev (B z) =? d) && (blockno (B z) =? n)); [done|]. apply IH; [done|set_solver|lia].
Qed.

Lemma find_unused_eq fuel l y :
  path B bhead l y → bhead ∉ l → (length l < fuel)%nat →
  find_unused fuel (prev (B y)) s = Ret (find (λ b, refcnt (B b) =? 0) (reverse l), s).
Proof.
  revert y fuel. induction l as [|z l IH] using rev_ind; intros y fuel Hp Hh Hf;
    (destruct fuel as [|fuel]; [simpl in Hf; lia|]).
  - destruct Hp as [_ ->]. done.
  - apply path_snoc in Hp as (Hp & _ & ->). rewrite reverse_app /=.
    destruct (Z.eqb_spec z bhead); [set_solver|].
    rewrite /mbind /M_bind /buf_at /gets. fold B. destruct (refcnt (B z) =? 0); [done|].
    rewrite length_app /= in Hf. apply IH; [done|set_solver|lia].
Qed.
End loops.

Lemma ring_slots l i : l ≡ₚ seqZ 0 NBUF → i ∈ l ↔ slot i.
Proof. intros ->. rewrite elem_of_seqZ /slot. lia. Qed.

Lemma ring_nodup l : l ≡ₚ seqZ 0 NBUF → NoDup (bhead :: l) ∧ length l = 30%nat.
Proof.
  intros Hl. split; [|by rewrite Hl]. apply NoDup_cons. split.
  - rewrite (ring_slots l) // /slot. lia.
  - rewrite Hl. apply NoDup_seqZ.
Qed.

Lemma find_Some_elem {A} (f : A → bool) l x : find f l = Some x → x ∈ l ∧ f x = true.
Proof. intros [H ?]%find_some. split; [by apply list_elem_of_In|done]. Qed.

Lemma find_None_elem {A} (f : A → bool) l : find f l = None → ∀ x, x ∈ l → f x = false.
Proof. intros H x Hx%list_elem_of_In. by eapply find_none in H. Qed.

(** If every buffer is referenced, [NBUF] different blocks are. *)
Lemma pins_full s a :
  rep s a → (∀ i, slot i → refcnt (bufs s i) ≠ 0) → (30 ≤ size (pin a))%nat.
Proof.
  intros Hr Hall. set (f := λ i, blockno (bufs s i)).
  assert (∀ i, slot i → dev (bufs s i) = ROOTDEV) as Hdev.
  { intros i Hi. destruct (decide (dev (bufs s i) = ROOTDEV)); [done|].
    destruct (rp_unused _ _ Hr i Hi); [done|]. by destruct (Hall i Hi). }
  assert (list_to_set (f <$> seqZ 0 NBUF) ⊆ dom (pin a)) as Hsub.
  { intros n. rewrite elem_of_list_to_set list_elem_of_fmap. intros (i & -> & Hi%elem_of_seqZ).
    assert (slot i) as Hs by (rewrite /slot; lia). apply elem_of_dom.
    pose proof (Hall i Hs) as Hnz. rewrite (rp_pin _ _ Hr i Hs (Hdev i Hs)) in Hnz.
    destruct (pin a !! blockno (bufs s i)) eqn:E; [by rewrite /f E|done]. }
  apply subseteq_size in Hsub. rewrite size_dom in Hsub. etrans; [|exact Hsub].
  rewrite size_list_to_set; [by rewrite length_fmap length_seqZ|].
  apply NoDup_fmap_2_strong; [|apply NoDup_seqZ].
  intros i j Hi%elem_of_seqZ Hj%elem_of_seqZ E. eapply (rp_uniq _ _ Hr); [rewrite /slot; lia..| | |done];
    apply Hdev; rewrite /slot; lia.
Qed.

(** A change to one buffer, which then holds block [n]. *)
Lemma rep_slot s a b x n a' B :
  rep s a → (∀ i, B i = if decide (i = b) then x else bufs s i) → slot b → next x = next (bufs s b) → prev x = prev (bufs s b) →
  dev x = ROOTDEV → blockno x = n → valid x = true → data x = lgc a' n →
  refcnt x = default 0 (pin a' !! n) →
  block_lock x = (if decide (own a' !! n = Some b) then mk_sleeplock true (fpid s)
                  else mk_sleeplock false (lk_pid (block_lock x))) →
  (∀ m, m ≠ n → lgc a' m = lgc a m ∧ pin a' !! m = pin a !! m ∧ own a' !! m = own a !! m) →
  (∀ i, slot i → i ≠ b → dev (bufs s i) = ROOTDEV → blockno (bufs s i) ≠ n) →
  (dev (bufs s b) = ROOTDEV → blockno (bufs s b) ≠ n → pin a !! blockno (bufs s b) = None) →
  (∀ c, pin a' !! n = Some c → 0 < c < 2 ^ 32) →
  (∀ i, own a' !! n = Some i → i = b ∧ is_Some (pin a' !! n)) →
  (pin a' !! n = None → lgc a' n = default ∅ (dsk a !! n)) → dsk a' = dsk a →
  rep (set_bufs B s) a'.
Proof.
  intros Hr HB Hb Hnx Hpx Hd Hn Hv Hdat Href Hlk Hrest Huq Hold Hc Hown Hcl Hdsk.
  split; simpl.
  - destruct (rp_ring _ _ Hr) as (l & Hl & Hp). exists l. split; [|done].
    eapply path_ext; [..|exact Hl]; intros z _; rewrite HB; by destruct (decide (z = b)) as [->|].
  - apply Hr.
  - intros i j Hi Hj. rewrite !HB. destruct (decide (i = b)) as [->|], (decide (j = b)) as [->|]; try done.
    + intros _ Hdj E. by destruct (Huq j); [..|congruence].
    + intros Hdi _ E. by destruct (Huq i); [..|congruence].
    + by apply Hr.
  - intros i Hi. rewrite HB. destruct (decide (i = b)); [done|by apply Hr].
  - intros i Hi. rewrite HB. destruct (decide (i = b)); [by rewrite Hn|]. intros Hdi.
    destruct (Hrest (blockno (bufs s i))) as (-> & _); [by apply Huq|by apply Hr].
  - intros i Hi. rewrite HB. destruct (decide (i = b)); [by rewrite Hn|]. intros Hdi.
    destruct (Hrest (blockno (bufs s i))) as (_ & -> & _); [by apply Huq|by apply (rp_pin _ _ Hr)].
  - intros m c Hm. destruct (decide (m = n)) as [->|Hmn].
    + split; [by apply Hc|]. exists b. rewrite HB decide_True //.
    + destruct (Hrest m Hmn) as (_ & E & _). rewrite E in Hm.
      destruct (rp_pinned _ _ Hr m c Hm) as (Hcm & i & Hi & Hdi & Hbi). split; [done|].
      exists i. rewrite HB. destruct (decide (i = b)) as [->|]; [|done]. exfalso.
      rewrite -Hbi Hold // in Hm; congruence.
  - intros i Hi. rewrite HB. destruct (decide (i = b)) as [->|].
    + intros _. by rewrite Hn.
    + intros Hdi. destruct (Hrest (blockno (bufs s i))) as (_ & _ & ->); [by apply Huq|]. by apply (rp_own _ _ Hr).
  - intros m i Hm. destruct (decide (m = n)) as [->|Hmn].
    + destruct (Hown i Hm) as [-> ?]. rewrite HB decide_True //.
    + destruct (Hrest m Hmn) as (_ & E & E'). rewrite E' in Hm. rewrite E.
      destruct (rp_owned _ _ Hr m i Hm) as (Hi & Hdi & Hbi & Hp). rewrite HB.
      destruct (decide (i = b)) as [->|]; [|done].
      exfalso. destruct Hp as [c Hp]. rewrite -Hbi Hold // in Hp; congruence.
  - rewrite Hdsk. apply Hr.
  - intros m Hm. rewrite Hdsk. destruct (decide (m = n)) as [->|Hmn]; [by apply Hcl|].
    destruct (Hrest m Hmn) as (-> & E & _). rewrite E in Hm. by apply (rp_clean _ _ Hr).
Qed.

(** The changes of the contract's state. *)
Definition a_bread (n b : Z) (a : babs) : babs :=
  mk_babs (lgc a) (<[n := default 0 (pin a !! n) + 1]> (pin a)) (<[n := b]> (own a)) (dsk a).
Definition a_put (n : Z) (d : block) (a : babs) : babs :=
  mk_babs (<[n := d]> (lgc a)) (pin a) (own a) (dsk a).
Definition a_write (n : Z) (a : babs) : babs :=
  mk_babs (lgc a) (pin a) (own a) (<[n := lgc a n]> (dsk a)).
Definition pin_dec (n : Z) (p : gmap Z Z) : gmap Z Z :=
  if decide (p !! n = Some 1) then delete n p else <[n := default 0 (p !! n) - 1]> p.
Definition a_unpin (n : Z) (a : babs) : babs := mk_babs (lgc a) (pin_dec n (pin a)) (own a) (dsk a).
Definition a_relse (n : Z) (a : babs) : babs :=
  a_unpin n (mk_babs (lgc a) (pin a) (delete n (own a)) (dsk a)).
Definition a_pin (n : Z) (a : babs) : babs :=
  mk_babs (lgc a) (<[n := default 0 (pin a !! n) + 1]> (pin a)) (own a) (dsk a).

(** Room for one more block. *)
Definition room_for (n : Z) (a : babs) : Prop :=
  (is_Some (pin a !! n) ∨ (size (pin a) < 30)%nat) ∧ default 0 (pin a !! n) + 1 < 2 ^ 32.

(** Only the buffers change. *)
Definition bufs_only (s s' : fsst) : Prop := ∃ B, s' = set_bufs B s.

Lemma set_held_bufs h B s : set_held h (set_bufs B s) = set_bufs B (set_held h s).
Proof. done. Qed.

Lemma set_bufs_bufs B B' s : set_bufs B (set_bufs B' s) = set_bufs B s.
Proof. done. Qed.

Lemma wp_upd_buf i f (Q : unit → fsst → Prop) s :
  Q tt (set_buf i (f (bufs s i)) s) → wp (upd_buf i f) Q s.
Proof. done. Qed.

Lemma wp_buf_at i (Q : buf → fsst → Prop) s : Q (bufs s i) s → wp (buf_at i) Q s.
Proof. done. Qed.

(** The lock and unlock of [bcache.lock] around a change of the buffers. *)
Lemma bcache_section s B :
  BCACHE ∉ held s →
  set_held (held (set_bufs B (set_held ({[BCACHE]} ∪ held s) s)) ∖ {[BCACHE]})
    (set_bufs B (set_held ({[BCACHE]} ∪ held s) s)) = set_bufs B s.
Proof.
  intros Hl. destruct s as [d t b l p i h pid]. simpl in *. rewrite /set_bufs /set_fheld /=. f_equal.
  by apply held_restore.
Qed.

(** What [bget] returns: a buffer for the block, locked, with one more
    reference. *)
Lemma wp_bget n a s (Q : Z → fsst → Prop) :
  rep s a → own a !! n = None → room_for n a →
  (∀ b B, slot b →
     (∀ i, B i = if decide (i = b) then
        mk_buf (bool_decide (dev (bufs s b) = ROOTDEV ∧ blockno (bufs s b) = n)) ROOTDEV n
          (mk_sleeplock true (fpid s)) (default 0 (pin a !! n) + 1)
          (prev (bufs s b)) (next (bufs s b)) (data (bufs s b))
      else bufs s i) →
     (dev (bufs s b) = ROOTDEV → blockno (bufs s b) ≠ n → pin a !! blockno (bufs s b) = None) →
     (∀ i, slot i → i ≠ b → dev (bufs s i) = ROOTDEV → blockno (bufs s i) ≠ n) →
     Q b (set_bufs B s)) →
  wp (bget ROOTDEV n) Q s.
Proof.
  intros Hr Hown [Hroom Hmax] HQ. destruct (rp_ring _ _ Hr) as (l & Hl & Hp).
  destruct (ring_nodup l Hp) as [[Hh Hnd]%NoDup_cons Hlen].
  assert (∀ s', bufs s' = bufs s →
    find_cached ring_fuel (next (bufs s' bhead)) ROOTDEV n s' =
      Ret (find (λ b, (dev (bufs s b) =? ROOTDEV) && (blockno (bufs s b) =? n)) l, s')) as Hfc.
  { intros s' E. rewrite -E. apply find_cached_eq; [by rewrite E|done|lia]. }
  rewrite /bget. apply wp_bind, wp_acquire; [apply Hr|]. apply wp_bind, wp_buf_at, wp_bind.
  eapply wp_Ret; [by apply Hfc|].
  destruct (find _ l) as [b|] eqn:Hf.
  - apply find_Some_elem in Hf as [Hb [Hd%Z.eqb_eq Hn%Z.eqb_eq]%andb_true_iff].
    apply (ring_slots l b Hp) in Hb. pose proof (rp_own _ _ Hr b Hb Hd) as Hlk.
    rewrite Hn decide_False in Hlk; [|congruence].
    apply wp_bind, wp_upd_buf, wp_bind, wp_release; [rewrite /held /=; set_solver|].
    rewrite /set_buf. rewrite bcache_section; [|apply Hr].
    apply wp_bind, wp_acquiresleep.
    { simpl. rewrite fn_lookup_insert /=. by rewrite Hlk. }
    apply wp_ret. rewrite /set_sleep /= /set_buf set_bufs_bufs. apply HQ; [done| | |].
    + intros i. rewrite !fn_insert_dec /=. destruct (decide (i = b)) as [->|]; [|by rewrite ?fn_lookup_insert_ne].
      rewrite decide_True // /with_lock /with_refcnt /=. rewrite bool_decide_eq_true_2 //.
      rewrite (rp_pin _ _ Hr) // Hn. destruct (rp_valid _ _ Hr b Hb Hd) as [-> _]. f_equal; [done|].
      apply u32_id. destruct (pin a !! n) eqn:E; simpl in *; [|lia].
      destruct (rp_pinned _ _ Hr _ _ E) as [? _]. lia.
    + congruence.
    + intros i Hi Hib Hdi E. apply Hib. apply (rp_uniq _ _ Hr); congruence.
  - pose proof (find_None_elem _ _ Hf) as Hnone. cbv beta in Hnone.
    assert (∀ i, slot i → dev (bufs s i) = ROOTDEV → blockno (bufs s i) ≠ n) as Hno.
    { intros i Hi%(ring_slots l i Hp) Hdi E. specialize (Hnone i Hi). by rewrite Hdi E !Z.eqb_refl in Hnone. }
    assert (pin a !! n = None) as Hpn.
    { destruct (pin a !! n) as [c|] eqn:E; [|done]. destruct (rp_pinned _ _ Hr _ _ E) as (_ & i & Hi & Hdi & Hbi).
      by destruct (Hno i). }
    apply wp_bind, wp_buf_at, wp_bind. eapply wp_Ret.
    { apply (find_unused_eq _ ring_fuel l); [done|done|lia]. }
    simpl. destruct (find _ (reverse l)) as [b|] eqn:Hf'.
    + apply find_Some_elem in Hf' as [Hb Hz%Z.eqb_eq].
      rewrite elem_of_reverse (ring_slots l b Hp) in Hb.
      apply wp_bind, wp_upd_buf, wp_bind, wp_release; [rewrite /held /=; set_solver|].
      rewrite /set_buf. rewrite bcache_section; [|apply Hr].
      apply wp_bind, wp_acquiresleep.
      { simpl. rewrite fn_lookup_insert /=. destruct (decide (dev (bufs s b) = ROOTDEV)) as [Hd|Hd].
        - rewrite (rp_own _ _ Hr b Hb Hd) decide_False //. intros Ho.
          destruct (rp_owned _ _ Hr _ _ Ho) as (_ & _ & _ & [c Hc]).
          rewrite (rp_pin _ _ Hr b Hb Hd) Hc /= in Hz. destruct (rp_pinned _ _ Hr _ _ Hc). lia.
        - by apply (rp_unused _ _ Hr b Hb Hd). }
      apply wp_ret. rewrite /set_sleep /= /set_buf set_bufs_bufs. apply HQ; [done| | |].
      * intros i. rewrite !fn_insert_dec /=. destruct (decide (i = b)) as [->|]; [|by rewrite ?fn_lookup_insert_ne].
        rewrite decide_True // /with_lock /recycled /= Hpn bool_decide_eq_false_2 //.
        intros [Hd E]. by destruct (Hno b).
      * intros Hd _. destruct (pin a !! blockno (bufs s b)) as [c|] eqn:Hc; [|done].
        rewrite (rp_pin _ _ Hr b Hb Hd) Hc /= in Hz. destruct (rp_pinned _ _ Hr _ _ Hc). lia.
      * intros i Hi _. by apply Hno.
    + exfalso. pose proof (find_None_elem _ _ Hf') as Hall. destruct Hroom as [Hroom|Hroom].
      { rewrite Hpn in Hroom. by destruct Hroom. }
      assert (30 ≤ size (pin a))%nat; [|lia]. apply (pins_full s a Hr).
      intros i Hi%(ring_slots l i Hp) Hz. specialize (Hall i ltac:(by apply elem_of_reverse)).
      cbv beta in Hall. by rewrite Hz in Hall.
Qed.

Lemma wp_bread n a s (Q : Z → fsst → Prop) :
  rep s a → own a !! n = None → room_for n a →
  (∀ b B, rep (set_bufs B s) (a_bread n b a) → Q b (set_bufs B s)) →
  wp (bread ROOTDEV n) Q s.
Proof.
  intros Hr Hown Hroom HQ. rewrite /bread. apply wp_bind.
  apply (wp_bget n a s); [done..|]. intros b B Hb HB Hold Huq.
  apply wp_bind, wp_buf_at. simpl. rewrite HB decide_True //=.
  assert (∀ B', (∀ i, B' i = if decide (i = b) then
      mk_buf true ROOTDEV n (mk_sleeplock true (fpid s)) (default 0 (pin a !! n) + 1)
        (prev (bufs s b)) (next (bufs s b)) (lgc a n) else bufs s i) →
      rep (set_bufs B' s) (a_bread n b a)) as Hrep.
  { intros B' HB'. destruct Hroom as [_ Hmax].
    apply (rep_slot s a b _ n (a_bread n b a) B' Hr HB' Hb); simpl; try done.
    - by rewrite lookup_insert_eq.
    - by rewrite lookup_insert_eq decide_True.
    - intros m Hm. by rewrite !lookup_insert_ne.
    - rewrite lookup_insert_eq. intros c [= <-]. split; [|done].
      destruct (pin a !! n) as [c|] eqn:E; simpl; [|lia]. destruct (rp_pinned _ _ Hr _ _ E). lia.
    - rewrite lookup_insert_eq. intros i [= <-]. by rewrite lookup_insert_eq.
    - by rewrite lookup_insert_eq. }
  case_bool_decide as Hc; simpl.
  - destruct Hc as [Hd Hn]. destruct (rp_valid _ _ Hr b Hb Hd) as [_ Hdat].
    apply wp_bind, wp_ret, wp_ret, HQ, Hrep. intros i. rewrite HB. destruct (decide (i = b)); [|done].
    by rewrite Hdat Hn.
  - assert (lgc a n = default ∅ (disk s !! n)) as Hlg.
    { rewrite (rp_disk _ _ Hr). apply (rp_clean _ _ Hr). destruct (pin a !! n) as [c|] eqn:E; [|done].
      exfalso. destruct (rp_pinned _ _ Hr _ _ E) as (_ & i & Hi & Hdi & Hbi).
      destruct (decide (i = b)) as [->|]; [by apply Hc|by eapply Huq]. }
    apply wp_bind, wp_bind, wp_bind, wp_buf_at. simpl. rewrite HB decide_True //=.
    apply wp_bind, wp_gets, wp_upd_buf, wp_upd_buf, wp_ret. rewrite /set_buf /= !set_bufs_bufs.
    apply HQ, Hrep. intros i. rewrite !fn_insert_dec. destruct (decide (i = b)) as [->|].
    + rewrite decide_True // HB decide_True // /with_valid /with_data /=. by rewrite Hlg.
    + rewrite ?fn_lookup_insert_ne // HB decide_False //.
Qed.

Lemma wp_get_data n b a s (Q : block → fsst → Prop) :
  rep s a → own a !! n = Some b → Q (lgc a n) s → wp (get_data b) Q s.
Proof.
  intros Hr Hb HQ. destruct (rp_owned _ _ Hr _ _ Hb) as (Hs & Hd & Hn & _).
  destruct (rp_valid _ _ Hr b Hs Hd) as [_ Hdat]. rewrite Hn in Hdat. rewrite -Hdat in HQ.
  by apply wp_gets.
Qed.

(** The other rules change the fields of the one buffer that holds [n]. *)
Lemma rep_owned_slot s a n b :
  rep s a → own a !! n = Some b →
  slot b ∧ dev (bufs s b) = ROOTDEV ∧ blockno (bufs s b) = n ∧ valid (bufs s b) = true ∧
  data (bufs s b) = lgc a n ∧ block_lock (bufs s b) = mk_sleeplock true (fpid s) ∧
  refcnt (bufs s b) = default 0 (pin a !! n) ∧ 0 < default 0 (pin a !! n) < 2 ^ 32 ∧
  (∀ i, slot i → i ≠ b → dev (bufs s i) = ROOTDEV → blockno (bufs s i) ≠ n).
Proof.
  intros Hr Hb. destruct (rp_owned _ _ Hr _ _ Hb) as (Hs & Hd & Hn & [c Hc]).
  destruct (rp_valid _ _ Hr b Hs Hd) as [Hv Hdat]. pose proof (rp_own _ _ Hr b Hs Hd) as Hlk.
  rewrite Hn decide_True // in Hlk. destruct (rp_pinned _ _ Hr _ _ Hc) as [Hc' _].
  pose proof (rp_pin _ _ Hr b Hs Hd) as Hpin. rewrite Hn in Hdat Hpin.
  split_and!; try done; [by rewrite Hc /=; lia..|].
  intros i Hi Hib Hdi E. apply Hib. apply (rp_uniq _ _ Hr); congruence.
Qed.

Lemma wp_put_data n b d a s (Q : unit → fsst → Prop) :
  rep s a → own a !! n = Some b →
  (∀ B, rep (set_bufs B s) (a_put n d a) → Q tt (set_bufs B s)) → wp (put_data b d) Q s.
Proof.
  intros Hr Hb HQ. destruct (rep_owned_slot s a n b Hr Hb) as (Hs & Hd & Hn & Hv & Hdat & Hlk & Hrf & Hc & Huq).
  apply wp_upd_buf. rewrite /set_buf. apply HQ.
  apply (rep_slot s a b (with_data d (bufs s b)) n _ _ Hr (fn_insert_dec _ _ _) Hs); simpl; try done.
  - by rewrite fn_lookup_insert.
  - by rewrite Hb decide_True.
  - intros m Hm. by rewrite fn_lookup_insert_ne.
  - intros c E. rewrite E in Hc. done.
  - intros i E. destruct (rp_owned _ _ Hr _ _ Hb) as (_ & _ & _ & ?). split; [congruence|done].
  - intros E. rewrite E /= in Hc. lia.
Qed.

Lemma wp_bwrite n b a s (Q : unit → fsst → Prop) :
  rep s a → own a !! n = Some b →
  (rep (set_disk (<[n := lgc a n]> (disk s)) ((n, lgc a n) :: wtrace s) s) (a_write n a) →
     Q tt (set_disk (<[n := lgc a n]> (disk s)) ((n, lgc a n) :: wtrace s) s)) →
  wp (bwrite b) Q s.
Proof.
  intros Hr Hb HQ. destruct (rep_owned_slot s a n b Hr Hb) as (Hs & Hd & Hn & Hv & Hdat & Hlk & Hrf & Hc & Huq).
  rewrite /bwrite. apply wp_bind, wp_holdingsleep. simpl. rewrite Hlk /= Z.eqb_refl /=.
  apply wp_bind, wp_buf_at, wp_modify. rewrite Hn Hdat. apply HQ.
  destruct Hr as [H1 H2 H3 H4 H5 H6 H7 H8 H9 H10 H11]. split; try done; simpl.
  - by rewrite H10.
  - intros m Hm. destruct (decide (m = n)) as [->|]; [by rewrite Hm /= in Hc; lia|].
    rewrite lookup_insert_ne //. by apply H11.
Qed.

Lemma rep_relink s a B :
  rep s a → (∀ i, same_buf (B i) (bufs s i)) →
  (∃ l, path B bhead l bhead ∧ l ≡ₚ seqZ 0 NBUF) → rep (set_bufs B s) a.
Proof.
  intros [H1 H2 H3 H4 H5 H6 H7 H8 H9 H10 H11] HB Hl.
  split; try done; simpl.
  - intros i j. destruct (HB i) as (_ & -> & -> & _), (HB j) as (_ & -> & -> & _). apply H3.
  - intros i. destruct (HB i) as (_ & -> & _ & -> & -> & _). apply H4.
  - intros i. destruct (HB i) as (-> & -> & -> & _ & _ & ->). apply H5.
  - intros i. destruct (HB i) as (_ & -> & -> & _ & -> & _). apply H6.
  - intros m c Hm. destruct (H7 m c Hm) as (? & i & ?). split; [done|]. exists i.
    by destruct (HB i) as (_ & -> & -> & _).
  - intros i. destruct (HB i) as (_ & -> & -> & -> & _). apply H8.
  - intros m i Hm. destruct (HB i) as (_ & -> & -> & _). by apply H9.
Qed.

Lemma pin_dec_lookup n (p : gmap Z Z) c :
  p !! n = Some c → 0 < c →
  default 0 (pin_dec n p !! n) = c - 1 ∧ (∀ m, m ≠ n → pin_dec n p !! m = p !! m) ∧
  (∀ c', pin_dec n p !! n = Some c' → c' = c - 1 ∧ c ≠ 1) ∧ (pin_dec n p !! n = None → c = 1).
Proof.
  intros Hn Hc. rewrite /pin_dec Hn. case_decide as E.
  - injection E as ->. rewrite lookup_delete_eq. split_and!; try done. intros m Hm. by rewrite lookup_delete_ne.
  - rewrite lookup_insert_eq. split_and!; try done; [|intros c' [= <-]; split; [done|congruence]].
    intros m Hm. by rewrite lookup_insert_ne.
Qed.

(** Dropping the lock or not, and one reference. *)
Lemma rep_drop s a n b x (o : bool) B :
  rep s a → own a !! n = Some b → (∀ i, B i = if decide (i = b) then x else bufs s i) →
  x = with_refcnt (default 0 (pin a !! n) - 1)
        (with_lock (if o then mk_sleeplock false 0 else block_lock (bufs s b)) (bufs s b)) →
  (pin a !! n = Some 1 → o = true ∧ lgc a n = default ∅ (dsk a !! n)) →
  rep (set_bufs B s) (if o then a_relse n a else a_unpin n a).
Proof.
  intros Hr Hb HB -> Hcl.
  destruct (rep_owned_slot s a n b Hr Hb) as (Hs & Hd & Hn & Hv & Hdat & Hlk & Hrf & Hc & Huq).
  assert (∃ c, pin a !! n = Some c) as [c Hp] by (destruct (pin a !! n); [eauto|simpl in Hc; lia]).
  rewrite Hp /= in Hc. destruct (pin_dec_lookup n (pin a) c Hp) as (P1 & P2 & P3 & P4); [lia|].
  apply (rep_slot s a b _ n _ B Hr HB Hs); destruct o; simpl; try done.
  all: try (by rewrite P1 Hp).
  all: try (by intros m Hm; rewrite P2 // ?lookup_delete_ne).
  all: try (intros c' [-> ?]%P3; lia).
  all: try (intros E%P4; subst c; by destruct (Hcl Hp)).
  - by rewrite lookup_delete_eq.
  - by rewrite Hb decide_True.
  - by rewrite lookup_delete_eq.
  - intros i Hi. split; [congruence|]. destruct (pin_dec n (pin a) !! n) eqn:E; [done|].
    specialize (P4 eq_refl). subst c. by destruct (Hcl Hp).
Qed.

Lemma brelse_relink_ring B l b :
  path B bhead l bhead → l ≡ₚ seqZ 0 NBUF → slot b →
  ∃ l', path (link (unlink B b) b) bhead l' bhead ∧ l' ≡ₚ seqZ 0 NBUF.
Proof.
  intros Hl Hp Hb. destruct (ring_nodup l Hp) as [Hnd _].
  apply (ring_slots l b Hp) in Hb. apply list_elem_of_split in Hb as (l1 & l2 & ->).
  exists (b :: l1 ++ l2). assert (b :: l1 ++ l2 ≡ₚ l1 ++ b :: l2) as E by by rewrite Permutation_middle.
  split; [|by rewrite E]. apply link_path; [by rewrite E|]. by apply unlink_path.
Qed.

Lemma wp_brelse n b a s (Q : unit → fsst → Prop) :
  rep s a → own a !! n = Some b → (pin a !! n = Some 1 → lgc a n = default ∅ (dsk a !! n)) →
  (∀ B, rep (set_bufs B s) (a_relse n a) → Q tt (set_bufs B s)) → wp (brelse b) Q s.
Proof.
  intros Hr Hb Hcl HQ.
  destruct (rep_owned_slot s a n b Hr Hb) as (Hs & Hd & Hn & Hv & Hdat & Hlk & Hrf & Hc & Huq).
  rewrite /brelse. apply wp_bind, wp_holdingsleep. simpl. rewrite Hlk /= Z.eqb_refl /=.
  apply wp_bind, wp_releasesleep. simpl. apply wp_bind, wp_acquire; [apply Hr|].
  apply wp_bind, wp_upd_buf, wp_bind, wp_buf_at. rewrite /set_buf /=.
  set (B1 := <[b := with_refcnt _ _]> _).
  assert (∀ i, B1 i = if decide (i = b) then
    with_refcnt (default 0 (pin a !! n) - 1) (with_lock (mk_sleeplock false 0) (bufs s b)) else bufs s i) as HB1.
  { intros i. rewrite /B1 !fn_insert_dec. destruct (decide (i = b)) as [->|].
    - rewrite decide_True //=. f_equal. rewrite Hrf. apply u32_id. lia.
    - by rewrite ?fn_insert_dec ?decide_False. }
  assert (rep (set_bufs B1 s) (a_relse n a)) as Hr1.
  { apply (rep_drop s a n b _ true B1 Hr Hb HB1); [done|]. intros E. by split; [|apply Hcl]. }
  rewrite HB1 decide_True //=. case_match.
  - apply wp_bind. apply wp_bind, wp_buf_at, wp_bind, wp_upd_buf.
    apply wp_bind, wp_buf_at, wp_bind, wp_upd_buf.
    apply wp_bind, wp_buf_at, wp_bind, wp_upd_buf, wp_bind, wp_upd_buf.
    apply wp_bind, wp_buf_at, wp_bind, wp_upd_buf, wp_upd_buf.
    apply wp_release; [rewrite /held /=; set_solver|].
    rewrite /set_buf /= !set_bufs_bufs.
    match goal with |- Q tt (set_fheld _ (set_bufs ?B2 _)) => set (B' := B2) end.
    assert (B' = link (unlink B1 b) b) as EB by done.
    assert (rep (set_bufs B' (set_bufs B1 s)) (a_relse n a)) as Hr2.
    { rewrite EB. apply rep_relink; [done| |].
      - intros i. eapply same_buf_trans; [apply link_same|apply unlink_same].
      - destruct (rp_ring _ _ Hr1) as (l & Hl & Hp). by apply (brelse_relink_ring B1 l). }
    clearbody B'. rewrite set_bufs_bufs in Hr2. specialize (HQ B' Hr2).
    rewrite -(bcache_section s B') in HQ; [exact HQ|apply Hr].
  - apply wp_bind, wp_ret, wp_release; [rewrite /held /=; set_solver|].
    clearbody B1. specialize (HQ B1 Hr1). rewrite -(bcache_section s B1) in HQ; [exact HQ|apply Hr].
Qed.

Lemma wp_bunpin n b a s (Q : unit → fsst → Prop) :
  rep s a → own a !! n = Some b → pin a !! n ≠ Some 1 →
  (∀ B, rep (set_bufs B s) (a_unpin n a) → Q tt (set_bufs B s)) → wp (bunpin b) Q s.
Proof.
  intros Hr Hb Hp HQ.
  destruct (rep_owned_slot s a n b Hr Hb) as (Hs & Hd & Hn & Hv & Hdat & Hlk & Hrf & Hc & Huq).
  rewrite /bunpin. apply wp_bind, wp_acquire; [apply Hr|]. apply wp_bind, wp_upd_buf.
  apply wp_release; [rewrite /held /=; set_solver|]. rewrite /set_buf. rewrite bcache_section; [|apply Hr].
  apply HQ. eapply (rep_drop s a n b _ false); [done|done|intros i; apply fn_insert_dec| |done].
  simpl. rewrite /with_refcnt /with_lock /=. f_equal. rewrite Hrf. apply u32_id. lia.
Qed.

Lemma wp_bpin n b a s (Q : unit → fsst → Prop) :
  rep s a → own a !! n = Some b → default 0 (pin a !! n) + 1 < 2 ^ 32 →
  (∀ B, rep (set_bufs B s) (a_pin n a) → Q tt (set_bufs B s)) → wp (bpin b) Q s.
Proof.
  intros Hr Hb Hmax HQ.
  destruct (rep_owned_slot s a n b Hr Hb) as (Hs & Hd & Hn & Hv & Hdat & Hlk & Hrf & Hc & Huq).
  rewrite /bpin. apply wp_bind, wp_acquire; [apply Hr|]. apply wp_bind, wp_upd_buf.
  apply wp_release; [rewrite /held /=; set_solver|]. rewrite /set_buf. rewrite bcache_section; [|apply Hr].
  apply HQ. eapply (rep_slot s a b _ n _ _ Hr (fn_insert_dec _ _ _) Hs); simpl; try done.
  - rewrite lookup_insert_eq /=. rewrite Hrf. apply u32_id. lia.
  - by rewrite Hb decide_True.
  - intros m Hm. by rewrite lookup_insert_ne.
  - rewrite lookup_insert_eq. intros c [= <-]. lia.
  - rewrite lookup_insert_eq. intros i Hi. split; [congruence|done].
  - by rewrite lookup_insert_eq.
Qed.

(** ** Boot *)

(** Before [binit] the buffers are zero. *)
Definition boot_buf : buf := mk_buf false 0 0 initsleeplock 0 0 0 ∅.

(** The ring has the first [k] buffers, the last one in front. *)
Record partial_ring (k : nat) (s0 s : fsst) : Prop := {
  pr_state : ∃ B, s = set_bufs B s0;
  pr_path : path (bufs s) bhead (reverse (seqZ 0 (Z.of_nat k))) bhead;
  pr_zero : ∀ i, slot i → dev (bufs s i) = 0 ∧ refcnt (bufs s i) = 0 ∧ locked (block_lock (bufs s i)) = false;
}.

Lemma binit_one_eq b s :
  binit_one b s = Ret (tt, set_bufs (
    let B := bufs s in
    let B1 := <[b := with_next (next (B bhead)) (B b)]> B in
    let B2 := <[b := with_prev bhead (B1 b)]> B1 in
    let B3 := <[b := with_lock initsleeplock (B2 b)]> B2 in
    let B4 := <[next (B3 bhead) := with_prev b (B3 (next (B3 bhead)))]> B3 in
    <[bhead := with_next b (B4 bhead)]> B4) s).
Proof. done. Qed.

Lemma binit_linked b s :
  b ≠ bhead → next (bufs s bhead) ≠ b →
  ∃ B, binit_one b s = Ret (tt, set_bufs B s) ∧ linked (bufs s) b B ∧
    ∀ i, i ≠ bhead → dev (B i) = dev (bufs s i) ∧ refcnt (B i) = refcnt (bufs s i) ∧
      (locked (block_lock (bufs s i)) = false → locked (block_lock (B i)) = false).
Proof.
  intros Hb Hn. rewrite binit_one_eq. eexists. split; [reflexivity|]. cbv zeta.
  set (B := bufs s) in *. set (B1 := <[b := with_next _ _]> B). set (B2 := <[b := with_prev _ _]> B1).
  set (B3 := <[b := with_lock _ _]> B2).
  assert (∀ j, next (B3 j) = next (B2 j) ∧ prev (B3 j) = prev (B2 j)) as E3.
  { intros j. rewrite /B3 fn_insert_dec. by destruct (decide (j = b)) as [->|]. }
  assert (next (B3 bhead) = next (B bhead)) as E.
  { by rewrite /B3 /B2 /B1 !fn_lookup_insert_ne. }
  rewrite E. split; [split|]; [intros j..|intros i Hi].
  - rewrite next_insert_next next_insert_prev (proj1 (E3 j)) /B2 next_insert_prev /B1 next_insert_next //.
  - rewrite prev_insert_next prev_insert_prev (proj2 (E3 j)) /B2 prev_insert_prev /B1 prev_insert_next //.
  - rewrite fn_lookup_insert_ne // fn_insert_dec.
    assert (dev (B3 i) = dev (B i) ∧ refcnt (B3 i) = refcnt (B i) ∧
      (locked (block_lock (B i)) = false → locked (block_lock (B3 i)) = false)) as H3.
    { rewrite /B3 fn_insert_dec. destruct (decide (i = b)) as [->|].
      - by rewrite /= /B2 fn_lookup_insert /= /B1 fn_lookup_insert.
      - by rewrite /B2 /B1 !fn_lookup_insert_ne. }
    destruct (decide (i = next (B bhead))) as [->|]; [|done]. done.
Qed.

Lemma binit_loop_spec n k s0 s :
  partial_ring k s0 s → (k + n = 30)%nat →
  wp (binit_loop n (Z.of_nat k)) (λ _ s', partial_ring 30 s0 s') s.
Proof.
  revert k s. induction n as [|n IH]; intros k s Hpr Hk.
  { replace k with 30%nat in Hpr by lia. by apply wp_ret. }
  destruct Hpr as [[B0 ->] Hp Hz].
  assert (reverse (seqZ 0 (Z.of_nat (S k))) = Z.of_nat k :: reverse (seqZ 0 (Z.of_nat k))) as Erev.
  { rewrite seqZ_S reverse_app /=. do 2 f_equal. }
  assert (∀ i, i ∈ reverse (seqZ 0 (Z.of_nat k)) → 0 ≤ i < Z.of_nat k) as Hin.
  { intros i. rewrite elem_of_reverse elem_of_seqZ. lia. }
  pose proof (path_first _ _ _ _ Hp) as Hn. simpl in Hn.
  destruct (binit_linked (Z.of_nat k) (set_bufs B0 s0)) as (B & Hrun & Hl & Hrest); [lia| |].
  { simpl. rewrite Hn. destruct (reverse _) as [|x r] eqn:E; simpl; [lia|].
    specialize (Hin x ltac:(set_solver)). lia. }
  simpl binit_loop. apply wp_bind. eapply wp_Ret; [exact Hrun|].
  rewrite (_ : Z.of_nat k + 1 = Z.of_nat (S k)); [|lia]. apply IH; [|lia]. split.
  - by exists B.
  - rewrite Erev. eapply linked_path; [exact Hl| |exact Hp].
    rewrite -Erev. apply NoDup_cons. split; [rewrite elem_of_reverse elem_of_seqZ; lia|].
    rewrite reverse_Permutation. apply NoDup_seqZ.
  - intros i Hi. destruct (Hz i Hi) as (H1 & H2 & H3). unfold slot in Hi.
    destruct (Hrest i) as (E1 & E2 & E3); [lia|]. simpl in *. rewrite E1 E2. by auto.
Qed.

(** After [binit] the cache is empty: every block is what the disk holds. *)
Lemma wp_binit s (Q : unit → fsst → Prop) :
  (∀ i, bufs s i = boot_buf) → BCACHE ∉ held s →
  (∀ B, rep (set_bufs B s) (mk_babs (λ n, default ∅ (disk s !! n)) ∅ ∅ (disk s)) → Q tt (set_bufs B s)) →
  wp binit Q s.
Proof.
  intros Hboot Hl HQ. rewrite /binit.
  pose proof (binit_loop_spec 30 0 s) as Hloop. change (Z.to_nat NBUF) with 30%nat.
  change (Z.of_nat 0) with 0 in Hloop. set (loop := binit_loop 30 0) in *. clearbody loop.
  apply wp_bind, wp_modify.
  rewrite (_ : set_held (held s ∖ {[BCACHE]}) s = s); last first.
  { destruct s. simpl in *. rewrite /set_fheld /=. f_equal. set_solver. }
  apply wp_bind, wp_upd_buf, wp_bind, wp_upd_buf. rewrite /set_buf /= set_bufs_bufs.
  set (B0 := <[bhead := with_next _ _]> _).
  eapply wp_mono; [eapply Hloop; [|done]|].
  - split; [by exists B0|..].
    + done.
    + intros i Hi. unfold slot in Hi. simpl. rewrite /B0 !fn_lookup_insert_ne; [|lia..].
      by rewrite Hboot.
  - intros [] s' [[B ->] Hp Hz]. cbn [bufs set_bufs] in Hz. apply HQ. split.
    + eexists. split; [exact Hp|]. apply reverse_Permutation.
    + done.
    + intros i j Hi _ Hd. destruct (Hz i Hi) as [E _]. rewrite E in Hd. done.
    + intros i Hi _. by destruct (Hz i Hi) as (_ & ? & ?).
    + intros i Hi Hd. destruct (Hz i Hi) as [E _]. rewrite E in Hd. done.
    + intros i Hi Hd. destruct (Hz i Hi) as [E _]. rewrite E in Hd. done.
    + done.
    + intros i Hi Hd. destruct (Hz i Hi) as [E _]. rewrite E in Hd. done.
    + done.
    + done.
    + done.
Qed.
