(* ===== verification/Bcache.v ===== *)
(** * The contract of the buffer cache

    What clients rely on: [cfg a t s0 s] says that the cache of state [s]
    holds the contents [a], that the disk writes so far are [t], and that the
    rest of the state is that of [s0]; there is one rule per operation.
    Module [BufSpec] is the cache as a map from block numbers to contents,
    with no buffers, no recycling and no reference to the LRU ring, and
    [bio_refines] shows that any sequence of operations, with however many
    blocks, behaves like it. *)

From stdpp Require Import functions list.
From S2P Require Import Prelude Mem Cstring Spinlock Sleeplock Bio.

Local Open Scope Z_scope.

Definition cfg (a : babs) (t : list (Z * block)) (s0 s : fsst) : Prop :=
  rep s a ∧ ∃ B, s = set_bufs B (set_disk (dsk a) t s0).

Section rules.
Context (a : babs) (t : list (Z * block)) (s0 : fsst).

Lemma cfg_disk s : cfg a t s0 s → disk s = dsk a.
Proof. by intros [_ [B ->]]. Qed.
Lemma cfg_trace s : cfg a t s0 s → wtrace s = t.
Proof. by intros [_ [B ->]]. Qed.
Lemma cfg_lg s : cfg a t s0 s → lg s = lg s0.
Proof. by intros [_ [B ->]]. Qed.
Lemma cfg_sb s : cfg a t s0 s → sb s = sb s0.
Proof. by intros [_ [B ->]]. Qed.
Lemma cfg_inodes s : cfg a t s0 s → inodes s = inodes s0.
Proof. by intros [_ [B ->]]. Qed.
Lemma cfg_held s : cfg a t s0 s → fheld s = fheld s0.
Proof. by intros [_ [B ->]]. Qed.

Lemma cfg_self s : rep s a → cfg a (wtrace s) s s.
Proof.
  intros Hr. split; [done|]. exists (bufs s). destruct s as [d tr b l p i h pid].
  rewrite -(rp_disk _ _ Hr). done.
Qed.

Lemma cfg_wf s a' : cfg a t s0 s → (∀ B, rep (set_bufs B s) a' → dsk a' = dsk a →
  cfg a' t s0 (set_bufs B s)).
Proof. intros [_ [B0 ->]] B Hr E. split; [done|]. exists B. by rewrite E. Qed.

(** A change of the rest of the state that the cache does not see. *)
Lemma rep_ext s' s : bufs s' = bufs s → disk s' = disk s → fpid s' = fpid s →
  (BCACHE ∉ held s → BCACHE ∉ held s') → rep s a → rep s' a.
Proof.
  intros Eb Ed Ep Hh []. split; rewrite ?Eb ?Ed ?Ep; eauto.
Qed.

Lemma cfg_set_lg l s : cfg a t s0 s → cfg a t (set_lg l s0) (set_lg l s).
Proof.
  intros [Hr [B ->]]. split; [|by exists B]. by eapply rep_ext; [..|exact Hr].
Qed.
Lemma cfg_set_sb l s : cfg a t s0 s → cfg a t (set_sb l s0) (set_sb l s).
Proof. intros [Hr [B ->]]. split; [|by exists B]. by eapply rep_ext; [..|exact Hr]. Qed.
Lemma cfg_set_inodes l s : cfg a t s0 s → cfg a t (set_inodes l s0) (set_inodes l s).
Proof. intros [Hr [B ->]]. split; [|by exists B]. by eapply rep_ext; [..|exact Hr]. Qed.
Lemma cfg_set_held h s : BCACHE ∉ h → cfg a t s0 s → cfg a t (set_fheld h s0) (set_fheld h s).
Proof. intros Hh [Hr [B ->]]. split; [|by exists B]. by eapply rep_ext; [..|exact Hr]. Qed.

Lemma cfg_bread n (Q : Z → fsst → Prop) s :
  cfg a t s0 s → own a !! n = None → room_for n a →
  (∀ b s', cfg (a_bread n b a) t s0 s' → Q b s') → wp (bread ROOTDEV n) Q s.
Proof.
  intros Hc Ho Hr HQ. apply (wp_bread n a); [apply Hc|done..|]. intros b B Hr'. apply HQ.
  by eapply cfg_wf.
Qed.

Lemma cfg_get_data n b (Q : block → fsst → Prop) s :
  cfg a t s0 s → own a !! n = Some b → Q (lgc a n) s → wp (get_data b) Q s.
Proof. intros [Hr _]. by apply wp_get_data. Qed.

Lemma cfg_put_data n b d (Q : unit → fsst → Prop) s :
  cfg a t s0 s → own a !! n = Some b →
  (∀ s', cfg (a_put n d a) t s0 s' → Q tt s') → wp (put_data b d) Q s.
Proof.
  intros Hc Ho HQ. eapply wp_put_data; [apply Hc|done|]. intros B Hr'. apply HQ. by eapply cfg_wf.
Qed.

Lemma cfg_bwrite n b (Q : unit → fsst → Prop) s :
  cfg a t s0 s → own a !! n = Some b →
  (∀ s', cfg (a_write n a) ((n, lgc a n) :: t) s0 s' → Q tt s') → wp (bwrite b) Q s.
Proof.
  intros [Hr [B ->]] Ho HQ. eapply wp_bwrite; [exact Hr|done|]. intros Hr'. apply HQ. split; [exact Hr'|].
  by exists B.
Qed.

Lemma cfg_brelse n b (Q : unit → fsst → Prop) s :
  cfg a t s0 s → own a !! n = Some b → (pin a !! n = Some 1 → lgc a n = default ∅ (dsk a !! n)) →
  (∀ s', cfg (a_relse n a) t s0 s' → Q tt s') → wp (brelse b) Q s.
Proof.
  intros Hc Ho Hcl HQ. eapply wp_brelse; [apply Hc|done..|]. intros B Hr'. apply HQ. by eapply cfg_wf.
Qed.

Lemma cfg_bpin n b (Q : unit → fsst → Prop) s :
  cfg a t s0 s → own a !! n = Some b → default 0 (pin a !! n) + 1 < 2 ^ 32 →
  (∀ s', cfg (a_pin n a) t s0 s' → Q tt s') → wp (bpin b) Q s.
Proof.
  intros Hc Ho Hm HQ. eapply wp_bpin; [apply Hc|done..|]. intros B Hr'. apply HQ. by eapply cfg_wf.
Qed.

Lemma cfg_bunpin n b (Q : unit → fsst → Prop) s :
  cfg a t s0 s → own a !! n = Some b → pin a !! n ≠ Some 1 →
  (∀ s', cfg (a_unpin n a) t s0 s' → Q tt s') → wp (bunpin b) Q s.
Proof.
  intros Hc Ho Hm HQ. eapply wp_bunpin; [apply Hc|done..|]. intros B Hr'. apply HQ. by eapply cfg_wf.
Qed.
End rules.

(** ** Taking and releasing a block *)

(** The contents and the disk change while a block is held; its reference
    and its lock go again. *)
Lemma pin_dec_insert n p : (∀ c, p !! n = Some c → 0 < c) →
  pin_dec n (<[n := default 0 (p !! n) + 1]> p) = p.
Proof.
  intros Hp. rewrite /pin_dec lookup_insert_eq /=. destruct (p !! n) as [c|] eqn:E; simpl.
  - specialize (Hp c eq_refl). rewrite decide_False; [|intros [= ?]; lia].
    rewrite insert_insert_eq insert_id //. rewrite E. f_equal. lia.
  - by rewrite delete_insert_id.
Qed.

Lemma relse_bread n b a f d :
  own a !! n = None → (∀ c, pin a !! n = Some c → 0 < c) →
  a_relse n (mk_babs f (pin (a_bread n b a)) (own (a_bread n b a)) d) =
    mk_babs f (pin a) (own a) d.
Proof.
  intros Ho Hp. rewrite /a_relse /a_unpin /a_bread /=. rewrite pin_dec_insert //.
  by rewrite delete_insert_id.
Qed.

(** ** The cache as a map *)

(** What a client does between [bread] and [brelse] of block [n]: look at it,
    store to it without writing, write it, pin it, unpin it. *)
Inductive bop :=
| BLook (n : Z)
| BStore (n : Z) (d : block)
| BFlush (n : Z)
| BPin (n : Z)
| BUnpin (n : Z).

Definition bop_block (o : bop) : Z :=
  match o with BLook n | BStore n _ | BFlush n | BPin n | BUnpin n => n end.

(** The operation on the machine. *)
Definition bexec (o : bop) : M fsst block :=
  b ← bread ROOTDEV (bop_block o);
  (match o with
   | BLook _ => mret tt
   | BStore _ d => put_data b d
   | BFlush _ => bwrite b
   | BPin _ => bpin b
   | BUnpin _ => bunpin b
   end);;
  r ← get_data b;
  brelse b;;
  mret r.

Fixpoint bexec_all (os : list bop) : M fsst (list block) :=
  match os with
  | [] => mret []
  | o :: os' => r ← bexec o; rs ← bexec_all os'; mret (r :: rs)
  end.

Module BufSpec.
(** Contents, pin counts and disk. *)
Record st := mk_st { cont : Z → block; pins : gmap Z Z; dsk : gmap Z block }.

(** A block may be used when it is pinned or there is a buffer to spare. *)
Definition fits (n : Z) (s : st) : bool :=
  bool_decide (is_Some (pins s !! n) ∨ (size (pins s) < 30)%nat) &&
  (default 0 (pins s !! n) + 2 <? 2 ^ 32).

(** A store is kept only while its block is pinned; the last unpin requires
    that the block has been written. *)
Definition step (o : bop) (s : st) : option (block * st) :=
  if fits (bop_block o) s then
    match o with
    | BLook n => Some (cont s n, s)
    | BStore n d =>
        if bool_decide (is_Some (pins s !! n))
        then Some (d, mk_st (<[n := d]> (cont s)) (pins s) (dsk s)) else None
    | BFlush n => Some (cont s n, mk_st (cont s) (pins s) (<[n := cont s n]> (dsk s)))
    | BPin n => Some (cont s n, mk_st (cont s) (<[n := default 0 (pins s !! n) + 1]> (pins s)) (dsk s))
    | BUnpin n =>
        match pins s !! n with
        | Some 1 => if bool_decide (cont s n = default ∅ (dsk s !! n))
                    then Some (cont s n, mk_st (cont s) (delete n (pins s)) (dsk s)) else None
        | Some c => Some (cont s n, mk_st (cont s) (<[n := c - 1]> (pins s)) (dsk s))
        | None => None
        end
    end
  else None.

Fixpoint run (os : list bop) (s : st) : option (list block * st) :=
  match os with
  | [] => Some ([], s)
  | o :: os' => r ← step o s; rs ← run os' r.2; Some (r.1 :: rs.1, rs.2)
  end.
End BufSpec.

(** The machine holds the contents of the map, no buffer locked. *)
Definition brefines (s : fsst) (c : BufSpec.st) : Prop :=
  rep s (mk_babs (BufSpec.cont c) (BufSpec.pins c) ∅ (BufSpec.dsk c)).

Lemma fits_room n c a : BufSpec.fits n c = true → pin a = BufSpec.pins c → room_for n a.
Proof.
  intros [H1%bool_decide_eq_true H2%Z.ltb_lt]%andb_true_iff E. rewrite /room_for E. split; [done|lia].
Qed.

Section bexec.
Context (s : fsst) (c : BufSpec.st) (o : bop).
Let n := bop_block o.
Let a := mk_babs (BufSpec.cont c) (BufSpec.pins c) ∅ (BufSpec.dsk c).

(** The bracket around the client's action [act]: it may change the contents,
    the pins and the disk, and keeps the block locked. *)
Lemma bexec_bracket (act : Z → M fsst unit) r c' :
  brefines s c → BufSpec.fits n c = true →
  (∀ b s1, cfg (a_bread n b a) (wtrace s) s s1 →
     wp (act b) (λ _ s2, ∃ a2 t2, cfg a2 t2 s s2 ∧ own a2 !! n = Some b ∧ lgc a2 n = r ∧
       (pin a2 !! n = Some 1 → r = default ∅ (dsk a2 !! n)) ∧
       a_relse n a2 = mk_babs (BufSpec.cont c') (BufSpec.pins c') ∅ (BufSpec.dsk c')) s1) →
  wp (b ← bread ROOTDEV n; act b;; r ← get_data b; brelse b;; mret r) (λ r' s', r' = r ∧ brefines s' c') s.
Proof.
  intros Hb Hf Hact. apply wp_bind. eapply (cfg_bread a _ s); [by apply cfg_self|done|by eapply fits_room|].
  intros b s1 Hc1. apply wp_bind. eapply wp_mono; [by apply Hact|].
  intros [] s2 (a2 & t2 & Hc2 & Ho & Hl & Hcl & Hrel). apply wp_bind. eapply cfg_get_data; [done..|].
  apply wp_bind. eapply cfg_brelse; [exact Hc2|done|by rewrite Hl|]. intros s3 Hc3. apply wp_ret.
  split; [done|]. rewrite Hrel in Hc3. apply Hc3.
Qed.
End bexec.

Lemma pin_dec_more n k p : 0 < k → pin_dec n (<[n := k + 1]> p) = <[n := k]> p.
Proof.
  intros Hk. rewrite /pin_dec lookup_insert_eq /= decide_False; [|intros [= ?]; lia].
  rewrite insert_insert_eq. f_equal. lia.
Qed.

Lemma pin_dec_last n p : pin_dec n (<[n := 1]> p) = delete n p.
Proof. by rewrite /pin_dec lookup_insert_eq /= delete_insert_eq. Qed.

Lemma bexec_refines s c o r c' :
  brefines s c → BufSpec.step o c = Some (r, c') → wp (bexec o) (λ r' s', r' = r ∧ brefines s' c') s.
Proof.
  intros Hb Hs. rewrite /BufSpec.step in Hs. destruct (BufSpec.fits _ c) eqn:Hf; [|done].
  apply (bexec_bracket s c o _ r c' Hb Hf). intros b s1 Hc1. remember (bop_block o) as n eqn:En.
  assert (∀ k, BufSpec.pins c !! n = Some k → 0 < k) as Hpos.
  { intros k Hk. destruct (rp_pinned _ _ Hb n k Hk) as [? _]. lia. }
  assert (default 0 (BufSpec.pins c !! n) + 2 < 2 ^ 32) as Hmax.
  { apply andb_true_iff in Hf as [_ ?%Z.ltb_lt]. done. }
  assert (BufSpec.pins c !! n = None → BufSpec.cont c n = default ∅ (BufSpec.dsk c !! n)) as Hclean
    by apply (rp_clean _ _ Hb).
  assert (∀ f d, a_relse n (mk_babs f (<[n := default 0 (BufSpec.pins c !! n) + 1]> (BufSpec.pins c))
            (<[n := 0]> ∅) d) = mk_babs f (BufSpec.pins c) ∅ d) as Hrel.
  { intros f d. by apply (relse_bread n 0 (mk_babs f (BufSpec.pins c) ∅ d) f d). }
  assert (own (a_bread n b (mk_babs (BufSpec.cont c) (BufSpec.pins c) ∅ (BufSpec.dsk c))) !! n = Some b)
    as Ho by apply lookup_insert_eq.
  destruct o as [m|m d|m|m|m]; simpl in En; subst m.
  - injection Hs as <- <-. apply wp_ret. eexists _, _. split_and!; [exact Hc1|exact Ho|done| |].
    + simpl. rewrite lookup_insert_eq. intros [= Hk]. apply Hclean.
      destruct (BufSpec.pins c !! n) as [k|]; [|done]. specialize (Hpos k eq_refl). simpl in Hk. lia.
    + apply (relse_bread n b (mk_babs (BufSpec.cont c) (BufSpec.pins c) ∅ (BufSpec.dsk c))); [done|exact Hpos].
  - case_bool_decide as Hp; [|done]. injection Hs as <- <-. eapply cfg_put_data; [exact Hc1|exact Ho|].
    intros s2 Hc2. eexists _, _. split_and!; [exact Hc2|exact Ho| | |].
    + simpl. apply fn_lookup_insert.
    + simpl. rewrite lookup_insert_eq. intros [= Hk]. destruct Hp as [k Hp]. rewrite Hp in Hk.
      specialize (Hpos k Hp). simpl in Hk. lia.
    + by apply (relse_bread n b (mk_babs (BufSpec.cont c) (BufSpec.pins c) ∅ (BufSpec.dsk c))).
  - injection Hs as <- <-. eapply cfg_bwrite; [exact Hc1|exact Ho|].
    intros s2 Hc2. eexists _, _. split_and!; [exact Hc2|exact Ho|done| |].
    + intros _. simpl. by rewrite lookup_insert_eq.
    + by apply (relse_bread n b (mk_babs (BufSpec.cont c) (BufSpec.pins c) ∅ (BufSpec.dsk c))).
  - injection Hs as <- <-. eapply cfg_bpin; [exact Hc1|exact Ho|simpl; rewrite lookup_insert_eq; simpl; lia|].
    intros s2 Hc2. eexists _, _. split_and!; [exact Hc2|exact Ho|done| |].
    + simpl. rewrite !lookup_insert_eq /=. intros [= Hk].
      destruct (BufSpec.pins c !! n) as [k|]; simpl in Hk; [specialize (Hpos k eq_refl)|]; lia.
    + rewrite /a_relse /a_unpin /a_pin /a_bread /= lookup_insert_eq /= insert_insert_eq.
      rewrite pin_dec_more; [|destruct (BufSpec.pins c !! n) as [k|]; [specialize (Hpos k eq_refl)|]; simpl; lia].
      by rewrite delete_insert_id.
  - destruct (BufSpec.pins c !! n) as [k|] eqn:Hk; [|done]. specialize (Hpos k eq_refl).
    assert (pin (a_bread n b (mk_babs (BufSpec.cont c) (BufSpec.pins c) ∅ (BufSpec.dsk c))) =
            <[n := k + 1]> (BufSpec.pins c)) as Epin by (by rewrite /a_bread /= Hk).
    eapply cfg_bunpin; [exact Hc1|exact Ho|rewrite Epin lookup_insert_eq; intros [= ?]; lia|].
    intros s2 Hc2. eexists _, _. split; [exact Hc2|]. split; [exact Ho|].
    assert (r = BufSpec.cont c n ∧ (k = 1 → r = default ∅ (BufSpec.dsk c !! n)) ∧
      c' = BufSpec.mk_st (BufSpec.cont c) (pin_dec n (BufSpec.pins c)) (BufSpec.dsk c)) as (-> & Hdone & ->).
    { rewrite /pin_dec Hk. destruct (decide (k = 1)) as [->|Hk1].
      - case_bool_decide as E; [|done]. injection Hs as <- <-. done.
      - rewrite decide_False; [|congruence].
        by destruct k as [|[]|]; try lia; injection Hs as <- <-. }
    split; [done|]. rewrite /a_unpin Epin /= pin_dec_more //. split.
    + rewrite lookup_insert_eq. intros [= ->]. by apply Hdone.
    + rewrite /a_relse /a_unpin /= delete_insert_id //. f_equal.
      rewrite /pin_dec lookup_insert_eq Hk /=. destruct (decide (Some k = Some 1)); [by rewrite delete_insert_eq|].
      by rewrite insert_insert_eq.
Qed.

Lemma wp_bexec_all os s c rs c' :
  brefines s c → BufSpec.run os c = Some (rs, c') →
  wp (bexec_all os) (λ rs' s', rs' = rs ∧ brefines s' c') s.
Proof.
  revert s c rs c'. induction os as [|o os IH]; intros s c rs c' Hb Hs; simpl in *.
  { injection Hs as <- <-. by apply wp_ret. }
  apply bind_Some in Hs as ([r c1] & Hs1 & Hs). apply bind_Some in Hs as ([rs1 c2] & Hs2 & Hs).
  injection Hs as <- <-. apply wp_bind. eapply wp_mono; [by eapply bexec_refines|].
  intros r' s1 [-> Hr1]. apply wp_bind. eapply wp_mono; [by eapply IH|].
  intros rs' s2 [-> Hr2]. by apply wp_ret.
Qed.

(** C17: the buffer cache is a map.  Any sequence of operations on any
    number of blocks that keeps its promises (a changed block stays pinned
    until it is written, and not all thirty buffers are pinned at once) returns
    what the operations on the map of block contents return, runs without
    panicking, and leaves the disk with exactly the blocks that were written,
    however the buffers are recycled. *)
Theorem bio_refines os s c rs c' :
  brefines s c → BufSpec.run os c = Some (rs, c') →
  wp (bexec_all os) (λ rs' s', rs' = rs ∧ brefines s' c') s.
Proof. apply wp_bexec_all. Qed.

(** ** A concrete run *)

(** The machine before [binit], on a disk with one block. *)
Definition fs_boot (d : gmap Z block) : fsst :=
  mk_fsst d [] (λ _, boot_buf) (mk_log 0 0 0 false 0 0 ∅) (mk_sb 0 0 0 0 0 0 0 0)
    (λ _, mk_inode 0 0 0 initsleeplock false 0 0 0 0 0 ∅) ∅ 1.

(** [binit], then: pin block 5, store to it, look at it, write it, unpin it. *)
Lemma bio_refines_witness :
  wp binit (λ _ s, wp (bexec_all [BPin 5; BStore 5 {[ 0 := 7 ]}; BLook 5; BFlush 5; BUnpin 5; BLook 6])
    (λ rs s', rs = [∅; {[ 0 := 7 ]}; {[ 0 := 7 ]}; {[ 0 := 7 ]}; {[ 0 := 7 ]}; ∅] ∧
              disk s' = {[ 5 := {[ 0 := 7 ]} ]}) s) (fs_boot ∅).
Proof.
  apply wp_binit; [done|simpl; set_solver|]. intros B Hr. eapply wp_mono.
  - eapply (bio_refines _ _ (BufSpec.mk_st (λ n, default ∅ (∅ !! n)) ∅ ∅)); [exact Hr|].
    vm_compute. reflexivity.
  - intros rs s' [-> Hr']. split; [done|]. rewrite (rp_disk _ _ Hr'). by vm_compute.
Defined.
