(* ===== verification/Log.v ===== *)
(** * The redo log (kernel/log.c)

    A transaction's blocks are pinned in the buffer cache; [commit] copies
    them to the log, writes the header (the commit point), installs them at
    home and clears the header.  [recover_from_log] does the installation
    again at boot.  This file has the code; LogCrash.v shows that a crash at
    any disk write is harmless, and LogSpace.v that the log does not run out
    of space.

    A process that has to wait in [begin_op] does not return in the sequential
    model ([Fuel]); [wakeup] changes nothing in the file system's state. *)

From stdpp Require Import functions list.
From S2P Require Import Prelude Mem Cstring Spinlock Sleeplock Bio Bcache.

Local Open Scope Z_scope.

Definition with_lh (n : Z) (bl : gmap Z Z) (l : log) : log :=
  mk_log (lstart l) (lsize l) (outstanding l) (committing l) (ldev l) n bl.
Definition with_outstanding (n : Z) (l : log) : log :=
  mk_log (lstart l) (lsize l) n (committing l) (ldev l) (lh_n l) (lh_block l).
Definition with_committing (c : bool) (l : log) : log :=
  mk_log (lstart l) (lsize l) (outstanding l) c (ldev l) (lh_n l) (lh_block l).

Definition upd_lg (f : log → log) : M fsst unit := modify (λ s, set_lg (f (lg s)) s).

(** [log.lh.block[i]] *)
Definition lh_get (i : Z) : M fsst Z :=
  if (0 <=? i) && (i <? LOGSIZE) then gets (λ s, default 0 (lh_block (lg s) !! i)) else undefined.
Definition lh_set (i v : Z) : M fsst unit :=
  if (0 <=? i) && (i <? LOGSIZE)
  then upd_lg (λ l, with_lh (lh_n l) (<[i := v]> (lh_block l)) l) else undefined.

(** The fields of a [struct logheader] that lies at the start of a block. *)
Notation HB_N := 0.
Definition HB_BLOCK (i : Z) : Z := 4 + 4 * i.

Definition install_one (recovering : bool) (tail : Z) : M fsst unit :=
  l ← gets lg;
  lbuf ← bread (ldev l) (u32 (lstart l + tail + 1));
  blk ← lh_get tail;
  dbuf ← bread (ldev l) (u32 blk);
  d ← get_data lbuf;
  put_data dbuf d;;
  bwrite dbuf;;
  (if recovering then mret tt else bunpin dbuf);;
  brelse lbuf;;
  brelse dbuf.

Definition install_trans (recovering : bool) : M fsst unit :=
  n ← gets (λ s, lh_n (lg s));
  for_upto 0 n (install_one recovering).

Definition read_head : M fsst unit :=
  l ← gets lg;
  buf ← bread (ldev l) (u32 (lstart l));
  d ← get_data buf;
  upd_lg (λ l, with_lh (s32 (ld32 d HB_N)) (lh_block l) l);;
  n ← gets (λ s, lh_n (lg s));
  for_upto 0 n (λ i, d ← get_data buf; lh_set i (s32 (ld32 d (HB_BLOCK i))));;
  brelse buf.

Definition write_head : M fsst unit :=
  l ← gets lg;
  buf ← bread (ldev l) (u32 (lstart l));
  d ← get_data buf;
  put_data buf (st32 d HB_N (lh_n l));;
  for_upto 0 (lh_n l) (λ i,
    v ← lh_get i; d ← get_data buf; put_data buf (st32 d (HB_BLOCK i) v));;
  bwrite buf;;
  brelse buf.

Definition recover_from_log : M fsst unit :=
  read_head;;
  install_trans true;;
  upd_lg (λ l, with_lh 0 (lh_block l) l);;
  write_head.

(** [sizeof(struct logheader)] *)
Notation SIZEOF_LOGHEADER := 124.

Definition initlog (d : Z) (b : superblock) : M fsst unit :=
  if BSIZE <=? SIZEOF_LOGHEADER then panic "initlog: too big logheader"
  else
    modify (λ s, set_held (held s ∖ {[LOGLOCK]}) s);;
    upd_lg (λ l, mk_log (s32 (sb_logstart b)) (lsize l) (outstanding l) (committing l) (ldev l)
                   (lh_n l) (lh_block l));;
    upd_lg (λ l, mk_log (lstart l) (s32 (sb_nlog b)) (outstanding l) (committing l) (ldev l)
                   (lh_n l) (lh_block l));;
    upd_lg (λ l, mk_log (lstart l) (lsize l) (outstanding l) (committing l) d (lh_n l) (lh_block l));;
    recover_from_log.

Definition begin_op : M fsst unit :=
  acquire LOGLOCK;;
  l ← gets lg;
  if committing l then out_of_fuel
  else if LOGSIZE <? lh_n l + (outstanding l + 1) * MAXOPBLOCKS then out_of_fuel
  else
    upd_lg (λ l, with_outstanding (outstanding l + 1) l);;
    release LOGLOCK.

Definition write_one (tail : Z) : M fsst unit :=
  l ← gets lg;
  to ← bread (ldev l) (u32 (lstart l + tail + 1));
  blk ← lh_get tail;
  from ← bread (ldev l) (u32 blk);
  d ← get_data from;
  put_data to d;;
  bwrite to;;
  brelse from;;
  brelse to.

Definition write_log : M fsst unit :=
  n ← gets (λ s, lh_n (lg s));
  for_upto 0 n write_one.

Definition commit : M fsst unit :=
  n ← gets (λ s, lh_n (lg s));
  if 0 <? n then
    write_log;;
    write_head;;
    install_trans false;;
    upd_lg (λ l, with_lh 0 (lh_block l) l);;
    write_head
  else mret tt.

(** [end_op] up to the release of [log.lock]: is this the last operation? *)
Definition end_op_enter : M fsst bool :=
  acquire LOGLOCK;;
  upd_lg (λ l, with_outstanding (outstanding l - 1) l);;
  l ← gets lg;
  if committing l then panic "log.committing"
  else
    do_commit ← (if outstanding l =? 0 then upd_lg (with_committing true);; mret true
                 else mret false);
    release LOGLOCK;;
    mret do_commit.

(** [if(do_commit){ ... }], without the lock. *)
Definition end_op_commit : M fsst unit :=
  commit;;
  acquire LOGLOCK;;
  upd_lg (with_committing false);;
  release LOGLOCK.

Definition end_op : M fsst unit :=
  do_commit ← end_op_enter;
  if do_commit : bool then end_op_commit else mret tt.

(** [for(i = 0; i < log.lh.n; i++) if(log.lh.block[i] == b->blockno) break;] *)
Fixpoint log_scan (fuel : nat) (i n blockno : Z) : M fsst Z :=
  match fuel with
  | O => out_of_fuel
  | S fuel' =>
      if i <? n then
        v ← lh_get i;
        if u32 v =? blockno then mret i else log_scan fuel' (i + 1) n blockno
      else mret i
  end.

Definition log_write (b : Z) : M fsst unit :=
  acquire LOGLOCK;;
  l ← gets lg;
  if (LOGSIZE <=? lh_n l) || (lsize l - 1 <=? lh_n l) then panic "too big a transaction"
  else if outstanding l <? 1 then panic "log_write outside of trans"
  else
    x ← buf_at b;
    i ← log_scan (S (Z.to_nat (lh_n l))) 0 (lh_n l) (blockno x);
    lh_set i (s32 (blockno x));;
    n ← gets (λ s, lh_n (lg s));
    (if i =? n then
       bpin b;;
       upd_lg (λ l, with_lh (lh_n l + 1) (lh_block l) l)
     else mret tt);;
    release LOGLOCK.
