(* ===== verification/LogCrash.v ===== *)
(** * Crash safety of the log

    The disk after a crash is the disk before [commit] with some prefix of
    the writes of [commit] applied ([all_crash] ranges over the prefixes of
    the recorded trace).  [recov] is what a disk holds once its log is
    replayed.  [commit_atomic] shows that at every prefix it is either the old
    or the new contents, all of it, and [boot_ok] that booting computes
    [recov], also when recovery itself is interrupted and run again. *)

From stdpp Require Import functions list.
From S2P Require Import Prelude Mem Cstring Spinlock Sleeplock Bio Bcache Log.

Local Open Scope Z_scope.

(** ** Disks and traces *)

Definition contents (d : gmap Z block) (x : Z) : block := default ∅ (d !! x).

Lemma contents_insert d x b y : contents (<[x := b]> d) y = if decide (y = x) then b else contents d y.
Proof.
  rewrite /contents. case_decide as E; [subst; by rewrite lookup_insert_eq|].
  by rewrite lookup_insert_ne.
Qed.

(** The writes of a trace, newest first, applied to a disk. *)
Definition replay (t : list (Z * block)) (d : gmap Z block) : gmap Z block :=
  foldr (λ w d, <[w.1 := w.2]> d) d t.

(** [P] holds of the disk before the trace, after it, and at every crash in
    between. *)
Definition all_crash (P : gmap Z block → Prop) (d : gmap Z block) (t : list (Z * block)) : Prop :=
  ∀ t1, t1 `suffix_of` t → P (replay t1 d).

Lemma all_crash_nil (P : gmap Z block → Prop) d : P d → all_crash P d [].
Proof. intros HP t1 ->%suffix_nil_inv. done. Qed.

Lemma all_crash_cons (P : gmap Z block → Prop) d w t :
  all_crash P d t → P (<[w.1 := w.2]> (replay t d)) → all_crash P d (w :: t).
Proof. intros Ha HP t1 [[|w' k] Hk]; simplify_eq/=; [exact HP|]. apply Ha. by exists k. Qed.

(** ** The rules under the crash predicate *)

Section jrn.
Context (P : gmap Z block → Prop) (d0 : gmap Z block) (t0 : list (Z * block)).

Definition jrn (s : fsst) (a : babs) (s1 : fsst) : Prop :=
  ∃ t, cfg a (t ++ t0) s s1 ∧ all_crash P d0 t ∧ replay t d0 = dsk a.

Lemma jrn_start s a : rep s a → P (disk s) → d0 = disk s → t0 = wtrace s → jrn s a s.
Proof.
  intros Hr HP Ed Et. exists []. rewrite /= Ed Et. split_and!; [by apply cfg_self|by apply all_crash_nil|].
  apply (rp_disk _ _ Hr).
Qed.

Lemma jrn_rep s a s1 : jrn s a s1 → rep s1 a.
Proof. by intros (t & [Hr _] & _). Qed.
Lemma jrn_lg s a s1 : jrn s a s1 → lg s1 = lg s.
Proof. intros (t & Hc & _). by eapply cfg_lg. Qed.

Lemma jrn_set_lg l s a s1 : jrn s a s1 → jrn (set_lg l s) a (set_lg l s1).
Proof. intros (t & Hc & Ha & Hr). exists t. split_and!; [by apply cfg_set_lg|done..]. Qed.

Lemma rep_same s a a' :
  rep s a → (∀ n, lgc a' n = lgc a n) → pin a' = pin a → own a' = own a → dsk a' = dsk a → rep s a'.
Proof.
  intros [] Hl Hp Ho Hd. split; rewrite ?Hp ?Ho ?Hd; try done.
  - intros i Hi Hdev. rewrite Hl. eauto.
  - intros n Hn. rewrite Hl. eauto.
Qed.

Lemma jrn_same s a a' s1 :
  jrn s a s1 → (∀ n, lgc a' n = lgc a n) → pin a' = pin a → own a' = own a → dsk a' = dsk a →
  jrn s a' s1.
Proof.
  intros (t & [Hr [B ->]] & Ha & Ht) Hl Hp Ho Hd. exists t. rewrite Hd. split_and!; [|done..].
  split; [by eapply rep_same|]. exists B. by rewrite Hd.
Qed.

Lemma jrn_bread s a s1 n (Q : Z → fsst → Prop) :
  jrn s a s1 → own a !! n = None → room_for n a →
  (∀ b s', jrn s (a_bread n b a) s' → Q b s') → wp (bread ROOTDEV n) Q s1.
Proof.
  intros (t & Hc & Ha & Ht) Ho Hr HQ. eapply cfg_bread; [done..|]. intros b s' Hc'. apply HQ. by exists t.
Qed.

Lemma jrn_get_data s a s1 n b (Q : block → fsst → Prop) :
  jrn s a s1 → own a !! n = Some b → Q (lgc a n) s1 → wp (get_data b) Q s1.
Proof. intros (t & Hc & _). by eapply cfg_get_data. Qed.

Lemma jrn_put_data s a s1 n b d (Q : unit → fsst → Prop) :
  jrn s a s1 → own a !! n = Some b →
  (∀ s', jrn s (a_put n d a) s' → Q tt s') → wp (put_data b d) Q s1.
Proof.
  intros (t & Hc & Ha & Ht) Ho HQ. eapply cfg_put_data; [done..|]. intros s' Hc'. apply HQ. by exists t.
Qed.

Lemma jrn_bwrite s a s1 n b (Q : unit → fsst → Prop) :
  jrn s a s1 → own a !! n = Some b → P (dsk (a_write n a)) →
  (∀ s', jrn s (a_write n a) s' → Q tt s') → wp (bwrite b) Q s1.
Proof.
  intros (t & Hc & Ha & Ht) Ho HP HQ. eapply cfg_bwrite; [done..|]. intros s' Hc'. apply HQ.
  exists ((n, lgc a n) :: t). split_and!; [done| |by rewrite /= Ht].
  apply all_crash_cons; [done|]. by rewrite Ht.
Qed.

Lemma jrn_brelse s a s1 n b (Q : unit → fsst → Prop) :
  jrn s a s1 → own a !! n = Some b → (pin a !! n = Some 1 → lgc a n = default ∅ (dsk a !! n)) →
  (∀ s', jrn s (a_relse n a) s' → Q tt s') → wp (brelse b) Q s1.
Proof.
  intros (t & Hc & Ha & Ht) Ho Hcl HQ. eapply cfg_brelse; [done..|]. intros s' Hc'. apply HQ. by exists t.
Qed.

Lemma jrn_bunpin s a s1 n b (Q : unit → fsst → Prop) :
  jrn s a s1 → own a !! n = Some b → pin a !! n ≠ Some 1 →
  (∀ s', jrn s (a_unpin n a) s' → Q tt s') → wp (bunpin b) Q s1.
Proof.
  intros (t & Hc & Ha & Ht) Ho Hm HQ. eapply cfg_bunpin; [done..|]. intros s' Hc'. apply HQ. by exists t.
Qed.
End jrn.

(** ** The log's state *)

Definition in_log (l : log) (x : Z) : Prop := lstart l ≤ x < lstart l + lsize l.

(** The in-memory header lists the blocks [hs]. *)
Record logged (l : log) (hs : list Z) : Prop := {
  lo_dev : ldev l = ROOTDEV;
  lo_area : 0 ≤ lstart l ∧ lstart l + lsize l < 2 ^ 31;
  lo_n : lh_n l = Z.of_nat (length hs);
  lo_fit : (length hs ≤ 30)%nat ∧ Z.of_nat (length hs) < lsize l;
  lo_blk : ∀ i h, hs !! i = Some h → lh_block l !! Z.of_nat i = Some h;
  lo_nodup : NoDup hs;
  lo_home : ∀ h, h ∈ hs → 0 ≤ h < 2 ^ 31 ∧ ¬ in_log l h;
}.

(** No buffer is locked, the log area is not pinned, and a buffer is to
    spare. *)
Record log_idle (l : log) (a : babs) : Prop := {
  li_own : own a = ∅;
  li_pin : ∀ x, in_log l x → pin a !! x = None;
  li_room : (size (pin a) < 30)%nat;
  li_bound : ∀ n c, pin a !! n = Some c → 0 < c ∧ c + 2 < 2 ^ 32;
}.

(** The [i]-th block of the log area. *)
Definition log_block (l : log) (i : nat) : Z := lstart l + 1 + Z.of_nat i.

Lemma lh_get_eq l hs i h s :
  logged l hs → lg s = l → hs !! i = Some h → lh_get (Z.of_nat i) s = Ret (h, s).
Proof.
  intros Hl E Hh. pose proof (lookup_lt_Some _ _ _ Hh). destruct (lo_fit _ _ Hl) as [Hf _].
  rewrite /lh_get. rewrite (_ : (0 <=? Z.of_nat i) && (Z.of_nat i <? LOGSIZE) = true); [|lia].
  by rewrite /gets E (lo_blk _ _ Hl _ _ Hh).
Qed.

Lemma idle_room l a n : log_idle l a → pin a !! n = None → room_for n a.
Proof. intros Hi Hp. rewrite /room_for Hp /=. split; [right; apply Hi|lia]. Qed.

(** A pinned block can be read next to one more block. *)
Lemma pinned_room l a n k b :
  log_idle l a → is_Some (pin a !! n) → n ≠ k → room_for n (a_bread k b a).
Proof.
  intros Hi [c Hc] Hne. destruct (li_bound _ _ Hi _ _ Hc). rewrite /room_for /= lookup_insert_ne // Hc /=.
  split; [left; eauto|lia].
Qed.

Lemma logged_block l hs i : logged l hs → (i < length hs)%nat → in_log l (log_block l i).
Proof. intros Hl Hi. destruct (lo_fit _ _ Hl). rewrite /in_log /log_block. lia. Qed.

Lemma logged_ne l hs i j h : logged l hs → hs !! i = Some h → (j < length hs)%nat → h ≠ log_block l j.
Proof.
  intros Hl Hh Hj ->. apply list_elem_of_lookup_2 in Hh. apply (lo_home _ _ Hl) in Hh as [_ Hn].
  apply Hn. by eapply logged_block.
Qed.

Lemma log_block_u32 l hs i : logged l hs → (i < length hs)%nat →
  u32 (lstart l + Z.of_nat i + 1) = log_block l i.
Proof.
  intros Hl Hi. destruct (lo_area _ _ Hl), (lo_fit _ _ Hl). rewrite /log_block. rewrite u32_id; lia.
Qed.

Section steps.
Context (P : gmap Z block → Prop) (d0 : gmap Z block) (t0 : list (Z * block)).
Context (s : fsst) (hs : list Z) (Hlog : logged (lg s) hs).

(** The two blocks of one round of [write_log] and [install_trans]. *)
Lemma wp_two_blocks a s1 i h (body : Z → Z → M fsst unit) (Q : unit → fsst → Prop) :
  let k := log_block (lg s) i in
  log_idle (lg s) a → hs !! i = Some h → (∀ b, room_for h (a_bread k b a)) → jrn P d0 t0 s a s1 →
  (∀ b1 b2 s2, jrn P d0 t0 s (a_bread h b2 (a_bread k b1 a)) s2 → wp (body b1 b2) Q s2) →
  wp (l ← gets lg; x ← bread (ldev l) (u32 (lstart l + Z.of_nat i + 1)); blk ← lh_get (Z.of_nat i);
      y ← bread (ldev l) (u32 blk); body x y) Q s1.
Proof.
  intros k Hi Hh Hroom Hj Hbody. pose proof (lookup_lt_Some _ _ _ Hh) as Hlt.
  assert (h ≠ k) as Hne by (by eapply logged_ne).
  assert (pin a !! k = None) as Hk by (by eapply li_pin, logged_block).
  destruct (lo_home _ _ Hlog h) as [Hh2 _]; [by eapply list_elem_of_lookup_2|].
  apply wp_bind, wp_gets. rewrite (jrn_lg _ _ _ _ _ _ Hj) (lo_dev _ _ Hlog).
  rewrite (log_block_u32 _ _ _ Hlog Hlt). fold k. apply wp_bind.
  eapply jrn_bread; [exact Hj|by rewrite (li_own _ _ Hi)|by eapply idle_room|]. intros b1 s2 Hj2.
  apply wp_bind. eapply wp_Ret; [eapply lh_get_eq; [exact Hlog|by eapply jrn_lg|exact Hh]|].
  rewrite u32_id; [|lia]. apply wp_bind.
  eapply jrn_bread; [exact Hj2|by rewrite /= lookup_insert_ne // (li_own _ _ Hi)|apply Hroom|].
  intros b2 s3 Hj3. by apply Hbody.
Qed.

(** The block [k] of the log area is clean and can be released. *)
Lemma clean_block a s1 k : jrn P d0 t0 s a s1 → pin a !! k = None → lgc a k = contents (dsk a) k.
Proof. intros Hj Hk. by apply (rp_clean _ _ (jrn_rep _ _ _ _ _ _ Hj)). Qed.

(** One block goes to the log. *)
Lemma write_one_ok a s1 i h :
  let k := log_block (lg s) i in
  let a' := mk_babs (<[k := lgc a h]> (lgc a)) (pin a) (own a) (<[k := lgc a h]> (dsk a)) in
  log_idle (lg s) a → hs !! i = Some h → is_Some (pin a !! h) → jrn P d0 t0 s a s1 →
  P (dsk a') → wp (write_one (Z.of_nat i)) (λ _ s2, jrn P d0 t0 s a' s2) s1.
Proof.
  intros k a' Hi Hh [c Hc] Hj HP. pose proof (lookup_lt_Some _ _ _ Hh) as Hlt.
  assert (h ≠ k) as Hne by (by eapply logged_ne).
  assert (pin a !! k = None) as Hk by (by eapply li_pin, logged_block).
  destruct (li_bound _ _ Hi _ _ Hc) as [Hc0 Hc1].
  rewrite /write_one.
  eapply (wp_two_blocks a s1 i h); [exact Hi|exact Hh|intros b; eapply pinned_room; eauto|exact Hj|].
  intros b1 b2 s2 Hj2.
  fold k in Hj2. set (a1 := a_bread k b1 a) in *. set (a2 := a_bread h b2 a1) in *.
  assert (own a1 !! k = Some b1) as Hk1 by apply lookup_insert_eq.
  assert (own a2 !! k = Some b1) as Hk2 by (rewrite /= lookup_insert_ne //).
  assert (own a2 !! h = Some b2) as Hh2 by apply lookup_insert_eq.
  assert (pin a1 !! h = Some c) as Hp1 by (rewrite /= lookup_insert_ne //).
  apply wp_bind. eapply jrn_get_data; [exact Hj2|exact Hh2|].
  apply wp_bind. eapply jrn_put_data; [exact Hj2|exact Hk2|]. intros s3 Hj3.
  assert (a_write k (a_put k (lgc a2 h) a2) = mk_babs (lgc a') (pin a2) (own a2) (dsk a')) as E.
  { by rewrite /a_write /a_put /= fn_lookup_insert. }
  apply wp_bind. eapply (jrn_bwrite _ _ _ _ _ _ k); [exact Hj3|exact Hk2|by rewrite E|].
  intros s4 Hj4. rewrite E in Hj4. apply wp_bind.
  eapply (jrn_brelse _ _ _ _ _ _ h); [exact Hj4|exact Hh2| |].
  { simpl. rewrite -/(pin a1) lookup_insert_eq Hp1 /=. intros [= ?]. lia. }
  intros s5 Hj5. rewrite relse_bread in Hj5; [|by rewrite /= lookup_insert_ne // (li_own _ _ Hi)|].
  2: { rewrite Hp1. by intros c' [= <-]. }
  eapply (jrn_brelse _ _ _ _ _ _ k); [exact Hj5|exact Hk1| |].
  { intros _. by rewrite /= fn_lookup_insert lookup_insert_eq. }
  intros s6 Hj6. rewrite relse_bread in Hj6; [done|by rewrite (li_own _ _ Hi)|by rewrite Hk].
Qed.

(** One block is installed at home from the log. *)
Lemma install_one_ok (recovering : bool) a s1 i h :
  let k := log_block (lg s) i in
  let a' := mk_babs (<[h := lgc a k]> (lgc a)) (if recovering then pin a else pin_dec h (pin a)) (own a)
              (<[h := lgc a k]> (dsk a)) in
  log_idle (lg s) a → hs !! i = Some h →
  (if recovering then (size (pin a) < 29)%nat ∧ pin a !! h = None else is_Some (pin a !! h)) →
  jrn P d0 t0 s a s1 → P (dsk a') →
  wp (install_one recovering (Z.of_nat i)) (λ _ s2, jrn P d0 t0 s a' s2) s1.
Proof.
  intros k a' Hi Hh Hpin Hj HP. pose proof (lookup_lt_Some _ _ _ Hh) as Hlt.
  assert (h ≠ k) as Hne by (by eapply logged_ne).
  assert (pin a !! k = None) as Hk by (by eapply li_pin, logged_block).
  pose proof (clean_block _ _ _ Hj Hk) as Hclean.
  rewrite /install_one. eapply (wp_two_blocks a s1 i h); [exact Hi|exact Hh| |exact Hj|].
  { intros b. destruct recovering; [|eapply pinned_room; eauto]. destruct Hpin as [Hsz Hp].
    rewrite /room_for /= lookup_insert_ne // Hp /=. split; [right|lia].
    rewrite map_size_insert_None //. rewrite -/k. fold k. lia. }
  intros b1 b2 s2 Hj2. fold k in Hj2. set (a1 := a_bread k b1 a) in *. set (a2 := a_bread h b2 a1) in *.
  assert (own a2 !! k = Some b1) as Hk2 by (rewrite /= lookup_insert_ne //; apply lookup_insert_eq).
  assert (own a2 !! h = Some b2) as Hh2 by apply lookup_insert_eq.
  apply wp_bind. eapply jrn_get_data; [exact Hj2|exact Hk2|].
  apply wp_bind. eapply jrn_put_data; [exact Hj2|exact Hh2|]. intros s3 Hj3.
  assert (a_write h (a_put h (lgc a2 k) a2) = mk_babs (lgc a') (pin a2) (own a2) (dsk a')) as E.
  { by rewrite /a_write /a_put /= fn_lookup_insert. }
  apply wp_bind. eapply (jrn_bwrite _ _ _ _ _ _ h); [exact Hj3|exact Hh2|by rewrite E|].
  intros s4 Hj4. rewrite E in Hj4.
  set (p5 := if recovering then pin a2 else pin a1).
  apply wp_bind. eapply (wp_mono _ (λ _ s5, jrn P d0 t0 s (mk_babs (lgc a') p5 (own a2) (dsk a')) s5)).
  { destruct recovering; [by apply wp_ret|]. destruct Hpin as [c Hc].
    destruct (li_bound _ _ Hi _ _ Hc) as [Hc0 Hc1].
    assert (pin a1 !! h = Some c) as Hp1 by (rewrite /= lookup_insert_ne //).
    eapply (jrn_bunpin _ _ _ _ _ _ h); [exact Hj4|exact Hh2| |].
    { simpl. rewrite -/(pin a1) lookup_insert_eq Hp1 /=. intros [= ?]. lia. }
    intros s5 Hj5. rewrite /a_unpin /= in Hj5. rewrite -/(pin a1) pin_dec_insert // in Hj5.
    rewrite Hp1. by intros c' [= <-]. }
  intros [] s5 Hj5. apply wp_bind.
  eapply (jrn_brelse _ _ _ _ _ _ k); [exact Hj5|exact Hk2| |].
  { intros _. rewrite /= fn_lookup_insert_ne // lookup_insert_ne //. }
  intros s6 Hj6. eapply (jrn_brelse _ _ _ _ _ _ h); [exact Hj6| | |].
  { rewrite /= lookup_delete_ne // lookup_insert_eq //. }
  { intros _. by rewrite /= fn_lookup_insert lookup_insert_eq. }
  intros s7 Hj7. rewrite /a_relse /a_unpin /= in Hj7.
  rewrite (_ : mk_babs _ _ _ _ = a') // in Hj7. rewrite /a' (li_own _ _ Hi).
  f_equal; [|by rewrite delete_insert_ne // !delete_insert_eq !delete_empty].
  subst p5. destruct recovering.
  - destruct Hpin as [_ Hp]. rewrite /= lookup_insert_ne // Hp Hk /=.
    rewrite insert_insert_ne //. rewrite pin_dec_last delete_id; [|by rewrite lookup_insert_ne].
    by rewrite pin_dec_last delete_id.
  - by rewrite /= Hk /= pin_dec_last delete_id.
Qed.
End steps.

(** ** The header block *)

Definition hdr (b : block) : list Z := (λ i, s32 (ld32 b (HB_BLOCK i))) <$> seqZ 0 (s32 (ld32 b HB_N)).

(** The first [n] block numbers written into the header. *)
Fixpoint head_fill (bl : gmap Z Z) (n : nat) (d : block) : block :=
  match n with
  | O => d
  | S n' => st32 (head_fill bl n' d) (HB_BLOCK (Z.of_nat n')) (default 0 (bl !! Z.of_nat n'))
  end.

Definition head_data (l : log) (d : block) : block :=
  head_fill (lh_block l) (Z.to_nat (lh_n l)) (st32 d HB_N (lh_n l)).

Lemma ld32_st32_ne m a b v : b + 4 ≤ a ∨ a + 4 ≤ b → ld32 (st32 m a v) b = ld32 m b.
Proof. apply (ldle_stle_ne 4 4). Qed.

Lemma head_fill_n bl n d : ld32 (head_fill bl n d) HB_N = ld32 d HB_N.
Proof. induction n as [|n IH]; [done|]. simpl. rewrite ld32_st32_ne //. unfold HB_BLOCK. lia. Qed.

Lemma head_fill_block bl n d i :
  0 ≤ i < Z.of_nat n → ld32 (head_fill bl n d) (HB_BLOCK i) = u32 (default 0 (bl !! i)).
Proof.
  induction n as [|n IH]; intros Hi; [lia|]. simpl. destruct (decide (i = Z.of_nat n)) as [->|Hne].
  - apply ld32_st32.
  - rewrite ld32_st32_ne; [apply IH; lia|]. unfold HB_BLOCK. lia.
Qed.

Lemma s32_u32 x : 0 ≤ x < 2 ^ 31 → s32 (u32 x) = x.
Proof. intros Hx. rewrite /s32 /u32 (Z.mod_small x); [|lia]. rewrite Z.mod_small; lia. Qed.

Lemma hdr_head_data l hs d : logged l hs → hdr (head_data l d) = hs.
Proof.
  intros Hl. pose proof (lo_n _ _ Hl) as Hn. destruct (lo_fit _ _ Hl) as [Hf _].
  apply list_eq. intros i. rewrite /hdr /head_data.
  rewrite head_fill_n ld32_st32 Hn s32_u32; [|lia]. rewrite Nat2Z.id list_lookup_fmap.
  destruct (hs !! i) as [h|] eqn:Hh.
  - pose proof (lookup_lt_Some _ _ _ Hh). rewrite lookup_seqZ_lt; [|lia]. rewrite Z.add_0_l.
    rewrite /= head_fill_block; [|lia].
    rewrite (lo_blk _ _ Hl _ _ Hh) /= s32_u32 //. apply (lo_home _ _ Hl). by eapply list_elem_of_lookup_2.
  - apply lookup_ge_None in Hh. rewrite lookup_seqZ_ge //. lia.
Qed.

Section head.
Context (P : gmap Z block → Prop) (d0 : gmap Z block) (t0 : list (Z * block)).
Context (s : fsst) (hs : list Z) (Hlog : logged (lg s) hs).
Let L := lstart (lg s).

Lemma head_in_log : in_log (lg s) L.
Proof. destruct (lo_fit _ _ Hlog). rewrite /in_log /L. lia. Qed.

Lemma head_u32 : u32 L = L.
Proof. destruct (lo_area _ _ Hlog), (lo_fit _ _ Hlog). rewrite /L u32_id //. lia. Qed.

(** The header goes to the disk. *)
Lemma write_head_ok a s1 :
  let D := head_data (lg s) (lgc a L) in
  let a' := mk_babs (<[L := D]> (lgc a)) (pin a) (own a) (<[L := D]> (dsk a)) in
  log_idle (lg s) a → jrn P d0 t0 s a s1 → P (dsk a') →
  wp write_head (λ _ s2, jrn P d0 t0 s a' s2) s1.
Proof.
  intros D a' Hi Hj HP. pose proof (li_pin _ _ Hi _ head_in_log) as Hk.
  pose proof (lo_n _ _ Hlog) as Hn.
  rewrite /write_head. apply wp_bind, wp_gets. rewrite (jrn_lg _ _ _ _ _ _ Hj) (lo_dev _ _ Hlog).
  fold L. rewrite head_u32. apply wp_bind.
  eapply jrn_bread; [exact Hj|by rewrite (li_own _ _ Hi)|by eapply idle_room|]. intros b s2 Hj2.
  set (a1 := a_bread L b a) in *.
  assert (own a1 !! L = Some b) as Hb by apply lookup_insert_eq.
  apply wp_bind. eapply jrn_get_data; [exact Hj2|exact Hb|].
  apply wp_bind. eapply jrn_put_data; [exact Hj2|exact Hb|]. intros s3 Hj3. apply wp_bind.
  set (D0 := st32 (lgc a1 L) HB_N (lh_n (lg s))) in *.
  eapply (wp_for_upto (λ j s', jrn P d0 t0 s
    (a_put L (head_fill (lh_block (lg s)) (Z.to_nat j) D0) a1) s')); [lia|exact Hj3| |].
  { intros j s' Hjr Hjj. destruct (lookup_lt_is_Some_2 hs (Z.to_nat j)) as [h Hh]; [lia|].
    apply wp_bind. rewrite -(Z2Nat.id j); [|lia].
    eapply wp_Ret; [eapply lh_get_eq; [exact Hlog|by eapply jrn_lg|exact Hh]|].
    apply wp_bind. eapply (jrn_get_data _ _ _ _ _ _ L); [exact Hjj|exact Hb|].
    eapply (jrn_put_data _ _ _ _ _ _ L); [exact Hjj|exact Hb|]. intros s'' Hj'.
    rewrite Z.add_1_r Z2Nat.inj_succ; [|lia]. rewrite Nat2Z.id. eapply jrn_same; [exact Hj'|..]; try done.
    intros n. rewrite /= !fn_insert_dec. destruct (decide (n = L)) as [->|]; [|done].
    rewrite decide_True //= (lo_blk _ _ Hlog _ _ Hh) //. }
  intros s4 Hj4. apply wp_bind.
  assert (a_write L (a_put L D a1) = mk_babs (lgc a') (pin a1) (own a1) (dsk a')) as E.
  { by rewrite /a_write /a_put /= fn_lookup_insert. }
  eapply (jrn_bwrite _ _ _ _ _ _ L); [exact Hj4|exact Hb|by rewrite -/D E|].
  intros s5 Hj5. eapply (jrn_brelse _ _ _ _ _ _ L); [exact Hj5|exact Hb| |].
  { intros _. by rewrite /= lookup_insert_eq. }
  intros s6 Hj6. rewrite -/D E relse_bread in Hj6; [done|by rewrite (li_own _ _ Hi)|by rewrite Hk].
Qed.
End head.

(** ** What a disk holds once its log is replayed *)

Definition recov (L : Z) (d : gmap Z block) (x : Z) : block :=
  match list_find (x =.) (hdr (contents d L)) with
  | Some (i, _) => contents d (L + 1 + Z.of_nat i)
  | None => contents d x
  end.

Lemma recov_empty L d x : hdr (contents d L) = [] → recov L d x = contents d x.
Proof. intros E. by rewrite /recov E. Qed.

(** With the header [hs], home blocks in [hs] come from the log. *)
Lemma recov_logged L d x hs :
  hdr (contents d L) = hs → NoDup hs →
  (∀ i, hs !! i = Some x → recov L d x = contents d (L + 1 + Z.of_nat i)) ∧
  (x ∉ hs → recov L d x = contents d x).
Proof.
  intros E Hnd. rewrite /recov E. destruct (list_find (x =.) hs) as [[i y]|] eqn:Hf.
  - apply list_find_Some in Hf as (Hi & <- & _). split.
    + intros j Hj. by rewrite (NoDup_lookup _ _ _ _ Hnd Hi Hj).
    + intros Hx. destruct Hx. by eapply list_elem_of_lookup_2.
  - apply list_find_None in Hf. split; [|done]. intros i Hi. rewrite Forall_forall in Hf.
    by destruct (Hf x (list_elem_of_lookup_2 _ _ _ Hi)).
Qed.

(** A log header on disk that [recover_from_log] can trust. *)
Record valid_log (l : log) (d : gmap Z block) : Prop := {
  vl_fit : (length (hdr (contents d (lstart l))) ≤ 30)%nat ∧
    Z.of_nat (length (hdr (contents d (lstart l)))) < lsize l;
  vl_len : s32 (ld32 (contents d (lstart l)) HB_N) = Z.of_nat (length (hdr (contents d (lstart l))));
  vl_nodup : NoDup (hdr (contents d (lstart l)));
  vl_home : ∀ h, h ∈ hdr (contents d (lstart l)) → 0 ≤ h < 2 ^ 31 ∧ ¬ in_log l h;
}.

Lemma hdr_len l hs d : logged l hs → s32 (ld32 (head_data l d) HB_N) = Z.of_nat (length hs).
Proof.
  intros Hl. destruct (lo_fit _ _ Hl). rewrite /head_data head_fill_n ld32_st32 (lo_n _ _ Hl).
  rewrite s32_u32; lia.
Qed.

(** A disk whose header block was written from the header [hs]. *)
Lemma logged_valid l hs d d' :
  logged l hs → contents d (lstart l) = head_data l d' → valid_log l d.
Proof.
  intros Hl E. pose proof (hdr_head_data l hs d' Hl) as Eh. pose proof (hdr_len l hs d' Hl) as En.
  split; rewrite ?E ?Eh; try apply Hl. by rewrite En.
Qed.

Section commit.
Context (s : fsst) (a : babs) (hs : list Z).
Context (Hrep : rep s a) (Hlog : logged (lg s) hs) (Hidle : log_idle (lg s) a).
Context (Hpin : ∀ h, h ∈ hs → is_Some (pin a !! h)).
Context (Hvalid : valid_log (lg s) (disk s)).
Context (Hempty : hdr (contents (disk s) (lstart (lg s))) = []).
Let L := lstart (lg s).
Let n := length hs.

(** The transaction's blocks have their new contents. *)
Definition new_block (x : Z) : block := if decide (x ∈ hs) then lgc a x else contents (disk s) x.

Definition all_old (d : gmap Z block) : Prop :=
  ∀ x, ¬ in_log (lg s) x → recov L d x = contents (disk s) x.
Definition all_new (d : gmap Z block) : Prop := ∀ x, ¬ in_log (lg s) x → recov L d x = new_block x.
Definition old_or_new (d : gmap Z block) : Prop := valid_log (lg s) d ∧ (all_old d ∨ all_new d).

Abbreviation J := (jrn old_or_new (disk s) (wtrace s)).

(** [j] blocks of the log are written. *)
Definition in_copied (j x : Z) : Prop := L < x ≤ L + j.
#[local] Instance in_copied_dec j x : Decision (in_copied j x).
Proof. rewrite /in_copied. apply _. Defined.
Definition copied (j : Z) (f : Z → block) (x : Z) : block :=
  if decide (in_copied j x) then lgc a (hs !!! Z.to_nat (x - L - 1)) else f x.

Lemma copied_log j f x : j ≤ Z.of_nat n → ¬ in_log (lg s) x → copied j f x = f x.
Proof.
  intros Hj Hx. rewrite /copied decide_False //. intros H. apply Hx.
  destruct (lo_fit _ _ Hlog) as [_ Hf]. rewrite /in_copied in H. rewrite /in_log -/L. fold n in Hf. lia.
Qed.

Lemma copied_head j f : copied j f L = f L.
Proof. rewrite /copied decide_False //. rewrite /in_copied. lia. Qed.

Lemma copied_next i h f x :
  hs !! i = Some h →
  copied (Z.of_nat i + 1) f x = if decide (x = log_block (lg s) i) then lgc a h else copied (Z.of_nat i) f x.
Proof.
  intros Hh. rewrite /copied /in_copied. destruct (decide (x = log_block (lg s) i)) as [->|Hne].
  - rewrite /log_block -/L decide_True; [|lia]. f_equal.
    rewrite (_ : Z.to_nat _ = i); [|lia]. by apply list_lookup_total_correct.
  - rewrite /log_block -/L in Hne. repeat case_decide; try done; lia.
Qed.

Record phase1 (j : Z) (s1 : fsst) (a1 : babs) : Prop := {
  p1_jrn : J s a1 s1;
  p1_pin : pin a1 = pin a;
  p1_own : own a1 = own a;
  p1_lgc : ∀ x, lgc a1 x = copied j (lgc a) x;
  p1_dsk : ∀ x, contents (dsk a1) x = copied j (contents (disk s)) x;
}.

Lemma phase1_idle j s1 a1 : phase1 j s1 a1 → log_idle (lg s) a1.
Proof. intros [_ Hp Ho _ _]. destruct Hidle. split; rewrite ?Hp ?Ho; done. Qed.

Lemma phase1_old j d :
  j ≤ Z.of_nat n → (∀ x, contents d x = copied j (contents (disk s)) x) → old_or_new d.
Proof.
  intros Hj Hd. pose proof (Hd L) as E. rewrite copied_head in E. split.
  - destruct Hvalid. split; fold L; by rewrite E.
  - left. intros x Hx. rewrite recov_empty; [by rewrite Hd copied_log|by rewrite E].
Qed.

Lemma write_log_ok : wp write_log (λ _ s1, ∃ a1, phase1 (Z.of_nat n) s1 a1) s.
Proof.
  rewrite /write_log. apply wp_bind, wp_gets. rewrite (lo_n _ _ Hlog) -/n.
  apply (wp_for_upto (λ j s1, ∃ a1, phase1 j s1 a1)); [lia| | |done].
  - exists a. split; try done.
    + apply jrn_start; try done. apply (phase1_old 0); [lia|]. intros x.
      rewrite /copied decide_False //. rewrite /in_copied. lia.
    + intros x. rewrite /copied decide_False //. rewrite /in_copied. lia.
    + intros x. rewrite -(rp_disk _ _ Hrep). rewrite /copied decide_False //. rewrite /in_copied. lia.
  - intros j s1 Hjr [a1 H1]. pose proof (phase1_idle _ _ _ H1) as Hi1. destruct H1 as [Hj Hp Ho Hl Hd].
    destruct (lookup_lt_is_Some_2 hs (Z.to_nat j)) as [h Hh]; [lia|].
    assert (h ∈ hs) as Hin by (by eapply list_elem_of_lookup_2).
    assert (lgc a1 h = lgc a h) as Eh.
    { rewrite Hl copied_log //; [lia|]. by apply (lo_home _ _ Hlog). }
    rewrite -(Z2Nat.id j); [|lia].
    assert (∀ x, contents (<[log_block (lg s) (Z.to_nat j) := lgc a1 h]> (dsk a1)) x =
      copied (Z.of_nat (Z.to_nat j) + 1) (contents (disk s)) x) as Hd'.
    { intros x. rewrite contents_insert (copied_next _ h) // Eh Hd Z2Nat.id //. lia. }
    eapply wp_mono; [eapply (write_one_ok _ _ _ s hs Hlog a1 s1 (Z.to_nat j) h Hi1 Hh); [|exact Hj|]|].
    + rewrite Hp. by apply Hpin.
    + eapply phase1_old; [|exact Hd']. lia.
    + intros [] s2 Hj2. eexists. split; [exact Hj2|done|done| |exact Hd'].
      intros x. rewrite /= fn_insert_dec (copied_next _ h) // Eh Hl Z2Nat.id //. lia.
Qed.

(** The header is written; the first [j] blocks are installed. *)
Record installed (j : nat) (d : gmap Z block) : Prop := {
  in_valid : valid_log (lg s) d;
  in_head : hdr (contents d L) = hs;
  in_blocks : ∀ i h, hs !! i = Some h → contents d (log_block (lg s) i) = lgc a h;
  in_home : ∀ x, ¬ in_log (lg s) x →
    contents d x = if decide (x ∈ take j hs) then lgc a x else contents (disk s) x;
}.

Record phase2 (j : nat) (s1 : fsst) (a1 : babs) : Prop := {
  p2_jrn : J s a1 s1;
  p2_idle : log_idle (lg s) a1;
  p2_pin : ∀ x, x ∉ take j hs → pin a1 !! x = pin a !! x;
  p2_unpin : ∀ x, x ∈ take j hs → pin a1 !! x = pin_dec x (pin a) !! x;
  p2_lgc : ∀ x, ¬ in_log (lg s) x → lgc a1 x = lgc a x;
  p2_blocks : ∀ i h, hs !! i = Some h → lgc a1 (log_block (lg s) i) = lgc a h;
  p2_dsk : installed j (dsk a1);
}.

Lemma installed_new j d : installed j d → old_or_new d.
Proof.
  intros [Hv Hh Hb Ho]. split; [done|]. right. intros x Hx. destruct (recov_logged L d x hs Hh (lo_nodup _ _ Hlog)) as [H1 H2].
  rewrite /new_block. case_decide as Hin.
  - apply list_elem_of_lookup in Hin as [i Hi]. rewrite (H1 i Hi). by apply (Hb i).
  - rewrite H2 // Ho // decide_False //. intros Ht. apply Hin. by eapply subseteq_take.
Qed.

Lemma write_head_commit s1 a1 :
  phase1 (Z.of_nat n) s1 a1 → wp write_head (λ _ s2, ∃ a2, phase2 0 s2 a2) s1.
Proof.
  intros H1. pose proof (phase1_idle _ _ _ H1) as Hi1. destruct H1 as [Hj Hp Ho Hl Hd].
  set (D := head_data (lg s) (lgc a1 L)).
  assert (∀ i h f, hs !! i = Some h → copied (Z.of_nat n) f (log_block (lg s) i) = lgc a h) as Hcp.
  { intros i h f Hh. pose proof (lookup_lt_Some _ _ _ Hh). rewrite /copied /log_block -/L decide_True.
    - rewrite (_ : Z.to_nat _ = i); [|lia]. f_equal. by apply list_lookup_total_correct.
    - rewrite /in_copied. unfold n. lia. }
  assert (∀ i : nat, log_block (lg s) i ≠ L) as HneL by (intros i; rewrite /log_block -/L; lia).
  assert (∀ x, ¬ in_log (lg s) x → x ≠ L) as HneL'.
  { intros x Hx ->. apply Hx. by eapply head_in_log. }
  assert (installed 0 (<[L := D]> (dsk a1))) as Hin.
  { split.
    - eapply logged_valid; [exact Hlog|]. by rewrite contents_insert decide_True.
    - rewrite contents_insert decide_True //. by apply hdr_head_data.
    - intros i h Hh. rewrite contents_insert decide_False // Hd. by apply Hcp.
    - intros x Hx. rewrite contents_insert decide_False; [|by apply HneL'].
      destruct (decide (x ∈ take 0 hs)) as [E|_]; [set_solver|]. by rewrite Hd copied_log. }
  eapply wp_mono; [eapply (write_head_ok _ _ _ s hs Hlog a1 s1 Hi1 Hj)|].
  { by eapply installed_new. }
  intros [] s2 Hj2. eexists. split; [exact Hj2|..].
  - destruct Hi1. by split.
  - intros x _. by rewrite /= Hp.
  - set_solver.
  - intros x Hx. rewrite /= fn_lookup_insert_ne; [by rewrite Hl copied_log|]. intros E. by apply (HneL' x).
  - intros i h Hh. rewrite /= fn_lookup_insert_ne; [by rewrite Hl (Hcp i h)|]. intros E. by apply (HneL i).
  - exact Hin.
Qed.

Lemma pin_dec_ne h p x : x ≠ h → pin_dec h p !! x = p !! x.
Proof. intros Hx. rewrite /pin_dec. case_decide; [by rewrite lookup_delete_ne|by rewrite lookup_insert_ne]. Qed.

(** Unpinning a pinned block keeps the log's buffers to spare. *)
Lemma idle_unpin a1 h f d :
  log_idle (lg s) a1 → is_Some (pin a1 !! h) → ¬ in_log (lg s) h →
  log_idle (lg s) (mk_babs f (pin_dec h (pin a1)) (own a1) d).
Proof.
  intros [Ho Hp Hr Hb] [c Hc] Hh. split; simpl.
  - done.
  - intros x Hx. rewrite pin_dec_ne; [by apply Hp|]. by intros ->.
  - rewrite /pin_dec Hc. case_decide; [rewrite map_size_delete Hc; simpl; lia|].
    rewrite map_size_insert Hc. simpl. lia.
  - intros m c'. destruct (decide (m = h)) as [->|Hne]; [|rewrite pin_dec_ne //; apply Hb].
    destruct (Hb _ _ Hc). rewrite /pin_dec Hc. case_decide as E; [by rewrite lookup_delete_eq|].
    rewrite lookup_insert_eq /=. intros [= <-]. assert (c ≠ 1) by congruence. lia.
Qed.

Lemma take_S_elem j h x : hs !! j = Some h → x ∈ take (S j) hs ↔ x ∈ take j hs ∨ x = h.
Proof. intros Hh. rewrite (take_S_r _ _ h) //. rewrite elem_of_app list_elem_of_singleton. done. Qed.

Lemma take_not_elem j h : hs !! j = Some h → h ∉ take j hs.
Proof.
  intros Hh [i Hi]%list_elem_of_lookup. pose proof (lookup_lt_Some _ _ _ Hi) as Hlt.
  rewrite length_take in Hlt. rewrite lookup_take_lt in Hi; [|lia].
  pose proof (NoDup_lookup _ _ _ _ (lo_nodup _ _ Hlog) Hh Hi). lia.
Qed.

Lemma install_ok s1 a1 : phase2 0 s1 a1 → wp (install_trans false) (λ _ s2, ∃ a2, phase2 n s2 a2) s1.
Proof.
  intros H2. rewrite /install_trans. apply wp_bind, wp_gets.
  rewrite (jrn_lg _ _ _ _ _ _ (p2_jrn _ _ _ H2)) (lo_n _ _ Hlog) -/n.
  apply (wp_for_upto (λ j s1, ∃ a1, phase2 (Z.to_nat j) s1 a1)); [lia|by exists a1| |].
  2: { intros s'. by rewrite Nat2Z.id. }
  clear s1 a1 H2. intros j s1 Hjr [a1 [Hj Hi Hp Hu Hl Hb [Dv Dh Db Do]]].
  destruct (lookup_lt_is_Some_2 hs (Z.to_nat j)) as [h Hh]; [lia|].
  assert (h ∈ hs) as Hin by (by eapply list_elem_of_lookup_2).
  destruct (lo_home _ _ Hlog h Hin) as [Hr Hnl]. pose proof (take_not_elem _ _ Hh) as Hnt.
  assert (is_Some (pin a1 !! h)) as Hs by (rewrite Hp //; by apply Hpin).
  pose proof (Hb _ _ Hh) as Elk.
  assert (h ≠ L) as HhL by (intros ->; apply Hnl; by eapply head_in_log).
  assert (installed (S (Z.to_nat j)) (<[h := lgc a1 (log_block (lg s) (Z.to_nat j))]> (dsk a1))) as Hins.
  { rewrite Elk. split.
    - destruct Dv. by split; fold L; rewrite contents_insert decide_False.
    - rewrite contents_insert decide_False //.
    - intros i h' Hh'. rewrite contents_insert decide_False; [by apply Db|].
      intros E. symmetry in E. revert E. eapply logged_ne; [done..|by eapply lookup_lt_Some].
    - intros x Hx. rewrite contents_insert Do //. destruct (decide (x = h)) as [->|Hne].
      + rewrite decide_True // (take_S_elem _ h) //. by right.
      + apply decide_ext. rewrite (take_S_elem _ h) //. naive_solver. }
  rewrite -{1}(Z2Nat.id j); [|lia].
  eapply wp_mono; [eapply (install_one_ok _ _ _ s hs Hlog false a1 s1 (Z.to_nat j) h Hi Hh Hs Hj)|].
  { eapply installed_new. exact Hins. }
  intros [] s2 Hj2. eexists. rewrite Z.add_1_r Z2Nat.inj_succ; [|lia]. split; [exact Hj2|..].
  - by apply idle_unpin.
  - intros x Hx. rewrite (take_S_elem _ h) // in Hx. rewrite /= pin_dec_ne; naive_solver.
  - intros x Hx. rewrite (take_S_elem _ h) // in Hx. simpl.
    destruct (decide (x = h)) as [->|Hne].
    + rewrite /pin_dec Hp //. case_decide; [by rewrite !lookup_delete_eq|by rewrite !lookup_insert_eq].
    + rewrite pin_dec_ne //. apply Hu. naive_solver.
  - intros x Hx. rewrite /= fn_insert_dec Elk. case_decide as E; [by subst|by apply Hl].
  - intros i h' Hh'. rewrite /= fn_lookup_insert_ne; [by apply Hb|].
    eapply logged_ne; [done..|by eapply lookup_lt_Some].
  - exact Hins.
Qed.

(** The state after [commit]: the blocks are on disk, unpinned, and every
    crash on the way leaves all of the old or all of the new contents. *)
Record commit_post (s' : fsst) : Prop := {
  cp_rep : ∃ a', rep s' a' ∧ log_idle (lg s) a' ∧ (∀ x, ¬ in_log (lg s) x → lgc a' x = lgc a x) ∧
    (∀ x, x ∉ hs → pin a' !! x = pin a !! x) ∧ (∀ x, x ∈ hs → pin a' !! x = pin_dec x (pin a) !! x);
  cp_rest : ∃ B d t, s' = set_bufs B (set_disk d t (set_lg (with_lh 0 (lh_block (lg s)) (lg s)) s));
  cp_head : hdr (contents (disk s') L) = [];
  cp_disk : ∀ x, ¬ in_log (lg s) x → contents (disk s') x = new_block x;
  cp_crash : ∃ t, wtrace s' = t ++ wtrace s ∧ disk s' = replay t (disk s) ∧
    all_crash old_or_new (disk s) t;
}.

Lemma clear_ok s1 a1 :
  phase2 n s1 a1 →
  wp (upd_lg (λ l, with_lh 0 (lh_block l) l);; write_head) (λ _ s2, commit_post s2) s1.
Proof.
  intros [Hj Hi Hp Hu Hl Hb [Dv Dh Db Do]]. apply wp_bind, wp_modify.
  rewrite (jrn_lg _ _ _ _ _ _ Hj). set (l0 := with_lh 0 (lh_block (lg s)) (lg s)).
  assert (take n hs = hs) as Et by (unfold n; by apply firstn_all).
  assert (logged l0 []) as Hl0.
  { destruct (lo_area _ _ Hlog) as [A1 A2], (lo_fit _ _ Hlog) as [F1 F2].
    split; simpl; try done; [apply Hlog|lia|constructor|]. intros h Hh. by apply elem_of_nil in Hh. }
  apply jrn_set_lg with (l := l0) in Hj.
  set (D := head_data l0 (lgc a1 L)).
  assert (hdr (contents (<[L := D]> (dsk a1)) L) = []) as Hh0.
  { rewrite contents_insert decide_True //. by apply hdr_head_data. }
  assert (∀ x, ¬ in_log (lg s) x → contents (<[L := D]> (dsk a1)) x = new_block x) as Hnew.
  { intros x Hx. rewrite contents_insert decide_False; [|intros ->; apply Hx; by eapply head_in_log].
    rewrite Do // Et. done. }
  eapply wp_mono; [eapply (write_head_ok _ _ _ (set_lg l0 s) [] Hl0 a1 _)|].
  - destruct Hi. by split.
  - exact Hj.
  - split; [|right; intros x Hx; rewrite recov_empty; [by apply Hnew|exact Hh0]].
    destruct (logged_valid l0 [] (<[L := D]> (dsk a1)) (lgc a1 L) Hl0) as [V1 V2 V3 V4]; [|by split].
    by rewrite contents_insert decide_True.
  - intros [] s2 Hj2. pose proof (jrn_rep _ _ _ _ _ _ Hj2) as Hr2.
    destruct Hj2 as (t & Hc & Ha & Ht). pose proof (cfg_disk _ _ _ _ Hc) as Ed.
    simpl lstart in *. fold L in Hr2, Hc, Ht, Ed. fold D in Hr2, Hc, Ht, Ed. split.
    + eexists. split_and!; [exact Hr2|destruct Hi; by split| | |].
      * intros x Hx. rewrite /= fn_lookup_insert_ne; [by apply Hl|].
        intros <-. apply Hx. by eapply head_in_log.
      * intros x Hx. apply Hp. by rewrite Et.
      * intros x Hx. apply Hu. by rewrite Et.
    + destruct Hc as [_ [B ->]]. by eexists _, _, _.
    + by rewrite Ed.
    + intros x Hx. rewrite Ed. by apply Hnew.
    + exists t. split_and!; [by eapply cfg_trace|by rewrite Ed|done].
Qed.

Lemma commit_ok : wp commit (λ _ s', commit_post s') s.
Proof.
  rewrite /commit. apply wp_bind, wp_gets. rewrite (lo_n _ _ Hlog).
  destruct (Z.ltb_spec 0 (Z.of_nat (length hs))) as [Hpos|Hz].
  - apply wp_bind. eapply wp_mono; [apply write_log_ok|]. intros [] s1 [a1 H1].
    apply wp_bind. eapply wp_mono; [by eapply write_head_commit|]. intros [] s2 [a2 H2].
    apply wp_bind. eapply wp_mono; [by eapply install_ok|]. intros [] s3 [a3 H3]. by eapply clear_ok.
  - assert (hs = []) as E by (apply nil_length_inv; lia). apply wp_ret. split.
    + exists a. split_and!; [done..|]. intros x Hx. rewrite E in Hx. by apply elem_of_nil in Hx.
    + exists (bufs s), (disk s), (wtrace s). pose proof (lo_n _ _ Hlog) as Hn. rewrite E in Hn.
      simpl in Hn. destruct s as [d tr b l p i hh pid]. destruct l. simpl in *. subst.
      by rewrite /set_bufs /set_disk /set_lg /=.
    + exact Hempty.
    + intros x Hx. rewrite /new_block decide_False //. rewrite E. apply not_elem_of_nil.
    + exists []. split_and!; [done..|]. apply all_crash_nil.
      split; [done|]. left. intros x Hx. by apply recov_empty.
Qed.
End commit.

(** C18: a transaction is atomic with respect to crashes.  Run [commit] on a
    transaction whose blocks are pinned in the cache, with an empty log on
    disk: it finishes, every block of the transaction is on disk at home and
    unpinned, and no other block outside the log changed; and if the machine
    stops after any of its disk writes, replaying the log found on the disk
    gives either every block as before the transaction or every block as
    after it. *)
Theorem commit_atomic s a hs :
  rep s a → logged (lg s) hs → log_idle (lg s) a → (∀ h, h ∈ hs → is_Some (pin a !! h)) →
  valid_log (lg s) (disk s) → hdr (contents (disk s) (lstart (lg s))) = [] →
  wp commit (λ _ s', commit_post s a hs s') s.
Proof. intros. by apply commit_ok. Qed.

(** ** Recovery *)

(** Nothing is cached. *)
Definition empty_cache (d : gmap Z block) : babs := mk_babs (contents d) ∅ ∅ d.

Lemma idle_empty l d : log_idle l (empty_cache d).
Proof. split; simpl; [done|done|rewrite map_size_empty; lia|done]. Qed.

Section recovery.
Context (s : fsst) (l : log) (Hdev : ldev l = ROOTDEV).
Context (Harea : 0 ≤ lstart l ∧ lstart l + lsize l < 2 ^ 31) (Hvalid : valid_log l (disk s)).
Let L := lstart l.
Let hs := hdr (contents (disk s) L).

(** What every crash during recovery preserves. *)
Definition recovers (d : gmap Z block) : Prop :=
  valid_log l d ∧ ∀ x, ¬ in_log l x → recov L d x = recov L (disk s) x.

Abbreviation R := (jrn recovers (disk s) (wtrace s)).

(** The header as [read_head] leaves it once [j] entries are read. *)
Definition read_upto (j : Z) (l1 : log) : Prop :=
  (lstart l1, lsize l1, ldev l1) = (L, lsize l, ROOTDEV) ∧ lh_n l1 = Z.of_nat (length hs) ∧
  ∀ i h, Z.of_nat i < j → hs !! i = Some h → lh_block l1 !! Z.of_nat i = Some h.

Lemma read_upto_logged l1 : read_upto (Z.of_nat (length hs)) l1 → logged l1 hs.
Proof.
  intros (E & Hn & Hb). injection E as E1 E2 E3.
  split; rewrite ?E1 ?E2 ?E3 //; try apply Hvalid.
  - intros i h Hh. apply Hb; [|done]. apply lookup_lt_Some in Hh. lia.
  - intros h Hh. rewrite /in_log E1 E2. by apply (vl_home _ _ Hvalid).
Qed.

Lemma hdr_lookup i h : hs !! i = Some h → h = s32 (ld32 (contents (disk s) L) (HB_BLOCK (Z.of_nat i))).
Proof.
  rewrite /hs /hdr list_lookup_fmap. intros (z & [Hz _]%lookup_seqZ & ->)%fmap_Some. by rewrite Hz.
Qed.

Lemma read_head_ok s0 s1 :
  (lstart (lg s0), lsize (lg s0), ldev (lg s0)) = (L, lsize l, ROOTDEV) → R s0 (empty_cache (disk s)) s1 →
  wp read_head (λ _ s2, ∃ l2, read_upto (Z.of_nat (length hs)) l2 ∧
    R (set_lg l2 s0) (empty_cache (disk s)) s2) s1.
Proof.
  intros E Hj. injection E as E1 E2 E3. destruct (vl_fit _ _ Hvalid) as [Hf1 Hf2].
  fold L hs in Hf1, Hf2. pose proof (vl_len _ _ Hvalid) as Hlen. fold L hs in Hlen.
  rewrite /read_head. apply wp_bind, wp_gets. rewrite (jrn_lg _ _ _ _ _ _ Hj) E1 E3.
  rewrite u32_id; [|lia]. apply wp_bind.
  eapply jrn_bread; [exact Hj|done|eapply (idle_room l); [apply idle_empty|done]|]. intros b s2 Hj2.
  set (a1 := a_bread L b (empty_cache (disk s))) in *.
  assert (own a1 !! L = Some b) as Hb by apply lookup_insert_eq.
  apply wp_bind. eapply jrn_get_data; [exact Hj2|exact Hb|]. simpl lgc. rewrite Hlen.
  apply wp_bind, wp_modify. rewrite (jrn_lg _ _ _ _ _ _ Hj2). apply wp_bind, wp_gets. simpl lh_n.
  apply wp_bind. set (l1 := with_lh _ _ _).
  eapply (wp_for_upto (λ j s', ∃ l2, read_upto j l2 ∧ R (set_lg l2 s0) a1 s')); [lia| | |].
  - exists l1. split; [|by apply jrn_set_lg].
    split_and!; [by rewrite /= E1 E2 E3|done|]. intros i h Hi. lia.
  - intros j s' Hjr (l2 & (F & Hn & Hbl) & Hj'). apply wp_bind.
    eapply jrn_get_data; [exact Hj'|exact Hb|]. simpl lgc.
    rewrite /lh_set (_ : (0 <=? j) && (j <? LOGSIZE) = true); [|lia].
    apply wp_modify. rewrite (jrn_lg _ _ _ _ _ _ Hj'). simpl lg. eexists.
    split; [|exact (jrn_set_lg _ _ _ _ _ _ _ Hj')].
    split_and!; [done|done|]. intros i h Hi Hh. simpl. destruct (decide (Z.of_nat i = j)) as [<-|Hne].
    + rewrite lookup_insert_eq. f_equal. symmetry. by apply hdr_lookup.
    + rewrite lookup_insert_ne //. apply Hbl; [lia|done].
  - intros s' (l2 & Hl2 & Hj'). eapply (jrn_brelse _ _ _ _ _ _ L); [exact Hj'|exact Hb|done|].
    intros s3 Hj3. exists l2. split; [done|].
    rewrite (relse_bread L b (empty_cache (disk s)) (lgc a1) (dsk a1)) in Hj3; [exact Hj3|done|done].
Qed.

(** The first [j] blocks of the log are installed. *)
Record reinstalled (j : nat) (d : gmap Z block) : Prop := {
  re_log : ∀ y, in_log l y → contents d y = contents (disk s) y;
  re_home : ∀ x, ¬ in_log l x →
    contents d x = if decide (x ∈ take j hs) then recov L (disk s) x else contents (disk s) x;
}.

Lemma head_log : in_log l L.
Proof. destruct (vl_fit _ _ Hvalid). rewrite /in_log /L. lia. Qed.

Lemma reinstalled_recovers j d : reinstalled j d → recovers d.
Proof.
  intros [Hl Hh]. assert (contents d L = contents (disk s) L) as E by apply Hl, head_log.
  split; [destruct Hvalid; split; fold L; rewrite E //|]. intros x Hx.
  destruct (recov_logged L d x hs) as [H1 H2]; [by rewrite E|apply Hvalid|].
  destruct (recov_logged L (disk s) x hs) as [G1 G2]; [done|apply Hvalid|].
  destruct (decide (x ∈ hs)) as [[i Hi]%list_elem_of_lookup|Hn].
  - rewrite (H1 i Hi) (G1 i Hi). apply Hl. pose proof (lookup_lt_Some _ _ _ Hi).
    destruct (vl_fit _ _ Hvalid) as [_ Hf]. fold L hs in Hf. rewrite /in_log -/L. lia.
  - rewrite H2 // G2 // Hh // decide_False //. intros Ht. apply Hn. by eapply subseteq_take.
Qed.

Record rphase (j : nat) (s2 s1 : fsst) (a1 : babs) : Prop := {
  rp_jrn : R s2 a1 s1;
  rp_nopin : pin a1 = ∅;
  rp_noown : own a1 = ∅;
  rp_dsk : reinstalled j (dsk a1);
}.

Lemma rphase_idle j s2 s1 a1 l1 : rphase j s2 s1 a1 → log_idle l1 a1.
Proof.
  intros [_ Hp Ho _]. split; rewrite ?Hp ?Ho; [done|done|rewrite map_size_empty; lia|done].
Qed.

Lemma reinstall_ok s2 s1 :
  logged (lg s2) hs → (lstart (lg s2), lsize (lg s2)) = (L, lsize l) → R s2 (empty_cache (disk s)) s1 →
  wp (install_trans true) (λ _ s3, ∃ a3, rphase (length hs) s2 s3 a3) s1.
Proof.
  intros Hlog E Hj. injection E as E1 E2.
  assert (∀ x, in_log (lg s2) x ↔ in_log l x) as Hin by (intros x; rewrite /in_log E1 E2 //).
  rewrite /install_trans. apply wp_bind, wp_gets. rewrite (jrn_lg _ _ _ _ _ _ Hj) (lo_n _ _ Hlog).
  apply (wp_for_upto (λ j s', ∃ a1, rphase (Z.to_nat j) s2 s' a1)); [lia| | |].
  3: { intros s'. by rewrite Nat2Z.id. }
  { eexists. split; [exact Hj|done|done|]. split; [done|].
    intros x Hx. destruct (decide (x ∈ take _ _)) as [E|]; [set_solver|done]. }
  intros j s' Hjr [a1 H1]. pose proof (rphase_idle _ _ _ _ (lg s2) H1) as Hi. destruct H1 as [Hj1 Hp Ho [Rl Rh]].
  destruct (lookup_lt_is_Some_2 hs (Z.to_nat j)) as [h Hh]; [lia|].
  assert (h ∈ hs) as Hhin by (by eapply list_elem_of_lookup_2).
  destruct (lo_home _ _ Hlog h Hhin) as [_ Hnl]. rewrite Hin in Hnl.
  set (k := log_block (lg s2) (Z.to_nat j)).
  assert (lgc a1 k = recov L (disk s) h) as Ek.
  { rewrite (clean_block _ _ _ _ _ _ k Hj1); [|by rewrite Hp].
    rewrite Rl; [|rewrite -Hin; eapply logged_block; [done|by eapply lookup_lt_Some]].
    destruct (recov_logged L (disk s) h hs) as [G _]; [done|apply Hvalid|]. rewrite (G _ Hh).
    by rewrite /k /log_block E1. }
  assert (reinstalled (S (Z.to_nat j)) (<[h := lgc a1 k]> (dsk a1))) as Hre.
  { rewrite Ek. split.
    - intros y Hy. rewrite contents_insert decide_False; [by apply Rl|]. by intros ->.
    - intros x Hx. rewrite contents_insert Rh // (take_S_r _ _ h) //.
      destruct (decide (x = h)) as [->|Hne].
      + rewrite decide_True //. set_solver.
      + apply decide_ext. set_solver. }
  rewrite -{1}(Z2Nat.id j); [|lia].
  eapply wp_mono; [eapply (install_one_ok _ _ _ s2 hs Hlog true a1 s' (Z.to_nat j) h Hi Hh); [|exact Hj1|]|].
  - rewrite Hp map_size_empty. split; [lia|done].
  - eapply reinstalled_recovers. exact Hre.
  - intros [] s3 Hj3. eexists. rewrite Z.add_1_r Z2Nat.inj_succ; [|lia]. by split; [exact Hj3|..].
Qed.

(** The state after recovery: the log is empty, the blocks it held are at
    home, and every crash on the way leaves a disk that recovers to the same
    contents. *)
Record recovery_post (s' : fsst) : Prop := {
  ry_rep : rep s' (empty_cache (disk s'));
  ry_log : logged (lg s') [] ∧ (lstart (lg s'), lsize (lg s')) = (L, lsize l);
  ry_head : hdr (contents (disk s') L) = [];
  ry_disk : ∀ x, ¬ in_log l x → contents (disk s') x = recov L (disk s) x;
  ry_crash : ∃ t, wtrace s' = t ++ wtrace s ∧ disk s' = replay t (disk s) ∧
    all_crash recovers (disk s) t;
}.

Lemma recover_ok s0 s1 :
  (lstart (lg s0), lsize (lg s0), ldev (lg s0)) = (L, lsize l, ROOTDEV) → R s0 (empty_cache (disk s)) s1 →
  wp recover_from_log (λ _ s2, recovery_post s2) s1.
Proof.
  intros E Hj. rewrite /recover_from_log. apply wp_bind.
  eapply wp_mono; [by apply read_head_ok|]. intros [] s2 (l2 & Hl2 & Hj2).
  pose proof (read_upto_logged _ Hl2) as Hlog. destruct Hl2 as (F & _ & _). injection F as F1 F2 F3.
  apply wp_bind. eapply wp_mono; [apply (reinstall_ok (set_lg l2 s0)); [exact Hlog|by rewrite /= F1 F2|exact Hj2]|].
  intros [] s3 [a3 H3]. pose proof (rphase_idle _ _ _ _ (with_lh 0 (lh_block l2) l2) H3) as Hi.
  destruct H3 as [Hj3 Hp Ho [Rl Rh]].
  apply wp_bind, wp_modify. rewrite (jrn_lg _ _ _ _ _ _ Hj3). simpl lg. set (l3 := with_lh 0 (lh_block l2) l2) in *.
  apply jrn_set_lg with (l := l3) in Hj3.
  assert (logged l3 []) as Hl3.
  { destruct (vl_fit _ _ Hvalid). split; simpl; rewrite ?F1 ?F2 ?F3; try done; [lia|constructor|].
    intros h Hh. by apply elem_of_nil in Hh. }
  set (D := head_data l3 (lgc a3 L)).
  assert (hdr (contents (<[L := D]> (dsk a3)) L) = []) as Hh0.
  { rewrite contents_insert decide_True //. by apply hdr_head_data. }
  assert (∀ x, ¬ in_log l x → contents (<[L := D]> (dsk a3)) x = recov L (disk s) x) as Hnew.
  { intros x Hx. rewrite contents_insert decide_False; [|intros ->; apply Hx, head_log].
    rewrite Rh // firstn_all. case_decide as Hin; [done|]. symmetry.
    by apply (recov_logged L (disk s) x hs); [|apply Hvalid|]. }
  assert (recovers (<[L := D]> (dsk a3))) as Hrec.
  { split; [|intros x Hx; rewrite recov_empty; [by apply Hnew|exact Hh0]].
    destruct (logged_valid l3 [] (<[L := D]> (dsk a3)) (lgc a3 L) Hl3) as [V1 V2 V3 V4].
    - by rewrite /= F1 contents_insert decide_True.
    - rewrite /in_log /= F1 F2 in V1 V2 V3 V4. by split. }
  eapply wp_mono; [eapply (write_head_ok _ _ _ (set_lg l3 (set_lg l2 s0)) [] Hl3 a3 _ Hi Hj3)|].
  { simpl lstart. rewrite F1. exact Hrec. }
  intros [] s4 Hj4. simpl lstart in Hj4. rewrite F1 in Hj4. fold D in Hj4.
  pose proof (jrn_rep _ _ _ _ _ _ Hj4) as Hr4. destruct Hj4 as (t & Hc & Ha & Ht).
  pose proof (cfg_disk _ _ _ _ Hc) as Ed. split.
  - eapply rep_same; [exact Hr4|..]; simpl; try by rewrite ?Hp ?Ho ?Ed.
    intros x. rewrite Ed. symmetry. apply (rp_clean _ _ Hr4). by rewrite /= Hp.
  - rewrite (cfg_lg _ _ _ _ Hc) /= F1 F2. by split.
  - by rewrite Ed.
  - intros x Hx. rewrite Ed. by apply Hnew.
  - exists t. split_and!; [by eapply cfg_trace|by rewrite Ed|done].
Qed.
End recovery.

(** The log as the superblock describes it. *)
Definition sb_log (b : superblock) : log :=
  mk_log (s32 (sb_logstart b)) (s32 (sb_nlog b)) 0 false ROOTDEV 0 ∅.

(** Booting on a disk with a valid log installs every block the log holds,
    empties the log and leaves every other block alone, and a machine that
    stops during recovery and boots again gets the same contents. *)
Lemma boot_ok s b :
  (∀ i, bufs s i = boot_buf) → held s = ∅ →
  0 ≤ lstart (sb_log b) → lstart (sb_log b) + lsize (sb_log b) < 2 ^ 31 → valid_log (sb_log b) (disk s) →
  wp (binit;; initlog ROOTDEV b) (λ _ s', recovery_post s (sb_log b) s') s.
Proof.
  intros Hb Hh Ha1 Ha2 Hv. apply wp_bind, wp_binit; [done|set_solver|]. intros B Hr.
  rewrite /initlog. apply wp_bind, wp_modify.
  rewrite (_ : set_held _ _ = set_bufs B s); last first.
  { destruct s. simpl in *. subst. rewrite /set_fheld /set_bufs /=. by f_equal; set_solver. }
  do 3 apply wp_bind, wp_modify. simpl.
  set (l1 := mk_log _ _ _ _ _ _ _). rewrite (_ : set_lg l1 _ = set_lg l1 (set_bufs B s)) //.
  apply (recover_ok s (sb_log b) eq_refl (conj Ha1 Ha2) Hv (set_lg l1 (set_bufs B s))); [done|].
  apply jrn_set_lg. apply (jrn_start _ _ _ (set_bufs B s)); [exact Hr|by split|done|done].
Qed.

(** C6: a crash during [commit] followed by a boot leaves the file system
    with all of the transaction or none of it: after any prefix of the disk
    writes of [commit], starting the machine again ends with every block
    outside the log as before the transaction, or every one as after it.  [t]
    is the trace of these writes, newest first, so that a suffix of it is what
    has reached the disk at a crash. *)
Theorem crash_safe s a hs b :
  rep s a → logged (lg s) hs → log_idle (lg s) a → (∀ h, h ∈ hs → is_Some (pin a !! h)) →
  valid_log (lg s) (disk s) → hdr (contents (disk s) (lstart (lg s))) = [] →
  (lstart (sb_log b), lsize (sb_log b)) = (lstart (lg s), lsize (lg s)) →
  wp commit (λ _ s', ∃ t, wtrace s' = t ++ wtrace s ∧ disk s' = replay t (disk s) ∧ ∀ t1, t1 `suffix_of` t →
    wp (binit;; initlog ROOTDEV b) (λ _ r,
      (∀ x, ¬ in_log (lg s) x → contents (disk r) x = contents (disk s) x) ∨
      (∀ x, ¬ in_log (lg s) x → contents (disk r) x = new_block s a hs x)) (fs_boot (replay t1 (disk s)))) s.
Proof.
  intros Hr Hl Hi Hp Hv He E.
  assert (lstart (sb_log b) = lstart (lg s)) as E1 by congruence.
  assert (lsize (sb_log b) = lsize (lg s)) as E2 by congruence.
  eapply wp_mono; [by apply (commit_ok s a hs)|]. intros [] s' [_ _ _ _ (t & Hw & Ht & Hc)].
  exists t. split; [done|]. split; [done|]. intros t1 Ht1. destruct (Hc t1 Ht1) as [Hv1 Hon].
  assert (∀ x, in_log (sb_log b) x ↔ in_log (lg s) x) as Hin by (intros x; by rewrite /in_log E1 E2).
  destruct (lo_area _ _ Hl) as [A1 A2].
  eapply wp_mono; [apply boot_ok; [done|done|by rewrite E1|by rewrite E1 E2|]|].
  { destruct Hv1. split; rewrite ?E1 ?E2 //. intros h Hh. rewrite Hin. auto. }
  intros [] r [_ _ _ Hd _]. rewrite E1 in Hd. destruct Hon as [Ho|Hn]; [left|right];
    intros x Hx; rewrite Hd ?Hin //; auto.
Qed.

(** ** A concrete transaction *)

(** The log at blocks 2 to 32; block 40 is pinned and changed. *)
Definition demo_log : log := mk_log 2 31 0 false ROOTDEV 1 {[ 0 := 40 ]}.
Definition demo_sb : superblock := mk_sb 0x10203040 1000 900 200 31 2 33 46.
Definition demo_txn : M fsst unit :=
  binit;; bexec_all [BPin 40; BStore 40 {[ 0 := 7 ]}];; upd_lg (λ _, demo_log).

Definition demo_abs : babs := mk_babs (<[40 := {[ 0 := 7 ]}]> (contents ∅)) {[ 40 := 1 ]} ∅ ∅.

Record demo_ready (s : fsst) : Prop := {
  dr_rep : rep s demo_abs;
  dr_lg : lg s = demo_log;
  dr_disk : disk s = ∅;
}.

Lemma demo_txn_ok : wp demo_txn (λ _ s, demo_ready s) (fs_boot ∅).
Proof.
  rewrite /demo_txn. apply wp_bind, wp_binit; [done|simpl; set_solver|]. intros B Hr. apply wp_bind.
  eapply wp_mono.
  { eapply (wp_bexec_all [BPin 40; BStore 40 {[ 0 := 7 ]}] _ (BufSpec.mk_st (contents ∅) ∅ ∅)); [exact Hr|].
    reflexivity. }
  intros rs s' [_ Hr']. apply wp_modify. rewrite /brefines /= in Hr'. split.
  - eapply (rep_ext demo_abs _ s'); [done..|exact Hr'].
  - done.
  - apply (rp_disk _ _ Hr').
Qed.

Lemma demo_logged : logged demo_log [40].
Proof.
  split; try done.
  - simpl. lia.
  - intros [|i] h; simpl; [by intros [= <-]|done].
  - apply NoDup_singleton.
  - intros h ->%list_elem_of_singleton. split; [done|]. rewrite /in_log /=. lia.
Qed.

Lemma demo_idle : log_idle demo_log demo_abs.
Proof.
  split; simpl.
  - done.
  - intros x Hx. rewrite lookup_singleton_ne //. rewrite /in_log /= in Hx. lia.
  - rewrite map_size_singleton. lia.
  - intros n c [_ <-]%lookup_singleton_Some. lia.
Qed.

Lemma demo_valid l : lstart l = 2 → 1 ≤ lsize l → valid_log l ∅.
Proof.
  intros E1 E2. split; rewrite E1 (_ : contents ∅ 2 = ∅) // (_ : hdr ∅ = []) //=; [lia|constructor|].
  intros h Hh. by apply elem_of_nil in Hh.
Qed.

Lemma commit_atomic_witness :
  wp demo_txn (λ _ s, wp commit (λ _ s', commit_post s demo_abs [40] s') s) (fs_boot ∅).
Proof.
  eapply wp_mono; [apply demo_txn_ok|]. intros [] s [Hr Hl Hd].
  apply (commit_atomic s demo_abs [40]); rewrite ?Hl ?Hd.
  - exact Hr.
  - exact demo_logged.
  - exact demo_idle.
  - intros h ->%list_elem_of_singleton. by exists 1.
  - by apply demo_valid.
  - done.
Defined.

Lemma crash_safe_witness :
  wp demo_txn (λ _ s, wp commit (λ _ s', ∃ t, wtrace s' = t ++ wtrace s ∧ disk s' = replay t (disk s) ∧ ∀ t1, t1 `suffix_of` t →
    wp (binit;; initlog ROOTDEV demo_sb) (λ _ r,
      (∀ x, ¬ in_log (lg s) x → contents (disk r) x = contents (disk s) x) ∨
      (∀ x, ¬ in_log (lg s) x → contents (disk r) x = new_block s demo_abs [40] x))
      (fs_boot (replay t1 (disk s)))) s) (fs_boot ∅).
Proof.
  eapply wp_mono; [apply demo_txn_ok|]. intros [] s [Hr Hl Hd].
  apply (crash_safe s demo_abs [40] demo_sb); rewrite ?Hl ?Hd.
  - exact Hr.
  - exact demo_logged.
  - exact demo_idle.
  - intros h ->%list_elem_of_singleton. by exists 1.
  - by apply demo_valid.
  - done.
  - done.
Defined.
