(* ===== verification/LogSpace.v ===== *)
(** * Log space and group commit

    Any number of processes run file system operations.  [step] interleaves
    their calls of [begin_op], [log_write] and [end_op], which are atomic
    because they run under [log.lock]; the commit that [end_op] starts without
    the lock is a step of its own, and the buffer cache may change at any
    time.  [log_space_safe] shows that the reservation of [begin_op] is
    enough for a log with room for one block more than is reserved, and
    [log_full_panics] that it is not for one without. *)

From stdpp Require Import functions list.
From S2P Require Import Prelude Mem Cstring Spinlock Sleeplock Bio Bcache Log LogCrash.

Local Open Scope Z_scope.

(** ** What the cache operations keep *)

Lemma acquire_keeps_lg l : keeps lg (acquire l : M fsst unit).
Proof. intros s [] s'. rewrite /acquire. by case_decide; intros [= <-]. Qed.
Lemma release_keeps_lg l : keeps lg (release l : M fsst unit).
Proof. intros s [] s'. rewrite /release. by case_decide; intros [= <-]. Qed.
Lemma acquiresleep_keeps_lg (l : fslock) : keeps lg (acquiresleep l).
Proof. intros s [] s'. rewrite /acquiresleep. case_match; [done|]. intros [= <-]. by destruct l. Qed.
Lemma releasesleep_keeps_lg (l : fslock) : keeps lg (releasesleep l).
Proof. apply keeps_modify. intros s. by destruct l. Qed.
Lemma upd_buf_keeps_lg b f : keeps lg (upd_buf b f).
Proof. by apply keeps_modify. Qed.

#[export] Hint Resolve acquire_keeps_lg release_keeps_lg acquiresleep_keeps_lg releasesleep_keeps_lg
  upd_buf_keeps_lg : keeps.

Lemma find_cached_keeps_lg fuel b d n : keeps lg (find_cached fuel b d n).
Proof. revert b. induction fuel; intros b; simpl; rewrite /buf_at; solve_keeps. Qed.
Lemma find_unused_keeps_lg fuel b : keeps lg (find_unused fuel b).
Proof. revert b. induction fuel; intros b; simpl; rewrite /buf_at; solve_keeps. Qed.
#[export] Hint Resolve find_cached_keeps_lg find_unused_keeps_lg : keeps.

Lemma bget_keeps_lg d n : keeps lg (bget d n).
Proof. rewrite /bget /buf_at. solve_keeps. Qed.
#[export] Hint Resolve bget_keeps_lg : keeps.
Lemma bread_keeps_lg d n : keeps lg (bread d n).
Proof. rewrite /bread /buf_at /disk_rw. solve_keeps. Qed.
Lemma bwrite_keeps_lg b : keeps lg (bwrite b).
Proof. rewrite /bwrite /holdingsleep /disk_rw /buf_at. solve_keeps. Qed.
Lemma brelse_keeps_lg b : keeps lg (brelse b).
Proof. rewrite /brelse /holdingsleep /buf_at. solve_keeps. Qed.
Lemma bpin_keeps_lg b : keeps lg (bpin b).
Proof. rewrite /bpin. solve_keeps. Qed.
Lemma bunpin_keeps_lg b : keeps lg (bunpin b).
Proof. rewrite /bunpin. solve_keeps. Qed.
#[export] Hint Resolve bread_keeps_lg bwrite_keeps_lg brelse_keeps_lg bpin_keeps_lg bunpin_keeps_lg : keeps.

Lemma lh_get_keeps_lg i : keeps lg (lh_get i).
Proof. rewrite /lh_get. solve_keeps. Qed.
#[export] Hint Resolve lh_get_keeps_lg : keeps.

Lemma write_head_keeps_lg : keeps lg write_head.
Proof. rewrite /write_head /get_data /put_data. solve_keeps. Qed.
Lemma write_log_keeps_lg : keeps lg write_log.
Proof. rewrite /write_log /write_one /get_data /put_data. solve_keeps. Qed.
Lemma install_trans_keeps_lg r : keeps lg (install_trans r).
Proof. rewrite /install_trans /install_one /get_data /put_data. solve_keeps. Qed.
#[export] Hint Resolve write_head_keeps_lg write_log_keeps_lg install_trans_keeps_lg : keeps.

(** ** The lock-protected operations, on the log *)

(** Taking and releasing [log.lock] around a change of the log. *)
Lemma loglock_ret {A} (c : M fsst A) s a s' :
  (acquire LOGLOCK;; c) s = Ret (a, s') → c (set_held ({[LOGLOCK]} ∪ held s) s) = Ret (a, s').
Proof.
  rewrite {1}/mbind /M_bind /acquire. case_decide; [done|]. by destruct s.
Qed.

Lemma release_ret l s a s' : release l s = Ret (a, s') → lg s' = lg s.
Proof. apply release_keeps_lg. Qed.

Lemma begin_op_lg s a s' :
  begin_op s = Ret (a, s') →
  committing (lg s) = false ∧ lh_n (lg s) + (outstanding (lg s) + 1) * MAXOPBLOCKS ≤ LOGSIZE ∧
  lg s' = with_outstanding (outstanding (lg s) + 1) (lg s).
Proof.
  intros H%loglock_ret. rewrite /mbind /M_bind /gets /= in H. destruct (committing (lg s)); [done|].
  destruct (Z.ltb_spec LOGSIZE (lh_n (lg s) + (outstanding (lg s) + 1) * MAXOPBLOCKS)); [done|].
  rewrite /upd_lg /modify in H. apply release_ret in H. split_and!; [done|lia|done].
Qed.

Lemma end_op_enter_lg s b s' :
  end_op_enter s = Ret (b, s') →
  committing (lg s) = false ∧ b = (outstanding (lg s) - 1 =? 0) ∧
  lg s' = with_committing b (with_outstanding (outstanding (lg s) - 1) (lg s)).
Proof.
  intros H%loglock_ret. rewrite /mbind /M_bind /gets /upd_lg /modify /= in H.
  destruct (committing (lg s)) eqn:Ec; [done|].
  destruct (Z.eqb_spec (outstanding (lg s) - 1) 0) as [E|E]; simpl in H;
    (destruct (release LOGLOCK _) as [[[] s2]| | |] eqn:Er; try done); injection H as <- <-;
    apply release_ret in Er; rewrite Er /=; split_and!; try done.
  rewrite /with_committing /with_outstanding /= Ec. done.
Qed.

Lemma commit_lg s a s' :
  commit s = Ret (a, s') →
  lg s' = if 0 <? lh_n (lg s) then with_lh 0 (lh_block (lg s)) (lg s) else lg s.
Proof.
  rewrite /commit /mbind /M_bind /gets. destruct (0 <? lh_n (lg s)); [|by intros [= _ <-]].
  destruct (write_log s) as [[[] s1]| | |] eqn:E1; try done.
  destruct (write_head s1) as [[[] s2]| | |] eqn:E2; try done.
  destruct (install_trans false s2) as [[[] s3]| | |] eqn:E3; try done.
  apply write_log_keeps_lg in E1. apply write_head_keeps_lg in E2. apply install_trans_keeps_lg in E3.
  rewrite /upd_lg /modify. intros E4%write_head_keeps_lg. rewrite E4 /=. congruence.
Qed.

Lemma end_op_commit_lg s a s' :
  end_op_commit s = Ret (a, s') →
  lg s' = with_committing false
    (if 0 <? lh_n (lg s) then with_lh 0 (lh_block (lg s)) (lg s) else lg s).
Proof.
  rewrite /end_op_commit {1}/mbind /M_bind. destruct (commit s) as [[[] s1]| | |] eqn:E1; try done.
  apply commit_lg in E1. intros H%loglock_ret. rewrite /mbind /M_bind /upd_lg /modify /= in H.
  apply release_ret in H. rewrite H /= E1. done.
Qed.

(** The scan of [log_write] stops at an index of the header or at its end. *)
Lemma log_scan_ret fuel i n blk s j s' :
  log_scan fuel i n blk s = Ret (j, s') → i ≤ n → s' = s ∧ i ≤ j ≤ n.
Proof.
  revert i. induction fuel as [|fuel IH]; intros i; simpl; [done|].
  destruct (Z.ltb_spec i n); [|intros [= <- <-]; split; [done|lia]].
  rewrite /mbind /M_bind /lh_get. destruct ((0 <=? i) && (i <? LOGSIZE)); [|done]. rewrite /gets.
  destruct (_ =? blk); [intros [= <- <-]; split; [done|lia]|]. intros H'%IH; [|lia]. naive_solver lia.
Qed.

Lemma log_write_lg b s a s' :
  log_write b s = Ret (a, s') → 0 ≤ lh_n (lg s) →
  1 ≤ outstanding (lg s) ∧ outstanding (lg s') = outstanding (lg s) ∧
  committing (lg s') = committing (lg s) ∧ lsize (lg s') = lsize (lg s) ∧
  lh_n (lg s) ≤ lh_n (lg s') ≤ lh_n (lg s) + 1.
Proof.
  intros H%loglock_ret Hn. apply bind_Ret_inv in H as (l & s1 & [= <- <-] & H).
  destruct ((LOGSIZE <=? lh_n (lg s)) || (lsize (lg s) - 1 <=? lh_n (lg s))); [done|].
  destruct (Z.ltb_spec (outstanding (lg s)) 1); [done|].
  apply bind_Ret_inv in H as (x & s2 & [= <- <-] & H). apply bind_Ret_inv in H as (j & s2 & Es & H).
  apply log_scan_ret in Es as [-> Hj]; [|done]. apply bind_Ret_inv in H as ([] & s2 & El & H).
  rewrite /lh_set in El. destruct ((0 <=? j) && (j <? LOGSIZE)); [|done]. injection El as <-.
  apply bind_Ret_inv in H as (n & s2 & [= <- <-] & H). apply bind_Ret_inv in H as ([] & s3 & Ep & H%release_ret).
  change (lh_n (lg _)) with (lh_n (lg s)) in Ep. rewrite H. destruct (j =? lh_n (lg s)).
  - apply bind_Ret_inv in Ep as ([] & s4 & Ep%bpin_keeps_lg & [= <-]). rewrite /= Ep /=. split_and!; done || lia.
  - injection Ep as <-. simpl. split_and!; done || lia.
Qed.

(** ** Interleaved operations *)

(** The operations under way: for each process, the blocks it has logged. *)
Record sys := mk_sys { sfs : fsst; ops : gmap Z Z }.

Inductive step : sys → sys → Prop :=
| step_begin p s o s' :
    o !! p = None → begin_op s = Ret (tt, s') → step (mk_sys s o) (mk_sys s' (<[p := 0]> o))
| step_write p w b s o s' :
    o !! p = Some w → w < MAXOPBLOCKS → log_write b s = Ret (tt, s') →
    step (mk_sys s o) (mk_sys s' (<[p := w + 1]> o))
| step_end p w s o b s' :
    o !! p = Some w → end_op_enter s = Ret (b, s') → step (mk_sys s o) (mk_sys s' (delete p o))
| step_commit s o s' :
    committing (lg s) = true → end_op_commit s = Ret (tt, s') → step (mk_sys s o) (mk_sys s' o)
| step_cache s o s' :
    lg s' = lg s → step (mk_sys s o) (mk_sys s' o).

(** The blocks the operations under way may still log. *)
Definition reserved (o : gmap Z Z) : Z := map_fold (λ _ w acc, MAXOPBLOCKS - w + acc) 0 o.

Record sys_inv (c : sys) : Prop := {
  si_count : outstanding (lg (sfs c)) = Z.of_nat (size (ops c));
  si_logged : ∀ p w, ops c !! p = Some w → 0 ≤ w ≤ MAXOPBLOCKS;
  si_space : 0 ≤ lh_n (lg (sfs c)) ∧ lh_n (lg (sfs c)) + reserved (ops c) ≤ LOGSIZE;
  si_commit : committing (lg (sfs c)) = true → ops c = ∅;
}.

Definition start (c : sys) : Prop :=
  ops c = ∅ ∧ outstanding (lg (sfs c)) = 0 ∧ committing (lg (sfs c)) = false ∧ lh_n (lg (sfs c)) = 0.

Lemma reserved_insert o p w : o !! p = None → reserved (<[p := w]> o) = MAXOPBLOCKS - w + reserved o.
Proof. intros Hp. rewrite /reserved map_fold_insert_L //. intros. lia. Qed.

Lemma reserved_delete o p w : o !! p = Some w → reserved o = MAXOPBLOCKS - w + reserved (delete p o).
Proof. intros Hp. rewrite /reserved (map_fold_delete_L _ _ p w) //. intros. lia. Qed.

Lemma reserved_bound o : (∀ p w, o !! p = Some w → 0 ≤ w ≤ MAXOPBLOCKS) →
  0 ≤ reserved o ≤ MAXOPBLOCKS * Z.of_nat (size o).
Proof.
  induction o as [|p w o Hp IH] using map_ind; intros Hw; [by vm_compute|].
  rewrite reserved_insert // map_size_insert_None //.
  pose proof (Hw p w (lookup_insert_eq _ _ _)). specialize (IH ltac:(intros q v Hq; apply (Hw q); rewrite lookup_insert_ne; congruence)).
  lia.
Qed.

Lemma log_step_inv c c' : step c c' → sys_inv c → sys_inv c'.
Proof.
  destruct 1 as [p s o s' Hp H|p w b s o s' Hp Hw H|p w s o b s' Hp H|s o s' Hc H|s o s' H];
    intros [Hcnt Hlg [Hn Hsp] Hcm]; simpl in *.
  - apply begin_op_lg in H as (Hnc & Hfit & E). split; rewrite /= ?E /=.
    + rewrite map_size_insert_None //. lia.
    + intros q v [[<- <-]|[_ Hq]]%lookup_insert_Some; [lia|eauto].
    + rewrite reserved_insert //. pose proof (reserved_bound o Hlg). lia.
    + congruence.
  - apply log_write_lg in H as (Ho & E1 & E2 & E3 & Hn'); [|done]. split; simpl; rewrite ?E1 ?E2.
    + rewrite map_size_insert Hp. done.
    + pose proof (Hlg p w Hp). intros q v [[<- <-]|[_ Hq]]%lookup_insert_Some; [lia|eauto].
    + rewrite (reserved_delete o p w) // in Hsp. rewrite -insert_delete_eq reserved_insert ?lookup_delete_eq //. lia.
    + intros E. rewrite Hcm // in Hp.
  - apply end_op_enter_lg in H as (Hnc & -> & E). pose proof (Hlg p w Hp).
    assert (size o ≠ 0%nat) by (intros E'%map_size_empty_inv; by rewrite E' in Hp).
    split; rewrite /= ?E /=.
    + rewrite map_size_delete Hp /=. lia.
    + intros q v [_ Hq]%lookup_delete_Some. eauto.
    + rewrite (reserved_delete o p w) // in Hsp. lia.
    + intros E'%Z.eqb_eq. apply map_size_empty_inv. rewrite map_size_delete Hp /=. lia.
  - apply end_op_commit_lg in H as E. specialize (Hcm Hc). subst o.
    split; rewrite /= ?E /=; [destruct (0 <? _); done|done| |done]. split; [|rewrite /reserved map_fold_empty];
      destruct (Z.ltb_spec 0 (lh_n (lg s))); simpl; lia.
  - split; simpl; rewrite ?H //.
Qed.

Lemma log_reachable_inv c0 c : start c0 → rtc step c0 c → sys_inv c.
Proof.
  intros (Ho & Hn & Hc & Hl) Hs. assert (sys_inv c0) as Hi.
  { split; rewrite ?Ho ?Hn ?Hl //. }
  clear -Hs Hi. induction Hs; eauto using log_step_inv.
Qed.

Lemma acquire_panics l : panics_in (λ m, m = "acquire" ∨ m = "release") (acquire l : M fsst unit).
Proof. intros s msg. rewrite /acquire. case_decide; [intros [= <-]; by left|done]. Qed.
Lemma release_panics l : panics_in (λ m, m = "acquire" ∨ m = "release") (release l : M fsst unit).
Proof. intros s msg. rewrite /release. case_decide; [done|intros [= <-]; by right]. Qed.
#[export] Hint Resolve acquire_panics release_panics : panics.

Lemma log_scan_panics P fuel i n b : panics_in P (log_scan fuel i n b).
Proof.
  revert i. induction fuel as [|fuel IH]; intros i; simpl; rewrite /lh_get; solve_panics.
Qed.
#[export] Hint Resolve log_scan_panics : panics.

(** Past its two tests, [log_write] does not panic but on a locking error. *)
Lemma log_write_panics b s msg :
  log_write b s = Panic msg → lh_n (lg s) < LOGSIZE → lh_n (lg s) < lsize (lg s) - 1 →
  1 ≤ outstanding (lg s) → msg = "acquire" ∨ msg = "release".
Proof.
  intros H H1 H2 H3. rewrite /log_write {1}/mbind /M_bind in H.
  destruct (acquire LOGLOCK s) as [[[] s1]| | |] eqn:Ea; try done;
    [|injection H as <-; by eapply acquire_panics].
  apply acquire_keeps_lg in Ea. rewrite {1}/mbind /M_bind {1}/gets Ea in H.
  rewrite (_ : (LOGSIZE <=? _) || _ = false) in H; [|lia]. rewrite (_ : outstanding _ <? 1 = false) in H; [|lia].
  revert H. match goal with |- ?c s1 = _ → _ => change (c s1 = Panic msg → msg = "acquire" ∨ msg = "release") end.
  match goal with |- ?c s1 = _ → _ => assert (panics_in (λ m, m = "acquire" ∨ m = "release") c) as Hc end;
    [|apply Hc]. rewrite /buf_at /lh_set /bpin /upd_buf /upd_lg. solve_panics.
Qed.

(** C31: the log never overflows.  In every state the interleaved file system
    operations can reach, a process whose operation has logged fewer than
    [MAXOPBLOCKS] blocks can log another one: [log_write] does not panic for
    lack of space or outside a transaction, provided the log has room for
    [LOGSIZE] blocks besides its header. *)
Theorem log_space_safe c0 c p w b :
  start c0 → rtc step c0 c → ops c !! p = Some w → w < MAXOPBLOCKS → LOGSIZE < lsize (lg (sfs c)) →
  log_write b (sfs c) ≠ Panic "too big a transaction" ∧
  log_write b (sfs c) ≠ Panic "log_write outside of trans".
Proof.
  intros H0 Hs Hp Hw Hsz. destruct (log_reachable_inv _ _ H0 Hs) as [Hcnt Hlg [Hn Hsp] _].
  destruct c as [s o]. simpl in *. pose proof (Hlg p w Hp).
  pose proof (reserved_bound _ (λ q v Hq, Hlg q v (proj2 (proj1 (lookup_delete_Some o p q v) Hq)))) as Hb.
  rewrite (reserved_delete o p w) // in Hsp.
  assert (size o ≠ 0%nat) by (intros E%map_size_empty_inv; by rewrite E in Hp).
  split; intros E%log_write_panics; solve [naive_solver|lia].
Qed.

(** ** Runs *)

Inductive act := ABegin (p : Z) | AWrite (p b : Z) | AEnd (p : Z) | ACommit.

Definition run_act (a : act) (c : sys) : option sys :=
  let '(mk_sys s o) := c in
  match a with
  | ABegin p =>
      match o !! p, begin_op s with
      | None, Ret (_, s') => Some (mk_sys s' (<[p := 0]> o)) | _, _ => None end
  | AWrite p b =>
      match o !! p, log_write b s with
      | Some w, Ret (_, s') => if w <? MAXOPBLOCKS then Some (mk_sys s' (<[p := w + 1]> o)) else None
      | _, _ => None end
  | AEnd p =>
      match o !! p, end_op_enter s with
      | Some _, Ret (_, s') => Some (mk_sys s' (delete p o)) | _, _ => None end
  | ACommit =>
      match end_op_commit s with
      | Ret (_, s') => if committing (lg s) then Some (mk_sys s' o) else None | _ => None end
  end.

Fixpoint run_acts (l : list act) (c : sys) : option sys :=
  match l with [] => Some c | a :: l' => c' ← run_act a c; run_acts l' c' end.

Lemma run_act_step a c c' : run_act a c = Some c' → step c c'.
Proof.
  destruct c as [s o], a as [p|p b|p|]; simpl.
  - destruct (o !! p) eqn:E; [done|]. destruct (begin_op s) as [[[] s']| | |] eqn:Eb; try done.
    intros [= <-]. by constructor.
  - destruct (o !! p) eqn:E; [|done]. destruct (log_write b s) as [[[] s']| | |] eqn:Eb; try done.
    destruct (Z.ltb_spec z MAXOPBLOCKS); [|done]. intros [= <-]. by econstructor.
  - destruct (o !! p) eqn:E; [|done]. destruct (end_op_enter s) as [[b s']| | |] eqn:Eb; try done.
    intros [= <-]. by econstructor.
  - destruct (end_op_commit s) as [[[] s']| | |] eqn:Eb; try done.
    destruct (committing (lg s)) eqn:E; [|done]. intros [= <-]. by constructor.
Qed.

Lemma run_acts_steps l c c' : run_acts l c = Some c' → rtc step c c'.
Proof.
  revert c. induction l as [|a l IH]; intros c; simpl; [by intros [= ->]|].
  intros (c1 & H1 & H2)%bind_Some. eapply rtc_l; [by eapply run_act_step|eauto].
Qed.

(** Thirty buffers that hold thirty blocks, and a log of [sz] blocks. *)
Definition thirty (sz : Z) : sys :=
  mk_sys (set_lg (mk_log 2 sz 0 false ROOTDEV 0 ∅)
            (set_bufs (λ i, mk_buf true ROOTDEV (100 + i) (mk_sleeplock true 1) 1 0 0 ∅) (fs_boot ∅))) ∅.

(** Three operations; the first two log ten blocks each, the last one nine. *)
Definition three_ops : list act :=
  [ABegin 1; ABegin 2; ABegin 3] ++ (AWrite 1 <$> seqZ 0 10) ++ (AWrite 2 <$> seqZ 10 10) ++
  (AWrite 3 <$> seqZ 20 9).

Lemma log_space_safe_witness :
  match run_acts three_ops (thirty 31) with
  | Some c => log_write 29 (sfs c) ≠ Panic "too big a transaction" ∧
              log_write 29 (sfs c) ≠ Panic "log_write outside of trans"
  | None => False
  end.
Proof.
  assert ((λ c, (ops c !! 3, lsize (lg (sfs c)))) <$> run_acts three_ops (thirty 31) = Some (Some 9, 31))
    as H by (vm_compute; reflexivity).
  destruct (run_acts three_ops (thirty 31)) as [c|] eqn:E; [|discriminate H].
  apply run_acts_steps in E. injection H as H1 H2.
  apply (log_space_safe (thirty 31) c 3 9 29); [done|exact E|exact H1|lia|lia].
Defined.

(** [begin_op] reserves [LOGSIZE] blocks, but a log of [LOGSIZE] blocks
    holds one fewer besides its header, and [log_write] refuses the last one:
    three concurrent operations that keep within their [MAXOPBLOCKS] blocks
    reach a state in which [log_write] panics. *)
Lemma log_full_panics :
  ∃ c0 c p w b, start c0 ∧ lsize (lg (sfs c0)) = LOGSIZE ∧ rtc step c0 c ∧
    ops c !! p = Some w ∧ w < MAXOPBLOCKS ∧ log_write b (sfs c) = Panic "too big a transaction".
Proof.
  assert ((λ c, (ops c !! 3, match log_write 29 (sfs c) with Panic m => Some m | _ => None end)) <$>
    run_acts three_ops (thirty LOGSIZE) = Some (Some 9, Some "too big a transaction")) as H
    by (vm_compute; reflexivity).
  destruct (run_acts three_ops (thirty LOGSIZE)) as [c|] eqn:E; [|discriminate H].
  apply run_acts_steps in E. injection H as H1 H2.
  exists (thirty LOGSIZE), c, 3, 9, 29. split_and!; [done|done|exact E|exact H1|lia|].
  destruct (log_write 29 (sfs c)); by simplify_eq.
Qed.
