(* ===== verification/Txn.v ===== *)
(** * Inside a transaction

    What fs.c sees of the buffer cache and the log between [begin_op] and
    [end_op]: blocks are a map, [bread], [log_write] and [brelse] read and
    write it, and the log collects the numbers of the blocks written.
    [txn E c W O I s]: the contents of the blocks are [c], the blocks written
    so far are [W], the buffers locked are [O], the inodes are [I], and the
    rest of the state is as in [E].  There is one rule per operation;
    [wp_end_op] says that the end of the transaction puts [c] on the disk, all
    of it or none whenever the machine stops. *)

From stdpp Require Import functions list.
From S2P Require Import Prelude Mem Cstring Spinlock Sleeplock Bio Bcache Log LogCrash.

Local Open Scope Z_scope.

(** A block is pinned once by the log and once by whoever has it locked. *)
Definition pin_count (W : list Z) (O : gmap Z Z) (n : Z) : Z :=
  (if decide (n ∈ W) then 1 else 0) + (if decide (is_Some (O !! n)) then 1 else 0).

Definition pins_ok (W : list Z) (O p : gmap Z Z) : Prop :=
  ∀ n, p !! n = if decide (pin_count W O n = 0) then None else Some (pin_count W O n).

(** The parts of the state that a transaction leaves alone. *)
Record same_env (E s : fsst) : Prop := {
  se_sb : sb s = sb E;
  se_held : fheld s = fheld E;
  se_pid : fpid s = fpid E;
  se_disk : disk s = disk E;
  se_trace : wtrace s = wtrace E;
  se_log : (lstart (lg s), lsize (lg s), outstanding (lg s), committing (lg s)) =
           (lstart (lg E), lsize (lg E), outstanding (lg E), committing (lg E));
}.

Record txn (E : fsst) (c : Z → block) (W : list Z) (O : gmap Z Z) (I : Z → inode) (s : fsst) : Prop := {
  tx_rep : ∃ p, rep s (mk_babs c p O (disk E)) ∧ pins_ok W O p;
  tx_env : same_env E s;
  tx_inodes : inodes s = I;
  tx_log : logged (lg s) W;
  tx_open : 1 ≤ outstanding (lg E);
  tx_lock : LOGLOCK ∉ fheld E;
}.

(** There is room for [k] more blocks in the log, and for two more buffers. *)
Definition budget (E : fsst) (W : list Z) (k : Z) : Prop :=
  Z.of_nat (length W) + k ≤ Z.min 28 (lsize (lg E) - 1).

(** A block that a transaction may write. *)
Definition home (E : fsst) (n : Z) : Prop := 0 ≤ n < 2 ^ 31 ∧ ¬ in_log (lg E) n.

Definition add_log (n : Z) (W : list Z) : list Z := if decide (n ∈ W) then W else W ++ [n].

Lemma elem_of_add_log x n W : x ∈ add_log n W ↔ x = n ∨ x ∈ W.
Proof. rewrite /add_log. case_decide; set_solver. Qed.

Lemma add_log_length n W : (length W ≤ length (add_log n W) ≤ S (length W))%nat.
Proof. rewrite /add_log. case_decide; rewrite ?length_app /=; lia. Qed.

Lemma add_log_in n W : n ∈ W → add_log n W = W.
Proof. intros H. by rewrite /add_log decide_True. Qed.

Section pins.
Implicit Types (W : list Z) (O p : gmap Z Z).

Lemma pins_size W O p : NoDup W → pins_ok W O p → (size p ≤ length W + size O)%nat.
Proof.
  intros Hnd Hp. pose proof (size_union_alt (list_to_set W : gset Z) (dom O)) as Hu.
  assert (size (dom O ∖ list_to_set W) ≤ size (dom O))%nat by (apply subseteq_size; set_solver).
  rewrite size_list_to_set // in Hu. rewrite -(size_dom p) -(size_dom O).
  transitivity (size (list_to_set W ∪ dom O)); [|lia]. apply subseteq_size. intros n [k Hk]%elem_of_dom. rewrite Hp in Hk. case_decide as E; [done|].
  rewrite elem_of_union elem_of_list_to_set elem_of_dom. rewrite /pin_count in E.
  destruct (decide (n ∈ W)); [by left|]. destruct (decide (is_Some (O !! n))); [by right|]. done.
Qed.

Lemma pins_own n b W O p :
  O !! n = None → pins_ok W O p → pins_ok W (<[n := b]> O) (<[n := default 0 (p !! n) + 1]> p).
Proof.
  intros Ho Hp x. destruct (decide (x = n)) as [->|Hne].
  - rewrite lookup_insert_eq Hp /pin_count lookup_insert_eq Ho.
    destruct (decide (n ∈ W)), (decide (is_Some (Some b))) as [|[]]; eauto; rewrite decide_False //;
      destruct (decide (is_Some None)) as [[? ?]|]; done.
  - rewrite lookup_insert_ne // Hp /pin_count lookup_insert_ne //.
Qed.

Lemma pins_release n b W O p :
  O !! n = Some b → pins_ok W O p → pins_ok W (delete n O) (pin_dec n p).
Proof.
  intros Ho Hp x. rewrite /pin_dec. destruct (decide (x = n)) as [->|Hne].
  - pose proof (Hp n) as Hn. rewrite /pin_count Ho in Hn. rewrite /pin_count lookup_delete_eq.
    destruct (decide (is_Some (Some b))) as [|[]]; [|eauto]. destruct (decide (is_Some None)) as [[? ?]|]; [done|].
    destruct (decide (n ∈ W)); simpl in Hn; rewrite Hn /=.
    + by rewrite lookup_insert_eq.
    + by rewrite lookup_delete_eq.
  - assert (pin_count W (delete n O) x = pin_count W O x) as -> by (rewrite /pin_count lookup_delete_ne //).
    rewrite -Hp. case_decide; [by rewrite lookup_delete_ne|by rewrite lookup_insert_ne].
Qed.

Lemma pins_log n b W O p :
  O !! n = Some b → n ∉ W → pins_ok W O p → pins_ok (W ++ [n]) O (<[n := default 0 (p !! n) + 1]> p).
Proof.
  intros Ho Hn Hp x. destruct (decide (x = n)) as [->|Hne].
  - rewrite lookup_insert_eq Hp /pin_count Ho.
    destruct (decide (is_Some (Some b))) as [|[]]; [|eauto]. rewrite (decide_False _ _ Hn).
    rewrite (decide_True (P := n ∈ W ++ [n])); [|set_solver]. done.
  - rewrite lookup_insert_ne // Hp.
    assert (pin_count (W ++ [n]) O x = pin_count W O x) as ->; [|done]. rewrite /pin_count. f_equal.
    apply decide_ext. set_solver.
Qed.
End pins.

(** ** The rules *)

Section rules.
Context (E : fsst).
Implicit Types (c : Z → block) (W : list Z) (O : gmap Z Z) (I : Z → inode).

(** A change of the buffers alone. *)
Lemma txn_bufs c W O I s c' O' p B :
  txn E c W O I s → rep (set_bufs B s) (mk_babs c' p O' (disk E)) → pins_ok W O' p →
  txn E c' W O' I (set_bufs B s).
Proof. intros [_ [] ? ? ? ?] Hr Hp. split; eauto; done. Qed.

Lemma txn_size c W O I s p :
  txn E c W O I s → pins_ok W O p → budget E W 0 → (size p ≤ 28 + size O)%nat.
Proof.
  intros Ht Hp Hb. pose proof (pins_size W O p (lo_nodup _ _ (tx_log _ _ _ _ _ _ Ht)) Hp). rewrite /budget in Hb. lia.
Qed.

(** Outside the log a block that nobody has locked is as on the disk. *)
Lemma txn_clean c W O I s n :
  txn E c W O I s → O !! n = None → n ∈ W ∨ c n = contents (disk E) n.
Proof.
  intros [[p [Hr Hp]] _ _ _ _ _] Ho. destruct (decide (n ∈ W)); [by left|right].
  apply (rp_clean _ _ Hr). simpl. rewrite Hp decide_True // /pin_count Ho. by rewrite decide_False.
Qed.

Lemma txn_bread c W O I s n (Q : Z → fsst → Prop) :
  txn E c W O I s → O !! n = None → budget E W 0 → (size O ≤ 1)%nat →
  (∀ b s', txn E c W (<[n := b]> O) I s' → (n ∈ W ∨ c n = contents (disk E) n) → Q b s') →
  wp (bread ROOTDEV n) Q s.
Proof.
  intros Ht Ho Hb HO HQ. pose proof (txn_clean _ _ _ _ _ n Ht Ho) as Hcl.
  destruct (tx_rep _ _ _ _ _ _ Ht) as [p [Hr Hp]]. pose proof (txn_size _ _ _ _ _ _ Ht Hp Hb).
  apply (wp_bread n (mk_babs c p O (disk E))); [done..| |].
  - split; [right; simpl; lia|]. simpl. rewrite Hp. case_decide; simpl; [lia|]. rewrite /pin_count.
    destruct (decide (n ∈ W)), (decide (is_Some (O !! n))); simpl; lia.
  - intros b B Hr'. apply HQ; [|done]. eapply txn_bufs; [done..|exact Hr'|]. by apply pins_own.
Qed.

Lemma txn_get c W O I s n b (Q : block → fsst → Prop) :
  txn E c W O I s → O !! n = Some b → Q (c n) s → wp (get_data b) Q s.
Proof. intros [[p [Hr Hp]] _ _ _ _ _] Ho. by apply (wp_get_data n b _ s Q Hr). Qed.

Lemma txn_put c W O I s n b d (Q : unit → fsst → Prop) :
  txn E c W O I s → O !! n = Some b →
  (∀ s', txn E (<[n := d]> c) W O I s' → Q tt s') → wp (put_data b d) Q s.
Proof.
  intros Ht Ho HQ. destruct (tx_rep _ _ _ _ _ _ Ht) as [p [Hr Hp]]. eapply wp_put_data; [exact Hr|exact Ho|].
  intros B Hr'. apply HQ. by eapply txn_bufs.
Qed.

Lemma txn_brelse c W O I s n b (Q : unit → fsst → Prop) :
  txn E c W O I s → O !! n = Some b → (n ∈ W ∨ c n = contents (disk E) n) →
  (∀ s', txn E c W (delete n O) I s' → Q tt s') → wp (brelse b) Q s.
Proof.
  intros Ht Ho Hcl HQ. destruct (tx_rep _ _ _ _ _ _ Ht) as [p [Hr Hp]]. eapply wp_brelse; [exact Hr|exact Ho| |].
  - simpl. intros Hn. destruct Hcl as [Hw|]; [|done]. rewrite Hp /pin_count Ho in Hn.
    destruct (decide (n ∈ W)); [|done]. by destruct (decide (is_Some (Some b))) as [|[]]; eauto.
  - intros B Hr'. apply HQ. eapply txn_bufs; [done|exact Hr'|]. by eapply pins_release.
Qed.

(** The scan of [log_write] finds the block, or stops at the end. *)
Lemma log_scan_eq W s n fuel i :
  logged (lg s) W → (i ≤ length W)%nat → (length W < fuel + i)%nat →
  (∀ j x, (j < i)%nat → W !! j = Some x → x ≠ n) → 0 ≤ n < 2 ^ 31 →
  ∃ j, log_scan fuel (Z.of_nat i) (Z.of_nat (length W)) n s = Ret (Z.of_nat j, s) ∧
    ((j = length W ∧ n ∉ W) ∨ W !! j = Some n).
Proof.
  intros Hl. revert i. induction fuel as [|fuel IH]; intros i Hi Hf Hb Hn; [lia|]. simpl.
  destruct (Z.ltb_spec (Z.of_nat i) (Z.of_nat (length W))) as [Hlt|Hge].
  - destruct (lookup_lt_is_Some_2 W i) as [h Hh]; [lia|].
    rewrite /mbind /M_bind (lh_get_eq _ _ _ _ s Hl eq_refl Hh).
    destruct (lo_home _ _ Hl h) as [Hr _]; [by eapply list_elem_of_lookup_2|].
    rewrite (_ : u32 h = h); [|rewrite /u32; by rewrite Z.mod_small; [|lia]].
    destruct (Z.eqb_spec h n) as [->|Hne]; [by exists i; auto|].
    rewrite (_ : Z.of_nat i + 1 = Z.of_nat (S i)); [|lia]. apply IH; [lia|lia| |done].
    intros j x Hj Hx. destruct (decide (j = i)) as [->|]; [congruence|]. apply (Hb j); [lia|done].
  - exists i. rewrite (_ : i = length W); [|lia]. split; [done|]. left. split; [done|].
    intros [j Hj]%list_elem_of_lookup. pose proof (lookup_lt_Some _ _ _ Hj). apply (Hb j n); [lia|done|done].
Qed.

(** The header with one more block. *)
Lemma logged_add l W n :
  logged l W → n ∉ W → 0 ≤ n < 2 ^ 31 → ¬ in_log l n → (length W < 30)%nat → Z.of_nat (length W) + 1 < lsize l →
  logged (with_lh (lh_n l + 1) (<[Z.of_nat (length W) := n]> (lh_block l)) l) (W ++ [n]).
Proof.
  intros [Hd Ha Hn Hf Hb Hnd Hh] Hni Hr Hil H1 H2. split; simpl; try done.
  - rewrite length_app /=. lia.
  - rewrite length_app /=. lia.
  - intros i h Hi. destruct (decide (i = length W)) as [->|Hne].
    + rewrite lookup_insert_eq. rewrite lookup_app_r in Hi; [|done]. rewrite Nat.sub_diag /= in Hi. congruence.
    + rewrite lookup_insert_ne; [|lia]. apply Hb. pose proof (lookup_lt_Some _ _ _ Hi) as Hlt.
      rewrite length_app /= in Hlt. by rewrite lookup_app_l in Hi; [|lia].
  - apply NoDup_app. split_and!; [done| |apply NoDup_singleton]. intros x Hx ->%list_elem_of_singleton. done.
  - intros h [Hh'| ->%list_elem_of_singleton]%elem_of_app; [by apply Hh|done].
Qed.

Lemma logged_same l W i n :
  logged l W → W !! i = Some n → logged (with_lh (lh_n l) (<[Z.of_nat i := n]> (lh_block l)) l) W.
Proof.
  intros [Hd Ha Hn Hf Hb Hnd Hh] Hi. split; simpl; try done. intros j h Hj.
  destruct (decide (j = i)) as [->|]; [rewrite lookup_insert_eq; congruence|]. rewrite lookup_insert_ne; [auto|lia].
Qed.

(** The log's lock is taken and released around the change. *)
Lemma txn_loglock c W O I s l B :
  txn E c W O I s →
  set_held (({[LOGLOCK]} ∪ fheld s) ∖ {[LOGLOCK]}) (set_lg l (set_bufs B (set_held ({[LOGLOCK]} ∪ fheld s) s))) =
  set_lg l (set_bufs B s).
Proof.
  intros Ht. destruct (tx_env _ _ _ _ _ _ Ht) as [_ Hh _ _ _ _]. pose proof (tx_lock _ _ _ _ _ _ Ht) as Hl.
  rewrite -Hh in Hl. destruct s. cbn in *. rewrite /set_fheld /set_lg /set_bufs /=. f_equal. set_solver.
Qed.

Lemma txn_set_lg c W W' O I s l p B :
  txn E c W O I s → rep (set_bufs B s) (mk_babs c p O (disk E)) → pins_ok W' O p →
  (lstart l, lsize l, outstanding l, committing l) = (lstart (lg s), lsize (lg s), outstanding (lg s), committing (lg s)) →
  logged l W' → txn E c W' O I (set_lg l (set_bufs B s)).
Proof.
  intros [_ [] ? ? ? ?] Hr Hp El Hl. split; try done.
  - exists p. split; [|done]. by eapply (rep_ext _ _ (set_bufs B s)).
  - split; try done. simpl. congruence.
Qed.

Lemma txn_log_write c W O I s n b (Q : unit → fsst → Prop) :
  txn E c W O I s → O !! n = Some b → budget E W 1 → home E n →
  (∀ s', txn E c (add_log n W) O I s' → Q tt s') → wp (log_write b) Q s.
Proof.
  intros Ht Ho Hb [Hn Hil] HQ. destruct (tx_rep _ _ _ _ _ _ Ht) as [p [Hr Hp]].
  destruct (tx_env _ _ _ _ _ _ Ht) as [_ Hh _ _ _ El]. injection El as El1 El2 El3 El4.
  pose proof (tx_lock _ _ _ _ _ _ Ht) as Hlk. pose proof (tx_log _ _ _ _ _ _ Ht) as Hl.
  pose proof (tx_open _ _ _ _ _ _ Ht) as Hopen. rewrite /budget in Hb.
  destruct (rp_owned _ _ Hr n b Ho) as (_ & _ & Hbn & _).
  rewrite /log_write. apply wp_bind, wp_acquire; [by rewrite /held /= Hh|]. set (s1 := set_held _ s).
  assert (lg s1 = lg s) as E1 by done. apply wp_bind, wp_gets. rewrite E1 (lo_n _ _ Hl).
  rewrite (_ : (LOGSIZE <=? _) || _ = false); [|lia]. rewrite (_ : outstanding _ <? 1 = false); [|lia].
  apply wp_bind, wp_gets. rewrite (_ : blockno (bufs s1 b) = n) //.
  destruct (log_scan_eq W s1 n (S (Z.to_nat (Z.of_nat (length W)))) 0) as (j & Hscan & Hj); [by rewrite E1|lia|lia|lia|done|].
  apply wp_bind. eapply wp_Ret; [exact Hscan|]. rewrite (_ : s32 n = n); [|rewrite /s32; rewrite Z.mod_small; lia].
  assert (j < 30)%nat as Hj30.
  { destruct Hj as [[-> _]|Hj%lookup_lt_Some]; lia. }
  apply wp_bind. rewrite /lh_set (_ : (0 <=? _) && _ = true); [|lia]. apply wp_modify. rewrite E1.
  apply wp_bind, wp_gets. simpl lh_n. rewrite (lo_n _ _ Hl).
  destruct Hj as [[-> Hni]|Hj].
  - rewrite Z.eqb_refl. apply wp_bind, wp_bind.
    eapply (wp_bpin n b (mk_babs c p O (disk E))); [|exact Ho| |].
    + eapply (rep_ext _ _ s); [done..| |exact Hr]. cbn. set_solver.
    + simpl. rewrite Hp. case_decide; [simpl; lia|]. rewrite /pin_count. simpl. repeat case_decide; lia.
    + intros B Hr'. apply wp_modify. apply wp_release; [cbn; set_solver|]. cbn [lg set_lg set_bufs].
      match goal with |- Q tt ?x => assert (x = set_lg (with_lh (lh_n (lg s) + 1) (<[Z.of_nat (length W) := n]> (lh_block (lg s))) (lg s)) (set_bufs B s)) as -> end.
      { by rewrite -(txn_loglock c W O I s _ B Ht) (lo_n _ _ Hl). }
      apply HQ. rewrite /add_log decide_False //. eapply txn_set_lg; [exact Ht| |by eapply pins_log|done|].
      * eapply (rep_ext _ _ _); [..|exact Hr']; try done. intros _. cbn. apply (rp_lock _ _ Hr).
      * apply logged_add; try done; [|lia..]. by rewrite /in_log El1 El2.
  - rewrite (proj2 (Z.eqb_neq _ _)); [|apply lookup_lt_Some in Hj; lia]. apply wp_bind, wp_ret.
    apply wp_release; [cbn; set_solver|]. cbn [lg set_lg].
    match goal with |- Q tt ?x => assert (x = set_lg (with_lh (lh_n (lg s)) (<[Z.of_nat j := n]> (lh_block (lg s))) (lg s)) (set_bufs (bufs s) s)) as -> end.
    { rewrite -(txn_loglock c W O I s _ (bufs s) Ht) (lo_n _ _ Hl). by destruct s. }
    apply HQ. rewrite add_log_in; [|by eapply list_elem_of_lookup_2]. eapply txn_set_lg; [exact Ht| |exact Hp|done|].
    + by destruct s.
    + by apply logged_same.
Qed.
End rules.

(** ** The transaction as a whole *)

(** No transaction is under way, and the log on the disk is empty. *)
Record quiet (s : fsst) : Prop := {
  q_rep : rep s (empty_cache (disk s));
  q_log : logged (lg s) [];
  q_out : outstanding (lg s) = 0;
  q_com : committing (lg s) = false;
  q_lock : LOGLOCK ∉ fheld s;
  q_valid : valid_log (lg s) (disk s);
  q_head : hdr (contents (disk s) (lstart (lg s))) = [];
}.

Definition opened (s : fsst) : fsst := set_lg (with_outstanding 1 (lg s)) s.

Lemma wp_begin_op s (Q : unit → fsst → Prop) :
  quiet s → (txn (opened s) (contents (disk s)) [] ∅ (inodes s) (opened s) → Q tt (opened s)) → wp begin_op Q s.
Proof.
  intros [Hr Hl Ho Hc Hk Hv Hh] HQ. rewrite /begin_op. apply wp_bind, wp_acquire; [done|].
  apply wp_bind, wp_gets. cbn [lg set_held fsst_locks set_fheld]. rewrite Hc (lo_n _ _ Hl) Ho /=.
  apply wp_bind, wp_modify. apply wp_release; [cbn; set_solver|].
  match goal with |- Q tt ?x => assert (x = opened s) as -> end.
  { rewrite /opened. destruct s. cbn in *. rewrite Ho /set_fheld /set_lg /=. f_equal. set_solver. }
  apply HQ. split; try done.
  - exists ∅. split; [by eapply (rep_ext _ _ s); [..|exact Hr]|]. intros n. by rewrite lookup_empty.
  - by destruct Hl; split.
Qed.

(** The disk after a crash, once its log is replayed: every block outside the
    log as on disk [d0], or every one as in [c]. *)
Definition old_or_new_blocks (l : log) (d0 : gmap Z block) (c : Z → block) (d : gmap Z block) : Prop :=
  valid_log l d ∧
  ((∀ x, ¬ in_log l x → recov (lstart l) d x = contents d0 x) ∨
   (∀ x, ¬ in_log l x → recov (lstart l) d x = c x)).

(** What the end of the transaction leaves. *)
Record committed (s0 : fsst) (c : Z → block) (I : Z → inode) (s : fsst) : Prop := {
  cm_quiet : quiet s;
  cm_disk : ∀ x, ¬ in_log (lg s0) x → contents (disk s) x = c x;
  cm_inodes : inodes s = I;
  cm_sb : sb s = sb s0;
  cm_pid : fpid s = fpid s0;
  cm_held : fheld s = fheld s0;
  cm_area : (lstart (lg s), lsize (lg s)) = (lstart (lg s0), lsize (lg s0));
  cm_crash : ∃ t, wtrace s = t ++ wtrace s0 ∧ disk s = replay t (disk s0) ∧
    all_crash (old_or_new_blocks (lg s0) (disk s0) c) (disk s0) t;
}.

Section end_op.
Context (s0 : fsst) (c : Z → block) (W : list Z) (I : Z → inode) (s : fsst).
Context (Hq : quiet s0) (Ht : txn (opened s0) c W ∅ I s) (Hb : budget (opened s0) W 0).

Definition committing_log : log := with_committing true (with_outstanding 0 (lg s)).

Lemma wp_end_op_enter (Q : bool → fsst → Prop) : Q true (set_lg committing_log s) → wp end_op_enter Q s.
Proof.
  intros HQ. destruct (tx_env _ _ _ _ _ _ Ht) as [_ Hh _ _ _ El]. injection El as _ _ Eo Ec.
  pose proof (q_lock _ Hq) as Hk. rewrite (_ : fheld (opened s0) = fheld s0) // in Hh.
  rewrite /end_op_enter. apply wp_bind, wp_acquire; [by rewrite /held /= Hh|].
  apply wp_bind, wp_modify, wp_bind, wp_gets. cbn [lg set_lg set_held fsst_locks set_fheld committing with_outstanding outstanding].
  rewrite Ec Eo (q_com _ Hq) /=. apply wp_bind, wp_bind, wp_modify, wp_ret. apply wp_bind, wp_release; [cbn; set_solver|].
  apply wp_ret. match goal with |- Q true ?x => assert (x = set_lg committing_log s) as -> end; [|done].
  rewrite /committing_log. destruct s. cbn in *. rewrite /set_lg /set_fheld /=. f_equal. set_solver.
Qed.

Lemma end_pins p : pins_ok W ∅ p → ∀ x, p !! x = if decide (x ∈ W) then Some 1 else None.
Proof.
  intros Hp x. rewrite Hp /pin_count lookup_empty. destruct (decide (is_Some None)) as [[? ?]|]; [done|].
  by destruct (decide (x ∈ W)).
Qed.

Lemma end_logged : logged committing_log W.
Proof. destruct (tx_log _ _ _ _ _ _ Ht). by split. Qed.

Lemma end_commit p (Q : unit → fsst → Prop) :
  rep s (mk_babs c p ∅ (disk s0)) → pins_ok W ∅ p →
  (∀ s', commit_post (set_lg committing_log s) (mk_babs c p ∅ (disk s0)) W s' → Q tt s') →
  wp commit Q (set_lg committing_log s).
Proof.
  intros Hr Hp HQ. destruct (tx_env _ _ _ _ _ _ Ht) as [_ _ _ Hd _ El]. injection El as El1 El2 _ _.
  pose proof (end_pins p Hp) as Hpx. eapply wp_mono; [apply (commit_ok _ (mk_babs c p ∅ (disk s0)) W)|intros [] s' H; by apply HQ].
  - by eapply (rep_ext _ _ s).
  - exact end_logged.
  - split; simpl; [done| | |].
    + intros x Hx. rewrite Hpx decide_False //. intros Hw. by destruct (lo_home _ _ end_logged x Hw).
    + pose proof (pins_size W ∅ p (lo_nodup _ _ end_logged) Hp) as Hs. rewrite map_size_empty in Hs.
      pose proof Hb as Hb'. rewrite /budget in Hb'. lia.
    + intros n k. rewrite Hpx. case_decide; [|done]. intros [= <-]. lia.
  - intros h Hh. simpl. rewrite Hpx decide_True //.
  - destruct (q_valid _ Hq) as [V1 V2 V3 V4]. simpl. rewrite Hd. split; simpl; rewrite ?El1 ?El2; try done.
    rewrite /in_log /= El1 El2. exact V4.
  - simpl. rewrite Hd El1. apply (q_head _ Hq).
Qed.

Lemma end_rep p a' s' :
  pins_ok W ∅ p → rep s' a' → own a' = ∅ →
  (∀ x, x ∉ W → pin a' !! x = p !! x) → (∀ x, x ∈ W → pin a' !! x = pin_dec x p !! x) →
  rep s' (empty_cache (disk s')).
Proof.
  intros Hp Hr Ho H1 H2. pose proof (end_pins p Hp) as Hpx. assert (pin a' = ∅) as Ep.
  { apply map_eq. intros x. rewrite lookup_empty. destruct (decide (x ∈ W)).
    - rewrite H2 // /pin_dec Hpx. destruct (decide (x ∈ W)); [|done]. by rewrite /= lookup_delete_eq.
    - rewrite H1 // Hpx decide_False //. }
  eapply rep_same; [exact Hr|..]; simpl; try done; [|apply (rp_disk _ _ Hr)].
  intros x. rewrite (rp_disk _ _ Hr). symmetry. apply (rp_clean _ _ Hr). by rewrite Ep.
Qed.

Lemma end_new p x : new_block (set_lg committing_log s) (mk_babs c p ∅ (disk s0)) W x = c x.
Proof.
  destruct (tx_env _ _ _ _ _ _ Ht) as [_ _ _ Hd _ _]. rewrite /new_block /= Hd. case_decide as Hw; [done|].
  by destruct (txn_clean _ _ _ _ _ _ x Ht (lookup_empty _)).
Qed.

Lemma wp_end_op (Q : unit → fsst → Prop) : (∀ s', committed s0 c I s' → Q tt s') → wp end_op Q s.
Proof.
  intros HQ. rewrite /end_op. apply wp_bind, wp_end_op_enter. simpl. rewrite /end_op_commit.
  destruct (tx_rep _ _ _ _ _ _ Ht) as [p [Hr Hp]]. destruct (tx_env _ _ _ _ _ _ Ht) as [Hsb Hh Hpid Hd Htr El].
  injection El as El1 El2 _ _. apply wp_bind, (end_commit p); [done..|].
  intros s2 [(a' & Hr' & Hi & _ & Hp1 & Hp2) (B & d & t & Es2) Hhd Hdk (t' & Et & Er & Ha)].
  assert (fheld s2 = fheld s0) as Hh2 by (rewrite Es2 /=; exact Hh).
  assert (lg s2 = with_lh 0 (lh_block (lg s)) committing_log) as El by (by rewrite Es2).
  pose proof (end_rep p a' s2 Hp Hr' (li_own _ _ Hi) Hp1 Hp2) as Hrep.
  assert (∀ x, ¬ in_log (lg s0) x → contents (disk s2) x = c x) as Hdisk.
  { intros x Hx. rewrite Hdk; [by rewrite end_new|]. by rewrite /in_log /= El1 El2. }
  apply wp_bind, wp_acquire; [rewrite /held /= Hh2; apply (q_lock _ Hq)|].
  apply wp_bind, wp_modify, wp_release; [cbn; set_solver|].
  match goal with |- Q tt ?x => assert (x = set_lg (with_committing false (lg s2)) s2) as -> end.
  { pose proof (q_lock _ Hq) as Hk. rewrite -Hh2 in Hk. destruct s2. cbn in *. rewrite /set_fheld /set_lg /=. f_equal. set_solver. }
  assert (inodes s2 = I ∧ sb s2 = sb s0 ∧ fpid s2 = fpid s0) as (Hi2 & Hs2 & Hf2).
  { rewrite Es2 /=. split_and!; [apply (tx_inodes _ _ _ _ _ _ Ht)|done|done]. }
  clear Es2. apply HQ. split; cbn [lg set_lg disk wtrace inodes sb fpid fheld]; rewrite ?El //=.
  - split; cbn [lg set_lg disk wtrace fheld]; rewrite ?El //=.
    + by eapply (rep_ext _ _ s2).
    + destruct (lo_area _ _ end_logged), (lo_fit _ _ end_logged).
      split; cbn in *; try done; [apply (lo_dev _ _ end_logged)|lia|constructor|]. intros h Hx. by apply elem_of_nil in Hx.
    + rewrite Hh2. apply (q_lock _ Hq).
    + destruct (Ha t' (reflexivity _)) as [Hv _]. rewrite Er. destruct Hv. by split.
  - by rewrite El1 El2.
  - exists t'. simpl in Et, Er. rewrite Et Er Htr Hd. split_and!; [done|done|].
    intros t1 H1. destruct (Ha t1 H1) as [[V1 V2 V3 V4] Hon]. cbn in V1, V2, V3, V4, Hon. rewrite Hd El1 in V1 V2 V3 V4.
    split; [split; rewrite -?El2 //; intros h Hx; rewrite /in_log -El1 -El2; by apply V4|].
    rewrite /all_old /all_new /in_log /= El1 El2 Hd in Hon. destruct Hon as [Ho|Hn]; [by left|right].
    intros x Hx. rewrite Hn; [apply end_new|done].
Qed.
End end_op.
