(* ===== verification/Fs.v ===== *)
(** * Disk blocks and inodes (kernel/fs.c, first half)

    The superblock, the block allocator on its bitmap, and the inode layer:
    the on-disk [struct dinode], the table of in-memory inodes, and the map
    from a file's blocks to disk blocks.  An in-memory inode is named by its
    index in [itable]; a null pointer is [None].  Messages printed on the
    console are not part of the state. *)

From stdpp Require Import functions list.
From S2P Require Import Prelude Mem Cstring Spinlock Sleeplock Bio Bcache Log.

Local Open Scope Z_scope.

Notation FSMAGIC := 0x10203040.
Notation ROOTINO := 1.
Notation BPB := 8192.
Notation IPB := 16.
Notation MAXFILE := 268.
Notation T_DIR := 1.
Notation T_FILE := 2.
Notation T_DEVICE := 3.

Definition BBLOCK (b : Z) (s : superblock) : Z := u32 (b / BPB + sb_bmapstart s).
Definition IBLOCK (i : Z) (s : superblock) : Z := u32 (i / IPB + sb_inodestart s).

(** ** The superblock *)

Definition readsb (d : Z) : M fsst superblock :=
  bp ← bread (u32 d) 1;
  b ← get_data bp;
  brelse bp;;
  mret (mk_sb (ld32 b 0) (ld32 b 4) (ld32 b 8) (ld32 b 12) (ld32 b 16) (ld32 b 20) (ld32 b 24) (ld32 b 28)).

Definition fsinit (d : Z) : M fsst unit :=
  b ← readsb d;
  modify (set_sb b);;
  if negb (sb_magic b =? FSMAGIC) then panic "invalid file system"
  else initlog d b.

(** ** Blocks *)

Definition bzero (d bno : Z) : M fsst unit :=
  bp ← bread (u32 d) (u32 bno);
  b ← get_data bp;
  put_data bp (memset b 0 0 BSIZE);;
  log_write bp;;
  brelse bp.

(** [1 << (bi % 8)] *)
Definition bit_mask (bi : Z) : Z := Z.shiftl 1 (bi mod 8).
(** [data[bi/8] & (1 << (bi % 8))] *)
Definition bit_set (d : block) (bi : Z) : bool := negb (Z.land (ld8 d (bi / 8)) (bit_mask bi) =? 0).

(** [for(bi = 0; bi < BPB && b + bi < sb.size; bi++)] up to a clear bit. *)
Fixpoint balloc_scan (fuel : nat) (d : block) (b bi size : Z) : option Z :=
  match fuel with
  | O => None
  | S fuel' =>
      if (bi <? BPB) && (b + bi <? size) then
        if negb (bit_set d bi) then Some bi else balloc_scan fuel' d b (bi + 1) size
      else None
  end.

Fixpoint balloc_loop (fuel : nat) (d b : Z) : M fsst Z :=
  match fuel with
  | O => out_of_fuel
  | S fuel' =>
      sb0 ← gets sb;
      if b <? sb_size sb0 then
        bp ← bread d (BBLOCK b sb0);
        dat ← get_data bp;
        match balloc_scan (S (Z.to_nat BPB)) dat b 0 (sb_size sb0) with
        | Some bi =>
            put_data bp (st8 dat (bi / 8) (Z.lor (ld8 dat (bi / 8)) (bit_mask bi)));;
            log_write bp;;
            brelse bp;;
            bzero d (b + bi);;
            mret (b + bi)
        | None =>
            brelse bp;;
            balloc_loop fuel' d (b + BPB)
        end
      else mret 0
  end.

(** The bitmap of [sb.size] blocks has [sb.size / BPB] + 1 blocks at most. *)
Definition balloc (d : Z) : M fsst Z :=
  n ← gets (λ s, sb_size (sb s));
  balloc_loop (S (S (Z.to_nat (n / BPB)))) d 0.

Definition bfree (d b : Z) : M fsst unit :=
  sb0 ← gets sb;
  bp ← bread (u32 d) (BBLOCK b sb0);
  dat ← get_data bp;
  let bi := b mod BPB in
  if negb (bit_set dat bi) then panic "freeing free block"
  else
    put_data bp (st8 dat (bi / 8) (Z.land (ld8 dat (bi / 8)) (Z.lnot (bit_mask bi))));;
    log_write bp;;
    brelse bp.

(** ** Inodes *)

Definition inode_at (ip : Z) : M fsst inode := gets (λ s, inodes s ip).
Definition upd_inode (ip : Z) (f : inode → inode) : M fsst unit :=
  modify (λ s, set_inode ip (f (inodes s ip)) s).

Definition with_iref (n : Z) (x : inode) : inode :=
  mk_inode (i_dev x) (i_inum x) n (i_lock x) (i_valid x) (i_type x) (i_major x) (i_minor x)
    (i_nlink x) (i_size x) (i_addrs x).
Definition with_ivalid (v : bool) (x : inode) : inode :=
  mk_inode (i_dev x) (i_inum x) (i_ref x) (i_lock x) v (i_type x) (i_major x) (i_minor x)
    (i_nlink x) (i_size x) (i_addrs x).
Definition with_type (t : Z) (x : inode) : inode :=
  mk_inode (i_dev x) (i_inum x) (i_ref x) (i_lock x) (i_valid x) t (i_major x) (i_minor x)
    (i_nlink x) (i_size x) (i_addrs x).
Definition with_majmin (j n : Z) (x : inode) : inode :=
  mk_inode (i_dev x) (i_inum x) (i_ref x) (i_lock x) (i_valid x) (i_type x) j n
    (i_nlink x) (i_size x) (i_addrs x).
Definition with_nlink (n : Z) (x : inode) : inode :=
  mk_inode (i_dev x) (i_inum x) (i_ref x) (i_lock x) (i_valid x) (i_type x) (i_major x) (i_minor x)
    n (i_size x) (i_addrs x).
Definition with_size (n : Z) (x : inode) : inode :=
  mk_inode (i_dev x) (i_inum x) (i_ref x) (i_lock x) (i_valid x) (i_type x) (i_major x) (i_minor x)
    (i_nlink x) n (i_addrs x).
Definition with_addr (i v : Z) (x : inode) : inode :=
  mk_inode (i_dev x) (i_inum x) (i_ref x) (i_lock x) (i_valid x) (i_type x) (i_major x) (i_minor x)
    (i_nlink x) (i_size x) (<[i := v]> (i_addrs x)).

(** [ip->addrs[i]] *)
Definition addr_of (x : inode) (i : Z) : Z := default 0 (i_addrs x !! i).

(** The offset of inode [inum]'s [struct dinode] in its block, and of its
    fields. *)
Definition dinode_off (inum : Z) : Z := inum mod IPB * 64.
Notation DI_TYPE := 0.
Notation DI_MAJOR := 2.
Notation DI_MINOR := 4.
Notation DI_NLINK := 6.
Notation DI_SIZE := 8.
Notation DI_ADDRS := 12.

Definition iinit : M fsst unit :=
  modify (λ s, set_held (held s ∖ {[ITABLE]}) s);;
  for_upto 0 NINODE (λ i, upd_inode i (with_ilock initsleeplock)).

(** [for(ip = &itable.inode[0]; ip < &itable.inode[NINODE]; ip++)]: the entry
    of the inode, or else the first empty slot. *)
Fixpoint iget_scan (fuel : nat) (ip d inum : Z) (empty : option Z) : M fsst (option Z * option Z) :=
  match fuel with
  | O => mret (None, empty)
  | S fuel' =>
      x ← inode_at ip;
      if (0 <? i_ref x) && (i_dev x =? d) && (i_inum x =? inum) then mret (Some ip, empty)
      else
        let empty := match empty with
                     | None => if i_ref x =? 0 then Some ip else None
                     | Some e => Some e
                     end in
        iget_scan fuel' (ip + 1) d inum empty
  end.

Definition iget (d inum : Z) : M fsst Z :=
  acquire ITABLE;;
  r ← iget_scan (Z.to_nat NINODE) 0 d inum None;
  match r with
  | (Some ip, _) =>
      upd_inode ip (λ x, with_iref (i_ref x + 1) x);;
      release ITABLE;;
      mret ip
  | (None, None) => panic "iget: no inodes"
  | (None, Some ip) =>
      upd_inode ip (λ x, mk_inode d inum 1 (i_lock x) false (i_type x) (i_major x) (i_minor x)
                           (i_nlink x) (i_size x) (i_addrs x));;
      release ITABLE;;
      mret ip
  end.

Fixpoint ialloc_loop (fuel : nat) (d type inum : Z) : M fsst (option Z) :=
  match fuel with
  | O => out_of_fuel
  | S fuel' =>
      sb0 ← gets sb;
      if inum <? sb_ninodes sb0 then
        bp ← bread d (IBLOCK inum sb0);
        dat ← get_data bp;
        let dip := dinode_off inum in
        if s16 (ld16 dat (dip + DI_TYPE)) =? 0 then
          put_data bp (st16 (memset dat dip 0 64) (dip + DI_TYPE) type);;
          log_write bp;;
          brelse bp;;
          ip ← iget d inum;
          mret (Some ip)
        else
          brelse bp;;
          ialloc_loop fuel' d type (inum + 1)
      else mret None
  end.

Definition ialloc (d type : Z) : M fsst (option Z) :=
  n ← gets (λ s, sb_ninodes (sb s));
  ialloc_loop (S (Z.to_nat n)) d type 1.

(** [memmove(dip->addrs, ip->addrs, sizeof(ip->addrs))] *)
Fixpoint put_addrs (n : nat) (x : inode) (dip : Z) (dat : block) : block :=
  match n with
  | O => dat
  | S n' => st32 (put_addrs n' x dip dat) (dip + DI_ADDRS + 4 * Z.of_nat n') (addr_of x (Z.of_nat n'))
  end.

(** [memmove(ip->addrs, dip->addrs, sizeof(ip->addrs))] *)
Fixpoint get_addrs (n : nat) (dip : Z) (dat : block) : gmap Z Z :=
  match n with
  | O => ∅
  | S n' => <[Z.of_nat n' := ld32 dat (dip + DI_ADDRS + 4 * Z.of_nat n')]> (get_addrs n' dip dat)
  end.

(** The [struct dinode] of [x] written at [dip]. *)
Definition put_dinode (x : inode) (dip : Z) (dat : block) : block :=
  let dat := st16 dat (dip + DI_TYPE) (i_type x) in
  let dat := st16 dat (dip + DI_MAJOR) (i_major x) in
  let dat := st16 dat (dip + DI_MINOR) (i_minor x) in
  let dat := st16 dat (dip + DI_NLINK) (i_nlink x) in
  let dat := st32 dat (dip + DI_SIZE) (i_size x) in
  put_addrs 13 x dip dat.

(** The fields of [x] read from the [struct dinode] at [dip]. *)
Definition get_dinode (dip : Z) (dat : block) (x : inode) : inode :=
  mk_inode (i_dev x) (i_inum x) (i_ref x) (i_lock x) (i_valid x)
    (s16 (ld16 dat (dip + DI_TYPE))) (s16 (ld16 dat (dip + DI_MAJOR))) (s16 (ld16 dat (dip + DI_MINOR)))
    (s16 (ld16 dat (dip + DI_NLINK))) (ld32 dat (dip + DI_SIZE)) (get_addrs 13 dip dat).

Definition iupdate (ip : Z) : M fsst unit :=
  x ← inode_at ip;
  sb0 ← gets sb;
  bp ← bread (i_dev x) (IBLOCK (i_inum x) sb0);
  dat ← get_data bp;
  put_data bp (put_dinode x (dinode_off (i_inum x)) dat);;
  log_write bp;;
  brelse bp.

Definition idup (ip : Z) : M fsst Z :=
  acquire ITABLE;;
  upd_inode ip (λ x, with_iref (i_ref x + 1) x);;
  release ITABLE;;
  mret ip.

Definition ilock (ip : Z) : M fsst unit :=
  x ← inode_at ip;
  if i_ref x <? 1 then panic "ilock"
  else
    acquiresleep (INODE ip);;
    x ← inode_at ip;
    if negb (i_valid x) then
      sb0 ← gets sb;
      bp ← bread (i_dev x) (IBLOCK (i_inum x) sb0);
      dat ← get_data bp;
      upd_inode ip (get_dinode (dinode_off (i_inum x)) dat);;
      brelse bp;;
      upd_inode ip (with_ivalid true);;
      x ← inode_at ip;
      if i_type x =? 0 then panic "ilock: no type" else mret tt
    else mret tt.

Definition iunlock (ip : Z) : M fsst unit :=
  h ← holdingsleep (INODE ip);
  x ← inode_at ip;
  if negb h || (i_ref x <? 1) then panic "iunlock"
  else releasesleep (INODE ip).

(** ** Inode content *)

Definition bmap (ip bn : Z) : M fsst Z :=
  x ← inode_at ip;
  if bn <? NDIRECT then
    if addr_of x bn =? 0 then
      addr ← balloc (i_dev x);
      if addr =? 0 then mret 0
      else upd_inode ip (with_addr bn addr);; mret addr
    else mret (addr_of x bn)
  else
    let bn := bn - NDIRECT in
    if bn <? NINDIRECT then
      addr ← (if addr_of x NDIRECT =? 0 then
                addr ← balloc (i_dev x);
                (if addr =? 0 then mret tt else upd_inode ip (with_addr NDIRECT addr));;
                mret addr
              else mret (addr_of x NDIRECT));
      if addr =? 0 then mret 0
      else
        bp ← bread (i_dev x) addr;
        a ← get_data bp;
        addr ← (if ld32 a (4 * bn) =? 0 then
                  addr ← balloc (i_dev x);
                  (if negb (addr =? 0) then
                     a ← get_data bp;
                     put_data bp (st32 a (4 * bn) addr);;
                     log_write bp
                   else mret tt);;
                  mret addr
                else mret (ld32 a (4 * bn)));
        brelse bp;;
        mret addr
    else panic "bmap: out of range".

Definition itrunc (ip : Z) : M fsst unit :=
  for_upto 0 NDIRECT (λ i,
    x ← inode_at ip;
    if negb (addr_of x i =? 0) then
      bfree (i_dev x) (addr_of x i);;
      upd_inode ip (with_addr i 0)
    else mret tt);;
  x ← inode_at ip;
  (if negb (addr_of x NDIRECT =? 0) then
     bp ← bread (i_dev x) (addr_of x NDIRECT);
     for_upto 0 NINDIRECT (λ j,
       a ← get_data bp;
       if negb (ld32 a (4 * j) =? 0) then bfree (i_dev x) (ld32 a (4 * j)) else mret tt);;
     brelse bp;;
     bfree (i_dev x) (addr_of x NDIRECT);;
     upd_inode ip (with_addr NDIRECT 0)
   else mret tt);;
  upd_inode ip (with_size 0);;
  iupdate ip.

Definition iput (ip : Z) : M fsst unit :=
  acquire ITABLE;;
  x ← inode_at ip;
  (if (i_ref x =? 1) && i_valid x && (i_nlink x =? 0) then
     acquiresleep (INODE ip);;
     release ITABLE;;
     itrunc ip;;
     upd_inode ip (with_type 0);;
     iupdate ip;;
     upd_inode ip (with_ivalid false);;
     releasesleep (INODE ip);;
     acquire ITABLE
   else mret tt);;
  upd_inode ip (λ x, with_iref (i_ref x - 1) x);;
  release ITABLE.

Definition iunlockput (ip : Z) : M fsst unit :=
  iunlock ip;;
  iput ip.

(** [struct stat] *)
Record stat := mk_stat { st_dev : Z; st_ino : Z; st_type : Z; st_nlink : Z; st_size : Z }.

Definition stati (ip : Z) : M fsst stat :=
  x ← inode_at ip;
  mret (mk_stat (s32 (i_dev x)) (i_inum x) (i_type x) (i_nlink x) (i_size x)).
