(* ===== verification/Balloc.v ===== *)
(** * Free blocks (kernel/fs.c: bzero, balloc, bfree)

    The bitmap on the disk as a set of blocks in use.  [used sb c b]: the bit
    of block [b] is set in the contents [c].  The rules say what [balloc] and
    [bfree] do inside a transaction: a block that was free, zeroed and now in
    use; a block that is free again; every other block and every other bit as
    before. *)

From stdpp Require Import functions list.
From S2P Require Import Prelude Mem Cstring Spinlock Sleeplock Bio Bcache Log LogCrash Txn Fs.

Local Open Scope Z_scope.

(** The first data block: the bitmap has a bit for every block. *)
Definition data_start (b : superblock) : Z := sb_bmapstart b + sb_size b / BPB + 1.

(** The layout that fs.h describes: boot block, super block, log, inodes,
    bitmap, data. *)
Record geometry (b : superblock) (l : log) : Prop := {
  gm_log : 2 ≤ lstart l ∧ 0 ≤ lsize l ∧ lstart l + lsize l ≤ sb_inodestart b;
  gm_inodes : 0 ≤ sb_ninodes b ∧ sb_inodestart b + sb_ninodes b / IPB + 1 ≤ sb_bmapstart b;
  gm_data : data_start b ≤ sb_size b;
  gm_size : sb_size b + BPB < 2 ^ 31;
}.

Definition used (b : superblock) (c : Z → block) (n : Z) : bool := bit_set (c (BBLOCK n b)) (n mod BPB).

(** The blocks of the bitmap. *)
Definition in_bitmap (b : superblock) (n : Z) : Prop := sb_bmapstart b ≤ n < data_start b.

(** Blocks before the data are never free. *)
Definition meta_used (b : superblock) (c : Z → block) : Prop := ∀ n, 0 ≤ n < data_start b → used b c n = true.

(** ** Bits *)

Lemma bit_set_testbit d bi : 0 ≤ bi → bit_set d bi = Z.testbit (ld8 d (bi / 8)) (bi mod 8).
Proof.
  intros Hb. rewrite /bit_set /bit_mask. set (x := ld8 _ _). set (k := bi mod 8).
  assert (0 ≤ k) as Hk by (apply Z.mod_pos_bound; lia). rewrite Z.shiftl_1_l.
  destruct (Z.testbit x k) eqn:E.
  - apply negb_true_iff, Z.eqb_neq. intros H0. assert (Z.testbit (Z.land x (2 ^ k)) k = true) as H1.
    { rewrite Z.land_spec E Z.pow2_bits_true //. }
    by rewrite H0 Z.bits_0 in H1.
  - apply negb_false_iff, Z.eqb_eq. apply Z.bits_inj'. intros j Hj. rewrite Z.land_spec Z.bits_0.
    destruct (decide (j = k)) as [->|]; [by rewrite E|]. rewrite Z.pow2_bits_false; [|done]. apply andb_false_r.
Qed.

(** A byte after [|= m] and after [&= ~m]. *)
Definition set_bit (d : block) (bi : Z) : block := st8 d (bi / 8) (Z.lor (ld8 d (bi / 8)) (bit_mask bi)).
Definition clear_bit (d : block) (bi : Z) : block := st8 d (bi / 8) (Z.land (ld8 d (bi / 8)) (Z.lnot (bit_mask bi))).

Lemma testbit_mod256 x k : 0 ≤ k < 8 → Z.testbit (x mod 256) k = Z.testbit x k.
Proof. intros Hk. rewrite (_ : 256 = 2 ^ 8) // Z.mod_pow2_bits_low //. lia. Qed.

Lemma same_bit bi bj : 0 ≤ bi → 0 ≤ bj → bj / 8 = bi / 8 → (bj mod 8 =? bi mod 8) = (bj =? bi).
Proof.
  intros Hi Hj E. apply Bool.eq_iff_eq_true. rewrite !Z.eqb_eq. split; [|by intros ->]. intros Em.
  rewrite (Z.div_mod bj 8); [|lia]. rewrite (Z.div_mod bi 8); [|lia]. congruence.
Qed.

Lemma bit_set_set d bi bj : 0 ≤ bi → 0 ≤ bj → bit_set (set_bit d bi) bj = bit_set d bj || (bj =? bi).
Proof.
  intros Hi Hj. rewrite !bit_set_testbit // /set_bit ld8_st8. case_decide as E.
  - assert (0 ≤ bj mod 8 < 8) by (apply Z.mod_pos_bound; lia). assert (0 ≤ bi mod 8 < 8) by (apply Z.mod_pos_bound; lia).
    rewrite testbit_mod256 // Z.lor_spec E -(same_bit bi bj) // /bit_mask Z.shiftl_1_l. f_equal.
    destruct (Z.eqb_spec (bj mod 8) (bi mod 8)) as [->|]; [rewrite Z.pow2_bits_true //; lia|].
    by apply Z.pow2_bits_false.
  - destruct (Z.eqb_spec bj bi) as [->|]; [done|]. by rewrite orb_false_r.
Qed.

Lemma bit_set_clear d bi bj : 0 ≤ bi → 0 ≤ bj → bit_set (clear_bit d bi) bj = bit_set d bj && negb (bj =? bi).
Proof.
  intros Hi Hj. rewrite !bit_set_testbit // /clear_bit ld8_st8. case_decide as E.
  - assert (0 ≤ bj mod 8 < 8) by (apply Z.mod_pos_bound; lia). assert (0 ≤ bi mod 8 < 8) by (apply Z.mod_pos_bound; lia).
    rewrite testbit_mod256 // Z.land_spec E -(same_bit bi bj) // /bit_mask Z.shiftl_1_l Z.lnot_spec; [|lia]. do 2 f_equal.
    destruct (Z.eqb_spec (bj mod 8) (bi mod 8)) as [->|]; [rewrite Z.pow2_bits_true //; lia|].
    by apply Z.pow2_bits_false.
  - destruct (Z.eqb_spec bj bi) as [->|]; [done|]. by rewrite andb_true_r.
Qed.

(** ** The scan of one bitmap block *)

Lemma balloc_scan_spec fuel d b bi size :
  0 ≤ bi → (∀ j, 0 ≤ j < bi → bit_set d j = true) → BPB < Z.of_nat fuel + bi →
  match balloc_scan fuel d b bi size with
  | Some j => 0 ≤ j < BPB ∧ b + j < size ∧ bit_set d j = false
  | None => ∀ j, 0 ≤ j < BPB → b + j < size → bit_set d j = true
  end.
Proof.
  revert bi. induction fuel as [|fuel IH]; intros bi Hbi Hb Hf; simpl.
  { intros j Hj _. apply Hb. lia. }
  destruct (Z.ltb_spec bi BPB); simpl; [|intros j Hj _; apply Hb; lia].
  destruct (Z.ltb_spec (b + bi) size); simpl; [|intros j Hj Hs; apply Hb; lia].
  destruct (bit_set d bi) eqn:Eb; simpl; [|split_and!; done || lia].
  apply IH; [lia| |lia]. intros j Hj. destruct (decide (j = bi)) as [->|]; [done|]. apply Hb. lia.
Qed.

Section balloc.
Context (E : fsst).
Abbreviation sb0 := (sb E).
Context (Hg : geometry (sb E) (lg E)).
Implicit Types (c : Z → block) (W : list Z) (O : gmap Z Z) (I : Z → inode).

Lemma geometry_pos : 0 ≤ sb_size sb0 / BPB ∧ 0 < sb_inodestart sb0 < sb_bmapstart sb0 ∧ sb_bmapstart sb0 < data_start sb0.
Proof.
  destruct Hg as [[? ?] [? ?] Hd ?]. rewrite /data_start in Hd |- *.
  assert (0 ≤ sb_ninodes sb0 / IPB) by (apply Z.div_pos; lia).
  dlia.
Qed.

Lemma home_block n : sb_inodestart sb0 ≤ n < sb_size sb0 → home E n.
Proof.
  intros Hn. pose proof geometry_pos. destruct Hg as [[? ?] [? ?] Hd ?]. rewrite /home /in_log. lia.
Qed.

Lemma BBLOCK_eq n : 0 ≤ n < sb_size sb0 → BBLOCK n sb0 = n / BPB + sb_bmapstart sb0.
Proof.
  intros Hn. pose proof geometry_pos. destruct Hg as [? ? Hd ?]. rewrite /data_start in Hd.
  assert (n / BPB ≤ sb_size sb0 / BPB) by (apply Z.div_le_mono; lia). assert (0 ≤ n / BPB) by (apply Z.div_pos; lia).
  rewrite /BBLOCK /u32 Z.mod_small; lia.
Qed.

Lemma BBLOCK_bitmap n : 0 ≤ n < sb_size sb0 → in_bitmap sb0 (BBLOCK n sb0).
Proof.
  intros Hn. rewrite BBLOCK_eq // /in_bitmap /data_start.
  assert (n / BPB ≤ sb_size sb0 / BPB) by (apply Z.div_le_mono; lia). assert (0 ≤ n / BPB) by (apply Z.div_pos; lia). lia.
Qed.

Lemma bitmap_home n : in_bitmap sb0 n → home E n.
Proof.
  intros Hn. pose proof geometry_pos. destruct Hg as [? ? Hd ?]. apply home_block. rewrite /in_bitmap in Hn. lia.
Qed.

(** The buffers locked hold data blocks in use. *)
Definition o_ok c O : Prop :=
  (size O ≤ 1)%nat ∧ ∀ n b, O !! n = Some b → data_start sb0 ≤ n < sb_size sb0 ∧ used sb0 c n = true.

Lemma o_ok_bitmap c O n : o_ok c O → in_bitmap sb0 n → O !! n = None.
Proof.
  intros [_ Ho] Hn. destruct (O !! n) as [b|] eqn:Eb; [|done]. destruct (Ho n b Eb) as [H _].
  rewrite /in_bitmap in Hn. lia.
Qed.

Lemma o_ok_free c O n : o_ok c O → used sb0 c n = false → O !! n = None.
Proof. intros [_ Ho] Hn. destruct (O !! n) as [b|] eqn:Eb; [|done]. destruct (Ho n b Eb). congruence. Qed.

(** What [balloc] of block [r] does to the contents and to the log. *)
Definition balloc_cont (r : Z) c : Z → block :=
  <[r := memset (c r) 0 0 BSIZE]> (<[BBLOCK r sb0 := set_bit (c (BBLOCK r sb0)) (r mod BPB)]> c).
Definition balloc_log (r : Z) W : list Z := add_log r (add_log (BBLOCK r sb0) W).

Lemma wp_bzero c W O I s n (Q : unit → fsst → Prop) :
  txn E c W O I s → O !! n = None → (size O ≤ 1)%nat → budget E W 1 → home E n →
  (∀ s', txn E (<[n := memset (c n) 0 0 BSIZE]> c) (add_log n W) O I s' → Q tt s') →
  wp (bzero ROOTDEV n) Q s.
Proof.
  intros Ht Ho HO Hb Hh HQ. rewrite /bzero. rewrite (_ : u32 ROOTDEV = ROOTDEV) //.
  rewrite (_ : u32 n = n); [|destruct Hh; rewrite /u32 Z.mod_small; lia].
  apply wp_bind. eapply txn_bread; [exact Ht|done|rewrite /budget in Hb |- *; lia|done|]. intros b s1 Ht1 _.
  apply wp_bind. eapply txn_get; [exact Ht1|apply lookup_insert_eq|].
  apply wp_bind. eapply txn_put; [exact Ht1|apply lookup_insert_eq|]. intros s2 Ht2.
  apply wp_bind. eapply txn_log_write; [exact Ht2|apply lookup_insert_eq|done|done|]. intros s3 Ht3.
  eapply txn_brelse; [exact Ht3|apply lookup_insert_eq|left; rewrite elem_of_add_log; by left|].
  intros s4. rewrite delete_insert_id //. apply HQ.
Qed.

Lemma budget_le W k k' : budget E W k → k' ≤ k → budget E W k'.
Proof. rewrite /budget. lia. Qed.
Lemma budget_add W k n : budget E W k → budget E (add_log n W) (k - 1).
Proof. rewrite /budget. pose proof (add_log_length n W). lia. Qed.

Lemma wp_balloc_loop c W O I s fuel k (Q : Z → fsst → Prop) :
  txn E c W O I s → o_ok c O → meta_used sb0 c → budget E W 2 →
  0 ≤ k ≤ sb_size sb0 / BPB + 1 → (∀ n, 0 ≤ n < BPB * k → n < sb_size sb0 → used sb0 c n = true) →
  sb_size sb0 / BPB + 1 < Z.of_nat fuel + k →
  (∀ s', txn E c W O I s' → (∀ n, 0 ≤ n < sb_size sb0 → used sb0 c n = true) → Q 0 s') →
  (∀ r s', data_start sb0 ≤ r < sb_size sb0 → used sb0 c r = false →
     txn E (balloc_cont r c) (balloc_log r W) O I s' → Q r s') →
  wp (balloc_loop fuel ROOTDEV (BPB * k)) Q s.
Proof.
  intros Ht Ho Hm Hb Hk Hall Hf Q0 Q1. revert k s Ht Hk Hall Hf. pose proof geometry_pos as (Hg1 & Hg2 & Hg3).
  pose proof (gm_data _ _ Hg) as Hgd. pose proof (gm_size _ _ Hg) as Hgs.
  induction fuel as [|fuel IH]; intros k s Ht Hk Hall Hf.
  { lia. }
  cbn [balloc_loop]. apply wp_bind, wp_gets. rewrite (se_sb _ _ (tx_env _ _ _ _ _ _ Ht)).
  destruct (Z.ltb_spec (BPB * k) (sb_size sb0)) as [Hlt|Hge].
  2: { apply Q0; [done|]. intros n Hn. apply Hall; lia. }
  pose proof (BBLOCK_bitmap (BPB * k) ltac:(lia)) as Hbm. pose proof (BBLOCK_eq (BPB * k) ltac:(lia)) as Eb.
  assert (∀ j, 0 ≤ j < BPB → BPB * k + j < sb_size sb0 →
    BBLOCK (BPB * k + j) sb0 = BBLOCK (BPB * k) sb0 ∧ (BPB * k + j) mod BPB = j) as Hj.
  { intros j Hj Hs. rewrite !BBLOCK_eq; [|lia..]. clear -Hj. split; dlia. }
  assert (O !! BBLOCK (BPB * k) sb0 = None) as HOb by (by eapply o_ok_bitmap).
  apply wp_bind. eapply txn_bread; [exact Ht|done|by eapply budget_le|apply Ho|]. intros b s1 Ht1 Hcl.
  apply wp_bind. eapply txn_get; [exact Ht1|apply lookup_insert_eq|].
  pose proof (balloc_scan_spec (S (Z.to_nat BPB)) (c (BBLOCK (BPB * k) sb0)) (BPB * k) 0 (sb_size sb0)) as Hscan.
  destruct (balloc_scan _ _ _ _ _) as [j|].
  - destruct Hscan as (Hj1 & Hj2 & Hj3); [lia|lia|lia|]. destruct (Hj j Hj1 Hj2) as [E1 E2].
    set (r := BPB * k + j) in *. assert (used sb0 c r = false) as Hr by (by rewrite /used E1 E2).
    assert (data_start sb0 ≤ r) as Hrd.
    { destruct (decide (data_start sb0 ≤ r)); [done|]. rewrite Hm in Hr; [done|lia]. }
    apply wp_bind. eapply txn_put; [exact Ht1|apply lookup_insert_eq|]. intros s2 Ht2.
    apply wp_bind. eapply txn_log_write; [exact Ht2|apply lookup_insert_eq|by eapply budget_le|by apply bitmap_home|].
    intros s3 Ht3. apply wp_bind. eapply txn_brelse; [exact Ht3|apply lookup_insert_eq|left; rewrite elem_of_add_log; by left|].
    intros s4 Ht4. rewrite delete_insert_id // in Ht4. apply wp_bind.
    eapply wp_bzero; [exact Ht4|by eapply o_ok_free|apply Ho|by eapply budget_le; [apply budget_add|]|apply home_block; lia|].
    intros s5 Ht5. apply wp_ret. apply Q1; [lia|done|]. rewrite /balloc_cont /balloc_log E1 E2.
    rewrite fn_lookup_insert_ne in Ht5; [done|]. rewrite /in_bitmap in Hbm. lia.
  - specialize (Hscan ltac:(lia) ltac:(lia) ltac:(lia)). apply wp_bind.
    eapply txn_brelse; [exact Ht1|apply lookup_insert_eq|done|]. intros s2 Ht2. rewrite delete_insert_id // in Ht2.
    rewrite (_ : BPB * k + BPB = BPB * (k + 1)); [|lia]. apply IH; [done|dlia| |lia].
    intros n Hn Hs. destruct (decide (n < BPB * k)); [apply Hall; lia|].
    destruct (Hj (n - BPB * k)) as [E1 E2]; [lia|lia|]. rewrite (_ : BPB * k + (n - BPB * k) = n) in E1 E2; [|lia].
    rewrite /used E1 E2. apply Hscan; lia.
Qed.

Lemma wp_balloc c W O I s (Q : Z → fsst → Prop) :
  txn E c W O I s → o_ok c O → meta_used sb0 c → budget E W 2 →
  (∀ s', txn E c W O I s' → (∀ n, 0 ≤ n < sb_size sb0 → used sb0 c n = true) → Q 0 s') →
  (∀ r s', data_start sb0 ≤ r < sb_size sb0 → used sb0 c r = false →
     txn E (balloc_cont r c) (balloc_log r W) O I s' → Q r s') →
  wp (balloc ROOTDEV) Q s.
Proof.
  intros Ht Ho Hm Hb Q0 Q1. pose proof geometry_pos. rewrite /balloc. apply wp_bind, wp_gets.
  rewrite (se_sb _ _ (tx_env _ _ _ _ _ _ Ht)).
  apply (wp_balloc_loop c W O I s _ 0 Q); [done..|lia| |lia|done|done]. intros n Hn. lia.
Qed.

(** ** What changes *)

Lemma same_bit_block n r :
  0 ≤ n < sb_size sb0 → 0 ≤ r < sb_size sb0 → BBLOCK n sb0 = BBLOCK r sb0 → (n mod BPB =? r mod BPB) = (n =? r).
Proof.
  intros Hn Hr. rewrite !BBLOCK_eq // => Hb. apply Bool.eq_iff_eq_true. rewrite !Z.eqb_eq. split; [|by intros ->].
  dlia.
Qed.

Lemma used_update c c' r n d :
  0 ≤ n < sb_size sb0 → 0 ≤ r < sb_size sb0 → c' (BBLOCK r sb0) = d →
  (BBLOCK n sb0 ≠ BBLOCK r sb0 → c' (BBLOCK n sb0) = c (BBLOCK n sb0)) →
  used sb0 c' n = if decide (BBLOCK n sb0 = BBLOCK r sb0) then bit_set d (n mod BPB) else used sb0 c n.
Proof. intros Hn Hr Ed Ho. rewrite /used. case_decide as Eb; [by rewrite Eb Ed|by rewrite Ho]. Qed.

Lemma alloc_used c r n :
  data_start sb0 ≤ r < sb_size sb0 → 0 ≤ n < sb_size sb0 → used sb0 (balloc_cont r c) n = used sb0 c n || (n =? r).
Proof.
  intros Hr Hn. pose proof geometry_pos. pose proof (BBLOCK_bitmap n Hn) as Hbn. pose proof (BBLOCK_bitmap r ltac:(lia)) as Hbr.
  rewrite /in_bitmap in Hbn Hbr. rewrite (used_update c _ r n (set_bit (c (BBLOCK r sb0)) (r mod BPB))); [|lia..| |].
  - case_decide as Eb.
    + rewrite bit_set_set; [|apply Z.mod_pos_bound; lia..]. rewrite same_bit_block //; [|lia]. by rewrite /used Eb.
    + destruct (Z.eqb_spec n r) as [->|]; [done|]. by rewrite orb_false_r.
  - rewrite /balloc_cont fn_lookup_insert_ne; [|lia]. by rewrite fn_lookup_insert.
  - intros Hne. rewrite /balloc_cont fn_lookup_insert_ne; [|lia]. by rewrite fn_lookup_insert_ne.
Qed.

Lemma alloc_frame c r n :
  data_start sb0 ≤ r < sb_size sb0 → n ≠ r → ¬ in_bitmap sb0 n → balloc_cont r c n = c n.
Proof.
  intros Hr Hn Hb. pose proof geometry_pos. pose proof (BBLOCK_bitmap r ltac:(lia)).
  rewrite /balloc_cont fn_lookup_insert_ne // fn_lookup_insert_ne //. congruence.
Qed.

Lemma alloc_zero c r i : 0 ≤ i < BSIZE → ld8 (balloc_cont r c r) i = 0.
Proof. intros Hi. rewrite /balloc_cont fn_lookup_insert ld8_memset; [|lia]. rewrite decide_True //; rewrite /span; lia. Qed.

Lemma alloc_meta c r : data_start sb0 ≤ r < sb_size sb0 → meta_used sb0 c → meta_used sb0 (balloc_cont r c).
Proof. intros Hr Hm n Hn. pose proof (gm_data _ _ Hg). rewrite alloc_used //; [|lia]. by rewrite Hm. Qed.

Definition bfree_cont (b : Z) c : Z → block := <[BBLOCK b sb0 := clear_bit (c (BBLOCK b sb0)) (b mod BPB)]> c.

Lemma wp_bfree c W O I s b (Q : unit → fsst → Prop) :
  txn E c W O I s → (∀ n, in_bitmap sb0 n → O !! n = None) → (size O ≤ 1)%nat → budget E W 1 →
  0 ≤ b < sb_size sb0 → used sb0 c b = true →
  (∀ s', txn E (bfree_cont b c) (add_log (BBLOCK b sb0) W) O I s' → Q tt s') →
  wp (bfree ROOTDEV b) Q s.
Proof.
  intros Ht Ho HO Hb Hr Hu HQ. rewrite /bfree. apply wp_bind, wp_gets. rewrite (se_sb _ _ (tx_env _ _ _ _ _ _ Ht)).
  pose proof (BBLOCK_bitmap b Hr) as Hbm. rewrite (_ : u32 ROOTDEV = ROOTDEV) //.
  apply wp_bind. eapply txn_bread; [exact Ht|by apply Ho|by eapply budget_le|done|]. intros bp s1 Ht1 _.
  apply wp_bind. eapply txn_get; [exact Ht1|apply lookup_insert_eq|]. rewrite /used in Hu. rewrite Hu /=.
  apply wp_bind. eapply txn_put; [exact Ht1|apply lookup_insert_eq|]. intros s2 Ht2.
  apply wp_bind. eapply txn_log_write; [exact Ht2|apply lookup_insert_eq|done|by apply bitmap_home|]. intros s3 Ht3.
  eapply txn_brelse; [exact Ht3|apply lookup_insert_eq|left; rewrite elem_of_add_log; by left|].
  intros s4. rewrite delete_insert_id; [|by apply Ho]. apply HQ.
Qed.

Lemma free_used c b n :
  0 ≤ b < sb_size sb0 → 0 ≤ n < sb_size sb0 → used sb0 (bfree_cont b c) n = used sb0 c n && negb (n =? b).
Proof.
  intros Hr Hn. rewrite (used_update c _ b n (clear_bit (c (BBLOCK b sb0)) (b mod BPB))); [|done..| |].
  - case_decide as Eb.
    + rewrite bit_set_clear; [|apply Z.mod_pos_bound; lia..]. rewrite same_bit_block //. by rewrite /used Eb.
    + destruct (Z.eqb_spec n b) as [->|]; [done|]. by rewrite andb_true_r.
  - by rewrite /bfree_cont fn_lookup_insert.
  - intros Hne. by rewrite /bfree_cont fn_lookup_insert_ne.
Qed.

Lemma free_frame c b n : 0 ≤ b < sb_size sb0 → ¬ in_bitmap sb0 n → bfree_cont b c n = c n.
Proof. intros Hr Hb. pose proof (BBLOCK_bitmap b Hr). rewrite /bfree_cont fn_lookup_insert_ne //. congruence. Qed.
End balloc.
