(* ===== verification/Bmap.v ===== *)
(** * The blocks of a file (kernel/fs.c: bmap)

    [faddr c x k] is the disk block that holds block [k] of the file of inode
    [x], 0 when there is none, and [fbyte c x i] is byte [i] of the file; a
    hole reads as zero.  [bmap] may allocate a data block and the indirect
    block on the way: [ext] says that the file's contents and every block of
    every other file stay as they were. *)

From stdpp Require Import functions list.
From S2P Require Import Prelude Mem Cstring Spinlock Sleeplock Bio Bcache Log LogCrash Txn Fs Balloc.

Local Open Scope Z_scope.

(** Entry [j] of the indirect block. *)
Definition ind_entry (c : Z → block) (x : inode) (j : Z) : Z :=
  if addr_of x NDIRECT =? 0 then 0 else ld32 (c (addr_of x NDIRECT)) (4 * j).

Definition faddr (c : Z → block) (x : inode) (k : Z) : Z :=
  if k <? NDIRECT then addr_of x k else ind_entry c x (k - NDIRECT).

Definition fbyte (c : Z → block) (x : inode) (i : Z) : Z :=
  if faddr c x (i / BSIZE) =? 0 then 0 else ld8 (c (faddr c x (i / BSIZE))) (i mod BSIZE).

(** A data block in use. *)
Definition is_data (b : superblock) (c : Z → block) (n : Z) : Prop :=
  data_start b ≤ n < sb_size b ∧ used b c n = true.

(** The blocks of the inode are data blocks in use, all different. *)
Record inode_wf (b : superblock) (c : Z → block) (x : inode) : Prop := {
  iw_dev : i_dev x = ROOTDEV;
  iw_ind : addr_of x NDIRECT ≠ 0 → is_data b c (addr_of x NDIRECT);
  iw_data : ∀ k, 0 ≤ k < MAXFILE → faddr c x k ≠ 0 →
    is_data b c (faddr c x k) ∧ faddr c x k ≠ addr_of x NDIRECT;
  iw_inj : ∀ k k', 0 ≤ k < MAXFILE → 0 ≤ k' < MAXFILE → faddr c x k ≠ 0 → faddr c x k = faddr c x k' → k = k';
}.

(** [n] is a block of the inode. *)
Definition block_of (c : Z → block) (x : inode) (n : Z) : Prop :=
  n ≠ 0 ∧ (n = addr_of x NDIRECT ∨ ∃ k, 0 ≤ k < MAXFILE ∧ faddr c x k = n).

Definition zero_block (d : block) : Prop := ∀ i, 0 ≤ i < BSIZE → ld8 d i = 0.

(** The same inode but for its addresses. *)
Definition with_addrs (a : gmap Z Z) (x : inode) : inode :=
  mk_inode (i_dev x) (i_inum x) (i_ref x) (i_lock x) (i_valid x) (i_type x) (i_major x) (i_minor x)
    (i_nlink x) (i_size x) a.

(** The inode may have got more blocks, which were free; its old blocks are
    where they were, and no block of another file changed. *)
Record grow (b : superblock) (c : Z → block) (x : inode) (c' : Z → block) (x' : inode) : Prop := {
  gr_rest : x' = with_addrs (i_addrs x') x;
  gr_ind : addr_of x' NDIRECT = addr_of x NDIRECT ∨
    (addr_of x NDIRECT = 0 ∧ 0 < addr_of x' NDIRECT < sb_size b ∧ used b c (addr_of x' NDIRECT) = false);
  gr_addr : ∀ k, 0 ≤ k < MAXFILE → faddr c x k ≠ 0 → faddr c' x' k = faddr c x k;
  gr_fresh : ∀ k, 0 ≤ k < MAXFILE → faddr c x k = 0 → faddr c' x' k ≠ 0 →
    0 < faddr c' x' k < sb_size b ∧ used b c (faddr c' x' k) = false;
  gr_used : ∀ n, 0 ≤ n < sb_size b → used b c n = true → used b c' n = true;
  gr_new : ∀ n, 0 < n < sb_size b → used b c' n = true → used b c n = true ∨ block_of c' x' n;
  gr_frame : ∀ n, 0 ≤ n < sb_size b → used b c n = true → ¬ in_bitmap b n → ¬ block_of c x n → c' n = c n;
}.

(** The new blocks are zeroed, and the old ones have kept their contents. *)
Record ext (b : superblock) (c : Z → block) (x : inode) (c' : Z → block) (x' : inode) : Prop := {
  ex_grow : grow b c x c' x';
  ex_data : ∀ k, 0 ≤ k < MAXFILE → faddr c x k ≠ 0 → c' (faddr c x k) = c (faddr c x k);
  ex_zero : ∀ k, 0 ≤ k < MAXFILE → faddr c x k = 0 → faddr c' x' k ≠ 0 → zero_block (c' (faddr c' x' k));
}.

Lemma grow_refl b c x : grow b c x c x.
Proof. split; auto; try done. by destruct x. Qed.

Lemma unused_before b c x c' x' n :
  grow b c x c' x' → 0 ≤ n < sb_size b → used b c' n = false → used b c n = false.
Proof. intros G Hn H. apply not_true_is_false. intros Hu. apply (gr_used _ _ _ _ _ G) in Hu; congruence. Qed.

Lemma grow_blocks b c x c' x' n : grow b c x c' x' → used b c n = true → block_of c' x' n → block_of c x n.
Proof.
  intros G Hu [Hn [E|(k & Hk & E)]]; (split; [done|]).
  - destruct (gr_ind _ _ _ _ _ G) as [E'|(_ & _ & H)]; [left|]; congruence.
  - destruct (decide (faddr c x k = 0)) as [E0|E0].
    + destruct (gr_fresh _ _ _ _ _ G k Hk E0); congruence.
    + right. exists k. split; [done|]. by rewrite -(gr_addr _ _ _ _ _ G k Hk E0).
Qed.

Lemma grow_blocks_mono b c x c' x' n : grow b c x c' x' → block_of c x n → block_of c' x' n.
Proof.
  intros G [Hn [E|(k & Hk & E)]]; (split; [done|]).
  - destruct (gr_ind _ _ _ _ _ G) as [E'|(H & _)]; [left|]; congruence.
  - right. exists k. split; [done|]. rewrite (gr_addr _ _ _ _ _ G k Hk); congruence.
Qed.

Lemma grow_trans b c x c1 x1 c2 x2 : grow b c x c1 x1 → grow b c1 x1 c2 x2 → grow b c x c2 x2.
Proof.
  intros G1 G2. pose proof G1 as [R1 I1 A1 Z1 U1 N1 F1]. pose proof G2 as [R2 I2 A2 Z2 U2 N2 F2]. split.
  - rewrite R2 R1. done.
  - destruct I1 as [I1|(I1 & I1r & I1')].
    + rewrite -I1. destruct I2 as [I2|(I2 & I2r & I2')]; [by left|right]. split_and!; [done|lia|lia|].
      eapply unused_before; [done|lia|done].
    + destruct I2 as [I2|(I2 & _)]; [|lia]. right. by rewrite I2.
  - intros k Hk H. rewrite A2 //; rewrite A1 //.
  - intros k Hk H H2. destruct (decide (faddr c1 x1 k = 0)) as [E|E].
    + destruct (Z2 k Hk E H2) as [Hr Hu]. split; [done|]. eapply unused_before; [done|lia|done].
    + rewrite A2 //. by apply Z1.
  - intros n Hn H. by apply U2, U1.
  - intros n Hn H. destruct (N2 n Hn H) as [H1|H1]; [|by right]. destruct (N1 n Hn H1) as [H0|H0]; [by left|right].
    by eapply grow_blocks_mono.
  - intros n Hn H Hb Hi. rewrite F2 //; [by apply F1|by apply U1|]. intros Hbl. apply Hi. by eapply grow_blocks.
Qed.

Lemma ext_refl b c x : ext b c x c x.
Proof. split; auto using grow_refl; done. Qed.

Lemma ext_trans b c x c1 x1 c2 x2 : ext b c x c1 x1 → ext b c1 x1 c2 x2 → ext b c x c2 x2.
Proof.
  intros [G1 D1 Z1] [G2 D2 Z2]. pose proof (gr_addr _ _ _ _ _ G1) as A1. pose proof (gr_addr _ _ _ _ _ G2) as A2. split.
  - by eapply grow_trans.
  - intros k Hk H. rewrite -(A1 k Hk H) D2 //; rewrite A1 //. by apply D1.
  - intros k Hk H H2. destruct (decide (faddr c1 x1 k = 0)) as [E|E]; [by apply Z2|].
    rewrite A2 // D2 //. by apply Z1.
Qed.

Lemma ext_byte b c x c' x' i : ext b c x c' x' → 0 ≤ i < MAXFILE * BSIZE → fbyte c' x' i = fbyte c x i.
Proof.
  intros He Hi. rewrite /fbyte. assert (0 ≤ i / BSIZE < MAXFILE) as Hk by dlia.
  assert (0 ≤ i mod BSIZE < BSIZE) by dlia. destruct (Z.eqb_spec (faddr c x (i / BSIZE)) 0) as [E|E].
  - destruct (Z.eqb_spec (faddr c' x' (i / BSIZE)) 0) as [|E']; [done|]. by apply (ex_zero _ _ _ _ _ He).
  - rewrite (gr_addr _ _ _ _ _ (ex_grow _ _ _ _ _ He)) // (ex_data _ _ _ _ _ He) //. by destruct (Z.eqb_spec (faddr c x (i / BSIZE)) 0).
Qed.

Lemma addr_of_with_addr i v x j : addr_of (with_addr i v x) j = if decide (j = i) then v else addr_of x j.
Proof.
  rewrite /addr_of /with_addr /=. case_decide as E; [subst; by rewrite lookup_insert_eq|by rewrite lookup_insert_ne].
Qed.

Lemma addr_of_ext x y : i_addrs x = i_addrs y → ∀ k, addr_of x k = addr_of y k.
Proof. rewrite /addr_of. by intros ->. Qed.

(** The contents and the inode seen through the addresses alone. *)
Lemma faddr_eq c x c' x' k :
  (k < NDIRECT → addr_of x' k = addr_of x k) → (NDIRECT ≤ k → ind_entry c' x' (k - NDIRECT) = ind_entry c x (k - NDIRECT)) →
  faddr c' x' k = faddr c x k.
Proof. intros H1 H2. rewrite /faddr. destruct (Z.ltb_spec k NDIRECT); auto. Qed.

Lemma faddr_direct c x k : k < NDIRECT → faddr c x k = addr_of x k.
Proof. intros H. rewrite /faddr. by destruct (Z.ltb_spec k NDIRECT); [|lia]. Qed.
Lemma faddr_indirect c x k : NDIRECT ≤ k → faddr c x k = ind_entry c x (k - NDIRECT).
Proof. intros H. rewrite /faddr. by destruct (Z.ltb_spec k NDIRECT); [lia|]. Qed.

Section alloc.
Context (E : fsst).
Abbreviation sb0 := (sb E).
Context (Hg : geometry (sb E) (lg E)).
Context (c : Z → block) (x : inode) (r : Z).
Context (Hw : inode_wf (sb E) c x) (Hr : data_start (sb E) ≤ r < sb_size (sb E)) (Hf : used (sb E) c r = false).
Let c1 := balloc_cont E r c.

Lemma alloc_keeps n : is_data sb0 c n → c1 n = c n ∧ is_data sb0 c1 n ∧ n ≠ r.
Proof.
  intros [Hn Hu]. assert (n ≠ r) by congruence. pose proof (geometry_pos E Hg). split_and!; [|split; [done|]|done].
  - apply (alloc_frame E Hg c r n Hr); [done|]. rewrite /in_bitmap. lia.
  - rewrite /c1 alloc_used //; [|lia]. by rewrite Hu.
Qed.

Lemma alloc_is_data : is_data sb0 c1 r ∧ r ≠ 0.
Proof.
  pose proof (geometry_pos E Hg). split; [|lia]. split; [done|]. rewrite /c1 alloc_used //; [|lia].
  by rewrite Z.eqb_refl orb_true_r.
Qed.

Lemma alloc_ind_entry j : ind_entry c1 x j = ind_entry c x j.
Proof.
  rewrite /ind_entry. destruct (Z.eqb_spec (addr_of x NDIRECT) 0); [done|].
  by destruct (alloc_keeps (addr_of x NDIRECT)) as [-> _]; [apply Hw|].
Qed.

Lemma alloc_used_mono n : 0 ≤ n < sb_size sb0 → used sb0 c n = true → used sb0 c1 n = true.
Proof. intros Hn Hu. rewrite /c1 alloc_used // Hu //. Qed.

Lemma alloc_new n : 0 < n < sb_size sb0 → used sb0 c1 n = true → used sb0 c n = true ∨ n = r.
Proof. intros Hn. rewrite /c1 alloc_used //; [|lia]. intros [|H]%orb_true_iff; [by left|right]. by apply Z.eqb_eq. Qed.

Lemma alloc_data (n : Z) : is_data sb0 c n → ¬ in_bitmap sb0 n ∧ 0 ≤ n < sb_size sb0.
Proof. intros [Hn _]. pose proof (geometry_pos E Hg). rewrite /in_bitmap. lia. Qed.

Section step.
Context (c' : Z → block) (x' : inode).
Context (Hx : x' = with_addrs (i_addrs x') x).
Context (Hu : ∀ n, 0 ≤ n < sb_size (sb E) → used (sb E) c' n = used (sb E) c1 n).
Context (Hfr : ∀ n, 0 ≤ n < sb_size (sb E) → used (sb E) c n = true → ¬ in_bitmap (sb E) n →
  (n = addr_of x NDIRECT → n = 0) → c' n = c n).

Lemma step_is_data n : is_data sb0 c n ∨ n = r → is_data sb0 c' n.
Proof.
  pose proof (geometry_pos E Hg). intros [[Hn Hun]| ->]; (split; [done|]); rewrite Hu; [|lia| |lia].
  - apply alloc_used_mono; [lia|done].
  - apply alloc_is_data.
Qed.

Lemma step_data k : 0 ≤ k < MAXFILE → faddr c x k ≠ 0 → c' (faddr c x k) = c (faddr c x k).
Proof.
  intros Hk Hne. destruct (iw_data _ _ _ Hw k Hk Hne) as [Hd Hi]. destruct (alloc_data _ Hd) as [Hb Hn].
  apply Hfr; [done|apply Hd|done|congruence].
Qed.

Lemma step_frame n :
  0 ≤ n < sb_size sb0 → used sb0 c n = true → ¬ in_bitmap sb0 n → ¬ block_of c x n → c' n = c n.
Proof.
  intros Hn Hun Hb Hbl. apply Hfr; [done..|]. intros En. destruct (decide (n = 0)); [done|].
  destruct Hbl. split; [done|by left].
Qed.

(** The new block is block [k] of the file. *)
Lemma step_add k :
  addr_of x' NDIRECT = addr_of x NDIRECT → 0 ≤ k < MAXFILE → faddr c x k = 0 → faddr c' x' k = r →
  (∀ k', 0 ≤ k' < MAXFILE → k' ≠ k → faddr c' x' k' = faddr c x k') → zero_block (c' r) →
  ext sb0 c x c' x' ∧ inode_wf sb0 c' x'.
Proof.
  intros Hi Hk H0 Hkr Ho Hz. pose proof (geometry_pos E Hg).
  assert (∀ k', 0 ≤ k' < MAXFILE → faddr c x k' ≠ 0 → faddr c' x' k' = faddr c x k' ∧ faddr c x k' ≠ r) as Hold.
  { intros k' Hk' Hne. split; [apply Ho; congruence|]. destruct (iw_data _ _ _ Hw k' Hk' Hne) as [[_ Hd] _]. congruence. }
  assert (addr_of x NDIRECT ≠ r) as Hir.
  { intros Ei. destruct (iw_ind _ _ _ Hw) as [_ Hd]; [lia|]. congruence. }
  split; [split; [split|..]|split]; rewrite ?Hi; try done.
  - by left.
  - intros k' Hk' Hne. by apply Hold.
  - intros k' Hk' E0 Hne. destruct (decide (k' = k)) as [->|]; [rewrite Hkr; split; [lia|done]|]. by rewrite Ho in Hne.
  - intros n Hn Hun. rewrite Hu //. by apply alloc_used_mono.
  - intros n Hn. rewrite Hu; [|lia]. intros [| ->]%alloc_new; [by left|right|done]. split; [lia|]. right. eauto.
  - intros n Hn Hun Hb Hbl. apply step_frame; done.
  - apply step_data.
  - intros k' Hk' E0 Hne. destruct (decide (k' = k)) as [->|]; [by rewrite Hkr|]. by rewrite Ho in Hne.
  - rewrite Hx. apply Hw.
  - intros Hne. apply step_is_data. left. by apply Hw.
  - intros k' Hk' Hne. destruct (decide (k' = k)) as [->|Hk2].
    + rewrite Hkr. split; [apply step_is_data; by right|]. congruence.
    + rewrite Ho // in Hne |- *. destruct (iw_data _ _ _ Hw k' Hk' Hne). split; [apply step_is_data; by left|done].
  - intros k1 k2 H1 H2 Hne Eq. destruct (decide (k1 = k)) as [->|N1], (decide (k2 = k)) as [->|N2]; [done|..].
    + rewrite Hkr Ho // in Eq. destruct (Hold k2 H2) as [_ Hn]; [lia|]. congruence.
    + rewrite Hkr Ho // in Eq. destruct (Hold k1 H1) as [_ Hn]; [lia|]. congruence.
    + rewrite !Ho // in Hne Eq. by eapply iw_inj.
Qed.

(** The new block is the indirect block, without entries. *)
Lemma step_ind :
  addr_of x NDIRECT = 0 → addr_of x' NDIRECT = r →
  (∀ k', 0 ≤ k' < MAXFILE → faddr c' x' k' = faddr c x k') →
  ext sb0 c x c' x' ∧ inode_wf sb0 c' x'.
Proof.
  intros Hi Hi' Ho. pose proof (geometry_pos E Hg). split; [split; [split|..]|split]; rewrite ?Hi'; try done.
  - right. split_and!; [done|lia|lia|done].
  - intros k' Hk' Hne. by apply Ho.
  - intros k' Hk' E0 Hne. by rewrite Ho in Hne.
  - intros n Hn Hun. rewrite Hu //. by apply alloc_used_mono.
  - intros n Hn. rewrite Hu; [|lia]. intros [| ->]%alloc_new; [by left|right|done]. split; [lia|by left].
  - intros n Hn Hun Hb Hbl. apply step_frame; done.
  - apply step_data.
  - intros k' Hk' E0 Hne. by rewrite Ho in Hne.
  - rewrite Hx. apply Hw.
  - intros Hne. apply step_is_data. by right.
  - intros k' Hk' Hne. rewrite Ho // in Hne |- *. destruct (iw_data _ _ _ Hw k' Hk' Hne) as [Hd _].
    split; [apply step_is_data; by left|]. destruct Hd. congruence.
  - intros k1 k2 H1 H2 Hne Eq. rewrite !Ho // in Hne Eq. by eapply iw_inj.
Qed.
End step.
End alloc.

(** ** The three allocations of [bmap] *)

Lemma ld32_zeros m a : (∀ i, a ≤ i < a + 4 → ld8 m i = 0) → ld32 m a = 0.
Proof. intros H. rewrite /ld32. rewrite (ldle_of_bytes 4 m a 0); [done|]. intros b Hb. rewrite H //. Qed.

Section allocs.
Context (E : fsst).
Abbreviation sb0 := (sb E).
Context (Hg : geometry (sb E) (lg E)).
Context (c : Z → block) (x : inode) (r : Z).
Context (Hw : inode_wf (sb E) c x) (Hr : data_start (sb E) ≤ r < sb_size (sb E)) (Hf : used (sb E) c r = false).
Let c1 := balloc_cont E r c.

Lemma fresh_frame n :
  0 ≤ n < sb_size sb0 → used sb0 c n = true → ¬ in_bitmap sb0 n → c1 n = c n.
Proof. intros Hn Hu Hb. apply (alloc_frame E Hg c r n Hr); [congruence|done]. Qed.

Lemma fresh_zero : zero_block (c1 r).
Proof. intros i Hi. by apply alloc_zero. Qed.

Lemma alloc_direct k :
  0 ≤ k < NDIRECT → addr_of x k = 0 →
  ext sb0 c x c1 (with_addr k r x) ∧ inode_wf sb0 c1 (with_addr k r x) ∧ faddr c1 (with_addr k r x) k = r.
Proof.
  intros Hk H0. assert (addr_of (with_addr k r x) NDIRECT = addr_of x NDIRECT) as Hi.
  { rewrite addr_of_with_addr decide_False //. lia. }
  assert (faddr c1 (with_addr k r x) k = r) as Hkr.
  { rewrite faddr_direct; [|lia]. rewrite addr_of_with_addr decide_True //. }
  apply and_assoc. split; [|done]. apply (step_add E Hg c x r Hw Hr Hf) with (k := k); try done.
  - intros n Hn Hu Hb _. by apply fresh_frame.
  - lia.
  - rewrite faddr_direct //. lia.
  - intros k' Hk' Hne. apply faddr_eq; intros Hlt.
    + rewrite addr_of_with_addr decide_False //.
    + rewrite {1}/ind_entry Hi. rewrite -(alloc_ind_entry E Hg c x r Hw Hr Hf). done.
  - apply fresh_zero.
Qed.

Lemma alloc_indirect :
  addr_of x NDIRECT = 0 →
  ext sb0 c x c1 (with_addr NDIRECT r x) ∧ inode_wf sb0 c1 (with_addr NDIRECT r x).
Proof.
  intros H0. assert (addr_of (with_addr NDIRECT r x) NDIRECT = r) as Hi by (rewrite addr_of_with_addr; by case_decide).
  apply (step_ind E Hg c x r Hw Hr Hf); try done.
  - intros n Hn Hu Hb _. by apply fresh_frame.
  - intros k' Hk'. apply faddr_eq; intros Hlt.
    + rewrite addr_of_with_addr decide_False //. lia.
    + rewrite /ind_entry Hi H0 /=. destruct (Z.eqb_spec r 0); [done|]. apply ld32_zeros. intros i Hb.
      apply fresh_zero. lia.
Qed.

(** The contents after the entry has been written. *)
Definition entry_cont (j : Z) : Z → block :=
  <[addr_of x NDIRECT := st32 (c1 (addr_of x NDIRECT)) (4 * j) r]> c1.

Lemma alloc_entry j :
  0 ≤ j < NINDIRECT → addr_of x NDIRECT ≠ 0 → ind_entry c x j = 0 →
  ext sb0 c x (entry_cont j) x ∧ inode_wf sb0 (entry_cont j) x ∧ faddr (entry_cont j) x (j + NDIRECT) = r.
Proof.
  intros Hj Hi H0. pose proof (iw_ind _ _ _ Hw Hi) as Hd.
  destruct (alloc_keeps E Hg c r Hr Hf _ Hd) as (Ei & _ & Hir). fold c1 in Ei. pose proof (geometry_pos E Hg).
  assert (∀ i, 0 ≤ i < NINDIRECT → ind_entry (entry_cont j) x i = if decide (i = j) then r else ind_entry c x i) as Hen.
  { intros i Hb. rewrite /ind_entry (proj2 (Z.eqb_neq _ _) Hi) /entry_cont fn_lookup_insert Ei.
    case_decide as Eij; [subst; rewrite ld32_st32 /u32 Z.mod_small //; pose proof (gm_size _ _ Hg); lia|].
    apply ld32_st32_ne. lia. }
  assert (faddr (entry_cont j) x (j + NDIRECT) = r) as Hkr.
  { rewrite faddr_indirect; [|lia]. rewrite Z.add_simpl_r Hen // decide_True //. }
  assert (∀ n, n ≠ addr_of x NDIRECT → entry_cont j n = c1 n) as Hne.
  { intros n Hn. by rewrite /entry_cont fn_lookup_insert_ne. }
  apply and_assoc. split; [|done]. apply (step_add E Hg c x r Hw Hr Hf) with (k := j + NDIRECT); try done.
  - by destruct x.
  - intros n Hn. rewrite /used. rewrite Hne //. pose proof (BBLOCK_bitmap E Hg n Hn) as Hb. destruct Hd as [Hd _].
    rewrite /in_bitmap in Hb. lia.
  - intros n Hn Hu Hb Hni. rewrite Hne; [by apply fresh_frame|]. intros ->. by apply Hi, Hni.
  - lia.
  - rewrite faddr_indirect; [|lia]. by rewrite Z.add_simpl_r.
  - intros k' Hk' Hk2. apply faddr_eq; intros Hlt; [done|]. rewrite Hen; [|lia]. rewrite decide_False //. lia.
  - rewrite Hne //. apply fresh_zero.
Qed.
End allocs.

(** ** [bmap] *)

(** The inode table with inode [ip] changed to [x]. *)
Definition upd_at (I : Z → inode) (ip : Z) (x : inode) (I' : Z → inode) : Prop :=
  I' ip = x ∧ ∀ j, j ≠ ip → I' j = I j.

Lemma upd_at_id I ip : upd_at I ip (I ip) I.
Proof. done. Qed.
Lemma upd_at_insert I ip x : upd_at I ip x (<[ip := x]> I).
Proof. split; [by rewrite fn_lookup_insert|]. intros j Hj. by rewrite fn_lookup_insert_ne. Qed.
Lemma upd_at_trans I ip x I1 y I2 : upd_at I ip x I1 → upd_at I1 ip y I2 → upd_at I ip y I2.
Proof. intros [_ H1] [H2 H3]. split; [done|]. intros j Hj. by rewrite H3 // H1. Qed.

(** The result [r] of [bmap(ip, k)] for the inode [x], and what it leaves. *)
Record bmapped (b : superblock) (c : Z → block) (x : inode) (k r : Z) (c' : Z → block) (x' : inode) : Prop := {
  bm_ext : ext b c x c' x';
  bm_wf : inode_wf b c' x';
  bm_meta : meta_used b c';
  bm_addr : faddr c' x' k = r;
  bm_full : r = 0 → ∀ n, 0 ≤ n < sb_size b → used b c' n = true;
}.

Section bmap.
Context (E : fsst).
Abbreviation sb0 := (sb E).
Context (Hg : geometry (sb E) (lg E)).
Implicit Types (c : Z → block) (W : list Z) (O : gmap Z Z) (I : Z → inode).

Lemma txn_upd_inode c W O I s ip f (Q : unit → fsst → Prop) :
  txn E c W O I s → (∀ s', txn E c W O (<[ip := f (I ip)]> I) s' → Q tt s') → wp (upd_inode ip f) Q s.
Proof.
  intros [[p [Hr Hp]] [] Hi Hl Ho Hk] HQ. apply wp_modify, HQ. split; try done.
  - exists p. split; [|done]. by eapply (rep_ext _ _ s).
  - by rewrite /set_inode /= Hi.
Qed.

Lemma txn_inode c W O I s ip (Q : inode → fsst → Prop) : txn E c W O I s → Q (I ip) s → wp (inode_at ip) Q s.
Proof. intros Ht HQ. apply wp_gets. by rewrite (tx_inodes _ _ _ _ _ _ Ht). Qed.

Lemma o_ok_empty c : o_ok E c ∅.
Proof. split; [by rewrite map_size_empty; lia|]. intros n b. by rewrite lookup_empty. Qed.

Lemma o_ok_one c n b : is_data sb0 c n → o_ok E c {[ n := b ]}.
Proof.
  intros Hd. split; [by rewrite map_size_singleton|]. intros n' b' [<- _]%lookup_singleton_Some. exact Hd.
Qed.

(** A block that exists is found, and nothing changes. *)
Lemma wp_bmap_old c W I s ip k (Q : Z → fsst → Prop) :
  txn E c W ∅ I s → inode_wf sb0 c (I ip) → budget E W 0 → 0 ≤ k < MAXFILE → faddr c (I ip) k ≠ 0 →
  (∀ s', txn E c W ∅ I s' → Q (faddr c (I ip) k) s') → wp (bmap ip k) Q s.
Proof.
  intros Ht Hw Hb Hk Hne HQ. rewrite /bmap. apply wp_bind. eapply txn_inode; [exact Ht|]. rewrite /faddr in Hne, HQ.
  destruct (Z.ltb_spec k NDIRECT).
  - destruct (Z.eqb_spec (addr_of (I ip) k) 0); [done|]. by apply wp_ret, HQ.
  - destruct (Z.ltb_spec (k - NDIRECT) NINDIRECT); [|lia]. rewrite /ind_entry in Hne, HQ.
    destruct (Z.eqb_spec (addr_of (I ip) NDIRECT) 0) as [|Hi]; [done|]. apply wp_bind, wp_ret.
    destruct (Z.eqb_spec (addr_of (I ip) NDIRECT) 0); [done|]. rewrite (iw_dev _ _ _ Hw).
    apply wp_bind. eapply txn_bread; [exact Ht|done|done|by rewrite map_size_empty; lia|]. intros b s1 Ht1 Hcl.
    apply wp_bind. eapply txn_get; [exact Ht1|apply lookup_insert_eq|].
    destruct (Z.eqb_spec (ld32 (c (addr_of (I ip) NDIRECT)) (4 * (k - NDIRECT))) 0); [done|].
    apply wp_bind, wp_ret. apply wp_bind. eapply txn_brelse; [exact Ht1|apply lookup_insert_eq|done|].
    intros s2 Ht2. rewrite delete_insert_id // in Ht2. by apply wp_ret, HQ.
Qed.

Lemma bmapped_refl c x k :
  inode_wf sb0 c x → meta_used sb0 c → (faddr c x k = 0 → ∀ n, 0 ≤ n < sb_size sb0 → used sb0 c n = true) →
  bmapped sb0 c x k (faddr c x k) c x.
Proof. intros Hw Hm Hf. split; auto using ext_refl. Qed.

Lemma ext_meta c x c' x' : ext sb0 c x c' x' → meta_used sb0 c → meta_used sb0 c'.
Proof. intros [G _ _] Hm n Hn. pose proof (gm_data _ _ Hg). apply (gr_used _ _ _ _ _ G); [lia|]. by apply Hm. Qed.

Lemma bmapped_new c x k r c' x' :
  ext sb0 c x c' x' → inode_wf sb0 c' x' → faddr c' x' k = r → meta_used sb0 c → data_start sb0 ≤ r →
  bmapped sb0 c x k r c' x'.
Proof.
  intros He Hw Hk Hm Hr. pose proof (geometry_pos E Hg). split; [done|done|by eapply ext_meta|done|lia].
Qed.

Lemma budget_balloc W k r : budget E W k → budget E (balloc_log E r W) (k - 2).
Proof. intros Hb. rewrite (_ : k - 2 = k - 1 - 1); [|lia]. by apply budget_add, budget_add. Qed.

Lemma balloc_log_length r W : (length W ≤ length (balloc_log E r W) ≤ length W + 2)%nat ∧ r ∈ balloc_log E r W.
Proof.
  rewrite /balloc_log. pose proof (add_log_length (BBLOCK r sb0) W). pose proof (add_log_length r (add_log (BBLOCK r sb0) W)).
  split; [lia|]. rewrite elem_of_add_log. by left.
Qed.

(** The indirect block exists: its entry is found or filled. *)
Lemma wp_bmap_entry c W I s ip j (Q : Z → fsst → Prop) :
  let x := I ip in let ind := addr_of x NDIRECT in
  txn E c W ∅ I s → inode_wf sb0 c x → meta_used sb0 c → budget E W (if decide (ind ∈ W) then 3 else 4) →
  ind ≠ 0 → 0 ≤ j < NINDIRECT →
  (∀ r c' W' s', bmapped sb0 c x (j + NDIRECT) r c' x →
     (length (add_log r W') ≤ length W + (if decide (ind ∈ W) then 2 else 3))%nat → txn E c' W' ∅ I s' → Q r s') →
  wp (bp ← bread ROOTDEV ind;
      a ← get_data bp;
      addr ← (if ld32 a (4 * j) =? 0 then
                addr ← balloc ROOTDEV;
                (if negb (addr =? 0) then
                   a ← get_data bp;
                   put_data bp (st32 a (4 * j) addr);;
                   log_write bp
                 else mret tt);;
                mret addr
              else mret (ld32 a (4 * j)));
      brelse bp;;
      mret addr) Q s.
Proof.
  intros x ind Ht Hw Hm Hb Hi Hj HQ. pose proof (iw_ind _ _ _ Hw Hi) as Hd. fold ind in Hd.
  assert (faddr c x (j + NDIRECT) = ld32 (c ind) (4 * j)) as Ef.
  { rewrite faddr_indirect; [|lia]. rewrite Z.add_simpl_r /ind_entry (proj2 (Z.eqb_neq _ _) Hi) //. }
  assert (∀ r, (length (add_log r W) ≤ length W + (if decide (ind ∈ W) then 2 else 3))%nat) as Hl1.
  { intros r. pose proof (add_log_length r W). case_decide; lia. }
  assert (budget E W 3) as Hb3 by (eapply budget_le; [exact Hb|]; case_decide; lia).
  apply wp_bind. eapply txn_bread; [exact Ht|done|by eapply budget_le|by rewrite map_size_empty; lia|]. intros bp s1 Ht1 Hcl.
  rewrite insert_empty in Ht1. assert ({[ind := bp]} !! ind = Some bp) as Ho by apply lookup_singleton_eq.
  assert (∀ c' W' s2 r, txn E c' W' {[ind := bp]} I s2 → (ind ∈ W' ∨ c' ind = contents (disk E) ind) →
    bmapped sb0 c x (j + NDIRECT) r c' x → (length (add_log r W') ≤ length W + (if decide (ind ∈ W) then 2 else 3))%nat →
    wp (brelse bp;; mret r) Q s2) as Hend.
  { intros c' W' s2 r Ht2 Hcl2 Hbm Hlen. apply wp_bind. eapply txn_brelse; [exact Ht2|exact Ho|done|].
    intros s3 Ht3. rewrite delete_singleton_eq in Ht3. apply wp_ret. by eapply HQ. }
  apply wp_bind. eapply txn_get; [exact Ht1|exact Ho|]. apply wp_bind.
  destruct (Z.eqb_spec (ld32 (c ind) (4 * j)) 0) as [E0|Hne].
  2: { apply wp_ret. rewrite -Ef. apply (Hend c W); [done..| |apply Hl1]. apply bmapped_refl; [done..|]. by rewrite Ef. }
  apply wp_bind. eapply (wp_balloc E Hg); [exact Ht1|by apply o_ok_one|done|by eapply budget_le|..].
  - intros s2 Ht2 Hfull. apply wp_bind, wp_ret, wp_ret. rewrite -E0 -Ef. apply (Hend c W); [done..| |apply Hl1]. by apply bmapped_refl.
  - intros r s2 Hr Hf Ht2. pose proof (geometry_pos E Hg). rewrite (proj2 (Z.eqb_neq r 0)) /=; [|lia].
    destruct (alloc_entry E Hg c x r Hw Hr Hf j Hj Hi) as (He & Hw' & Hk).
    { by rewrite -(Z.add_simpl_r j NDIRECT) -faddr_indirect ?Ef; [|lia]. }
    pose proof (balloc_log_length r W) as [Hlen Hrin].
    apply wp_bind, wp_bind. eapply txn_get; [exact Ht2|exact Ho|]. apply wp_bind. eapply txn_put; [exact Ht2|exact Ho|].
    intros s3 Ht3. eapply txn_log_write; [exact Ht3|exact Ho|by eapply budget_le; [by apply budget_balloc|]|apply home_block; [done|destruct Hd; lia]|].
    intros s4 Ht4. apply wp_ret. eapply Hend; [exact Ht4|left; rewrite elem_of_add_log; by left|apply bmapped_new; [done..|lia]|].
    rewrite (add_log_in r); [|rewrite elem_of_add_log; by right]. pose proof (add_log_length ind (balloc_log E r W)).
    case_decide as Hin; [|lia]. rewrite add_log_in; [lia|]. rewrite /balloc_log !elem_of_add_log. auto.
Qed.

Lemma wp_bmap c W I s ip k (Q : Z → fsst → Prop) :
  txn E c W ∅ I s → inode_wf sb0 c (I ip) → meta_used sb0 c → budget E W 5 → 0 ≤ k < MAXFILE →
  (∀ r c' x' W' I' s', bmapped sb0 c (I ip) k r c' x' → upd_at I ip x' I' →
     (length (add_log r W') ≤ length W + 4)%nat → txn E c' W' ∅ I' s' → Q r s') →
  wp (bmap ip k) Q s.
Proof.
  intros Ht Hw Hm Hb Hk HQ. assert (∀ r, length (add_log r W) ≤ length W + 4)%nat as Hl1.
  { intros r. pose proof (add_log_length r W). lia. }
  rewrite /bmap. apply wp_bind. eapply txn_inode; [exact Ht|]. rewrite (iw_dev _ _ _ Hw). destruct (Z.ltb_spec k NDIRECT).
  - rewrite -(faddr_direct c (I ip) k) //. destruct (Z.eqb_spec (faddr c (I ip) k) 0) as [E0|Hne].
    2: { apply wp_ret. by eapply HQ; [by apply bmapped_refl|apply upd_at_id|apply Hl1|]. }
    apply wp_bind. eapply (wp_balloc E Hg); [exact Ht|apply o_ok_empty|done|by eapply budget_le|..].
    + intros s2 Ht2 Hfull. apply wp_ret. eapply HQ; [|apply upd_at_id|apply Hl1|exact Ht2]. rewrite -E0. by apply bmapped_refl.
    + intros r s2 Hr Hf Ht2. pose proof (geometry_pos E Hg). rewrite (proj2 (Z.eqb_neq r 0)); [|lia].
      destruct (alloc_direct E Hg c (I ip) r Hw Hr Hf k ltac:(lia)) as (He & Hw' & Ek); [by rewrite -(faddr_direct c)|].
      apply wp_bind. eapply txn_upd_inode; [exact Ht2|]. intros s3 Ht3. apply wp_ret.
      pose proof (balloc_log_length r W) as [Hlen Hrin].
      eapply HQ; [apply bmapped_new; [done..|lia]|apply upd_at_insert| |exact Ht3]. rewrite add_log_in //. lia.
  - destruct (Z.ltb_spec (k - NDIRECT) NINDIRECT); [|lia].
    destruct (Z.eqb_spec (addr_of (I ip) NDIRECT) 0) as [E0|Hne]; last first.
    + apply wp_bind, wp_ret. rewrite (proj2 (Z.eqb_neq _ 0) Hne).
      eapply (wp_bmap_entry c W I s ip (k - NDIRECT)); [done..|eapply budget_le; [done|case_decide; lia]|done|lia|].
      intros r c' W' s' Hbm Hlen Ht'. rewrite Z.sub_add in Hbm.
      eapply HQ; [done|apply upd_at_id| |exact Ht']. destruct (decide _); lia.
    + apply wp_bind, wp_bind. eapply (wp_balloc E Hg); [exact Ht|apply o_ok_empty|done|by eapply budget_le|..].
      * intros s2 Ht2 Hfull. apply wp_bind, wp_ret, wp_ret. apply wp_ret.
        eapply HQ; [|apply upd_at_id|apply Hl1|exact Ht2].
        assert (faddr c (I ip) k = 0) as <-; [|by apply bmapped_refl]. rewrite faddr_indirect // /ind_entry E0 //.
      * intros a s2 Ha Hf Ht2. pose proof (geometry_pos E Hg). rewrite (proj2 (Z.eqb_neq a 0)); [|lia].
        destruct (alloc_indirect E Hg c (I ip) a Hw Ha Hf E0) as (He & Hw').
        apply wp_bind. eapply txn_upd_inode; [exact Ht2|]. intros s3 Ht3. apply wp_ret.
        rewrite (proj2 (Z.eqb_neq a 0)); [|lia]. pose proof (balloc_log_length a W) as [Hlen Hain].
        set (I1 := <[ip := with_addr NDIRECT a (I ip)]> I) in *.
        assert (I1 ip = with_addr NDIRECT a (I ip)) as EI by apply fn_lookup_insert.
        assert (a = addr_of (I1 ip) NDIRECT) as Ea by (rewrite EI addr_of_with_addr; by case_decide).
        rewrite -EI in He, Hw'. rewrite {1}Ea.
        eapply (wp_bmap_entry _ _ I1 s3 ip (k - NDIRECT)); [exact Ht3|done|by eapply ext_meta| |lia|lia|].
        { rewrite -Ea decide_True //. exact (budget_balloc W 5 a Hb). }
        intros r c' W' s' Hbm. rewrite -Ea decide_True //. intros Hlen' Ht'. rewrite Z.sub_add in Hbm.
        destruct Hbm as [B1 B2 B3 B4 B5]. eapply HQ; [|by split; [exact EI|apply upd_at_insert]| |exact Ht']; [|lia].
        rewrite -EI. split; try done. by eapply ext_trans.
Qed.
End bmap.

(** ** Files seen through their own blocks *)

Section agree.
Context (b : superblock) (c c' : Z → block) (x : inode).
Context (Hw : inode_wf b c x).
Context (Hc : ∀ n, block_of c x n → c' n = c n) (Hu : ∀ n, block_of c x n → used b c' n = true).

Lemma block_ind : addr_of x NDIRECT ≠ 0 → block_of c x (addr_of x NDIRECT).
Proof. intros H. split; [done|by left]. Qed.
Lemma block_data k : 0 ≤ k < MAXFILE → faddr c x k ≠ 0 → block_of c x (faddr c x k).
Proof. intros Hk H. split; [done|]. right. eauto. Qed.

Lemma agree_faddr k : faddr c' x k = faddr c x k.
Proof.
  apply faddr_eq; [done|]. intros _. rewrite /ind_entry. destruct (Z.eqb_spec (addr_of x NDIRECT) 0); [done|].
  rewrite Hc //. by apply block_ind.
Qed.

Lemma agree_byte i : 0 ≤ i < MAXFILE * BSIZE → fbyte c' x i = fbyte c x i.
Proof.
  intros Hi. rewrite /fbyte agree_faddr. destruct (Z.eqb_spec (faddr c x (i / BSIZE)) 0); [done|].
  rewrite Hc //. apply block_data; [dlia|done].
Qed.

Lemma agree_wf : inode_wf b c' x.
Proof.
  split; [apply Hw|..].
  - intros Hi. split; [apply Hw; done|]. apply Hu. by apply block_ind.
  - intros k Hk. rewrite agree_faddr. intros Hne. destruct (iw_data _ _ _ Hw k Hk Hne) as [[? ?] ?].
    split; [|done]. split; [done|]. apply Hu. by apply block_data.
  - intros k k' Hk Hk'. rewrite !agree_faddr. by apply Hw.
Qed.
End agree.

Lemma wf_addr b c x k : inode_wf b c x → 0 < data_start b → 0 ≤ k ≤ NDIRECT → 0 ≤ addr_of x k < Z.max 1 (sb_size b).
Proof.
  intros Hw Hp Hk. destruct (decide (addr_of x k = 0)) as [->|Hne]; [lia|]. destruct (decide (k = NDIRECT)) as [->|].
  - destruct (iw_ind _ _ _ Hw Hne). lia.
  - rewrite -(faddr_direct c x k) in Hne |- *; [|lia..]. destruct (iw_data _ _ _ Hw k ltac:(lia) Hne) as [[? _] _]. lia.
Qed.

(** The blocks before the data, but for the bitmap, are not touched. *)
Lemma grow_meta E c x c' x' n :
  geometry (sb E) (lg E) → inode_wf (sb E) c x → meta_used (sb E) c → grow (sb E) c x c' x' →
  0 ≤ n < sb_bmapstart (sb E) → c' n = c n.
Proof.
  intros Hg Hw Hm G Hn. pose proof (geometry_pos E Hg). pose proof (gm_data _ _ Hg).
  apply (gr_frame _ _ _ _ _ G); [lia|apply Hm; lia|rewrite /in_bitmap; lia|].
  intros [Hn0 [->|(k & Hk & <-)]]; [destruct (iw_ind _ _ _ Hw Hn0)|destruct (iw_data _ _ _ Hw k Hk Hn0) as [[? _] _]]; lia.
Qed.

(** A file with the same addresses. *)
Lemma same_addrs_wf b c x y : i_addrs x = i_addrs y → i_dev x = i_dev y → inode_wf b c x → inode_wf b c y.
Proof.
  intros Ea Ed [H1 H2 H3 H4]. rewrite /faddr /ind_entry /addr_of Ea in H2, H3, H4. split; [congruence|done..].
Qed.

(** Any other file, whose blocks are not blocks of the file that grew, is as it was. *)
Lemma grow_other E c x c' x' y :
  geometry (sb E) (lg E) → grow (sb E) c x c' x' → inode_wf (sb E) c y → (∀ n, block_of c y n → ¬ block_of c x n) →
  inode_wf (sb E) c' y ∧ (∀ i, 0 ≤ i < MAXFILE * BSIZE → fbyte c' y i = fbyte c y i) ∧ (∀ n, block_of c' y n → ¬ block_of c' x' n).
Proof.
  intros Hg G Hy Hdis. pose proof (geometry_pos E Hg).
  assert (∀ n, block_of c y n → is_data (sb E) c n) as Hd.
  { intros n [Hn [->|(k & Hk & <-)]]; [by apply Hy|by apply (iw_data _ _ _ Hy)]. }
  assert (∀ n, block_of c y n → c' n = c n) as Hc.
  { intros n Hn. destruct (Hd n Hn) as [Hr Hu]. apply (gr_frame _ _ _ _ _ G); [lia|done|rewrite /in_bitmap; lia|by apply Hdis]. }
  assert (∀ n, block_of c y n → used (sb E) c' n = true) as Hu.
  { intros n Hn. destruct (Hd n Hn) as [Hr Hu]. apply (gr_used _ _ _ _ _ G); [lia|done]. }
  split_and!; [by eapply agree_wf|intros i Hi; by eapply agree_byte|].
  intros n Hn Hx. assert (block_of c y n) as Hn'.
  { destruct Hn as [Hn0 Hn]. split; [done|]. by setoid_rewrite (agree_faddr c c' y Hc) in Hn. }
  apply (Hdis n Hn'). eapply grow_blocks; [done| |done]. by apply Hd.
Qed.

(** ** Writing to a block of the file *)

(** The bytes [lo] to [hi] of the file are now [g], its other bytes and all
    other files as before. *)
Record written (b : superblock) (c : Z → block) (x : inode) (lo hi : Z) (g : Z → Z) (c' : Z → block) (x' : inode) : Prop := {
  wr_grow : grow b c x c' x';
  wr_wf : inode_wf b c' x';
  wr_meta : meta_used b c';
  wr_byte : ∀ i, 0 ≤ i < MAXFILE * BSIZE → fbyte c' x' i = if decide (lo ≤ i < hi) then g i else fbyte c x i;
  wr_alloc : ∀ j, 0 ≤ j → lo < BSIZE * (j + 1) → BSIZE * j < hi → lo < hi → faddr c' x' j ≠ 0;
}.

Lemma written_refl b c x lo g : inode_wf b c x → meta_used b c → written b c x lo lo g c x.
Proof.
  intros Hw Hm. split; [apply grow_refl|done|done| |lia]. intros i Hi. rewrite decide_False //. lia.
Qed.

(** Blocks were added and nothing written. *)
Lemma written_ext b c x lo g c' x' :
  ext b c x c' x' → inode_wf b c' x' → meta_used b c' → written b c x lo lo g c' x'.
Proof.
  intros He Hw Hm. split; [apply He|done|done| |lia]. intros i Hi. rewrite decide_False; [|lia]. by eapply ext_byte.
Qed.

Lemma written_app b c x lo mid hi g c1 x1 c2 x2 :
  lo ≤ mid ≤ hi → hi ≤ MAXFILE * BSIZE → written b c x lo mid g c1 x1 → written b c1 x1 mid hi g c2 x2 → written b c x lo hi g c2 x2.
Proof.
  intros Hl Hmax [G1 W1 M1 B1 A1] [G2 W2 M2 B2 A2]. split; [by eapply grow_trans|done|done| |].
  - intros i Hi. rewrite B2 // B1 //. repeat case_decide; lia || done.
  - intros j Hj H1 H2 H3. destruct (decide (lo < mid ∧ BSIZE * j < mid)) as [[Ha Hb]|Hn].
    + pose proof (A1 j Hj H1 Hb Ha). rewrite (gr_addr _ _ _ _ _ G2) //. lia.
    + apply A2; lia.
Qed.

Section put_block.
Context (E : fsst).
Abbreviation sb0 := (sb E).
Context (Hg : geometry (sb E) (lg E)).
Context (c : Z → block) (x : inode) (r j : Z) (d : block).
Context (Hw : inode_wf (sb E) c x) (Hj : 0 ≤ j < MAXFILE) (Hr : faddr c x j = r) (Hr0 : r ≠ 0).
Let c' := <[r := d]> c.

Lemma put_data_block : is_data sb0 c r ∧ r ≠ addr_of x NDIRECT.
Proof. rewrite -Hr. apply Hw; [done|]. by rewrite Hr. Qed.

Lemma put_faddr k : faddr c' x k = faddr c x k.
Proof.
  apply faddr_eq; [done|]. intros _. rewrite /ind_entry. destruct (addr_of x NDIRECT =? 0); [done|].
  rewrite /c' fn_lookup_insert_ne //. apply put_data_block.
Qed.

Lemma put_used n : 0 ≤ n < sb_size sb0 → used sb0 c' n = used sb0 c n.
Proof.
  intros Hn. rewrite /used /c' fn_lookup_insert_ne //. pose proof (BBLOCK_bitmap E Hg n Hn) as Hb.
  destruct put_data_block as [[Hd _] _]. rewrite /in_bitmap in Hb. lia.
Qed.

Lemma put_is_data n : is_data sb0 c n → is_data sb0 c' n.
Proof. intros [Hn Hu]. pose proof (geometry_pos E Hg). split; [done|]. rewrite put_used //. lia. Qed.

Lemma put_wf : inode_wf sb0 c' x.
Proof.
  split; [apply Hw|..].
  - intros Hi. by apply put_is_data, Hw.
  - intros k Hk. rewrite put_faddr. intros Hne. destruct (iw_data _ _ _ Hw k Hk Hne). split; [by apply put_is_data|done].
  - intros k k' Hk Hk'. rewrite !put_faddr. by apply Hw.
Qed.

Lemma put_block_of n : block_of c' x n ↔ block_of c x n.
Proof. rewrite /block_of. by setoid_rewrite put_faddr. Qed.

Lemma put_grow c0 x0 : grow sb0 c0 x0 c x → grow sb0 c0 x0 c' x.
Proof.
  intros G. pose proof G as [R1 I1 A1 Z1 U1 N1 F1]. split; try done.
  - intros k Hk. rewrite put_faddr. by apply A1.
  - intros k Hk. rewrite put_faddr. by apply Z1.
  - intros n Hn Hu. rewrite put_used //. by apply U1.
  - intros n Hn. rewrite put_used; [|lia]. rewrite put_block_of. by apply N1.
  - intros n Hn Hu Hb Hbl. rewrite /c' fn_lookup_insert_ne; [by apply F1|]. intros <-. apply Hbl.
    eapply grow_blocks; [done|done|]. split; [done|]. right. eauto.
Qed.

Lemma put_meta : meta_used sb0 c → meta_used sb0 c'.
Proof. intros Hm n Hn. pose proof (gm_data _ _ Hg). rewrite put_used; [|lia]. by apply Hm. Qed.

Lemma put_byte i :
  0 ≤ i < MAXFILE * BSIZE → fbyte c' x i = if decide (i / BSIZE = j) then ld8 d (i mod BSIZE) else fbyte c x i.
Proof.
  intros Hi. rewrite /fbyte put_faddr. assert (0 ≤ i / BSIZE < MAXFILE) as Hk by dlia. case_decide as Ej.
  - rewrite Ej Hr (proj2 (Z.eqb_neq _ _) Hr0) /c' fn_lookup_insert //.
  - destruct (Z.eqb_spec (faddr c x (i / BSIZE)) 0); [done|]. rewrite /c' fn_lookup_insert_ne //.
    intros Ek. apply Ej. eapply (iw_inj _ _ _ Hw); [done|done|done|congruence].
Qed.
End put_block.

(** One round of [writei]: [bmap], then [len] bytes of the block changed. *)
Lemma written_chunk E c x off len g c1 x1 r d :
  geometry (sb E) (lg E) → 0 ≤ off → 0 < len ≤ BSIZE - off mod BSIZE → off + len ≤ MAXFILE * BSIZE →
  bmapped (sb E) c x (off / BSIZE) r c1 x1 → r ≠ 0 →
  (∀ i, 0 ≤ i < BSIZE → ld8 d i = if decide (off mod BSIZE ≤ i < off mod BSIZE + len) then g (off + (i - off mod BSIZE)) else ld8 (c1 r) i) →
  written (sb E) c x off (off + len) g (<[r := d]> c1) x1.
Proof.
  intros Hg Ho Hl Hmax [B1 B2 B3 B4 _] Hr Hd. assert (0 ≤ off / BSIZE < MAXFILE) as Hk by dlia.
  split.
  - by eapply put_grow; [..|apply B1].
  - by eapply put_wf.
  - by eapply put_meta.
  - intros i Hi. rewrite (put_byte E c1 x1 r (off / BSIZE) d B2 Hk B4 Hr) //. rewrite Hd; [|dlia].
    rewrite -(ext_byte _ _ _ _ _ i B1 Hi). destruct (decide (i / BSIZE = off / BSIZE)) as [Eb|Nb].
    + destruct (decide (off mod BSIZE ≤ i mod BSIZE < off mod BSIZE + len)) as [Hin|Hout].
      * rewrite decide_True; [|dlia]. f_equal. dlia.
      * rewrite decide_False; [|dlia]. by rewrite /fbyte Eb B4 (proj2 (Z.eqb_neq _ _) Hr).
    + rewrite decide_False //. dlia.
  - intros j Hj H1 H2 _. rewrite (put_faddr E c1 x1 r (off / BSIZE) d B2 Hk B4 Hr). assert (j = off / BSIZE) as -> by dlia. congruence.
Qed.
