(* ===== verification/Idisk.v ===== *)
(** * Inodes on the disk (kernel/fs.c: iupdate, ilock)

    [on_disk b c x]: the [struct dinode] of inode [x] in the contents [c] holds
    the fields of [x].  [iupdate] makes it so and leaves the other inodes of
    the same block alone; [ilock] of an inode that is not valid reads the
    fields back. *)

From stdpp Require Import functions list.
From S2P Require Import Prelude Mem Cstring Spinlock Sleeplock Bio Bcache Log LogCrash Txn Fs Balloc Bmap.

Local Open Scope Z_scope.

(** The fields are within their C types. *)
Record inode_fits (x : inode) : Prop := {
  if_type : - 2 ^ 15 ≤ i_type x < 2 ^ 15;
  if_major : - 2 ^ 15 ≤ i_major x < 2 ^ 15;
  if_minor : - 2 ^ 15 ≤ i_minor x < 2 ^ 15;
  if_nlink : - 2 ^ 15 ≤ i_nlink x < 2 ^ 15;
  if_size : 0 ≤ i_size x < 2 ^ 32;
  if_addrs : ∀ k, 0 ≤ k ≤ NDIRECT → 0 ≤ addr_of x k < 2 ^ 32;
}.

Record dinode (d : block) (o : Z) (x : inode) : Prop := {
  dn_type : s16 (ld16 d (o + DI_TYPE)) = i_type x;
  dn_major : s16 (ld16 d (o + DI_MAJOR)) = i_major x;
  dn_minor : s16 (ld16 d (o + DI_MINOR)) = i_minor x;
  dn_nlink : s16 (ld16 d (o + DI_NLINK)) = i_nlink x;
  dn_size : ld32 d (o + DI_SIZE) = i_size x;
  dn_addrs : ∀ k, 0 ≤ k ≤ NDIRECT → ld32 d (o + DI_ADDRS + 4 * k) = addr_of x k;
}.

Definition on_disk (b : superblock) (c : Z → block) (x : inode) : Prop :=
  dinode (c (IBLOCK (i_inum x) b)) (dinode_off (i_inum x)) x.

(** The same file: the fields that are on the disk are equal. *)
Record same_file (x y : inode) : Prop := {
  sf_fields : (i_type x, i_major x, i_minor x, i_nlink x, i_size x) = (i_type y, i_major y, i_minor y, i_nlink y, i_size y);
  sf_addrs : ∀ k, 0 ≤ k ≤ NDIRECT → addr_of x k = addr_of y k;
}.

(** ** Writing and reading a [struct dinode] *)

Lemma ldle_put_addrs k n x dip dat b :
  b + Z.of_nat k ≤ dip + DI_ADDRS ∨ dip + DI_ADDRS + 4 * Z.of_nat n ≤ b →
  ldle k (put_addrs n x dip dat) b = ldle k dat b.
Proof.
  intros Hb. induction n as [|n IH]; [done|]. simpl. rewrite (ldle_stle_ne k 4); [|lia]. apply IH. lia.
Qed.

Lemma ld32_put_addrs n x dip dat k :
  0 ≤ k < Z.of_nat n → ld32 (put_addrs n x dip dat) (dip + DI_ADDRS + 4 * k) = u32 (addr_of x k).
Proof.
  induction n as [|n IH]; [lia|]. intros Hk. simpl. destruct (decide (k = Z.of_nat n)) as [->|]; [apply ld32_st32|].
  rewrite ld32_st32_ne; [|lia]. apply IH. lia.
Qed.

Lemma s16_ld16 m a v : - 2 ^ 15 ≤ v < 2 ^ 15 → s16 (ld16 (st16 m a v) a) = v.
Proof.
  intros Hv. rewrite /ld16 /st16 ldle_stle. rewrite /s16 (_ : 256 ^ Z.of_nat 2 = 2 ^ 16) //.
  dlia.
Qed.

Lemma put_dinode_ok x dip dat : inode_fits x → dinode (put_dinode x dip dat) dip x.
Proof.
  intros [F1 F2 F3 F4 F5 F6]. rewrite /put_dinode. split.
  - rewrite /ld16 ldle_put_addrs; [|lia]. rewrite (ldle_stle_ne 2 4); [|lia]. do 3 (rewrite (ldle_stle_ne 2 2); [|lia]).
    by apply s16_ld16.
  - rewrite /ld16 ldle_put_addrs; [|lia]. rewrite (ldle_stle_ne 2 4); [|lia]. do 2 (rewrite (ldle_stle_ne 2 2); [|lia]).
    by apply s16_ld16.
  - rewrite /ld16 ldle_put_addrs; [|lia]. rewrite (ldle_stle_ne 2 4); [|lia]. rewrite (ldle_stle_ne 2 2); [|lia].
    by apply s16_ld16.
  - rewrite /ld16 ldle_put_addrs; [|lia]. rewrite (ldle_stle_ne 2 4); [|lia]. by apply s16_ld16.
  - rewrite {1}/ld32 ldle_put_addrs; [|lia]. fold (ld32 (st32 dat 0 0) 0). rewrite -/ld32 -/st32 ld32_st32 /u32 Z.mod_small //.
  - intros k Hk. rewrite ld32_put_addrs; [|lia]. rewrite /u32 Z.mod_small //. by apply F6.
Qed.

(** The other bytes of the block stay. *)
Lemma put_dinode_ne k x dip dat b :
  b + Z.of_nat k ≤ dip ∨ dip + 64 ≤ b → ldle k (put_dinode x dip dat) b = ldle k dat b.
Proof.
  intros Hb. rewrite /put_dinode ldle_put_addrs; [|lia]. rewrite (ldle_stle_ne k 4); [|lia].
  do 4 (rewrite (ldle_stle_ne k 2); [|lia]). done.
Qed.

Lemma dinode_other x dip dat o y :
  o + 64 ≤ dip ∨ dip + 64 ≤ o → dinode dat o y → dinode (put_dinode x dip dat) o y.
Proof.
  intros Ho [D1 D2 D3 D4 D5 D6].
  split; rewrite /ld16 /ld32; intros; rewrite put_dinode_ne; try lia; try done. by apply D6.
Qed.

Lemma get_addrs_lookup n dip dat k :
  0 ≤ k < Z.of_nat n → get_addrs n dip dat !! k = Some (ld32 dat (dip + DI_ADDRS + 4 * k)).
Proof.
  induction n as [|n IH]; [lia|]. intros Hk. simpl. destruct (decide (k = Z.of_nat n)) as [->|].
  - by rewrite lookup_insert_eq.
  - rewrite lookup_insert_ne; [|lia]. apply IH. lia.
Qed.

(** Reading gives back what was written: all the fields. *)
Lemma get_dinode_ok dat o x y :
  dinode dat o x →
  let z := get_dinode o dat y in
  (i_type z, i_major z, i_minor z, i_nlink z, i_size z) = (i_type x, i_major x, i_minor x, i_nlink x, i_size x) ∧
  ∀ k, 0 ≤ k ≤ NDIRECT → addr_of z k = addr_of x k.
Proof.
  intros [D1 D2 D3 D4 D5 D6]. split; [by rewrite /= D1 D2 D3 D4 D5|].
  intros k Hk. rewrite /addr_of. change (i_addrs (get_dinode o dat y)) with (get_addrs 13 o dat).
  rewrite get_addrs_lookup; [|lia]. by apply D6.
Qed.

(** ** [iupdate] and [ilock] *)

Section idisk.
Context (E : fsst).
Abbreviation sb0 := (sb E).
Context (Hg : geometry (sb E) (lg E)).
Implicit Types (c : Z → block) (W : list Z) (O : gmap Z Z) (I : Z → inode).

(** The blocks of inodes. *)
Definition in_iblocks (b : superblock) (n : Z) : Prop := sb_inodestart b ≤ n < sb_bmapstart b.

Lemma IBLOCK_eq i : 0 ≤ i < sb_ninodes sb0 → IBLOCK i sb0 = i / IPB + sb_inodestart sb0 ∧ in_iblocks sb0 (IBLOCK i sb0).
Proof.
  intros Hi. pose proof (geometry_pos E Hg). destruct Hg as [? [? ?] Hd ?]. rewrite /data_start in Hd.
  assert (i / IPB ≤ sb_ninodes sb0 / IPB) by (apply Z.div_le_mono; lia). assert (0 ≤ i / IPB) by (apply Z.div_pos; lia).
  assert (IBLOCK i sb0 = i / IPB + sb_inodestart sb0) as -> by (rewrite /IBLOCK /u32 Z.mod_small; lia).
  rewrite /in_iblocks. lia.
Qed.

Lemma iblock_home n : in_iblocks sb0 n → home E n ∧ ¬ in_bitmap sb0 n ∧ 0 ≤ n < sb_size sb0 ∧ n < data_start sb0.
Proof.
  intros Hn. pose proof (geometry_pos E Hg). pose proof (gm_data _ _ Hg). rewrite /in_iblocks in Hn.
  split_and!; [apply home_block; [done|lia]|rewrite /in_bitmap; lia|lia..].
Qed.

Definition iupd_cont (x : inode) c : Z → block :=
  <[IBLOCK (i_inum x) sb0 := put_dinode x (dinode_off (i_inum x)) (c (IBLOCK (i_inum x) sb0))]> c.

Lemma wp_iupdate c W I s ip (Q : unit → fsst → Prop) :
  let x := I ip in
  txn E c W ∅ I s → budget E W 1 → i_dev x = ROOTDEV → 0 ≤ i_inum x < sb_ninodes sb0 →
  (∀ s', txn E (iupd_cont x c) (add_log (IBLOCK (i_inum x) sb0) W) ∅ I s' → Q tt s') → wp (iupdate ip) Q s.
Proof.
  intros x Ht Hb Hd Hi HQ. destruct (IBLOCK_eq _ Hi) as [_ Hib]. rewrite /iupdate.
  apply wp_bind. eapply txn_inode; [exact Ht|]. fold x. apply wp_bind, wp_gets. rewrite (se_sb _ _ (tx_env _ _ _ _ _ _ Ht)) Hd.
  apply wp_bind. eapply txn_bread; [exact Ht|done|by eapply budget_le|by rewrite map_size_empty; lia|]. intros b s1 Ht1 _.
  apply wp_bind. eapply txn_get; [exact Ht1|apply lookup_insert_eq|].
  apply wp_bind. eapply txn_put; [exact Ht1|apply lookup_insert_eq|]. intros s2 Ht2.
  apply wp_bind. eapply txn_log_write; [exact Ht2|apply lookup_insert_eq|done|by apply iblock_home|]. intros s3 Ht3.
  eapply txn_brelse; [exact Ht3|apply lookup_insert_eq|left; rewrite elem_of_add_log; by left|].
  intros s4. rewrite delete_insert_id //. apply HQ.
Qed.

Lemma iupd_on_disk c x : inode_fits x → on_disk sb0 (iupd_cont x c) x.
Proof. intros Hf. rewrite /on_disk /iupd_cont fn_lookup_insert. by apply put_dinode_ok. Qed.

(** The other inodes on the disk, in the same block or not. *)
Lemma iupd_other c x y :
  0 ≤ i_inum x < sb_ninodes sb0 → 0 ≤ i_inum y < sb_ninodes sb0 → i_inum y ≠ i_inum x →
  on_disk sb0 c y → on_disk sb0 (iupd_cont x c) y.
Proof.
  intros Hx Hy Hne. rewrite /on_disk /iupd_cont fn_insert_dec. case_decide as Eb; [|done]. rewrite Eb.
  apply dinode_other. destruct (IBLOCK_eq _ Hx) as [E1 _], (IBLOCK_eq _ Hy) as [E2 _]. rewrite E1 E2 in Eb.
  rewrite /dinode_off. dlia.
Qed.

Lemma iupd_frame c x n : n ≠ IBLOCK (i_inum x) sb0 → iupd_cont x c n = c n.
Proof. intros Hn. by rewrite /iupd_cont fn_lookup_insert_ne. Qed.

(** Data blocks and bits do not see an inode change. *)
Lemma iupd_used c x n : 0 ≤ i_inum x < sb_ninodes sb0 → 0 ≤ n < sb_size sb0 → used sb0 (iupd_cont x c) n = used sb0 c n.
Proof.
  intros Hx Hn. rewrite /used iupd_frame //. pose proof (BBLOCK_bitmap E Hg n Hn) as Hb.
  destruct (IBLOCK_eq _ Hx) as [_ Hi]. apply iblock_home in Hi as (_ & Hi & _). congruence.
Qed.

(** The contents of files do not see it either. *)
Section iupd_files.
Context (c : Z → block) (y z : inode).
Context (Hy : 0 ≤ i_inum y < sb_ninodes (sb E)) (Hz : inode_wf (sb E) c z).

Lemma iupd_block n : block_of c z n → iupd_cont y c n = c n ∧ used sb0 (iupd_cont y c) n = true.
Proof.
  intros Hn. assert (is_data sb0 c n) as [Hr Hu].
  { destruct Hn as [Hn [->|(k & Hk & <-)]]; [by apply Hz|by apply (iw_data _ _ _ Hz)]. }
  pose proof (geometry_pos E Hg). destruct (IBLOCK_eq _ Hy) as [_ Hib]. destruct (iblock_home _ Hib) as (_ & _ & _ & Hlt).
  split; [apply iupd_frame; lia|]. rewrite iupd_used //. lia.
Qed.

Lemma iupd_faddr k : faddr (iupd_cont y c) z k = faddr c z k.
Proof. apply agree_faddr. intros n Hn. by apply iupd_block. Qed.
Lemma iupd_byte i : 0 ≤ i < MAXFILE * BSIZE → fbyte (iupd_cont y c) z i = fbyte c z i.
Proof. apply agree_byte. intros n Hn. by apply iupd_block. Qed.
Lemma iupd_wf : inode_wf sb0 (iupd_cont y c) z.
Proof. eapply agree_wf; [exact Hz|intros n Hn; by apply iupd_block..]. Qed.
Lemma iupd_block_of n : block_of (iupd_cont y c) z n ↔ block_of c z n.
Proof. rewrite /block_of. by setoid_rewrite iupd_faddr. Qed.
End iupd_files.

Lemma iupd_meta c y : 0 ≤ i_inum y < sb_ninodes sb0 → meta_used sb0 c → meta_used sb0 (iupd_cont y c).
Proof. intros Hy Hm n Hn. pose proof (gm_data _ _ Hg). rewrite iupd_used //; [|lia]. by apply Hm. Qed.

Lemma txn_lock_inode c W O I s ip (Q : unit → fsst → Prop) :
  txn E c W O I s → locked (i_lock (I ip)) = false →
  (∀ s', txn E c W O (<[ip := with_ilock (mk_sleeplock true (fpid E)) (I ip)]> I) s' → Q tt s') →
  wp (acquiresleep (INODE ip)) Q s.
Proof.
  intros Ht Hl HQ. apply wp_acquiresleep; [cbn; by rewrite (tx_inodes _ _ _ _ _ _ Ht)|].
  cbn [my_pid fs_sleep]. rewrite (se_pid _ _ (tx_env _ _ _ _ _ _ Ht)).
  change (wp (upd_inode ip (with_ilock (mk_sleeplock true (fpid E)))) Q s). by eapply txn_upd_inode.
Qed.

Lemma txn_unlock_inode c W O I s ip (Q : unit → fsst → Prop) :
  txn E c W O I s → i_lock (I ip) = mk_sleeplock true (fpid E) → 0 < i_ref (I ip) →
  (∀ s', txn E c W O (<[ip := with_ilock (mk_sleeplock false 0) (I ip)]> I) s' → Q tt s') → wp (iunlock ip) Q s.
Proof.
  intros Ht Hl Hr HQ. rewrite /iunlock. apply wp_bind, wp_gets. cbn [get_sleep my_pid fs_sleep].
  rewrite (tx_inodes _ _ _ _ _ _ Ht) Hl (se_pid _ _ (tx_env _ _ _ _ _ _ Ht)) Z.eqb_refl /=.
  apply wp_bind. eapply txn_inode; [exact Ht|]. rewrite (proj2 (Z.ltb_ge _ _)) /=; [|lia].
  change (wp (upd_inode ip (with_ilock (mk_sleeplock false 0))) Q s). by eapply txn_upd_inode.
Qed.

(** [ilock]: the inode is locked, and has the fields that are on the disk. *)
Lemma wp_ilock c W I s ip x (Q : unit → fsst → Prop) :
  txn E c W ∅ I s → budget E W 0 → i_dev (I ip) = ROOTDEV → i_inum (I ip) = i_inum x → on_disk sb0 c x →
  (i_valid (I ip) = true → same_file (I ip) x) → 0 < i_ref (I ip) → locked (i_lock (I ip)) = false → i_type x ≠ 0 →
  (∀ z I' s', upd_at I ip z I' → i_valid z = true → i_lock z = mk_sleeplock true (fpid E) →
     (i_dev z, i_inum z, i_ref z) = (ROOTDEV, i_inum x, i_ref (I ip)) → same_file z x → txn E c W ∅ I' s' → Q tt s') →
  wp (ilock ip) Q s.
Proof.
  intros Ht Hb Hd Hin Hod Hsame Hr Hl Hty HQ. rewrite /ilock. apply wp_bind. eapply txn_inode; [exact Ht|].
  destruct (Z.ltb_spec (i_ref (I ip)) 1); [lia|]. apply wp_bind. eapply txn_lock_inode; [exact Ht|done|].
  intros s1 Ht1. set (I1 := <[ip := _]> I) in Ht1. set (y := with_ilock _ (I ip)) in I1.
  assert (I1 ip = y) as E1 by apply fn_lookup_insert. apply wp_bind. eapply txn_inode; [exact Ht1|]. rewrite E1 /=.
  destruct (i_valid (I ip)) eqn:Hv; simpl negb; cbv iota.
  { apply wp_ret. eapply (HQ y); [apply upd_at_insert|done|done|rewrite /= Hd Hin; done| |exact Ht1]. by destruct (Hsame eq_refl). }
  apply wp_bind, wp_gets. rewrite (se_sb _ _ (tx_env _ _ _ _ _ _ Ht1)) Hd Hin.
  apply wp_bind. eapply txn_bread; [exact Ht1|done|done|by rewrite map_size_empty; lia|]. intros b s2 Ht2 Hcl.
  apply wp_bind. eapply txn_get; [exact Ht2|apply lookup_insert_eq|].
  destruct (get_dinode_ok _ _ x y Hod) as [Hf Ha]. set (z := get_dinode _ _ y) in Hf, Ha.
  apply wp_bind. eapply txn_upd_inode; [exact Ht2|]. intros s3 Ht3. rewrite E1 in Ht3. fold z in Ht3.
  apply wp_bind. eapply txn_brelse; [exact Ht3|apply lookup_insert_eq|done|]. intros s4 Ht4.
  rewrite delete_insert_id // in Ht4. apply wp_bind. eapply txn_upd_inode; [exact Ht4|]. intros s5 Ht5.
  rewrite fn_lookup_insert in Ht5. apply wp_bind. eapply txn_inode; [exact Ht5|]. rewrite fn_lookup_insert.
  injection Hf as F1 F2 F3 F4 F5. rewrite (_ : i_type (with_ivalid true z) = i_type x) //.
  destruct (Z.eqb_spec (i_type x) 0); [done|]. apply wp_ret.
  eapply (HQ (with_ivalid true z)); [|done|done| |split; [|exact Ha]|exact Ht5].
  - split; [by rewrite fn_lookup_insert|]. intros j Hj. by rewrite /I1 !fn_lookup_insert_ne.
  - rewrite /= Hd Hin. done.
  - rewrite -F1 -F2 -F3 -F4 -F5. done.
Qed.
End idisk.
