(* ===== verification/Itrunc.v ===== *)
(** * Truncating a file (kernel/fs.c: itrunc)

    [itrunc] inside a transaction: the blocks of the file become free, and
    nothing else does. *)

From stdpp Require Import functions list.
From S2P Require Import Prelude Mem Cstring Spinlock Sleeplock Bio Bcache Log LogCrash Txn Fs Balloc Bmap Idisk.

Local Open Scope Z_scope.

(** From [c] to [c'] the blocks in [P] have been freed. *)
Record freed (b : superblock) (c c' : Z → block) (P : Z → Prop) : Prop := {
  fd_used : ∀ n, 0 ≤ n < sb_size b → used b c' n = true ↔ used b c n = true ∧ ¬ P n;
  fd_frame : ∀ n, ¬ in_bitmap b n → c' n = c n;
}.

Lemma freed_ext b c c' P P' : (∀ n, P n ↔ P' n) → freed b c c' P → freed b c c' P'.
Proof. intros HP [F1 F2]. split; [|done]. intros n Hn. rewrite F1 //. by rewrite HP. Qed.

(** The blocks of the first [i] direct addresses, and of the first [j] entries
    of the indirect block. *)
Definition direct_blocks (x : inode) (i n : Z) : Prop := n ≠ 0 ∧ ∃ k, 0 ≤ k < i ∧ addr_of x k = n.
Definition entry_blocks (c : Z → block) (x : inode) (j n : Z) : Prop := n ≠ 0 ∧ ∃ k, 0 ≤ k < j ∧ ind_entry c x k = n.

Lemma direct_blocks_next x i n :
  0 ≤ i → direct_blocks x (i + 1) n ↔ direct_blocks x i n ∨ (n ≠ 0 ∧ n = addr_of x i).
Proof.
  intros Hi. rewrite /direct_blocks. split.
  - intros [Hn (k & Hk & E)]. destruct (decide (k = i)) as [->|]; [by right|]. left. split; [done|]. exists k. split; [lia|done].
  - intros [[Hn (k & Hk & E)]|[Hn ->]]; (split; [done|]); [exists k; split; [lia|done]|exists i; split; [lia|done]].
Qed.

Lemma entry_blocks_next c x i n :
  0 ≤ i → entry_blocks c x (i + 1) n ↔ entry_blocks c x i n ∨ (n ≠ 0 ∧ n = ind_entry c x i).
Proof.
  intros Hi. rewrite /entry_blocks. split.
  - intros [Hn (k & Hk & E)]. destruct (decide (k = i)) as [->|]; [by right|]. left. split; [done|]. exists k. split; [lia|done].
  - intros [[Hn (k & Hk & E)]|[Hn ->]]; (split; [done|]); [exists k; split; [lia|done]|exists i; split; [lia|done]].
Qed.

Lemma block_of_parts c x n :
  block_of c x n ↔ (direct_blocks x NDIRECT n ∨ entry_blocks c x NINDIRECT n) ∨ (n ≠ 0 ∧ n = addr_of x NDIRECT).
Proof.
  rewrite /block_of /direct_blocks /entry_blocks. split.
  - intros [Hn [->|(k & Hk & E)]]; [by right|]. left. rewrite /faddr in E. destruct (Z.ltb_spec k NDIRECT); [left|right]; (split; [done|]).
    + exists k. split; [lia|done].
    + exists (k - NDIRECT). split; [lia|done].
  - intros [[[Hn (k & Hk & E)]|[Hn (k & Hk & E)]]|[Hn ->]]; (split; [done|]); [right|right|by left].
    + exists k. split; [lia|]. rewrite /faddr (proj2 (Z.ltb_lt _ _)) //. lia.
    + exists (k + NDIRECT). split; [lia|]. rewrite /faddr (proj2 (Z.ltb_ge _ _)); [|lia]. by rewrite Z.add_simpl_r.
Qed.

Section itrunc.
Context (E : fsst) (Hg : geometry (sb E) (lg E)) (Hone : sb_size (sb E) ≤ BPB).
Local Abbreviation sb0 := (sb E).

(** The bitmap is one block. *)
Lemma one_BBLOCK n : 0 ≤ n < sb_size sb0 → BBLOCK n sb0 = BBLOCK 0 sb0.
Proof. intros Hn. rewrite /BBLOCK !Z.div_small //; lia. Qed.

Lemma freed_block c c' P n : freed sb0 c c' P → 0 ≤ n < sb_size sb0 → freed sb0 c (bfree_cont E n c') (λ m, P m ∨ m = n).
Proof.
  intros [F1 F2] Hn. split.
  - intros m Hm. rewrite free_used // andb_true_iff F1 // negb_true_iff Z.eqb_neq. tauto.
  - intros m Hm. rewrite free_frame //. by apply F2.
Qed.

Context (c : Z → block) (W : list Z) (I : Z → inode) (ip : Z) (Hw : inode_wf sb0 c (I ip)) (Hb : budget E W 2).
Local Abbreviation x := (I ip).

(** In the middle of [itrunc]: the blocks in [P] are free, and the addresses
    of the inode are [ad]. *)
Record truncating (P : Z → Prop) (ad : Z → Z) (O : gmap Z Z) (c' : Z → block) (W' : list Z) (I' : Z → inode) (s : fsst) : Prop := {
  tg_txn : txn E c' W' O I' s;
  tg_freed : freed sb0 c c' P;
  tg_log : W' = W ∨ W' = add_log (BBLOCK 0 sb0) W;
  tg_others : ∀ j, j ≠ ip → I' j = I j;
  tg_inode : I' ip = with_addrs (i_addrs (I' ip)) x;
  tg_addr : ∀ k, 0 ≤ k ≤ NDIRECT → addr_of (I' ip) k = ad k;
}.

Lemma truncating_ext P P' ad ad' O c' W' I' s :
  (∀ n, P n ↔ P' n) → (∀ k, 0 ≤ k ≤ NDIRECT → ad k = ad' k) → truncating P ad O c' W' I' s → truncating P' ad' O c' W' I' s.
Proof. intros HP Ha [T1 T2 T3 T4 T5 T6]. split; try done; [by eapply freed_ext|]. intros k Hk. by rewrite T6 // Ha. Qed.

Lemma truncating_budget P ad O c' W' I' s : truncating P ad O c' W' I' s → budget E W' 1.
Proof.
  intros HT. pose proof (add_log_length (BBLOCK 0 sb0) W). pose proof Hb as Hb'. rewrite /budget in Hb' |- *. destruct (tg_log _ _ _ _ _ _ _ HT) as [-> | ->]; lia.
Qed.

Lemma wp_trunc_free P ad O c' W' I' s n (Q : unit → fsst → Prop) :
  truncating P ad O c' W' I' s → is_data sb0 c n → ¬ P n → (∀ m, in_bitmap sb0 m → O !! m = None) → (size O ≤ 1)%nat →
  (∀ c2 W2 s', truncating (λ m, P m ∨ m = n) ad O c2 W2 I' s' → (∀ m, m ∈ W' → m ∈ W2) → Q tt s') → wp (bfree ROOTDEV n) Q s.
Proof.
  intros HT [Hr Hu] HP HO Hs HQ. pose proof (truncating_budget _ _ _ _ _ _ _ HT) as Hb1. destruct HT as [T1 T2 T3 T4 T5 T6].
  pose proof (geometry_pos E Hg). assert (0 ≤ n < sb_size sb0) as Hn by lia.
  eapply (wp_bfree E Hg); [exact T1|done|done|done|done|by apply (fd_used _ _ _ _ T2)|]. intros s' Ht'. rewrite one_BBLOCK // in Ht'.
  eapply HQ; [split; [exact Ht'|by apply freed_block| |done|done|done]|].
  - right. destruct T3 as [-> | ->]; [done|]. rewrite (add_log_in _ (add_log _ _)) //. rewrite elem_of_add_log. by left.
  - intros m Hm. rewrite elem_of_add_log. by right.
Qed.

(** [ip->addrs[i] = 0] *)
Lemma wp_trunc_addr P ad O c' W' I' s i (Q : unit → fsst → Prop) :
  truncating P ad O c' W' I' s →
  (∀ I2 s', truncating P (λ k, if decide (k = i) then 0 else ad k) O c' W' I2 s' → Q tt s') → wp (upd_inode ip (with_addr i 0)) Q s.
Proof.
  intros [T1 T2 T3 T4 T5 T6] HQ. eapply (txn_upd_inode E); [exact T1|]. intros s' Ht'. eapply HQ. split; [exact Ht'|done|done|..].
  - intros j Hj. rewrite fn_lookup_insert_ne //. by apply T4.
  - rewrite fn_lookup_insert {1}T5. done.
  - intros k Hk. rewrite fn_lookup_insert addr_of_with_addr. case_decide; [done|]. by apply T6.
Qed.

(** The direct blocks. *)
Lemma wp_trunc_direct s (Q : unit → fsst → Prop) :
  txn E c W ∅ I s →
  (∀ c' W' I' s', truncating (direct_blocks x NDIRECT) (λ k, if decide (k < NDIRECT) then 0 else addr_of x k) ∅ c' W' I' s' → Q tt s') →
  wp (for_upto 0 NDIRECT (λ i,
    x ← inode_at ip;
    if negb (addr_of x i =? 0) then
      bfree (i_dev x) (addr_of x i);;
      upd_inode ip (with_addr i 0)
    else mret tt)) Q s.
Proof.
  intros Ht HQ. apply (wp_for_upto (λ i s', ∃ c' W' I',
    truncating (direct_blocks x i) (λ k, if decide (k < i) then 0 else addr_of x k) ∅ c' W' I' s')); [lia| | |].
  - exists c, W, I. split; [done| |by left|done|by destruct (I ip)|intros k Hk; rewrite decide_False //; lia].
    split; [|done]. intros n Hn. split; [|tauto]. intros Hu. split; [done|]. intros [_ (k & Hk & _)]. lia.
  - intros i s1 Hi (c1 & W1 & I1 & HT). apply wp_bind. eapply (txn_inode E); [apply HT|].
    rewrite (tg_addr _ _ _ _ _ _ _ HT); [|lia]. rewrite decide_False; [|lia].
    assert (∀ k, 0 ≤ k ≤ NDIRECT → (if decide (k = i) then 0 else if decide (k < i) then 0 else addr_of x k) =
      (if decide (k < i + 1) then 0 else addr_of x k)) as Had.
    { intros k Hk. repeat case_decide; try done; lia. }
    destruct (Z.eqb_spec (addr_of x i) 0) as [E0|Hne]; simpl negb; cbv iota.
    + apply wp_ret. exists c1, W1, I1. eapply truncating_ext; [| |exact HT].
      * intros n. rewrite direct_blocks_next; [|lia]. rewrite E0. tauto.
      * intros k Hk. repeat case_decide; try done; (assert (k = i) as -> by lia; done).
    + rewrite (tg_inode _ _ _ _ _ _ _ HT) /= (iw_dev _ _ _ Hw).
      assert (faddr c x i = addr_of x i) as Ef by (rewrite /faddr (proj2 (Z.ltb_lt _ _)) //; lia).
      apply wp_bind. eapply wp_trunc_free; [exact HT| | |done|rewrite map_size_empty; lia|].
      * rewrite -Ef. apply Hw; [lia|by rewrite Ef].
      * intros [_ (k & Hk & E1)]. assert (k = i); [|lia]. apply (iw_inj _ _ _ Hw); [lia|lia| |].
        -- rewrite /faddr (proj2 (Z.ltb_lt _ _)); [|lia]. by rewrite E1.
        -- rewrite Ef /faddr (proj2 (Z.ltb_lt _ _)); [done|lia].
      * intros c2 W2 s2 HT2 _. eapply wp_trunc_addr; [exact HT2|]. intros I3 s3 HT3. exists c2, W2, I3.
        eapply truncating_ext; [|exact Had|exact HT3]. intros n. rewrite direct_blocks_next; [|lia]. split; [|tauto].
        intros [?| ->]; [by left|by right].
  - intros s' (c' & W' & I' & HT). by eapply HQ.
Qed.

Lemma data_home n : is_data sb0 c n → ¬ in_bitmap sb0 n.
Proof. intros [Hr _]. pose proof (geometry_pos E Hg). rewrite /in_bitmap. lia. Qed.

Lemma entry_faddr j : 0 ≤ j < NINDIRECT → faddr c x (j + NDIRECT) = ind_entry c x j.
Proof. intros Hj. rewrite /faddr (proj2 (Z.ltb_ge _ _)); [|lia]. by rewrite Z.add_simpl_r. Qed.

(** The blocks of the indirect block [a], which is in buffer [bp]. *)
Lemma wp_trunc_entries a bp ad c1 W1 I1 s (Q : unit → fsst → Prop) :
  a = addr_of x NDIRECT → a ≠ 0 → truncating (direct_blocks x NDIRECT) ad {[ a := bp ]} c1 W1 I1 s →
  (∀ c' W' s', truncating (λ n, direct_blocks x NDIRECT n ∨ entry_blocks c x NINDIRECT n) ad {[ a := bp ]} c' W' I1 s' →
     (∀ m, m ∈ W1 → m ∈ W') → Q tt s') →
  wp (for_upto 0 NINDIRECT (λ j,
    d ← get_data bp;
    if negb (ld32 d (4 * j) =? 0) then bfree ROOTDEV (ld32 d (4 * j)) else mret tt)) Q s.
Proof.
  intros Ea Hne HT0 HQ. assert (is_data sb0 c a) as Hda by (rewrite Ea; apply Hw; by rewrite -Ea).
  apply (wp_for_upto (λ j s', ∃ c' W', truncating (λ n, direct_blocks x NDIRECT n ∨ entry_blocks c x j n) ad {[ a := bp ]} c' W' I1 s' ∧
    ∀ m, m ∈ W1 → m ∈ W')); [lia| | |].
  - exists c1, W1. split; [|done]. eapply truncating_ext; [|done|exact HT0]. intros n. split; [by left|]. intros [?|[_ (k & Hk & _)]]; [done|lia].
  - intros j s1 Hj (c2 & W2 & HT & HW). apply wp_bind. eapply (txn_get E); [apply HT|apply lookup_insert_eq|].
    rewrite (fd_frame _ _ _ _ (tg_freed _ _ _ _ _ _ _ HT)); [|by apply data_home].
    assert (ld32 (c a) (4 * j) = ind_entry c x j) as -> by (rewrite /ind_entry -Ea (proj2 (Z.eqb_neq _ _) Hne) //).
    pose proof (entry_faddr j Hj) as Ef. destruct (Z.eqb_spec (ind_entry c x j) 0) as [E0|Hn0]; simpl negb; cbv iota.
    + apply wp_ret. exists c2, W2. split; [|done]. eapply truncating_ext; [|done|exact HT]. intros n. rewrite entry_blocks_next; [|lia]. rewrite E0. tauto.
    + eapply wp_trunc_free; [exact HT| | | |by rewrite map_size_singleton|].
      * rewrite -Ef. apply (iw_data _ _ _ Hw); [lia|by rewrite Ef].
      * intros [[_ (k & Hk & E1)]|[_ (k & Hk & E1)]].
        -- assert (k = j + NDIRECT); [|lia]. assert (faddr c x k = addr_of x k) as Ek by (rewrite /faddr (proj2 (Z.ltb_lt _ _)) //; lia).
           apply (iw_inj _ _ _ Hw); [lia|lia|by rewrite Ek E1|by rewrite Ek E1 Ef].
        -- assert (k + NDIRECT = j + NDIRECT); [|lia]. apply (iw_inj _ _ _ Hw); [lia|lia|rewrite entry_faddr; [by rewrite E1|lia]|].
           rewrite entry_faddr; [by rewrite E1 Ef|lia].
      * intros m Hm. apply lookup_singleton_ne. intros <-. by apply (data_home a).
      * intros c3 W3 s3 HT3 HW3. exists c3, W3. split; [|auto]. eapply truncating_ext; [|done|exact HT3].
        intros n. rewrite entry_blocks_next; [|lia]. split; [|tauto]. intros [[?|?]| ->]; tauto.
  - intros s' (c' & W' & HT & HW). by eapply HQ.
Qed.

(** The rest of the blocks. *)
Lemma wp_trunc_indirect c1 W1 I1 s (Q : unit → fsst → Prop) :
  truncating (direct_blocks x NDIRECT) (λ k, if decide (k < NDIRECT) then 0 else addr_of x k) ∅ c1 W1 I1 s →
  (∀ c' W' I' s', truncating (block_of c x) (λ _, 0) ∅ c' W' I' s' → Q tt s') →
  wp (if negb (addr_of (I1 ip) NDIRECT =? 0) then
        bp ← bread (i_dev (I1 ip)) (addr_of (I1 ip) NDIRECT);
        for_upto 0 NINDIRECT (λ j,
          a ← get_data bp;
          if negb (ld32 a (4 * j) =? 0) then bfree (i_dev (I1 ip)) (ld32 a (4 * j)) else mret tt);;
        brelse bp;;
        bfree (i_dev (I1 ip)) (addr_of (I1 ip) NDIRECT);;
        upd_inode ip (with_addr NDIRECT 0)
      else mret tt) Q s.
Proof.
  intros HT HQ.
  assert (addr_of (I1 ip) NDIRECT = addr_of x NDIRECT) as Ea by (rewrite (tg_addr _ _ _ _ _ _ _ HT); [done|lia]).
  assert (i_dev (I1 ip) = ROOTDEV) as -> by (rewrite (tg_inode _ _ _ _ _ _ _ HT); apply Hw). rewrite Ea. destruct (Z.eqb_spec (addr_of x NDIRECT) 0) as [E0|Hne]; simpl negb; cbv iota.
  { apply wp_ret. eapply HQ. eapply truncating_ext; [| |exact HT].
    - intros n. rewrite block_of_parts E0. split; [tauto|]. intros [[?|[Hn (k & _ & Ek)]]|[? ?]]; [done| |done].
      rewrite /ind_entry E0 /= in Ek. congruence.
    - intros k Hk. cbv beta. case_decide; [done|]. assert (k = NDIRECT) as -> by lia. done. }
  set (a := addr_of x NDIRECT) in *. assert (is_data sb0 c a) as Hda by (by apply Hw). pose proof (data_home a Hda) as Hnb.
  pose proof (truncating_budget _ _ _ _ _ _ _ HT) as Hb1. pose proof HT as [T1 T2 T3 T4 T5 T6].
  apply wp_bind. eapply (txn_bread E); [exact T1|done|by eapply budget_le|rewrite map_size_empty; lia|]. intros bp s2 Ht2 Hcl.
  rewrite (fd_frame _ _ _ _ T2) // in Hcl. apply wp_bind.
  eapply (wp_trunc_entries a bp); [done|done|by split|]. intros c3 W3 s3 HT3 HW3. pose proof HT3 as [T1' T2' _ _ _ _].
  apply wp_bind. eapply (txn_brelse E); [exact T1'|apply lookup_insert_eq| |].
  { rewrite (fd_frame _ _ _ _ T2') //. destruct Hcl; [left|right]; auto. }
  intros s4 Ht4. rewrite delete_insert_id // in Ht4. apply wp_bind.
  eapply wp_trunc_free; [by split; [exact Ht4|apply HT3..]|done| |done|rewrite map_size_empty; lia|].
  { intros [[_ (k & Hk & E1)]|[_ (k & Hk & E1)]].
    - assert (faddr c x k = addr_of x k) as Ek by (rewrite /faddr (proj2 (Z.ltb_lt _ _)) //; lia).
      destruct (iw_data _ _ _ Hw k ltac:(lia)) as [_ H]; [by rewrite Ek E1|]. apply H. by rewrite Ek.
    - destruct (iw_data _ _ _ Hw (k + NDIRECT) ltac:(lia)) as [_ H]; [rewrite entry_faddr; [by rewrite E1|lia]|]. apply H.
      rewrite entry_faddr; [done|lia]. }
  intros c5 W5 s5 HT5 _. eapply wp_trunc_addr; [exact HT5|]. intros I6 s6 HT6. eapply HQ. eapply truncating_ext; [| |exact HT6].
  - intros n. rewrite block_of_parts. fold a. split; [|tauto]. intros [?| ->]; tauto.
  - intros k Hk. cbv beta. case_decide; [done|]. rewrite T6 // decide_True //. lia.
Qed.

(** What [itrunc] leaves of the file [x]. *)
Record truncated (c' : Z → block) (x' : inode) : Prop := {
  tn_free : ∀ n, 0 ≤ n < sb_size sb0 → used sb0 c' n = true ↔ used sb0 c n = true ∧ ¬ block_of c x n;
  tn_inode : x' = with_size 0 (with_addrs (i_addrs x') x);
  tn_addr : ∀ k, 0 ≤ k ≤ NDIRECT → addr_of x' k = 0;
  tn_disk : on_disk sb0 c' x';
  tn_inodes : ∀ y, 0 ≤ i_inum y < sb_ninodes sb0 → i_inum y ≠ i_inum x → on_disk sb0 c y → on_disk sb0 c' y;
  tn_others : ∀ y, inode_wf sb0 c y → (∀ n, block_of c y n → ¬ block_of c x n) →
    inode_wf sb0 c' y ∧ ∀ i, 0 ≤ i < MAXFILE * BSIZE → fbyte c' y i = fbyte c y i;
}.

Lemma freed_others c' y :
  freed sb0 c c' (block_of c x) → inode_wf sb0 c y → (∀ n, block_of c y n → ¬ block_of c x n) →
  inode_wf sb0 c' y ∧ ∀ i, 0 ≤ i < MAXFILE * BSIZE → fbyte c' y i = fbyte c y i.
Proof.
  intros [F1 F2] Hy Hdis. assert (∀ n, block_of c y n → c' n = c n ∧ used sb0 c' n = true) as H.
  { intros n Hn. assert (is_data sb0 c n) as Hd.
    { destruct Hn as [Hn [->|(k & Hk & <-)]]; [by apply Hy|by apply (iw_data _ _ _ Hy)]. }
    pose proof (geometry_pos E Hg). split; [apply F2, data_home, Hd|]. destruct Hd as [Hr Hu]. apply F1; [lia|]. split; [done|by apply Hdis]. }
  split; [eapply agree_wf; [exact Hy|intros n Hn; by apply H..]|]. apply agree_byte. intros n Hn. by apply H.
Qed.

Lemma freed_iupdate c' x' :
  freed sb0 c c' (block_of c x) → inode_fits x → 0 ≤ i_inum x < sb_ninodes sb0 →
  x' = with_size 0 (with_addrs (i_addrs x') x) → (∀ k, 0 ≤ k ≤ NDIRECT → addr_of x' k = 0) → truncated (iupd_cont E x' c') x'.
Proof.
  intros HF [T1 T2 T3 T4 T5 T6] Hi Ex Ha. assert (i_inum x' = i_inum x) as Ei by (rewrite Ex; done). rewrite -Ei in Hi. split; [|done|done|..].
  - intros n Hn. rewrite iupd_used //. by apply HF.
  - apply iupd_on_disk. split; [by rewrite Ex..|]. intros k Hk. rewrite Ha //.
  - intros y Hy Hne Hd. apply iupd_other; [done|done|done|congruence|]. rewrite /on_disk (fd_frame _ _ _ _ HF) //.
    destruct (IBLOCK_eq E Hg _ Hy) as [_ Hib]. destruct (iblock_home E Hg _ Hib) as (_ & H & _). done.
  - intros y Hy Hdis. destruct (freed_others c' y HF Hy Hdis) as [Hy' Hby]. split; [by apply iupd_wf|].
    intros i Hir. rewrite iupd_byte //. by apply Hby.
Qed.

(** C21: [itrunc] frees the blocks of a file, all of them and no others, on a
    disk whose bitmap is one block ([sb_size] at most [BPB], 8192 blocks): a
    block of the disk is in use afterwards exactly if it was and is not a
    block of the file.  The inode, in memory and on the disk, has size 0 and no
    blocks and its other fields as before; the other inodes on the disk and the
    bytes of the files with other blocks are as they were, and so is every
    other entry of the inode table. *)
Theorem itrunc_spec s :
  txn E c W ∅ I s → inode_fits x → 0 ≤ i_inum x < sb_ninodes sb0 →
  wp (itrunc ip) (λ _ s', ∃ c' W' I', txn E c' W' ∅ I' s' ∧ truncated c' (I' ip) ∧ ∀ j, j ≠ ip → I' j = I j) s.
Proof.
  intros Ht Hfit Hi. rewrite /itrunc. apply wp_bind, wp_trunc_direct; [done|]. intros c1 W1 I1 s1 HT1.
  apply wp_bind. eapply (txn_inode E); [apply HT1|]. apply wp_bind. eapply wp_trunc_indirect; [exact HT1|]. intros c2 W2 I2 s2 HT2.
  pose proof (truncating_budget _ _ _ _ _ _ _ HT2) as Hb1. destruct HT2 as [U1 U2 U3 U4 U5 U6].
  apply wp_bind. eapply (txn_upd_inode E); [exact U1|]. intros s3 Ht3. set (I3 := <[ip := _]> I2) in Ht3.
  assert (I3 ip = with_size 0 (I2 ip)) as E3 by apply fn_lookup_insert.
  eapply (wp_iupdate E Hg); [exact Ht3|done|rewrite E3 U5; apply Hw|rewrite E3 U5; done|].
  intros s4 Ht4. eexists _, _, I3. split; [exact Ht4|]. split.
  - apply freed_iupdate; [done|done|done| |].
    + rewrite E3 {1}U5. done.
    + intros k Hk. rewrite E3. by apply U6.
  - intros j Hj. rewrite /I3 fn_lookup_insert_ne //. by apply U4.
Qed.
End itrunc.
