(* ===== verification/Itable.v ===== *)
(** * The inode table (kernel/fs.c: iget, iput)

    [iget] and [iput] inside a transaction: which entry of the table [iget]
    returns, and that an [iput] of it gives back what it took. *)

From stdpp Require Import functions list.
From S2P Require Import Prelude Mem Cstring Spinlock Sleeplock Bio Bcache Log LogCrash Txn Fs Balloc Bmap.

Local Open Scope Z_scope.

(** The entry is in use for inode [inum] of device [d]. *)
Definition icached (x : inode) (d inum : Z) : bool := (0 <? i_ref x) && (i_dev x =? d) && (i_inum x =? inum).

(** The entry that [iget] makes. *)
Definition ifresh (d inum : Z) (x : inode) : inode :=
  mk_inode d inum 1 (i_lock x) false (i_type x) (i_major x) (i_minor x) (i_nlink x) (i_size x) (i_addrs x).

(** [iget] has a place for the inode. *)
Definition itable_room (I : Z → inode) : Prop := ∃ j, 0 ≤ j < NINODE ∧ i_ref (I j) = 0.

(** [iget] returns entry [ip] and makes the table [I'] of [I]. *)
Record igot (I : Z → inode) (d inum ip : Z) (I' : Z → inode) : Prop := {
  ig_slot : 0 ≤ ip < NINODE;
  ig_table : (icached (I ip) d inum = true ∧ upd_at I ip (with_iref (i_ref (I ip) + 1) (I ip)) I') ∨
    (i_ref (I ip) = 0 ∧ (∀ j, 0 ≤ j < NINODE → icached (I j) d inum = false) ∧ upd_at I ip (ifresh d inum (I ip)) I');
}.

Section itable.
Context (E : fsst) (Hk : ITABLE ∉ fheld E).

Lemma wp_iget_scan I d inum s (Q : option Z * option Z → fsst → Prop) : inodes s = I → ∀ fuel ip empty,
  (∀ e, empty = Some e → 0 ≤ e < NINODE ∧ i_ref (I e) = 0) → 0 ≤ ip → ip + Z.of_nat fuel = NINODE →
  (∀ j, 0 ≤ j < ip → icached (I j) d inum = false) →
  (empty = None → ∃ j, ip ≤ j < NINODE ∧ i_ref (I j) = 0) →
  (∀ j e, 0 ≤ j < NINODE → icached (I j) d inum = true → Q (Some j, e) s) →
  (∀ e, 0 ≤ e < NINODE → i_ref (I e) = 0 → (∀ j, 0 ≤ j < NINODE → icached (I j) d inum = false) → Q (None, Some e) s) →
  wp (iget_scan fuel ip d inum empty) Q s.
Proof.
  intros HI. induction fuel as [|fuel IH]; intros ip empty He H0 Hf Hno Hroom Q1 Q2.
  - apply wp_ret. destruct empty as [e|]; [|destruct (Hroom eq_refl) as (j & Hj & _); lia].
    destruct (He e eq_refl). apply Q2; [done..|]. intros j Hj. apply Hno. lia.
  - cbn [iget_scan]. apply wp_bind, wp_gets. rewrite HI. fold (icached (I ip) d inum).
    destruct (icached (I ip) d inum) eqn:Ec; [apply wp_ret, Q1; [lia|done]|]. eapply IH; [| |lia| | |done|done].
    + intros e. destruct empty as [e'|]; [by intros [= <-]; apply He|]. case_match eqn:E0; [|done]. intros [= <-].
      apply Z.eqb_eq in E0. split; [lia|done].
    + lia.
    + intros j Hj. destruct (decide (j = ip)) as [->|]; [done|]. apply Hno. lia.
    + destruct empty as [e'|]; [done|]. case_match eqn:E0; [done|]. apply Z.eqb_neq in E0. intros _.
      destruct (Hroom eq_refl) as (j & Hj & Hr). exists j. split; [|done]. destruct (decide (j = ip)); [congruence|lia].
Qed.

(** An update of an entry under the lock of the table. *)
Lemma txn_upd_locked c W O I s ip f (Q : unit → fsst → Prop) :
  txn E c W O I s → (∀ s', txn E c W O (<[ip := f (I ip)]> I) s' → Q tt s') →
  wp (upd_inode ip f) (λ _ s', wp (release ITABLE) Q s') (set_held ({[ITABLE]} ∪ held s) s).
Proof.
  intros Ht HQ. pose proof (tx_inodes _ _ _ _ _ _ Ht) as HI. destruct (tx_env _ _ _ _ _ _ Ht) as [_ Hh _ _ _ _].
  apply wp_modify, wp_release; [cbn; set_solver|]. eapply (txn_upd_inode E c W O I s ip f) in HQ; [|exact Ht]. revert HQ.
  rewrite /upd_inode /wp /=. match goal with |- Q tt ?x → Q tt ?y => assert (y = x) as -> end; [|done].
  destruct s. cbn in *. rewrite /set_inode /set_inodes /set_held /set_fheld /=. f_equal. set_solver.
Qed.

Lemma wp_iget c W O I s d inum (Q : Z → fsst → Prop) :
  txn E c W O I s → itable_room I →
  (∀ ip I' s', igot I d inum ip I' → txn E c W O I' s' → Q ip s') → wp (iget d inum) Q s.
Proof.
  intros Ht (j & Hj & Hr) HQ. destruct (tx_env _ _ _ _ _ _ Ht) as [_ Hh _ _ _ _]. rewrite /iget.
  apply wp_bind, wp_acquire; [by rewrite /held /= Hh|]. apply wp_bind.
  eapply (wp_iget_scan I); [apply (tx_inodes _ _ _ _ _ _ Ht)|done|lia|done|lia|by exists j|..].
  - intros ip e Hip Hc. apply wp_bind. eapply wp_mono; [eapply (txn_upd_locked _ _ _ _ _ _ _ (λ _ s', Q ip s')); [exact Ht|]|].
    + intros s' Ht'. exact (HQ ip _ s' (Build_igot _ _ _ _ _ Hip (or_introl (conj Hc (upd_at_insert _ _ _)))) Ht').
    + intros [] s' Hw. by apply wp_bind.
  - intros ip Hip H0 Hno. apply wp_bind. eapply wp_mono; [eapply (txn_upd_locked _ _ _ _ _ _ _ (λ _ s', Q ip s')); [exact Ht|]|].
    + intros s' Ht'. exact (HQ ip _ s' (Build_igot _ _ _ _ _ Hip (or_intror (conj H0 (conj Hno (upd_at_insert _ _ _))))) Ht').
    + intros [] s' Hw. by apply wp_bind.
Qed.

Lemma wp_idup c W O I s ip (Q : Z → fsst → Prop) :
  txn E c W O I s → (∀ s', txn E c W O (<[ip := with_iref (i_ref (I ip) + 1) (I ip)]> I) s' → Q ip s') → wp (idup ip) Q s.
Proof.
  intros Ht HQ. destruct (tx_env _ _ _ _ _ _ Ht) as [_ Hh _ _ _ _]. rewrite /idup.
  apply wp_bind, wp_acquire; [by rewrite /held /= Hh|]. apply wp_bind.
  eapply wp_mono; [eapply (txn_upd_locked _ _ _ _ _ _ _ (λ _ s', Q ip s')); [exact Ht|done]|]. intros [] s' Hw. by apply wp_bind.
Qed.

(** [iput] of an entry that is not the last reference to an inode without
    links. *)
Lemma wp_iput c W O I s ip (Q : unit → fsst → Prop) :
  txn E c W O I s → (i_ref (I ip) =? 1) && i_valid (I ip) && (i_nlink (I ip) =? 0) = false →
  (∀ s', txn E c W O (<[ip := with_iref (i_ref (I ip) - 1) (I ip)]> I) s' → Q tt s') → wp (iput ip) Q s.
Proof.
  intros Ht Hl HQ. destruct (tx_env _ _ _ _ _ _ Ht) as [_ Hh _ _ _ _]. rewrite /iput.
  apply wp_bind, wp_acquire; [by rewrite /held /= Hh|]. apply wp_bind, wp_gets. cbn [inodes set_held fsst_locks set_fheld].
  rewrite (tx_inodes _ _ _ _ _ _ Ht) Hl. apply wp_bind, wp_ret, wp_bind. by eapply txn_upd_locked.
Qed.

(** [iput] after [iget]: the entries in use are as before. *)
Lemma igot_put c W O I d inum ip I' s (Q : unit → fsst → Prop) :
  igot I d inum ip I' → txn E c W O I' s →
  (∀ I2 s', (∀ j, 0 < i_ref (I j) → I2 j = I j) → txn E c W O I2 s' → Q tt s') → wp (iput ip) Q s.
Proof.
  intros [Hs Hg] Ht HQ. eapply wp_iput; [exact Ht| |].
  - destruct Hg as [[Hc [-> _]]|(_ & _ & [-> _])]; [|done]. rewrite /icached in Hc. simpl. lia.
  - intros s' Ht'. eapply HQ; [|exact Ht']. intros j Hj. destruct (decide (j = ip)) as [->|Hne].
    + rewrite fn_lookup_insert. destruct Hg as [[_ [-> _]]|(H0 & _)]; [|lia]. simpl. destruct (I ip). rewrite /with_iref /=. f_equal. lia.
    + rewrite fn_lookup_insert_ne //. destruct Hg as [[_ [_ H]]|(_ & _ & [_ H])]; by apply H.
Qed.
End itable.
