(* ===== verification/Virtio.v ===== *)
(** * The virtio disk driver (kernel/virtio_disk.c, kernel/virtio.h)

    The driver's descriptors and rings, the buffers as far as the driver uses
    them, and the device behind the rings.  A descriptor's address is one of
    the three things the driver points it at.  The device (Sections 2.6 and 5.2
    of the virtio specification) takes the heads of chains from the avail ring
    in order ([fetch]) and finishes the chains it took in any order
    ([complete]): it moves the block between the buffer and the disk, writes
    the status and adds the head to the used ring.

    [virtio_disk_rw] sleeps until a descriptor is free and until its request
    is done; what happens meanwhile is the parameter [env]. *)

From stdpp Require Import functions list.
From S2P Require Import Prelude Mem Cstring Spinlock Sleeplock Bio.

Local Open Scope Z_scope.

Notation NUM := 8.
Notation VRING_DESC_F_NEXT := 1.
Notation VRING_DESC_F_WRITE := 2.
Notation VIRTIO_BLK_T_IN := 0.
Notation VIRTIO_BLK_T_OUT := 1.
Notation VIRTIO_MMIO_QUEUE_NOTIFY := 0x050.

(** [&disk.ops[h]], [b->data], [&disk.info[h].status] *)
Inductive daddr := ANull | AReq (h : Z) | AData (b : Z) | AStatus (h : Z).

(** What the driver sleeps on: [&disk.free[0]] or a buffer. *)
Inductive vchan := VFree | VBuf (b : Z).

(** [struct virtq_desc] *)
Record vdesc := mk_vdesc {
  d_addr : daddr;
  d_len : Z;
  d_flags : Z;
  d_next : Z;
}.

(** [struct virtio_blk_req] *)
Record blk_req := mk_blk_req { r_type : Z; r_reserved : Z; r_sector : Z }.

(** [struct disk] with its three shared rings, the buffers, and the device. *)
Record vdisk := mk_vdisk {
  v_desc : Z → vdesc;  (** [disk.desc] *)
  v_ring : Z → Z;  (** [disk.avail->ring] *)
  v_avail : Z;  (** [disk.avail->idx] *)
  v_uring : Z → Z;  (** [disk.used->ring[].id] *)
  v_used : Z;  (** [disk.used->idx] *)
  v_free : Z → bool;  (** [disk.free] *)
  v_used_idx : Z;  (** [disk.used_idx] *)
  v_info_b : Z → option Z;  (** [disk.info[].b] *)
  v_status : Z → Z;  (** [disk.info[].status] *)
  v_ops : Z → blk_req;  (** [disk.ops] *)
  v_busy : Z → bool;  (** [b->disk] *)
  v_blockno : Z → Z;  (** [b->blockno] *)
  v_data : Z → block;  (** [b->data] *)
  v_regs : gmap Z Z;  (** the MMIO registers *)
  v_woken : list vchan;  (** the channels woken, newest first *)
  v_held : gset lockid;
  v_seen : Z;  (** the device: how far it looked in the avail ring *)
  v_fetched : list Z;  (** the device: the requests it works on *)
  v_blocks : gmap Z block;  (** the device: the blocks of the disk *)
}.

Definition set_v_desc (v : Z → vdesc) (s : vdisk) : vdisk :=
  mk_vdisk v (v_ring s) (v_avail s) (v_uring s) (v_used s) (v_free s) (v_used_idx s) (v_info_b s) (v_status s)
    (v_ops s) (v_busy s) (v_blockno s) (v_data s) (v_regs s) (v_woken s) (v_held s) (v_seen s) (v_fetched s)
    (v_blocks s).
Definition set_v_ring (v : Z → Z) (s : vdisk) : vdisk :=
  mk_vdisk (v_desc s) v (v_avail s) (v_uring s) (v_used s) (v_free s) (v_used_idx s) (v_info_b s) (v_status s)
    (v_ops s) (v_busy s) (v_blockno s) (v_data s) (v_regs s) (v_woken s) (v_held s) (v_seen s) (v_fetched s)
    (v_blocks s).
Definition set_v_avail (v : Z) (s : vdisk) : vdisk :=
  mk_vdisk (v_desc s) (v_ring s) v (v_uring s) (v_used s) (v_free s) (v_used_idx s) (v_info_b s) (v_status s)
    (v_ops s) (v_busy s) (v_blockno s) (v_data s) (v_regs s) (v_woken s) (v_held s) (v_seen s) (v_fetched s)
    (v_blocks s).
Definition set_v_uring (v : Z → Z) (s : vdisk) : vdisk :=
  mk_vdisk (v_desc s) (v_ring s) (v_avail s) v (v_used s) (v_free s) (v_used_idx s) (v_info_b s) (v_status s)
    (v_ops s) (v_busy s) (v_blockno s) (v_data s) (v_regs s) (v_woken s) (v_held s) (v_seen s) (v_fetched s)
    (v_blocks s).
Definition set_v_used (v : Z) (s : vdisk) : vdisk :=
  mk_vdisk (v_desc s) (v_ring s) (v_avail s) (v_uring s) v (v_free s) (v_used_idx s) (v_info_b s) (v_status s)
    (v_ops s) (v_busy s) (v_blockno s) (v_data s) (v_regs s) (v_woken s) (v_held s) (v_seen s) (v_fetched s)
    (v_blocks s).
Definition set_v_free (v : Z → bool) (s : vdisk) : vdisk :=
  mk_vdisk (v_desc s) (v_ring s) (v_avail s) (v_uring s) (v_used s) v (v_used_idx s) (v_info_b s) (v_status s)
    (v_ops s) (v_busy s) (v_blockno s) (v_data s) (v_regs s) (v_woken s) (v_held s) (v_seen s) (v_fetched s)
    (v_blocks s).
Definition set_v_used_idx (v : Z) (s : vdisk) : vdisk :=
  mk_vdisk (v_desc s) (v_ring s) (v_avail s) (v_uring s) (v_used s) (v_free s) v (v_info_b s) (v_status s)
    (v_ops s) (v_busy s) (v_blockno s) (v_data s) (v_regs s) (v_woken s) (v_held s) (v_seen s) (v_fetched s)
    (v_blocks s).
Definition set_v_info_b (v : Z → option Z) (s : vdisk) : vdisk :=
  mk_vdisk (v_desc s) (v_ring s) (v_avail s) (v_uring s) (v_used s) (v_free s) (v_used_idx s) v (v_status s)
    (v_ops s) (v_busy s) (v_blockno s) (v_data s) (v_regs s) (v_woken s) (v_held s) (v_seen s) (v_fetched s)
    (v_blocks s).
Definition set_v_status (v : Z → Z) (s : vdisk) : vdisk :=
  mk_vdisk (v_desc s) (v_ring s) (v_avail s) (v_uring s) (v_used s) (v_free s) (v_used_idx s) (v_info_b s) v
    (v_ops s) (v_busy s) (v_blockno s) (v_data s) (v_regs s) (v_woken s) (v_held s) (v_seen s) (v_fetched s)
    (v_blocks s).
Definition set_v_ops (v : Z → blk_req) (s : vdisk) : vdisk :=
  mk_vdisk (v_desc s) (v_ring s) (v_avail s) (v_uring s) (v_used s) (v_free s) (v_used_idx s) (v_info_b s)
    (v_status s) v (v_busy s) (v_blockno s) (v_data s) (v_regs s) (v_woken s) (v_held s) (v_seen s) (v_fetched
    s) (v_blocks s).
Definition set_v_busy (v : Z → bool) (s : vdisk) : vdisk :=
  mk_vdisk (v_desc s) (v_ring s) (v_avail s) (v_uring s) (v_used s) (v_free s) (v_used_idx s) (v_info_b s)
    (v_status s) (v_ops s) v (v_blockno s) (v_data s) (v_regs s) (v_woken s) (v_held s) (v_seen s) (v_fetched
    s) (v_blocks s).
Definition set_v_blockno (v : Z → Z) (s : vdisk) : vdisk :=
  mk_vdisk (v_desc s) (v_ring s) (v_avail s) (v_uring s) (v_used s) (v_free s) (v_used_idx s) (v_info_b s)
    (v_status s) (v_ops s) (v_busy s) v (v_data s) (v_regs s) (v_woken s) (v_held s) (v_seen s) (v_fetched s)
    (v_blocks s).
Definition set_v_data (v : Z → block) (s : vdisk) : vdisk :=
  mk_vdisk (v_desc s) (v_ring s) (v_avail s) (v_uring s) (v_used s) (v_free s) (v_used_idx s) (v_info_b s)
    (v_status s) (v_ops s) (v_busy s) (v_blockno s) v (v_regs s) (v_woken s) (v_held s) (v_seen s) (v_fetched
    s) (v_blocks s).
Definition set_v_regs (v : gmap Z Z) (s : vdisk) : vdisk :=
  mk_vdisk (v_desc s) (v_ring s) (v_avail s) (v_uring s) (v_used s) (v_free s) (v_used_idx s) (v_info_b s)
    (v_status s) (v_ops s) (v_busy s) (v_blockno s) (v_data s) v (v_woken s) (v_held s) (v_seen s) (v_fetched
    s) (v_blocks s).
Definition set_v_woken (v : list vchan) (s : vdisk) : vdisk :=
  mk_vdisk (v_desc s) (v_ring s) (v_avail s) (v_uring s) (v_used s) (v_free s) (v_used_idx s) (v_info_b s)
    (v_status s) (v_ops s) (v_busy s) (v_blockno s) (v_data s) (v_regs s) v (v_held s) (v_seen s) (v_fetched
    s) (v_blocks s).
Definition set_v_held (v : gset lockid) (s : vdisk) : vdisk :=
  mk_vdisk (v_desc s) (v_ring s) (v_avail s) (v_uring s) (v_used s) (v_free s) (v_used_idx s) (v_info_b s)
    (v_status s) (v_ops s) (v_busy s) (v_blockno s) (v_data s) (v_regs s) (v_woken s) v (v_seen s) (v_fetched
    s) (v_blocks s).
Definition set_v_seen (v : Z) (s : vdisk) : vdisk :=
  mk_vdisk (v_desc s) (v_ring s) (v_avail s) (v_uring s) (v_used s) (v_free s) (v_used_idx s) (v_info_b s)
    (v_status s) (v_ops s) (v_busy s) (v_blockno s) (v_data s) (v_regs s) (v_woken s) (v_held s) v (v_fetched
    s) (v_blocks s).
Definition set_v_fetched (v : list Z) (s : vdisk) : vdisk :=
  mk_vdisk (v_desc s) (v_ring s) (v_avail s) (v_uring s) (v_used s) (v_free s) (v_used_idx s) (v_info_b s)
    (v_status s) (v_ops s) (v_busy s) (v_blockno s) (v_data s) (v_regs s) (v_woken s) (v_held s) (v_seen s) v
    (v_blocks s).
Definition set_v_blocks (v : gmap Z block) (s : vdisk) : vdisk :=
  mk_vdisk (v_desc s) (v_ring s) (v_avail s) (v_uring s) (v_used s) (v_free s) (v_used_idx s) (v_info_b s)
    (v_status s) (v_ops s) (v_busy s) (v_blockno s) (v_data s) (v_regs s) (v_woken s) (v_held s) (v_seen s)
    (v_fetched s) v.

#[global, refine] Instance vdisk_locks : HasLocks vdisk := {| held := v_held; set_held := set_v_held |}.
Proof. all: by intros; try destruct s. Defined.

Definition set_desc (i : Z) (d : vdesc) : M vdisk unit := modify (λ s, set_v_desc (<[i := d]> (v_desc s)) s).
Definition set_free (i : Z) (f : bool) : M vdisk unit := modify (λ s, set_v_free (<[i := f]> (v_free s)) s).
Definition vwakeup (c : vchan) : M vdisk unit := modify (λ s, set_v_woken (c :: v_woken s) s).

(** ** Descriptors *)

Fixpoint alloc_desc_loop (n : nat) (i : Z) : M vdisk Z :=
  match n with
  | O => mret (-1)
  | S n' =>
      f ← gets (λ s, v_free s i);
      if f : bool then
        set_free i false;;
        mret i
      else alloc_desc_loop n' (i + 1)
  end.

Definition alloc_desc : M vdisk Z := alloc_desc_loop (Z.to_nat NUM) 0.

Definition free_desc (i : Z) : M vdisk unit :=
  if NUM <=? i then panic "free_desc 1"
  else
    f ← gets (λ s, v_free s i);
    if f : bool then panic "free_desc 2"
    else
      set_desc i (mk_vdesc ANull 0 0 0);;
      set_free i true;;
      vwakeup VFree.

(** A chain is never longer than the table. *)
Fixpoint free_chain_loop (fuel : nat) (i : Z) : M vdisk unit :=
  match fuel with
  | O => out_of_fuel
  | S fuel' =>
      d ← gets (λ s, v_desc s i);
      free_desc i;;
      if negb (Z.land (d_flags d) VRING_DESC_F_NEXT =? 0) then free_chain_loop fuel' (d_next d)
      else mret tt
  end.

Definition free_chain (i : Z) : M vdisk unit := free_chain_loop (Z.to_nat NUM) i.

(** [for(int j = 0; j < i; j++) free_desc(idx[j]);] *)
Fixpoint free_all (l : list Z) : M vdisk unit :=
  match l with
  | [] => mret tt
  | i :: l => free_desc i;; free_all l
  end.

Fixpoint alloc3_loop (n : nat) (idx : list Z) : M vdisk (option (list Z)) :=
  match n with
  | O => mret (Some idx)
  | S n' =>
      i ← alloc_desc;
      if i <? 0 then
        free_all idx;;
        mret None
      else alloc3_loop n' (idx ++ [i])
  end.

(** The three indices, or [None] for -1. *)
Definition alloc3_desc : M vdisk (option (list Z)) := alloc3_loop 3 [].

(** ** Requests *)

(** The three descriptors of a request for buffer [b], its entry in the
    [info] table and in the avail ring. *)
Definition submit (b : Z) (write : bool) (sector i0 i1 i2 : Z) : M vdisk unit :=
  modify (λ s, set_v_ops (<[i0 := mk_blk_req (if write then VIRTIO_BLK_T_OUT else VIRTIO_BLK_T_IN) 0 sector]>
                            (v_ops s)) s);;
  set_desc i0 (mk_vdesc (AReq i0) 16 VRING_DESC_F_NEXT i1);;
  set_desc i1 (mk_vdesc (AData b) BSIZE (Z.lor (if write then 0 else VRING_DESC_F_WRITE) VRING_DESC_F_NEXT) i2);;
  modify (λ s, set_v_status (<[i0 := 0xff]> (v_status s)) s);;
  set_desc i2 (mk_vdesc (AStatus i0) 1 VRING_DESC_F_WRITE 0);;
  modify (λ s, set_v_busy (<[b := true]> (v_busy s)) s);;
  modify (λ s, set_v_info_b (<[i0 := Some b]> (v_info_b s)) s);;
  modify (λ s, set_v_ring (<[v_avail s mod NUM := i0]> (v_ring s)) s);;
  modify (λ s, set_v_avail ((v_avail s + 1) mod 2 ^ 16) s);;
  modify (λ s, set_v_regs (<[VIRTIO_MMIO_QUEUE_NOTIFY := 0]> (v_regs s)) s).

(** What follows the wait for the request. *)
Definition finish (i0 : Z) : M vdisk unit :=
  modify (λ s, set_v_info_b (<[i0 := None]> (v_info_b s)) s);;
  free_chain i0.

Section rw.
Context (env : M vdisk unit).

Definition vsleep : M vdisk unit :=
  release VDISK;;
  env;;
  acquire VDISK.

Fixpoint alloc_wait (fuel : nat) : M vdisk (list Z) :=
  match fuel with
  | O => out_of_fuel
  | S fuel' =>
      r ← alloc3_desc;
      match r with
      | Some idx => mret idx
      | None => vsleep;; alloc_wait fuel'
      end
  end.

Fixpoint done_wait (fuel : nat) (b : Z) : M vdisk unit :=
  match fuel with
  | O => out_of_fuel
  | S fuel' =>
      busy ← gets (λ s, v_busy s b);
      if busy : bool then vsleep;; done_wait fuel' b else mret tt
  end.

Definition virtio_disk_rw (fuel : nat) (b : Z) (write : bool) : M vdisk unit :=
  sector ← gets (λ s, u64 (u32 (v_blockno s b * (BSIZE / 512))));
  acquire VDISK;;
  idx ← alloc_wait fuel;
  match idx with
  | [i0; i1; i2] =>
      submit b write sector i0 i1 i2;;
      done_wait fuel b;;
      finish i0;;
      release VDISK
  | _ => undefined
  end.
End rw.

(** [while(disk.used_idx != disk.used->idx)]; the used ring has [NUM]
    entries. *)
Fixpoint intr_loop (fuel : nat) : M vdisk unit :=
  match fuel with
  | O => out_of_fuel
  | S fuel' =>
      s ← gets id;
      if v_used_idx s =? v_used s then mret tt
      else
        let id := v_uring s (v_used_idx s mod NUM) in
        if negb (v_status s id =? 0) then panic "virtio_disk_intr status"
        else
          match v_info_b s id with
          | None => undefined
          | Some b =>
              modify (λ s, set_v_busy (<[b := false]> (v_busy s)) s);;
              vwakeup (VBuf b);;
              modify (λ s, set_v_used_idx ((v_used_idx s + 1) mod 2 ^ 16) s);;
              intr_loop fuel'
          end
  end.

Notation VIRTIO_MMIO_INTERRUPT_STATUS := 0x060.
Notation VIRTIO_MMIO_INTERRUPT_ACK := 0x064.

Definition virtio_disk_intr : M vdisk unit :=
  acquire VDISK;;
  modify (λ s, set_v_regs
    (<[VIRTIO_MMIO_INTERRUPT_ACK := Z.land (default 0 (v_regs s !! VIRTIO_MMIO_INTERRUPT_STATUS)) 3]> (v_regs s)) s);;
  intr_loop (S (Z.to_nat NUM));;
  release VDISK.

(** ** The device *)

Definition fetch : M vdisk unit :=
  s ← gets id;
  if v_seen s =? v_avail s then mret tt
  else
    modify (λ s, set_v_fetched (v_ring s (v_seen s mod NUM) :: v_fetched s) s);;
    modify (λ s, set_v_seen ((v_seen s + 1) mod 2 ^ 16) s).

(** The move of the block that request [op] asks for, with the buffer [b]
    and the right [wr] to write to it. *)
Definition transfer (op : blk_req) (b : Z) (wr : bool) : M vdisk unit :=
  let n := r_sector op / 2 in
  if r_type op =? VIRTIO_BLK_T_OUT then modify (λ s, set_v_blocks (<[n := v_data s b]> (v_blocks s)) s)
  else if wr then modify (λ s, set_v_data (<[b := default ∅ (v_blocks s !! n)]> (v_data s)) s)
  else undefined.

(** The chain with head [h], which the device has taken. *)
Definition complete (h : Z) : M vdisk unit :=
  s ← gets id;
  let d0 := v_desc s h in
  let d1 := v_desc s (d_next d0) in
  let d2 := v_desc s (d_next d1) in
  match d_addr d0, d_addr d1, d_addr d2 with
  | AReq r, AData b, AStatus q =>
      if negb (Z.land (d_flags d0) VRING_DESC_F_NEXT =? 0) && negb (Z.land (d_flags d1) VRING_DESC_F_NEXT =? 0) then
        transfer (v_ops s r) b (negb (Z.land (d_flags d1) VRING_DESC_F_WRITE =? 0));;
        modify (λ s, set_v_status (<[q := 0]> (v_status s)) s);;
        modify (λ s, set_v_uring (<[v_used s mod NUM := h]> (v_uring s)) s);;
        modify (λ s, set_v_used ((v_used s + 1) mod 2 ^ 16) s);;
        modify (λ s, set_v_fetched (filter (λ x, x ≠ h) (v_fetched s)) s)
      else undefined
  | _, _, _ => undefined
  end.

(** The driver's variables before [virtio_disk_init], all zero. *)
Definition vdisk0 : vdisk :=
  mk_vdisk (λ _, mk_vdesc ANull 0 0 0) (λ _, 0) 0 (λ _, 0) 0 (λ _, false) 0 (λ _, None) (λ _, 0)
    (λ _, mk_blk_req 0 0 0) (λ _, false) (λ _, 0) (λ _, ∅) ∅ [] ∅ 0 [] ∅.
