(* ===== verification/VirtioSafe.v ===== *)
(** * The virtio disk driver and its device work together

    The requests in flight are a map [R] from the head descriptor to the
    request and how far it got.  [vinv] relates them to the driver's and the
    device's state.  Every action of the driver and of the device, in any
    order in which it can happen, keeps the invariant and moves data only as
    the request it serves asks for, and the driver panics only on an error
    that the device reports; a request made when the device is idle has the
    effect of one atomic disk operation, if the device does not fail it. *)

From stdpp Require Import functions list.
From S2P Require Import Prelude Mem Cstring Spinlock Sleeplock Bio Bcache Virtio.

Local Open Scope Z_scope.

(** ** Requests in flight *)

(** In the avail ring, taken by the device, in the used ring, seen by the
    interrupt handler. *)
Inductive phase := Queued | Fetched | Done | Seen.

#[global] Instance phase_eq_dec : EqDecision phase.
Proof. solve_decision. Defined.

(** [rq_st] is the status the device gave the request, once it is [Done]. *)
Record rq := mk_rq { rq_b : Z; rq_write : bool; rq_1 : Z; rq_2 : Z; rq_phase : phase; rq_st : Z }.

Definition idxs (h : Z) (r : rq) : list Z := [h; rq_1 r; rq_2 r].
Definition with_phase (p : phase) (r : rq) : rq := mk_rq (rq_b r) (rq_write r) (rq_1 r) (rq_2 r) p (rq_st r).
Definition with_st (st : Z) (r : rq) : rq := mk_rq (rq_b r) (rq_write r) (rq_1 r) (rq_2 r) (rq_phase r) st.

Definition data_flags (w : bool) : Z := Z.lor (if w then 0 else VRING_DESC_F_WRITE) VRING_DESC_F_NEXT.
Definition request (w : bool) (n : Z) : blk_req :=
  mk_blk_req (if w then VIRTIO_BLK_T_OUT else VIRTIO_BLK_T_IN) 0 (n * 2).

Record req_ok (s : vdisk) (h : Z) (r : rq) : Prop := {
  ro_d0 : v_desc s h = mk_vdesc (AReq h) 16 VRING_DESC_F_NEXT (rq_1 r);
  ro_d1 : v_desc s (rq_1 r) = mk_vdesc (AData (rq_b r)) BSIZE (data_flags (rq_write r)) (rq_2 r);
  ro_d2 : v_desc s (rq_2 r) = mk_vdesc (AStatus h) 1 VRING_DESC_F_WRITE 0;
  ro_range : ∀ i, i ∈ idxs h r → 0 ≤ i < NUM ∧ v_free s i = false;
  ro_nodup : NoDup (idxs h r);
  ro_info : v_info_b s h = Some (rq_b r);
  ro_busy : v_busy s (rq_b r) = bool_decide (rq_phase r ≠ Seen);
  ro_ops : v_ops s h = request (rq_write r) (v_blockno s (rq_b r));
  ro_status : rq_phase r = Done → v_status s h = rq_st r;
}.

(** The entries of a ring between the index [lo] of the one who reads it and
    the index [hi] of the one who fills it. *)
Record ring_has (f : Z → Z) (lo hi : Z) (l : list Z) : Prop := {
  rh_lo : 0 ≤ lo < 2 ^ 16;
  rh_hi : hi = (lo + Z.of_nat (length l)) mod 2 ^ 16;
  rh_len : (length l ≤ 8)%nat;
  rh_at : ∀ k x, l !! k = Some x → f ((lo + Z.of_nat k) mod NUM) = x;
}.

Definition in_phase (R : gmap Z rq) (p : phase) (l : list Z) : Prop :=
  NoDup l ∧ ∀ h, h ∈ l ↔ ∃ r, R !! h = Some r ∧ rq_phase r = p.

Record vinv (R : gmap Z rq) (Q U : list Z) (s : vdisk) : Prop := {
  vi_req : ∀ h r, R !! h = Some r → req_ok s h r;
  vi_disj : ∀ h h' r r' i, R !! h = Some r → R !! h' = Some r' → i ∈ idxs h r → i ∈ idxs h' r' → h = h';
  vi_buf : ∀ h h' r r', R !! h = Some r → R !! h' = Some r' → rq_b r = rq_b r' → h = h';
  vi_free : ∀ i, 0 ≤ i < NUM → v_free s i = false → ∃ h r, R !! h = Some r ∧ i ∈ idxs h r;
  vi_queue : ring_has (v_ring s) (v_seen s) (v_avail s) Q;
  vi_used : ring_has (v_uring s) (v_used_idx s) (v_used s) U;
  vi_Q : in_phase R Queued Q;
  vi_F : in_phase R Fetched (v_fetched s);
  vi_U : in_phase R Done U;
}.

(** ** Rings *)

Lemma ring_push f lo hi l x :
  ring_has f lo hi l → (length l < 8)%nat → ring_has (<[hi mod NUM := x]> f) lo ((hi + 1) mod 2 ^ 16) (l ++ [x]).
Proof.
  intros [Hlo -> Hlen Hat] Hl. split; [done| |rewrite length_app /=; lia|].
  - rewrite length_app /= Zplus_mod_idemp_l. f_equal. lia.
  - intros k y Hk. rewrite /insert /fn_insert. apply lookup_app_Some in Hk as [Hk|[Hge Hk]].
    + pose proof (lookup_lt_Some _ _ _ Hk). rewrite decide_False; [by apply Hat|]. dlia.
    + apply list_lookup_singleton_Some in Hk as [Hk <-]. rewrite decide_True //.
      replace k with (length l) by lia. dlia.
Qed.

Lemma ring_pop f lo hi x l :
  ring_has f lo hi (x :: l) → lo ≠ hi ∧ f (lo mod NUM) = x ∧ ring_has f ((lo + 1) mod 2 ^ 16) hi l.
Proof.
  intros [Hlo -> Hlen Hat]. simpl in Hlen. split; [simpl; dlia|]. split.
  - rewrite -(Hat 0%nat x) //. f_equal. f_equal. lia.
  - split; [dlia| |lia|].
    + simpl. rewrite Zplus_mod_idemp_l. f_equal. lia.
    + intros k y Hk. rewrite -(Hat (S k) y) //. f_equal. dlia.
Qed.

Lemma ring_empty f lo : 0 ≤ lo < 2 ^ 16 → ring_has f lo lo [].
Proof. intros. split; [done|simpl; dlia|simpl; lia|]. intros k x. by rewrite lookup_nil. Qed.

Lemma ring_nil f lo hi l : ring_has f lo hi l → lo = hi ↔ l = [].
Proof. intros [Hlo -> Hlen Hat]. destruct l as [|x l]; simpl in *; split; intros; try done; dlia. Qed.

(** A ring of distinct descriptors has room for one that is not in it. *)
Lemma room_for l i :
  NoDup l → (∀ x, x ∈ l → 0 ≤ x < NUM) → 0 ≤ i < NUM → i ∉ l → (length l < 8)%nat.
Proof.
  intros Hnd Hr Hi Hn. assert (NoDup (i :: l)) as Hnd' by (by constructor).
  assert (length (i :: l) ≤ length (seqZ 0 NUM))%nat as Hle; [|rewrite length_seqZ /= in Hle; lia].
  apply submseteq_length, NoDup_submseteq; [done|]. intros x Hx. apply elem_of_seqZ.
  apply elem_of_cons in Hx as [->|Hx]; [lia|]. apply Hr in Hx. lia.
Qed.

(** ** Requests under changes of the state *)

Lemma req_ok_frame s s' h r :
  (∀ i, i ∈ idxs h r → v_desc s' i = v_desc s i ∧ v_free s' i = v_free s i) →
  v_info_b s' h = v_info_b s h → v_busy s' (rq_b r) = v_busy s (rq_b r) →
  v_ops s' h = v_ops s h → v_status s' h = v_status s h → v_blockno s' = v_blockno s →
  req_ok s h r → req_ok s' h r.
Proof.
  intros Hd Hi Hb Ho Hs Hn [D0 D1 D2 Hr Hnd HI HB HO HS].
  assert (v_desc s' h = v_desc s h) as E0 by (apply Hd; left).
  assert (v_desc s' (rq_1 r) = v_desc s (rq_1 r)) as E1 by (apply Hd; do 1 right; left).
  assert (v_desc s' (rq_2 r) = v_desc s (rq_2 r)) as E2 by (apply Hd; do 2 right; left).
  split; [by rewrite E0|by rewrite E1|by rewrite E2| |done|by rewrite Hi|by rewrite Hb|by rewrite Ho Hn|by rewrite Hs].
  intros i Hin. rewrite (proj2 (Hd i Hin)). by apply Hr.
Qed.

Lemma idxs_head h r : h ∈ idxs h r.
Proof. rewrite /idxs. set_solver. Qed.

Lemma idxs_phase h r p : idxs h (with_phase p r) = idxs h r.
Proof. done. Qed.

Lemma in_phase_range R p l s : (∀ h r, R !! h = Some r → req_ok s h r) → in_phase R p l → ∀ x, x ∈ l → 0 ≤ x < NUM.
Proof. intros Hreq [_ Hin] x (r & Hr & _)%Hin. apply (ro_range _ _ _ (Hreq _ _ Hr)), idxs_head. Qed.

(** The lists of heads after request [h], which was in phase [p], is moved to
    phase [p']. *)
Lemma in_phase_other R h r p p' q l :
  R !! h = Some r → rq_phase r = p → p ≠ q → p' ≠ q → in_phase R q l → in_phase (<[h := with_phase p' r]> R) q l.
Proof.
  intros Hr Hp Hq Hq' [Hnd Hin]. split; [done|]. intros x. rewrite Hin. split; intros (r' & Hr' & Hp').
  - exists r'. split; [|done]. rewrite lookup_insert_ne //. intros <-. congruence.
  - destruct (decide (h = x)) as [<-|Hne].
    + rewrite lookup_insert decide_True // in Hr'. injection Hr' as <-. by destruct Hq'.
    + rewrite lookup_insert_ne // in Hr'. eauto.
Qed.

Lemma in_phase_enter R h r p l l' :
  R !! h = Some r → rq_phase r ≠ p → l' ≡ₚ h :: l → in_phase R p l → in_phase (<[h := with_phase p r]> R) p l'.
Proof.
  intros Hr Hp Hl [Hnd Hin]. split.
  - rewrite Hl. constructor; [|done]. rewrite Hin. intros (r' & Hr' & Hp'). congruence.
  - intros x. rewrite Hl elem_of_cons Hin. destruct (decide (h = x)) as [<-|Hne].
    + split; [|by left]. intros _. exists (with_phase p r). by rewrite lookup_insert decide_True.
    + rewrite lookup_insert_ne //. split; [intros [->|?]; [done|done]|by right].
Qed.

Lemma in_phase_leave R h r p p' l l' :
  R !! h = Some r → p' ≠ p → l ≡ₚ h :: l' → in_phase R p l → in_phase (<[h := with_phase p' r]> R) p l'.
Proof.
  intros Hr Hp Hl [Hnd Hin]. rewrite Hl in Hnd. apply NoDup_cons in Hnd as [Hh Hnd]. split; [done|].
  intros x. destruct (decide (h = x)) as [<-|Hne].
  - split; [done|]. intros (r' & Hr' & Hp'). rewrite lookup_insert decide_True // in Hr'. by injection Hr' as <-.
  - rewrite lookup_insert_ne // -Hin Hl elem_of_cons. naive_solver.
Qed.

(** Moving a request to another phase changes neither who uses which
    descriptors nor which buffers. *)
Lemma rephase_lookup (R : gmap Z rq) h r p h' r' :
  R !! h = Some r → <[h := with_phase p r]> R !! h' = Some r' →
  ∃ r0, R !! h' = Some r0 ∧ idxs h' r' = idxs h' r0 ∧ rq_b r' = rq_b r0 ∧ (h' ≠ h → r' = r0) ∧ (h' = h → r0 = r ∧ r' = with_phase p r).
Proof.
  intros Hr. destruct (decide (h = h')) as [<-|Hne].
  - rewrite lookup_insert decide_True //. intros [= <-]. exists r. naive_solver.
  - rewrite lookup_insert_ne //. intros Hr'. exists r'. naive_solver.
Qed.

(** What is left to show when request [h] moves to phase [p]. *)
Lemma vinv_rephase R h r p Q U Q' U' s s' :
  vinv R Q U s → R !! h = Some r →
  req_ok s' h (with_phase p r) →
  (∀ h' r', h' ≠ h → R !! h' = Some r' → req_ok s' h' r') →
  (∀ i, v_free s' i = v_free s i) →
  ring_has (v_ring s') (v_seen s') (v_avail s') Q' →
  ring_has (v_uring s') (v_used_idx s') (v_used s') U' →
  in_phase (<[h := with_phase p r]> R) Queued Q' →
  in_phase (<[h := with_phase p r]> R) Fetched (v_fetched s') →
  in_phase (<[h := with_phase p r]> R) Done U' →
  vinv (<[h := with_phase p r]> R) Q' U' s'.
Proof.
  intros Hv Hr Hh Ho Hf HQ HU HpQ HpF HpU. split; [..|done|done|done|done|done].
  - intros h' r' (r0 & Hr0 & _ & _ & Hne & Heq)%(rephase_lookup _ _ _ _ _ _ Hr).
    destruct (decide (h' = h)) as [->|Hn]; [by destruct (Heq eq_refl) as [-> ->]|]. rewrite Hne //. by apply Ho.
  - intros h1 h2 r1 r2 i H1 H2 Hi1 Hi2.
    apply (rephase_lookup _ _ _ _ _ _ Hr) in H1 as (? & ? & E1 & _). rewrite E1 in Hi1.
    apply (rephase_lookup _ _ _ _ _ _ Hr) in H2 as (? & ? & E2 & _). rewrite E2 in Hi2.
    by eapply (vi_disj _ _ _ _ Hv).
  - intros h1 h2 r1 r2 H1 H2 Hb.
    apply (rephase_lookup _ _ _ _ _ _ Hr) in H1 as (? & ? & _ & E1 & _).
    apply (rephase_lookup _ _ _ _ _ _ Hr) in H2 as (? & ? & _ & E2 & _).
    eapply (vi_buf _ _ _ _ Hv); [done..|congruence].
  - intros i Hi Hfi. rewrite Hf in Hfi. destruct (vi_free _ _ _ _ Hv i Hi Hfi) as (h' & r' & Hr' & Hin).
    destruct (decide (h = h')) as [<-|Hne].
    + exists h, (with_phase p r). rewrite lookup_insert decide_True // idxs_phase. split; [done|]. congruence.
    + exists h', r'. by rewrite lookup_insert_ne.
Qed.

(** ** What the device promises *)

(** A chain of three descriptors that asks for block [n] to be moved. *)
Record chain (s : vdisk) (h h1 h2 b : Z) (w : bool) (n : Z) : Prop := {
  ch_0 : v_desc s h = mk_vdesc (AReq h) 16 VRING_DESC_F_NEXT h1;
  ch_1 : v_desc s h1 = mk_vdesc (AData b) BSIZE (data_flags w) h2;
  ch_2 : v_desc s h2 = mk_vdesc (AStatus h) 1 VRING_DESC_F_WRITE 0;
  ch_op : v_ops s h = request w n;
}.

(** The next head of the avail ring, if there is one, is taken. *)
Definition taken (s : vdisk) : vdisk :=
  if v_seen s =? v_avail s then s
  else set_v_seen ((v_seen s + 1) mod 2 ^ 16) (set_v_fetched (v_ring s (v_seen s mod NUM) :: v_fetched s) s).

(** The block that a request moves between the buffer and the disk, and the
    state with block [x] at the other end. *)
Definition payload (b : Z) (w : bool) (n : Z) (s : vdisk) : block :=
  if w then v_data s b else default ∅ (v_blocks s !! n).
Definition moved (x : block) (b : Z) (w : bool) (n : Z) (s : vdisk) : vdisk :=
  if w then set_v_blocks (<[n := x]> (v_blocks s)) s else set_v_data (<[b := x]> (v_data s)) s.

(** The chain at [h] served: block [x] moved, the status [st], the head in the
    used ring. *)
Definition served (st : Z) (x : block) (h b : Z) (w : bool) (n : Z) (s : vdisk) : vdisk :=
  let s := set_v_status (<[h := st]> (v_status s)) (moved x b w n s) in
  set_v_fetched (filter (λ x, x ≠ h) (v_fetched s))
    (set_v_used ((v_used s + 1) mod 2 ^ 16) (set_v_uring (<[v_used s mod NUM := h]> (v_uring s)) s)).

(** The device decides how the request with head [h] ends: with status 0
    ([VIRTIO_BLK_S_OK]) and the block moved, or with another status
    ([VIRTIO_BLK_S_IOERR], [VIRTIO_BLK_S_UNSUPP]) and anything where the block
    should have gone. *)
Class Device := {
  dev_fetch : M vdisk unit;
  dev_complete : Z → M vdisk unit;
  dev_status : Z → vdisk → Z;
  dev_fetch_law s : wp dev_fetch (λ _ s', s' = taken s) s;
  dev_complete_law s h h1 h2 b w n :
    chain s h h1 h2 b w n → h ∈ v_fetched s →
    wp (dev_complete h) (λ _ s', ∃ x, (dev_status h s = 0 → x = payload b w n s) ∧
      s' = served (dev_status h s) x h b w n s) s;
}.

Lemma fetch_taken s : wp fetch (λ _ s', s' = taken s) s.
Proof. rewrite /fetch /taken. wp_steps. rewrite /id. by destruct (_ =? _); wp_steps. Qed.

Lemma complete_served s h h1 h2 b w n : chain s h h1 h2 b w n → wp (complete h) (λ _ s', ∃ x, (0 = 0 → x = payload b w n s) ∧ s' = served 0 x h b w n s) s.
Proof.
  intros [E0 E1 E2 Eo]. rewrite /complete. wp_steps. rewrite /id E0 /= E1 /= E2 /= Eo.
  rewrite /transfer /served /moved. destruct w; simpl; wp_steps; (eexists; split; [done|]); rewrite ?Z.div_mul //.
Qed.

(** The device of [Virtio] is one. *)
#[refine] Instance virtio_device : Device := {| dev_fetch := fetch; dev_complete := complete; dev_status _ _ := 0 |}.
Proof. all: eauto using fetch_taken, complete_served. Defined.

(** ** Descriptors *)

Lemma wp_alloc_desc_loop n i (Q : Z → vdisk → Prop) s :
  (∀ j, i ≤ j < i + Z.of_nat n → v_free s j = true → Q j (set_v_free (<[j := false]> (v_free s)) s)) →
  ((∀ j, i ≤ j < i + Z.of_nat n → v_free s j = false) → Q (-1) s) →
  wp (alloc_desc_loop n i) Q s.
Proof.
  revert i. induction n as [|n IH]; intros i H1 H2; cbn [alloc_desc_loop].
  - wp_steps. apply H2. lia.
  - wp_steps. destruct (v_free s i) eqn:Hi.
    + rewrite /set_free. wp_steps. apply H1; [lia|done].
    + apply IH; [intros j ?; apply H1; lia|]. intros Hall. apply H2. intros j Hj.
      destruct (decide (j = i)) as [->|]; [done|]. apply Hall. lia.
Qed.

Lemma wp_alloc_desc (Q : Z → vdisk → Prop) s :
  (∀ j, 0 ≤ j < NUM → v_free s j = true → Q j (set_v_free (<[j := false]> (v_free s)) s)) →
  ((∀ j, 0 ≤ j < NUM → v_free s j = false) → Q (-1) s) →
  wp alloc_desc Q s.
Proof. apply (wp_alloc_desc_loop 8 0). Qed.

Definition freed (i : Z) (s : vdisk) : vdisk :=
  set_v_woken (VFree :: v_woken s)
    (set_v_free (<[i := true]> (v_free s)) (set_v_desc (<[i := mk_vdesc ANull 0 0 0]> (v_desc s)) s)).

Lemma wp_free_desc i (Q : unit → vdisk → Prop) s :
  0 ≤ i < NUM → v_free s i = false → Q tt (freed i s) → wp (free_desc i) Q s.
Proof.
  intros Hi Hf HQ. rewrite /free_desc. destruct (Z.leb_spec NUM i); [lia|].
  wp_steps. rewrite Hf /set_desc /set_free /vwakeup. by wp_steps.
Qed.

(** Three different descriptors that were free, or none and nothing that a
    request in flight uses is changed. *)
Definition took3 (s : vdisk) (i0 i1 i2 : Z) : vdisk :=
  set_v_free (<[i2 := false]> (<[i1 := false]> (<[i0 := false]> (v_free s)))) s.

Record untouched (s s' : vdisk) : Prop := {
  ut_free : ∀ i, v_free s' i = v_free s i;
  ut_desc : ∀ i, v_free s i = false → v_desc s' i = v_desc s i;
  ut_rest : s' = set_v_woken (v_woken s') (set_v_free (v_free s') (set_v_desc (v_desc s') s));
}.

Lemma fn_insert_ne {A} (f : Z → A) i j x : i ≠ j → <[i := x]> f j = f j.
Proof. intros. rewrite /insert /fn_insert decide_False //. Qed.
Lemma fn_insert_eq {A} (f : Z → A) i x : <[i := x]> f i = x.
Proof. rewrite /insert /fn_insert decide_True //. Qed.

Lemma nodup3 (a b c : Z) : a ≠ b → a ≠ c → b ≠ c → NoDup [a; b; c].
Proof. intros. rewrite !NoDup_cons !not_elem_of_cons. repeat split; auto using NoDup_nil_2, not_elem_of_nil. Qed.

Lemma elem_of_3 (i a b c : Z) : i ∈ [a; b; c] ↔ i = a ∨ i = b ∨ i = c.
Proof. by rewrite !elem_of_cons elem_of_nil right_id. Qed.

Lemma foldl_insert {A} (x : A) l (f : Z → A) (j : Z) : foldl (λ f i, <[i := x]> f) f l j = if decide (j ∈ l) then x else f j.
Proof.
  revert f. induction l as [|i l IH]; intros f; simpl; [done|]. rewrite IH.
  destruct (decide (j ∈ l)); [rewrite decide_True //; by right|].
  destruct (decide (j = i)) as [->|]; [rewrite fn_insert_eq decide_True //; left|].
  rewrite fn_insert_ne // decide_False // not_elem_of_cons //.
Qed.

Lemma freed_all l s :
  foldl (λ s i, freed i s) s l =
  set_v_woken (replicate (length l) VFree ++ v_woken s)
    (set_v_free (foldl (λ f i, <[i := true]> f) (v_free s) l)
      (set_v_desc (foldl (λ f i, <[i := mk_vdesc ANull 0 0 0]> f) (v_desc s) l) s)).
Proof.
  revert s. induction l as [|i l IH]; intros s; simpl; [by destruct s|]. rewrite IH /=.
  by rewrite app_comm_cons replicate_cons_app -app_assoc.
Qed.

Lemma freed_all_at l s s' :
  s' = foldl (λ s i, freed i s) s l →
  (∀ i, v_free s' i = if decide (i ∈ l) then true else v_free s i) ∧
  (∀ i, i ∉ l → v_desc s' i = v_desc s i) ∧
  s' = set_v_woken (v_woken s') (set_v_free (v_free s') (set_v_desc (v_desc s') s)).
Proof.
  rewrite freed_all. intros ->. split_and!; [..|done]; intros i; simpl; rewrite foldl_insert //.
  intros. by rewrite decide_False.
Qed.

(** Taking free descriptors and giving them back. *)
Lemma untouched_undo s l :
  Forall (λ i, v_free s i = true) l →
  untouched s (foldl (λ s i, freed i s) (set_v_free (foldl (λ f i, <[i := false]> f) (v_free s) l) s) l).
Proof.
  rewrite Forall_forall freed_all. intros Hl. split; [| |done]; intros i; simpl; rewrite !foldl_insert.
  - destruct (decide (i ∈ l)); [by rewrite Hl|done].
  - intros Hi. rewrite decide_False //. intros Hin. apply Hl in Hin. congruence.
Qed.

Lemma filter_one (h : Z) l : h ∈ l → NoDup l → l ≡ₚ h :: filter (λ x, x ≠ h) l.
Proof.
  intros Hh Hnd. apply NoDup_Permutation; [done| |].
  - constructor; [rewrite list_elem_of_filter; by intros [? _]|by apply NoDup_filter].
  - intros x. rewrite elem_of_cons list_elem_of_filter. destruct (decide (x = h)) as [->|]; naive_solver.
Qed.

(** Evaluate an updated table at an index. *)
Ltac fn_simpl := repeat first [rewrite -> fn_insert_eq | rewrite -> fn_insert_ne by congruence].

Lemma wp_alloc3_desc (Q : option (list Z) → vdisk → Prop) s :
  (∀ i0 i1 i2, NoDup [i0; i1; i2] → (∀ i, i ∈ [i0; i1; i2] → 0 ≤ i < NUM ∧ v_free s i = true) →
     Q (Some [i0; i1; i2]) (took3 s i0 i1 i2)) →
  (∀ l s', (length l ≤ 2)%nat → (∀ j, 0 ≤ j < NUM → v_free s j = true → j ∈ l) → untouched s s' → Q None s') →
  wp alloc3_desc Q s.
Proof.
  intros HS HN. rewrite /alloc3_desc /=. apply wp_bind, wp_alloc_desc; [|intros Ha; wp_steps; apply (HN []); [simpl; lia|intros j Hj; by rewrite Ha|by destruct s]].
  intros i0 Hi0 Hf0. destruct (Z.ltb_spec i0 0); [lia|].
  apply wp_bind, wp_alloc_desc; [|intros Ha; wp_steps; apply wp_free_desc; [done|apply fn_insert_eq|]].
  2:{ wp_steps. apply (HN [i0]); [simpl; lia| |apply (untouched_undo s [i0]), Forall_singleton, Hf0].
      intros j Hj Hfj. specialize (Ha j Hj). simpl in Ha. apply list_elem_of_singleton. apply dec_stable. intros Hne.
      rewrite fn_insert_ne // in Ha. congruence. }
  simpl. intros i1 Hi1 Hf1. destruct (Z.ltb_spec i1 0); [lia|].
  assert (i0 ≠ i1) as H01 by (intros ->; by rewrite fn_insert_eq in Hf1). rewrite fn_insert_ne // in Hf1.
  apply wp_bind, wp_alloc_desc; [|intros Ha; wp_steps; apply wp_free_desc; [done| |]].
  2:{ simpl. rewrite fn_insert_ne // fn_insert_eq //. }
  2:{ wp_steps. apply wp_free_desc; [done| |]; [simpl; rewrite fn_insert_ne // fn_insert_eq //|].
      wp_steps. apply (HN [i0; i1]); [simpl; lia| |by apply (untouched_undo s [i0; i1]); repeat constructor].
      intros j Hj Hfj. specialize (Ha j Hj). simpl in Ha. apply dec_stable. rewrite !not_elem_of_cons. intros (H1 & H2 & _).
      rewrite !fn_insert_ne // in Ha. congruence. }
  simpl. intros i2 Hi2 Hf2. destruct (Z.ltb_spec i2 0); [lia|].
  assert (i1 ≠ i2) as H12 by (intros ->; by rewrite fn_insert_eq in Hf2). rewrite fn_insert_ne // in Hf2.
  assert (i0 ≠ i2) as H02 by (intros ->; by rewrite fn_insert_eq in Hf2). rewrite fn_insert_ne // in Hf2.
  wp_steps. apply HS; [by apply nodup3|]. intros i Hi.
  by apply elem_of_3 in Hi as [->|[->| ->]].
Qed.

(** ** The invariant under changes *)

(** What the driver and the device do not look at may change, and so may the
    contents of free descriptors. *)
Lemma vinv_frame R Q U s s' :
  (∀ i, v_free s' i = v_free s i) → (∀ i, v_free s i = false → v_desc s' i = v_desc s i) →
  v_ring s' = v_ring s → v_avail s' = v_avail s → v_uring s' = v_uring s → v_used s' = v_used s →
  v_used_idx s' = v_used_idx s → v_info_b s' = v_info_b s → v_status s' = v_status s → v_ops s' = v_ops s →
  v_busy s' = v_busy s → v_blockno s' = v_blockno s → v_seen s' = v_seen s → v_fetched s' = v_fetched s →
  vinv R Q U s → vinv R Q U s'.
Proof.
  intros Hf Hd E1 E2 E3 E4 E5 E6 E7 E8 E9 E10 E11 E12 [Hreq Hdj Hb Hfr HQ HU PQ PF PU].
  split; rewrite ?E1 ?E2 ?E3 ?E4 ?E5 ?E11 ?E12 //.
  - intros h r Hr. pose proof (Hreq h r Hr) as Ho. apply (req_ok_frame s); rewrite ?E6 ?E7 ?E8 ?E9 ?E10 //.
    intros i Hi. split; [|done]. apply Hd, (ro_range _ _ _ Ho), Hi.
  - intros i. rewrite Hf. apply Hfr.
Qed.

Lemma vinv_held R Q U s h : vinv R Q U s → vinv R Q U (set_v_held h s).
Proof. by apply vinv_frame. Qed.

Lemma vinv_untouched R Q U s s' : untouched s s' → vinv R Q U s → vinv R Q U s'.
Proof. intros [Hf Hd ->]. by apply vinv_frame. Qed.

(** A descriptor is free or part of a request, so a free one is part of none. *)
Lemma vinv_not_free R Q U s h r i : vinv R Q U s → R !! h = Some r → v_free s i = true → i ∉ idxs h r.
Proof. intros Hv Hr Hf Hi. apply (ro_range _ _ _ (vi_req _ _ _ _ Hv _ _ Hr)) in Hi as [_ Hi]. congruence. Qed.

(** ** The driver's steps *)

Definition same_blocks (s s' : vdisk) : Prop :=
  v_data s' = v_data s ∧ v_blocks s' = v_blocks s ∧ v_blockno s' = v_blockno s.

Definition sector_of (s : vdisk) (b : Z) : Z := u64 (u32 (v_blockno s b * (BSIZE / 512))).

Lemma sector_eq s b : 0 ≤ v_blockno s b < 2 ^ 31 → sector_of s b = v_blockno s b * 2.
Proof. intros. rewrite /sector_of. change (BSIZE / 512) with 2. rewrite /u32 /u64. dlia. Qed.

(** A request made of free descriptors, for a buffer without one, is added. *)
Lemma in_phase_add R h r p l l' :
  R !! h = None → (rq_phase r = p → l' ≡ₚ h :: l) → (rq_phase r ≠ p → l' = l) →
  in_phase R p l → in_phase (<[h := r]> R) p l'.
Proof.
  intros Hn Heq Hne [Hnd Hin]. assert (h ∉ l) as Hh by (rewrite Hin; intros (? & ? & _); congruence).
  assert (∀ x, x ≠ h → x ∈ l ↔ ∃ r0, <[h := r]> R !! x = Some r0 ∧ rq_phase r0 = p) as Hx.
  { intros x Hx. rewrite lookup_insert_ne //. }
  destruct (decide (rq_phase r = p)) as [Hp|Hp].
  - specialize (Heq Hp). split; [rewrite Heq; by constructor|]. intros x. rewrite Heq elem_of_cons.
    destruct (decide (x = h)) as [->|Hxh]; [|rewrite -Hx //; naive_solver].
    split; [|by left]. intros _. exists r. by rewrite lookup_insert decide_True.
  - rewrite Hne //. split; [done|]. intros x. destruct (decide (x = h)) as [->|Hxh]; [|by apply Hx].
    split; [done|]. intros (r0 & Hr0 & Hp0). rewrite lookup_insert decide_True // in Hr0. congruence.
Qed.

Lemma vinv_add R Q U s s' h r :
  vinv R Q U s → rq_phase r = Queued →
  (∀ i, i ∈ idxs h r → 0 ≤ i < NUM ∧ v_free s i = true) → (∀ h' r', R !! h' = Some r' → rq_b r' ≠ rq_b r) →
  req_ok s' h r → (∀ h' r', R !! h' = Some r' → req_ok s' h' r') →
  (∀ i, i ∉ idxs h r → v_free s' i = v_free s i) →
  ring_has (v_ring s') (v_seen s') (v_avail s') (Q ++ [h]) →
  ring_has (v_uring s') (v_used_idx s') (v_used s') U → v_fetched s' = v_fetched s →
  vinv (<[h := r]> R) (Q ++ [h]) U s'.
Proof.
  intros Hv Hp Hi Hb Hr Ho Hf HQ HU EF.
  assert (R !! h = None) as Hn.
  { destruct (R !! h) as [r'|] eqn:Hr'; [|done]. destruct (vinv_not_free _ _ _ _ _ _ h Hv Hr'); [|apply idxs_head].
    apply Hi, idxs_head. }
  split; [..|done|done| | |].
  - intros h' r' [[<- <-]|[_ Hr']]%lookup_insert_Some; auto.
  - intros h1 h2 r1 r2 i [[<- <-]|[_ H1]]%lookup_insert_Some [[<- <-]|[_ H2]]%lookup_insert_Some Hi1 Hi2; [done|..].
    + by destruct (vinv_not_free _ _ _ _ _ _ i Hv H2 (proj2 (Hi _ Hi1))).
    + by destruct (vinv_not_free _ _ _ _ _ _ i Hv H1 (proj2 (Hi _ Hi2))).
    + by eapply (vi_disj _ _ _ _ Hv).
  - intros h1 h2 r1 r2 [[<- <-]|[_ H1]]%lookup_insert_Some [[<- <-]|[_ H2]]%lookup_insert_Some E; [done|..].
    + by destruct (Hb _ _ H2).
    + by destruct (Hb _ _ H1).
    + by eapply (vi_buf _ _ _ _ Hv).
  - intros i Hir Hfi. destruct (decide (i ∈ idxs h r)) as [Hin|Hin].
    + exists h, r. by rewrite lookup_insert decide_True.
    + rewrite Hf // in Hfi. destruct (vi_free _ _ _ _ Hv i Hir Hfi) as (h' & r' & Hr' & Hin').
      exists h', r'. rewrite lookup_insert_ne //. congruence.
  - eapply in_phase_add, (vi_Q _ _ _ _ Hv); [done| |congruence]. intros _. by rewrite Permutation_app_comm.
  - rewrite EF. eapply in_phase_add, (vi_F _ _ _ _ Hv); [done|congruence|done].
  - eapply in_phase_add, (vi_U _ _ _ _ Hv); [done|congruence|done].
Qed.

Lemma submit_queues R Q U s b w i0 i1 i2 :
  vinv R Q U s → NoDup [i0; i1; i2] → (∀ i, i ∈ [i0; i1; i2] → 0 ≤ i < NUM ∧ v_free s i = true) →
  (∀ h r, R !! h = Some r → rq_b r ≠ b) → 0 ≤ v_blockno s b < 2 ^ 31 →
  wp (submit b w (sector_of s b) i0 i1 i2)
    (λ _ s', vinv (<[i0 := mk_rq b w i1 i2 Queued 0]> R) (Q ++ [i0]) U s' ∧ same_blocks s s' ∧ v_held s' = v_held s)
    (took3 s i0 i1 i2).
Proof.
  intros Hv Hnd Hi Hb Hn. rewrite (sector_eq _ _ Hn) /submit /set_desc. wp_steps. split; [|done].
  pose proof Hnd as Hne. rewrite !NoDup_cons !not_elem_of_cons in Hne. destruct Hne as ((H01 & H02 & _) & (H12 & _) & _).
  apply (vinv_add _ _ _ s); simpl; [done|done|done|done|..].
  - split; simpl; fn_simpl; try done. intros i Hin. split; [by apply Hi|].
    by apply elem_of_3 in Hin as [->|[->| ->]]; simpl; fn_simpl.
  - intros h r Hr. assert (∀ i, i ∈ [i0; i1; i2] → i ∉ idxs h r) as Hx.
    { intros i Hin. eapply vinv_not_free; [done..|]. by apply Hi. }
    assert (i0 ≠ h) by (intros ->; eapply Hx; [left|apply idxs_head]).
    apply (req_ok_frame s); simpl; fn_simpl; try done.
    + intros i Hin. assert (i ≠ i0 ∧ i ≠ i1 ∧ i ≠ i2) as (? & ? & ?).
      { repeat split; intros ->; eapply Hx; try done; [left|right; left|right; right; left]. }
      by fn_simpl.
    + rewrite fn_insert_ne //. by apply not_eq_sym, (Hb h).
    + by apply (vi_req _ _ _ _ Hv).
  - intros i Hin. rewrite /idxs !not_elem_of_cons /= in Hin. destruct Hin as (? & ? & ? & _). by fn_simpl.
  - apply ring_push; [apply Hv|].
    apply room_for with i0.
    + apply Hv.
    + eapply in_phase_range; apply Hv.
    + apply Hi. left.
    + intros (r & Hr & _)%(vi_Q _ _ _ _ Hv). eapply vinv_not_free; [done..| |apply idxs_head]. apply Hi. left.
  - apply Hv.
  - done.
Qed.

(** ** The interrupt handler *)

(** Every finished request is seen. *)
Definition settle1 (r : rq) : rq := if decide (rq_phase r = Done) then with_phase Seen r else r.
Definition settle (R : gmap Z rq) : gmap Z rq := settle1 <$> R.

Lemma settle_insert R h r : R !! h = Some r → rq_phase r = Done → settle (<[h := with_phase Seen r]> R) = settle R.
Proof.
  intros Hr Hp. rewrite /settle fmap_insert. replace (settle1 (with_phase Seen r)) with (settle1 r).
  - apply insert_id. by rewrite lookup_fmap Hr.
  - by rewrite /settle1 Hp.
Qed.

Lemma settle_none R : in_phase R Done [] → settle R = R.
Proof.
  intros [_ Hin]. rewrite /settle -{2}(map_fmap_id R). apply map_fmap_ext. intros h r Hr.
  rewrite /settle1 decide_False //. intros Hp. assert (h ∈ []) as Hx by (apply Hin; eauto). by apply elem_of_nil in Hx.
Qed.

(** The state after the handler has seen request [h] for buffer [b]. *)
Definition seen_one (b : Z) (s : vdisk) : vdisk :=
  set_v_used_idx ((v_used_idx s + 1) mod 2 ^ 16)
    (set_v_woken (VBuf b :: v_woken s) (set_v_busy (<[b := false]> (v_busy s)) s)).

Lemma vinv_seen R Q h U s r :
  vinv R Q (h :: U) s → R !! h = Some r → rq_phase r = Done →
  vinv (<[h := with_phase Seen r]> R) Q U (seen_one (rq_b r) s).
Proof.
  intros Hv Hr Hp. pose proof (vi_req _ _ _ _ Hv _ _ Hr) as [D0 D1 D2 Hrg Hnd HI HB HO HS].
  apply (vinv_rephase _ _ _ _ Q (h :: U) _ _ s); simpl; [done|done|..|done| | | | |].
  - split; simpl; try done. by rewrite fn_insert_eq.
  - intros h' r' Hne Hr'. apply (req_ok_frame s); simpl; try done; [|by apply (vi_req _ _ _ _ Hv)].
    apply fn_insert_ne. intros E. apply Hne. by eapply (vi_buf _ _ _ _ Hv).
  - apply Hv.
  - by apply (ring_pop _ _ _ h), Hv.
  - by eapply in_phase_other, Hv; [|exact Hp|..].
  - by eapply in_phase_other, Hv; [|exact Hp|..].
  - by eapply in_phase_leave, Hv.
Qed.

(** A request that the device has finished with an error. *)
Definition failed (R : gmap Z rq) : Prop := ∃ h r, R !! h = Some r ∧ rq_phase r = Done ∧ rq_st r ≠ 0.

Lemma failed_seen R h r : R !! h = Some r → rq_st r = 0 → failed R → failed (<[h := with_phase Seen r]> R).
Proof. intros Hr Hs (h' & r' & Hr' & Hp & Hne). exists h', r'. rewrite lookup_insert_ne //. intros <-. congruence. Qed.

Lemma not_failed_seen R h r : ¬ failed R → ¬ failed (<[h := with_phase Seen r]> R).
Proof. intros Hf (h' & r' & [[_ <-]|[_ Hr']]%lookup_insert_Some & Hp & Hne); [done|]. apply Hf. by exists h', r'. Qed.

(** The interrupt handler looks at the first finished request. *)
Lemma intr_loop_cons fuel R Q h U s :
  vinv R Q (h :: U) s →
  ∃ r, R !! h = Some r ∧ rq_phase r = Done ∧ vinv (<[h := with_phase Seen r]> R) Q U (seen_one (rq_b r) s) ∧
    intr_loop (S fuel) s =
      if rq_st r =? 0 then intr_loop fuel (seen_one (rq_b r) s) else Panic "virtio_disk_intr status".
Proof.
  intros Hv. destruct (ring_pop _ _ _ _ _ (vi_used _ _ _ _ Hv)) as (Hne & Hat & _). apply Z.eqb_neq in Hne.
  destruct (proj1 (proj2 (vi_U _ _ _ _ Hv) h)) as (r & Hr & Hp); [left|].
  pose proof (vi_req _ _ _ _ Hv _ _ Hr) as Ho. exists r. split_and!; [done..|by apply vinv_seen|].
  cbn [intr_loop]. rewrite /mbind /M_bind {1}/gets /id Hne Hat (ro_status _ _ _ Ho Hp).
  destruct (rq_st r =? 0); [|done]. by rewrite /= (ro_info _ _ _ Ho).
Qed.

Lemma wp_intr_loop fuel U : ∀ R Q s,
  (length U < fuel)%nat → vinv R Q U s → ¬ failed R →
  wp (intr_loop fuel) (λ _ s', vinv (settle R) Q [] s' ∧ same_blocks s s' ∧ v_held s' = v_held s) s.
Proof.
  revert U. induction fuel as [|fuel IH]; intros U R Q s Hf Hv HR; [lia|]. destruct U as [|h U].
  - cbn [intr_loop]. wp_steps. rewrite /id (proj2 (ring_nil _ _ _ _ (vi_used _ _ _ _ Hv)) eq_refl) Z.eqb_refl.
    wp_steps. rewrite settle_none; [done|apply Hv].
  - destruct (intr_loop_cons fuel _ _ _ _ _ Hv) as (r & Hr & Hp & Hv' & E). rewrite /wp E.
    destruct (Z.eqb_spec (rq_st r) 0); [|destruct HR; by exists h, r].
    eapply wp_mono; [by apply (IH U (<[h := with_phase Seen r]> R) Q (seen_one (rq_b r) s)); [simpl in Hf; lia| |apply not_failed_seen]|].
    rewrite settle_insert //.
Qed.

(** An error stops the machine. *)
Lemma intr_loop_panics fuel U : ∀ R Q s,
  (length U < fuel)%nat → vinv R Q U s → failed R → intr_loop fuel s = Panic "virtio_disk_intr status".
Proof.
  revert U. induction fuel as [|fuel IH]; intros U R Q s Hf Hv HR; [lia|]. destruct U as [|h U].
  - destruct HR as (h & r & Hr & Hp & _). assert (h ∈ []) as Hx by (apply (vi_U _ _ _ _ Hv); eauto). by apply elem_of_nil in Hx.
  - destruct (intr_loop_cons fuel _ _ _ _ _ Hv) as (r & Hr & Hp & Hv' & ->).
    destruct (Z.eqb_spec (rq_st r) 0) as [Hz|]; [|done].
    eapply IH; [|exact Hv'|by apply failed_seen]. simpl in Hf. lia.
Qed.

(** ** The device *)

Lemma vinv_taken R Q U s :
  vinv R Q U s →
  ∃ R' Q', vinv R' Q' U (taken s) ∧ (Q = [] → R' = R) ∧
    (∀ h Q0, Q = h :: Q0 → Q' = Q0 ∧ ∃ r, R !! h = Some r ∧ rq_phase r = Queued ∧ R' = <[h := with_phase Fetched r]> R).
Proof.
  intros Hv. pose proof (vi_queue _ _ _ _ Hv) as HQ. rewrite /taken. destruct Q as [|h Q].
  { rewrite (proj2 (ring_nil _ _ _ _ HQ) eq_refl) Z.eqb_refl. by exists R, []. }
  destruct (ring_pop _ _ _ _ _ HQ) as (Hne & Hat & HQ'). apply Z.eqb_neq in Hne. rewrite Hne Hat.
  destruct (proj1 (proj2 (vi_Q _ _ _ _ Hv) h)) as (r & Hr & Hp); [left|].
  exists (<[h := with_phase Fetched r]> R), Q. split; [|split; [done|naive_solver]].
  apply (vinv_rephase _ _ _ _ (h :: Q) U _ _ s); simpl; [done|done|..|done|done| | | |].
  - destruct (vi_req _ _ _ _ Hv _ _ Hr) as [D0 D1 D2 Hrg Hnd HI HB HO HS]. split; simpl; try done.
    by rewrite HB Hp.
  - intros h' r' _ Hr'. by apply (req_ok_frame s); [..|apply (vi_req _ _ _ _ Hv)].
  - apply Hv.
  - by eapply in_phase_leave, Hv.
  - by eapply in_phase_enter, Hv; [|rewrite Hp|].
  - by eapply in_phase_other, Hv; [|exact Hp|..].
Qed.

(** The status matters only when the request is done. *)
Lemma vinv_with_st R Q U s h r st :
  vinv R Q U s → R !! h = Some r → rq_phase r = Fetched → vinv (<[h := with_st st r]> R) Q U s.
Proof.
  intros [Hreq Hdj Hb Hfr HQ HU PQ PF PU] Hr Hp.
  assert (∀ h' r', <[h := with_st st r]> R !! h' = Some r' → ∃ r0, R !! h' = Some r0 ∧ idxs h' r' = idxs h' r0 ∧
    rq_b r' = rq_b r0 ∧ rq_phase r' = rq_phase r0 ∧ (req_ok s h' r0 → req_ok s h' r')) as Hl.
  { intros h' r' [[<- <-]|[_ Hr']]%lookup_insert_Some; [|by exists r']. exists r. split_and!; [done..|].
    intros [D0 D1 D2 Hrg Hnd HI HB HO HS]. split; simpl; try done. by rewrite Hp. }
  assert (∀ h' r0, R !! h' = Some r0 → ∃ r', <[h := with_st st r]> R !! h' = Some r' ∧ idxs h' r' = idxs h' r0 ∧
    rq_phase r' = rq_phase r0) as Hl'.
  { intros h' r0 Hr0. destruct (decide (h = h')) as [<-|Hne]; [|exists r0; by rewrite lookup_insert_ne].
    exists (with_st st r). rewrite lookup_insert decide_True //. rewrite Hr in Hr0. by injection Hr0 as <-. }
  assert (∀ p l, in_phase R p l → in_phase (<[h := with_st st r]> R) p l) as Hph.
  { intros p l [Hnd Hin]. split; [done|]. intros x. rewrite Hin. split; intros (r' & Hr' & Hp').
    - destruct (Hl' _ _ Hr') as (r2 & ? & _ & E). exists r2. by rewrite E.
    - destruct (Hl _ _ Hr') as (r0 & ? & _ & _ & E & _). exists r0. by rewrite -E. }
  split; auto.
  - intros h' r' (r0 & Hr0 & _ & _ & _ & Ho)%Hl. by apply Ho, Hreq.
  - intros h1 h2 r1 r2 i (? & ? & E1 & _)%Hl (? & ? & E2 & _)%Hl. rewrite E1 E2. by apply Hdj.
  - intros h1 h2 r1 r2 (? & ? & _ & E1 & _)%Hl (? & ? & _ & E2 & _)%Hl. rewrite E1 E2. by apply Hb.
  - intros i Hi Hf. destruct (Hfr i Hi Hf) as (h' & r' & (r2 & Hr2 & E & _)%Hl' & Hin). exists h', r2. by rewrite E.
Qed.

(** The request as the device leaves it. *)
Definition ended (st : Z) (r : rq) : rq := with_phase Done (with_st st r).

Lemma vinv_served R Q U s h r st x :
  vinv R Q U s → R !! h = Some r → rq_phase r = Fetched →
  vinv (<[h := ended st r]> R) Q (U ++ [h]) (served st x h (rq_b r) (rq_write r) (v_blockno s (rq_b r)) s).
Proof.
  intros Hv0 Hr0 Hp0. assert (<[h := with_st st r]> R !! h = Some (with_st st r)) as Hr by by rewrite lookup_insert decide_True.
  pose proof (vinv_with_st _ _ _ _ _ _ st Hv0 Hr0 Hp0) as Hv. rewrite /ended -(insert_insert_eq R h (with_phase Done (with_st st r)) (with_st st r)).
  change (rq_b r) with (rq_b (with_st st r)). change (rq_write r) with (rq_write (with_st st r)).
  assert (rq_phase (with_st st r) = Fetched) as Hp by done. assert (rq_st (with_st st r) = st) as Est by done.
  revert Hv Hr Hp Est. generalize (with_st st r) (<[h := with_st st r]> R). clear r R Hv0 Hr0 Hp0. intros r R Hv Hr Hp Est. pose proof (vi_req _ _ _ _ Hv _ _ Hr) as [D0 D1 D2 Hrg Hnd HI HB HO HS].
  assert (h ∈ v_fetched s) as Hh by (apply (vi_F _ _ _ _ Hv); eauto).
  apply (vinv_rephase _ _ _ _ Q U _ _ s); [done|done|..]; rewrite /served /moved.
  - destruct (rq_write r) eqn:Ew; split; simpl; fn_simpl; by rewrite ?Ew ?HB ?HO ?Hp.
  - intros h' r' Hne Hr'.
    apply (req_ok_frame s); destruct (rq_write r); simpl; fn_simpl; try done; by apply (vi_req _ _ _ _ Hv).
  - by destruct (rq_write r).
  - destruct (rq_write r); apply Hv.
  - assert (length U < 8)%nat as HU.
    { apply room_for with h; [apply Hv|eapply in_phase_range; apply Hv|apply Hrg, idxs_head|].
      intros (r' & Hr' & Hp')%(vi_U _ _ _ _ Hv). congruence. }
    by destruct (rq_write r); apply ring_push, HU; apply Hv.
  - by eapply in_phase_other, Hv; [|exact Hp|..].
  - eapply in_phase_leave; [done|done| |apply Hv]. destruct (rq_write r); by apply filter_one, Hv.
  - eapply in_phase_enter, Hv; [done|by rewrite Hp|]. by rewrite Permutation_app_comm.
Qed.

Lemma wp_complete `{Device} R Q U s h r :
  vinv R Q U s → R !! h = Some r → rq_phase r = Fetched →
  wp (dev_complete h) (λ _ s', ∃ x, (dev_status h s = 0 → x = payload (rq_b r) (rq_write r) (v_blockno s (rq_b r)) s) ∧
    s' = served (dev_status h s) x h (rq_b r) (rq_write r) (v_blockno s (rq_b r)) s) s.
Proof.
  intros Hv Hr Hp. destruct (vi_req _ _ _ _ Hv _ _ Hr) as [D0 D1 D2 _ _ _ _ HO _].
  eapply dev_complete_law; [by split|]. apply (vi_F _ _ _ _ Hv). eauto.
Qed.

(** ** The end of a request *)

Lemma vinv_remove R Q U s s' h r :
  vinv R Q U s → R !! h = Some r → rq_phase r = Seen →
  (∀ h' r', h' ≠ h → R !! h' = Some r' → req_ok s' h' r') →
  (∀ i, v_free s' i = if decide (i ∈ idxs h r) then true else v_free s i) →
  v_ring s' = v_ring s → v_seen s' = v_seen s → v_avail s' = v_avail s →
  v_uring s' = v_uring s → v_used_idx s' = v_used_idx s → v_used s' = v_used s → v_fetched s' = v_fetched s →
  vinv (delete h R) Q U s'.
Proof.
  intros Hv Hr Hp Ho Hf E1 E2 E3 E4 E5 E6 E7.
  assert (∀ p l, p ≠ Seen → in_phase R p l → in_phase (delete h R) p l) as Hph.
  { intros p l Hps [Hnd Hin]. split; [done|]. intros x. rewrite Hin. split; intros (r' & Hr' & Hp').
    - exists r'. rewrite lookup_delete_ne //. congruence.
    - apply lookup_delete_Some in Hr' as [_ Hr']. eauto. }
  split; rewrite ?E1 ?E2 ?E3 ?E4 ?E5 ?E6 ?E7; try (apply Hph; [done|apply Hv]); try apply Hv.
  - intros h' r' [Hne Hr']%lookup_delete_Some. by apply Ho.
  - intros h1 h2 r1 r2 i [_ H1]%lookup_delete_Some [_ H2]%lookup_delete_Some. by eapply (vi_disj _ _ _ _ Hv).
  - intros h1 h2 r1 r2 [_ H1]%lookup_delete_Some [_ H2]%lookup_delete_Some. by eapply (vi_buf _ _ _ _ Hv).
  - intros i Hi. rewrite Hf. destruct (decide (i ∈ idxs h r)) as [|Hn]; [done|]. intros Hfi.
    destruct (vi_free _ _ _ _ Hv i Hi Hfi) as (h' & r' & Hr' & Hin). exists h', r'. split; [|done].
    rewrite lookup_delete_ne //. intros <-. congruence.
Qed.

Lemma data_flags_next w : negb (Z.land (data_flags w) VRING_DESC_F_NEXT =? 0) = true.
Proof. by destruct w. Qed.

Lemma wp_free_chain s0 s h r :
  req_ok s0 h r → v_desc s = v_desc s0 → v_free s = v_free s0 →
  wp (free_chain h) (λ _ s', s' = foldl (λ s i, freed i s) s (idxs h r)) s.
Proof.
  intros [D0 D1 D2 Hrg Hnd _ _ _ _] Ed Ef. rewrite /idxs !NoDup_cons !not_elem_of_cons in Hnd.
  destruct Hnd as ((H01 & H02 & _) & (H12 & _) & _). rewrite /free_chain. change (Z.to_nat NUM) with 8%nat.
  destruct (Hrg h), (Hrg (rq_1 r)), (Hrg (rq_2 r)); rewrite /idxs; [rewrite elem_of_3; auto..|].
  do 3 (cbn [free_chain_loop]; rewrite ?data_flags_next; wp_steps; simpl; fn_simpl; rewrite ?Ed ?D0 ?D1 ?D2;
    apply wp_free_desc; [done|simpl; fn_simpl; by rewrite Ef|]; simpl).
  by wp_steps.
Qed.

Lemma wp_finish R Q U s h r :
  vinv R Q U s → R !! h = Some r → rq_phase r = Seen →
  wp (finish h) (λ _ s', vinv (delete h R) Q U s' ∧ same_blocks s s' ∧ v_held s' = v_held s) s.
Proof.
  intros Hv Hr Hp. rewrite /finish. apply wp_bind, wp_modify.
  eapply wp_mono; [by apply (wp_free_chain s _ h r); [apply (vi_req _ _ _ _ Hv)|..]|].
  intros _ s' (Hf & Hd & E)%freed_all_at. simpl in Hf, Hd.
  split; [|by rewrite E]. apply (vinv_remove R Q U s _ h r); try done; try by rewrite E.
  intros h' r' Hne Hr'. pose proof (vi_req _ _ _ _ Hv _ _ Hr') as Ho.
  apply (req_ok_frame s); try done; try (by rewrite E); [|rewrite E /=; by fn_simpl].
  intros i Hi. assert (i ∉ idxs h r) as Hn by (intros Hn; apply Hne; by eapply (vi_disj _ _ _ _ Hv)).
  rewrite Hf Hd // decide_False //.
Qed.

(** ** Actions *)

(** The parts of [virtio_disk_rw] between two sleeps, the interrupt handler,
    and the device. *)
Inductive action := Start (b : Z) (w : bool) | Fetch | Complete (h : Z) | Intr | Finish (h : Z).

Definition start (b : Z) (w : bool) : M vdisk unit :=
  sector ← gets (λ s, u64 (u32 (v_blockno s b * (BSIZE / 512))));
  acquire VDISK;;
  r ← alloc3_desc;
  (match r with
   | Some [i0; i1; i2] => submit b w sector i0 i1 i2
   | _ => mret tt
   end);;
  release VDISK.

Definition act `{Device} (a : action) : M vdisk unit :=
  match a with
  | Start b w => start b w
  | Fetch => dev_fetch
  | Complete h => dev_complete h
  | Intr => virtio_disk_intr
  | Finish h => acquire VDISK;; finish h;; release VDISK
  end.

(** When an action can happen: a buffer has at most one request, since its
    sleep lock is held; the device works on what it took; a request ends when
    its buffer is no longer busy. *)
Definition enabled (R : gmap Z rq) (s : vdisk) (a : action) : Prop :=
  match a with
  | Start b _ => (∀ h r, R !! h = Some r → rq_b r ≠ b) ∧ 0 ≤ v_blockno s b < 2 ^ 31
  | Fetch | Intr => True
  | Complete h => ∃ r, R !! h = Some r ∧ rq_phase r = Fetched
  | Finish h => ∃ r, R !! h = Some r ∧ v_busy s (rq_b r) = false
  end.

Definition effect (a : action) (R R' : gmap Z rq) (s s' : vdisk) : Prop :=
  match a with
  | Start b w =>
      same_blocks s s' ∧
      ((R' = R ∧ (2 ≤ size R)%nat) ∨ ∃ h i1 i2, R !! h = None ∧ R' = <[h := mk_rq b w i1 i2 Queued 0]> R)
  | Fetch =>
      same_blocks s s' ∧
      ((R' = R ∧ ∀ h r, R !! h = Some r → rq_phase r ≠ Queued) ∨
       ∃ h r, R !! h = Some r ∧ rq_phase r = Queued ∧ R' = <[h := with_phase Fetched r]> R)
  | Complete h =>
      ∃ r st x, R !! h = Some r ∧ R' = <[h := ended st r]> R ∧
        same_blocks (moved x (rq_b r) (rq_write r) (v_blockno s (rq_b r)) s) s' ∧
        (st = 0 → x = payload (rq_b r) (rq_write r) (v_blockno s (rq_b r)) s)
  | Intr => same_blocks s s' ∧ R' = settle R
  | Finish h => same_blocks s s' ∧ R' = delete h R
  end.

(** With two or fewer free descriptors at least two requests are in flight. *)
Lemma in_flight R Q U s l :
  vinv R Q U s → (length l ≤ 2)%nat → (∀ j, 0 ≤ j < NUM → v_free s j = true → j ∈ l) → (2 ≤ size R)%nat.
Proof.
  intros Hv Hl Hf. set k := map_to_list R ≫= λ '(h, r), idxs h r.
  assert (length k = 3 * size R)%nat as Hk.
  { rewrite /k -length_map_to_list. induction (map_to_list R) as [|[h r] m IH]; [done|].
    rewrite bind_cons length_app IH /=. lia. }
  assert (length (seqZ 0 NUM) ≤ length (l ++ k))%nat as Hle; [|rewrite length_seqZ length_app /= in Hle; lia].
  apply submseteq_length, NoDup_submseteq; [apply NoDup_seqZ|]. intros j Hj%elem_of_seqZ. apply elem_of_app.
  destruct (v_free s j) eqn:Hfj; [left; apply Hf; [lia|done]|right].
  destruct (vi_free _ _ _ _ Hv j) as (h & r & Hr & Hin); [lia|done|].
  apply list_elem_of_bind. exists (h, r). by rewrite elem_of_map_to_list.
Qed.

Lemma start_safe R Q U s b w :
  vinv R Q U s → VDISK ∉ v_held s → enabled R s (Start b w) →
  wp (start b w)
    (λ _ s', (∃ R' Q' U', vinv R' Q' U' s' ∧ effect (Start b w) R R' s s') ∧ v_held s' = v_held s) s.
Proof.
  intros Hv Hl [Hb Hn]. rewrite /start. apply wp_bind, wp_gets, wp_bind, wp_acquire; [done|].
  set s1 := set_held _ s. assert (vinv R Q U s1) as Hv1 by by apply vinv_held.
  assert (v_held s1 ∖ {[VDISK]} = v_held s) as Hrel by by apply held_restore.
  apply wp_bind, wp_alloc3_desc.
  - intros i0 i1 i2 Hnd Hi. apply wp_bind.
    eapply wp_mono; [by apply (submit_queues R Q U s1)|]. intros _ s2 (Hv2 & Hs2 & Hh2).
    apply wp_release; [rewrite /= Hh2; set_solver|]. split; [|by rewrite /= Hh2].
    eexists _, _, _. split; [by apply vinv_held|]. split; [done|]. right. exists i0, i1, i2. split; [|done].
    destruct (R !! i0) as [r|] eqn:Hr; [|done]. destruct (vinv_not_free _ _ _ _ _ _ i0 Hv1 Hr); [|apply idxs_head].
    apply Hi. left.
  - intros l s2 Hlen Hf Hu. wp_steps. assert (v_held s2 = v_held s1) as Hh2 by by rewrite (ut_rest _ _ Hu).
    apply wp_release; [rewrite /= Hh2; set_solver|]. split; [|by rewrite /= Hh2].
    exists R, Q, U. split; [by eapply vinv_held, vinv_untouched|]. split; [by rewrite (ut_rest _ _ Hu)|]. left. split; [done|].
    by eapply in_flight.
Qed.

(** An action between taking and giving back the driver's lock. *)
Lemma wp_locked (c : M vdisk unit) (P : vdisk → Prop) s :
  VDISK ∉ v_held s → (∀ s' h, P s' → P (set_v_held h s')) →
  wp c (λ _ s', P s' ∧ v_held s' = {[VDISK]} ∪ v_held s) (set_v_held ({[VDISK]} ∪ v_held s) s) →
  wp (acquire VDISK;; c;; release VDISK) (λ _ s', P s' ∧ v_held s' = v_held s) s.
Proof.
  intros Hl HP Hc. apply wp_bind, wp_acquire; [done|]. apply wp_bind. eapply wp_mono; [exact Hc|].
  intros _ s' [Hs' Hh]. apply wp_release; [rewrite /= Hh; set_solver|]. split; [by apply HP|].
  by rewrite /= Hh held_restore.
Qed.

Lemma fetch_safe `{Device} R Q U s :
  vinv R Q U s →
  wp dev_fetch (λ _ s', (∃ R' Q' U', vinv R' Q' U' s' ∧ effect Fetch R R' s s') ∧ v_held s' = v_held s) s.
Proof.
  intros Hv. eapply wp_mono; [apply dev_fetch_law|]. intros _ s' ->.
  split; [|by rewrite /taken; destruct (_ =? _)].
  destruct (vinv_taken _ _ _ _ Hv) as (R' & Q' & Hv' & Hnil & Hcons). exists R', Q', U. split; [done|]. split; [by rewrite /taken; destruct (_ =? _)|].
  destruct Q as [|h Q].
  - left. split; [by apply Hnil|]. intros h r Hr Hp.
    assert (h ∈ []) as Hx by (apply (vi_Q _ _ _ _ Hv); eauto). by apply elem_of_nil in Hx.
  - right. destruct (Hcons h Q eq_refl) as (_ & r & ? & ? & ?). eauto.
Qed.

Lemma complete_safe `{Device} R Q U s h :
  vinv R Q U s → enabled R s (Complete h) →
  wp (dev_complete h)
    (λ _ s', (∃ R' Q' U', vinv R' Q' U' s' ∧ effect (Complete h) R R' s s') ∧ v_held s' = v_held s) s.
Proof.
  intros Hv (r & Hr & Hp). eapply wp_mono; [by eapply wp_complete|]. intros _ s' (x & Hx & ->).
  split; [eexists _, _, _; split; [by apply vinv_served|exists r, (dev_status h s), x]|];
    by rewrite /served /moved; destruct (rq_write r).
Qed.

Lemma intr_runs R Q U s :
  vinv R Q U s → VDISK ∉ v_held s → ¬ failed R →
  wp virtio_disk_intr (λ _ s', vinv (settle R) Q [] s' ∧ same_blocks s s' ∧ v_held s' = v_held s) s.
Proof.
  intros Hv Hl HR. rewrite /virtio_disk_intr. apply wp_bind, wp_acquire; [done|]. apply wp_bind, wp_modify, wp_bind.
  eapply wp_mono; [apply (wp_intr_loop _ U R Q)|].
  - pose proof (rh_len _ _ _ _ (vi_used _ _ _ _ Hv)). lia.
  - by apply (vinv_frame _ _ _ s).
  - done.
  - simpl. intros _ s' (Hv' & Hs & Hh). apply wp_release; [rewrite /= Hh; set_solver|].
    split; [by apply vinv_held|]. split; [done|]. rewrite /= Hh. by apply held_restore.
Qed.

Lemma intr_panics R Q U s :
  vinv R Q U s → VDISK ∉ v_held s → failed R → virtio_disk_intr s = Panic "virtio_disk_intr status".
Proof.
  intros Hv Hl HR. rewrite /virtio_disk_intr {1}/mbind {1}/M_bind acquire_eq //.
  rewrite {1}/mbind {1}/M_bind {1}/modify {1}/mbind {1}/M_bind (intr_loop_panics _ U R Q) //.
  - pose proof (rh_len _ _ _ _ (vi_used _ _ _ _ Hv)). lia.
  - by apply (vinv_frame _ _ _ s).
Qed.

Lemma intr_safe R Q U s :
  vinv R Q U s → VDISK ∉ v_held s → ¬ failed R →
  wp virtio_disk_intr
    (λ _ s', (∃ R' Q' U', vinv R' Q' U' s' ∧ effect Intr R R' s s') ∧ v_held s' = v_held s) s.
Proof.
  intros Hv Hl HR. eapply wp_mono; [by eapply intr_runs|]. intros _ s' (Hv' & Hs & Hh). split; [|done].
  by exists (settle R), Q, [].
Qed.

Lemma finish_safe R Q U s h :
  vinv R Q U s → VDISK ∉ v_held s → enabled R s (Finish h) →
  wp (acquire VDISK;; finish h;; release VDISK)
    (λ _ s', (∃ R' Q' U', vinv R' Q' U' s' ∧ effect (Finish h) R R' s s') ∧ v_held s' = v_held s) s.
Proof.
  intros Hv Hl (r & Hr & Hb). rewrite (ro_busy _ _ _ (vi_req _ _ _ _ Hv _ _ Hr)) in Hb.
  apply bool_decide_eq_false, dec_stable in Hb.
  apply (wp_locked _ (λ s', ∃ R' Q' U', vinv R' Q' U' s' ∧ effect (Finish h) R R' s s')); [done| |].
  - intros s' l (R' & Q' & U' & Hv' & He). exists R', Q', U'. split; [by apply vinv_held|done].
  - eapply wp_mono; [by eapply wp_finish; [apply vinv_held|..]|]. intros _ s' (Hv' & Hs & Hh). split; [|done].
    by exists (delete h R), Q, U.
Qed.

(** C7: the disk driver and the device are safe together.  Take any state
    that the invariant describes, with any requests in flight, and any action
    that can happen in it: a process starts a request, the device takes or
    finishes one, well or with an error, the interrupt handler runs, a process
    whose buffer is no longer busy ends its request.  The action runs to its
    end -- no panic, no use of a null buffer pointer, no chain that the device
    cannot follow -- and the invariant holds again: requests in flight have
    disjoint descriptors and keep them.  The one exception is the interrupt
    handler when a finished request has an error status, which panics and says
    so.  A start fails only with two or more requests in flight.  Only the
    device moves data, once per request, between the buffer and the block the
    request names. *)
Theorem disk_action_safe `{Device} a R Q U s :
  vinv R Q U s → VDISK ∉ v_held s → enabled R s a →
  (¬ (a = Intr ∧ failed R) →
    wp (act a) (λ _ s', (∃ R' Q' U', vinv R' Q' U' s' ∧ effect a R R' s s') ∧ v_held s' = v_held s) s) ∧
  (a = Intr ∧ failed R → act a s = Panic "virtio_disk_intr status").
Proof.
  intros Hv Hl Hen. split.
  - intros Hf. destruct a as [b w| |h| |h].
    + by eapply start_safe.
    + apply (fetch_safe _ _ _ _ Hv).
    + by eapply complete_safe.
    + eapply intr_safe; [done..|]. intros ?. by apply Hf.
    + by eapply finish_safe.
  - intros [-> Hf]. by eapply intr_panics.
Qed.

(** The driver after [virtio_disk_init]. *)
Definition idle0 : vdisk := set_v_free (λ _, true) vdisk0.

Lemma in_phase_empty p : in_phase ∅ p [].
Proof.
  split; [constructor|]. intros h. rewrite elem_of_nil. split; [done|]. intros (r & Hr & _). by rewrite lookup_empty in Hr.
Qed.

Lemma idle0_vinv : vinv ∅ [] [] idle0.
Proof.
  split; try (intros *; by rewrite lookup_empty); try apply in_phase_empty; try done; by apply ring_empty.
Qed.

Lemma not_failed_empty : ¬ failed ∅.
Proof. intros (h & r & Hr & _). by rewrite lookup_empty in Hr. Qed.

Lemma disk_action_witness :
  wp (act (Start 3 true))
    (λ _ s', (∃ R' Q' U', vinv R' Q' U' s' ∧ effect (Start 3 true) ∅ R' idle0 s') ∧ v_held s' = ∅) idle0.
Proof.
  apply (disk_action_safe (Start 3 true) ∅ [] [] idle0); [exact idle0_vinv|by apply not_elem_of_empty| |].
  - split; [intros h r; by rewrite lookup_empty|done].
  - by intros [? _].
Defined.

(** ** A request on its own *)

(** The device takes the request, serves it and raises its interrupt. *)
Definition serve `{Device} : M vdisk unit :=
  dev_fetch;;
  l ← gets v_fetched;
  (match l with
   | h :: _ => dev_complete h
   | [] => mret tt
   end);;
  virtio_disk_intr.

(** The outcome of a run that the device may spoil: it returns with [Q], or
    the device failed the request for buffer [b] and the driver panics. *)
Definition unless_failed `{Device} {A} (b : Z) (w : bool) (n : Z) (c : M vdisk A) (Q : A → vdisk → Prop) (s : vdisk) : Prop :=
  match c s with
  | Ret (a, s') => Q a s'
  | Panic m => m = "virtio_disk_intr status" ∧
      ∃ s1 h h1 h2, chain s1 h h1 h2 b w n ∧ h ∈ v_fetched s1 ∧ dev_status h s1 ≠ 0
  | _ => False
  end.

Section unless_failed.
Context `{Device} (b : Z) (w : bool) (n : Z).

Lemma uf_wp {A} (c : M vdisk A) Q s : wp c Q s → unless_failed b w n c Q s.
Proof. rewrite /wp /unless_failed. by destruct (c s) as [[a s']| | |]. Qed.

Lemma uf_bind {A B} (c : M vdisk A) (k : A → M vdisk B) Q s :
  unless_failed b w n c (λ a, unless_failed b w n (k a) Q) s → unless_failed b w n (c ≫= k) Q s.
Proof. rewrite /unless_failed /mbind /M_bind. by destruct (c s) as [[a s']| | |]. Qed.

Lemma uf_wp_bind {A B} (c : M vdisk A) (k : A → M vdisk B) Q s :
  wp c (λ a, unless_failed b w n (k a) Q) s → unless_failed b w n (c ≫= k) Q s.
Proof. intros Hc. by apply uf_bind, uf_wp. Qed.

Lemma uf_mono {A} (c : M vdisk A) (P Q : A → vdisk → Prop) s :
  unless_failed b w n c P s → (∀ a s', P a s' → Q a s') → unless_failed b w n c Q s.
Proof. rewrite /unless_failed. destruct (c s) as [[a s']| | |]; naive_solver. Qed.
End unless_failed.

Lemma failed_singleton h r st : failed {[h := ended st r]} ↔ st ≠ 0.
Proof.
  split; [|intros Hst; exists h, (ended st r); by rewrite lookup_singleton_eq].
  by intros (h' & r' & [_ <-]%lookup_singleton_Some & _ & Hst).
Qed.

Lemma serve_runs `{Device} h r s :
  vinv {[h := r]} [h] [] s → VDISK ∉ v_held s →
  let n := v_blockno s (rq_b r) in
  unless_failed (rq_b r) (rq_write r) n serve
    (λ _ s', (∃ r', vinv {[h := r']} [] [] s' ∧ rq_phase r' = Seen ∧ rq_b r' = rq_b r) ∧
       same_blocks (moved (payload (rq_b r) (rq_write r) n s) (rq_b r) (rq_write r) n s) s' ∧ v_held s' = v_held s) s.
Proof.
  intros Hv Hl n. rewrite /serve. apply uf_wp_bind. eapply wp_mono; [apply dev_fetch_law|]. cbv beta. intros _ s1 Es1.
  destruct (vinv_taken _ _ _ _ Hv) as (R & Q & Hv1 & _ & Hc).
  destruct (Hc h [] eq_refl) as (-> & r' & Hr & Hp & ->). rewrite lookup_singleton_eq in Hr. injection Hr as <-.
  rewrite -Es1 insert_singleton_eq in Hv1.
  assert (same_blocks s s1 ∧ v_held s1 = v_held s) as [(Hsd & Hsb & Hsn) Hh].
  { rewrite Es1 /taken. by destruct (_ =? _). }
  apply uf_wp_bind, wp_gets, uf_wp_bind. pose proof (vi_F _ _ _ _ Hv1) as [_ Hin]. destruct (v_fetched s1) as [|h' l] eqn:El.
  { assert (h ∈ @nil Z) as Hx; [|by apply elem_of_nil in Hx].
    apply Hin. exists (with_phase Fetched r). by rewrite lookup_singleton_eq. }
  destruct (proj1 (Hin h')) as (r2 & [<- <-]%lookup_singleton_Some & _); [left|].
  eapply wp_mono; [by apply (wp_complete _ _ _ _ h (with_phase Fetched r) Hv1); [apply lookup_singleton_eq|]|].
  cbv beta. intros _ s2 (x & Hx & Es2).
  pose proof (vinv_served _ _ _ _ h (with_phase Fetched r) (dev_status h s1) x Hv1 (lookup_singleton_eq _ _) eq_refl) as Hv2.
  rewrite -Es2 insert_singleton_eq in Hv2.
  assert (v_held s2 = v_held s) as Hh2 by (rewrite Es2 /served /moved /=; by destruct (rq_write r)).
  destruct (decide (dev_status h s1 = 0)) as [Hst|Hst].
  - assert (same_blocks (moved (payload (rq_b r) (rq_write r) n s) (rq_b r) (rq_write r) n s) s2) as Hb.
    { rewrite Es2 (Hx Hst) /served /moved /same_blocks /payload /= Hsn. destruct (rq_write r); rewrite /= ?Hsn ?Hsd ?Hsb; done. }
    apply uf_wp. eapply wp_mono; [eapply intr_runs; [exact Hv2|by rewrite Hh2|rewrite failed_singleton; by intros Hne]|].
    intros _ s3 (Hv3 & (E1 & E2 & E3) & Hh3). rewrite /settle map_fmap_singleton in Hv3.
    split; [eexists; split; [exact Hv3|by split]|]. split; [|congruence]. by rewrite /same_blocks E1 E2 E3.
  - rewrite /unless_failed (intr_panics _ _ _ _ Hv2); [|by rewrite Hh2|by rewrite failed_singleton]. split; [done|].
    destruct (vi_req _ _ _ _ Hv1 h (with_phase Fetched r) (lookup_singleton_eq _ _)) as [D0 D1 D2 _ _ _ _ HO _].
    exists s1, h, (rq_1 r), (rq_2 r). split_and!; [|rewrite El; left|done]. split; [done..|].
    rewrite HO /=. by rewrite Hsn.
Qed.

(** The wait for the request: it is served during the first sleep. *)
Lemma done_wait_runs `{Device} fuel h r s :
  vinv {[h := r]} [h] [] s → v_busy s (rq_b r) = true → VDISK ∈ v_held s → (2 ≤ fuel)%nat →
  let n := v_blockno s (rq_b r) in
  unless_failed (rq_b r) (rq_write r) n (done_wait serve fuel (rq_b r))
    (λ _ s', (∃ r', vinv {[h := r']} [] [] s' ∧ rq_phase r' = Seen ∧ rq_b r' = rq_b r) ∧
       same_blocks (moved (payload (rq_b r) (rq_write r) n s) (rq_b r) (rq_write r) n s) s' ∧ v_held s' = v_held s) s.
Proof.
  intros Hv Hb Hl Hf n. destruct fuel as [|[|fuel]]; [lia|lia|]. cbn [done_wait]. apply uf_wp_bind, wp_gets. rewrite Hb.
  apply uf_bind. rewrite /vsleep. apply uf_wp_bind, wp_release; [done|]. apply uf_bind.
  eapply uf_mono; [apply (serve_runs h r); [by apply vinv_held|simpl; set_solver]|].
  intros _ s1 ((r' & Hv1 & Hp & Eb) & Hs1 & Hh1). apply uf_wp, wp_acquire; [rewrite /= Hh1 /=; set_solver|].
  apply uf_wp_bind, wp_gets. simpl.
  assert (v_busy s1 (rq_b r) = false) as ->.
  { by rewrite -Eb (ro_busy _ _ _ (vi_req _ _ _ _ Hv1 h r' (lookup_singleton_eq _ _))) Hp. }
  apply uf_wp, wp_ret. split; [exists r'; split; [by apply vinv_held|done]|]. split; [by destruct (rq_write r)|].
  rewrite /= Hh1 /=. by rewrite union_comm_L difference_union_L union_comm_L subseteq_union_1_L; [|set_solver].
Qed.

(** The state of the file system code, [fsst], has the disk and the buffers
    of the driver. *)
Definition agrees (f : fsst) (s : vdisk) : Prop :=
  disk f = v_blocks s ∧ ∀ b, blockno (bufs f b) = v_blockno s b ∧ data (bufs f b) = v_data s b.

Definition idle (s : vdisk) : Prop := vinv ∅ [] [] s ∧ VDISK ∉ v_held s.

Lemma agrees_moved f s b w s' :
  agrees f s → same_blocks (moved (payload b w (v_blockno s b) s) b w (v_blockno s b) s) s' → ∃ f', disk_rw b w f = Ret (tt, f') ∧ agrees f' s'.
Proof.
  intros [Hd Hb] (E1 & E2 & E3). destruct (Hb b) as [Hn Hdt].
  rewrite /moved /payload in E1 E2 E3. destruct w; simpl in *; eexists; (split; [done|]); split; simpl.
  - by rewrite E2 Hd Hn Hdt.
  - intros b'. rewrite E1 E3. apply Hb.
  - by rewrite E2 Hd.
  - intros b'. rewrite E1 E3 Hd Hn. destruct (decide (b' = b)) as [->|Hne]; [by fn_simpl|].
    fn_simpl. apply Hb.
Qed.

(** C19: a disk request is atomic.  The file system code uses the disk
    through [disk_rw], which moves a block between a buffer and the disk in one
    step.  From an idle driver, [virtio_disk_rw] with a device that serves
    the request while the process sleeps returns, leaves the driver idle
    again -- all descriptors free, the rings empty, the lock released -- and
    has exactly the effect of [disk_rw] on the disk and the buffers.  If the
    device reports an error for this request, and only then, the driver panics
    instead. *)
Theorem virtio_disk_rw_refines `{Device} fuel f s b w :
  idle s → agrees f s → 0 ≤ v_blockno s b < 2 ^ 31 → (2 ≤ fuel)%nat →
  unless_failed b w (v_blockno s b) (virtio_disk_rw serve fuel b w)
    (λ _ s', idle s' ∧ ∃ f', disk_rw b w f = Ret (tt, f') ∧ agrees f' s') s.
Proof.
  intros [Hv Hl] Ha Hn Hf. rewrite /virtio_disk_rw. apply uf_wp_bind, wp_gets, uf_wp_bind, wp_acquire; [done|].
  set s1 := set_held _ s. assert (vinv ∅ [] [] s1) as Hv1 by by apply vinv_held.
  apply uf_wp_bind. destruct fuel as [|fuel]; [lia|]. cbn [alloc_wait]. apply wp_bind, wp_alloc3_desc.
  2:{ intros l s2 Hlen Hfr _. pose proof (in_flight _ _ _ _ _ Hv1 Hlen Hfr) as Hsz. rewrite map_size_empty in Hsz. lia. }
  intros i0 i1 i2 Hnd Hi. apply wp_ret, uf_wp_bind.
  eapply wp_mono; [apply (submit_queues ∅ [] [] s1); [done|done|done|intros h r; by rewrite lookup_empty|done]|].
  rewrite insert_empty. intros _ s2 (Hv2 & Hs2 & Hh2). set r := mk_rq b w i1 i2 Queued 0 in Hv2.
  assert (VDISK ∈ v_held s2) by (rewrite Hh2 /=; set_solver). pose proof Hs2 as (_ & _ & Ebn).
  apply uf_bind. change (v_blockno s b) with (v_blockno s1 b). rewrite -Ebn.
  eapply uf_mono; [apply (done_wait_runs _ i0 r); [done| |done|done]|].
  { by rewrite (ro_busy _ _ _ (vi_req _ _ _ _ Hv2 i0 r (lookup_singleton_eq _ _))). }
  intros _ s3 ((r' & Hv3 & Hp3 & Eb3) & Hs3 & Hh3). apply uf_wp_bind.
  eapply wp_mono; [by eapply wp_finish; [done|apply lookup_singleton_eq|]|].
  rewrite delete_singleton_eq. intros _ s4 (Hv4 & Hs4 & Hh4).
  apply uf_wp, wp_release; [rewrite /= Hh4 Hh3 //|].
  split; [split; [by apply vinv_held|rewrite /= Hh4 Hh3 Hh2; set_solver]|].
  eapply agrees_moved; [done|]. destruct Hs2 as (E1 & E2 & E3), Hs3 as (F1 & F2 & F3), Hs4 as (G1 & G2 & G3).
  rewrite /same_blocks /= G1 G2 G3 F1 F2 F3 /moved /payload /=. by destruct w; simpl; rewrite ?E1 ?E2 ?E3.
Qed.

(** With the device above, which does not fail, the request is carried out. *)
Lemma virtio_disk_rw_witness :
  wp (virtio_disk_rw serve 2 3 true)
    (λ _ s', idle s' ∧ ∃ f', disk_rw 3 true (fs_boot ∅) = Ret (tt, f') ∧ agrees f' s') idle0.
Proof.
  assert (idle idle0 ∧ agrees (fs_boot ∅) idle0) as [Hi Ha].
  { split; [split; [exact idle0_vinv|by apply not_elem_of_empty]|]. split; [done|]. intros b. by destruct (decide (b = NBUF)). }
  assert (0 ≤ v_blockno idle0 3 < 2 ^ 31) as Hn by done. assert (2 ≤ 2)%nat as Hf by lia.
  pose proof (virtio_disk_rw_refines 2 (fs_boot ∅) idle0 3 true Hi Ha Hn Hf) as H.
  revert H. rewrite /unless_failed /wp. destruct (virtio_disk_rw serve 2 3 true idle0) as [[a s']|m| |]; [done| |done|done].
  by intros (_ & s1 & h & h1 & h2 & _ & _ & Hst).
Defined.
