(* ===== verification/State.v ===== *)
(** * The state of the kernel (kernel/proc.h, kernel/file.h, kernel/pipe.c)

    The record [kern] puts together the page allocator's memory, the file
    system, the process table, the file table, the pipes, the console and the
    control registers of the hart that runs.  A process, a file and an inode
    are named by their index in their table, a pipe by its address.  The
    components below are lifted to [kern] with [in_mem] and [in_fs].

    Kernel memory that C code treats as bytes is in [mem]: a local variable is
    at a fixed offset in the kernel stack of the running process ([local]), and
    the data of a buffer is copied to and from its address ([bdata]) when it
    is the source or the destination of a copy. *)

From stdpp Require Import functions list.
From S2P Require Import Prelude Mem Cstring Riscv Spinlock Kalloc Vm Uvm Cow Sleeplock Bio Bcache Log Fs Virtio.

Local Open Scope Z_scope.

Notation NPROC := 64.
Notation NOFILE := 16.
Notation NFILE := 100.
Notation NDEV := 10.
Notation MAXARG := 32.
Notation MAXPATH := 128.
Notation CONSOLE := 1.
Notation PIPESIZE := 512.
Notation INPUT_BUF_SIZE := 128.
Notation UART_TX_BUF_SIZE := 32.

(** ** Processes *)

Inductive procstate := UNUSED | USED | SLEEPING | RUNNABLE | RUNNING | ZOMBIE.

#[global] Instance procstate_eq_dec : EqDecision procstate.
Proof. solve_decision. Defined.

(** What a process may sleep on: the address given to [sleep]. *)
Inductive chan :=
| ChProc (slot : Z) | ChPipeRead (pi : Z) | ChPipeWrite (pi : Z) | ChTicks | ChCons | ChUart | ChLog.

#[global] Instance chan_eq_dec : EqDecision chan.
Proof. solve_decision. Defined.

(** [struct context]: the registers a kernel context switch saves. *)
Record context := mk_context { c_ra : Z; c_sp : Z; c_saved : list Z }.

(** [struct proc] *)
Record proc := mk_proc {
  p_state : procstate;
  p_chan : option chan;
  p_killed : bool;
  p_xstate : Z;
  p_pid : Z;
  p_parent : option Z;
  p_kstack : Z;
  p_sz : Z;
  p_pagetable : Z;
  p_trapframe : Z;
  p_context : context;
  p_ofile : gmap Z Z;  (** the open files, by descriptor *)
  p_cwd : option Z;
  p_name : list Z;  (** a C string *)
}.

Definition with_p_state (v : procstate) (p : proc) : proc :=
  mk_proc v (p_chan p) (p_killed p) (p_xstate p) (p_pid p) (p_parent p) (p_kstack p) (p_sz p) (p_pagetable p)
    (p_trapframe p) (p_context p) (p_ofile p) (p_cwd p) (p_name p).
Definition with_p_chan (v : option chan) (p : proc) : proc :=
  mk_proc (p_state p) v (p_killed p) (p_xstate p) (p_pid p) (p_parent p) (p_kstack p) (p_sz p) (p_pagetable p)
    (p_trapframe p) (p_context p) (p_ofile p) (p_cwd p) (p_name p).
Definition with_p_killed (v : bool) (p : proc) : proc :=
  mk_proc (p_state p) (p_chan p) v (p_xstate p) (p_pid p) (p_parent p) (p_kstack p) (p_sz p) (p_pagetable p)
    (p_trapframe p) (p_context p) (p_ofile p) (p_cwd p) (p_name p).
Definition with_p_xstate (v : Z) (p : proc) : proc :=
  mk_proc (p_state p) (p_chan p) (p_killed p) v (p_pid p) (p_parent p) (p_kstack p) (p_sz p) (p_pagetable p)
    (p_trapframe p) (p_context p) (p_ofile p) (p_cwd p) (p_name p).
Definition with_p_pid (v : Z) (p : proc) : proc :=
  mk_proc (p_state p) (p_chan p) (p_killed p) (p_xstate p) v (p_parent p) (p_kstack p) (p_sz p) (p_pagetable
    p) (p_trapframe p) (p_context p) (p_ofile p) (p_cwd p) (p_name p).
Definition with_p_parent (v : option Z) (p : proc) : proc :=
  mk_proc (p_state p) (p_chan p) (p_killed p) (p_xstate p) (p_pid p) v (p_kstack p) (p_sz p) (p_pagetable p)
    (p_trapframe p) (p_context p) (p_ofile p) (p_cwd p) (p_name p).
Definition with_p_kstack (v : Z) (p : proc) : proc :=
  mk_proc (p_state p) (p_chan p) (p_killed p) (p_xstate p) (p_pid p) (p_parent p) v (p_sz p) (p_pagetable p)
    (p_trapframe p) (p_context p) (p_ofile p) (p_cwd p) (p_name p).
Definition with_p_sz (v : Z) (p : proc) : proc :=
  mk_proc (p_state p) (p_chan p) (p_killed p) (p_xstate p) (p_pid p) (p_parent p) (p_kstack p) v (p_pagetable
    p) (p_trapframe p) (p_context p) (p_ofile p) (p_cwd p) (p_name p).
Definition with_p_pagetable (v : Z) (p : proc) : proc :=
  mk_proc (p_state p) (p_chan p) (p_killed p) (p_xstate p) (p_pid p) (p_parent p) (p_kstack p) (p_sz p) v
    (p_trapframe p) (p_context p) (p_ofile p) (p_cwd p) (p_name p).
Definition with_p_trapframe (v : Z) (p : proc) : proc :=
  mk_proc (p_state p) (p_chan p) (p_killed p) (p_xstate p) (p_pid p) (p_parent p) (p_kstack p) (p_sz p)
    (p_pagetable p) v (p_context p) (p_ofile p) (p_cwd p) (p_name p).
Definition with_p_context (v : context) (p : proc) : proc :=
  mk_proc (p_state p) (p_chan p) (p_killed p) (p_xstate p) (p_pid p) (p_parent p) (p_kstack p) (p_sz p)
    (p_pagetable p) (p_trapframe p) v (p_ofile p) (p_cwd p) (p_name p).
Definition with_p_ofile (v : gmap Z Z) (p : proc) : proc :=
  mk_proc (p_state p) (p_chan p) (p_killed p) (p_xstate p) (p_pid p) (p_parent p) (p_kstack p) (p_sz p)
    (p_pagetable p) (p_trapframe p) (p_context p) v (p_cwd p) (p_name p).
Definition with_p_cwd (v : option Z) (p : proc) : proc :=
  mk_proc (p_state p) (p_chan p) (p_killed p) (p_xstate p) (p_pid p) (p_parent p) (p_kstack p) (p_sz p)
    (p_pagetable p) (p_trapframe p) (p_context p) (p_ofile p) v (p_name p).
Definition with_p_name (v : list Z) (p : proc) : proc :=
  mk_proc (p_state p) (p_chan p) (p_killed p) (p_xstate p) (p_pid p) (p_parent p) (p_kstack p) (p_sz p)
    (p_pagetable p) (p_trapframe p) (p_context p) (p_ofile p) (p_cwd p) v.

(** ** Files and pipes *)

Inductive filetype := FD_NONE | FD_PIPE | FD_INODE | FD_DEVICE.

#[global] Instance filetype_eq_dec : EqDecision filetype.
Proof. solve_decision. Defined.

(** [struct file] *)
Record file := mk_file {
  f_type : filetype;
  f_ref : Z;
  f_readable : bool;
  f_writable : bool;
  f_pipe : Z;
  f_ip : Z;
  f_off : Z;
  f_major : Z;
}.

Definition with_f_type (v : filetype) (f : file) : file :=
  mk_file v (f_ref f) (f_readable f) (f_writable f) (f_pipe f) (f_ip f) (f_off f) (f_major f).
Definition with_f_ref (v : Z) (f : file) : file :=
  mk_file (f_type f) v (f_readable f) (f_writable f) (f_pipe f) (f_ip f) (f_off f) (f_major f).
Definition with_f_readable (v : bool) (f : file) : file :=
  mk_file (f_type f) (f_ref f) v (f_writable f) (f_pipe f) (f_ip f) (f_off f) (f_major f).
Definition with_f_writable (v : bool) (f : file) : file :=
  mk_file (f_type f) (f_ref f) (f_readable f) v (f_pipe f) (f_ip f) (f_off f) (f_major f).
Definition with_f_pipe (v : Z) (f : file) : file :=
  mk_file (f_type f) (f_ref f) (f_readable f) (f_writable f) v (f_ip f) (f_off f) (f_major f).
Definition with_f_ip (v : Z) (f : file) : file :=
  mk_file (f_type f) (f_ref f) (f_readable f) (f_writable f) (f_pipe f) v (f_off f) (f_major f).
Definition with_f_off (v : Z) (f : file) : file :=
  mk_file (f_type f) (f_ref f) (f_readable f) (f_writable f) (f_pipe f) (f_ip f) v (f_major f).
Definition with_f_major (v : Z) (f : file) : file :=
  mk_file (f_type f) (f_ref f) (f_readable f) (f_writable f) (f_pipe f) (f_ip f) (f_off f) v.

(** [struct devsw]: the functions the kernel ever connects to a device. *)
Inductive devread := DR_consoleread.
Inductive devwrite := DW_consolewrite.
Record devsw := mk_devsw { dev_read : option devread; dev_write : option devwrite }.

(** [struct pipe] *)
Record pipe := mk_pipe {
  pi_data : gmap Z Z;
  pi_nread : Z;
  pi_nwrite : Z;
  pi_readopen : bool;
  pi_writeopen : bool;
}.

Definition with_pi_data (v : gmap Z Z) (pi : pipe) : pipe :=
  mk_pipe v (pi_nread pi) (pi_nwrite pi) (pi_readopen pi) (pi_writeopen pi).
Definition with_pi_nread (v : Z) (pi : pipe) : pipe :=
  mk_pipe (pi_data pi) v (pi_nwrite pi) (pi_readopen pi) (pi_writeopen pi).
Definition with_pi_nwrite (v : Z) (pi : pipe) : pipe :=
  mk_pipe (pi_data pi) (pi_nread pi) v (pi_readopen pi) (pi_writeopen pi).
Definition with_pi_readopen (v : bool) (pi : pipe) : pipe :=
  mk_pipe (pi_data pi) (pi_nread pi) (pi_nwrite pi) v (pi_writeopen pi).
Definition with_pi_writeopen (v : bool) (pi : pipe) : pipe :=
  mk_pipe (pi_data pi) (pi_nread pi) (pi_nwrite pi) (pi_readopen pi) v.

(** ** The console *)

(** [cons] *)
Record cons := mk_cons {
  cs_buf : gmap Z Z;
  cs_r : Z;  (** read index *)
  cs_w : Z;  (** write index *)
  cs_e : Z;  (** edit index *)
}.

Definition with_cs_buf (v : gmap Z Z) (c : cons) : cons :=
  mk_cons v (cs_r c) (cs_w c) (cs_e c).
Definition with_cs_r (v : Z) (c : cons) : cons :=
  mk_cons (cs_buf c) v (cs_w c) (cs_e c).
Definition with_cs_w (v : Z) (c : cons) : cons :=
  mk_cons (cs_buf c) (cs_r c) v (cs_e c).
Definition with_cs_e (v : Z) (c : cons) : cons :=
  mk_cons (cs_buf c) (cs_r c) (cs_w c) v.

(** The variables of uart.c and the device behind its registers. *)
Record uart := mk_uart {
  u_buf : gmap Z Z;  (** [uart_tx_buf] *)
  u_w : Z;  (** [uart_tx_w] *)
  u_r : Z;  (** [uart_tx_r] *)
  u_room : nat;  (** bytes the device takes before it is busy *)
  u_out : list Z;  (** bytes written to THR, newest first *)
  u_in : list Z;  (** bytes waiting in RHR *)
  u_regs : gmap Z Z;  (** the control registers written *)
}.

Definition with_u_buf (v : gmap Z Z) (u : uart) : uart :=
  mk_uart v (u_w u) (u_r u) (u_room u) (u_out u) (u_in u) (u_regs u).
Definition with_u_w (v : Z) (u : uart) : uart :=
  mk_uart (u_buf u) v (u_r u) (u_room u) (u_out u) (u_in u) (u_regs u).
Definition with_u_r (v : Z) (u : uart) : uart :=
  mk_uart (u_buf u) (u_w u) v (u_room u) (u_out u) (u_in u) (u_regs u).
Definition with_u_room (v : nat) (u : uart) : uart :=
  mk_uart (u_buf u) (u_w u) (u_r u) v (u_out u) (u_in u) (u_regs u).
Definition with_u_out (v : list Z) (u : uart) : uart :=
  mk_uart (u_buf u) (u_w u) (u_r u) (u_room u) v (u_in u) (u_regs u).
Definition with_u_in (v : list Z) (u : uart) : uart :=
  mk_uart (u_buf u) (u_w u) (u_r u) (u_room u) (u_out u) v (u_regs u).
Definition with_u_regs (v : gmap Z Z) (u : uart) : uart :=
  mk_uart (u_buf u) (u_w u) (u_r u) (u_room u) (u_out u) (u_in u) v.

(** ** The hart *)

(** The supervisor control registers and [tp]. *)
Record csr := mk_csr {
  c_sstatus : Z;
  c_sepc : Z;
  c_scause : Z;
  c_stval : Z;
  c_stvec : Z;
  c_satp : Z;
  c_sip : Z;
  c_tp : Z;
}.

Definition with_c_sstatus (v : Z) (c : csr) : csr :=
  mk_csr v (c_sepc c) (c_scause c) (c_stval c) (c_stvec c) (c_satp c) (c_sip c) (c_tp c).
Definition with_c_sepc (v : Z) (c : csr) : csr :=
  mk_csr (c_sstatus c) v (c_scause c) (c_stval c) (c_stvec c) (c_satp c) (c_sip c) (c_tp c).
Definition with_c_scause (v : Z) (c : csr) : csr :=
  mk_csr (c_sstatus c) (c_sepc c) v (c_stval c) (c_stvec c) (c_satp c) (c_sip c) (c_tp c).
Definition with_c_stval (v : Z) (c : csr) : csr :=
  mk_csr (c_sstatus c) (c_sepc c) (c_scause c) v (c_stvec c) (c_satp c) (c_sip c) (c_tp c).
Definition with_c_stvec (v : Z) (c : csr) : csr :=
  mk_csr (c_sstatus c) (c_sepc c) (c_scause c) (c_stval c) v (c_satp c) (c_sip c) (c_tp c).
Definition with_c_satp (v : Z) (c : csr) : csr :=
  mk_csr (c_sstatus c) (c_sepc c) (c_scause c) (c_stval c) (c_stvec c) v (c_sip c) (c_tp c).
Definition with_c_sip (v : Z) (c : csr) : csr :=
  mk_csr (c_sstatus c) (c_sepc c) (c_scause c) (c_stval c) (c_stvec c) (c_satp c) v (c_tp c).
Definition with_c_tp (v : Z) (c : csr) : csr :=
  mk_csr (c_sstatus c) (c_sepc c) (c_scause c) (c_stval c) (c_stvec c) (c_satp c) (c_sip c) v.

(** ** The kernel *)

Record kern := mk_kern {
  k_mem : kst;  (** memory and the page allocator *)
  k_fs : fsst;  (** the file system *)
  k_procs : Z → proc;  (** [proc[]] *)
  k_cur : option Z;  (** [mycpu()->proc] *)
  k_files : Z → file;  (** [ftable.file[]] *)
  k_pipes : gmap Z pipe;  (** the pipes, by address *)
  k_initproc : option Z;
  k_nextpid : Z;
  k_ticks : Z;
  k_first : bool;  (** [first] of [forkret] *)
  k_devsw : Z → devsw;  (** [devsw[]] *)
  k_locking : bool;  (** [pr.locking] *)
  k_pagetable : Z;  (** [kernel_pagetable] *)
  k_cons : cons;
  k_uart : uart;
  k_vdisk : vdisk;  (** the disk driver *)
  k_csr : csr;  (** the hart's control registers *)
  k_held : gset lockid;  (** the other spin locks held *)
}.

Definition set_k_mem (v : kst) (s : kern) : kern :=
  mk_kern v (k_fs s) (k_procs s) (k_cur s) (k_files s) (k_pipes s) (k_initproc s) (k_nextpid s) (k_ticks s)
    (k_first s) (k_devsw s) (k_locking s) (k_pagetable s) (k_cons s) (k_uart s) (k_vdisk s) (k_csr s) (k_held
    s).
Definition set_k_fs (v : fsst) (s : kern) : kern :=
  mk_kern (k_mem s) v (k_procs s) (k_cur s) (k_files s) (k_pipes s) (k_initproc s) (k_nextpid s) (k_ticks s)
    (k_first s) (k_devsw s) (k_locking s) (k_pagetable s) (k_cons s) (k_uart s) (k_vdisk s) (k_csr s) (k_held
    s).
Definition set_k_procs (v : Z → proc) (s : kern) : kern :=
  mk_kern (k_mem s) (k_fs s) v (k_cur s) (k_files s) (k_pipes s) (k_initproc s) (k_nextpid s) (k_ticks s)
    (k_first s) (k_devsw s) (k_locking s) (k_pagetable s) (k_cons s) (k_uart s) (k_vdisk s) (k_csr s) (k_held
    s).
Definition set_k_cur (v : option Z) (s : kern) : kern :=
  mk_kern (k_mem s) (k_fs s) (k_procs s) v (k_files s) (k_pipes s) (k_initproc s) (k_nextpid s) (k_ticks s)
    (k_first s) (k_devsw s) (k_locking s) (k_pagetable s) (k_cons s) (k_uart s) (k_vdisk s) (k_csr s) (k_held
    s).
Definition set_k_files (v : Z → file) (s : kern) : kern :=
  mk_kern (k_mem s) (k_fs s) (k_procs s) (k_cur s) v (k_pipes s) (k_initproc s) (k_nextpid s) (k_ticks s)
    (k_first s) (k_devsw s) (k_locking s) (k_pagetable s) (k_cons s) (k_uart s) (k_vdisk s) (k_csr s) (k_held
    s).
Definition set_k_pipes (v : gmap Z pipe) (s : kern) : kern :=
  mk_kern (k_mem s) (k_fs s) (k_procs s) (k_cur s) (k_files s) v (k_initproc s) (k_nextpid s) (k_ticks s)
    (k_first s) (k_devsw s) (k_locking s) (k_pagetable s) (k_cons s) (k_uart s) (k_vdisk s) (k_csr s) (k_held
    s).
Definition set_k_initproc (v : option Z) (s : kern) : kern :=
  mk_kern (k_mem s) (k_fs s) (k_procs s) (k_cur s) (k_files s) (k_pipes s) v (k_nextpid s) (k_ticks s)
    (k_first s) (k_devsw s) (k_locking s) (k_pagetable s) (k_cons s) (k_uart s) (k_vdisk s) (k_csr s) (k_held
    s).
Definition set_k_nextpid (v : Z) (s : kern) : kern :=
  mk_kern (k_mem s) (k_fs s) (k_procs s) (k_cur s) (k_files s) (k_pipes s) (k_initproc s) v (k_ticks s)
    (k_first s) (k_devsw s) (k_locking s) (k_pagetable s) (k_cons s) (k_uart s) (k_vdisk s) (k_csr s) (k_held
    s).
Definition set_k_ticks (v : Z) (s : kern) : kern :=
  mk_kern (k_mem s) (k_fs s) (k_procs s) (k_cur s) (k_files s) (k_pipes s) (k_initproc s) (k_nextpid s) v
    (k_first s) (k_devsw s) (k_locking s) (k_pagetable s) (k_cons s) (k_uart s) (k_vdisk s) (k_csr s) (k_held
    s).
Definition set_k_first (v : bool) (s : kern) : kern :=
  mk_kern (k_mem s) (k_fs s) (k_procs s) (k_cur s) (k_files s) (k_pipes s) (k_initproc s) (k_nextpid s)
    (k_ticks s) v (k_devsw s) (k_locking s) (k_pagetable s) (k_cons s) (k_uart s) (k_vdisk s) (k_csr s)
    (k_held s).
Definition set_k_devsw (v : Z → devsw) (s : kern) : kern :=
  mk_kern (k_mem s) (k_fs s) (k_procs s) (k_cur s) (k_files s) (k_pipes s) (k_initproc s) (k_nextpid s)
    (k_ticks s) (k_first s) v (k_locking s) (k_pagetable s) (k_cons s) (k_uart s) (k_vdisk s) (k_csr s)
    (k_held s).
Definition set_k_locking (v : bool) (s : kern) : kern :=
  mk_kern (k_mem s) (k_fs s) (k_procs s) (k_cur s) (k_files s) (k_pipes s) (k_initproc s) (k_nextpid s)
    (k_ticks s) (k_first s) (k_devsw s) v (k_pagetable s) (k_cons s) (k_uart s) (k_vdisk s) (k_csr s) (k_held
    s).
Definition set_k_pagetable (v : Z) (s : kern) : kern :=
  mk_kern (k_mem s) (k_fs s) (k_procs s) (k_cur s) (k_files s) (k_pipes s) (k_initproc s) (k_nextpid s)
    (k_ticks s) (k_first s) (k_devsw s) (k_locking s) v (k_cons s) (k_uart s) (k_vdisk s) (k_csr s) (k_held
    s).
Definition set_k_cons (v : cons) (s : kern) : kern :=
  mk_kern (k_mem s) (k_fs s) (k_procs s) (k_cur s) (k_files s) (k_pipes s) (k_initproc s) (k_nextpid s)
    (k_ticks s) (k_first s) (k_devsw s) (k_locking s) (k_pagetable s) v (k_uart s) (k_vdisk s) (k_csr s)
    (k_held s).
Definition set_k_uart (v : uart) (s : kern) : kern :=
  mk_kern (k_mem s) (k_fs s) (k_procs s) (k_cur s) (k_files s) (k_pipes s) (k_initproc s) (k_nextpid s)
    (k_ticks s) (k_first s) (k_devsw s) (k_locking s) (k_pagetable s) (k_cons s) v (k_vdisk s) (k_csr s)
    (k_held s).
Definition set_k_vdisk (v : vdisk) (s : kern) : kern :=
  mk_kern (k_mem s) (k_fs s) (k_procs s) (k_cur s) (k_files s) (k_pipes s) (k_initproc s) (k_nextpid s)
    (k_ticks s) (k_first s) (k_devsw s) (k_locking s) (k_pagetable s) (k_cons s) (k_uart s) v (k_csr s)
    (k_held s).
Definition set_k_csr (v : csr) (s : kern) : kern :=
  mk_kern (k_mem s) (k_fs s) (k_procs s) (k_cur s) (k_files s) (k_pipes s) (k_initproc s) (k_nextpid s)
    (k_ticks s) (k_first s) (k_devsw s) (k_locking s) (k_pagetable s) (k_cons s) (k_uart s) (k_vdisk s) v
    (k_held s).
Definition set_k_held (v : gset lockid) (s : kern) : kern :=
  mk_kern (k_mem s) (k_fs s) (k_procs s) (k_cur s) (k_files s) (k_pipes s) (k_initproc s) (k_nextpid s)
    (k_ticks s) (k_first s) (k_devsw s) (k_locking s) (k_pagetable s) (k_cons s) (k_uart s) (k_vdisk s) (k_csr
    s) v.

#[global, refine] Instance kern_locks : HasLocks kern := {| held := k_held; set_held := set_k_held |}.
Proof. all: by intros; try destruct s. Defined.

(** Addresses the linker and the compiler choose: the code the kernel takes
    the address of, and the data of the buffers. *)
Class KernelSyms := {
  forkret_addr : Z;
  usertrap_addr : Z;
  kernelvec_addr : Z;
  uservec_off : Z;   (** [uservec - trampoline] *)
  userret_off : Z;   (** [userret - trampoline] *)
  bdata : Z → Z;     (** [bcache.buf[b].data] *)
  initcode_addr : Z; (** [initcode] *)
  str_root : Z;      (** the string constants "/", "." and ".." *)
  str_dot : Z;
  str_dotdot : Z;
}.

(** ** Lifting *)

Section lift.
Context {S T A : Type} (get : S → T) (put : T → S → S).

(** Run [c] on a part of the state. *)
Definition zoom (c : M T A) : M S A := λ s,
  match c (get s) with
  | Ret (a, t) => Ret (a, put t s)
  | Panic msg => Panic msg
  | UB => UB
  | Fuel => Fuel
  end.

Lemma wp_zoom (c : M T A) (Q : A → S → Prop) s :
  wp c (λ a t, Q a (put t s)) (get s) → wp (zoom c) Q s.
Proof. rewrite /wp /zoom. by destruct (c (get s)) as [[a t]| | |]. Qed.
End lift.

Definition in_mem {A} (c : M kst A) : M kern A := zoom k_mem set_k_mem c.

(** The running process's pid is what sleep locks record. *)
Definition set_fpid (p : Z) (s : fsst) : fsst :=
  mk_fsst (disk s) (wtrace s) (bufs s) (lg s) (sb s) (inodes s) (fheld s) p.
Definition cur_pid (s : kern) : Z :=
  match k_cur s with Some p => p_pid (k_procs s p) | None => 0 end.
Definition in_fs {A} (c : M fsst A) : M kern A :=
  zoom (λ s, set_fpid (cur_pid s) (k_fs s)) set_k_fs c.

Definition in_vdisk {A} (c : M vdisk A) : M kern A := zoom k_vdisk set_k_vdisk c.

(** ** Access to the tables *)

Definition proc_at (p : Z) : M kern proc := gets (λ s, k_procs s p).
Definition upd_proc (p : Z) (f : proc → proc) : M kern unit :=
  modify (λ s, set_k_procs (<[p := f (k_procs s p)]> (k_procs s)) s).
Definition file_at (f : Z) : M kern file := gets (λ s, k_files s f).
Definition upd_file (f : Z) (g : file → file) : M kern unit :=
  modify (λ s, set_k_files (<[f := g (k_files s f)]> (k_files s)) s).
Definition upd_csr (f : csr → csr) : M kern unit := modify (λ s, set_k_csr (f (k_csr s)) s).

(** [myproc()]; the callers below never run without a process. *)
Definition myproc : M kern Z :=
  c ← gets k_cur;
  match c with Some p => mret p | None => undefined end.

(** [p->trapframe->field], the field at offset [off]. *)
Definition tf_get (p off : Z) : M kern Z := x ← proc_at p; in_mem (load64 (p_trapframe x + off)).
Definition tf_set (p off v : Z) : M kern unit := x ← proc_at p; in_mem (store64 (p_trapframe x + off) v).

Notation TF_KERNEL_SATP := 0.
Notation TF_KERNEL_SP := 8.
Notation TF_KERNEL_TRAP := 16.
Notation TF_EPC := 24.
Notation TF_KERNEL_HARTID := 32.
Notation TF_SP := 48.
Notation TF_A0 := 112.
Notation TF_A1 := 120.
Notation TF_A2 := 128.
Notation TF_A3 := 136.
Notation TF_A4 := 144.
Notation TF_A5 := 152.
Notation TF_A7 := 168.

(** The address of a local variable at offset [k] of the running process's
    kernel stack. *)
Definition local (k : Z) : M kern Z := p ← myproc; x ← proc_at p; mret (p_kstack x + k).

(** The kernel's variables when it starts, all zero but [nextpid] and
    [first]. *)
Definition proc0 : proc :=
  mk_proc UNUSED None false 0 0 None 0 0 0 0 (mk_context 0 0 []) ∅ None [].
Definition file0 : file := mk_file FD_NONE 0 false false 0 0 0 0.
Definition kern0 : kern :=
  mk_kern (mk_kst ∅ 0 ∅ ∅) (fs_boot ∅) (λ _, proc0) None (λ _, file0) ∅ None 1 0 true (λ _, mk_devsw None None)
    false 0 (mk_cons ∅ 0 0 0) (mk_uart ∅ 0 0 1 [] [] ∅) vdisk0 (mk_csr 0 0 0 0 0 0 0 0) ∅.

(** Some addresses, for concrete runs. *)
Definition demo_syms : KernelSyms :=
  {| forkret_addr := 0x80001000; usertrap_addr := 0x80001100; kernelvec_addr := 0x80001200; uservec_off := 0;
     userret_off := 0x90; bdata b := 0x80010000 + 2048 * b; initcode_addr := 0x80008000; str_root := 0x80008100;
     str_dot := 0x80008102; str_dotdot := 0x80008104 |}.
