(* ===== verification/Sched.v ===== *)
(** * Scheduling, sleep and wakeup (kernel/proc.c)

    The part of proc.c the rest of the kernel calls.  [swtch] hands the hart
    to the scheduler and returns when the process is chosen again; what the
    other processes do in between is the parameter [others], and for the
    scheduler what the chosen process does is the parameter [run].  The depth
    [noff] is the number of spin locks held, and interrupts are off while one
    is. *)

From stdpp Require Import functions list.
From S2P Require Import Prelude Mem Cstring Riscv Spinlock Kalloc Vm Uvm Cow Sleeplock Bio Bcache Log Fs Virtio State.

Local Open Scope Z_scope.

(** What happens between the two ends of a [swtch] out of process [p], and
    how many times a loop that waits for another process is followed. *)
Class Others := { others : Z → M kern unit; patience : nat }.

(** A hart on which nothing else happens, for concrete runs. *)
Definition no_others : Others := {| others _ := mret tt; patience := 3 |}.

Notation SSTATUS_SPP := 0x100.
Notation SSTATUS_SPIE := 0x20.
Notation SSTATUS_SIE := 2.

Definition noff (s : kern) : nat := size (k_held s) + size (kheld (k_mem s)) + size (fheld (k_fs s)).

Definition intr_on : M kern unit := upd_csr (λ c, with_c_sstatus (Z.lor (c_sstatus c) SSTATUS_SIE) c).
Definition intr_off : M kern unit :=
  upd_csr (λ c, with_c_sstatus (Z.land (c_sstatus c) (Z.lnot SSTATUS_SIE)) c).
Definition intr_get : M kern bool :=
  gets (λ s, flag (c_sstatus (k_csr s)) SSTATUS_SIE && (noff s =? 0)%nat).

Definition is_state (st : procstate) (p : proc) : bool := bool_decide (p_state p = st).

Definition procinit : M kern unit :=
  modify (λ s, set_held (held s ∖ {[PID_LOCK]}) s);;
  modify (λ s, set_held (held s ∖ {[WAIT_LOCK]}) s);;
  for_upto 0 NPROC (λ p,
    modify (λ s, set_held (held s ∖ {[PROC p]}) s);;
    upd_proc p (with_p_state UNUSED);;
    upd_proc p (with_p_kstack (KSTACK p))).

(** The pids are ints, and an int must not overflow. *)
Definition allocpid : M kern Z :=
  acquire PID_LOCK;;
  pid ← gets k_nextpid;
  (if pid =? 2 ^ 31 - 1 then undefined else modify (set_k_nextpid (pid + 1)));;
  release PID_LOCK;;
  mret pid.

Section sched.
Context {OT : Others}.

Definition sched : M kern unit :=
  p ← myproc;
  h ← gets (λ s, bool_decide (PROC p ∈ held s));
  if negb h then panic "sched p->lock"
  else
    n ← gets noff;
    if negb (n =? 1)%nat then panic "sched locks"
    else
      x ← proc_at p;
      if is_state RUNNING x then panic "sched running"
      else
        i ← intr_get;
        if i : bool then panic "sched interruptible"
        else others p.

Definition yield : M kern unit :=
  p ← myproc;
  acquire (PROC p);;
  upd_proc p (with_p_state RUNNABLE);;
  sched;;
  release (PROC p).

Definition sleep (c : chan) (lk : lockid) : M kern unit :=
  p ← myproc;
  acquire (PROC p);;
  release lk;;
  upd_proc p (with_p_chan (Some c));;
  upd_proc p (with_p_state SLEEPING);;
  sched;;
  upd_proc p (with_p_chan None);;
  release (PROC p);;
  acquire lk.
End sched.

(** The body of the loop of [wakeup]. *)
Definition wakeup_one (c : chan) (p : Z) : M kern unit :=
  cur ← gets k_cur;
  if bool_decide (cur = Some p) then mret tt
  else
    acquire (PROC p);;
    x ← proc_at p;
    (if is_state SLEEPING x && bool_decide (p_chan x = Some c)
     then upd_proc p (with_p_state RUNNABLE) else mret tt);;
    release (PROC p).

Definition wakeup (c : chan) : M kern unit := for_upto 0 NPROC (wakeup_one c).

Fixpoint kill_loop (n : nat) (p pid : Z) : M kern Z :=
  match n with
  | O => mret (-1)
  | S n' =>
      acquire (PROC p);;
      x ← proc_at p;
      if p_pid x =? pid then
        upd_proc p (with_p_killed true);;
        (if is_state SLEEPING x then upd_proc p (with_p_state RUNNABLE) else mret tt);;
        release (PROC p);;
        mret 0
      else
        release (PROC p);;
        kill_loop n' (p + 1) pid
  end.

Definition kill (pid : Z) : M kern Z := kill_loop (Z.to_nat NPROC) 0 pid.

Definition setkilled (p : Z) : M kern unit :=
  acquire (PROC p);;
  upd_proc p (with_p_killed true);;
  release (PROC p).

Definition killed (p : Z) : M kern bool :=
  acquire (PROC p);;
  x ← proc_at p;
  release (PROC p);;
  mret (p_killed x).

(** One round of [scheduler] over the process table. *)
Definition scheduler_one (run : Z → M kern unit) (p : Z) : M kern unit :=
  acquire (PROC p);;
  x ← proc_at p;
  (if is_state RUNNABLE x then
     upd_proc p (with_p_state RUNNING);;
     modify (set_k_cur (Some p));;
     run p;;
     modify (set_k_cur None)
   else mret tt);;
  release (PROC p).

Definition scheduler_round (run : Z → M kern unit) : M kern unit :=
  intr_on;;
  for_upto 0 NPROC (scheduler_one run).

(** [scheduler] never returns: its first [n] rounds. *)
Fixpoint scheduler_rounds (n : nat) (run : Z → M kern unit) : M kern unit :=
  match n with
  | O => mret tt
  | S n' => scheduler_round run;; scheduler_rounds n' run
  end.

Definition scheduler (n : nat) (run : Z → M kern unit) : M kern unit :=
  modify (set_k_cur None);;
  scheduler_rounds n run.

(** ** Copies to and from the running process *)

Section copy.
Context {KI : KernelImage}.

Definition either_copyout (user_dst : bool) (dst src len : Z) : M kern Z :=
  p ← myproc;
  x ← proc_at p;
  if user_dst then in_mem (copyout (p_pagetable x) (p_pagetable x) dst src len)
  else in_mem (kmemmove dst src (u32 len));; mret 0.

Definition either_copyin (dst : Z) (user_src : bool) (src len : Z) : M kern Z :=
  p ← myproc;
  x ← proc_at p;
  if user_src then in_mem (copyin (p_pagetable x) dst src len)
  else in_mem (kmemmove dst src (u32 len));; mret 0.
End copy.

(** ** What [wakeup] does *)

(** Process [p] after [wakeup(c)] by process [cur]. *)
Definition woken (c : chan) (cur : option Z) (p : Z) (x : proc) : proc :=
  if bool_decide (cur = Some p) then x
  else if is_state SLEEPING x && bool_decide (p_chan x = Some c) then with_p_state RUNNABLE x
  else x.

Lemma wp_upd_proc p f (Q : unit → kern → Prop) s :
  Q tt (set_k_procs (<[p := f (k_procs s p)]> (k_procs s)) s) → wp (upd_proc p f) Q s.
Proof. done. Qed.
Lemma wp_proc_at p (Q : proc → kern → Prop) s : Q (k_procs s p) s → wp (proc_at p) Q s.
Proof. done. Qed.

Lemma wp_wakeup_one c p (Q : unit → kern → Prop) s :
  PROC p ∉ held s →
  (∀ ps, (∀ q, ps q = if decide (q = p) then woken c (k_cur s) p (k_procs s p) else k_procs s q) →
         Q tt (set_k_procs ps s)) →
  wp (wakeup_one c p) Q s.
Proof.
  intros Hl HQ. rewrite /wakeup_one. apply wp_bind, wp_gets. rewrite /woken in HQ. case_bool_decide as Hc.
  { apply wp_ret. specialize (HQ (k_procs s)). destruct s; apply HQ. intros q. by case_decide; subst. }
  apply wp_bind, wp_acquire; [done|]. apply wp_bind, wp_proc_at. simpl.
  destruct (is_state SLEEPING (k_procs s p) && bool_decide (p_chan (k_procs s p) = Some c)).
  - apply wp_bind, wp_upd_proc, wp_release; [rewrite /held /=; set_solver|].
    rewrite /held /= in Hl |- *. rewrite held_restore //. destruct s; apply HQ. simpl. intros q.
    rewrite /insert /fn_insert. by repeat case_decide; subst.
  - apply wp_bind, wp_ret, wp_release; [rewrite /held /=; set_solver|].
    rewrite /held /= in Hl |- *. rewrite held_restore //. specialize (HQ (k_procs s)). destruct s; apply HQ.
    intros q. by case_decide; subst.
Qed.

(** No lock of a process is held. *)
Definition procs_free (s : kern) : Prop := ∀ p, PROC p ∉ held s.

Lemma wp_wakeup c (Q : unit → kern → Prop) s :
  procs_free s →
  (∀ ps, (∀ q, ps q = if decide (0 ≤ q < NPROC) then woken c (k_cur s) q (k_procs s q) else k_procs s q) →
         Q tt (set_k_procs ps s)) →
  wp (wakeup c) Q s.
Proof.
  intros Hl HQ.
  apply (wp_for_upto (λ i s', ∃ ps, s' = set_k_procs ps s ∧
    ∀ q, ps q = if decide (0 ≤ q < i) then woken c (k_cur s) q (k_procs s q) else k_procs s q)); [lia|..].
  - exists (k_procs s). split; [by destruct s|]. intros q. rewrite decide_False //; lia.
  - intros p ? Hp (ps & -> & Hps). apply wp_wakeup_one; [apply Hl|]. intros ps' Hps'.
    exists ps'. split; [by destruct s|]. intros q. rewrite Hps' /=. case_decide; subst.
    + rewrite decide_True; [|lia]. rewrite Hps decide_False //; lia.
    + rewrite Hps. repeat case_decide; try done; lia.
  - intros ? (ps & -> & Hps). by apply HQ.
Qed.

(** ** Fairness of the scheduler *)

Section fair.
(** [turns s]: the processes that have had a turn, the last one first. *)
Context (run : Z → M kern unit) (turns : kern → list Z).

Definition runnable (p : Z) (s : kern) : Prop := p_state (k_procs s p) = RUNNABLE.

(** A turn of process [p], from the [swtch] of the scheduler to the one back:
    it comes back with only its own lock, it had this turn and no other, and
    it does not take the right to run from the others. *)
Definition good_turn (p : Z) : Prop := ∀ s,
  held s = {[PROC p]} → k_cur s = Some p → p_state (k_procs s p) = RUNNING →
  wp (run p) (λ _ s', held s' = {[PROC p]} ∧ turns s' = p :: turns s ∧ ∀ q, q ≠ p → runnable q s → runnable q s') s.

(** Having had a turn is not a matter of the scheduler's own variables. *)
Definition same_rest (s s' : kern) : Prop :=
  ∃ h c ps x, s' = set_k_held h (set_k_cur c (set_k_procs ps (set_k_csr x s))).
Definition turn_frame : Prop := ∀ s s', same_rest s s' → turns s' = turns s.

Local Ltac rest := match goal with |- same_rest ?s _ => destruct s; by eexists _, _, _, _ end.

Lemma wp_scheduler_one p s :
  (∀ q, good_turn q) → turn_frame → held s = ∅ →
  wp (scheduler_one run p)
    (λ _ s', held s' = ∅ ∧ ((runnable p s ∧ turns s' = p :: turns s) ∨ (¬ runnable p s ∧ turns s' = turns s)) ∧
             ∀ q, q ≠ p → runnable q s → runnable q s') s.
Proof.
  intros Hrun HR Hh. rewrite /scheduler_one. apply wp_bind, wp_acquire; [rewrite Hh; set_solver|].
  apply wp_bind, wp_proc_at. rewrite /is_state. rewrite /held /= in Hh |- *. rewrite Hh right_id_L.
  case_bool_decide as Hst.
  - apply wp_bind, wp_bind, wp_upd_proc. apply wp_bind, wp_modify. apply wp_bind.
    eapply wp_mono; [apply Hrun; [done..|simpl; by rewrite fn_lookup_insert]|].
    intros [] s' (Hh' & HRp & Hq). apply wp_modify, wp_release; [rewrite /held /= in Hh' |- *; set_solver|].
    rewrite /held /= in Hh' |- *. rewrite Hh'. split; [set_solver|]. split.
    { left. split; [done|]. rewrite (HR s'); [|rest]. rewrite HRp. f_equal. apply HR. rest. }
    intros q Hne Hx. apply Hq; [done|]. rewrite /runnable /=. by rewrite fn_lookup_insert_ne.
  - apply wp_bind, wp_ret, wp_release; [rewrite /held /=; set_solver|]. rewrite /held /=.
    split; [set_solver|]. split; [right; split; [done|]; apply HR; rest|done].
Qed.

(** C34: a round of the scheduler gives every process that is ready to run
    one turn: whatever the processes do in their turns, provided each comes
    back and none takes the readiness of another away, every process that was
    RUNNABLE when the round began has run when it ends, and no process has run
    twice. *)
Theorem scheduler_fair s :
  (∀ q, good_turn q) → turn_frame → held s = ∅ →
  wp (scheduler_round run) (λ _ s', held s' = ∅ ∧ ∃ l, turns s' = l ++ turns s ∧ NoDup l ∧
    ∀ p, 0 ≤ p < NPROC → runnable p s → p ∈ l) s.
Proof.
  intros Hrun HR Hh. rewrite /scheduler_round. apply wp_bind, wp_modify.
  apply (wp_for_upto (λ i s', held s' = ∅ ∧ ∃ l, turns s' = l ++ turns s ∧ NoDup l ∧ (∀ p, p ∈ l → p < i) ∧
    ∀ p, 0 ≤ p < NPROC → runnable p s → if decide (p < i) then p ∈ l else runnable p s')); [lia|..].
  - split; [done|]. exists []. split_and!; [apply HR; exists (k_held s), (k_cur s), (k_procs s), (with_c_sstatus (Z.lor (c_sstatus (k_csr s)) 2) (k_csr s)); by destruct s|constructor|by intros p ?%elem_of_nil|].
    intros p Hp Hr. rewrite decide_False //; lia.
  - intros i s' Hi (Hh' & l & Hl & Hnd & Hlt & HI). eapply wp_mono; [by apply wp_scheduler_one|].
    intros [] s'' (Hh'' & Ht & Hq). split; [done|]. destruct Ht as [[Hr Ht]|[Hnr Ht]].
    + exists (i :: l). split_and!; [by rewrite Ht Hl|constructor; [|done]; intros ?%Hlt; lia| |].
      * intros p [->|Hp%Hlt]%elem_of_cons; lia.
      * intros p Hp Hrp. specialize (HI p Hp Hrp). destruct (decide (p = i)) as [->|Hne].
        -- rewrite decide_True; [left|lia].
        -- repeat case_decide; try lia; [by right|by apply Hq].
    + exists l. split_and!; [by rewrite Ht|done|intros p Hp%Hlt; lia|]. intros p Hp Hrp. specialize (HI p Hp Hrp).
      destruct (decide (p = i)) as [->|Hne]; [rewrite decide_False // in HI; lia|].
      repeat case_decide; try lia; [done|by apply Hq].
  - intros s' (? & l & Hl & Hnd & _ & HI). split; [done|]. exists l. split_and!; [done..|].
    intros p Hp Hr. specialize (HI p Hp Hr). by rewrite decide_True in HI; [|lia].
Qed.
End fair.

(** A process that only leaves its number behind and yields. *)
Definition tick_run (p : Z) : M kern unit :=
  modify (λ s, set_k_uart (with_u_out (p :: u_out (k_uart s)) (k_uart s)) s);;
  upd_proc p (with_p_state RUNNABLE).
Definition ticks_of (s : kern) : list Z := u_out (k_uart s).

Lemma scheduler_fair_witness :
  wp (scheduler_round tick_run) (λ _ s, held s = ∅ ∧ 63 ∈ ticks_of s ∧ NoDup (ticks_of s))
    (set_k_procs (λ _, with_p_state RUNNABLE proc0) kern0).
Proof.
  eapply wp_mono.
  - apply (scheduler_fair tick_run ticks_of).
    + intros q s Hh Hc Hst. apply wp_bind, wp_modify, wp_upd_proc. split; [exact Hh|]. split; [reflexivity|].
      intros p Hp. rewrite /runnable /=. by rewrite fn_lookup_insert_ne.
    + intros s s' (h & c & ps & x & ->). by destruct s.
    + reflexivity.
  - intros [] s' (Hh & l & Hl & Hnd & H). split; [exact Hh|]. rewrite Hl app_nil_r. split; [apply H; [lia|reflexivity]|exact Hnd].
Defined.

(** ** No wake-up is lost

    Processes on several harts, at the grain of the lock operations of
    [sleep] and [wakeup]: a waiter runs [acquire(lk); while(!cond)
    sleep(chan, lk); release(lk);] and a notifier runs [acquire(lk); cond = 1;
    wakeup(chan); release(lk);]. *)
Module SleepWakeup.

Inductive pc :=
| W_start | W_test
| W_sleep1  (** in [sleep], before [acquire(&p->lock)] *)
| W_sleep2  (** before [release(lk)] *)
| W_sleep3  (** before [p->chan = chan; p->state = SLEEPING] *)
| W_sleep4  (** before [sched()] *)
| W_asleep  (** switched out *)
| W_resume  (** chosen by the scheduler, before [p->chan = 0; release(&p->lock)] *)
| W_relock  (** before [acquire(lk)] *)
| W_out | W_done
| N_start | N_set
| N_wake (p : Z)   (** the loop of [wakeup], before [acquire(&p->lock)] *)
| N_plock (p : Z)  (** in the loop, with [p->lock] *)
| N_out | N_done.

Record sw := mk_sw {
  at_ : Z → pc;
  lk : option Z;          (** who holds the condition's lock *)
  plk : Z → option Z;     (** who holds [p->lock] *)
  pstate : Z → procstate;
  pchan : Z → bool;       (** [p->chan == chan] *)
  cond : bool;
}.

Definition goto (i : Z) (q : pc) (s : sw) : sw :=
  mk_sw (<[i := q]> (at_ s)) (lk s) (plk s) (pstate s) (pchan s) (cond s).
Definition set_lk (o : option Z) (s : sw) : sw := mk_sw (at_ s) o (plk s) (pstate s) (pchan s) (cond s).
Definition set_plk (i : Z) (o : option Z) (s : sw) : sw :=
  mk_sw (at_ s) (lk s) (<[i := o]> (plk s)) (pstate s) (pchan s) (cond s).
Definition set_state (i : Z) (q : procstate) (s : sw) : sw :=
  mk_sw (at_ s) (lk s) (plk s) (<[i := q]> (pstate s)) (pchan s) (cond s).
Definition set_chan (i : Z) (b : bool) (s : sw) : sw :=
  mk_sw (at_ s) (lk s) (plk s) (pstate s) (<[i := b]> (pchan s)) (cond s).
Definition set_cond (s : sw) : sw := mk_sw (at_ s) (lk s) (plk s) (pstate s) (pchan s) true.

Inductive step (i : Z) (s : sw) : sw → Prop :=
| w_acquire : at_ s i = W_start ∨ at_ s i = W_relock → lk s = None →
    step i s (goto i W_test (set_lk (Some i) s))
| w_true : at_ s i = W_test → cond s = true → step i s (goto i W_out s)
| w_release : at_ s i = W_out → step i s (goto i W_done (set_lk None s))
| w_false : at_ s i = W_test → cond s = false → step i s (goto i W_sleep1 s)
| w_plock : at_ s i = W_sleep1 → plk s i = None → step i s (goto i W_sleep2 (set_plk i (Some i) s))
| w_unlock : at_ s i = W_sleep2 → step i s (goto i W_sleep3 (set_lk None s))
| w_mark : at_ s i = W_sleep3 → step i s (goto i W_sleep4 (set_state i SLEEPING (set_chan i true s)))
| w_sched : at_ s i = W_sleep4 → step i s (goto i W_asleep (set_plk i None s))
| w_run : at_ s i = W_asleep → pstate s i = RUNNABLE → plk s i = None →
    step i s (goto i W_resume (set_state i RUNNING (set_plk i (Some i) s)))
| w_resume : at_ s i = W_resume → step i s (goto i W_relock (set_plk i None (set_chan i false s)))
| n_acquire : at_ s i = N_start → lk s = None → step i s (goto i N_set (set_lk (Some i) s))
| n_set : at_ s i = N_set → step i s (goto i (N_wake 0) (set_cond s))
| n_self p : at_ s i = N_wake p → p < NPROC → p = i → step i s (goto i (N_wake (p + 1)) s)
| n_plock p : at_ s i = N_wake p → p < NPROC → p ≠ i → plk s p = None →
    step i s (goto i (N_plock p) (set_plk p (Some i) s))
| n_wake p : at_ s i = N_plock p → pstate s p = SLEEPING → pchan s p = true →
    step i s (goto i (N_wake (p + 1)) (set_plk p None (set_state p RUNNABLE s)))
| n_skip p : at_ s i = N_plock p → pstate s p ≠ SLEEPING ∨ pchan s p = false →
    step i s (goto i (N_wake (p + 1)) (set_plk p None s))
| n_end p : at_ s i = N_wake p → NPROC ≤ p → step i s (goto i N_out s)
| n_release : at_ s i = N_out → step i s (goto i N_done (set_lk None s)).

(** Waiters and notifiers anywhere in the process table, nobody started. *)
Definition initial (s : sw) : Prop :=
  (∀ i, at_ s i = W_start ∨ at_ s i = N_start) ∧ lk s = None ∧ (∀ i, plk s i = None) ∧
  (∀ i, pstate s i = RUNNING) ∧ (∀ i, pchan s i = false) ∧ cond s = false.

Inductive reachable : sw → Prop :=
| reach_init s : initial s → reachable s
| reach_step i s s' : reachable s → 0 ≤ i < NPROC → step i s s' → reachable s'.

(** A notifier that has still to look at process [p]. *)
Definition coming (p : Z) (q : pc) : Prop :=
  match q with N_wake k | N_plock k => k ≤ p | _ => False end.
Definition in_wakeup (q : pc) : Prop := match q with N_wake _ | N_plock _ => True | _ => False end.
Definition holds_lk (q : pc) : Prop :=
  match q with W_test | W_sleep1 | W_sleep2 | W_out | N_set | N_wake _ | N_plock _ | N_out => True | _ => False end.
(** Who holds the lock of process [p], by the program counters. *)
Definition holds_plk (j : Z) (q : pc) (p : Z) : Prop :=
  match q with
  | W_sleep2 | W_sleep3 | W_sleep4 | W_resume => j = p
  | N_plock k => k = p
  | _ => False
  end.
(** The process is on its way into sleep, or asleep. *)
Definition sleepy (q : pc) (st : procstate) : Prop :=
  match q with W_sleep3 | W_sleep4 => True | W_asleep => st = SLEEPING | _ => False end.

Record inv (s : sw) : Prop := {
  inv_lk : ∀ i, lk s = Some i ↔ holds_lk (at_ s i);
  inv_plk : ∀ p j, plk s p = Some j ↔ holds_plk j (at_ s j) p;
  inv_false : ∀ i, at_ s i = W_sleep1 ∨ at_ s i = W_sleep2 → cond s = false;
  inv_state : ∀ i, at_ s i = W_sleep4 ∨ at_ s i = W_asleep →
    pchan s i = true ∧ (at_ s i = W_sleep4 → pstate s i = SLEEPING) ∧
    (pstate s i = SLEEPING ∨ pstate s i = RUNNABLE);
  inv_coming : ∀ i, 0 ≤ i < NPROC → cond s = true → sleepy (at_ s i) (pstate s i) →
    ∃ j, coming i (at_ s j);
  inv_range : ∀ i, ¬ (0 ≤ i < NPROC) → at_ s i = W_start ∨ at_ s i = N_start;
}.
Lemma inv_initial s : initial s → inv s.
Proof.
  intros (Hat & Hlk & Hplk & Hst & Hch & Hc). split.
  - intros i. rewrite Hlk. destruct (Hat i) as [-> | ->]; naive_solver.
  - intros p j. rewrite Hplk. destruct (Hat j) as [-> | ->]; naive_solver.
  - done.
  - intros i. destruct (Hat i) as [-> | ->]; naive_solver.
  - by rewrite Hc.
  - intros i _. apply Hat.
Qed.

(** One step, with the program counter of the process that steps put in the
    hypotheses, and process [x] compared with it. *)
Local Ltac known :=
  repeat match goal with
  | E : at_ ?s ?i = _, H : context [at_ ?s ?i] |- _ =>
      assert_fails (constr_eq E H); progress (rewrite E in H; simpl in H)
  end.
Local Ltac on x :=
  match goal with Hs : step ?i _ _ |- _ =>
    destruct Hs as [[?|?]| | | | | | | | | | | | | | | | |]; simpl in *; known; rewrite /insert /fn_insert;
    destruct (decide (i = x)) as [<-|]; known
  end.

Lemma step_lk i s s' : inv s → step i s s' → ∀ x, lk s' = Some x ↔ holds_lk (at_ s' x).
Proof.
  intros I Hs x. pose proof (inv_lk _ I i). pose proof (inv_lk _ I x). on x; simpl; first [tauto|intuition congruence].
Qed.

Lemma step_plk i s s' : inv s → step i s s' → ∀ p x, plk s' p = Some x ↔ holds_plk x (at_ s' x) p.
Proof.
  intros I Hs p x. pose proof (inv_plk _ I p i). pose proof (inv_plk _ I p x).
  on x; simpl; repeat case_decide; subst; first [tauto|intuition congruence].
Qed.

Lemma step_false i s s' : inv s → step i s s' → ∀ x, at_ s' x = W_sleep1 ∨ at_ s' x = W_sleep2 → cond s' = false.
Proof.
  intros I Hs x. pose proof (inv_lk _ I i). pose proof (inv_lk _ I x). pose proof (inv_false _ I x).
  on x; simpl; try first [tauto|by intuition congruence].
  all: intros [E|E]; rewrite E /= in H0; intuition congruence.
Qed.

Lemma step_state i s s' : inv s → step i s s' → ∀ x, at_ s' x = W_sleep4 ∨ at_ s' x = W_asleep →
  pchan s' x = true ∧ (at_ s' x = W_sleep4 → pstate s' x = SLEEPING) ∧
  (pstate s' x = SLEEPING ∨ pstate s' x = RUNNABLE).
Proof.
  intros I Hs x. pose proof (inv_state _ I x). pose proof (inv_plk _ I x i). pose proof (inv_plk _ I x x).
  on x; simpl; repeat case_decide; subst; try first [tauto|by intuition congruence].
  intros [E|E]; rewrite E /= in H1 |- *.
  - destruct H0 as [_ H0], H1 as [_ H1]. rewrite H0 // in H1. by specialize (H1 eq_refl) as [=].
  - split; [done|]. split; [done|]. by right.
Qed.

Lemma keep_coming i q s x :
  (∃ j, coming x (at_ s j)) → (coming x (at_ s i) → coming x q) → ∃ j, coming x ((<[i := q]> (at_ s)) j).
Proof.
  intros [j Hj] Hq. rewrite /insert /fn_insert. destruct (decide (i = j)) as [->|Hne].
  - exists j. rewrite decide_True //. auto.
  - exists j. by rewrite decide_False.
Qed.

(** A process whose lock a notifier holds is not on its way into sleep. *)
Lemma plock_awake i s x st :
  inv s → at_ s i = N_plock x → sleepy (at_ s x) st → at_ s x = W_asleep ∧ st = SLEEPING.
Proof.
  intros I Hi Hsl. pose proof (proj2 (inv_plk _ I x i)) as H1. pose proof (proj2 (inv_plk _ I x x)) as H2.
  rewrite Hi /= in H1. specialize (H1 eq_refl).
  destruct (at_ s x) eqn:E; simpl in *; try done; rewrite H1 in H2; specialize (H2 eq_refl) as [= ->]; congruence.
Qed.

Lemma step_coming i s s' : inv s → step i s s' → ∀ x, 0 ≤ x < NPROC → cond s' = true →
  sleepy (at_ s' x) (pstate s' x) → ∃ j, coming x (at_ s' j).
Proof.
  intros I Hs x Hx. pose proof (inv_coming _ I x Hx) as HC. pose proof (inv_plk _ I x i) as Hi.
  pose proof (inv_plk _ I x x) as Hxx. pose proof (inv_state _ I x) as Hst. pose proof (inv_false _ I x) as Hf.
  destruct Hs as [[?|?]| | | | | | | | | | | | | | | | |]; simpl in *; intros Hc Hsl.
  13: { exists i. rewrite fn_lookup_insert /=. lia. }
  all: rewrite /insert /fn_insert in Hsl.
  all: apply keep_coming; [|match goal with E : at_ _ _ = _ |- _ => rewrite E end; simpl].
  all: destruct (decide (i = x)) as [<-|]; known; simpl in *; repeat case_decide; subst; try done; try tauto; try lia.
  - rewrite Hf // in Hc. by right.
  - by destruct (plock_awake i s x RUNNABLE).
  - by destruct (plock_awake i s x RUNNABLE).
  - destruct (decide (p = x)) as [->|]; [|lia]. destruct (plock_awake i s x (pstate s x)) as [E1 E2]; [done..|].
    destruct Hst as [E3 _]; [by right|]. destruct H0; congruence.
Qed.

Lemma sw_step_inv i s s' : inv s → 0 ≤ i < NPROC → step i s s' → inv s'.
Proof.
  intros I Hi Hs. split; [by eapply step_lk|by eapply step_plk|by eapply step_false|by eapply step_state|by eapply step_coming|].
  intros x Hx. rewrite (_ : at_ s' x = at_ s x); [by apply (inv_range _ I)|].
  destruct Hs; simpl; rewrite fn_lookup_insert_ne //; lia.
Qed.

Lemma sw_reachable_inv s : reachable s → inv s.
Proof. induction 1; [by apply inv_initial|by eapply sw_step_inv]. Qed.

(** C20: no wake-up is lost: however waiters and notifiers interleave, once
    the condition is set and no notifier is inside [wakeup], no process is
    left sleeping on it: each is ready to run, and none can go back to
    sleep. *)
Theorem no_lost_wakeup s :
  reachable s → cond s = true → (∀ j, ¬ in_wakeup (at_ s j)) →
  ∀ i, at_ s i ≠ W_sleep1 ∧ at_ s i ≠ W_sleep2 ∧ at_ s i ≠ W_sleep3 ∧ at_ s i ≠ W_sleep4 ∧
       (at_ s i = W_asleep → pstate s i = RUNNABLE).
Proof.
  intros Hr Hc Hn i. pose proof (sw_reachable_inv _ Hr) as I.
  assert (¬ sleepy (at_ s i) (pstate s i)) as Hsl.
  { intros Hsl. destruct (decide (0 ≤ i < NPROC)) as [Hi|Hi].
    - destruct (inv_coming _ I i Hi Hc Hsl) as [j Hj]. apply (Hn j). by destruct (at_ s j).
    - by destruct (inv_range _ I i Hi) as [E|E]; rewrite E in Hsl. }
  pose proof (inv_false _ I i) as Hf. pose proof (inv_state _ I i) as Hst.
  repeat split; intros E; rewrite E /= in Hsl Hf Hst |- *; try tauto; try (rewrite Hf in Hc; [done|tauto]).
Qed.

(** A waiter that finds the condition unset and a notifier that comes after. *)
Definition two : sw :=
  mk_sw (λ i, if i =? 1 then N_start else W_start) None (λ _, None) (λ _, RUNNING) (λ _, false) false.

(** The rest of the notifier's loop, over processes that do not sleep. *)
Lemma finish_loop n s p :
  reachable s → at_ s 1 = N_wake p → 2 ≤ p → p + Z.of_nat n = NPROC → at_ s 0 = W_asleep → cond s = true →
  (∀ q, plk s q = None) → (∀ q, 2 ≤ q → pstate s q ≠ SLEEPING) → (∀ j, j ≠ 1 → ¬ in_wakeup (at_ s j)) →
  ∃ s', reachable s' ∧ cond s' = true ∧ at_ s' 0 = W_asleep ∧ ∀ j, ¬ in_wakeup (at_ s' j).
Proof.
  revert s p. induction n as [|n IH]; intros s p Hr Hp H2 Hn H0 Hc Hk Hst Hj.
  { exists (goto 1 N_out s). split; [by eapply (reach_step 1); [done|lia|eapply n_end; [done|lia]]|].
    repeat split; [done..|]. intros j. simpl. destruct (decide (j = 1)) as [->|]; [rewrite fn_lookup_insert; by intros []|].
    rewrite fn_lookup_insert_ne; [by apply Hj|congruence]. }
  pose (s1 := goto 1 (N_plock p) (set_plk p (Some 1) s)).
  assert (step 1 s s1) as S1 by (apply n_plock; [done|lia|lia|done]).
  assert (step 1 s1 (goto 1 (N_wake (p + 1)) (set_plk p None s1))) as S2 by (by apply n_skip; [|left; apply Hst]).
  eapply (IH _ (p + 1)); [eapply (reach_step 1); [eapply (reach_step 1); [done|lia|exact S1]|lia|exact S2]|..]; simpl.
  - by rewrite fn_lookup_insert.
  - lia.
  - lia.
  - by rewrite !fn_lookup_insert_ne.
  - done.
  - intros q. rewrite /insert /fn_insert. by repeat case_decide.
  - done.
  - intros j Hne. rewrite !fn_lookup_insert_ne; [by apply Hj|congruence..].
Qed.

Lemma two_runs : ∃ s, reachable s ∧ cond s = true ∧ at_ s 0 = W_asleep ∧ ∀ j, ¬ in_wakeup (at_ s j).
Proof.
  assert (reachable two) as H.
  { apply reach_init. repeat split; try done. intros i. simpl. case_match; auto. }
  eassert (reachable _) as H1 by (eapply (reach_step 0 _ _ H); [lia|apply w_acquire; [by left|done]]).
  eassert (reachable _) as H2 by (eapply (reach_step 0 _ _ H1); [lia|by apply w_false]).
  eassert (reachable _) as H3 by (eapply (reach_step 0 _ _ H2); [lia|by apply w_plock]).
  eassert (reachable _) as H4 by (eapply (reach_step 0 _ _ H3); [lia|by apply w_unlock]).
  eassert (reachable _) as H5 by (eapply (reach_step 0 _ _ H4); [lia|by apply w_mark]).
  eassert (reachable _) as H6 by (eapply (reach_step 0 _ _ H5); [lia|by apply w_sched]).
  eassert (reachable _) as H7 by (eapply (reach_step 1 _ _ H6); [lia|by apply n_acquire]).
  eassert (reachable _) as H8 by (eapply (reach_step 1 _ _ H7); [lia|by apply n_set]).
  eassert (reachable _) as H9 by (eapply (reach_step 1 _ _ H8); [lia|by apply (n_plock 1 _ 0)]).
  eassert (reachable _) as H10 by (eapply (reach_step 1 _ _ H9); [lia|by apply (n_wake 1 _ 0)]).
  eassert (reachable _) as H11 by (eapply (reach_step 1 _ _ H10); [lia|by apply (n_self 1 _ 1)]).
  apply (finish_loop 62 _ 2 H11); [done|lia|done|done|done|..].
  - intros q. cbn -[insert]. rewrite /insert /fn_insert. by repeat case_decide.
  - intros q Hq. cbn -[insert]. rewrite /insert /fn_insert. repeat case_decide; try done; lia.
  - intros j Hj. cbn -[insert]. rewrite /insert /fn_insert. repeat case_decide; try (by intros []); try done.
    simpl. case_match; by intros [].
Qed.

Lemma no_lost_wakeup_witness :
  ∃ s, reachable s ∧ cond s = true ∧ at_ s 0 = W_asleep ∧ pstate s 0 = RUNNABLE.
Proof.
  destruct two_runs as (s & Hr & Hc & H0 & Hn). exists s. split; [exact Hr|]. split; [exact Hc|]. split; [exact H0|].
  destruct (no_lost_wakeup s Hr Hc Hn 0) as (_ & _ & _ & _ & H). exact (H H0).
Defined.
End SleepWakeup.
