(* ===== verification/Dir.v ===== *)
(** * File contents, directories and path names (kernel/fs.c, second half)

    Reading and writing the contents of an inode to and from kernel or user
    memory, directories as files of [struct dirent]s, and the walk of a path
    name from directory to directory.  Names and paths are strings in kernel
    memory, given by their address. *)

From stdpp Require Import functions list.
From S2P Require Import Prelude Mem Cstring Riscv Spinlock Kalloc Vm Uvm Cow Sleeplock Bio Bcache Log Fs Virtio State Sched.

Local Open Scope Z_scope.

Notation DIRSIZ := 14.
(** [sizeof(struct dirent)]; [inum] is at offset 0, [name] at 2. *)
Notation SIZEOF_DIRENT := 16.
Notation DE_INUM := 0.
Notation DE_NAME := 2.

(** The frame of local variables: the offset of each in the kernel stack. *)
Notation LOC_DE := 0.
Notation LOC_NAME := 16.
Notation LOC_ELF := 32.
Notation LOC_PH := 96.
Notation LOC_USTACK := 160.
Notation LOC_CH := 424.
Notation LOC_ST := 432.
Notation LOC_FD0 := 456.
Notation LOC_FD1 := 460.
Notation LOC_UARG := 464.
Notation LOC_XSTATE := 472.
Notation LOC_NAMEI := 480.
Notation LOC_PATH := 512.
Notation LOC_NEW := 640.
Notation LOC_OLD := 768.
Notation LOC_STR := 896.

(** Paths are shorter than [MAXPATH]. *)
Notation path_fuel := 200%nat.
Notation SLASH := 47.

(** [n] bytes of [from] at [fa] copied into [to] at [ta]. *)
Fixpoint copy_bytes (n : nat) (from : gmap Z Z) (fa : Z) (to : gmap Z Z) (ta : Z) : gmap Z Z :=
  match n with
  | O => to
  | S n' => st8 (copy_bytes n' from fa to ta) (ta + Z.of_nat n') (ld8 from (fa + Z.of_nat n'))
  end.

Section dir.
Context {KI : KernelImage} {KS : KernelSyms}.

(** The bytes of a buffer's data seen as memory, and back. *)
Definition expose (bp o n : Z) : M kern unit :=
  d ← in_fs (get_data bp);
  in_mem (modify (λ s, set_mem (copy_bytes (Z.to_nat n) d o (mem s) (bdata bp + o)) s)).
Definition absorb (bp o n : Z) : M kern unit :=
  d ← in_fs (get_data bp);
  m ← in_mem (gets mem);
  in_fs (put_data bp (copy_bytes (Z.to_nat n) m (bdata bp + o) d o)).

(** [for(tot=0; tot<n; tot+=m, off+=m, dst+=m)] *)
Fixpoint readi_loop (fuel : nat) (ip : Z) (user_dst : bool) (dst off n tot : Z) : M kern Z :=
  match fuel with
  | O => out_of_fuel
  | S fuel' =>
      if tot <? n then
        addr ← in_fs (bmap ip (off / BSIZE));
        if addr =? 0 then mret tot
        else
          x ← in_fs (inode_at ip);
          bp ← in_fs (bread (i_dev x) addr);
          let m := Z.min (n - tot) (BSIZE - off mod BSIZE) in
          expose bp (off mod BSIZE) m;;
          r ← either_copyout user_dst dst (bdata bp + off mod BSIZE) m;
          in_fs (brelse bp);;
          if r =? -1 then mret (-1)
          else readi_loop fuel' ip user_dst (dst + m) (off + m) n (tot + m)
      else mret tot
  end.

(** Each round but the first starts at a block boundary. *)
Definition io_fuel (n : Z) : nat := S (S (S (Z.to_nat (n / BSIZE)))).

Definition readi (ip : Z) (user_dst : bool) (dst off n : Z) : M kern Z :=
  x ← in_fs (inode_at ip);
  if (i_size x <? off) || (u32 (off + n) <? off) then mret 0
  else
    let n := if i_size x <? u32 (off + n) then u32 (i_size x - off) else n in
    readi_loop (io_fuel n) ip user_dst dst off n 0.

Fixpoint writei_loop (fuel : nat) (ip : Z) (user_src : bool) (src off n tot : Z) : M kern (Z * Z) :=
  match fuel with
  | O => out_of_fuel
  | S fuel' =>
      if tot <? n then
        addr ← in_fs (bmap ip (off / BSIZE));
        if addr =? 0 then mret (tot, off)
        else
          x ← in_fs (inode_at ip);
          bp ← in_fs (bread (i_dev x) addr);
          let m := Z.min (n - tot) (BSIZE - off mod BSIZE) in
          expose bp (off mod BSIZE) m;;
          r ← either_copyin (bdata bp + off mod BSIZE) user_src src m;
          absorb bp (off mod BSIZE) m;;
          if r =? -1 then
            in_fs (brelse bp);;
            mret (tot, off)
          else
            in_fs (log_write bp);;
            in_fs (brelse bp);;
            writei_loop fuel' ip user_src (src + m) (off + m) n (tot + m)
      else mret (tot, off)
  end.

Definition writei (ip : Z) (user_src : bool) (src off n : Z) : M kern Z :=
  x ← in_fs (inode_at ip);
  if (i_size x <? off) || (u32 (off + n) <? off) then mret (-1)
  else if MAXFILE * BSIZE <? u32 (off + n) then mret (-1)
  else
    r ← writei_loop (io_fuel n) ip user_src src off n 0;
    let '(tot, off) := r in
    x ← in_fs (inode_at ip);
    (if i_size x <? off then in_fs (upd_inode ip (with_size off)) else mret tt);;
    in_fs (iupdate ip);;
    mret tot.

(** ** Directories *)

Definition namecmp (s t : Z) : M kern Z := in_mem (gets (λ k, strncmp (mem k) s t DIRSIZ)).

Fixpoint dirlookup_loop (fuel : nat) (dp name off : Z) : M kern (option (Z * Z)) :=
  match fuel with
  | O => out_of_fuel
  | S fuel' =>
      x ← in_fs (inode_at dp);
      if off <? i_size x then
        de ← local LOC_DE;
        r ← readi dp false de off SIZEOF_DIRENT;
        if negb (r =? SIZEOF_DIRENT) then panic "dirlookup read"
        else
          inum ← in_mem (gets (λ k, ld16 (mem k) (de + DE_INUM)));
          if inum =? 0 then dirlookup_loop fuel' dp name (off + SIZEOF_DIRENT)
          else
            c ← namecmp name (de + DE_NAME);
            if c =? 0 then
              ip ← in_fs (iget (i_dev x) inum);
              mret (Some (ip, off))
            else dirlookup_loop fuel' dp name (off + SIZEOF_DIRENT)
      else mret None
  end.

(** The inode and the offset of the entry. *)
Definition dirlookup (dp name : Z) : M kern (option (Z * Z)) :=
  x ← in_fs (inode_at dp);
  if negb (i_type x =? T_DIR) then panic "dirlookup not DIR"
  else dirlookup_loop (S (S (Z.to_nat (i_size x / SIZEOF_DIRENT)))) dp name 0.

(** The first unused entry, or the end of the directory. *)
Fixpoint dirlink_scan (fuel : nat) (dp off : Z) : M kern Z :=
  match fuel with
  | O => out_of_fuel
  | S fuel' =>
      x ← in_fs (inode_at dp);
      if off <? i_size x then
        de ← local LOC_DE;
        r ← readi dp false de off SIZEOF_DIRENT;
        if negb (r =? SIZEOF_DIRENT) then panic "dirlink read"
        else
          inum ← in_mem (gets (λ k, ld16 (mem k) (de + DE_INUM)));
          if inum =? 0 then mret off else dirlink_scan fuel' dp (off + SIZEOF_DIRENT)
      else mret off
  end.

Definition dirlink (dp name inum : Z) : M kern Z :=
  r ← dirlookup dp name;
  match r with
  | Some (ip, _) =>
      in_fs (iput ip);;
      mret (-1)
  | None =>
      x ← in_fs (inode_at dp);
      off ← dirlink_scan (S (S (Z.to_nat (i_size x / SIZEOF_DIRENT)))) dp 0;
      de ← local LOC_DE;
      in_mem (modify (λ s, set_mem (strncpy (mem s) (de + DE_NAME) name DIRSIZ) s));;
      in_mem (modify (λ s, set_mem (st16 (mem s) (de + DE_INUM) inum) s));;
      r ← writei dp false de off SIZEOF_DIRENT;
      if negb (r =? SIZEOF_DIRENT) then mret (-1) else mret 0
  end.

(** ** Paths *)

(** The loop over leading slashes. *)
Fixpoint skip_slashes (fuel : nat) (m : gmap Z Z) (path : Z) : option Z :=
  match fuel with
  | O => None
  | S fuel' => if ld8 m path =? SLASH then skip_slashes fuel' m (path + 1) else Some path
  end.

(** The loop to the end of the element. *)
Fixpoint skip_name (fuel : nat) (m : gmap Z Z) (path : Z) : option Z :=
  match fuel with
  | O => None
  | S fuel' =>
      if negb (ld8 m path =? SLASH) && negb (ld8 m path =? 0) then skip_name fuel' m (path + 1)
      else Some path
  end.

(** The memory after, and the rest of the path or a null pointer; [None] when
    the string does not end within [path_fuel] bytes. *)
Definition skipelem_mem (m : gmap Z Z) (path name : Z) : option (option Z * gmap Z Z) :=
  path ← skip_slashes path_fuel m path;
  if ld8 m path =? 0 then Some (None, m)
  else
    let s := path in
    path ← skip_name path_fuel m path;
    let len := path - s in
    let m := if DIRSIZ <=? len then memmove m name s DIRSIZ
             else st8 (memmove m name s len) (name + len) 0 in
    path ← skip_slashes path_fuel m path;
    Some (Some path, m).

Definition skipelem (path name : Z) : M kern (option Z) :=
  m ← in_mem (gets mem);
  match skipelem_mem m path name with
  | Some (r, m') => in_mem (modify (set_mem m'));; mret r
  | None => out_of_fuel
  end.

Fixpoint namex_loop (fuel : nat) (ip path : Z) (parent : bool) (name : Z) : M kern (option Z) :=
  match fuel with
  | O => out_of_fuel
  | S fuel' =>
      r ← skipelem path name;
      match r with
      | None =>
          if parent then
            in_fs (iput ip);;
            mret None
          else mret (Some ip)
      | Some path =>
          in_fs (ilock ip);;
          x ← in_fs (inode_at ip);
          if negb (i_type x =? T_DIR) then
            in_fs (iunlockput ip);;
            mret None
          else
            c ← in_mem (load8 path);
            if parent && (c =? 0) then
              in_fs (iunlock ip);;
              mret (Some ip)
            else
              next ← dirlookup ip name;
              match next with
              | None =>
                  in_fs (iunlockput ip);;
                  mret None
              | Some (next, _) =>
                  in_fs (iunlockput ip);;
                  namex_loop fuel' next path parent name
              end
      end
  end.

Definition namex (path : Z) (parent : bool) (name : Z) : M kern (option Z) :=
  c ← in_mem (load8 path);
  ip ← (if c =? SLASH then in_fs (iget ROOTDEV ROOTINO)
        else
          p ← myproc;
          x ← proc_at p;
          match p_cwd x with Some d => in_fs (idup d) | None => undefined end);
  namex_loop path_fuel ip path parent name.

Definition namei (path : Z) : M kern (option Z) :=
  name ← local LOC_NAMEI;
  namex path false name.

Definition nameiparent (path name : Z) : M kern (option Z) := namex path true name.
End dir.
