(* ===== verification/Fileio.v ===== *)
(** * Reading and writing files (kernel/fs.c: readi, writei)

    [readi] and [writei] between a file and kernel memory or the memory of the
    running process, inside a transaction.  [kt K E c W O I m k] is the
    transaction [txn] on the kernel state: [m] is the memory, and the rest of
    [k] is as in [K].  The file is its bytes [fbyte]; the theorems say that
    [readi] returns them, that [writei] replaces them and leaves every other
    file alone.  The loops are proved once: [gives] is what [writei] needs of
    where the bytes come from, and [sink] what [readi] needs of where they go;
    kernel memory and user memory are two instances. *)

From stdpp Require Import functions list.
From S2P Require Import Prelude Mem Cstring Riscv Spinlock Kalloc Vm Uvm Cow Usermem Sleeplock Bio Bcache Log LogCrash Txn Fs Balloc Bmap Idisk Virtio State Sched Dir.

Local Open Scope Z_scope.

Lemma ld8_copy_bytes n from fa to ta a :
  ld8 (copy_bytes n from fa to ta) a = if decide (span ta (Z.of_nat n) a) then ld8 from (fa + (a - ta)) else ld8 to a.
Proof.
  induction n as [|n IH]; simpl copy_bytes.
  - rewrite decide_False //. rewrite /span. lia.
  - rewrite ld8_st8. destruct (decide (a = ta + Z.of_nat n)) as [->|Hne].
    + rewrite decide_True; [|rewrite /span; lia]. rewrite Z.mod_small; [|apply ld8_bound]. f_equal. lia.
    + rewrite IH. apply decide_ext. rewrite /span. lia.
Qed.

Section fileio.
Context {KI : KernelImage} {KS : KernelSyms}.
Context (K : kern) (E : fsst) (cur : Z).
Context (Hcur : k_cur K = Some cur).

Record kt (c : Z → block) (W : list Z) (O : gmap Z Z) (I : Z → inode) (m : gmap Z Z) (k : kern) : Prop := {
  kt_txn : txn E c W O I (set_fpid (cur_pid K) (k_fs k));
  kt_eq : k = set_k_fs (k_fs k) (set_k_mem (set_mem m (k_mem K)) K);
}.

Lemma kt_in_fs {A} c W O I m k (p : M fsst A) (Q : A → kern → Prop) :
  kt c W O I m k →
  wp p (λ a s', ∃ c' W' O' I', txn E c' W' O' I' s' ∧ ∀ k', kt c' W' O' I' m k' → Q a k') (set_fpid (cur_pid K) (k_fs k)) →
  wp (in_fs p) Q k.
Proof.
  intros [Ht Ek] Hp. apply wp_zoom. rewrite (_ : cur_pid k = cur_pid K); [|by rewrite Ek].
  eapply wp_mono; [exact Hp|]. intros a s' (c' & W' & O' & I' & Ht' & HQ). apply HQ.
  assert (fpid s' = cur_pid K) as Ep.
  { rewrite (se_pid _ _ (tx_env _ _ _ _ _ _ Ht')) -(se_pid _ _ (tx_env _ _ _ _ _ _ Ht)). done. }
  split; simpl.
  - rewrite (_ : set_fpid (cur_pid K) s' = s') //. rewrite -Ep. by destruct s'.
  - rewrite Ek. done.
Qed.

Lemma kt_in_mem c W O I m k (f : gmap Z Z → gmap Z Z) (Q : unit → kern → Prop) :
  kt c W O I m k → (∀ k', kt c W O I (f m) k' → Q tt k') →
  wp (in_mem (modify (λ s, set_mem (f (mem s)) s))) Q k.
Proof.
  intros [Ht Ek] HQ. apply wp_zoom, wp_modify, HQ. split; [exact Ht|]. simpl. rewrite Ek. done.
Qed.

Lemma kt_mem c W O I m k : kt c W O I m k → mem (k_mem k) = m.
Proof. intros [_ ->]. done. Qed.
Lemma kt_cur c W O I m k : kt c W O I m k → k_cur k = Some cur.
Proof. intros [_ ->]. done. Qed.

(** The bytes of the buffers. *)
Definition in_bufs (a : Z) : Prop := ∃ b, slot b ∧ span (bdata b) BSIZE a.

Lemma kt_slot c W O I m k n b : kt c W O I m k → O !! n = Some b → slot b.
Proof. intros [[[p [Hr _]] _ _ _ _ _] _] Ho. by destruct (rp_owned _ _ Hr n b Ho). Qed.

Lemma kt_inode c W O I m k ip (Q : inode → kern → Prop) :
  kt c W O I m k → (∀ k', kt c W O I m k' → Q (I ip) k') → wp (in_fs (inode_at ip)) Q k.
Proof.
  intros Hk HQ. eapply kt_in_fs; [exact Hk|]. eapply txn_inode; [apply Hk|]. eexists _, _, _, _. split; [apply Hk|exact HQ].
Qed.

Lemma kt_get_mem {A} c W O I m k (f : gmap Z Z → A) (Q : A → kern → Prop) :
  kt c W O I m k → (∀ k', kt c W O I m k' → Q (f m) k') → wp (in_mem (gets (λ s, f (mem s)))) Q k.
Proof.
  intros Hk HQ. apply wp_zoom, wp_gets. rewrite (kt_mem _ _ _ _ _ _ Hk). apply HQ. destruct Hk as [Ht Ek].
  split; [exact Ht|]. simpl. rewrite Ek. done.
Qed.

(** The data of buffer [b], which holds block [n], copied into memory. *)
Lemma wp_expose c W O I m k n b o len (Q : unit → kern → Prop) :
  kt c W O I m k → O !! n = Some b →
  (∀ k', kt c W O I (copy_bytes (Z.to_nat len) (c n) o m (bdata b + o)) k' → Q tt k') → wp (expose b o len) Q k.
Proof.
  intros Hk Ho HQ. rewrite /expose. apply wp_bind. eapply kt_in_fs; [exact Hk|]. eapply txn_get; [apply Hk|exact Ho|].
  eexists _, _, _, _. split; [apply Hk|]. intros k' Hk'.
  by apply (kt_in_mem c W O I m k' (λ m, copy_bytes (Z.to_nat len) (c n) o m (bdata b + o))).
Qed.

(** And back. *)
Lemma wp_absorb c W O I m k n b o len (Q : unit → kern → Prop) :
  kt c W O I m k → O !! n = Some b →
  (∀ k', kt (<[n := copy_bytes (Z.to_nat len) m (bdata b + o) (c n) o]> c) W O I m k' → Q tt k') →
  wp (absorb b o len) Q k.
Proof.
  intros Hk Ho HQ. rewrite /absorb. apply wp_bind. eapply kt_in_fs; [exact Hk|]. eapply txn_get; [apply Hk|exact Ho|].
  eexists _, _, _, _. split; [apply Hk|]. intros k1 Hk1. apply wp_bind. apply (kt_get_mem c W O I m k1 id); [done|].
  intros k2 Hk2. eapply kt_in_fs; [exact Hk2|]. eapply txn_put; [apply Hk2|exact Ho|]. intros s' Ht'.
  eexists _, _, _, _. split; [exact Ht'|exact HQ].
Qed.

Lemma wp_kcopy c W O I m k dst src len (Q : Z → kern → Prop) :
  kt c W O I m k → (∀ k', kt c W O I (memmove m dst src (u32 len)) k' → Q 0 k') →
  wp (p ← myproc; x ← proc_at p; in_mem (kmemmove dst src (u32 len));; mret 0) Q k.
Proof.
  intros Hk HQ. apply wp_bind. rewrite /myproc. apply wp_bind, wp_gets. rewrite (kt_cur _ _ _ _ _ _ Hk). apply wp_ret.
  apply wp_bind, wp_gets, wp_bind.
  apply (kt_in_mem c W O I m k (λ m, memmove m dst src (u32 len))); [done|]. intros k' Hk'. by apply wp_ret, HQ.
Qed.

(** Only the memory at [dst] and the buffers change. *)
Definition only (dst len : Z) (m m' : gmap Z Z) : Prop := mem_eq_on (λ a, ¬ span dst len a ∧ ¬ in_bufs a) m m'.

(** The file of an inode in memory: its blocks are there up to its size. *)
Record file_ok (b : superblock) (c : Z → block) (x : inode) : Prop := {
  fo_wf : inode_wf b c x;
  fo_size : 0 ≤ i_size x ≤ MAXFILE * BSIZE;
  fo_dense : ∀ j, 0 ≤ j → BSIZE * j < i_size x → faddr c x j ≠ 0;
}.

(** The part of one block. *)
Lemma chunk_byte c x off i :
  0 ≤ off → 0 ≤ i < BSIZE - off mod BSIZE → faddr c x (off / BSIZE) ≠ 0 →
  fbyte c x (off + i) = ld8 (c (faddr c x (off / BSIZE))) (off mod BSIZE + i).
Proof.
  intros Ho Hi Hne. rewrite /fbyte (_ : (off + i) / BSIZE = off / BSIZE); [|dlia].
  rewrite (_ : (off + i) mod BSIZE = off mod BSIZE + i); [|dlia]. by rewrite (proj2 (Z.eqb_neq _ _) Hne).
Qed.

(** The running process is [i] of the processes [ps], and the buffers are
    outside the memory of processes and free pages. *)
Record in_user (s : kst) (fl : list Z) (ps : list aspace) (i : nat) (a : aspace) : Prop := {
  iu_world : world s fl ps;
  iu_proc : ps !! i = Some a;
  iu_root : p_pagetable (k_procs K cur) = as_root a;
  iu_bufs : ∀ x, in_bufs x → 0 ≤ x < 2 ^ 64 - 1 ∧ Cow.quiet s fl ps x;
}.

Lemma in_user_bufs s fl ps i a m :
  in_user s fl ps i a → mem_eq_on (λ x, ¬ in_bufs x) (mem s) m →
  in_user (set_mem m s) fl ps i a ∧ same_view s ps (set_mem m s) ps ∧ perms_kept s ps (set_mem m s).
Proof.
  intros [Hw Hi Hr Hb] Hm. destruct (world_quiet s fl ps m in_bufs) as (Hw' & Hv & Hq); [done|by intros x [_ ?]%Hb|done|].
  split_and!; [|done|by apply (quiet_perms s fl ps m in_bufs); [intros x [_ ?]%Hb|]].
  split; [done..|]. intros x [Hx Hqx]%Hb. auto.
Qed.

(** ** Writing *)

(** The number of blocks that a write of [n] bytes at [off] touches. *)
Definition n_blocks (off n : Z) : Z := (off mod BSIZE + n + BSIZE - 1) / BSIZE.

(** The [n] bytes at [src] are [g]: where [writei] copies from. *)
Definition source (us : bool) (src n : Z) (m : gmap Z Z) (g : Z → Z) : Prop :=
  if us then 0 ≤ src ∧ ∃ fl ps i a, in_user (set_mem m (k_mem K)) fl ps i a ∧
    ∀ j, 0 ≤ j < n → uread (set_mem m (k_mem K)) a (src + j) = Some (g j)
  else (∀ a, span src n a → ¬ in_bufs a) ∧ ∀ j, 0 ≤ j < n → ld8 m (src + j) = g j.

(** What the loop relies on: a part of them can be copied into a buffer,
    whatever the buffers hold by then. *)
Definition gives (us : bool) (src n : Z) (m : gmap Z Z) (g : Z → Z) : Prop :=
  ∀ c W O I m' k dst i l (Q : Z → kern → Prop),
    kt c W O I m' k → mem_eq_on (λ a, ¬ in_bufs a) m m' →
    0 ≤ i → 0 < l ≤ BSIZE → i + l ≤ n → (∀ a, span dst l a → in_bufs a) →
    (∀ m'' k', kt c W O I m'' k' →
       (∀ a, ld8 m'' a = if decide (span dst l a) then g (i + (a - dst)) else ld8 m' a) → Q 0 k') →
    wp (either_copyin dst us (src + i) l) Q k.

Lemma kernel_gives src n m g : source false src n m g → gives false src n m g.
Proof.
  intros [Hs Hg] c W O I m' k dst i l Q Hk Hm Hi Hl Hil Hd HQ. rewrite /either_copyin.
  eapply wp_kcopy; [exact Hk|]. intros k' Hk'. eapply HQ; [exact Hk'|]. intros a.
  rewrite /u32 Z.mod_small; [|lia]. rewrite ld8_memmove; [|lia]. case_decide as Ha; [|done].
  rewrite /span in Ha. rewrite -Hg; [|lia]. rewrite Z.add_assoc. apply Hm, Hs. rewrite /span. lia.
Qed.

Lemma user_gives src n m g : source true src n m g → gives true src n m g.
Proof.
  intros (Hs & fl & ps & i & a & Hu & Hg) c W O I m' k dst i' l Q Hk Hm Hi Hl Hil Hd HQ. rewrite /either_copyin.
  destruct (in_user_bufs _ _ _ _ _ m' Hu Hm) as ([Hw Hp Hr Hb] & Hv & _).
  apply wp_bind. rewrite /myproc. apply wp_bind, wp_gets. rewrite (kt_cur _ _ _ _ _ _ Hk). apply wp_ret.
  apply wp_bind, wp_gets, wp_zoom. destruct Hk as [Ht Ek].
  assert (k_mem k = set_mem m' (k_mem K) ∧ p_pagetable (k_procs k cur) = as_root a) as [-> ->] by (by rewrite Ek).
  assert (∀ j, 0 ≤ j < l → in_bufs (dst + j)) as Hd' by (intros j Hj; apply Hd; rewrite /span; lia).
  pose proof (Hb _ (Hd' 0 ltac:(lia))) as [B0 _]. pose proof (Hb _ (Hd' (l - 1) ltac:(lia))) as [B1 _].
  eapply wp_mono; [apply (wp_copyin _ fl ps i a); [done|done|lia|lia|lia|lia|]|].
  { intros j Hj. by apply Hb, Hd'. }
  intros r s' [(t & Hw' & _ & Ht' & Hin & _ & Hres) Hom].
  assert (∀ j, 0 ≤ j < n → uread (set_mem m' (k_mem K)) a (src + j) = Some (g j)) as Hg'.
  { intros j Hj. rewrite -(Hg j Hj). by apply (Hv i). }
  destruct Hres as [[-> ->]|(_ & Hlt & Hno)]; last first.
  { rewrite -Z.add_assoc Hg' // in Hno. lia. }
  eapply (HQ (mem s')).
  - split; [exact Ht|]. rewrite Ek Hom. done.
  - intros x. rewrite Hin. case_decide as Hx; [|done]. rewrite /span in Hx. rewrite -Z.add_assoc Hg'; [done|lia].
Qed.

Lemma source_gives us src n m g : source us src n m g → gives us src n m g.
Proof. destruct us; [apply user_gives|apply kernel_gives]. Qed.

Lemma gives_mem us src n m m1 g : gives us src n m g → mem_eq_on (λ a, ¬ in_bufs a) m m1 → gives us src n m1 g.
Proof. intros Hg H1 c W O I m' k dst i l Q Hk Hm. apply Hg; [done|by etrans]. Qed.

Lemma gives_ext us src n m g g' : gives us src n m g → (∀ j, g j = g' j) → gives us src n m g'.
Proof.
  intros Hg Hgg c W O I m' k dst i l Q Hk Hm Hi Hl Hil Hd HQ. eapply Hg; [exact Hk|done..|].
  intros m'' k' Hk' H. apply (HQ m'' k' Hk'). intros a. rewrite H. case_decide; [by rewrite Hgg|done].
Qed.

Lemma gives_step us src n m g len : gives us src n m g → 0 ≤ len → gives us (src + len) (n - len) m (λ j, g (len + j)).
Proof.
  intros Hg Hl c W O I m' k dst i l Q Hk Hm Hi Hll Hil Hd HQ. rewrite -Z.add_assoc.
  eapply Hg; [exact Hk|done|lia|done|lia|done|]. intros m'' k' Hk' H. apply (HQ m'' k' Hk'). intros a. rewrite H Z.add_assoc //.
Qed.

(** The block after one round of the loop of [writei]. *)
Definition write_block (d : block) (o len : Z) (g : Z → Z) (d' : block) : Prop :=
  ∀ i, ld8 d' i = if decide (o ≤ i < o + len) then g (i - o) else ld8 d i.

(** The room a write needs in the log: four blocks for each block of the file
    (its bitmap block, the block, the indirect block and its bitmap block), one
    for the inode and one to spare. *)
Definition write_budget (W : list Z) (off n : Z) : Prop :=
  budget E W 2 ∧ (0 < n → budget E W (4 * n_blocks off n + 2)).

Lemma write_budget_step W W' off n :
  write_budget W off n → 0 < n → (length W' ≤ length W + 4)%nat →
  let len := Z.min n (BSIZE - off mod BSIZE) in write_budget W' (off + len) (n - len).
Proof.
  intros [_ Hb] Hn Hl len. specialize (Hb Hn). rewrite /write_budget /budget /n_blocks in Hb |- *.
  assert (1 ≤ (off mod BSIZE + n + BSIZE - 1) / BSIZE) by dlia. split; [lia|]. intros Hn'.
  assert (len = BSIZE - off mod BSIZE) as E1 by lia. clearbody len. subst len.
  assert ((off + (BSIZE - off mod BSIZE)) mod BSIZE = 0) as -> by dlia.
  assert ((0 + (n - (BSIZE - off mod BSIZE)) + BSIZE - 1) / BSIZE = (off mod BSIZE + n + BSIZE - 1) / BSIZE - 1) as -> by dlia.
  lia.
Qed.

(** What the loop of [writei] leaves when it has got from [lo] to [hi]. *)
Record wrote (c : Z → block) (I : Z → inode) (ip : Z) (m : gmap Z Z) (lo hi : Z) (g : Z → Z)
    (c' : Z → block) (W' : list Z) (I' : Z → inode) (m' : gmap Z Z) : Prop := {
  wo_file : written (sb E) c (I ip) lo hi g c' (I' ip);
  wo_inodes : ∀ j, j ≠ ip → I' j = I j;
  wo_budget : budget E W' 2;
  wo_mem : mem_eq_on (λ a, ¬ in_bufs a) m m';
}.

Context (Hg : geometry (sb E) (lg E)).

(** The part of a round after [bmap]: [len] bytes of block [r] are written. *)
Lemma wp_put_chunk {A} c W I m k ip r o us src n g len (bad rest : M kern A) (Q : A → kern → Prop) :
  kt c W ∅ I m k → budget E W 1 → i_dev (I ip) = ROOTDEV → home E r →
  gives us src n m g → 0 ≤ o → 0 < len ≤ n → o + len ≤ BSIZE →
  (∀ d m' k', write_block (c r) o len g d → mem_eq_on (λ a, ¬ in_bufs a) m m' →
     kt (<[r := d]> c) (add_log r W) ∅ I m' k' → wp rest Q k') →
  wp (x ← in_fs (inode_at ip);
      bp ← in_fs (bread (i_dev x) r);
      expose bp o len;;
      e ← either_copyin (bdata bp + o) us src len;
      absorb bp o len;;
      if e =? -1 then
        in_fs (brelse bp);;
        bad
      else
        in_fs (log_write bp);;
        in_fs (brelse bp);;
        rest) Q k.
Proof.
  intros Hk Hb Hdev Hh Hsrc Ho Hlen Hol HQ. apply wp_bind. eapply kt_inode; [exact Hk|]. intros k2 Hk2. rewrite Hdev.
  apply wp_bind. eapply kt_in_fs; [exact Hk2|].
  eapply txn_bread; [apply Hk2|done|by eapply budget_le|by rewrite map_size_empty; lia|]. intros b s3 Ht3 _.
  eexists _, _, _, _. split; [exact Ht3|]. intros k3 Hk3.
  pose proof (kt_slot _ _ _ _ _ _ _ _ Hk3 (lookup_insert_eq _ _ _)) as Hslot.
  assert (∀ a, span (bdata b + o) len a → in_bufs a) as Hbuf.
  { intros a Ha. exists b. split; [done|]. rewrite /span in Ha |- *. lia. }
  apply wp_bind. eapply wp_expose; [exact Hk3|apply lookup_insert_eq|]. intros k4 Hk4.
  assert (mem_eq_on (λ a, ¬ in_bufs a) m (copy_bytes (Z.to_nat len) (c r) o m (bdata b + o))) as Hm4.
  { intros a Ha. rewrite ld8_copy_bytes decide_False //. rewrite Z2Nat.id; [|lia]. auto. }
  apply wp_bind. rewrite -(Z.add_0_r src).
  eapply Hsrc; [exact Hk4|exact Hm4|lia|lia|lia|done|]. intros m5 k5 Hk5 Hm5.
  apply wp_bind. eapply wp_absorb; [exact Hk5|apply lookup_insert_eq|]. intros k6 Hk6. cbn [Z.eqb].
  apply wp_bind. eapply kt_in_fs; [exact Hk6|]. eapply txn_log_write; [apply Hk6|apply lookup_insert_eq|done|done|].
  intros s7 Ht7. eexists _, _, _, _. split; [exact Ht7|]. intros k7 Hk7. apply wp_bind. eapply kt_in_fs; [exact Hk7|].
  eapply txn_brelse; [apply Hk7|apply lookup_insert_eq|left; rewrite elem_of_add_log; by left|]. intros s8 Ht8.
  rewrite delete_insert_id // in Ht8. eexists _, _, _, _. split; [exact Ht8|]. intros k8. apply HQ.
  - intros i. rewrite ld8_copy_bytes Z2Nat.id; [|lia]. rewrite /span. case_decide as Hi; [|done].
    rewrite Hm5 decide_True; [|rewrite /span; lia]. f_equal. lia.
  - intros a Ha. rewrite Hm5 decide_False; [by apply Hm4|auto].
Qed.

Lemma wp_writei_loop ip us n g Q : ∀ fuel c W I m k src off tot,
  kt c W ∅ I m k → inode_wf (sb E) c (I ip) → meta_used (sb E) c → write_budget W off (n - tot) →
  0 ≤ off → 0 ≤ tot ≤ n → off + (n - tot) ≤ MAXFILE * BSIZE →
  gives us src (n - tot) m (λ j, g (off + j)) →
  (1 ≤ fuel)%nat → (tot < n → off mod BSIZE + (n - tot) ≤ BSIZE * (Z.of_nat fuel - 1)) →
  (∀ tot' c' W' I' m' k', tot ≤ tot' ≤ n → wrote c I ip m off (off + (tot' - tot)) g c' W' I' m' →
     (tot' < n → tot' = tot ∨ (off + (tot' - tot)) mod BSIZE = 0) →
     (tot' < n → ∀ b, 0 ≤ b < sb_size (sb E) → used (sb E) c' b = true) →
     kt c' W' ∅ I' m' k' → Q (tot', off + (tot' - tot)) k') →
  wp (writei_loop fuel ip us src off n tot) Q k.
Proof.
  induction fuel as [|fuel IH]; intros c W I m k src off tot Hk Hw Hmu Hb Ho Ht Hmax Hsrc Hf1 Hf HQ; [lia|].
  cbn [writei_loop]. destruct (Z.ltb_spec tot n) as [Hlt|Hge].
  2: { apply wp_ret. rewrite -{1}(Z.add_0_r off) -(Z.sub_diag tot). eapply HQ; [lia| |lia|lia|exact Hk].
       split; [|done|apply Hb|done]. rewrite Z.sub_diag Z.add_0_r. by apply written_refl. }
  specialize (Hf Hlt). assert (0 ≤ off / BSIZE < MAXFILE) as Hkr by dlia. assert (0 ≤ off mod BSIZE < BSIZE) as Hm by dlia.
  pose proof (proj2 Hb ltac:(lia)) as Hb1. assert (1 ≤ n_blocks off (n - tot)) as Hnb by (rewrite /n_blocks; dlia).
  apply wp_bind. eapply kt_in_fs; [exact Hk|].
  eapply (wp_bmap E Hg); [apply Hk|done|done|eapply budget_le; [exact Hb1|lia]|done|].
  intros r c1 x1 W1 I1 s1 Hbm [EI HI] Hlen Ht1. eexists _, _, _, _. split; [exact Ht1|]. intros k1 Hk1.
  assert (budget E W1 1 ∧ budget E W1 0 ∧ budget E W1 2) as (Hb2 & Hb3 & Hb4).
  { pose proof (add_log_length r W1). rewrite /budget in Hb1 |- *. lia. }
  destruct (Z.eqb_spec r 0) as [->|Hr].
  { apply wp_ret. rewrite -{1}(Z.add_0_r off) -(Z.sub_diag tot). eapply HQ; [lia| | | |exact Hk1].
    - split; [|done|done|done]. rewrite Z.sub_diag Z.add_0_r EI. apply written_ext; apply Hbm.
    - by left.
    - intros _. by apply (bm_full _ _ _ _ _ _ _ Hbm). }
  pose proof (bm_wf _ _ _ _ _ _ _ Hbm) as Hw1. pose proof (geometry_pos E Hg) as Hgp. set (len := Z.min (n - tot) (BSIZE - off mod BSIZE)).
  destruct (iw_data _ _ _ Hw1 (off / BSIZE) Hkr) as [[Hdat _] _]; [by rewrite (bm_addr _ _ _ _ _ _ _ Hbm)|].
  rewrite (bm_addr _ _ _ _ _ _ _ Hbm) in Hdat.
  eapply wp_put_chunk; [exact Hk1|done|rewrite EI; apply Hw1|apply home_block; [done|lia]|exact Hsrc|lia|lia|lia|].
  intros d m1 k2 Hch Hmem Hk2.
  assert (written (sb E) c (I ip) off (off + len) g (<[r := d]> c1) (I1 ip)) as Hwr.
  { rewrite EI. eapply written_chunk; [done|lia|lia|lia|exact Hbm|done|]. intros i Hi. rewrite Hch.
    by destruct (decide _). }
  pose proof (write_budget_step W (add_log r W1) off (n - tot) Hb ltac:(lia) Hlen) as Hb'. cbv zeta in Hb'. fold len in Hb'.
  assert (n - (tot + len) = n - tot - len) as En by lia.
  eapply IH; [exact Hk2|apply Hwr|apply Hwr|by rewrite En|lia|lia|lia| |lia| |]; rewrite ?En.
  - eapply gives_mem; [|exact Hmem]. pose proof (gives_step _ _ _ _ _ len Hsrc ltac:(lia)) as Hs. cbv beta in Hs.
    eapply gives_ext; [exact Hs|]. intros j. cbv beta. f_equal. lia.
  - intros Hl2. assert (len = BSIZE - off mod BSIZE) as -> by lia. dlia.
  - intros tot' c' W' I' m' k' Ht' [F1 F2 F3 F4] Hcut Hfull Hk'.
    rewrite (_ : off + len + (tot' - (tot + len)) = off + (tot' - tot)) in F1 Hcut |- *; [|lia..].
    eapply HQ; [lia| |intros Hl2; right; destruct (Hcut Hl2); [dlia|done]|done|exact Hk']. split; [|by intros j Hj; rewrite F2 // HI|done|by etrans].
    eapply written_app; [| |exact Hwr|exact F1]; lia.
Qed.

(** The inode of a file that can be written: its fields are within their
    types and its number is on the disk. *)
Record inode_ready (b : superblock) (x : inode) : Prop := {
  ir_fits : inode_fits x;
  ir_inum : 0 ≤ i_inum x < sb_ninodes b;
}.

(** The file after a write of [r] bytes [g] at [off], in memory and on the
    disk. *)
Record file_written (c : Z → block) (x : inode) (off r : Z) (g : Z → Z) (c' : Z → block) (x' : inode) : Prop := {
  fw_ok : file_ok (sb E) c' x';
  fw_meta : meta_used (sb E) c';
  fw_byte : ∀ i, 0 ≤ i < MAXFILE * BSIZE → fbyte c' x' i = if decide (off ≤ i < off + r) then g i else fbyte c x i;
  fw_size : x' = with_size (Z.max (i_size x) (off + r)) (with_addrs (i_addrs x') x);
  fw_disk : on_disk (sb E) c' x';
  fw_inodes : ∀ y, 0 ≤ i_inum y < sb_ninodes (sb E) → i_inum y ≠ i_inum x → on_disk (sb E) c y → on_disk (sb E) c' y;
  fw_others : ∀ y, inode_wf (sb E) c y → (∀ n, block_of c y n → ¬ block_of c x n) →
    inode_wf (sb E) c' y ∧ (∀ i, 0 ≤ i < MAXFILE * BSIZE → fbyte c' y i = fbyte c y i) ∧ (∀ n, block_of c' y n → ¬ block_of c' x' n);
}.

(** [iupdate] of the inode [x'] after the data has been written. *)
Lemma written_iupdate c x off r g c' x' :
  file_ok (sb E) c x → inode_ready (sb E) x → meta_used (sb E) c → 0 ≤ off ≤ i_size x → 0 ≤ r → off + r ≤ MAXFILE * BSIZE →
  written (sb E) c x off (off + r) g c' x' →
  let y := with_size (Z.max (i_size x) (off + r)) x' in
  file_written c x off r g (iupd_cont E y c') y.
Proof.
  intros [Hw Hsz Hd] [[F1 F2 F3 F4 F5 F6] Hin] Hm0 Ho Hr Hmax [G Hw' Hm Hb Ha] y. pose proof (gr_rest _ _ _ _ _ G) as Hx.
  assert (i_inum y = i_inum x) as Ei by (rewrite /y Hx; done). pose proof Hin as Hin'. rewrite -Ei in Hin'.
  pose proof (geometry_pos E Hg) as Hgp.
  assert (inode_wf (sb E) c' y) as Hwy by (by eapply same_addrs_wf; [..|exact Hw']).
  assert (∀ k, faddr c' y k = faddr c' x' k) as Efa by done.
  assert (i_size y = Z.max (i_size x) (off + r)) as Es by done.
  split.
  - split; [by apply iupd_wf|lia|]. intros j Hj Hlt. rewrite iupd_faddr // Efa.
    destruct (decide (BSIZE * j < i_size x)) as [H1|H1].
    + pose proof (Hd j Hj H1). rewrite (gr_addr _ _ _ _ _ G) //. lia.
    + apply Ha; lia.
  - by apply iupd_meta.
  - intros i Hi. rewrite iupd_byte //. by apply Hb.
  - rewrite /y Hx. done.
  - apply iupd_on_disk. split; rewrite ?Es; [by rewrite /y Hx..|lia|]. intros k Hk.
    pose proof (wf_addr _ _ _ k Hwy ltac:(lia) Hk). pose proof (gm_size _ _ Hg). lia.
  - intros z Hz Hne Hod. apply (iupd_other E Hg); [done|done|congruence|]. rewrite /on_disk.
    destruct (IBLOCK_eq E Hg _ Hz) as [_ Hib]. rewrite /in_iblocks in Hib.
    rewrite (grow_meta E c x c' x' (IBLOCK (i_inum z) (sb E))) //. lia.
  - intros z Hz Hdis. destruct (grow_other E c x c' x' z Hg G Hz Hdis) as (Z1 & Z2 & Z3).
    split_and!; [by apply iupd_wf|intros i Hi; rewrite iupd_byte //; by apply Z2|].
    intros n. rewrite !iupd_block_of //. apply Z3.
Qed.

(** [if(off > ip->size) ip->size = off;] *)
Lemma wp_set_size c W I m k ip sz (Q : unit → kern → Prop) :
  kt c W ∅ I m k →
  (∀ I' k', upd_at I ip (with_size (Z.max (i_size (I ip)) sz) (I ip)) I' → kt c W ∅ I' m k' → Q tt k') →
  wp (if i_size (I ip) <? sz then in_fs (upd_inode ip (with_size sz)) else mret tt) Q k.
Proof.
  intros Hk HQ. destruct (Z.ltb_spec (i_size (I ip)) sz) as [Hlt|Hge].
  - eapply kt_in_fs; [exact Hk|]. eapply (txn_upd_inode E); [apply Hk|]. intros s' Ht'.
    eexists _, _, _, _. split; [exact Ht'|]. intros k' Hk'. eapply HQ; [|exact Hk'].
    rewrite Z.max_r; [apply upd_at_insert|lia].
  - apply wp_ret. eapply HQ; [|exact Hk]. rewrite Z.max_l; [|lia].
    by rewrite (_ : with_size (i_size (I ip)) (I ip) = I ip); [|by destruct (I ip)].
Qed.

Lemma wp_writei_from c W I m k ip us src off n g (Q : Z → kern → Prop) :
  kt c W ∅ I m k → file_ok (sb E) c (I ip) → inode_ready (sb E) (I ip) → meta_used (sb E) c →
  0 ≤ off ≤ i_size (I ip) → 0 ≤ n → off + n ≤ MAXFILE * BSIZE → write_budget W off n →
  source us src n m g →
  (∀ r c' W' I' m' k', 0 ≤ r ≤ n → (r < n → r = 0 ∨ (off + r) mod BSIZE = 0) →
     (r < n → ∀ b, 0 ≤ b < sb_size (sb E) → used (sb E) c' b = true) →
     file_written c (I ip) off r (λ i, g (i - off)) c' (I' ip) → (∀ j, j ≠ ip → I' j = I j) →
     budget E W' 1 → mem_eq_on (λ a, ¬ in_bufs a) m m' → kt c' W' ∅ I' m' k' → Q r k') →
  wp (writei ip us src off n) Q k.
Proof.
  intros Hk Hf Hir Hm Ho Hn Hmax Hb Hsrc HQ. rewrite /writei. apply wp_bind. eapply kt_inode; [exact Hk|]. intros k1 Hk1.
  rewrite (_ : u32 (off + n) = off + n); [|rewrite /u32 Z.mod_small; lia].
  rewrite (proj2 (Z.ltb_ge (i_size (I ip)) off)); [|lia]. rewrite (proj2 (Z.ltb_ge (off + n) off)); [|lia].
  rewrite (proj2 (Z.ltb_ge (MAXFILE * BSIZE) (off + n))); [|lia]. cbn [orb].
  apply wp_bind. eapply (wp_writei_loop ip us n (λ i, g (i - off))); [exact Hk1|apply Hf|done| |lia|lia|lia| | | |].
  - by rewrite Z.sub_0_r.
  - rewrite Z.sub_0_r. eapply gives_ext; [by apply source_gives|]. intros j. f_equal. lia.
  - rewrite /io_fuel. lia.
  - intros _. rewrite Z.sub_0_r /io_fuel. dlia.
  - intros r c' W' I' m' k2 Hr [F1 F2 F3 F4] Hcut Hfull Hk2. rewrite Z.sub_0_r in F1 Hcut |- *.
    pose proof (written_iupdate c (I ip) off r _ c' (I' ip) Hf Hir Hm Ho ltac:(lia) ltac:(lia) F1) as Hfw. cbv zeta in Hfw.
    pose proof (gr_rest _ _ _ _ _ (wr_grow _ _ _ _ _ _ _ _ F1)) as Hx.
    assert (i_size (I' ip) = i_size (I ip)) as Es by (rewrite Hx; done).
    apply wp_bind. eapply kt_inode; [exact Hk2|]. intros k3 Hk3. rewrite -Es in Hfw. set (y := with_size _ (I' ip)) in Hfw.
    apply wp_bind. eapply wp_set_size; [exact Hk3|]. intros I2 k4 [EI2 HI2] Hk4. fold y in EI2.
    assert (i_inum y = i_inum (I ip)) as Ei by (rewrite /y Hx; done).
    apply wp_bind. eapply kt_in_fs; [exact Hk4|]. eapply (wp_iupdate E Hg); [apply Hk4|by eapply budget_le| | |].
    { rewrite EI2 /y Hx. apply Hf. }
    { rewrite EI2 Ei. apply Hir. }
    rewrite EI2. intros s5 Ht5. eexists _, _, _, _. split; [exact Ht5|]. intros k5 Hk5. apply wp_ret.
    eapply (HQ r _ _ I2 m' k5); [lia|done| |by rewrite EI2| | |exact F4|exact Hk5].
    + intros Hlt b Hb2. rewrite (iupd_used E Hg); [|rewrite Ei; apply Hir|done]. by apply Hfull.
    + intros j Hj. by rewrite HI2 // F2.
    + by apply (budget_add E W' 2).
Qed.

(** From kernel memory. *)
Lemma wp_writei c W I m k ip src off n (Q : Z → kern → Prop) :
  kt c W ∅ I m k → file_ok (sb E) c (I ip) → inode_ready (sb E) (I ip) → meta_used (sb E) c →
  0 ≤ off ≤ i_size (I ip) → 0 ≤ n → off + n ≤ MAXFILE * BSIZE → write_budget W off n →
  (∀ a, span src n a → ¬ in_bufs a) →
  (∀ r c' W' I' m' k', 0 ≤ r ≤ n → (r < n → r = 0 ∨ (off + r) mod BSIZE = 0) →
     (r < n → ∀ b, 0 ≤ b < sb_size (sb E) → used (sb E) c' b = true) →
     file_written c (I ip) off r (λ i, ld8 m (src + (i - off))) c' (I' ip) → (∀ j, j ≠ ip → I' j = I j) →
     budget E W' 1 → mem_eq_on (λ a, ¬ in_bufs a) m m' → kt c' W' ∅ I' m' k' → Q r k') →
  wp (writei ip false src off n) Q k.
Proof. intros Hk Hf Hir Hm Ho Hn Hmax Hb Hsrc HQ. by eapply (wp_writei_from c W I m k ip false src off n (λ j, ld8 m (src + j))). Qed.

(** May [n] bytes be written at [off]? *)
Definition can_write (x : inode) (off n : Z) : bool := (off <=? i_size x) && (off + n <=? MAXFILE * BSIZE).

Lemma writei_refused c W I m k ip us src off n (Q : Z → kern → Prop) :
  kt c W ∅ I m k → 0 ≤ off < 2 ^ 32 → 0 ≤ n < 2 ^ 32 → can_write (I ip) off n = false →
  (∀ k', kt c W ∅ I m k' → Q (-1) k') → wp (writei ip us src off n) Q k.
Proof.
  intros Hk Ho Hn Hc HQ. rewrite /writei. apply wp_bind. eapply kt_inode; [exact Hk|]. intros k1 Hk1.
  destruct ((i_size (I ip) <? off) || (u32 (off + n) <? off)) eqn:E1; [by apply wp_ret, HQ|].
  destruct (Z.ltb_spec (MAXFILE * BSIZE) (u32 (off + n))) as [|Hle]; [by apply wp_ret, HQ|]. exfalso.
  apply orb_false_iff in E1 as [E1%Z.ltb_ge E2%Z.ltb_ge]. rewrite /can_write in Hc.
  destruct (decide (off + n < 2 ^ 32)).
  - rewrite /u32 Z.mod_small in Hle; lia.
  - rewrite /u32 (_ : (off + n) mod 2 ^ 32 = off + n - 2 ^ 32) in E2; [lia|dlia].
Qed.

(** C10: [writei] writes, from kernel memory or from the memory of the running
    process.  It refuses, with -1 and without any effect, when the offset is
    past the end of the file, when the file would get too large, or when the
    range wraps around.  Otherwise, for [n] bytes that can be read at [src],
    it returns the number [r] of bytes written, less than [n] only when no
    block of the disk is free.  The file then consists of its old bytes with
    those [r] bytes replaced, its size has grown if they reach beyond it, and
    the inode on the disk says so.  Every other inode on the disk and the bytes
    of every other file are as before, and the blocks of different files are
    still different.  No memory but the buffers changes. *)
Theorem writei_spec c W I m k ip us src off n g :
  kt c W ∅ I m k → file_ok (sb E) c (I ip) → inode_ready (sb E) (I ip) → meta_used (sb E) c →
  0 ≤ off < 2 ^ 32 → 0 ≤ n < 2 ^ 32 → write_budget W off n → source us src n m g →
  wp (writei ip us src off n) (λ r k',
    if can_write (I ip) off n then
      0 ≤ r ≤ n ∧ ∃ c' W' I' m', kt c' W' ∅ I' m' k' ∧
        (r < n → ∀ b, 0 ≤ b < sb_size (sb E) → used (sb E) c' b = true) ∧
        file_written c (I ip) off r (λ i, g (i - off)) c' (I' ip) ∧ (∀ j, j ≠ ip → I' j = I j) ∧
        mem_eq_on (λ a, ¬ in_bufs a) m m'
    else r = -1 ∧ kt c W ∅ I m k') k.
Proof.
  intros Hk Hf Hir Hm Ho Hn Hb Hsrc. destruct (can_write (I ip) off n) eqn:Hc.
  - rewrite /can_write in Hc. eapply wp_writei_from; [done..|lia|lia|lia|done|done|].
    intros r c' W' I' m' k' Hr _ Hfull Hfw Hoth _ Hmem Hk'. split; [done|]. by exists c', W', I', m'.
  - by eapply writei_refused.
Qed.
End fileio.

(** ** Reading *)

Section reading.
Context {KI : KernelImage} {KS : KernelSyms}.
Context (E : fsst).

(** [k] is [K] with its file system in the transaction. *)
Definition kb (K : kern) (c : Z → block) (W : list Z) (O : gmap Z Z) (I : Z → inode) (k : kern) : Prop :=
  kt K E c W O I (mem (k_mem K)) k.
Definition kmem (K : kern) (m : gmap Z Z) : kern := set_k_mem (set_mem m (k_mem K)) K.

Lemma kb_kmem K c W O I m k : kt K E c W O I m k → kb (kmem K m) c W O I k.
Proof. intros [Ht Ek]. split; [exact Ht|]. rewrite Ek. done. Qed.
Lemma kmem_kb K c W O I m k : kb (kmem K m) c W O I k → kt K E c W O I m k.
Proof. intros [Ht Ek]. split; [exact Ht|]. rewrite Ek. done. Qed.

Lemma kb_eq K c W O I k : kb K c W O I k → k = set_k_fs (k_fs k) K.
Proof.
  intros [_ Ek]. etrans; [exact Ek|]. f_equal. rewrite (_ : set_mem (mem (k_mem K)) (k_mem K) = k_mem K); [by destruct K|by destruct (k_mem K)].
Qed.

Lemma kb_set K c W O I k ms : kb K c W O I k → kb (set_k_mem ms K) c W O I (set_k_mem ms k).
Proof. intros Hk. pose proof (kb_eq _ _ _ _ _ _ Hk) as Ek. destruct Hk as [Ht _]. split; [exact Ht|]. rewrite Ek. by destruct ms. Qed.

(** Where [readi] copies the [n] bytes [g] to.  [Sk i K]: in state [K] the
    first [i] bytes are there; [bad K]: a copy has failed.  Buffers do not
    matter, and a copy from a buffer adds to the bytes or fails. *)
Record sink (ud : bool) (dst n : Z) (g : Z → Z) (Sk : Z → kern → Prop) (bad : kern → Prop) : Prop := {
  sk_bufs : ∀ i K m, Sk i K → i ≤ n → mem_eq_on (λ a, ¬ in_bufs a) (mem (k_mem K)) m → Sk i (kmem K m);
  sk_copy : ∀ i l src K f (Q : Z → kern → Prop),
    Sk i K → 0 ≤ i → 0 < l ≤ BSIZE → i + l ≤ n → (∀ a, span src l a → in_bufs a) →
    (∀ j, 0 ≤ j < l → ld8 (mem (k_mem K)) (src + j) = g (i + j)) →
    (∀ ms, Sk (i + l) (set_k_mem ms K) → Q 0 (set_k_mem ms (set_k_fs f K))) →
    (∀ ms, bad (set_k_mem ms K) → Q (-1) (set_k_mem ms (set_k_fs f K))) →
    wp (either_copyout ud (dst + i) src l) Q (set_k_fs f K);
}.

Lemma wp_readi_loop c W I ip ud dst off n Sk bad (Q : Z → kern → Prop) :
  sink ud dst n (λ i, fbyte c (I ip) (off + i)) Sk bad → inode_wf (sb E) c (I ip) → budget E W 0 →
  0 ≤ off → off + n ≤ MAXFILE * BSIZE → (∀ j, 0 ≤ j → BSIZE * j < off + n → faddr c (I ip) j ≠ 0) →
  (∀ K k, kb K c W ∅ I k → Sk n K → Q n k) → (∀ K k, kb K c W ∅ I k → bad K → Q (-1) k) →
  ∀ fuel K k tot, kb K c W ∅ I k → Sk tot K → 0 ≤ tot ≤ n →
  (1 ≤ fuel)%nat → (tot < n → (off + tot) mod BSIZE + (n - tot) ≤ BSIZE * (Z.of_nat fuel - 1)) →
  wp (readi_loop fuel ip ud (dst + tot) (off + tot) n tot) Q k.
Proof.
  intros Hsk Hw Hb Ho Hmax Hd HQ Hbad. induction fuel as [|fuel IH]; intros K k tot Hk HS Ht Hf1 Hf; [lia|].
  cbn [readi_loop]. destruct (Z.ltb_spec tot n) as [Hlt|Hge].
  2: { rewrite (_ : tot = n) in HS |- *; [|lia]. by eapply wp_ret, HQ. }
  specialize (Hf Hlt). set (o := off + tot) in *.
  assert (0 ≤ o / BSIZE < MAXFILE) as Hkr by dlia. assert (0 ≤ o mod BSIZE < BSIZE) as Hm by dlia.
  pose proof (Hd (o / BSIZE) ltac:(lia) ltac:(dlia)) as Hne. set (r := faddr c (I ip) (o / BSIZE)) in *.
  destruct (iw_data _ _ _ Hw _ Hkr Hne) as [Hdat _]. fold r in Hdat.
  apply wp_bind. eapply kt_in_fs; [exact Hk|]. eapply (wp_bmap_old E); [apply Hk|done|done|done|done|].
  intros s1 Ht1. eexists _, _, _, _. split; [exact Ht1|]. intros k1 Hk1. fold r. rewrite (proj2 (Z.eqb_neq _ _) Hne).
  apply wp_bind. eapply kt_inode; [exact Hk1|]. intros k2 Hk2. rewrite (iw_dev _ _ _ Hw).
  apply wp_bind. eapply kt_in_fs; [exact Hk2|].
  eapply txn_bread; [apply Hk2|done|done|by rewrite map_size_empty; lia|]. intros b s3 Ht3 Hcl.
  eexists _, _, _, _. split; [exact Ht3|]. intros k3 Hk3. cbv zeta. set (len := Z.min (n - tot) (BSIZE - o mod BSIZE)).
  pose proof (kt_slot _ _ _ _ _ _ _ _ _ _ Hk3 (lookup_insert_eq _ _ _)) as Hslot.
  assert (∀ a, span (bdata b + o mod BSIZE) len a → in_bufs a) as Hbuf.
  { intros a Ha. exists b. split; [done|]. rewrite /span in Ha |- *. lia. }
  apply wp_bind. eapply wp_expose; [exact Hk3|apply lookup_insert_eq|]. intros k4 Hk4%kb_kmem.
  set (m4 := copy_bytes _ _ _ _ _) in Hk4.
  assert (∀ a, ld8 m4 a = if decide (span (bdata b + o mod BSIZE) len a) then ld8 (c r) (o mod BSIZE + (a - (bdata b + o mod BSIZE)))
    else ld8 (mem (k_mem K)) a) as Hm4 by (intros a; rewrite ld8_copy_bytes Z2Nat.id //; lia).
  assert (Sk tot (kmem K m4)) as HS4.
  { eapply sk_bufs; [done..|lia|]. intros a Ha. rewrite Hm4 decide_False //. auto. }
  assert (∀ K5 r5, kb K5 c W (<[r := b]> ∅) I r5 → ∀ A (q : M kern A) R, (∀ k6, kb K5 c W ∅ I k6 → wp q R k6) →
    wp (in_fs (brelse b);; q) R r5) as Hrel.
  { intros K5 k5 Hk5 A q R HR. apply wp_bind. eapply kt_in_fs; [exact Hk5|].
    eapply txn_brelse; [apply Hk5|apply lookup_insert_eq|done|]. intros s6 Ht6.
    rewrite delete_insert_id // in Ht6. eexists _, _, _, _. split; [exact Ht6|exact HR]. }
  apply wp_bind. rewrite (kb_eq _ _ _ _ _ _ Hk4).
  eapply (sk_copy _ _ _ _ _ _ Hsk); [exact HS4|lia|lia|lia|done|..].
  - intros j Hj. cbn [k_mem kmem set_k_mem mem set_mem]. rewrite Hm4 decide_True; [|rewrite /span; lia].
    rewrite Z.add_assoc. fold o. rewrite (chunk_byte c (I ip) o j); [|lia..|done]. fold r. f_equal. lia.
  - intros ms HS5. apply (kb_set _ _ _ _ _ _ ms) in Hk4 as Hk5. rewrite (kb_eq _ _ _ _ _ _ Hk4) in Hk5.
    eapply Hrel; [exact Hk5|]. intros k6 Hk6. cbn [Z.eqb]. rewrite /o -!Z.add_assoc.
    eapply IH; [exact Hk6|exact HS5|lia|lia|]. intros Hl2. rewrite Z.add_assoc. fold o.
    assert (len = BSIZE - o mod BSIZE) as -> by lia. dlia.
  - intros ms HS5. apply (kb_set _ _ _ _ _ _ ms) in Hk4 as Hk5. rewrite (kb_eq _ _ _ _ _ _ Hk4) in Hk5.
    eapply Hrel; [exact Hk5|]. intros k6 Hk6. cbn [Z.eqb]. by eapply wp_ret, Hbad.
Qed.

(** How many bytes [readi] returns. *)
Definition read_len (x : inode) (off n : Z) : Z :=
  if (i_size x <? off) || (2 ^ 32 <=? off + n) then 0 else Z.min n (i_size x - off).

Lemma wp_readi_to c W I K k ip ud dst off n Sk bad (Q : Z → kern → Prop) :
  kb K c W ∅ I k → file_ok (sb E) c (I ip) → budget E W 0 → 0 ≤ off < 2 ^ 32 → 0 ≤ n < 2 ^ 32 →
  sink ud dst (read_len (I ip) off n) (λ i, fbyte c (I ip) (off + i)) Sk bad → Sk 0 K →
  (∀ K' k', kb K' c W ∅ I k' → Sk (read_len (I ip) off n) K' → Q (read_len (I ip) off n) k') →
  (∀ K' k', kb K' c W ∅ I k' → bad K' → Q (-1) k') →
  wp (readi ip ud dst off n) Q k.
Proof.
  intros Hk [Hw Hs Hd] Hb Ho Hn Hsk HS HQ Hbad. rewrite /readi. apply wp_bind. eapply kt_inode; [exact Hk|]. intros k1 Hk1.
  rewrite /read_len in Hsk, HQ.
  assert ((u32 (off + n) <? off) = (2 ^ 32 <=? off + n)) as ->.
  { rewrite /u32. destruct (Z.leb_spec (2 ^ 32) (off + n)).
    - rewrite (_ : (off + n) mod 2 ^ 32 = off + n - 2 ^ 32); [lia|]. dlia.
    - rewrite Z.mod_small; lia. }
  destruct (_ || _) eqn:Eo; [by eapply wp_ret, HQ|].
  apply orb_false_iff in Eo as [E1%Z.ltb_ge E2%Z.leb_gt].
  rewrite (_ : u32 (off + n) = off + n); [|rewrite /u32 Z.mod_small; lia].
  set (n' := if i_size (I ip) <? off + n then u32 (i_size (I ip) - off) else n).
  assert (Z.min n (i_size (I ip) - off) = n') as En.
  { rewrite /n'. destruct (Z.ltb_spec (i_size (I ip)) (off + n)); [rewrite /u32 Z.mod_small; lia|lia]. }
  rewrite En in Hsk, HQ. rewrite -(Z.add_0_r dst) -(Z.add_0_r off).
  eapply (wp_readi_loop c W I ip ud dst off n' Sk bad Q Hsk Hw Hb); [lia|lia| |done|done|exact Hk1|done|lia|..].
  - intros j Hj Hj2. apply Hd; lia.
  - rewrite /io_fuel. lia.
  - intros _. rewrite Z.add_0_r Z.sub_0_r /io_fuel. dlia.
Qed.
End reading.

Section read_into.
Context {KI : KernelImage} {KS : KernelSyms}.
Context (K : kern) (E : fsst) (cur : Z).
Context (Hcur : k_cur K = Some cur).

(** [len] bytes at [dst] are the bytes of the file from [off]. *)
Definition holds_bytes (c : Z → block) (x : inode) (m : gmap Z Z) (dst off len : Z) : Prop :=
  ∀ i, 0 ≤ i < len → ld8 m (dst + i) = fbyte c x (off + i).

(** Kernel memory: the first [i] bytes are at [dst]. *)
Definition in_kernel (m : gmap Z Z) (dst : Z) (g : Z → Z) (i : Z) (K1 : kern) : Prop :=
  ∃ m1, K1 = kmem K m1 ∧ (∀ j, 0 ≤ j < i → ld8 m1 (dst + j) = g j) ∧ only dst i m m1.

Lemma kernel_sink m dst n g :
  (∀ a, span dst n a → ¬ in_bufs a) → sink false dst n g (in_kernel m dst g) (λ _, False).
Proof.
  intros Hd. split.
  - intros i K1 m' (m1 & -> & H1 & H2) Hi Hm. cbn in Hm. exists m'. split_and!; [done| |].
    + intros j Hj. rewrite -H1 //. apply Hm, Hd. rewrite /span. lia.
    + intros a [Ha Hn]. rewrite (Hm a Hn). by apply H2.
  - intros i l src K1 f Q (m1 & -> & H1 & H2) Hi Hl Hil Hs Hg HQ _. rewrite /either_copyout.
    apply wp_bind. rewrite /myproc. apply wp_bind, wp_gets. cbn [k_cur set_k_fs kmem set_k_mem]. rewrite Hcur. apply wp_ret.
    apply wp_bind, wp_gets, wp_bind, wp_zoom, wp_kmemmove, wp_ret, HQ. rewrite /u32 Z.mod_small; [|lia]. cbn in Hg |- *.
    eexists. split; [reflexivity|].
    assert (∀ a, ld8 (memmove m1 (dst + i) src l) a = if decide (span (dst + i) l a) then ld8 m1 (src + (a - (dst + i))) else ld8 m1 a) as Hc
      by (intros a; apply ld8_memmove; lia).
    split.
    + intros j Hj. rewrite Hc. case_decide as Ha; rewrite /span in Ha; [|apply H1; lia]. rewrite Hg; [f_equal; lia|lia].
    + intros a [Ha Hn]. rewrite Hc decide_False; [apply H2; split; [|done]|]; rewrite /span in Ha |- *; lia.
Qed.

(** Reading into kernel memory. *)
Lemma wp_readi c W I m k ip dst off n (Q : Z → kern → Prop) :
  kt K E c W ∅ I m k → file_ok (sb E) c (I ip) → budget E W 0 → 0 ≤ off < 2 ^ 32 → 0 ≤ n < 2 ^ 32 →
  (∀ a, span dst (read_len (I ip) off n) a → ¬ in_bufs a) →
  (∀ m' k', kt K E c W ∅ I m' k' → holds_bytes c (I ip) m' dst off (read_len (I ip) off n) →
     only dst (read_len (I ip) off n) m m' → Q (read_len (I ip) off n) k') →
  wp (readi ip false dst off n) Q k.
Proof.
  intros Hk Hf Hb Ho Hn Hd HQ. eapply wp_readi_to; [by apply kb_kmem|done..|by apply kernel_sink| | |done].
  - exists m. split_and!; [done|lia|done].
  - intros K' k' Hk' (m1 & -> & H1 & H2). apply (HQ m1); [by apply kmem_kb|done..].
Qed.

(** User memory: the first [i] bytes are at [dst] in the view of the running
    process, and nothing else has changed for any process. *)
Definition user_has (s : kst) (ps : list aspace) (p : nat) (a : aspace) (dst : Z) (g : Z → Z) (i : Z) (K1 : kern) (fl : list Z) : Prop :=
  K1 = set_k_mem (k_mem K1) K ∧ in_user K cur (k_mem K1) fl ps p a ∧
  view_write s ps p dst i (λ va, g (va - dst)) (k_mem K1) ∧ perms_kept s ps (k_mem K1).

(** A copy that failed after [i] bytes. *)
Definition user_failed (s : kst) (ps : list aspace) (p : nat) (a : aspace) (dst n : Z) (g : Z → Z) (K1 : kern) : Prop :=
  ∃ i fl, 0 ≤ i < n ∧ user_has s ps p a dst g i K1 fl ∧
    ((in_as a (dst + i) → writable s a (dst + i) = false) ∨ fl = []).

Lemma set_k_mem_again ms0 ms K1 : K1 = set_k_mem ms0 K → set_k_mem ms K1 = set_k_mem ms K.
Proof. by intros ->. Qed.

Lemma user_sink s ps p a dst n g :
  0 ≤ dst → sink true dst n g (λ i K1, ∃ fl, user_has s ps p a dst g i K1 fl) (user_failed s ps p a dst n g).
Proof.
  intros Hdst. split.
  - intros i K1 m (fl & EK & Hu & Hv & Hp) Hi Hm. exists fl.
    destruct (in_user_bufs K cur _ _ _ _ _ m Hu Hm) as (Hu' & Hv' & Hp'). split_and!.
    + by eapply set_k_mem_again.
    + done.
    + intros j b va Hj. rewrite -(Hv j b va Hj). by apply (Hv' j).
    + by eapply perms_kept_trans.
  - intros i l src K1 f Q (fl & EK & Hu & Hv & Hp) Hi Hl Hil Hs Hg HQ Hbad. rewrite /either_copyout.
    pose proof Hu as [Hw Hps Hr Hb].
    apply wp_bind. rewrite /myproc. apply wp_bind, wp_gets. rewrite (_ : k_cur (set_k_fs f K1) = Some cur); [|by rewrite EK].
    apply wp_ret, wp_bind, wp_gets, wp_zoom. rewrite (_ : p_pagetable (k_procs (set_k_fs f K1) cur) = as_root a); [|by rewrite EK].
    assert (∀ j, 0 ≤ j < l → in_bufs (src + j)) as Hs' by (intros j Hj; apply Hs; rewrite /span; lia).
    pose proof (Hb _ (Hs' 0 ltac:(lia))) as [B0 _]. pose proof (Hb _ (Hs' (l - 1) ltac:(lia))) as [B1 _].
    eapply wp_mono; [apply (wp_copyout_calm _ fl ps p a); [done|done|lia|lia|lia|lia|]|].
    { intros j Hj. by apply Hb, Hs'. }
    intros r s' (fl' & (t & Hw' & Ht & Hv' & Hp' & Hres) & Hcalm).
    assert (user_has s ps p a dst g (i + t) (set_k_mem s' K1) fl') as Hhas.
    { split_and!.
      - by eapply set_k_mem_again.
      - split; [done..|]. intros x [Hx Hq]%Hb. split; [done|]. by apply Hcalm.
      - eapply view_write_app; [lia|lia|exact Hv|exact Hv'|]. intros x Hx. cbv beta. rewrite /span in Hx.
        rewrite Hg; [f_equal; lia|lia].
      - by eapply perms_kept_trans. }
    destruct Hres as [[-> ->]|(-> & Hlt & Hno)]; [apply HQ; eauto|].
    apply Hbad. exists (i + t), fl'. split_and!; [lia|lia|done|]. rewrite Z.add_assoc.
    destruct Hno as [Hno|]; [left|by right]. intros Hin. rewrite -(Hp p) //. by apply Hno.
Qed.

(** Where [readi] may copy [n] bytes to. *)
Definition target (ud : bool) (dst n : Z) (s : kst) (fl : list Z) (ps : list aspace) (p : nat) (a : aspace) : Prop :=
  if ud then 0 ≤ dst ∧ in_user K cur s fl ps p a else ∀ x, span dst n x → ¬ in_bufs x.

(** C22: [readi] reads, into kernel memory or into the memory of the running
    process.  For a file whose blocks are there up to its size, it returns the
    number of bytes that lie between the offset and the end of the file, at
    most [n] and none when the offset is past the end or the range wraps
    around.  These bytes of the file are then at [dst], and no other memory
    outside the buffers has changed; in user memory, the process sees them at
    [dst] and nothing else has changed for it or another process.  [readi] into
    user memory returns -1 only at an address that the process may not write or
    when no page is free for a private copy; the bytes before that address are
    then written.  No block, no inode and no log entry changes. *)
Theorem readi_spec c W I m k ip ud dst off n fl ps p a :
  kt K E c W ∅ I m k → file_ok (sb E) c (I ip) → budget E W 0 → 0 ≤ off < 2 ^ 32 → 0 ≤ n < 2 ^ 32 →
  target ud dst (read_len (I ip) off n) (set_mem m (k_mem K)) fl ps p a →
  wp (readi ip ud dst off n) (λ r k',
    if ud then ∃ K' fl' t, kb E K' c W ∅ I k' ∧ 0 ≤ t ≤ read_len (I ip) off n ∧
      user_has (set_mem m (k_mem K)) ps p a dst (λ i, fbyte c (I ip) (off + i)) t K' fl' ∧
      ((r = read_len (I ip) off n ∧ t = r) ∨
       (r = -1 ∧ t < read_len (I ip) off n ∧
        ((in_as a (dst + t) → writable (set_mem m (k_mem K)) a (dst + t) = false) ∨ fl' = [])))
    else r = read_len (I ip) off n ∧
      ∃ m', kt K E c W ∅ I m' k' ∧ holds_bytes c (I ip) m' dst off r ∧ only dst r m m') k.
Proof.
  intros Hk Hf Hb Ho Hn Ht. destruct ud; [destruct Ht as [Hd Hu]|by eapply wp_readi; [done..|]; eauto].
  assert (0 ≤ read_len (I ip) off n) as Hl.
  { rewrite /read_len. destruct (_ || _) eqn:Eo; [done|]. apply orb_false_iff in Eo as [?%Z.ltb_ge _]. lia. }
  eapply wp_readi_to; [by apply kb_kmem|done..|by apply (user_sink (set_mem m (k_mem K)) ps p a)| | |].
  - exists fl. split_and!; [done..|apply view_write_0, same_view_refl|done].
  - intros K' k' Hk' [fl' Hh]. exists K', fl', (read_len (I ip) off n). split_and!; [done|lia|lia|done|by left].
  - intros K' k' Hk' (i & fl' & Hi & Hh & Hno). exists K', fl', i. split_and!; [done|lia|lia|done|]. right. split_and!; [done|lia|done].
Qed.
End read_into.
