(* ===== verification/DirMap.v ===== *)
(** * Directories are maps (kernel/fs.c: dirlookup, dirlink)

    A directory is a file of [struct dirent]s.  [dir_get c x nm] is the inode
    number that the directory of inode [x] gives the name [nm].  [dirlookup]
    computes it and [dirlink] adds to it. *)

From stdpp Require Import functions list.
From S2P Require Import Prelude Mem Cstring Riscv Spinlock Kalloc Vm Uvm Cow Sleeplock Bio Bcache Log LogCrash Txn Fs Balloc Bmap Idisk Itable Virtio State Sched Dir Fileio.

Local Open Scope Z_scope.

(** ** Searching *)

(** The first of the [n] indices from [i] that has property [p]. *)
Fixpoint first_idx (p : Z → bool) (n : nat) (i : Z) : option Z :=
  match n with
  | O => None
  | S n' => if p i then Some i else first_idx p n' (i + 1)
  end.

Lemma first_idx_some p n i j :
  i ≤ j < i + Z.of_nat n → p j = true → (∀ k, i ≤ k < j → p k = false) → first_idx p n i = Some j.
Proof.
  revert i. induction n as [|n IH]; intros i Hj Hp Hk; simpl; [lia|]. destruct (decide (i = j)) as [->|Hne]; [by rewrite Hp|].
  rewrite Hk; [|lia]. apply IH; [lia|done|]. intros k Hk2. apply Hk. lia.
Qed.

Lemma first_idx_none p n i : (∀ k, i ≤ k < i + Z.of_nat n → p k = false) → first_idx p n i = None.
Proof.
  revert i. induction n as [|n IH]; intros i Hk; simpl; [done|]. rewrite Hk; [|lia]. apply IH. intros k Hk2. apply Hk. lia.
Qed.

Lemma first_idx_ext p q n i : (∀ k, i ≤ k < i + Z.of_nat n → p k = q k) → first_idx p n i = first_idx q n i.
Proof.
  revert i. induction n as [|n IH]; intros i H; simpl; [done|]. rewrite H; [|lia]. case_match; [done|]. apply IH. intros k Hk. apply H. lia.
Qed.

Lemma first_idx_spec p n i :
  match first_idx p n i with
  | Some j => i ≤ j < i + Z.of_nat n ∧ p j = true ∧ ∀ k, i ≤ k < j → p k = false
  | None => ∀ k, i ≤ k < i + Z.of_nat n → p k = false
  end.
Proof.
  revert i. induction n as [|n IH]; intros i; simpl; [lia|]. destruct (p i) eqn:Hp.
  - split_and!; [lia|lia|done|lia].
  - specialize (IH (i + 1)). destruct (first_idx p n (i + 1)) as [j|].
    + destruct IH as (Hj & Hpj & Hk). split_and!; [lia|lia|done|]. intros k Hk2. destruct (decide (k = i)) as [->|]; [done|]. apply Hk. lia.
    + intros k Hk. destruct (decide (k = i)) as [->|]; [done|]. apply IH. lia.
Qed.

(** ** Entries *)

(** The contents of a name field, as [cname], of a file. *)
Fixpoint fname (k : nat) (f : Z → Z) (p : Z) : list Z :=
  match k with
  | O => []
  | S k' => if f p =? 0 then [] else f p :: fname k' f (p + 1)
  end.

Lemma fname_ext k f g p q : (∀ i, 0 ≤ i < Z.of_nat k → f (p + i) = g (q + i)) → fname k f p = fname k g q.
Proof.
  revert p q. induction k as [|k IH]; intros p q H; simpl; [done|].
  pose proof (H 0 ltac:(lia)) as H0. rewrite !Z.add_0_r in H0. rewrite H0. case_match; [done|]. f_equal.
  apply IH. intros i Hi. specialize (H (i + 1) ltac:(lia)). by rewrite -!Z.add_assoc (Z.add_comm 1 i).
Qed.

Lemma cname_fname k m p : cname k m p = fname k (ld8 m) p.
Proof. revert p. induction k as [|k IH]; intros p; simpl; [done|]. by rewrite IH. Qed.

(** Entry [i] of the directory. *)
Definition de_inum (c : Z → block) (x : inode) (i : Z) : Z :=
  fbyte c x (SIZEOF_DIRENT * i) + 256 * fbyte c x (SIZEOF_DIRENT * i + 1).
Definition de_name (c : Z → block) (x : inode) (i : Z) : list Z :=
  fname (Z.to_nat DIRSIZ) (fbyte c x) (SIZEOF_DIRENT * i + DE_NAME).
Definition de_is (c : Z → block) (x : inode) (nm : list Z) (i : Z) : bool :=
  negb (de_inum c x i =? 0) && bool_decide (de_name c x i = nm).
Definition de_free (c : Z → block) (x : inode) (i : Z) : bool := de_inum c x i =? 0.

(** The number of entries, used or not. *)
Definition dir_len (x : inode) : nat := Z.to_nat (i_size x / SIZEOF_DIRENT).

Definition dir_find (c : Z → block) (x : inode) (nm : list Z) : option Z := first_idx (de_is c x nm) (dir_len x) 0.
Definition dir_get (c : Z → block) (x : inode) (nm : list Z) : option Z := de_inum c x <$> dir_find c x nm.

Record dir_ok (b : superblock) (c : Z → block) (x : inode) : Prop := {
  do_file : file_ok b c x;
  do_type : i_type x = T_DIR;
  do_size : i_size x mod SIZEOF_DIRENT = 0;
}.

(** The map depends on the entries. *)
Lemma dir_get_ext c' x' c x nm :
  dir_len x' = dir_len x →
  (∀ i, 0 ≤ i < Z.of_nat (dir_len x) → de_inum c' x' i = de_inum c x i ∧ de_name c' x' i = de_name c x i) →
  dir_get c' x' nm = dir_get c x nm.
Proof.
  intros El He. assert (dir_find c' x' nm = dir_find c x nm) as Ef.
  { rewrite /dir_find El. apply first_idx_ext. intros i Hi. rewrite /de_is. by destruct (He i Hi) as [-> ->]. }
  rewrite /dir_get Ef. pose proof (first_idx_spec (de_is c x nm) (dir_len x) 0) as Hsp. fold (dir_find c x nm) in Hsp.
  destruct (dir_find c x nm) as [i|]; [|done]. simpl. f_equal. apply He. lia.
Qed.

(** ** Adding an entry *)

Section add.
Context (c : Z → block) (x : inode) (c' : Z → block) (x' : inode) (j inum : Z) (nm : list Z).
Context (Hlen : dir_len x' = Nat.max (dir_len x) (Z.to_nat (j + 1))) (Hj : 0 ≤ j ≤ Z.of_nat (dir_len x)).
Context (Hfree : j < Z.of_nat (dir_len x) → de_free c x j = true).
Context (Hsame : ∀ i, 0 ≤ i < Z.of_nat (dir_len x) → i ≠ j → de_inum c' x' i = de_inum c x i ∧ de_name c' x' i = de_name c x i).
Context (Hinum : de_inum c' x' j = inum) (Hname : de_name c' x' j = nm) (Hnz : inum ≠ 0).

Lemma add_is_other nm' i : nm' ≠ nm → 0 ≤ i < Z.of_nat (dir_len x) → de_is c' x' nm' i = de_is c x nm' i.
Proof.
  intros Hne Hi. rewrite /de_is. destruct (decide (i = j)) as [->|Hij].
  - rewrite Hname (bool_decide_false (nm = nm')); [|done]. pose proof (Hfree ltac:(lia)) as Hfr. rewrite /de_free in Hfr.
    rewrite Hfr /=. by destruct (negb _).
  - by destruct (Hsame i Hi Hij) as [-> ->].
Qed.

Lemma add_is_new : de_is c' x' nm j = true.
Proof. rewrite /de_is Hinum Hname bool_decide_true // (proj2 (Z.eqb_neq _ _) Hnz) //. Qed.

Lemma add_find_new : dir_find c x nm = None → dir_find c' x' nm = Some j.
Proof.
  intros Hno. pose proof (first_idx_spec (de_is c x nm) (dir_len x) 0) as Hs. rewrite /dir_find in Hno. rewrite Hno in Hs.
  apply first_idx_some; [lia|apply add_is_new|]. intros i Hi. rewrite -(Hs i); [|lia]. rewrite /de_is.
  by destruct (Hsame i ltac:(lia) ltac:(lia)) as [-> ->].
Qed.

Lemma add_find_other nm' : nm' ≠ nm → dir_find c' x' nm' = dir_find c x nm'.
Proof.
  intros Hne. pose proof (first_idx_spec (de_is c x nm') (dir_len x) 0) as Hs. fold (dir_find c x nm') in Hs.
  assert (∀ i, Z.of_nat (dir_len x) ≤ i < Z.of_nat (dir_len x') → de_is c' x' nm' i = false) as Hend.
  { intros i Hi. assert (i = j) as -> by lia. rewrite /de_is Hname bool_decide_false // andb_false_r //. }
  destruct (dir_find c x nm') as [i|].
  - destruct Hs as (Hi & His & Hbef). apply first_idx_some; [lia|by rewrite add_is_other //; lia|].
    intros q Hq. rewrite add_is_other; [apply Hbef; lia|done|lia].
  - apply first_idx_none. intros i Hi. destruct (decide (i < Z.of_nat (dir_len x))); [rewrite add_is_other //; [apply Hs; lia|lia]|].
    apply Hend. lia.
Qed.

Lemma add_get : dir_get c x nm = None → ∀ nm', dir_get c' x' nm' = if decide (nm' = nm) then Some inum else dir_get c x nm'.
Proof.
  intros Hno nm'. rewrite /dir_get in Hno |- *. apply fmap_None in Hno. destruct (decide (nm' = nm)) as [->|Hne].
  - by rewrite add_find_new //= Hinum.
  - rewrite add_find_other //. pose proof (first_idx_spec (de_is c x nm') (dir_len x) 0) as Hs. fold (dir_find c x nm') in Hs.
    destruct (dir_find c x nm') as [i|]; [|done]. destruct Hs as (Hi & His & _). simpl. f_equal.
    apply Hsame; [lia|]. intros ->. rewrite /de_is in His. pose proof (Hfree ltac:(lia)) as Hfr. rewrite /de_free in Hfr. by rewrite Hfr in His.
Qed.
End add.

(** ** The operations *)

Section dirmap.
Context {KI : KernelImage} {KS : KernelSyms}.
Context (K : kern) (E : fsst) (cur : Z) (Hcur : k_cur K = Some cur).
Context (Hg : geometry (sb E) (lg E)) (HI : ITABLE ∉ fheld E).

(** The address of the local variable [de]. *)
Definition de_addr : Z := p_kstack (k_procs K cur) + LOC_DE.

(** The name at [name] is [nm], and is neither in a buffer nor where the
    directory entries are read to. *)
Record name_at (m : gmap Z Z) (name : Z) (nm : list Z) : Prop := {
  na_name : cname (Z.to_nat DIRSIZ) m name = nm;
  na_bufs : ∀ a, span name DIRSIZ a → ¬ in_bufs a;
  na_apart : name + DIRSIZ ≤ de_addr ∨ de_addr + SIZEOF_DIRENT ≤ name;
  na_de : ∀ a, span de_addr SIZEOF_DIRENT a → ¬ in_bufs a;
}.

Lemma name_only m m' name nm : name_at m name nm → only de_addr SIZEOF_DIRENT m m' → name_at m' name nm.
Proof.
  intros [<- Hb Ha Hd] Ho. split; [|done..]. apply cname_ext. intros a Hs. apply Ho.
  rewrite /span in Hs |- *. split; [lia|by apply Hb].
Qed.

Lemma only_trans a n m1 m2 m3 : only a n m1 m2 → only a n m2 m3 → only a n m1 m3.
Proof. rewrite /only. intros. by etrans. Qed.

Lemma kt_local c W O I m k o (Q : Z → kern → Prop) :
  kt K E c W O I m k → Q (p_kstack (k_procs K cur) + o) k → wp (local o) Q k.
Proof.
  intros [Ht Ek] HQ. rewrite /local. apply wp_bind. rewrite /myproc. apply wp_bind, wp_gets.
  rewrite (_ : k_cur k = Some cur); [|by rewrite Ek]. apply wp_ret, wp_bind, wp_gets, wp_ret.
  by rewrite (_ : k_procs k = k_procs K); [|by rewrite Ek].
Qed.

(** Reading entry [i]. *)
Lemma wp_read_dirent c W I m k dp i (Q : Z → kern → Prop) :
  kt K E c W ∅ I m k → dir_ok (sb E) c (I dp) → budget E W 0 → 0 ≤ i < Z.of_nat (dir_len (I dp)) →
  (∀ a, span de_addr SIZEOF_DIRENT a → ¬ in_bufs a) →
  (∀ m' k', kt K E c W ∅ I m' k' → ld16 m' (de_addr + DE_INUM) = de_inum c (I dp) i →
     cname (Z.to_nat DIRSIZ) m' (de_addr + DE_NAME) = de_name c (I dp) i → only de_addr SIZEOF_DIRENT m m' → Q SIZEOF_DIRENT k') →
  wp (readi dp false de_addr (SIZEOF_DIRENT * i) SIZEOF_DIRENT) Q k.
Proof.
  intros Hk [Hf _ Hs] Hb Hi Hde HQ. pose proof (fo_size _ _ _ Hf) as Hsz. rewrite /dir_len in Hi.
  assert (read_len (I dp) (SIZEOF_DIRENT * i) SIZEOF_DIRENT = SIZEOF_DIRENT) as El.
  { rewrite /read_len (proj2 (Z.ltb_ge _ _)); [|dlia]. rewrite (proj2 (Z.leb_gt _ _)); [|dlia]. simpl. dlia. }
  eapply (wp_readi K E cur Hcur); [exact Hk|done|done|dlia|lia|by rewrite El|]. rewrite El. intros m' k' Hk' Hh Ho.
  eapply HQ; [exact Hk'| | |done].
  - rewrite /ld16 /ldle /de_inum Z.mul_0_r Z.add_0_r. pose proof (Hh 0 ltac:(lia)) as H0. rewrite !Z.add_0_r in H0. rewrite H0.
    rewrite (Hh 1); lia.
  - rewrite cname_fname /de_name. apply fname_ext. intros j Hj. rewrite -Z.add_assoc Hh; [|lia]. f_equal. lia.
Qed.

Lemma wp_dirlookup_loop c W I dp name nm (Q : option (Z * Z) → kern → Prop) :
  dir_ok (sb E) c (I dp) → budget E W 0 → ∀ r fuel m k i,
  kt K E c W ∅ I m k → name_at m name nm → 0 ≤ i → i + Z.of_nat r = Z.of_nat (dir_len (I dp)) → (r < fuel)%nat →
  (∀ m' k', kt K E c W ∅ I m' k' → only de_addr SIZEOF_DIRENT m m' →
     match first_idx (de_is c (I dp) nm) r i with
     | Some j => wp (in_fs (iget ROOTDEV (de_inum c (I dp) j))) (λ ip k', Q (Some (ip, SIZEOF_DIRENT * j)) k') k'
     | None => Q None k'
     end) →
  wp (dirlookup_loop fuel dp name (SIZEOF_DIRENT * i)) Q k.
Proof.
  intros Hd Hb r. pose proof Hd as [Hf _ Hs]. pose proof (fo_size _ _ _ Hf) as Hsz.
  induction r as [|r IH]; intros [|fuel] m k i Hk Hn Hi Hr Hfl HQ; try lia; cbn [dirlookup_loop]; apply wp_bind;
    (eapply kt_inode; [exact Hk|]); intros k1 Hk1; rewrite /dir_len in Hr.
  - rewrite (proj2 (Z.ltb_ge _ _)); [|dlia]. apply wp_ret. by eapply HQ.
  - rewrite (proj2 (Z.ltb_lt _ _)); [|dlia]. apply wp_bind. eapply kt_local; [exact Hk1|]. fold de_addr. apply wp_bind.
    eapply wp_read_dirent; [exact Hk1|done|done|rewrite /dir_len; lia|apply Hn|]. intros m2 k2 Hk2 Hin Hnm Ho2. cbn [Z.eqb Pos.eqb negb].
    apply wp_bind. eapply (kt_get_mem K E c W ∅ I m2 k2 (λ m, ld16 m (de_addr + DE_INUM))); [exact Hk2|]. intros k3 Hk3. rewrite Hin.
    pose proof (name_only _ _ _ _ Hn Ho2) as Hn2. cbn [first_idx] in HQ. rewrite /de_is in HQ.
    assert (∀ k4, kt K E c W ∅ I m2 k4 → negb (de_inum c (I dp) i =? 0) && bool_decide (de_name c (I dp) i = nm) = false →
      wp (dirlookup_loop fuel dp name (SIZEOF_DIRENT * i + SIZEOF_DIRENT)) Q k4) as Hnext.
    { intros k4 Hk4 Hno. rewrite Hno in HQ. rewrite (_ : SIZEOF_DIRENT * i + SIZEOF_DIRENT = SIZEOF_DIRENT * (i + 1)); [|lia].
      eapply IH; [exact Hk4|exact Hn2|lia|rewrite /dir_len; lia|lia|]. intros m5 k5 Hk5 Ho5. eapply HQ; [exact Hk5|by eapply only_trans]. }
    destruct (de_inum c (I dp) i =? 0) eqn:E0; [by apply Hnext|]. apply wp_bind. rewrite /namecmp.
    eapply (kt_get_mem K E c W ∅ I m2 k3 (λ m, strncmp m name (de_addr + DE_NAME) DIRSIZ)); [exact Hk3|]. intros k4 Hk4.
    pose proof (strncmp_eq m2 name (de_addr + DE_NAME) DIRSIZ ltac:(lia)) as Hcmp. rewrite Hnm (na_name _ _ _ Hn2) in Hcmp.
    destruct (Z.eqb_spec (strncmp m2 name (de_addr + DE_NAME) DIRSIZ) 0) as [Hc|Hc].
    + apply Hcmp in Hc. specialize (HQ m2 k4 Hk4 Ho2). rewrite Hc bool_decide_true // in HQ. apply wp_bind.
      rewrite (iw_dev _ _ _ (fo_wf _ _ _ Hf)). exact HQ.
    + apply Hnext; [done|]. rewrite bool_decide_false //. intros Heq. apply Hc, Hcmp. done.
Qed.

(** What [dirlookup] returns, with the call of [iget] left to do. *)
Lemma wp_dirlookup_iget c W I m k dp name nm (Q : option (Z * Z) → kern → Prop) :
  kt K E c W ∅ I m k → dir_ok (sb E) c (I dp) → budget E W 0 → name_at m name nm →
  (∀ m' k', kt K E c W ∅ I m' k' → only de_addr SIZEOF_DIRENT m m' →
     match dir_find c (I dp) nm with
     | Some j => wp (in_fs (iget ROOTDEV (de_inum c (I dp) j))) (λ ip k', Q (Some (ip, SIZEOF_DIRENT * j)) k') k'
     | None => Q None k'
     end) →
  wp (dirlookup dp name) Q k.
Proof.
  intros Hk Hd Hb Hn HQ. rewrite /dirlookup. apply wp_bind. eapply kt_inode; [exact Hk|]. intros k1 Hk1.
  rewrite (do_type _ _ _ Hd). cbn [Z.eqb Pos.eqb negb]. fold (dir_len (I dp)).
  eapply (wp_dirlookup_loop c W I dp name nm Q Hd Hb (dir_len (I dp)) _ m k1 0); [exact Hk1|done|done|lia|lia|done].
Qed.

(** [dirlookup] finds.  It returns no entry when the directory has none
    in use with this name, and then changes nothing but its local variable;
    otherwise it returns the offset of the first such entry and a new reference
    to an entry of the inode table for the inode number there, the one in use
    for that inode if there is one and else a free one. *)
Lemma dirlookup_spec c W I m k dp name nm :
  kt K E c W ∅ I m k → dir_ok (sb E) c (I dp) → budget E W 0 → name_at m name nm → itable_room I →
  wp (dirlookup dp name) (λ r k', ∃ m', only de_addr SIZEOF_DIRENT m m' ∧
    match r with
    | None => dir_get c (I dp) nm = None ∧ kt K E c W ∅ I m' k'
    | Some (ip, off) => ∃ j inum I', off = SIZEOF_DIRENT * j ∧ dir_find c (I dp) nm = Some j ∧
        dir_get c (I dp) nm = Some inum ∧ igot I ROOTDEV inum ip I' ∧ kt K E c W ∅ I' m' k'
    end) k.
Proof.
  intros Hk Hd Hb Hn Hr. eapply wp_dirlookup_iget; [exact Hk|done|done|exact Hn|]. intros m' k' Hk' Ho.
  rewrite /dir_get. destruct (dir_find c (I dp) nm) as [j|]; [|by exists m'].
  eapply kt_in_fs; [exact Hk'|]. eapply wp_iget; [done|apply Hk'|done|]. intros ip I' s' Hgot Ht'.
  eexists _, _, _, _. split; [exact Ht'|]. intros k2 Hk2. exists m'. split; [done|]. by exists j, (de_inum c (I dp) j), I'.
Qed.

Lemma wp_dirlink_scan c W I dp name nm (Q : Z → kern → Prop) :
  dir_ok (sb E) c (I dp) → budget E W 0 → ∀ r fuel m k i,
  kt K E c W ∅ I m k → name_at m name nm → 0 ≤ i → i + Z.of_nat r = Z.of_nat (dir_len (I dp)) → (r < fuel)%nat →
  (∀ m' k', kt K E c W ∅ I m' k' → only de_addr SIZEOF_DIRENT m m' →
     Q (SIZEOF_DIRENT * default (i + Z.of_nat r) (first_idx (de_free c (I dp)) r i)) k') →
  wp (dirlink_scan fuel dp (SIZEOF_DIRENT * i)) Q k.
Proof.
  intros Hd Hb r. pose proof Hd as [Hf _ Hs]. pose proof (fo_size _ _ _ Hf) as Hsz.
  induction r as [|r IH]; intros [|fuel] m k i Hk Hn Hi Hr Hfl HQ; try lia; cbn [dirlink_scan]; apply wp_bind;
    (eapply kt_inode; [exact Hk|]); intros k1 Hk1; rewrite /dir_len in Hr.
  - rewrite (proj2 (Z.ltb_ge _ _)); [|dlia]. apply wp_ret. simpl in HQ. rewrite Z.add_0_r in HQ. by eapply HQ.
  - rewrite (proj2 (Z.ltb_lt _ _)); [|dlia]. apply wp_bind. eapply kt_local; [exact Hk1|]. fold de_addr. apply wp_bind.
    eapply wp_read_dirent; [exact Hk1|done|done|rewrite /dir_len; lia|apply Hn|]. intros m2 k2 Hk2 Hin _ Ho2. cbn [Z.eqb Pos.eqb negb].
    apply wp_bind. eapply (kt_get_mem K E c W ∅ I m2 k2 (λ m, ld16 m (de_addr + DE_INUM))); [exact Hk2|]. intros k3 Hk3. rewrite Hin.
    cbn [first_idx] in HQ. fold (de_free c (I dp) i). destruct (de_free c (I dp) i); [by apply wp_ret; eapply HQ|].
    rewrite (_ : SIZEOF_DIRENT * i + SIZEOF_DIRENT = SIZEOF_DIRENT * (i + 1)); [|lia].
    eapply IH; [exact Hk3|by eapply name_only|lia|rewrite /dir_len; lia|lia|]. intros m5 k5 Hk5 Ho5.
    rewrite (_ : i + 1 + Z.of_nat r = i + Z.of_nat (S r)); [|lia]. eapply HQ; [exact Hk5|by eapply only_trans].
Qed.

(** The entry that [dirlink] writes. *)
Lemma dirent_built m name nm inum :
  name_at m name nm → 0 ≤ inum < 2 ^ 16 →
  let m1 := st16 (strncpy m (de_addr + DE_NAME) name DIRSIZ) (de_addr + DE_INUM) inum in
  ld16 m1 (de_addr + DE_INUM) = inum ∧ cname (Z.to_nat DIRSIZ) m1 (de_addr + DE_NAME) = nm ∧ only de_addr SIZEOF_DIRENT m m1.
Proof.
  intros [Hn _ Ha _] Hi m1. destruct (strncpy_strncmp m (de_addr + DE_NAME) name DIRSIZ) as [Hc Ho]; [lia|lia|].
  assert (mem_eq_on (λ a, ¬ span de_addr 2 a) (strncpy m (de_addr + DE_NAME) name DIRSIZ) m1) as H1.
  { apply mem_eq_on_stle. rewrite /span. lia. }
  split_and!.
  - rewrite /m1 /ld16 /st16 ldle_stle. apply Z.mod_small. simpl. lia.
  - apply strncmp_eq in Hc; [|lia]. transitivity (cname (Z.to_nat DIRSIZ) (strncpy m (de_addr + DE_NAME) name DIRSIZ) (de_addr + DE_NAME)).
    + apply cname_ext. eapply mem_eq_on_weaken; [exact H1|]. rewrite /span. lia.
    + rewrite -Hc -Hn. apply cname_ext. eapply mem_eq_on_weaken; [exact Ho|]. rewrite /span. lia.
  - intros a [Hs _]. etrans; [apply H1|apply Ho]; rewrite /span in Hs |- *; lia.
Qed.

(** The directory once that entry has been written at [j]. *)
Lemma dirent_written c x j m c' x' inum nm :
  dir_ok (sb E) c x → 0 ≤ j ≤ Z.of_nat (dir_len x) → SIZEOF_DIRENT * j + SIZEOF_DIRENT ≤ MAXFILE * BSIZE →
  (j < Z.of_nat (dir_len x) → de_free c x j = true) →
  ld16 m (de_addr + DE_INUM) = inum → cname (Z.to_nat DIRSIZ) m (de_addr + DE_NAME) = nm → inum ≠ 0 → dir_get c x nm = None →
  file_written E c x (SIZEOF_DIRENT * j) SIZEOF_DIRENT (λ i, ld8 m (de_addr + (i - SIZEOF_DIRENT * j))) c' x' →
  dir_ok (sb E) c' x' ∧ ∀ nm', dir_get c' x' nm' = if decide (nm' = nm) then Some inum else dir_get c x nm'.
Proof.
  intros [Hf Ht Hs] Hj Hmax Hfree Hin Hnm Hnz Hno [F1 F2 F3 F4 F5 F6 F7]. pose proof (fo_size _ _ _ Hf) as Hsz. rewrite /dir_len in Hj.
  assert (i_size x' = Z.max (i_size x) (SIZEOF_DIRENT * j + SIZEOF_DIRENT)) as Es by (rewrite F4; done).
  assert (∀ i, 0 ≤ i < SIZEOF_DIRENT → fbyte c' x' (SIZEOF_DIRENT * j + i) = ld8 m (de_addr + i)) as Hnew.
  { intros i Hi. rewrite F3; [|lia]. rewrite decide_True; [|lia]. f_equal. lia. }
  assert (∀ i q, 0 ≤ i < Z.of_nat (dir_len x) → i ≠ j → 0 ≤ q < SIZEOF_DIRENT →
    fbyte c' x' (SIZEOF_DIRENT * i + q) = fbyte c x (SIZEOF_DIRENT * i + q)) as Hold.
  { intros i q Hi Hne Hq. rewrite /dir_len in Hi. rewrite F3; [|dlia]. rewrite decide_False; [done|lia]. }
  split; [split; [done|by rewrite F4|rewrite Es; dlia]|]. apply (add_get c x c' x' j inum nm); try done.
  - rewrite /dir_len Es. dlia.
  - intros i Hi Hne. split.
    + rewrite /de_inum. pose proof (Hold i 0 Hi Hne ltac:(lia)) as H0. rewrite !Z.add_0_r in H0. rewrite H0. by rewrite (Hold i 1 Hi Hne); [|lia].
    + apply fname_ext. intros q Hq. rewrite -!Z.add_assoc. apply Hold; [done|done|lia].
  - rewrite -Hin /de_inum /ld16 /ldle. pose proof (Hnew 0 ltac:(lia)) as H0. rewrite !Z.add_0_r in H0. rewrite Z.add_0_r H0 (Hnew 1); lia.
  - rewrite -Hnm cname_fname. apply fname_ext. intros q Hq. rewrite -(Z.add_assoc (SIZEOF_DIRENT * j)) -(Z.add_assoc de_addr). apply Hnew. lia.
Qed.

(** A write of nothing leaves the directory as it is. *)
Lemma dir_unwritten c x off g c' x' :
  dir_ok (sb E) c x → 0 ≤ off ≤ i_size x → file_written E c x off 0 g c' x' →
  dir_ok (sb E) c' x' ∧ ∀ nm, dir_get c' x' nm = dir_get c x nm.
Proof.
  intros [Hf Ht Hs] Ho [F1 F2 F3 F4 F5 F6 F7]. pose proof (fo_size _ _ _ Hf) as Hsz.
  assert (i_size x' = i_size x) as Es by (rewrite F4; simpl; lia).
  assert (∀ i, 0 ≤ i < i_size x → fbyte c' x' i = fbyte c x i) as Hb.
  { intros i Hi. rewrite F3; [|lia]. rewrite decide_False; [done|lia]. }
  split; [split; [done|by rewrite F4|by rewrite Es]|]. intros nm.
  apply dir_get_ext; [by rewrite /dir_len Es|]. intros i Hi. rewrite /dir_len in Hi. split.
  - rewrite /de_inum !Hb //; dlia.
  - apply fname_ext. intros q Hq. apply Hb. dlia.
Qed.

(** What [dirlink] does to the disk and the inodes when the name is new. *)
Record linked (c : Z → block) (I : Z → inode) (dp : Z) (nm : list Z) (inum r : Z) (c' : Z → block) (I' : Z → inode) : Prop := {
  lk_dir : dir_ok (sb E) c' (I' dp);
  lk_inodes : ∀ j, j ≠ dp → I' j = I j;
  lk_get : ∀ nm', dir_get c' (I' dp) nm' = if decide (r = 0 ∧ nm' = nm) then Some inum else dir_get c (I dp) nm';
  lk_err : r = 0 ∨ (r = -1 ∧ (i_size (I dp) = MAXFILE * BSIZE ∨ ∀ b, 0 ≤ b < sb_size (sb E) → used (sb E) c' b = true));
  lk_others : ∀ y, inode_wf (sb E) c y → (∀ n, block_of c y n → ¬ block_of c (I dp) n) →
    ∀ i, 0 ≤ i < MAXFILE * BSIZE → fbyte c' y i = fbyte c y i;
}.

(** The last part of [dirlink]: the entry is written at [j]. *)
Lemma wp_link_entry c W I m k dp name nm inum j (Q : Z → kern → Prop) :
  kt K E c W ∅ I m k → dir_ok (sb E) c (I dp) → inode_ready (sb E) (I dp) → meta_used (sb E) c → budget E W 6 →
  name_at m name nm → 0 < inum < 2 ^ 16 → dir_get c (I dp) nm = None →
  j = default (Z.of_nat (dir_len (I dp))) (first_idx (de_free c (I dp)) (dir_len (I dp)) 0) →
  (∀ r c' W' I' m' k', linked c I dp nm inum r c' I' → kt K E c' W' ∅ I' m' k' → Q r k') →
  wp (de ← local LOC_DE;
      in_mem (modify (λ s, set_mem (strncpy (mem s) (de + DE_NAME) name DIRSIZ) s));;
      in_mem (modify (λ s, set_mem (st16 (mem s) (de + DE_INUM) inum) s));;
      r ← writei dp false de (SIZEOF_DIRENT * j) SIZEOF_DIRENT;
      if negb (r =? SIZEOF_DIRENT) then mret (-1) else mret 0) Q k.
Proof.
  intros Hk Hd Hir Hm Hb Hn Hi Hno Ej HQ. pose proof Hd as [Hf Ht Hs]. pose proof (fo_size _ _ _ Hf) as Hsz.
  assert (0 ≤ j ≤ Z.of_nat (dir_len (I dp)) ∧ (j < Z.of_nat (dir_len (I dp)) → de_free c (I dp) j = true)) as [Hj Hfree].
  { pose proof (first_idx_spec (de_free c (I dp)) (dir_len (I dp)) 0) as Hsp. destruct (first_idx _ _ _) as [i|]; simpl in Ej; subst j; [|lia].
    destruct Hsp as (? & ? & _). split; [lia|done]. }
  apply wp_bind. eapply kt_local; [exact Hk|]. fold de_addr. apply wp_bind.
  apply (kt_in_mem K E c W ∅ I m k (λ m, strncpy m (de_addr + DE_NAME) name DIRSIZ)); [exact Hk|]. intros k1 Hk1. apply wp_bind.
  eapply (kt_in_mem K E c W ∅ I _ k1 (λ m, st16 m (de_addr + DE_INUM) inum)); [exact Hk1|]. intros k2 Hk2.
  destruct (dirent_built m name nm inum Hn ltac:(lia)) as (Hin & Hnm & Hon). set (m1 := st16 _ _ _) in *.
  apply wp_bind. assert (SIZEOF_DIRENT * j ≤ i_size (I dp)) as Hle by (rewrite /dir_len in Hj; dlia).
  destruct (decide (SIZEOF_DIRENT * j + SIZEOF_DIRENT ≤ MAXFILE * BSIZE)) as [Hmax|Hmax]; last first.
  { eapply (writei_refused K E); [exact Hk2|lia|lia|rewrite /can_write; lia|]. intros k3 Hk3. apply wp_ret. eapply HQ; [|exact Hk3].
    split; [done|done| |right; split; [done|left; dlia]|done]. intros nm'. by destruct (decide _) as [[? _]|_]. }
  eapply (wp_writei K E cur Hcur Hg); [exact Hk2|done|done|done|lia|lia|lia| |apply Hn|].
  { rewrite /write_budget /n_blocks. rewrite (_ : (SIZEOF_DIRENT * j mod BSIZE + SIZEOF_DIRENT + BSIZE - 1) / BSIZE = 1); [|dlia].
    split; [by eapply budget_le|done]. }
  intros r c' W' I' m' k3 Hr Hcut Hfull Hfw HI' _ _ Hk3. destruct (decide (r = SIZEOF_DIRENT)) as [->|Hne].
  - destruct (dirent_written c (I dp) j m1 c' (I' dp) inum nm) as [Hd' Hget]; [done..|lia|done|exact Hfw|].
    apply wp_ret. eapply HQ; [|exact Hk3]. split; [done|done| |by left|].
    + intros nm'. rewrite Hget. apply decide_ext. tauto.
    + intros y Hy Hdis. by destruct (fw_others _ _ _ _ _ _ _ _ Hfw y Hy Hdis) as (_ & H & _).
  - assert (r = 0) as -> by (destruct (Hcut ltac:(lia)); [done|dlia]).
    destruct (dir_unwritten c (I dp) (SIZEOF_DIRENT * j) _ c' (I' dp) Hd ltac:(lia) Hfw) as [Hd' Hget].
    apply wp_ret. eapply HQ; [|exact Hk3]. split; [done|done| |right; split; [done|right; apply Hfull; lia]|].
    + intros nm'. by rewrite Hget.
    + intros y Hy Hdis. by destruct (fw_others _ _ _ _ _ _ _ _ Hfw y Hy Hdis) as (_ & H & _).
Qed.

(** C9: A directory is a map from names to inode numbers, and [dirlink]
    adds to it.  A name that is there is refused with -1, and the entries of
    the inode table in use and the disk are as before.  Otherwise the name is
    bound to the inode number, and every other name to what it was; or the
    result is -1 and every name is bound to what it was, which happens only
    when the directory has the largest size of a file or no block of the disk
    is free.  No file with blocks of its own changes. *)
Theorem dirlink_spec c W I m k dp name nm inum :
  kt K E c W ∅ I m k → dir_ok (sb E) c (I dp) → inode_ready (sb E) (I dp) → meta_used (sb E) c → budget E W 6 →
  name_at m name nm → itable_room I → 0 < inum < 2 ^ 16 →
  wp (dirlink dp name inum) (λ r k', ∃ c' W' I' m', kt K E c' W' ∅ I' m' k' ∧
    match dir_get c (I dp) nm with
    | Some _ => r = -1 ∧ c' = c ∧ W' = W ∧ ∀ j, 0 < i_ref (I j) → I' j = I j
    | None => linked c I dp nm inum r c' I'
    end) k.
Proof.
  intros Hk Hd Hir Hm Hb Hn Hr Hi. rewrite /dirlink. apply wp_bind.
  eapply wp_dirlookup_iget; [exact Hk|done|by eapply budget_le|exact Hn|]. intros m1 k1 Hk1 Ho1.
  destruct (dir_find c (I dp) nm) as [j|] eqn:Ef.
  - rewrite /dir_get Ef. simpl. eapply kt_in_fs; [exact Hk1|]. eapply wp_iget; [done|apply Hk1|done|]. intros ip I' s' Hgot Ht'.
    eexists _, _, _, _. split; [exact Ht'|]. intros k2 Hk2. apply wp_bind. eapply kt_in_fs; [exact Hk2|].
    eapply igot_put; [done|exact Hgot|apply Hk2|]. intros I2 s3 HI2 Ht3. eexists _, _, _, _. split; [exact Ht3|].
    intros k3 Hk3. apply wp_ret. by exists c, W, I2, m1.
  - assert (dir_get c (I dp) nm = None) as Hno by (by rewrite /dir_get Ef). rewrite Hno.
    apply wp_bind. eapply kt_inode; [exact Hk1|]. intros k2 Hk2. pose proof (name_only _ _ _ _ Hn Ho1) as Hn1.
    apply wp_bind. fold (dir_len (I dp)).
    eapply (wp_dirlink_scan c W I dp name nm _ Hd ltac:(by eapply budget_le) (dir_len (I dp)) _ m1 k2 0); [exact Hk2|done|done|lia|lia|].
    intros m3 k3 Hk3 Ho3. rewrite Z.add_0_l.
    eapply wp_link_entry; [exact Hk3|done|done|done|done|by eapply name_only|done|done|done|].
    intros r c' W' I' m' k' Hl Hk'. by exists c', W', I', m'.
Qed.
End dirmap.
