(* ===== verification/PathWalk.v ===== *)
(** * Path names (kernel/fs.c: skipelem, namex)

    A path is a list of names, its elements between slashes.  [walk] follows
    them through the directories on the disk; [namex] computes it: it takes and
    gives back references to the inodes on the way, reads them from the disk
    when they are not in memory, and returns the inode that [walk] finds. *)

From stdpp Require Import functions list.
From S2P Require Import Prelude Mem Cstring Riscv Spinlock Kalloc Vm Uvm Cow Sleeplock Bio Bcache Log LogCrash Txn Fs Balloc Bmap Idisk Itable Virtio State Sched Dir Fileio DirMap.

Local Open Scope Z_scope.

(** ** The elements of a path *)

Fixpoint split_path (l acc : list Z) : list (list Z) :=
  match l with
  | [] => match acc with [] => [] | _ => [acc] end
  | c :: l' =>
      if c =? SLASH then match acc with [] => split_path l' [] | _ => acc :: split_path l' [] end
      else split_path l' (acc ++ [c])
  end.
Definition path_elems (l : list Z) : list (list Z) := split_path l [].

(** A list without its leading slashes. *)
Fixpoint drop_slashes (l : list Z) : list Z :=
  match l with
  | c :: l' => if c =? SLASH then drop_slashes l' else l
  | [] => []
  end.

(** The characters before the first slash, and the rest. *)
Fixpoint elem_rest (l : list Z) : list Z * list Z :=
  match l with
  | [] => ([], [])
  | c :: l' => if c =? SLASH then ([], l) else let '(e, r) := elem_rest l' in (c :: e, r)
  end.

Lemma path_elems_drop l : path_elems (drop_slashes l) = path_elems l.
Proof. induction l as [|c l IH]; [done|]. rewrite /path_elems /=. case_match eqn:Ec; [exact IH|]. by rewrite /= Ec. Qed.

Lemma split_path_elem l acc :
  acc ++ (elem_rest l).1 ≠ [] → split_path l acc = (acc ++ (elem_rest l).1) :: path_elems (drop_slashes (elem_rest l).2).
Proof.
  revert acc. induction l as [|c l IH]; intros acc Hne; simpl in *.
  - rewrite app_nil_r in Hne |- *. by destruct acc.
  - destruct (c =? SLASH) eqn:Ec; simpl in *.
    + rewrite app_nil_r in Hne |- *. destruct acc; [done|]. by rewrite Ec path_elems_drop.
    + destruct (elem_rest l) as [e r]. simpl in *. rewrite (IH (acc ++ [c])); [by rewrite -app_assoc|]. rewrite -app_assoc. by destruct acc.
Qed.

(** One element at a time. *)
Lemma path_elems_step l :
  path_elems l =
    match drop_slashes l with
    | [] => []
    | l1 => (elem_rest l1).1 :: path_elems (drop_slashes (elem_rest l1).2)
    end.
Proof.
  rewrite -path_elems_drop. destruct (drop_slashes l) as [|c l1] eqn:El; [done|]. apply split_path_elem.
  assert (c =? SLASH = false) as Ec.
  { clear -El. induction l as [|d l IH]; [done|]. simpl in El. destruct (d =? SLASH) eqn:Ed; [by apply IH|]. by injection El as -> _. }
  simpl. rewrite Ec. by destruct (elem_rest l1).
Qed.

Lemma path_elems_nil l : path_elems (drop_slashes l) = [] ↔ drop_slashes l = [].
Proof. rewrite path_elems_drop path_elems_step. by destruct (drop_slashes l). Qed.

Lemma elem_rest_app l : (elem_rest l).1 ++ (elem_rest l).2 = l.
Proof. induction l as [|c l IH]; [done|]. simpl. case_match; [done|]. destruct (elem_rest l). simpl in *. by rewrite IH. Qed.

(** ** The loops of [skipelem] *)

Lemma skip_slashes_ok m l p fuel :
  cstr m p l → (length l < fuel)%nat → ∃ q, skip_slashes fuel m p = Some q ∧ cstr m q (drop_slashes l) ∧
  p ≤ q ∧ q + Z.of_nat (length (drop_slashes l)) = p + Z.of_nat (length l).
Proof.
  revert p fuel. induction l as [|c l IH]; intros p [|fuel] Hc Hf; simpl in *; try lia.
  - rewrite Hc. exists p. split_and!; [done|done|lia|lia].
  - destruct Hc as (E1 & Hne & Hc). rewrite E1. destruct (c =? SLASH).
    + destruct (IH (p + 1) fuel Hc ltac:(lia)) as (q & H1 & H2 & H3 & H4). exists q. split_and!; [done|done|lia|lia].
    + exists p. split_and!; [done|done|lia|simpl; lia].
Qed.

Lemma skip_name_ok m l p fuel :
  cstr m p l → (length l < fuel)%nat → skip_name fuel m p = Some (p + Z.of_nat (length (elem_rest l).1)).
Proof.
  revert p fuel. induction l as [|c l IH]; intros p [|fuel] Hc Hf; simpl in *; try lia.
  - rewrite Hc Z.add_0_r. done.
  - destruct Hc as (E1 & Hne & Hc). rewrite E1 (proj2 (Z.eqb_neq c 0)) // andb_true_r. destruct (c =? SLASH); simpl.
    + by rewrite Z.add_0_r.
    + rewrite IH //; [|lia]. destruct (elem_rest l) as [e r]. simpl. f_equal. lia.
Qed.

Lemma cstr_lookup m p l i c : cstr m p l → l !! i = Some c → ld8 m (p + Z.of_nat i) = c ∧ c ≠ 0.
Proof.
  revert p i. induction l as [|d l IH]; intros p [|i]; simpl; [done..| |].
  - intros (E1 & E2 & _) [= <-]. by rewrite Z.add_0_r.
  - intros (_ & _ & Hc) Hi. rewrite (_ : p + Z.of_nat (S i) = p + 1 + Z.of_nat i); [|lia]. by apply IH.
Qed.

Lemma cname_take k m p e :
  (∀ i c, e !! i = Some c → (i < k)%nat → ld8 m (p + Z.of_nat i) = c ∧ c ≠ 0) →
  ((length e < k)%nat → ld8 m (p + Z.of_nat (length e)) = 0) → cname k m p = take k e.
Proof.
  revert p e. induction k as [|k IH]; intros p [|c e] Hc H0; simpl; [done..| |].
  - specialize (H0 ltac:(simpl; lia)). simpl in H0. rewrite Z.add_0_r in H0. by rewrite H0.
  - destruct (Hc 0%nat c eq_refl ltac:(lia)) as [E1 E2]. rewrite Z.add_0_r in E1. rewrite E1 (proj2 (Z.eqb_neq c 0)) //. f_equal.
    apply IH.
    + intros i d Hi Hk. rewrite (_ : p + 1 + Z.of_nat i = p + Z.of_nat (S i)); [|lia]. apply Hc; [done|lia].
    + intros Hl. rewrite (_ : p + 1 + Z.of_nat (length e) = p + Z.of_nat (length (c :: e))); [|simpl; lia]. apply H0. simpl. lia.
Qed.

(** The element copied to the name. *)
Lemma copy_elem m s name e r :
  cstr m s (e ++ r) → (length e < 200)%nat →
  let len := Z.of_nat (length e) in
  let m' := if DIRSIZ <=? len then memmove m name s DIRSIZ else st8 (memmove m name s len) (name + len) 0 in
  cname (Z.to_nat DIRSIZ) m' name = take (Z.to_nat DIRSIZ) e ∧ mem_eq_on (λ a, ¬ span name DIRSIZ a) m m'.
Proof.
  intros Hc Hl len m'. assert (∀ i c, e !! i = Some c → ld8 m (s + Z.of_nat i) = c ∧ c ≠ 0) as He.
  { intros i c Hi. apply (cstr_lookup _ _ _ _ _ Hc). by apply lookup_app_l_Some. }
  rewrite /m'. destruct (Z.leb_spec DIRSIZ len) as [Hge|Hlt].
  - split.
    + apply cname_take; [|lia]. intros i c Hi Hk. rewrite ld8_memmove; [|lia]. rewrite decide_True; [|rewrite /span; lia].
      rewrite (_ : s + (name + Z.of_nat i - name) = s + Z.of_nat i); [by apply He|lia].
    + intros a Ha. rewrite ld8_memmove; [|lia]. by rewrite decide_False.
  - split.
    + apply cname_take.
      * intros i c Hi Hk. apply lookup_lt_Some in Hi as Hlen. rewrite ld8_st8 decide_False; [|lia]. rewrite ld8_memmove; [|lia].
        rewrite decide_True; [|rewrite /span; lia]. rewrite (_ : s + (name + Z.of_nat i - name) = s + Z.of_nat i); [by apply He|lia].
      * intros _. by rewrite ld8_st8 decide_True.
    + intros a Ha. rewrite /span in Ha. rewrite ld8_st8 decide_False; [|lia]. rewrite ld8_memmove; [|lia]. rewrite decide_False; [done|].
      rewrite /span. lia.
Qed.

(** [skipelem]: the next element of the path is copied to the name, and the
    result is the rest of the path, without its leading slashes. *)
Lemma skipelem_mem_ok m p l name :
  cstr m p l → (length l < path_fuel)%nat → name + DIRSIZ ≤ p ∨ p + Z.of_nat (length l) < name →
  match drop_slashes l with
  | [] => skipelem_mem m p name = Some (None, m)
  | l1 => ∃ q m', skipelem_mem m p name = Some (Some q, m') ∧ cstr m' q (drop_slashes (elem_rest l1).2) ∧
      p ≤ q ∧ q + Z.of_nat (length (drop_slashes (elem_rest l1).2)) = p + Z.of_nat (length l) ∧
      cname (Z.to_nat DIRSIZ) m' name = take (Z.to_nat DIRSIZ) (elem_rest l1).1 ∧ mem_eq_on (λ a, ¬ span name DIRSIZ a) m m'
  end.
Proof.
  intros Hc Hl Ha. destruct (skip_slashes_ok m l p path_fuel Hc Hl) as (q & E1 & Hc1 & Hq & Hlen).
  rewrite /skipelem_mem E1. destruct (drop_slashes l) as [|c l1] eqn:El; cbn [mbind option_bind].
  { simpl in Hc1. by rewrite Hc1. }
  destruct (cstr_lookup _ _ _ 0 c Hc1 eq_refl) as [E0 Hne]. rewrite Z.add_0_r in E0. rewrite E0 (proj2 (Z.eqb_neq c 0)) //.
  set (ll := c :: l1) in *. assert (length ll ≤ length l)%nat as Hle by lia.
  rewrite (skip_name_ok m ll q path_fuel Hc1 ltac:(lia)). cbn [mbind option_bind].
  pose proof (elem_rest_app ll) as Eapp. destruct (elem_rest ll) as [e r]. cbn [fst snd] in Eapp |- *. rewrite -Eapp in Hc1, Hlen, Hle.
  rewrite length_app in Hlen, Hle.
  rewrite (_ : q + Z.of_nat (length e) - q = Z.of_nat (length e)); [|lia].
  destruct (copy_elem m q name e r Hc1 ltac:(lia)) as [Hn Hm]. cbv zeta in Hn, Hm. match type of Hn with cname _ ?x _ = _ => set (m' := x) in * end.
  assert (cstr m' (q + Z.of_nat (length e)) r) as Hc2.
  { eapply cstr_ext; [|by apply cstr_app]. intros a Ha2. apply Hm. rewrite /span. lia. }
  destruct (skip_slashes_ok m' r _ path_fuel Hc2 ltac:(lia)) as (q2 & E2 & Hc3 & Hq2 & Hlen2). rewrite E2.
  exists q2, m'. split_and!; [done|done|lia|lia|done|done].
Qed.

(** ** The tree of directories *)

(** The inodes on the disk: [F d] is inode [d], for the inodes that are
    [live]; the entries of a directory are live inodes. *)
Record tree_ok (b : superblock) (c : Z → block) (F : Z → inode) (live : Z → Prop) : Prop := {
  tr_inum : ∀ d, live d → i_inum (F d) = d;
  tr_disk : ∀ d, live d → on_disk b c (F d);
  tr_used : ∀ d, live d → i_type (F d) ≠ 0 ∧ i_nlink (F d) ≠ 0;
  tr_dir : ∀ d, live d → i_type (F d) = T_DIR → dir_ok b c (F d);
  tr_entry : ∀ d nm d', live d → i_type (F d) = T_DIR → dir_get c (F d) nm = Some d' → live d';
}.

(** From inode [d] along the elements [es]; with [parent], up to the last but
    one. *)
Fixpoint walk (c : Z → block) (F : Z → inode) (parent : bool) (d : Z) (es : list (list Z)) : option Z :=
  match es with
  | [] => if parent then None else Some d
  | e :: es' =>
      if negb (i_type (F d) =? T_DIR) then None
      else if parent && bool_decide (es' = []) then Some d
      else
        match dir_get c (F d) (take (Z.to_nat DIRSIZ) e) with
        | Some d' => walk c F parent d' es'
        | None => None
        end
  end.

(** The bytes of a file depend on the fields that are on the disk. *)
Lemma same_file_faddr c x y k : same_file x y → 0 ≤ k < MAXFILE → faddr c x k = faddr c y k.
Proof.
  intros [_ Ha] Hk. rewrite /faddr /ind_entry. rewrite (Ha NDIRECT); [|lia]. destruct (Z.ltb_spec k NDIRECT); [|done]. apply Ha. lia.
Qed.

Lemma same_file_byte c x y i : same_file x y → 0 ≤ i < MAXFILE * BSIZE → fbyte c x i = fbyte c y i.
Proof. intros Hs Hi. rewrite /fbyte (same_file_faddr c x y) //. dlia. Qed.

Lemma same_file_dir b c x y : same_file x y → i_dev x = ROOTDEV → dir_ok b c y → dir_ok b c x.
Proof.
  intros Hs Hd [[[W1 W2 W3 W4] Hsz Hden] Hty Hmod]. pose proof Hs as [Ef Ha]. injection Ef as E1 E2 E3 E4 E5.
  split; [split; [split| |]| |].
  - done.
  - rewrite (Ha NDIRECT) //.
  - intros k Hk. rewrite (same_file_faddr c x y) // (Ha NDIRECT) //. by apply W3.
  - intros k k' Hk Hk'. rewrite !(same_file_faddr c x y) //. by apply W4.
  - by rewrite E5.
  - intros j Hj Hlt. rewrite E5 in Hlt. rewrite (same_file_faddr c x y) //; [by apply Hden|lia].
  - by rewrite E1.
  - by rewrite E5.
Qed.

Lemma same_file_get b c x y nm : same_file x y → dir_ok b c y → dir_get c x nm = dir_get c y nm.
Proof.
  intros Hs [Hf _ Hmod]. pose proof (fo_size _ _ _ Hf) as Hsz. pose proof Hs as [Ef _]. injection Ef as _ _ _ _ E5.
  assert (dir_len x = dir_len y) as El by (by rewrite /dir_len E5).
  assert (∀ i, 0 ≤ i < Z.of_nat (dir_len y) → de_inum c x i = de_inum c y i ∧ de_name c x i = de_name c y i) as He.
  { intros i Hi. rewrite /dir_len in Hi. split.
    - rewrite /de_inum !(same_file_byte c x y) //; dlia.
    - apply fname_ext. intros q Hq. apply same_file_byte; [done|dlia]. }
  apply (dir_get_ext c x c y nm El He).
Qed.

(** ** References on the way *)

Definition plus1 (ip : Z) (R : Z → Z) (j : Z) : Z := R j + if decide (j = ip) then 1 else 0.

(** Two entries of the table are free. *)
Definition two_free (R : Z → Z) : Prop := ∃ a b, a ≠ b ∧ 0 ≤ a < NINODE ∧ 0 ≤ b < NINODE ∧ R a = 0 ∧ R b = 0.

Lemma two_free_other R ip : two_free R → ∃ j, 0 ≤ j < NINODE ∧ plus1 ip R j = 0.
Proof.
  intros (a & b & Hab & Ha & Hb & Ra & Rb). rewrite /plus1. destruct (decide (a = ip)) as [->|].
  - exists b. rewrite decide_False //. lia.
  - exists a. rewrite decide_False //. lia.
Qed.

Section table.
Context (pid : Z) (b : superblock) (c : Z → block) (F : Z → inode) (live : Z → Prop) (Htree : tree_ok b c F live).

(** The inode table: the reference counts are [R], the entry [L] is locked
    and no other is, and the entries in use agree with the disk. *)
Record table (R : Z → Z) (L : option Z) (I : Z → inode) : Prop := {
  tb_pos : ∀ j, 0 ≤ R j;
  tb_ref : ∀ j, i_ref (I j) = R j;
  tb_free : ∀ j, L ≠ Some j → locked (i_lock (I j)) = false;
  tb_lock : ∀ j, L = Some j → i_lock (I j) = mk_sleeplock true pid;
  tb_dev : ∀ j, 0 < R j → i_dev (I j) = ROOTDEV ∧ live (i_inum (I j));
  tb_file : ∀ j, 0 < R j → i_valid (I j) = true → same_file (I j) (F (i_inum (I j)));
}.

Lemma table_ext R R' L I : (∀ j, R j = R' j) → table R L I → table R' L I.
Proof. intros HR [T1 T2 T3 T4 T5 T6]. split; intros j; rewrite -?HR; eauto. Qed.

(** An entry is replaced. *)
Lemma table_upd R L I R' L' ip z I' :
  table R L I → upd_at I ip z I' → (∀ j, j ≠ ip → R' j = R j) → (∀ j, j ≠ ip → L' = Some j ↔ L = Some j) →
  0 ≤ R' ip → i_ref z = R' ip → (L' ≠ Some ip → locked (i_lock z) = false) → (L' = Some ip → i_lock z = mk_sleeplock true pid) →
  (0 < R' ip → i_dev z = ROOTDEV ∧ live (i_inum z) ∧ (i_valid z = true → same_file z (F (i_inum z)))) → table R' L' I'.
Proof.
  intros [T1 T2 T3 T4 T5 T6] [E1 E2] HR HL Hp Hr Hf Hl Hd.
  split; intros j; (destruct (decide (j = ip)) as [->|Hj]; [rewrite ?E1 //|rewrite ?E2 ?HR //; try rewrite HL; auto]).
  - intros H. by destruct (Hd H) as (? & ? & _).
  - intros H. by destruct (Hd H) as (_ & _ & ?).
Qed.

Lemma table_iget R L I inum ip I' :
  table R L I → live inum → igot I ROOTDEV inum ip I' →
  table (plus1 ip R) L I' ∧ i_inum (I' ip) = inum ∧ ∀ j, 0 < R j → I' j = with_iref (plus1 ip R j) (I j).
Proof.
  intros HT Hlive [_ Hg]. pose proof HT as [T1 T2 T3 T4 T5 T6]. pose proof (T1 ip) as Hp.
  assert (plus1 ip R ip = R ip + 1) as Ep by (by rewrite /plus1 decide_True).
  assert (∀ j, j ≠ ip → plus1 ip R j = R j) as Eo by (intros j Hj; rewrite /plus1 decide_False //; lia).
  destruct Hg as [[Hc Hu]|(H0 & _ & Hu)]; pose proof Hu as [E1 E2].
  - rewrite /icached in Hc. assert (0 < R ip ∧ i_dev (I ip) = ROOTDEV ∧ i_inum (I ip) = inum) as (Hr & Hd & Hi) by (rewrite -T2; lia).
    split_and!.
    + eapply table_upd; [exact HT|exact Hu|done|done|lia|by rewrite Ep /= T2|apply T3|apply T4|]. intros _. simpl. rewrite Hi.
      split_and!; [done|done|]. intros Hv. rewrite -Hi. by destruct (T6 ip Hr Hv).
    + by rewrite E1.
    + intros j Hj. destruct (decide (j = ip)) as [->|Hne]; [by rewrite E1 Ep T2|]. rewrite E2 // Eo // -T2. by destruct (I j).
  - rewrite T2 in H0. split_and!.
    + eapply table_upd; [exact HT|exact Hu|done|done|lia|rewrite Ep /=; lia|apply T3|apply T4|]. intros _. by rewrite /ifresh /=.
    + by rewrite E1.
    + intros j Hj. destruct (decide (j = ip)) as [->|Hne]; [lia|]. rewrite E2 // Eo // -T2. by destruct (I j).
Qed.
End table.

Section names.
Context {KI : KernelImage} {KS : KernelSyms}.
Context (K : kern) (E : fsst) (cur : Z) (Hcur : k_cur K = Some cur) (HI : ITABLE ∉ fheld E).
Context (c : Z → block) (W : list Z) (Hb : budget E W 0).
Context (F : Z → inode) (live : Z → Prop) (Htree : tree_ok (sb E) c F live).
Local Abbreviation table := (table (fpid E) F live).
Local Abbreviation txn := (txn E c W ∅).
Local Abbreviation kt := (kt K E c W ∅).

Lemma wp_walk_lock R I s ip (Q : unit → fsst → Prop) :
  txn I s → table R None I → 0 < R ip →
  (∀ I' s', table R (Some ip) I' → i_inum (I' ip) = i_inum (I ip) → i_valid (I' ip) = true → txn I' s' → Q tt s') →
  wp (ilock ip) Q s.
Proof.
  intros Hk HT Hr HQ. destruct (tb_dev _ _ _ _ _ _ HT ip Hr) as [Hd Hl]. set (d := i_inum (I ip)) in *.
  pose proof (tr_inum _ _ _ _ Htree d Hl) as Ei. destruct (tr_used _ _ _ _ Htree d Hl) as [Hty _].
  eapply (wp_ilock E c W I _ ip (F d)); [exact Hk|done|done|by rewrite Ei|by apply (tr_disk _ _ _ _ Htree)| | | |done|].
  - by apply (tb_file _ _ _ _ _ _ HT).
  - by rewrite (tb_ref _ _ _ _ _ _ HT).
  - by apply (tb_free _ _ _ _ _ _ HT).
  - intros z I' s' Hu Hv Hlk Hz Hs Ht'. injection Hz as Z1 Z2 Z3.
    rewrite Ei in Z2. destruct Hu as [E1 E2]. eapply (HQ I'); [|by rewrite E1|by rewrite E1|exact Ht'].
    eapply (table_upd _ _ _ R None I R (Some ip) ip z); [exact HT|by split|done|naive_solver|apply (tb_pos _ _ _ _ _ _ HT)| |done|done|].
    + by rewrite Z3 (tb_ref _ _ _ _ _ _ HT).
    + intros _. by rewrite Z2.
Qed.

(** [iput] of an entry that is not locked. *)
Lemma wp_walk_put R I s ip (Q : unit → fsst → Prop) :
  txn I s → table (plus1 ip R) None I → 0 ≤ R ip →
  (∀ I' s', table R None I' → (∀ j, i_inum (I' j) = i_inum (I j)) → txn I' s' → Q tt s') → wp (iput ip) Q s.
Proof.
  intros Hk HT Hr HQ. assert (plus1 ip R ip = R ip + 1) as Ep by (by rewrite /plus1 decide_True).
  assert (0 < plus1 ip R ip) as Hpos by lia. destruct (tb_dev _ _ _ _ _ _ HT ip Hpos) as [Hd Hl].
  eapply (wp_iput E HI); [exact Hk| |].
  - destruct (i_valid (I ip)) eqn:Hv; [|by rewrite andb_false_r]. pose proof (tb_file _ _ _ _ _ _ HT ip Hpos Hv) as [Ef _].
    injection Ef as _ _ _ E4 _. destruct (tr_used _ _ _ _ Htree _ Hl) as [_ Hn]. rewrite E4 (proj2 (Z.eqb_neq _ _) Hn). apply andb_false_r.
  - intros s' Ht'. eapply HQ; [| |exact Ht'].
    + eapply table_upd; [exact HT|apply upd_at_insert| |done|done| |apply (tb_free _ _ _ _ _ _ HT)|done|].
      * intros j Hj. rewrite /plus1 decide_False //. lia.
      * rewrite /= (tb_ref _ _ _ _ _ _ HT) Ep. lia.
      * intros _. split_and!; [done|done|]. intros Hv. by destruct (tb_file _ _ _ _ _ _ HT ip Hpos Hv).
    + intros j. destruct (decide (j = ip)) as [->|Hj]; [by rewrite fn_lookup_insert|by rewrite fn_lookup_insert_ne].
Qed.

Lemma wp_walk_unlock R I s ip (Q : unit → fsst → Prop) :
  txn I s → table R (Some ip) I → 0 < R ip →
  (∀ I' s', table R None I' → (∀ j, i_inum (I' j) = i_inum (I j)) → txn I' s' → Q tt s') → wp (iunlock ip) Q s.
Proof.
  intros Hk HT Hr HQ. destruct (tb_dev _ _ _ _ _ _ HT ip Hr) as [Hd Hl].
  eapply (txn_unlock_inode E); [exact Hk|by apply (tb_lock _ _ _ _ _ _ HT)|by rewrite (tb_ref _ _ _ _ _ _ HT)|].
  intros s' Ht'. eapply HQ; [| |exact Ht'].
  - eapply table_upd; [exact HT|apply upd_at_insert|done|naive_solver|lia|by rewrite /= (tb_ref _ _ _ _ _ _ HT)|done|done|].
    intros _. split_and!; [done|done|]. intros Hv. by destruct (tb_file _ _ _ _ _ _ HT ip Hr Hv).
  - intros j. destruct (decide (j = ip)) as [->|Hj]; [by rewrite fn_lookup_insert|by rewrite fn_lookup_insert_ne].
Qed.

Lemma wp_walk_unlockput R I s ip (Q : unit → fsst → Prop) :
  txn I s → table (plus1 ip R) (Some ip) I → 0 ≤ R ip →
  (∀ I' s', table R None I' → (∀ j, i_inum (I' j) = i_inum (I j)) → txn I' s' → Q tt s') → wp (iunlockput ip) Q s.
Proof.
  intros Hk HT Hr HQ. rewrite /iunlockput. apply wp_bind. eapply wp_walk_unlock; [exact Hk|exact HT|rewrite /plus1 decide_True //; lia|].
  intros I1 s1 HT1 Hi1 Hk1. eapply wp_walk_put; [exact Hk1|exact HT1|done|]. intros I2 s2 HT2 Hi2 Hk2.
  eapply HQ; [exact HT2| |exact Hk2]. intros j. by rewrite Hi2 Hi1.
Qed.

Lemma wp_walk_lookup R I m k ip name nm d (Q : option (Z * Z) → kern → Prop) :
  kt I m k → table R (Some ip) I → 0 < R ip → i_inum (I ip) = d → i_valid (I ip) = true → i_type (F d) = T_DIR →
  name_at K cur m name nm → (∃ j, 0 ≤ j < NINODE ∧ R j = 0) →
  (∀ r m' I' k', only (de_addr K cur) SIZEOF_DIRENT m m' → kt I' m' k' →
     match dir_get c (F d) nm with
     | Some d' => ∃ next off, r = Some (next, off) ∧ table (plus1 next R) (Some ip) I' ∧ i_inum (I' next) = d' ∧ live d'
     | None => r = None ∧ table R (Some ip) I'
     end → Q r k') →
  wp (dirlookup ip name) Q k.
Proof.
  intros Hk HT Hr Hi Hv Hty Hn (j & Hj & Hj0) HQ. destruct (tb_dev _ _ _ _ _ _ HT ip Hr) as [Hd Hl]. rewrite Hi in Hl.
  pose proof (tb_file _ _ _ _ _ _ HT ip Hr Hv) as Hs. rewrite Hi in Hs. pose proof (tr_dir _ _ _ _ Htree d Hl Hty) as Hok.
  eapply (wp_dirlookup_iget K E cur Hcur); [exact Hk|by eapply same_file_dir|done|exact Hn|]. intros m' k' Hk' Ho.
  pose proof (same_file_get _ c (I ip) (F d) nm Hs Hok) as Eg. rewrite {1}/dir_get in Eg.
  destruct (dir_find c (I ip) nm) as [i|]; simpl in Eg; rewrite -Eg in HQ; [|by eapply HQ].
  pose proof (tr_entry _ _ _ _ Htree d nm _ Hl Hty (eq_sym Eg)) as Hlive. eapply kt_in_fs; [exact Hk'|].
  eapply wp_iget; [done|apply Hk'|exists j; split; [done|by rewrite (tb_ref _ _ _ _ _ _ HT)]|]. intros next I' s' Hg Ht'.
  eexists _, _, _, _. split; [exact Ht'|]. intros k2 Hk2. destruct (table_iget _ _ _ _ _ _ _ _ _ HT Hlive Hg) as (HT' & Ei & _).
  eapply HQ; [exact Ho|exact Hk2|]. by exists next, (SIZEOF_DIRENT * i).
Qed.

(** ** The walk *)

Context (name : Z) (Hnb : ∀ a, span name DIRSIZ a → ¬ in_bufs a).
Context (Hdb : ∀ a, span (de_addr K cur) SIZEOF_DIRENT a → ¬ in_bufs a).
Context (Hnd : name + DIRSIZ ≤ de_addr K cur ∨ de_addr K cur + SIZEOF_DIRENT ≤ name).

(** Memory but for the buffers, the name and the directory entry. *)
Definition elsewhere (a : Z) : Prop := ¬ in_bufs a ∧ ¬ span name DIRSIZ a ∧ ¬ span (de_addr K cur) SIZEOF_DIRENT a.

(** The rest of the path is [l]. *)
Record path_at (m : gmap Z Z) (path : Z) (l : list Z) : Prop := {
  pa_str : cstr m path l;
  pa_len : (length l < path_fuel)%nat;
  pa_else : ∀ a, span path (Z.of_nat (length l) + 1) a → elsewhere a;
}.

Lemma path_at_frame m m' path l : mem_eq_on elsewhere m m' → path_at m path l → path_at m' path l.
Proof.
  intros Hm [P1 P2 P3]. split; [|done..]. eapply cstr_ext; [|exact P1]. intros a Ha. apply Hm, P3. rewrite /span. lia.
Qed.

(** What [namex] returns for the walk from [d] along [es]. *)
Definition walked (parent : bool) (R0 : Z → Z) (d : Z) (es : list (list Z)) (r : option Z) (I : Z → inode) (m : gmap Z Z) : Prop :=
  match walk c F parent d es with
  | Some d' => ∃ ip, r = Some ip ∧ table (plus1 ip R0) None I ∧ i_inum (I ip) = d' ∧
      (parent = true → ∃ e, last es = Some e ∧ cname (Z.to_nat DIRSIZ) m name = take (Z.to_nat DIRSIZ) e)
  | None => r = None ∧ table R0 None I
  end.

(** [skipelem] on a path. *)
Lemma wp_skipelem I m k path l (Q : option Z → kern → Prop) :
  kt I m k → path_at m path l →
  match path_elems l with
  | [] => ∀ k', kt I m k' → Q None k'
  | e :: es => ∀ q m' k' l', kt I m' k' → path_elems l' = es → path_at m' q l' → (ld8 m' q = 0 ↔ es = []) →
      cname (Z.to_nat DIRSIZ) m' name = take (Z.to_nat DIRSIZ) e → mem_eq_on elsewhere m m' → Q (Some q) k'
  end → wp (skipelem path name) Q k.
Proof.
  intros Hk [P1 P2 P3] HQ. rewrite /skipelem. apply wp_bind. apply (kt_get_mem K E c W ∅ I m k id); [exact Hk|]. intros k1 Hk1. rewrite /id.
  assert (name + DIRSIZ ≤ path ∨ path + Z.of_nat (length l) < name) as Hap.
  { destruct (decide (name + DIRSIZ ≤ path)); [by left|]. destruct (decide (path + Z.of_nat (length l) < name)); [by right|]. exfalso.
    destruct (P3 (Z.max path name)) as (_ & H & _); [rewrite /span; lia|]. apply H. rewrite /span. lia. }
  pose proof (skipelem_mem_ok m path l name P1 P2 Hap) as Hsk. rewrite path_elems_step in HQ.
  destruct (drop_slashes l) as [|ch l1].
  - rewrite Hsk. apply wp_bind. apply (kt_in_mem K E c W ∅ I m k1 (λ _, m)); [exact Hk1|]. intros k2 Hk2. by apply wp_ret, HQ.
  - destruct Hsk as (q & m' & Es & Hc & Hq & Hlen & Hn & Hm). rewrite Es. apply wp_bind.
    apply (kt_in_mem K E c W ∅ I m k1 (λ _, m')); [exact Hk1|]. intros k2 Hk2. apply wp_ret.
    eapply (HQ q m' k2 (drop_slashes (elem_rest (ch :: l1)).2)); [exact Hk2|done|split; [exact Hc|lia|]| |exact Hn|].
    + intros a Ha. apply P3. rewrite /span in Ha |- *. lia.
    + rewrite path_elems_nil. revert Hc. destruct (drop_slashes _) as [|c1 l2]; simpl; [done|]. intros (-> & Hne & _). done.
    + eapply mem_eq_on_weaken; [exact Hm|]. intros a (_ & Ha & _). exact Ha.
Qed.

(** One element: [rest] goes on from the inode of the element. *)
Lemma wp_namex_elem parent R0 e es I m k ip q (rest : Z → M kern (option Z)) (Q : option Z → kern → Prop) :
  kt I m k → table (plus1 ip R0) None I → (∀ j, 0 ≤ R0 j) →
  two_free R0 →
  (ld8 m q = 0 ↔ es = []) → cname (Z.to_nat DIRSIZ) m name = take (Z.to_nat DIRSIZ) e →
  (∀ r I' m' k', walked parent R0 (i_inum (I ip)) (e :: es) r I' m' → mem_eq_on elsewhere m m' → kt I' m' k' → Q r k') →
  (∀ next I' m' k', walk c F parent (i_inum (I ip)) (e :: es) = walk c F parent (i_inum (I' next)) es → es ≠ [] ∨ parent = false →
     table (plus1 next R0) None I' → mem_eq_on elsewhere m m' → kt I' m' k' → wp (rest next) Q k') →
  wp (in_fs (ilock ip);;
      x ← in_fs (inode_at ip);
      if negb (i_type x =? T_DIR) then
        in_fs (iunlockput ip);;
        mret None
      else
        c ← in_mem (load8 q);
        if parent && (c =? 0) then
          in_fs (iunlock ip);;
          mret (Some ip)
        else
          next ← dirlookup ip name;
          match next with
          | None =>
              in_fs (iunlockput ip);;
              mret None
          | Some (next, _) =>
              in_fs (iunlockput ip);;
              rest next
          end) Q k.
Proof.
  intros Hk HT HR Hroom Hend Hn HQ Hrest. set (d := i_inum (I ip)) in *.
  assert (0 < plus1 ip R0 ip) as Hpos by (specialize (HR ip); rewrite /plus1 decide_True //; lia).
  apply wp_bind. eapply kt_in_fs; [exact Hk|]. eapply wp_walk_lock; [apply Hk|exact HT|done|]. intros I2 s2 HT2 Hi2 Hv2 Ht2.
  eexists _, _, _, _. split; [exact Ht2|]. intros k2 Hk2. fold d in Hi2.
  pose proof (tb_file _ _ _ _ _ _ HT2 ip Hpos Hv2) as [Ef _]. rewrite Hi2 in Ef. injection Ef as Ety _ _ _ _.
  apply wp_bind. eapply kt_inode; [exact Hk2|]. intros k3 Hk3. rewrite Ety. rewrite /walked /= in HQ. simpl walk in Hrest.
  destruct (Z.eqb_spec (i_type (F d)) T_DIR) as [Hty|Hty]; simpl negb in *; cbv iota in *; last first.
  { apply wp_bind. eapply kt_in_fs; [exact Hk3|]. eapply wp_walk_unlockput; [apply Hk3|exact HT2|apply HR|]. intros I4 s4 HT4 _ Ht4.
    eexists _, _, _, _. split; [exact Ht4|]. intros k4 Hk4. apply wp_ret. by eapply HQ; [|done|exact Hk4]. }
  apply wp_bind. eapply (kt_get_mem K E c W ∅ I2 m k3 (λ m, ld8 m q)); [exact Hk3|]. intros k4 Hk4.
  assert ((ld8 m q =? 0) = bool_decide (es = [])) as ->.
  { destruct (Z.eqb_spec (ld8 m q) 0) as [H|H]; symmetry; [apply bool_decide_eq_true_2, Hend, H|].
    apply bool_decide_eq_false_2. intros He. by apply H, Hend. }
  destruct (parent && bool_decide (es = [])) eqn:Elast.
  { apply wp_bind. eapply kt_in_fs; [exact Hk4|]. eapply wp_walk_unlock; [apply Hk4|exact HT2|done|]. intros I5 s5 HT5 Hi5 Ht5.
    eexists _, _, _, _. split; [exact Ht5|]. intros k5 Hk5. apply wp_ret. eapply HQ; [|done|exact Hk5].
    exists ip. split_and!; [done|exact HT5|by rewrite Hi5|]. intros _. exists e.
    apply andb_true_iff in Elast as [_ ->%bool_decide_eq_true_1]. done. }
  apply wp_bind.
  eapply (wp_walk_lookup (plus1 ip R0) I2 m k4 ip name (take (Z.to_nat DIRSIZ) e) d); [exact Hk4|exact HT2|done|done|done|done|by split| |].
  { by apply two_free_other. }
  intros r m5 I5 k5 Ho5 Hk5 Hres.
  assert (mem_eq_on elsewhere m m5) as Hm5.
  { eapply mem_eq_on_weaken; [exact Ho5|]. intros a (? & ? & ?). done. }
  destruct (dir_get c (F d) (take (Z.to_nat DIRSIZ) e)) as [d'|].
  - destruct Hres as (next & off & -> & HT5 & Hi5 & Hlive). apply wp_bind. eapply kt_in_fs; [exact Hk5|].
    eapply (wp_walk_unlockput (plus1 next R0)); [apply Hk5| | |].
    { eapply table_ext; [|exact HT5]. intros j. rewrite /plus1. lia. }
    { specialize (HR ip). rewrite /plus1. case_decide; lia. }
    intros I6 s6 HT6 Hi6 Ht6. eexists _, _, _, _. split; [exact Ht6|]. intros k6 Hk6.
    eapply (Hrest next I6 m5); [by rewrite Hi6 Hi5| |exact HT6|done|exact Hk6].
    destruct parent; [left|by right]. by apply bool_decide_eq_false_1 in Elast.
  - destruct Hres as [-> HT5]. apply wp_bind. eapply kt_in_fs; [exact Hk5|]. eapply wp_walk_unlockput; [apply Hk5|exact HT5|apply HR|].
    intros I6 s6 HT6 _ Ht6. eexists _, _, _, _. split; [exact Ht6|]. intros k6 Hk6. apply wp_ret. by eapply HQ.
Qed.

Lemma wp_namex_loop parent R0 : ∀ es l fuel I m k ip path (Q : option Z → kern → Prop),
  path_elems l = es → (length es < fuel)%nat → kt I m k → table (plus1 ip R0) None I → (∀ j, 0 ≤ R0 j) →
  two_free R0 → path_at m path l →
  (∀ r I' m' k', walked parent R0 (i_inum (I ip)) es r I' m' → mem_eq_on elsewhere m m' → kt I' m' k' → Q r k') →
  wp (namex_loop fuel ip path parent name) Q k.
Proof.
  induction es as [|e es IH]; intros l [|fuel] I m k ip path Q El Hf Hk HT HR Hroom Hp HQ; simpl in Hf; try lia;
    cbn [namex_loop]; apply wp_bind; (eapply wp_skipelem; [exact Hk|exact Hp|]); rewrite El.
  - intros k1 Hk1. rewrite /walked /= in HQ. destruct parent.
    + apply wp_bind. eapply kt_in_fs; [exact Hk1|]. eapply wp_walk_put; [apply Hk1|exact HT|apply HR|]. intros I2 s2 HT2 _ Ht2.
      eexists _, _, _, _. split; [exact Ht2|]. intros k2 Hk2. apply wp_ret. by eapply HQ.
    + apply wp_ret. eapply HQ; [|done|exact Hk1]. by exists ip.
  - intros q m1 k1 l' Hk1 El' Hp1 Hend Hn1 Hm1.
    eapply (wp_namex_elem parent R0 e es I m1 k1 ip q (λ next, namex_loop fuel next q parent name)); [exact Hk1|exact HT|done|done|done|done| |].
    + intros r I' m' k' Hw Hm' Hk'. eapply HQ; [exact Hw|by etrans|exact Hk'].
    + intros next I' m' k' Ew Hor HT' Hm' Hk'. eapply (IH l'); [done|lia|exact Hk'|exact HT'|done|done|by eapply path_at_frame|].
      intros r I2 m2 k2 Hw2 Hm2 Hk2. eapply HQ; [|by etrans; [|etrans]|exact Hk2].
      revert Hw2. rewrite /walked Ew. destruct (walk c F parent (i_inum (I' next)) es); [|done].
      intros (ip2 & ? & ? & ? & He). exists ip2. split_and!; [done..|]. intros Hpar. destruct (He Hpar) as (e2 & Hl & Hc). exists e2.
      split; [|done]. destruct es; [done|exact Hl].
Qed.

(** Where the walk of a path starts: at the root or at the current
    directory. *)
Definition starts_at (l : list Z) (I : Z → inode) (d : Z) : Prop :=
  if bool_decide (head l = Some SLASH) then d = ROOTINO ∧ live d
  else ∃ cwd, p_cwd (k_procs K cur) = Some cwd ∧ 0 < i_ref (I cwd) ∧ i_inum (I cwd) = d.

Lemma split_path_length l acc : (length (split_path l acc) ≤ length l + Nat.min 1 (length acc))%nat.
Proof.
  revert acc. induction l as [|ch l IH]; intros acc; simpl; [destruct acc; simpl; lia|].
  case_match; [destruct acc; simpl; specialize (IH []); simpl in IH; lia|]. specialize (IH (acc ++ [ch])). lia.
Qed.

(** C4: [namex] resolves paths.  With the tree of directories on the disk,
    the inode table in agreement with it and two of its entries free, [namex]
    returns an entry of the table for the inode that the elements of the path
    lead to from the root or the current directory, or with [parent] for the
    one before the last element, which is then in [name]; the entry has one
    more reference, and every other entry has as many as before.  When an
    element is missing or an inode on the way is not a directory, the result
    is null and all the references that were taken are given back.  No inode is
    left locked, nothing is written to the disk, and no other memory changes. *)
Theorem namex_spec parent path l d I m k :
  kt I m k → table (λ j, i_ref (I j)) None I → two_free (λ j, i_ref (I j)) → path_at m path l → starts_at l I d →
  wp (namex path parent name) (λ r k', ∃ I' m',
    walked parent (λ j, i_ref (I j)) d (path_elems l) r I' m' ∧ mem_eq_on elsewhere m m' ∧ kt I' m' k') k.
Proof.
  intros Hk HT Hfree Hp Hst. set (R0 := λ j, i_ref (I j)) in *. pose proof (tb_pos _ _ _ _ _ _ HT) as HR.
  rewrite /namex. apply wp_bind. eapply (kt_get_mem K E c W ∅ I m k (λ m, ld8 m path)); [exact Hk|]. intros k1 Hk1.
  assert ((ld8 m path =? SLASH) = bool_decide (head l = Some SLASH)) as ->.
  { pose proof (pa_str _ _ _ Hp) as Hs. destruct l as [|ch l]; simpl in Hs |- *; [by rewrite Hs|]. destruct Hs as (-> & _ & _).
    destruct (Z.eqb_spec ch SLASH) as [->|Hne]; [done|]. symmetry. apply bool_decide_eq_false_2. congruence. }
  assert (∀ ip I2 k2, kt I2 m k2 → table (plus1 ip R0) None I2 → i_inum (I2 ip) = d →
    wp (namex_loop path_fuel ip path parent name) (λ r k', ∃ I' m',
      walked parent R0 d (path_elems l) r I' m' ∧ mem_eq_on elsewhere m m' ∧ kt I' m' k') k2) as Hloop.
  { intros ip I2 k2 Hk2 HT2 Hi2. eapply wp_namex_loop; [done| |exact Hk2|exact HT2|done|done|done|].
    - pose proof (split_path_length l []) as H. pose proof (pa_len _ _ _ Hp). simpl in H. rewrite /path_elems. lia.
    - rewrite Hi2. intros r I' m' k' Hw Hm Hk'. by exists I', m'. }
  apply wp_bind. rewrite /starts_at in Hst. destruct (bool_decide _).
  - destruct Hst as [-> Hlive]. eapply kt_in_fs; [exact Hk1|]. destruct Hfree as (a & b & _ & Ha & _ & Ra & _).
    eapply wp_iget; [done|apply Hk1|by exists a|]. intros ip I2 s2 Hg Ht2. eexists _, _, _, _. split; [exact Ht2|]. intros k2 Hk2.
    destruct (table_iget _ _ _ _ _ _ _ _ _ HT Hlive Hg) as (HT2 & Hi2 & _). by eapply Hloop.
  - destruct Hst as (cwd & Ec & Hr & Hi). apply wp_bind. rewrite /myproc. apply wp_bind, wp_gets.
    rewrite (kt_cur K E cur Hcur _ _ _ _ _ _ Hk1). apply wp_ret, wp_bind, wp_gets.
    rewrite (_ : k_procs k1 = k_procs K); [|by rewrite (kt_eq _ _ _ _ _ _ _ _ Hk1)]. rewrite Ec.
    eapply kt_in_fs; [exact Hk1|]. eapply wp_idup; [done|apply Hk1|]. intros s2 Ht2. eexists _, _, _, _. split; [exact Ht2|]. intros k2 Hk2.
    eapply Hloop; [exact Hk2| |by rewrite fn_lookup_insert].
    eapply table_upd; [exact HT|apply upd_at_insert| |done| | |apply (tb_free _ _ _ _ _ _ HT)|done|].
    + intros j Hj. rewrite /plus1 decide_False //. lia.
    + rewrite /plus1 decide_True // /R0. lia.
    + by rewrite /plus1 decide_True.
    + intros _. destruct (tb_dev _ _ _ _ _ _ HT cwd Hr) as [Hd Hl]. split_and!; [done|done|]. intros Hv.
      by destruct (tb_file _ _ _ _ _ _ HT cwd Hr Hv).
Qed.
End names.
