(* ===== verification/FileCrash.v ===== *)
(** * Writes to a file are atomic

    A write between [begin_op] and [end_op], from the quiet file system to the
    quiet file system: [write_atomic] puts together the buffer cache, the log,
    the allocation of blocks, the inode and the contents of the file, and says
    what the file is after the write, and after a crash at any disk write of
    it followed by a boot. *)

From stdpp Require Import functions list.
From S2P Require Import Prelude Mem Cstring Riscv Spinlock Kalloc Vm Uvm Cow Sleeplock Bio Bcache Log LogCrash Txn Fs Balloc Bmap Idisk Virtio State Sched Dir Fileio.

Local Open Scope Z_scope.

(** The file on the disk: its inode is [y] and its bytes are [f]. *)
Definition file_is (b : superblock) (c : Z → block) (y : inode) (f : Z → Z) : Prop :=
  on_disk b c y ∧ ∀ i, 0 ≤ i < MAXFILE * BSIZE → fbyte c y i = f i.

(** The file system between transactions, with a file at inode [ip] of the
    table that can be written. *)
Record writable_fs (s : fsst) (ip : Z) : Prop := {
  wf_quiet : quiet s;
  wf_geom : geometry (sb s) (lg s);
  wf_area : (lstart (sb_log (sb s)), lsize (sb_log (sb s))) = (lstart (lg s), lsize (lg s));
  wf_meta : meta_used (sb s) (contents (disk s));
  wf_file : file_ok (sb s) (contents (disk s)) (inodes s ip);
  wf_ready : inode_ready (sb s) (inodes s ip);
  wf_disk : on_disk (sb s) (contents (disk s)) (inodes s ip);
}.

(** ** Only the blocks outside the log matter *)

Section outside_log.
Context (b : superblock) (l : log) (c c' : Z → block).
Context (Hg : geometry b l) (Hc : ∀ x, ¬ in_log l x → c' x = c x).
Let E := set_sb b (set_lg l (fs_boot ∅)).

Lemma outside n : sb_inodestart b ≤ n → c' n = c n.
Proof. intros Hn. apply Hc. destruct Hg as [? ? ? ?]. rewrite /in_log. lia. Qed.

Lemma outside_used n : 0 ≤ n < sb_size b → used b c' n = used b c n.
Proof.
  intros Hn. pose proof (geometry_pos E Hg) as Hgp. pose proof (BBLOCK_bitmap E Hg n Hn) as Hb.
  rewrite /in_bitmap in Hb. simpl in Hb, Hgp. rewrite /used outside //. lia.
Qed.

Lemma outside_meta : meta_used b c → meta_used b c'.
Proof. intros Hm n Hn. pose proof (gm_data _ _ Hg). rewrite outside_used; [|lia]. by apply Hm. Qed.

Section inode.
Context (y : inode) (Hw : inode_wf b c y).

Lemma outside_block n : block_of c y n → c' n = c n ∧ used b c' n = true.
Proof.
  pose proof (geometry_pos E Hg) as Hgp. simpl in Hgp. intros Hn. assert (is_data b c n) as [Hr Hu].
  { destruct Hn as [Hn [->|(k & Hk & <-)]]; [by apply Hw|by apply (iw_data _ _ _ Hw)]. }
  split; [apply outside; lia|]. rewrite outside_used //. lia.
Qed.

Lemma outside_byte i : 0 ≤ i < MAXFILE * BSIZE → fbyte c' y i = fbyte c y i.
Proof. apply agree_byte. intros n Hn. by apply outside_block. Qed.

Lemma outside_file : file_ok b c y → file_ok b c' y.
Proof.
  intros [_ Hs Hd]. split; [|done|].
  - eapply agree_wf; [exact Hw|intros n Hn; by apply outside_block..].
  - intros j Hj Hlt. rewrite (agree_faddr c c'); [by apply Hd|]. intros n Hn. by apply outside_block.
Qed.

Lemma outside_disk : 0 ≤ i_inum y < sb_ninodes b → on_disk b c y → on_disk b c' y.
Proof.
  intros Hi. rewrite /on_disk outside //. destruct (IBLOCK_eq E Hg _ Hi) as [_ Hib]. rewrite /in_iblocks in Hib. simpl in Hib. lia.
Qed.

Lemma outside_file_is f : 0 ≤ i_inum y < sb_ninodes b → file_is b c y f → file_is b c' y f.
Proof. intros Hi [Hd Hf]. split; [by apply outside_disk|]. intros i Hir. rewrite outside_byte //. by apply Hf. Qed.
End inode.
End outside_log.

Section atomic.
Context {KI : KernelImage} {KS : KernelSyms}.

Definition write_txn (ip : Z) (user_src : bool) (src off n : Z) : M kern Z :=
  in_fs begin_op;;
  r ← writei ip user_src src off n;
  in_fs end_op;;
  mret r.

Context (K : kern) (cur : Z) (Hcur : k_cur K = Some cur).

(** The file system as the running process sees it. *)
Definition fs0 : fsst := set_fpid (cur_pid K) (k_fs K).

Lemma wp_open (Q : unit → kern → Prop) :
  quiet fs0 →
  (∀ k, kt K (opened fs0) (contents (disk fs0)) [] ∅ (inodes fs0) (mem (k_mem K)) k → Q tt k) →
  wp (in_fs begin_op) Q K.
Proof.
  clear cur Hcur. intros Hq HQ. apply wp_zoom, wp_begin_op; [exact Hq|]. intros Ht. apply HQ. split; [exact Ht|].
  destruct K as [km]. simpl. by destruct km.
Qed.

Lemma wp_close c W I m k (Q : unit → kern → Prop) :
  quiet fs0 → kt K (opened fs0) c W ∅ I m k → budget (opened fs0) W 0 →
  (∀ s', committed fs0 c I s' → Q tt (set_k_fs s' k)) → wp (in_fs end_op) Q k.
Proof.
  intros Hq [Ht Ek] Hb HQ. apply wp_zoom. rewrite (_ : cur_pid k = cur_pid K); [|by rewrite Ek].
  eapply wp_end_op; [exact Hq|exact Ht|exact Hb|]. exact HQ.
Qed.

(** Booting after a crash finds one of the two states of the file. *)
Lemma crash_file t c' x x' f f' :
  geometry (sb fs0) (lg fs0) → logged (lg fs0) [] →
  (lstart (sb_log (sb fs0)), lsize (sb_log (sb fs0))) = (lstart (lg fs0), lsize (lg fs0)) →
  inode_wf (sb fs0) (contents (disk fs0)) x → inode_wf (sb fs0) c' x' →
  0 ≤ i_inum x < sb_ninodes (sb fs0) → 0 ≤ i_inum x' < sb_ninodes (sb fs0) →
  file_is (sb fs0) (contents (disk fs0)) x f → file_is (sb fs0) c' x' f' →
  old_or_new_blocks (lg fs0) (disk fs0) c' (replay t (disk fs0)) →
  wp (binit;; initlog ROOTDEV (sb fs0)) (λ _ s,
    file_is (sb fs0) (contents (disk s)) x f ∨ file_is (sb fs0) (contents (disk s)) x' f') (fs_boot (replay t (disk fs0))).
Proof.
  intros Hg Hl E Hw Hw' Hi Hi' Hf Hf' [Hv Hon]. injection E as E1 E2. destruct (lo_area _ _ Hl) as [A1 A2].
  assert (∀ y, in_log (sb_log (sb fs0)) y ↔ in_log (lg fs0) y) as Hin by (intros y; rewrite /in_log; rewrite /= E1 E2 //).
  eapply wp_mono; [apply boot_ok; [done|done|by rewrite /= E1|by rewrite /= E1 E2|]|].
  { destruct Hv as [V1 V2 V3 V4]. split; rewrite /= ?E1 ?E2 //. intros h Hh. rewrite Hin. auto. }
  intros [] s [_ _ _ Hd _]. simpl in Hd. rewrite E1 in Hd. destruct Hon as [Ho|Hn]; [left|right].
  - eapply outside_file_is; [exact Hg| |exact Hw|done|exact Hf]. intros y Hy. rewrite Hd ?Hin //. by apply Ho.
  - eapply outside_file_is; [exact Hg| |exact Hw'|done|exact Hf']. intros y Hy. rewrite Hd ?Hin //. by apply Hn.
Qed.

(** What the transaction leaves is again a file system with that file. *)
Lemma committed_writable ip off r g c' I' s' :
  writable_fs fs0 ip → file_written (opened fs0) (contents (disk fs0)) (inodes fs0 ip) off r g c' (I' ip) →
  0 ≤ off → 0 ≤ r → off + r ≤ MAXFILE * BSIZE → committed fs0 c' I' s' → writable_fs s' ip.
Proof.
  intros [Hq Hg Ha Hm Hf Hr Hd] [F1 F2 F3 F4 F5 F6 F7] Ho Hr0 Hmax [C1 C2 C3 C4 C5 C6 C7 C8]. injection C7 as L1 L2.
  assert (geometry (sb s') (lg s')) as Hg'.
  { destruct Hg as [G1 G2 G3 G4]. rewrite C4. split; rewrite ?L1 ?L2 //. }
  destruct Hr as [Hfit Hin]. destruct Hf as [Hw Hs Hden]. pose proof (geometry_pos fs0 Hg) as Hgp.
  assert (i_inum (I' ip) = i_inum (inodes fs0 ip)) as Ei by (rewrite F4; done).
  split; [done|done|by rewrite C4 L1 L2|..]; rewrite C4 ?C3.
  - by eapply (outside_meta _ (lg fs0)).
  - by eapply (outside_file _ (lg fs0)); [..|apply F1|].
  - split; [|by rewrite Ei]. destruct Hfit as [T1 T2 T3 T4 T5 T6]. rewrite F4. split; cbn [i_type i_major i_minor i_nlink i_size with_size with_addrs]; try done; [lia|].
    intros k Hk. pose proof (gm_size _ _ Hg). assert (0 < data_start (sb fs0)) as Hp by lia.
    pose proof (wf_addr (sb fs0) _ _ k (fo_wf _ _ _ F1) Hp Hk) as Hk'. rewrite /addr_of /=. rewrite /addr_of in Hk'. lia.
  - eapply (outside_disk _ (lg fs0)); [done|done|by rewrite Ei|done].
Qed.

(** The transaction of a write to inode [ip], from [fs0] to [s']: the file
    system is ready for the next write; the [r] bytes [g] are in the file and
    every other file is as before; [r] is short only when the disk is full; and
    booting after a crash finds the file as it was or as it is now. *)
Record write_done (ip off n r : Z) (g : Z → Z) (s' : fsst) : Prop := {
  wd_fs : writable_fs s' ip;
  wd_len : 0 ≤ r ≤ n;
  wd_full : r < n → ∀ b, 0 ≤ b < sb_size (sb fs0) → used (sb fs0) (contents (disk s')) b = true;
  wd_size : i_size (inodes s' ip) = Z.max (i_size (inodes fs0 ip)) (off + r);
  wd_byte : ∀ i, 0 ≤ i < MAXFILE * BSIZE → fbyte (contents (disk s')) (inodes s' ip) i =
    if decide (off ≤ i < off + r) then g i else fbyte (contents (disk fs0)) (inodes fs0 ip) i;
  wd_others : ∀ y, inode_wf (sb fs0) (contents (disk fs0)) y →
    (∀ b, block_of (contents (disk fs0)) y b → ¬ block_of (contents (disk fs0)) (inodes fs0 ip) b) →
    ∀ i, 0 ≤ i < MAXFILE * BSIZE → fbyte (contents (disk s')) y i = fbyte (contents (disk fs0)) y i;
  wd_crash : ∃ t, wtrace s' = t ++ wtrace fs0 ∧ disk s' = replay t (disk fs0) ∧ ∀ t1, t1 `suffix_of` t →
    wp (binit;; initlog ROOTDEV (sb fs0)) (λ _ s,
      file_is (sb fs0) (contents (disk s)) (inodes fs0 ip) (fbyte (contents (disk fs0)) (inodes fs0 ip)) ∨
      file_is (sb fs0) (contents (disk s)) (inodes s' ip) (fbyte (contents (disk s')) (inodes s' ip)))
      (fs_boot (replay t1 (disk fs0)));
}.

Lemma committed_done ip off n r g c' I' s' :
  writable_fs fs0 ip → file_written (opened fs0) (contents (disk fs0)) (inodes fs0 ip) off r g c' (I' ip) →
  (r < n → ∀ b, 0 ≤ b < sb_size (sb fs0) → used (sb fs0) c' b = true) →
  0 ≤ off → 0 ≤ r ≤ n → off + n ≤ MAXFILE * BSIZE → committed fs0 c' I' s' → write_done ip off n r g s'.
Proof.
  intros Hwf Hfw Hfull Ho Hr Hmax Hc. pose proof (committed_writable ip off r g c' I' s' Hwf Hfw Ho ltac:(lia) ltac:(lia) Hc) as Hwf'.
  destruct Hwf as [Hq Hg Ha Hm Hf [_ Hin] Hd]. destruct Hfw as [F1 F2 F3 F4 F5 F6 F7]. destruct Hc as [C1 C2 C3 C4 C5 C6 C7 (t & Et & Er & Hcr)].
  assert (i_inum (I' ip) = i_inum (inodes fs0 ip)) as Ei by (rewrite F4; done).
  assert (∀ y i, inode_wf (sb fs0) c' y → 0 ≤ i < MAXFILE * BSIZE → fbyte (contents (disk s')) y i = fbyte c' y i) as Hby.
  { intros y i Hy Hi. eapply outside_byte; [exact Hg|exact C2|exact Hy|done]. }
  pose proof (fo_wf _ _ _ F1) as Hw'. split; [done|done|..].
  - intros Hlt b Hb. rewrite (outside_used _ _ _ _ Hg C2) //. by apply Hfull.
  - by rewrite C3 F4.
  - intros i Hi. rewrite C3 Hby //. by apply F3.
  - intros y Hy Hdis i Hi. destruct (F7 y Hy Hdis) as (Hwy & Hb & _). rewrite Hby //. by apply Hb.
  - exists t. split; [done|]. split; [done|]. intros t1 Ht1. rewrite C3.
    eapply crash_file; [done|apply Hq|done|apply Hf|exact Hw'|done|by rewrite Ei|by split|split; [exact F5|]|by apply Hcr].
    intros i Hi. by rewrite Hby.
Qed.

(** C3: A write to a file is atomic.  The transaction [begin_op], [writei]
    from kernel memory or from memory that the running process can read,
    [end_op] on a file system at rest, with the range within the file or
    contiguous to it and room for it in the log, does not panic and returns the
    number of bytes written, all of them unless the disk is full; the file then
    has these bytes at the offset and its old bytes elsewhere, the size is the
    larger of the old one and the end of the write, other files keep their
    bytes, and the file system is at rest again.  A crash after any of the disk
    writes of the transaction, followed by the recovery at boot, leaves the
    inode and the bytes of the file all as they were before or all as they are
    after. *)
Theorem write_atomic ip us src off n g :
  writable_fs fs0 ip → 0 ≤ off ≤ i_size (inodes fs0 ip) → 0 ≤ n → off + n ≤ MAXFILE * BSIZE →
  write_budget (opened fs0) [] off n → source K cur us src n (mem (k_mem K)) g →
  wp (write_txn ip us src off n) (λ r k', write_done ip off n r (λ i, g (i - off)) (k_fs k')) K.
Proof.
  intros Hwf Ho Hn Hmax Hb Hsrc. pose proof Hwf as [Hq Hg Ha Hm Hf Hr Hd]. rewrite /write_txn.
  apply wp_bind, wp_open; [done|]. intros k Hk. apply wp_bind.
  assert (geometry (sb (opened fs0)) (lg (opened fs0))) as Hg' by (by destruct Hg).
  eapply (wp_writei_from K (opened fs0) cur Hcur Hg'); [exact Hk|done|done|done|lia|lia|lia|done|done|].
  intros r c' W' I' m' k' Hr' _ Hfull Hfw HI Hb' Hm' Hk'. apply wp_bind.
  eapply wp_close; [exact Hq|exact Hk'|by eapply budget_le|]. intros s' Hc. apply wp_ret. simpl.
  eapply committed_done; [done|exact Hfw|done|lia|done|lia|exact Hc].
Qed.
End atomic.
