(* ===== verification/FileDemo.v ===== *)
(** * A small file system

    A disk of forty blocks with one file of five bytes and one directory,
    booted, and the theorems on files and directories applied to it, for
    kernel memory and for the parent process of the small machine. *)

From stdpp Require Import functions list.
From S2P Require Import Prelude Mem Cstring Riscv Spinlock Kalloc Vm Uvm Cow Usermem Demo Sleeplock Bio Bcache Log LogCrash Txn Fs Balloc Bmap Idisk Virtio State Sched Dir Itrunc Itable Fileio DirMap PathWalk FileCrash.

Local Open Scope Z_scope.

(** The log at blocks 2 to 32, two blocks of inodes, the bitmap at block 35,
    and four data blocks. *)
Definition small_sb : superblock := mk_sb 0x10203040 40 4 16 31 2 33 35.

(** An inode with one block. *)
Definition one_block (inum type size b : Z) : inode :=
  mk_inode ROOTDEV inum 1 (mk_sleeplock false 0) true type 0 0 1 size {[ 0 := b ]}.

(** The file is inode 2, with [hello] in block 36; the directory is the root,
    with the names [.] and [a] in block 37. *)
Definition small_file : inode := one_block 2 T_FILE 5 36.
Definition small_dir : inode := one_block ROOTINO T_DIR 32 37.
Definition small_disk : gmap Z block :=
  {[ 33 := put_dinode small_dir (dinode_off ROOTINO) (put_dinode small_file (dinode_off 2) ∅);
     35 := list_to_map (zip (seqZ 0 5) [255; 255; 255; 255; 63]);
     36 := list_to_map (zip (seqZ 0 5) (chars "hello"));
     37 := list_to_map (zip [0; 2; 16; 18] [1; 46; 2; 97]) ]}.

(** The file system after the boot, with the inodes in the table. *)
Definition small_boot : outcome (unit * fsst) := (binit;; initlog ROOTDEV small_sb) (fs_boot small_disk).
Definition small_fs : fsst :=
  match small_boot with
  | Ret (_, s) => set_inodes (<[1 := small_dir]> (<[0 := small_file]> (inodes s))) (set_sb small_sb s)
  | _ => fs_boot ∅
  end.

(** Process 0 is running; [world], [new] and [/a] are in memory. *)
Definition small_src : Z := 0x80700000.
Definition small_name : Z := 0x80700010.
Definition small_path : Z := 0x80700020.
Definition small_mem : gmap Z Z :=
  list_to_map (zip (seqZ small_src 5) (chars "world") ++ zip (seqZ small_name 3) (chars "new") ++ zip (seqZ small_path 2) (chars "/a")).
Definition small_kern : kern :=
  set_k_cur (Some 0) (set_k_fs small_fs
    (set_k_procs (λ _, mk_proc RUNNING None false 0 1 None 0x80600000 0 0 0 (mk_context 0 0 []) ∅ None [])
      (set_k_mem (mk_kst small_mem 0 ∅ ∅) kern0))).

Lemma empty_log_valid l d :
  hdr (contents d (lstart l)) = [] → s32 (ld32 (contents d (lstart l)) HB_N) = 0 → 0 < lsize l → valid_log l d.
Proof.
  intros E1 E2 Hl. split; rewrite ?E1 ?E2 /=; [lia|done|constructor|]. intros h Hh. by apply not_elem_of_nil in Hh.
Qed.

Lemma small_boot_ok : ∃ s, small_fs = set_inodes (<[1 := small_dir]> (<[0 := small_file]> (inodes s))) (set_sb small_sb s) ∧
  recovery_post (fs_boot small_disk) (sb_log small_sb) s.
Proof.
  assert (wp (binit;; initlog ROOTDEV small_sb) (λ _ s, recovery_post (fs_boot small_disk) (sb_log small_sb) s) (fs_boot small_disk)) as Hw.
  { apply boot_ok; [done|done|done|done|]. by apply empty_log_valid. }
  revert Hw. unfold wp, small_fs, small_boot.
  destruct ((binit;; initlog ROOTDEV small_sb) (fs_boot small_disk)) as [[[] s]|?| |]; [|done..]. intros Hw. by exists s.
Qed.

Lemma small_fs0 : fs0 small_kern = set_fpid 1 small_fs.
Proof. reflexivity. Qed.

Lemma small_quiet : quiet (fs0 small_kern).
Proof.
  assert (outstanding (lg small_fs) = 0 ∧ committing (lg small_fs) = false ∧ fheld small_fs = ∅ ∧ fpid small_fs = 1 ∧
    s32 (ld32 (contents (disk small_fs) 2) HB_N) = 0) as (H1 & H2 & H3 & H4 & H5) by (split_and!; vm_compute; reflexivity).
  destruct small_boot_ok as (s & Es & [R1 [R2 R3] R4 R5 R6]). rewrite small_fs0.
  rewrite Es in H1 H2 H3 H4 H5 |- *. cbn [lg fheld fpid disk set_inodes set_sb] in H1, H2, H3, H4, H5.
  injection R3 as E1 E2. clear Es. split; cbn [lg fheld fpid disk set_inodes set_sb set_fpid]; rewrite ?E1; try done.
  - by eapply (rep_ext _ _ s); [..|exact R1].
  - by rewrite H3.
  - apply empty_log_valid; rewrite ?E1 ?E2 //.
Qed.

(** Facts about finitely many blocks, by computation. *)
Lemma small_meta : meta_used small_sb (contents (disk small_fs)).
Proof.
  assert (forallb (used small_sb (contents (disk small_fs))) (seqZ 0 36) = true) as H by (vm_compute; reflexivity).
  intros n Hn. rewrite forallb_forall in H. apply H. apply list_elem_of_In, elem_of_seqZ. vm_compute (data_start _) in Hn. lia.
Qed.

Lemma one_block_faddr inum type size b c k :
  0 ≤ k < MAXFILE → faddr c (one_block inum type size b) k = if decide (k = 0) then b else 0.
Proof.
  intros Hk. rewrite /faddr /ind_entry. destruct (Z.ltb_spec k NDIRECT) as [Hlt|Hge]; [|by rewrite decide_False; [|lia]].
  rewrite /addr_of /=. destruct (decide (k = 0)) as [->|Hne]; [done|]. by rewrite lookup_singleton_ne; [|lia].
Qed.

Lemma one_block_ok inum type size b c :
  0 ≤ size ≤ BSIZE → 36 ≤ b < 40 → used small_sb c b = true → file_ok small_sb c (one_block inum type size b).
Proof.
  intros Hs Hb Hu. split; [split| |].
  - done.
  - done.
  - intros k Hk. rewrite one_block_faddr //. case_decide; [|done]. intros _. split; [|by rewrite /addr_of lookup_singleton_ne //=; lia].
    split; [|done]. vm_compute (data_start _). simpl. lia.
  - intros k k' Hk Hk'. rewrite !one_block_faddr //. repeat case_decide; congruence.
  - simpl. lia.
  - intros j Hj Hlt. simpl in Hlt. rewrite one_block_faddr; [|lia]. rewrite decide_True; lia.
Qed.

Lemma one_block_ready inum type size b :
  0 ≤ inum < 16 → 0 ≤ type < 4 → 0 ≤ size ≤ BSIZE → 36 ≤ b < 40 → inode_ready small_sb (one_block inum type size b).
Proof.
  intros Hi Ht Hs Hb. split; [split|]; cbn; try lia. intros k Hk. rewrite /addr_of /=. destruct (decide (k = 0)) as [->|Hne].
  - rewrite lookup_singleton_eq /=. lia.
  - by rewrite lookup_singleton_ne; [|lia].
Qed.

Lemma small_used b : (b =? 36) || (b =? 37) = true → used small_sb (contents (disk small_fs)) b = true.
Proof. intros [->%Z.eqb_eq| ->%Z.eqb_eq]%orb_true_iff; vm_compute; reflexivity. Qed.

Lemma small_geometry : geometry small_sb (lg small_fs).
Proof.
  assert (lstart (lg small_fs) = 2 ∧ lsize (lg small_fs) = 31) as [E1 E2] by (split; vm_compute; reflexivity).
  split; rewrite ?E1 ?E2; vm_compute; split_and?; done.
Qed.

Lemma small_on_disk x : x = small_file ∨ x = small_dir → on_disk small_sb (contents (disk small_fs)) x.
Proof.
  assert (∀ d, forallb (λ k, ld32 d (dinode_off (i_inum x) + DI_ADDRS + 4 * k) =? addr_of x k) (seqZ 0 13) = true →
    ∀ k, 0 ≤ k ≤ NDIRECT → ld32 d (dinode_off (i_inum x) + DI_ADDRS + 4 * k) = addr_of x k) as Ha.
  { intros d H k Hk. rewrite forallb_forall in H. apply Z.eqb_eq, (H k), list_elem_of_In, elem_of_seqZ. lia. }
  intros [-> | ->]; (split; [vm_compute; reflexivity..|]; apply Ha; vm_compute; reflexivity).
Qed.

Lemma writable_set_fpid p s x :
  quiet (set_fpid p s) → sb s = small_sb → inodes s 0 = x → geometry small_sb (lg s) → (lstart (lg s), lsize (lg s)) = (2, 31) →
  meta_used small_sb (contents (disk s)) → file_ok small_sb (contents (disk s)) x → inode_ready small_sb x →
  on_disk small_sb (contents (disk s)) x → writable_fs (set_fpid p s) 0.
Proof. intros Hq E1 E2 Hg Ha Hm Hf Hr Hd. split; [done|..]; cbn; rewrite ?E1 ?E2 ?Ha //. Qed.

Lemma small_writable : writable_fs (fs0 small_kern) 0.
Proof.
  rewrite small_fs0. apply (writable_set_fpid 1 small_fs small_file).
  - rewrite -small_fs0. apply small_quiet.
  - vm_compute. reflexivity.
  - vm_compute. reflexivity.
  - apply small_geometry.
  - vm_compute. reflexivity.
  - apply small_meta.
  - apply one_block_ok; [lia|lia|by apply small_used].
  - by apply one_block_ready.
  - apply small_on_disk. by left.
Qed.

Lemma small_src_free len a : 0 ≤ len ≤ 5 → span small_src len a → ¬ @in_bufs demo_syms a.
Proof. intros Hl Ha (b & Hb & Hs). rewrite /span /small_src /slot /= in Ha Hb Hs. lia. Qed.

(** The transaction that [begin_op] opens. *)
Definition small_txn (m : gmap Z Z) (k : kern) : Prop :=
  kt small_kern (opened (fs0 small_kern)) (contents (disk (fs0 small_kern))) [] ∅ (inodes (fs0 small_kern)) m k.

Lemma small_open (Q : kern → Prop) : (∀ k, small_txn (mem (k_mem small_kern)) k → Q k) → wp (in_fs begin_op) (λ _ k, Q k) small_kern.
Proof. exact (wp_open small_kern (λ _ k, Q k) small_quiet). Qed.

Lemma opened_facts s ip : writable_fs s ip →
  geometry (sb (opened s)) (lg (opened s)) ∧ file_ok (sb (opened s)) (contents (disk s)) (inodes s ip) ∧
  inode_ready (sb (opened s)) (inodes s ip) ∧ meta_used (sb (opened s)) (contents (disk s)).
Proof. intros [_ [] _ ? ? ? _]. by split_and!. Qed.

Lemma small_room W k : length W = 0%nat → k ≤ 28 → budget (opened (fs0 small_kern)) W k.
Proof.
  assert (lsize (lg (opened (fs0 small_kern))) = 31) as E by (vm_compute; reflexivity). rewrite /budget E. lia.
Qed.

Lemma small_size : i_size (inodes (fs0 small_kern) 0) = 5.
Proof. vm_compute. reflexivity. Qed.

(** The same with the memory of the small machine: its parent process runs. *)
Definition user_kern : kern :=
  set_k_mem run_w (set_k_procs (λ p, with_p_pagetable pA2 (k_procs small_kern p)) small_kern).
Definition user_txn (m : gmap Z Z) (k : kern) : Prop :=
  kt user_kern (opened (fs0 small_kern)) (contents (disk (fs0 small_kern))) [] ∅ (inodes (fs0 small_kern)) m k.

Lemma user_fs0 : fs0 user_kern = fs0 small_kern.
Proof. reflexivity. Qed.

Lemma user_open (Q : kern → Prop) : (∀ k, user_txn (mem (k_mem user_kern)) k → Q k) → wp (in_fs begin_op) (λ _ k, Q k) user_kern.
Proof.
  intros HQ. apply (wp_open user_kern (λ _ k, Q k)); rewrite user_fs0; [exact small_quiet|]. intros k Hk. exact (HQ k Hk).
Qed.

Lemma small_in_user : @in_user small_image demo_syms user_kern 0 run_w fl2 demo_ps 0 demo_parent.
Proof.
  split; [exact run_w_world|done|done|]. intros x (b & Hb & Hs). rewrite /span /slot /= in Hb, Hs.
  split; [lia|]. apply run_w_low. lia.
Qed.

Lemma small_reads j : 0 ≤ j < 5 → uread run_w demo_parent (100 + j) = Some 0.
Proof.
  intros Hj. assert (j = 0 ∨ j = 1 ∨ j = 2 ∨ j = 3 ∨ j = 4) as [->|[->|[->|[->| ->]]]] by lia; vm_compute; reflexivity.
Qed.

Lemma small_sources :
  @source small_image demo_syms small_kern 0 false small_src 5 (mem (k_mem small_kern)) (λ j, ld8 (mem (k_mem small_kern)) (small_src + j)) ∧
  @source small_image demo_syms user_kern 0 true 100 5 (mem (k_mem user_kern)) (λ _, 0).
Proof.
  split; split; [|done|done|].
  - intros a. apply small_src_free. lia.
  - exists fl2, demo_ps, 0%nat, demo_parent. split; [exact small_in_user|exact small_reads].
Qed.

(** Ten bytes at offset 1 are asked for, and [ello] is read. *)
Lemma readi_witness :
  read_len (inodes (fs0 small_kern) 0) 1 10 = 4 ∧
  wp (in_fs begin_op) (λ _ k, wp (@readi small_image demo_syms 0 false small_src 1 10) (λ r k', r = 4 ∧ ∃ m',
    small_txn m' k' ∧ holds_bytes (contents (disk (fs0 small_kern))) (inodes (fs0 small_kern) 0) m' small_src 1 r) k) small_kern ∧
  wp (in_fs begin_op) (λ _ k, wp (@readi small_image demo_syms 0 true 100 1 10) (λ r k', r = 4 ∨ r = -1) k) user_kern.
Proof.
  assert (read_len (inodes (fs0 small_kern) 0) 1 10 = 4) as El by (vm_compute; reflexivity).
  pose proof (opened_facts _ _ small_writable) as (_ & Hf & _).
  pose proof (small_room [] 0 eq_refl ltac:(lia)) as Hb.
  split_and!; [exact El|apply small_open|apply user_open]; intros k Hk; eapply wp_mono.
  - apply (@readi_spec small_image demo_syms small_kern (opened (fs0 small_kern)) 0 eq_refl
      (contents (disk (fs0 small_kern))) [] (inodes (fs0 small_kern)) (mem (k_mem small_kern)) k 0 false small_src 1 10
      fl2 demo_ps 0 demo_parent Hk Hf Hb ltac:(lia) ltac:(lia)).
    intros a. rewrite El. apply small_src_free. lia.
  - intros r k' [-> (m' & Hk' & Hh & _)]. split; [exact El|]. exists m'. split; [exact Hk'|exact Hh].
  - apply (@readi_spec small_image demo_syms user_kern (opened (fs0 small_kern)) 0 eq_refl
      (contents (disk (fs0 small_kern))) [] (inodes (fs0 small_kern)) (mem (k_mem user_kern)) k 0 true 100 1 10
      fl2 demo_ps 0 demo_parent Hk Hf Hb ltac:(lia) ltac:(lia)).
    split; [lia|exact small_in_user].
  - intros r k' (K' & fl' & t & _ & _ & _ & [[-> _]|[-> _]]); [left; exact El|by right].
Defined.

Lemma small_write_budget off : write_budget (opened (fs0 small_kern)) [] off 5.
Proof. split; [|intros _]; apply small_room; [done|lia|done|]. rewrite /n_blocks. dlia. Qed.

(** Five bytes at offset 3 are written, and none at offset 9. *)
Lemma writei_witness :
  wp (in_fs begin_op) (λ _ k, small_txn (mem (k_mem small_kern)) k ∧
    wp (@writei demo_syms 0 false small_src 3 5) (λ r k', 0 ≤ r ≤ 5) k ∧
    wp (@writei demo_syms 0 false small_src 9 5) (λ r k', r = -1) k) small_kern ∧
  wp (in_fs begin_op) (λ _ k, wp (@writei demo_syms 0 true 100 3 5) (λ r k', 0 ≤ r ≤ 5) k) user_kern.
Proof.
  pose proof (opened_facts _ _ small_writable) as (Hg & Hf & Hr & Hm). destruct small_sources as [S1 S2].
  split; [apply small_open|apply user_open]; intros k Hk.
  - pose proof (λ off H, @writei_spec small_image demo_syms small_kern (opened (fs0 small_kern)) 0 eq_refl Hg
      (contents (disk (fs0 small_kern))) [] (inodes (fs0 small_kern)) (mem (k_mem small_kern)) k 0 false small_src off 5 _ Hk Hf Hr Hm H
      ltac:(lia) (small_write_budget off) S1) as Hw.
    split_and!; [exact Hk|..].
    + eapply wp_mono; [apply (Hw 3); lia|]. intros r k'. cbv beta. rewrite /can_write small_size. intros [H _]. exact H.
    + eapply wp_mono; [apply (Hw 9); lia|]. intros r k'. cbv beta. rewrite /can_write small_size. intros [H _]. exact H.
  - eapply wp_mono; [apply (@writei_spec small_image demo_syms user_kern (opened (fs0 small_kern)) 0 eq_refl Hg
      (contents (disk (fs0 small_kern))) [] (inodes (fs0 small_kern)) (mem (k_mem user_kern)) k 0 true 100 3 5 _ Hk Hf Hr Hm
      ltac:(lia) ltac:(lia) (small_write_budget 3) S2)|].
    intros r k'. cbv beta. rewrite /can_write small_size. intros [H _]. exact H.
Defined.

(** [world] is written at offset 3 of [hello]; and, from the memory of a
    process, five zero bytes are. *)
Lemma write_atomic_witness :
  writable_fs (fs0 small_kern) 0 ∧
  wp (@write_txn demo_syms 0 false small_src 3 5)
    (λ r k', write_done small_kern 0 3 5 r (λ i, ld8 (mem (k_mem small_kern)) (small_src + (i - 3))) (k_fs k')) small_kern ∧
  wp (@write_txn demo_syms 0 true 100 3 5) (λ r k', write_done user_kern 0 3 5 r (λ _, 0) (k_fs k')) user_kern.
Proof.
  destruct small_sources as [S1 S2]. pose proof small_writable as Hw. split_and!; [exact Hw|..].
  - apply (@write_atomic small_image demo_syms small_kern 0 eq_refl 0 false small_src 3 5 _ Hw
      ltac:(rewrite small_size; lia) ltac:(lia) ltac:(lia) (small_write_budget 3) S1).
  - apply (@write_atomic small_image demo_syms user_kern 0 eq_refl 0 true 100 3 5 _ Hw
      ltac:(rewrite user_fs0 small_size; lia) ltac:(lia) ltac:(lia) (small_write_budget 3) S2).
Defined.

(** The directory in that transaction. *)
Lemma small_dir_facts :
  dir_ok (sb (opened (fs0 small_kern))) (contents (disk (fs0 small_kern))) (inodes (fs0 small_kern) 1) ∧
  inode_ready (sb (opened (fs0 small_kern))) (inodes (fs0 small_kern) 1).
Proof.
  rewrite small_fs0. assert (inodes small_fs 1 = small_dir ∧ sb small_fs = small_sb) as [E1 E2] by (split; vm_compute; reflexivity).
  pose proof (small_used 37 eq_refl) as Hu. revert E1 E2 Hu. generalize small_fs. intros s E1 E2 Hu. cbn. rewrite E1 E2. split; [split|].
  - by apply one_block_ok.
  - done.
  - done.
  - by apply one_block_ready.
Qed.

Lemma small_name_at : @name_at demo_syms small_kern 0 (mem (k_mem small_kern)) small_name (chars "new").
Proof.
  split.
  - vm_compute. reflexivity.
  - intros a Ha (b & Hb & Hs). rewrite /span /small_name /slot /= in Ha Hb Hs. lia.
  - vm_compute. right. done.
  - intros a Ha (b & Hb & Hs). rewrite /span /de_addr /slot /= in Ha Hb Hs. lia.
Qed.

Lemma small_itable : itable_room (inodes (fs0 small_kern)) ∧ ITABLE ∉ fheld (opened (fs0 small_kern)).
Proof.
  split; [exists 2; split; [done|vm_compute; reflexivity]|].
  assert (fheld (opened (fs0 small_kern)) = ∅) as -> by (vm_compute; reflexivity). apply not_elem_of_empty.
Qed.

(** [new] becomes a name of the file. *)
Lemma dirlink_witness :
  wp (in_fs begin_op) (λ _ k, wp (@dirlink small_image demo_syms 1 small_name 2) (λ r k', ∃ c' I',
    linked (opened (fs0 small_kern)) (contents (disk (fs0 small_kern))) (inodes (fs0 small_kern)) 1 (chars "new") 2 r c' I') k) small_kern.
Proof.
  assert (dir_get (contents (disk (fs0 small_kern))) (inodes (fs0 small_kern) 1) (chars "new") = None) as Hno by (vm_compute; reflexivity).
  apply small_open. intros k Hk. destruct small_dir_facts as [Hd Hrd]. destruct small_itable as [Hr HI].
  pose proof (opened_facts _ _ small_writable) as (Hg & _ & _ & Hm). eapply wp_mono.
  - apply (@dirlink_spec small_image demo_syms small_kern (opened (fs0 small_kern)) 0 eq_refl Hg HI
      (contents (disk (fs0 small_kern))) [] (inodes (fs0 small_kern)) (mem (k_mem small_kern)) k 1 small_name (chars "new") 2 Hk Hd Hrd Hm).
    + by apply small_room.
    + apply small_name_at.
    + exact Hr.
    + lia.
  - intros r k' (c' & W' & I' & m' & _ & H). rewrite Hno in H. by exists c', I'.
Defined.

(** The tree: the root directory and the file. *)
Definition small_tree (d : Z) : inode := if decide (d = ROOTINO) then small_dir else small_file.
Definition small_live (d : Z) : Prop := d = ROOTINO ∨ d = 2.

Lemma small_inodes j : inodes small_fs j = (<[1 := small_dir]> (<[0 := small_file]> (inodes (fs_boot ∅)))) j.
Proof. vm_compute. reflexivity. Qed.

Lemma small_entries nm d : dir_get (contents (disk small_fs)) small_dir nm = Some d → small_live d.
Proof.
  rewrite /dir_get. pose proof (first_idx_spec (de_is (contents (disk small_fs)) small_dir nm) (dir_len small_dir) 0) as H.
  fold (dir_find (contents (disk small_fs)) small_dir nm) in H. destruct (dir_find _ _ _) as [i|]; [|done]. destruct H as (Hi & _ & _).
  assert (de_inum (contents (disk small_fs)) small_dir 0 = 1 ∧ de_inum (contents (disk small_fs)) small_dir 1 = 2) as [E0 E1]
    by (split; vm_compute; reflexivity).
  vm_compute (Z.of_nat _) in Hi. assert (i = 0 ∨ i = 1) as [-> | ->] by lia; cbn [fmap option_fmap option_map]; rewrite ?E0 ?E1; intros [= <-].
  - by left.
  - by right.
Qed.

Lemma small_tree_ok : tree_ok small_sb (contents (disk small_fs)) small_tree small_live.
Proof.
  split.
  - by intros d [-> | ->].
  - intros d [-> | ->]; apply small_on_disk; [by right|by left].
  - by intros d [-> | ->].
  - intros d [-> | ->]; [|done]. intros _. split; [|done|done]. apply one_block_ok; [lia|lia|by apply small_used].
  - intros d nm d' [-> | ->]; [|done]. intros _. apply small_entries.
Qed.

Lemma small_table : table 1 small_tree small_live (λ j, i_ref (inodes small_fs j)) None (inodes small_fs).
Proof.
  assert (∀ j, (j = 1 ∧ inodes small_fs j = small_dir) ∨ (j = 0 ∧ inodes small_fs j = small_file) ∨
    inodes small_fs j = inodes (fs_boot ∅) j) as H.
  { intros j. rewrite small_inodes. destruct (decide (j = 1)) as [->|H1]; [left; by rewrite fn_lookup_insert|].
    rewrite fn_lookup_insert_ne //. destruct (decide (j = 0)) as [->|H0]; [right; left; by rewrite fn_lookup_insert|].
    rewrite fn_lookup_insert_ne //. by right; right. }
  split; intros j; destruct (H j) as [[-> ->]|[[-> ->]| ->]]; try done.
  - split; [done|by left].
  - split; [done|by right].
Qed.

Lemma small_tree_facts :
  tree_ok (sb (opened (fs0 small_kern))) (contents (disk (fs0 small_kern))) small_tree small_live ∧
  table (fpid (opened (fs0 small_kern))) small_tree small_live (λ j, i_ref (inodes (fs0 small_kern) j)) None (inodes (fs0 small_kern)) ∧
  two_free (λ j, i_ref (inodes (fs0 small_kern) j)).
Proof.
  assert (two_free (λ j, i_ref (inodes small_fs j))) as H3 by (exists 2, 3; split_and!; try done; vm_compute; reflexivity).
  assert (sb small_fs = small_sb) as E2 by (vm_compute; reflexivity).
  rewrite small_fs0. pose proof small_tree_ok as H1. pose proof small_table as H2. revert H1 H2 H3 E2. generalize small_fs.
  intros s H1 H2 H3 E2. cbn. by rewrite E2.
Qed.

Lemma small_path_at : @path_at demo_syms small_kern 0 small_name (mem (k_mem small_kern)) small_path (chars "/a").
Proof.
  split.
  - vm_compute. split_and!; [done|done|done|done|done].
  - vm_compute. lia.
  - intros a Ha. rewrite /span /= /small_path in Ha. split_and!.
    + intros (b & Hb & Hs). rewrite /span /slot /= in Hb Hs. lia.
    + rewrite /span /small_name. lia.
    + rewrite /span /de_addr /=. lia.
Qed.

(** [/a] is inode 2. *)
Lemma namex_witness :
  wp (in_fs begin_op) (λ _ k, wp (@namex small_image demo_syms small_path false small_name) (λ r k', ∃ ip I', r = Some ip ∧ i_inum (I' ip) = 2) k)
    small_kern.
Proof.
  assert (walk (contents (disk (fs0 small_kern))) small_tree false ROOTINO (path_elems (chars "/a")) = Some 2) as Hw by (vm_compute; reflexivity).
  apply small_open. intros k Hk. destruct small_tree_facts as (Htree & Htab & Hfree). destruct small_itable as [_ HI]. eapply wp_mono.
  - apply (@namex_spec small_image demo_syms small_kern (opened (fs0 small_kern)) 0 eq_refl HI (contents (disk (fs0 small_kern))) []
      (small_room [] 0 eq_refl ltac:(lia)) small_tree small_live Htree small_name (na_bufs _ _ _ _ _ small_name_at)
      (na_de _ _ _ _ _ small_name_at) (na_apart _ _ _ _ _ small_name_at) false small_path (chars "/a") ROOTINO
      (inodes (fs0 small_kern)) (mem (k_mem small_kern)) k Hk Htab Hfree small_path_at).
    split; [done|by left].
  - intros r k' (I' & m' & H & _ & _). rewrite /walked Hw in H. destruct H as (ip & -> & _ & H & _).
    exists ip, I'. split; [reflexivity|exact H].
Defined.

(** The file is truncated, and its block is free. *)
Lemma itrunc_witness :
  wp begin_op (λ _ s, wp (itrunc 0) (λ _ s', ∃ c', used (sb (opened (fs0 small_kern))) c' 36 = false) s) (fs0 small_kern).
Proof.
  assert (block_of (contents (disk (fs0 small_kern))) (inodes (fs0 small_kern) 0) 36) as Hbl
    by (split; [done|right; exists 0; split; [done|vm_compute; reflexivity]]).
  assert (sb_size (sb (opened (fs0 small_kern))) = 40) as Esz by (vm_compute; reflexivity).
  apply wp_begin_op; [apply small_quiet|]. intros Ht. pose proof (opened_facts _ _ small_writable) as (Hg & Hf & [Hfit Hin] & _).
  eapply wp_mono.
  - apply (itrunc_spec (opened (fs0 small_kern)) Hg ltac:(rewrite Esz; lia) (contents (disk (fs0 small_kern))) []
      (inodes (fs0 small_kern)) 0 (fo_wf _ _ _ Hf) (small_room [] 2 eq_refl ltac:(lia)) (opened (fs0 small_kern)) Ht Hfit Hin).
  - intros [] s' (c' & W' & I' & _ & Htr & _). exists c'. apply not_true_is_false. intros Hu.
    destruct (proj1 (tn_free _ _ _ _ _ _ Htr 36 ltac:(rewrite Esz; lia)) Hu) as [_ Hno]. exact (Hno Hbl).
Defined.

(** What is read back is [helworld]. *)
Lemma small_run :
  match (@write_txn demo_syms 0 false small_src 3 5;; @readi small_image demo_syms 0 false small_src 0 100) small_kern with
  | Ret (r, k) => r = 8 ∧ map (λ i, ld8 (mem (k_mem k)) (small_src + i)) (seqZ 0 8) = chars "helworld"
  | _ => False
  end.
Proof. vm_compute. done. Qed.

(** The process reads its file, and writes what it has read back at the end. *)
Lemma small_user_run :
  match (@readi small_image demo_syms 0 true 4000 1 4;; @write_txn demo_syms 0 true 4000 5 4;;
         @readi small_image demo_syms 0 true 100 0 100) user_kern with
  | Ret (r, k) => r = 9 ∧ map (λ i, uread (k_mem k) demo_parent (100 + i)) (seqZ 0 9) = map Some (chars "helloello")
  | _ => False
  end.
Proof. vm_compute. done. Qed.

(** A write whose bytes end at the end of the memory of the process: the copy
    of two of the five bytes changes the buffer, no byte is written, and the
    buffer, which was not logged, differs from the disk. *)
Lemma small_short_run :
  match (r ← @write_txn demo_syms 0 true 4094 0 5; n ← @readi small_image demo_syms 0 false small_src 0 5; mret (r, n)) user_kern with
  | Ret ((r, n), k) => r = 0 ∧ n = 5 ∧ map (λ i, ld8 (mem (k_mem k)) (small_src + i)) (seqZ 0 5) = [0; 0; 108; 108; 111] ∧
      map (λ i, ld8 (contents (disk (k_fs k)) 36) i) (seqZ 0 5) = chars "hello"
  | _ => False
  end.
Proof. vm_compute. done. Qed.

(** The name that was linked is found, at the end of the directory. *)
Lemma small_link_run :
  match (in_fs begin_op;; @dirlink small_image demo_syms 1 small_name 2;; in_fs end_op;;
         @dirlookup small_image demo_syms 1 small_name) small_kern with
  | Ret (r, k) => r = Some (0, 32)
  | _ => False
  end.
Proof. vm_compute. done. Qed.
