(* ===== verification/Console.v ===== *)
(** * The UART, kernel printf and the console (kernel/uart.c, kernel/printf.c,
    kernel/console.c)

    The device takes [u_room] bytes before its line status register says that
    it is busy, records what it was sent, newest first, and gives the bytes of
    [u_in] to be read.  A program that panicked has ended in the model, so the
    loops on [panicked] are not entered.  The arguments of [printf] are a list
    of values, and its format a list of characters. *)

From stdpp Require Import functions list strings.
From S2P Require Import Prelude Mem Cstring Riscv Spinlock Kalloc Vm Uvm Cow Sleeplock Bio Bcache Log Fs Virtio State Sched Dir.

Local Open Scope Z_scope.

Definition upd_uart (f : uart → uart) : M kern unit := modify (λ s, set_k_uart (f (k_uart s)) s).
Definition upd_cons (f : cons → cons) : M kern unit := modify (λ s, set_k_cons (f (k_cons s)) s).

(** ** uart.c *)

Notation THR := 0.
Notation IER := 1.
Notation FCR := 2.
Notation LCR := 3.
Definition IER_RX_ENABLE : Z := Z.shiftl 1 0.
Definition IER_TX_ENABLE : Z := Z.shiftl 1 1.
Definition FCR_FIFO_ENABLE : Z := Z.shiftl 1 0.
Definition FCR_FIFO_CLEAR : Z := Z.shiftl 3 1.
Definition LCR_EIGHT_BITS : Z := Z.shiftl 3 0.
Definition LCR_BAUD_LATCH : Z := Z.shiftl 1 7.

(** [WriteReg] of a control register; a byte for [THR] is [send]. *)
Definition WriteReg (reg v : Z) : M kern unit :=
  upd_uart (λ u, with_u_regs (<[reg := v mod 256]> (u_regs u)) u).
Definition send (c : Z) : M kern unit :=
  upd_uart (λ u, with_u_room (Nat.pred (u_room u)) (with_u_out (c mod 256 :: u_out u) u)).
(** [ReadReg(LSR) & LSR_TX_IDLE] *)
Definition tx_idle : M kern bool := gets (λ s, negb (u_room (k_uart s) =? 0)%nat).

Definition uartinit : M kern unit :=
  WriteReg IER 0;;
  WriteReg LCR LCR_BAUD_LATCH;;
  WriteReg 0 3;;
  WriteReg 1 0;;
  WriteReg LCR LCR_EIGHT_BITS;;
  WriteReg FCR (Z.lor FCR_FIFO_ENABLE FCR_FIFO_CLEAR);;
  WriteReg IER (Z.lor IER_TX_ENABLE IER_RX_ENABLE);;
  modify (λ s, set_held (held s ∖ {[UART_TX]}) s).

(** Sends what is buffered, as long as the device takes it. *)
Fixpoint uartstart_loop (fuel : nat) : M kern unit :=
  match fuel with
  | O => out_of_fuel
  | S fuel' =>
      u ← gets k_uart;
      if u_w u =? u_r u then mret tt
      else
        idle ← tx_idle;
        if negb idle then mret tt
        else
          let c := default 0 (u_buf u !! (u_r u mod UART_TX_BUF_SIZE)) in
          upd_uart (λ u, with_u_r (u64 (u_r u + 1)) u);;
          wakeup ChUart;;
          send c;;
          uartstart_loop fuel'
  end.

(** The buffer holds at most [UART_TX_BUF_SIZE] bytes. *)
Definition uartstart : M kern unit := uartstart_loop (S (Z.to_nat UART_TX_BUF_SIZE)).

(** The spin ends when the device has room for the byte. *)
Definition uartputc_sync (c : Z) : M kern unit :=
  upd_uart (λ u, if (u_room u =? 0)%nat then with_u_room 1 u else u);;
  send c.

(** [None]: no input is waiting. *)
Definition uartgetc : M kern (option Z) :=
  u ← gets k_uart;
  match u_in u with
  | [] => mret None
  | c :: l => upd_uart (with_u_in l);; mret (Some c)
  end.

Section uartputc.
Context {OT : Others}.

Fixpoint uart_wait (fuel : nat) : M kern unit :=
  match fuel with
  | O => out_of_fuel
  | S fuel' =>
      u ← gets k_uart;
      if u_w u =? u64 (u_r u + UART_TX_BUF_SIZE) then sleep ChUart UART_TX;; uart_wait fuel'
      else mret tt
  end.

Definition uartputc (c : Z) : M kern unit :=
  acquire UART_TX;;
  uart_wait (S patience);;
  upd_uart (λ u, with_u_buf (<[u_w u mod UART_TX_BUF_SIZE := c mod 256]> (u_buf u)) u);;
  upd_uart (λ u, with_u_w (u64 (u_w u + 1)) u);;
  uartstart;;
  release UART_TX.
End uartputc.

(** ** printf.c *)

Notation BACKSPACE := 0x100.
Notation PERCENT := 37.

Definition consputc (c : Z) : M kern unit :=
  if c =? BACKSPACE then
    uartputc_sync 8;;
    uartputc_sync 32;;
    uartputc_sync 8
  else uartputc_sync c.

Fixpoint put_all (l : list Z) : M kern unit :=
  match l with
  | [] => mret tt
  | c :: l => consputc c;; put_all l
  end.

(** [digits[d]] *)
Definition digit (d : Z) : Z := if d <? 10 then 48 + d else 87 + d.

(** [do { buf[i++] = digits[x % base]; } while((x /= base) != 0);]: the digits,
    least significant first; 32 of them are enough for base 2. *)
Fixpoint digits_loop (fuel : nat) (x base : Z) : list Z :=
  match fuel with
  | O => []
  | S fuel' =>
      digit (x mod base) :: (if x / base =? 0 then [] else digits_loop fuel' (x / base) base)
  end.

(** What [printint] leaves in its buffer, read from the end. *)
Definition int_chars (xx base : Z) (sign : bool) : list Z :=
  let neg := sign && (xx <? 0) in
  let x := if neg then u32 (- xx) else u32 xx in
  rev (digits_loop 32 x base ++ (if neg then [45] else [])).

Definition printint (xx base : Z) (sign : bool) : M kern unit := put_all (int_chars xx base sign).

(** [for (i = 0; i < 16; i++, x <<= 4) consputc(digits[x >> 60])] *)
Fixpoint ptr_digits (n : nat) (x : Z) : list Z :=
  match n with
  | O => []
  | S n' => digit (Z.shiftr x 60) :: ptr_digits n' (u64 (Z.shiftl x 4))
  end.

Definition printptr (x : Z) : M kern unit :=
  consputc 48;;
  consputc 120;;
  put_all (ptr_digits 16 x).

(** What [va_arg] gives; a null [char*] is [VStr None]. *)
Inductive va := VInt (n : Z) | VPtr (p : Z) | VStr (s : option (list Z)).

(** The conversion character [c] with the arguments left. *)
Definition printf_conv (c : Z) (ap : list va) : M kern (list va) :=
  if c =? 100 then
    match ap with VInt n :: ap => printint n 10 true;; mret ap | _ => undefined end
  else if c =? 120 then
    match ap with VInt n :: ap => printint n 16 true;; mret ap | _ => undefined end
  else if c =? 112 then
    match ap with VPtr p :: ap => printptr p;; mret ap | _ => undefined end
  else if c =? 115 then
    match ap with VStr s :: ap => put_all (default (chars "(null)") s);; mret ap | _ => undefined end
  else if c =? PERCENT then consputc PERCENT;; mret ap
  else
    consputc PERCENT;;
    consputc c;;
    mret ap.

Fixpoint printf_loop (fmt : list Z) (ap : list va) : M kern unit :=
  match fmt with
  | [] => mret tt
  | c :: fmt' =>
      if c =? PERCENT then
        match fmt' with
        | [] => mret tt
        | c' :: fmt'' => ap' ← printf_conv c' ap; printf_loop fmt'' ap'
        end
      else consputc c;; printf_loop fmt' ap
  end.

Definition printf (fmt : list Z) (ap : list va) : M kern unit :=
  locking ← gets k_locking;
  (if locking : bool then acquire PR else mret tt);;
  printf_loop fmt ap;;
  (if locking : bool then release PR else mret tt).

Definition printfinit : M kern unit :=
  modify (λ s, set_held (held s ∖ {[PR]}) s);;
  modify (set_k_locking true).

(** ** proc.c: the process listing *)

Definition state_name (st : procstate) : list Z :=
  chars match st with
        | UNUSED => "unused" | USED => "used" | SLEEPING => "sleep "
        | RUNNABLE => "runble" | RUNNING => "run   " | ZOMBIE => "zombie"
        end.

Definition procdump : M kern unit :=
  printf [10] [];;
  for_upto 0 NPROC (λ p,
    x ← proc_at p;
    if is_state UNUSED x then mret tt
    else
      printf (chars "%d %s %s") [VInt (p_pid x); VStr (Some (state_name (p_state x))); VStr (Some (p_name x))];;
      printf [10] []).

(** ** console.c *)

Notation CTRL_D := 4.
Notation CTRL_H := 8.
Notation CTRL_P := 16.
Notation CTRL_U := 21.
Notation DEL := 127.
Notation NEWLINE := 10.

Definition cons_char (c : cons) (i : Z) : Z := default 0 (cs_buf c !! (i mod INPUT_BUF_SIZE)).

Section console.
Context {KI : KernelImage} {KS : KernelSyms} {OT : Others}.

Fixpoint consolewrite_loop (n : nat) (user_src : bool) (src i : Z) : M kern Z :=
  match n with
  | O => mret i
  | S n' =>
      c ← local LOC_CH;
      r ← either_copyin c user_src (u64 (src + i)) 1;
      if r =? -1 then mret i
      else
        v ← in_mem (load8 c);
        uartputc v;;
        consolewrite_loop n' user_src src (i + 1)
  end.

Definition consolewrite (user_src : bool) (src n : Z) : M kern Z :=
  consolewrite_loop (Z.to_nat n) user_src src 0.

(** [while(cons.r == cons.w)]: whether there is input; [false] when killed. *)
Fixpoint cons_wait (fuel : nat) : M kern bool :=
  match fuel with
  | O => out_of_fuel
  | S fuel' =>
      c ← gets k_cons;
      if cs_r c =? cs_w c then
        p ← myproc;
        dead ← killed p;
        if dead : bool then mret false
        else sleep ChCons CONS;; cons_wait fuel'
      else mret true
  end.

(** The value of [n] at the end, or [None] when killed. *)
Fixpoint consoleread_loop (fuel : nat) (user_dst : bool) (dst n target : Z) : M kern (option Z) :=
  match fuel with
  | O => out_of_fuel
  | S fuel' =>
      if 0 <? n then
        ok ← cons_wait (S patience);
        if negb ok then mret None
        else
          cs ← gets k_cons;
          let c := cons_char cs (cs_r cs) in
          upd_cons (λ x, with_cs_r (u32 (cs_r x + 1)) x);;
          if c =? CTRL_D then
            (if n <? target then upd_cons (λ x, with_cs_r (u32 (cs_r x - 1)) x) else mret tt);;
            mret (Some n)
          else
            cbuf ← local LOC_CH;
            in_mem (store8 cbuf c);;
            r ← either_copyout user_dst dst cbuf 1;
            if r =? -1 then mret (Some n)
            else if c =? NEWLINE then mret (Some (n - 1))
            else consoleread_loop fuel' user_dst (u64 (dst + 1)) (n - 1) target
      else mret (Some n)
  end.

Definition consoleread (user_dst : bool) (dst n : Z) : M kern Z :=
  let target := u32 n in
  acquire CONS;;
  r ← consoleread_loop (S (Z.to_nat n)) user_dst dst n target;
  release CONS;;
  match r with
  | None => mret (-1)
  | Some n => mret (s32 (u32 (target - n)))
  end.

(** Kill line: back to the last newline or to the start of the edit area. *)
Fixpoint kill_line (fuel : nat) : M kern unit :=
  match fuel with
  | O => out_of_fuel
  | S fuel' =>
      cs ← gets k_cons;
      if negb (cs_e cs =? cs_w cs) && negb (cons_char cs (u32 (cs_e cs - 1)) =? NEWLINE) then
        upd_cons (λ x, with_cs_e (u32 (cs_e x - 1)) x);;
        consputc BACKSPACE;;
        kill_line fuel'
      else mret tt
  end.

(** The default case: echo, store, and wake the reader at the end of a line. *)
Definition cons_store (c : Z) : M kern unit :=
  cs ← gets k_cons;
  if negb (c =? 0) && (u32 (cs_e cs - cs_r cs) <? INPUT_BUF_SIZE) then
    let c := if c =? 13 then NEWLINE else c in
    consputc c;;
    upd_cons (λ x, with_cs_buf (<[cs_e x mod INPUT_BUF_SIZE := c mod 256]> (cs_buf x)) x);;
    upd_cons (λ x, with_cs_e (u32 (cs_e x + 1)) x);;
    cs ← gets k_cons;
    if (c =? NEWLINE) || (c =? CTRL_D) || (u32 (cs_e cs - cs_r cs) =? INPUT_BUF_SIZE) then
      upd_cons (λ x, with_cs_w (cs_e x) x);;
      wakeup ChCons
    else mret tt
  else mret tt.

Definition consoleintr (c : Z) : M kern unit :=
  acquire CONS;;
  (if c =? CTRL_P then procdump
   else if c =? CTRL_U then
     cs ← gets k_cons;
     kill_line (S (Z.to_nat (u32 (cs_e cs - cs_w cs))))
   else if (c =? CTRL_H) || (c =? DEL) then
     cs ← gets k_cons;
     if negb (cs_e cs =? cs_w cs) then
       upd_cons (λ x, with_cs_e (u32 (cs_e x - 1)) x);;
       consputc BACKSPACE
     else mret tt
   else cons_store c);;
  release CONS.

Definition consoleinit : M kern unit :=
  modify (λ s, set_held (held s ∖ {[CONS]}) s);;
  uartinit;;
  modify (λ s, set_k_devsw (<[CONSOLE := mk_devsw (Some DR_consoleread) (dev_write (k_devsw s CONSOLE))]> (k_devsw s)) s);;
  modify (λ s, set_k_devsw (<[CONSOLE := mk_devsw (dev_read (k_devsw s CONSOLE)) (Some DW_consolewrite)]> (k_devsw s)) s).

Fixpoint uartintr_loop (fuel : nat) : M kern unit :=
  match fuel with
  | O => out_of_fuel
  | S fuel' =>
      c ← uartgetc;
      match c with
      | None => mret tt
      | Some c => consoleintr c;; uartintr_loop fuel'
      end
  end.

Definition uartintr : M kern unit :=
  u ← gets k_uart;
  uartintr_loop (S (length (u_in u)));;
  acquire UART_TX;;
  uartstart;;
  release UART_TX.
End console.
