(* ===== verification/Pipe.v ===== *)
(** * Pipes (kernel/pipe.c)

    A pipe is a page of the allocator; its fields are in [k_pipes] under the
    page's address from [pipealloc] to the [pipeclose] that frees it.  Using a
    pipe that was freed is undefined.  ([pipealloc] is in [File], with the
    files it fills.) *)

From stdpp Require Import functions list.
From S2P Require Import Prelude Mem Cstring Riscv Spinlock Kalloc Vm Uvm Cow Usermem Demo Sleeplock Bio Bcache Log Fs Virtio State Sched Dir.

Local Open Scope Z_scope.

Definition pipe_at (pi : Z) : M kern pipe :=
  o ← gets (λ s, k_pipes s !! pi);
  match o with Some x => mret x | None => undefined end.
Definition upd_pipe (pi : Z) (f : pipe → pipe) : M kern unit :=
  x ← pipe_at pi;
  modify (λ s, set_k_pipes (<[pi := f x]> (k_pipes s)) s).

Section pipe.
Context {KI : KernelImage} {KS : KernelSyms} {OT : Others}.

Definition pipeclose (pi : Z) (writable : bool) : M kern unit :=
  acquire (PIPE pi);;
  (if writable then
     upd_pipe pi (with_pi_writeopen false);;
     wakeup (ChPipeRead pi)
   else
     upd_pipe pi (with_pi_readopen false);;
     wakeup (ChPipeWrite pi));;
  x ← pipe_at pi;
  if negb (pi_readopen x) && negb (pi_writeopen x) then
    release (PIPE pi);;
    modify (λ s, set_k_pipes (delete pi (k_pipes s)) s);;
    in_mem (kfree pi)
  else release (PIPE pi).

(** [pi->data[pi->nwrite++ % PIPESIZE] = ch] *)
Definition pipe_put (ch : Z) (x : pipe) : pipe :=
  with_pi_nwrite (u32 (pi_nwrite x + 1)) (with_pi_data (<[pi_nwrite x mod PIPESIZE := ch]> (pi_data x)) x).
(** [pi->data[pi->nread++ % PIPESIZE]] *)
Definition pipe_next (x : pipe) : Z := default 0 (pi_data x !! (pi_nread x mod PIPESIZE)).
Definition pipe_take (x : pipe) : pipe := with_pi_nread (u32 (pi_nread x + 1)) x.

(** The [while(i < n)] loop: [None] for the early [return -1]. *)
Fixpoint pipewrite_loop (fuel : nat) (pi addr i n : Z) : M kern (option Z) :=
  match fuel with
  | O => out_of_fuel
  | S fuel' =>
      if i <? n then
        x ← pipe_at pi;
        pr ← myproc;
        dead ← (if negb (pi_readopen x) then mret true else killed pr);
        if dead : bool then mret None
        else if pi_nwrite x =? u32 (pi_nread x + PIPESIZE) then
          wakeup (ChPipeRead pi);;
          sleep (ChPipeWrite pi) (PIPE pi);;
          pipewrite_loop fuel' pi addr i n
        else
          ch ← local LOC_CH;
          pt ← (x ← proc_at pr; mret (p_pagetable x));
          r ← in_mem (copyin pt ch (u64 (addr + i)) 1);
          if r =? -1 then mret (Some i)
          else
            c ← in_mem (load8 ch);
            upd_pipe pi (pipe_put c);;
            pipewrite_loop fuel' pi addr (i + 1) n
      else mret (Some i)
  end.

Definition pipewrite (pi addr n : Z) : M kern Z :=
  acquire (PIPE pi);;
  r ← pipewrite_loop (S (patience + Z.to_nat n)) pi addr 0 n;
  match r with
  | None =>
      release (PIPE pi);;
      mret (-1)
  | Some i =>
      wakeup (ChPipeRead pi);;
      release (PIPE pi);;
      mret i
  end.

(** [while(pi->nread == pi->nwrite && pi->writeopen)]; [false] when killed. *)
Fixpoint pipe_wait (fuel : nat) (pi : Z) : M kern bool :=
  match fuel with
  | O => out_of_fuel
  | S fuel' =>
      x ← pipe_at pi;
      if (pi_nread x =? pi_nwrite x) && pi_writeopen x then
        pr ← myproc;
        dead ← killed pr;
        if dead : bool then mret false
        else
          sleep (ChPipeRead pi) (PIPE pi);;
          pipe_wait fuel' pi
      else mret true
  end.

Fixpoint piperead_loop (k : nat) (pi addr i : Z) : M kern Z :=
  match k with
  | O => mret i
  | S k' =>
      x ← pipe_at pi;
      if pi_nread x =? pi_nwrite x then mret i
      else
        pr ← myproc;
        ch ← local LOC_CH;
        in_mem (store8 ch (pipe_next x));;
        upd_pipe pi pipe_take;;
        pt ← (x ← proc_at pr; mret (p_pagetable x));
        r ← in_mem (copyout pt pt (u64 (addr + i)) ch 1);
        if r =? -1 then mret i
        else piperead_loop k' pi addr (i + 1)
  end.

Definition piperead (pi addr n : Z) : M kern Z :=
  acquire (PIPE pi);;
  ok ← pipe_wait (S patience) pi;
  if negb ok then
    release (PIPE pi);;
    mret (-1)
  else
    i ← piperead_loop (Z.to_nat n) pi addr 0;
    wakeup (ChPipeWrite pi);;
    release (PIPE pi);;
    mret i.
End pipe.

(** ** The ring as a queue *)

Definition pipe_len (x : pipe) : Z := u32 (pi_nwrite x - pi_nread x).
(** The bytes written and not yet read, oldest first. *)
Definition pipe_bytes (x : pipe) : list Z :=
  (λ k, default 0 (pi_data x !! ((pi_nread x + k) mod PIPESIZE))) <$> seqZ 0 (pipe_len x).

Record pipe_ok (x : pipe) : Prop := {
  po_read : 0 ≤ pi_nread x < 2 ^ 32;
  po_write : 0 ≤ pi_nwrite x < 2 ^ 32;
  po_len : pipe_len x ≤ PIPESIZE;
  po_data : ∀ k v, pi_data x !! k = Some v → 0 ≤ v < 256;
}.

Lemma pipe_len_nonneg x : 0 ≤ pipe_len x.
Proof. apply Z.mod_pos_bound. lia. Qed.
Lemma pipe_bytes_length x : Z.of_nat (length (pipe_bytes x)) = pipe_len x.
Proof. rewrite length_fmap length_seqZ. pose proof (pipe_len_nonneg x). lia. Qed.

Lemma pipe_empty x : pipe_ok x → pi_nread x = pi_nwrite x ↔ pipe_len x = 0.
Proof. intros [H1 H2 H3 _]. rewrite /pipe_len /u32 in H3 |- *. split; dlia. Qed.
Lemma pipe_full x : pipe_ok x → pi_nwrite x = u32 (pi_nread x + PIPESIZE) ↔ pipe_len x = PIPESIZE.
Proof. intros [H1 H2 H3 _]. rewrite /pipe_len /u32 in H3 |- *. split; dlia. Qed.

Lemma pipe_bytes_lookup x (k : nat) :
  pipe_bytes x !! k =
    if decide (Z.of_nat k < pipe_len x) then Some (default 0 (pi_data x !! ((pi_nread x + Z.of_nat k) mod PIPESIZE)))
    else None.
Proof.
  rewrite list_lookup_fmap. case_decide.
  - by rewrite lookup_seqZ_lt.
  - rewrite lookup_seqZ_ge //. lia.
Qed.

Lemma pipe_write_mod x : pi_nwrite x mod PIPESIZE = (pi_nread x + pipe_len x) mod PIPESIZE.
Proof. rewrite /pipe_len /u32. dlia. Qed.

Lemma pipe_take_bytes x :
  pipe_ok x → pi_nread x ≠ pi_nwrite x →
  pipe_ok (pipe_take x) ∧ pipe_bytes x = pipe_next x :: pipe_bytes (pipe_take x).
Proof.
  intros Ho Hne. assert (pipe_len x ≠ 0) as Hl by (by rewrite -pipe_empty). pose proof (pipe_len_nonneg x).
  assert (pipe_len (pipe_take x) = pipe_len x - 1) as Hl'.
  { rewrite /pipe_len /= /u32 in Hl |- *. rewrite Zminus_mod_idemp_r. dlia. }
  split.
  - destruct Ho as [H1 H2 H3 H4]. split; [rewrite /= /u32; dlia|done|lia|done].
  - apply list_eq. intros [|k]; simpl; rewrite !pipe_bytes_lookup.
    + rewrite decide_True; [|lia]. by rewrite Z.add_0_r.
    + rewrite Hl'. simpl. rewrite /u32. repeat case_decide; try lia; [|done]. do 3 f_equal. dlia.
Qed.

Lemma pipe_put_bytes x c :
  pipe_ok x → pi_nwrite x ≠ u32 (pi_nread x + PIPESIZE) → 0 ≤ c < 256 →
  pipe_ok (pipe_put c x) ∧ pipe_bytes (pipe_put c x) = pipe_bytes x ++ [c].
Proof.
  intros Ho Hne Hc. assert (pipe_len x ≠ PIPESIZE) as Hl by (by rewrite -pipe_full). pose proof (pipe_len_nonneg x).
  assert (pipe_len (pipe_put c x) = pipe_len x + 1) as Hl'.
  { destruct Ho as [? ? Ho _]. rewrite /pipe_len /= /u32 in Hl Ho |- *. rewrite Zminus_mod_idemp_l. dlia. }
  split.
  - destruct Ho as [H1 H2 H3 H4]. split; [done|rewrite /= /u32; dlia|lia|].
    intros k v. simpl. rewrite lookup_insert_Some. intros [[_ <-]|[_ ?]]; [done|by eapply H4].
  - apply list_eq. intros k. rewrite pipe_bytes_lookup Hl' /=. destruct (decide (Z.of_nat k < pipe_len x)).
    + rewrite lookup_app_l; [|pose proof (pipe_bytes_length x); lia]. rewrite pipe_bytes_lookup.
      rewrite !decide_True; [|lia..]. rewrite lookup_insert_ne; [done|].
      rewrite pipe_write_mod. pose proof (po_len _ Ho). dlia.
    + pose proof (pipe_bytes_length x). rewrite lookup_app_r; [|lia].
      case_decide; last first. { symmetry. apply lookup_ge_None_2. simpl. lia. }
      assert (k = length (pipe_bytes x)) as -> by lia. rewrite Nat.sub_diag /=.
      rewrite (_ : (_ + _) mod PIPESIZE = pi_nwrite x mod PIPESIZE); [by rewrite lookup_insert_eq|].
      by rewrite H0 pipe_write_mod.
Qed.

Lemma pipe_next_range x : pipe_ok x → 0 ≤ pipe_next x < 256.
Proof. intros Ho. rewrite /pipe_next. destruct (_ !! _) eqn:E; simpl; [by eapply po_data|lia]. Qed.

(** ** Reading and writing by a process *)

Section transfer.
Context {KI : KernelImage} {KS : KernelSyms} {OT : Others}.

(** Memory above the RAM, where the kernel stacks are mapped, is nobody's
    page: a store there changes no process. *)
Lemma quiet_high s fl ps x : world s fl ps → PHYSTOP ≤ x → quiet s fl ps x.
Proof.
  intros Hw Hx. assert (∀ p, page_ok p → ¬ in_page p x) as Hp.
  { intros p Hp. apply page_ok_range in Hp. unfold span. dlia. }
  split_and!.
  - intros (p & Hin & H). eapply Hp; [|exact H]. by eapply Forall_forall in Hin; [|apply (ki_ok _ _ (wo_inv _ _ _ Hw))].
  - intros (p & Hin & H). eapply Hp; [|exact H]. by eapply mapped_page.
  - intros i a Ha (π & p & Hin & H). eapply Hp; [|exact H].
    by eapply (pw_ok _ _ _ (sp_wf _ _ _ _ (wo_space _ _ _ Hw _ _ Ha))).
Qed.

Lemma store_high s fl ps x v :
  world s fl ps → PHYSTOP ≤ x →
  world (set_mem (st8 (mem s) x v) s) fl ps ∧ same_view s ps (set_mem (st8 (mem s) x v) s) ps ∧
  perms_kept s ps (set_mem (st8 (mem s) x v) s).
Proof.
  intros Hw Hx. assert (mem_eq_on (λ y, y ≠ x) (mem s) (st8 (mem s) x v)) as Hm.
  { intros y Hy. rewrite ld8_st8. by rewrite decide_False. }
  destruct (world_quiet s fl ps (st8 (mem s) x v) (λ y, y = x)) as (H1 & H2 & _); [done| |done|].
  { intros y ->. by apply quiet_high. }
  split; [done|]. split; [done|]. intros j b va Hj _. rewrite /writable (upte_ext s (set_mem _ s)); [done|].
  intros y Hy. apply Hm. intros ->. destruct (quiet_high s fl ps x Hw Hx) as (_ & _ & H). by eapply H.
Qed.

(** The running process [p] is the [i]th of the address spaces [ps]. *)
Record user_ctx (fl : list Z) (ps : list aspace) (p : Z) (i : nat) (a : aspace) (s : kern) : Prop := {
  uc_cur : k_cur s = Some p;
  uc_as : ps !! i = Some a;
  uc_pt : p_pagetable (k_procs s p) = as_root a;
  uc_world : world (k_mem s) fl ps;
  uc_stack : PHYSTOP ≤ p_kstack (k_procs s p) < 2 ^ 63;
}.

Lemma user_ctx_mem fl ps p i a s m fl' :
  user_ctx fl ps p i a s → world m fl' ps → user_ctx fl' ps p i a (set_k_mem m s).
Proof. by intros [H1 H2 H3 H4 H5]. Qed.
Lemma user_ctx_pipes fl ps p i a s q :
  user_ctx fl ps p i a s → user_ctx fl ps p i a (set_k_pipes q s).
Proof. by intros [H1 H2 H3 H4 H5]. Qed.

Lemma wp_in_mem {A} (c : M kst A) (Q : A → kern → Prop) s :
  wp c (λ a m, Q a (set_k_mem m s)) (k_mem s) → wp (in_mem c) Q s.
Proof. apply wp_zoom. Qed.
Lemma wp_pipe_at pi x (Q : pipe → kern → Prop) s : k_pipes s !! pi = Some x → Q x s → wp (pipe_at pi) Q s.
Proof. intros Hx HQ. rewrite /pipe_at. apply wp_bind, wp_gets. by rewrite Hx. Qed.
Lemma wp_upd_pipe pi x f (Q : unit → kern → Prop) s :
  k_pipes s !! pi = Some x → Q tt (set_k_pipes (<[pi := f x]> (k_pipes s)) s) → wp (upd_pipe pi f) Q s.
Proof. intros Hx HQ. rewrite /upd_pipe. apply wp_bind. by eapply wp_pipe_at. Qed.
Lemma wp_myproc p (Q : Z → kern → Prop) s : k_cur s = Some p → Q p s → wp myproc Q s.
Proof. intros Hp HQ. rewrite /myproc. apply wp_bind, wp_gets. by rewrite Hp. Qed.
Lemma wp_local k p (Q : Z → kern → Prop) s :
  k_cur s = Some p → Q (p_kstack (k_procs s p) + k) s → wp (local k) Q s.
Proof. intros Hp HQ. rewrite /local. apply wp_bind. eapply wp_myproc; [done|]. by apply wp_bind, wp_proc_at. Qed.

Section read.
Context (ps : list aspace) (p : Z) (i : nat) (a : aspace) (pi : Z).

(** The outcome of reading up to [k] bytes from pipe [x] to address [base]:
    [j] bytes arrive; the process got the first [j] bytes of the pipe, and the
    other processes see no change; when fewer arrive than could have, the
    byte that met the bad address has left the pipe too. *)
Definition read_post (s : kern) (x : pipe) (base : Z) (k j : nat) (s' : kern) : Prop :=
  ∃ fl' m' x',
    let l := pipe_bytes x in
    let n := (k `min` length l)%nat in
    (j ≤ n)%nat ∧ s' = set_k_pipes (<[pi := x']> (k_pipes s)) (set_k_mem m' s) ∧ world m' fl' ps ∧ pipe_ok x' ∧
    pipe_bytes x' = drop (if decide (j = n) then j else S j) l ∧
    view_write (k_mem s) ps i base (Z.of_nat j) (λ va, nth (Z.to_nat (va - base)) l 0) m' ∧
    perms_kept (k_mem s) ps m' ∧
    ((j < n)%nat → (in_as a (base + Z.of_nat j) → writable (k_mem s) a (base + Z.of_nat j) = false) ∨ fl' = []).

Lemma wp_piperead_loop k s fl x addr i0 :
  user_ctx fl ps p i a s → k_pipes s !! pi = Some x → pipe_ok x → 0 ≤ addr → 0 ≤ i0 →
  addr + i0 + Z.of_nat k < 2 ^ 64 →
  wp (piperead_loop k pi addr i0) (λ r s', ∃ j, r = i0 + Z.of_nat j ∧ read_post s x (addr + i0) k j s') s.
Proof.
  revert s fl x i0. induction k as [|k IH]; intros s fl x i0 Hu Hx Ho Ha Hi Hlt.
  { apply wp_ret. exists 0%nat. split; [lia|]. exists fl, (k_mem s), x. simpl. split; [lia|].
    split; [rewrite insert_id //; by destruct s|]. split; [apply Hu|]. split; [done|]. split; [done|].
    split; [apply view_write_0, same_view_refl|]. split; [done|]. lia. }
  cbn [piperead_loop]. apply wp_bind. eapply wp_pipe_at; [done|]. destruct (Z.eqb_spec (pi_nread x) (pi_nwrite x)) as [He|Hne].
  { apply wp_ret. exists 0%nat. split; [lia|]. apply pipe_empty in He; [|done].
    assert (pipe_bytes x = []) as El. { apply length_zero_iff_nil. pose proof (pipe_bytes_length x). lia. }
    exists fl, (k_mem s), x. simpl. rewrite El. split; [lia|].
    split; [rewrite insert_id //; by destruct s|]. split; [apply Hu|]. split; [done|]. split; [done|].
    split; [apply view_write_0, same_view_refl|]. split; [done|]. simpl. lia. }
  destruct (pipe_take_bytes x Ho Hne) as [Ho' Hl]. pose proof (pipe_next_range x Ho) as Hr.
  apply wp_bind. eapply wp_myproc; [apply Hu|]. apply wp_bind. eapply wp_local; [apply Hu|].
  set (ch := p_kstack (k_procs s p) + LOC_CH). assert (PHYSTOP ≤ ch < 2 ^ 63 + 424) as Hch.
  { destruct (uc_stack _ _ _ _ _ _ Hu). subst ch. lia. }
  destruct (store_high (k_mem s) fl ps ch (pipe_next x)) as (W1 & V1 & P1); [apply Hu|lia|].
  apply wp_bind, wp_in_mem, wp_modify. apply wp_bind. eapply wp_upd_pipe; [done|].
  apply wp_bind, wp_bind, wp_proc_at, wp_ret. simpl. rewrite (uc_pt _ _ _ _ _ _ Hu).
  set (m1 := set_mem (st8 (mem (k_mem s)) ch (pipe_next x)) (k_mem s)) in *.
  apply wp_bind, wp_in_mem. simpl. rewrite /u64 Z.mod_small; [|lia].
  eapply wp_mono; [apply (wp_copyout m1 fl ps i a); [done|apply Hu|lia|lia|lia|lia|]|].
  { intros q Hq. apply quiet_high; [done|lia]. }
  intros r m2 (fl2 & n & W2 & Hn & V2 & P2 & Hcase).
  assert (view_write (k_mem s) ps i (addr + i0) n (λ va, nth (Z.to_nat (va - (addr + i0))) (pipe_bytes x) 0) m2) as V.
  { eapply view_write_pre; [exact V1|]. eapply view_write_ext; [exact V2|]. intros va Hva. unfold span in Hva.
    assert (va = addr + i0) as -> by lia. rewrite Z.sub_diag Hl /= Z.add_0_r /m1 ld8_st8 decide_True // Z.mod_small //. }
  pose proof (perms_kept_trans _ _ _ _ P1 P2) as P. destruct Hcase as [[-> ->]|(-> & Hn0 & Hbad)].
  - change (0 =? -1) with false. cbv iota. eapply wp_mono.
    { apply (IH _ fl2 (pipe_take x) (i0 + 1)); [|by rewrite /= lookup_insert_eq|done|done|lia|lia].
      eapply user_ctx_mem; [|exact W2]. apply user_ctx_pipes. by eapply user_ctx_mem. }
    intros r s' (j & -> & fl' & m' & x' & Hj & -> & W' & Ox & Hb & V' & P' & Hf). exists (S j). split; [lia|].
    exists fl', m', x'. simpl in *. rewrite Hl. cbn [length drop]. split; [lia|].
    split; [rewrite insert_insert_eq; by destruct s|]. split; [done|]. split; [done|].
    replace (addr + (i0 + 1)) with (addr + i0 + 1) in * by lia.
    split; [rewrite Hb; repeat case_decide; try lia; done|]. split; [|split; [by eapply perms_kept_trans|]].
    + replace (Z.of_nat (S j)) with (1 + Z.of_nat j) by lia. rewrite -Hl.
      eapply view_write_app; [lia|lia|exact V|exact V'|]. intros va Hva. unfold span in Hva. cbv beta. rewrite Hl.
      by replace (Z.to_nat (va - (addr + i0))) with (S (Z.to_nat (va - (addr + i0 + 1)))) by lia.
    + intros Hlt'. destruct Hf as [Hf|Hf]; [lia|left|by right]. replace (addr + i0 + Z.of_nat (S j)) with (addr + i0 + 1 + Z.of_nat j) by lia.
      intros Hin. rewrite -(P i a) //; [by apply Hf|apply Hu].
  - change (-1 =? -1) with true. cbv iota. apply wp_ret. exists 0%nat. split; [lia|]. assert (n = 0) as -> by lia.
    exists fl2, m2, (pipe_take x). simpl. rewrite Hl. cbn [length drop]. split; [lia|]. split; [by destruct s|].
    split; [done|]. split; [done|]. split; [done|]. rewrite -Hl. split; [done|]. split; [done|]. intros _.
    destruct Hbad as [Hbad|]; [left|by right]. intros Hin. rewrite -(P1 i a) //; [by apply Hbad|apply Hu].
Qed.

(** C32: [piperead] gives the reader the oldest bytes of the pipe, in order:
    when the pipe is not empty or nobody can write to it any more, [piperead]
    does not sleep; it returns the number [j] of bytes it stored at the
    process's address, at most [n] and at most what the pipe held; no other
    process sees a change; and the pipe keeps the rest.  When [j] is smaller
    than it could be, the address after the last byte is not writable or
    memory has run out, and the pipe has lost the byte that was meant for
    it. *)
Theorem piperead_spec s fl x addr n :
  user_ctx fl ps p i a s → k_pipes s !! pi = Some x → pipe_ok x →
  pipe_bytes x ≠ [] ∨ pi_writeopen x = false → procs_free s → PIPE pi ∉ held s →
  0 ≤ addr → 0 ≤ n → addr + n < 2 ^ 64 →
  wp (piperead pi addr n)
    (λ r s', ∃ j s1, r = Z.of_nat j ∧ read_post s x addr (Z.to_nat n) j s1 ∧
                     k_mem s' = k_mem s1 ∧ k_pipes s' = k_pipes s1 ∧ held s' = held s) s.
Proof.
  intros Hu Hx Ho Hwait Hf Hl Ha Hn Hlt. rewrite /piperead. apply wp_bind, wp_acquire; [done|].
  rewrite {1}/held /=. set (s0 := set_k_held ({[PIPE pi]} ∪ k_held s) s).
  apply wp_bind. cbn [pipe_wait]. apply wp_bind. eapply wp_pipe_at; [done|].
  rewrite (_ : (_ =? _) && _ = false); last first.
  { destruct Hwait as [Hne| ->]; [|by rewrite andb_false_r]. rewrite (proj2 (Z.eqb_neq _ _)); [done|].
    intros He. apply Hne, length_zero_iff_nil. apply pipe_empty in He; [|done]. pose proof (pipe_bytes_length x). lia. }
  apply wp_ret. cbv beta. cbn [negb]. apply wp_bind.
  eapply wp_mono; [apply (wp_piperead_loop _ s0 fl x); [by destruct Hu|done|done|lia|lia|lia]|].
  intros r s1 (j & -> & fl' & m' & x' & Hj & -> & Hpost). rewrite !Z.add_0_r in Hpost.
  apply wp_bind, wp_wakeup.
  { intros q. rewrite /held /s0 /=. intros [?%elem_of_singleton|Hq]%elem_of_union; [done|]. by apply (Hf q). }
  intros pr _. apply wp_bind, wp_release; [rewrite /held /s0 /=; set_solver|]. apply wp_ret.
  exists j, (set_k_pipes (<[pi := x']> (k_pipes s)) (set_k_mem m' s)). split; [lia|].
  split; [by exists fl', m', x'|]. split; [done|]. split; [done|]. rewrite /held /s0 /=. by apply held_restore.
Qed.
End read.

(** One lock is held, and it is not one of the allocator or the file system. *)
Definition at_rest (l : lockid) (s : kern) : Prop := held s = {[l]} ∧ kheld (k_mem s) = ∅ ∧ fheld (k_fs s) = ∅.

Lemma wp_sleep c l p s (Q : unit → kern → Prop) :
  k_cur s = Some p → at_rest l s → l ≠ PROC p →
  (∀ ps, (∀ q, ps q = if decide (q = p) then with_p_state SLEEPING (with_p_chan (Some c) (k_procs s p)) else k_procs s q) →
    wp (others p) (λ _ s2, held s2 = {[PROC p]} ∧
        Q tt (set_k_held {[l]} (set_k_procs (<[p := with_p_chan None (k_procs s2 p)]> (k_procs s2)) s2)))
      (set_k_held {[PROC p]} (set_k_procs ps s))) →
  wp (sleep c l) Q s.
Proof.
  intros Hc (Hh & Hk & Hf) Hne Ho. rewrite /sleep. apply wp_bind. eapply wp_myproc; [done|].
  rewrite /held /= in Hh. apply wp_bind, wp_acquire; [rewrite /held /= Hh; set_solver|].
  apply wp_bind, wp_release; [rewrite /held /= Hh; set_solver|]. apply wp_bind, wp_upd_proc, wp_bind, wp_upd_proc.
  apply wp_bind. rewrite /held /= Hh. rewrite (_ : ({[PROC p]} ∪ {[l]}) ∖ {[l]} = {[PROC p]}); [|set_solver].
  set (ps := <[p := _]> (<[p := _]> _)). specialize (Ho ps).
  match goal with |- wp _ _ ?t => change t with (set_k_held {[PROC p]} (set_k_procs ps s)) end.
  assert (noff (set_k_held {[PROC p]} (set_k_procs ps s)) = 1%nat) as Hno.
  { change (size ({[PROC p]} : gset lockid) + size (kheld (k_mem s)) + size (fheld (k_fs s)) = 1)%nat. rewrite Hk Hf (size_singleton (PROC p)) !size_empty. done. }
  rewrite /sched. apply wp_bind. eapply wp_myproc; [done|]. apply wp_bind, wp_gets.
  rewrite bool_decide_eq_true_2; [|rewrite /held /=; set_solver]. cbn [negb].
  apply wp_bind, wp_gets. rewrite Hno. cbn [negb Nat.eqb].
  apply wp_bind, wp_proc_at. rewrite /is_state.
  case_bool_decide as Hst; [exfalso; rewrite /= /ps fn_lookup_insert in Hst; done|].
  apply wp_bind. rewrite /intr_get. apply wp_gets. rewrite Hno andb_false_r. eapply wp_mono; [apply Ho; intros q; rewrite /ps /insert /fn_insert; repeat case_decide; by try congruence|]. cbv beta. intros _ s2 [Hh2 HQ]. rewrite /held /= in Hh2.
  apply wp_bind, wp_upd_proc, wp_bind, wp_release; [rewrite /held /= Hh2; set_solver|].
  apply wp_acquire; [rewrite /held /= Hh2; set_solver|]. rewrite /held /= Hh2.
  rewrite (_ : {[l]} ∪ {[PROC p]} ∖ {[PROC p]} = {[l]}); [exact HQ|set_solver].
Qed.

Section write.
Context (p : Z) (a : aspace) (pi : Z).

(** The [j] bytes that the process has at [va]. *)
Definition user_bytes (s : kern) (va : Z) (j : nat) : list Z :=
  (λ q, default 0 (uread (k_mem s) a (va + Z.of_nat q))) <$> seq 0 j.

(** Nobody can read from the pipe, or the process was killed. *)
Definition dead (x : pipe) (s : kern) : Prop := pi_readopen x = false ∨ p_killed (k_procs s p) = true.

(** What happens while the process sleeps on the full pipe: readers take some
    of the oldest bytes, or the reading end is closed or the process killed;
    its memory stays as it is. *)
Definition reader_law : Prop := ∀ fl ps i s x,
  user_ctx fl ps p i a s → at_rest (PROC p) s → k_pipes s !! pi = Some x → pipe_ok x → pipe_len x = PIPESIZE →
  p_state (k_procs s p) = SLEEPING → p_chan (k_procs s p) = Some (ChPipeWrite pi) →
  wp (others p) (λ _ s', ∃ fl' ps' i' x' l,
    user_ctx fl' ps' p i' a s' ∧ at_rest (PROC p) s' ∧ (∀ va, uread (k_mem s') a va = uread (k_mem s) a va) ∧
    k_pipes s' !! pi = Some x' ∧ pipe_ok x' ∧ pipe_bytes x = l ++ pipe_bytes x' ∧ (l ≠ [] ∨ dead x' s')) s.

(** The outcome of writing up to [k] bytes at [base], from a state with pipe
    [x]: [j] bytes were appended and [l] was read from the front meanwhile; it
    ended because all were written, because the address after them cannot be
    read, or ([None]) because nobody can read any more or the process was
    killed.  When there is room from the start, nothing else happens. *)
Definition write_post (ps : list aspace) (s : kern) (x : pipe) (base : Z) (k : nat) (r : option nat) (s' : kern) : Prop :=
  ∃ j l fl' ps' i' x',
    (j ≤ k)%nat ∧ user_ctx fl' ps' p i' a s' ∧ k_pipes s' !! pi = Some x' ∧ pipe_ok x' ∧
    pipe_bytes x ++ user_bytes s base j = l ++ pipe_bytes x' ∧
    (∀ va, uread (k_mem s') a va = uread (k_mem s) a va) ∧
    (∀ q, (q < j)%nat → is_Some (uread (k_mem s) a (base + Z.of_nat q))) ∧
    (match r with
     | None => (j < k)%nat ∧ dead x' s'
     | Some j' => j' = j ∧ (dead x s → k = 0%nat) ∧ (¬ dead x s → ¬ dead x' s') ∧
         ((j < k)%nat → uread (k_mem s) a (base + Z.of_nat j) = None)
     end) ∧
    held s' = held s ∧ (dead x s → j = 0%nat ∧ l = []) ∧
    (pipe_len x + Z.of_nat k ≤ PIPESIZE →
       l = [] ∧ ps' = ps ∧ same_view (k_mem s) ps (k_mem s') ps ∧ k_procs s' = k_procs s).

Lemma wp_killed q (Q : bool → kern → Prop) s :
  PROC q ∉ held s → Q (p_killed (k_procs s q)) s → wp (killed q) Q s.
Proof.
  intros Hl HQ. rewrite /killed. apply wp_bind, wp_acquire; [done|]. apply wp_bind, wp_proc_at.
  apply wp_bind, wp_release; [rewrite /held /=; set_solver|]. apply wp_ret. rewrite /held /= held_restore //.
  by destruct s.
Qed.

Lemma user_bytes_S s va j :
  user_bytes s va (S j) = default 0 (uread (k_mem s) a va) ::
    ((λ q, default 0 (uread (k_mem s) a (va + 1 + Z.of_nat q))) <$> seq 0 j).
Proof.
  rewrite /user_bytes. cbn [seq]. rewrite fmap_cons Z.add_0_r. f_equal. rewrite -fmap_S_seq -list_fmap_compose.
  apply list_fmap_ext. intros q z _. simpl. do 2 f_equal. lia.
Qed.

Lemma user_bytes_ext s s' va j :
  (∀ va, uread (k_mem s') a va = uread (k_mem s) a va) → user_bytes s' va j = user_bytes s va j.
Proof. intros Hv. apply list_fmap_ext. intros q z _. by rewrite Hv. Qed.

(** Nothing was written. *)
Lemma write_post_stop ps i fl s m x base k r :
  user_ctx fl ps p i a s → world m fl ps → same_view (k_mem s) ps m ps → k_pipes s !! pi = Some x → pipe_ok x →
  (match r with
   | None => (0 < k)%nat ∧ dead x s
   | Some j' => j' = 0%nat ∧ (dead x s → k = 0%nat) ∧ ((0 < k)%nat → uread (k_mem s) a base = None)
   end) → write_post ps s x base k r (set_k_mem m s).
Proof.
  intros Hu W V Hx Ho Hr. exists 0%nat, [], fl, ps, i, x. split_and!; try done.
  - lia.
  - by eapply user_ctx_mem.
  - by rewrite app_nil_r.
  - intros va. apply (V i a a); apply Hu.
  - lia.
  - destruct r; [|done]. rewrite Z.add_0_r. naive_solver.
Qed.

Lemma write_post_stay ps i fl s x base k r :
  user_ctx fl ps p i a s → k_pipes s !! pi = Some x → pipe_ok x →
  (match r with
   | None => (0 < k)%nat ∧ dead x s
   | Some j' => j' = 0%nat ∧ (dead x s → k = 0%nat) ∧ ((0 < k)%nat → uread (k_mem s) a base = None)
   end) → write_post ps s x base k r s.
Proof.
  intros Hu Hx Ho Hr. replace s with (set_k_mem (k_mem s) s) at 2 by by destruct s.
  eapply write_post_stop; [done|apply Hu|apply same_view_refl|done..].
Qed.

(** One byte, and the rest. *)
Lemma write_post_cons ps s x base k r s1 x1 s' :
  is_Some (uread (k_mem s) a base) → pipe_bytes x1 = pipe_bytes x ++ [default 0 (uread (k_mem s) a base)] →
  same_view (k_mem s) ps (k_mem s1) ps → (∀ va, uread (k_mem s1) a va = uread (k_mem s) a va) →
  held s1 = held s → k_procs s1 = k_procs s → ¬ dead x s → pi_readopen x1 = pi_readopen x →
  write_post ps s1 x1 (base + 1) k r s' → write_post ps s x base (S k) (S <$> r) s'.
Proof.
  intros Hsome Hb Hsv Hv Hh Hpr Hnd Hro (j & l & fl' & ps' & i' & x' & Hj & Hu & Hx & Ho & Hl & Hv' & Hs & Hr & Hh' & _ & Hroom).
  exists (S j), l, fl', ps', i', x'. split_and!; try done.
  - lia.
  - rewrite -Hl Hb -app_assoc. f_equal. rewrite user_bytes_S /=. f_equal. rewrite /user_bytes. apply list_fmap_ext. intros q z _.
    by rewrite Hv.
  - intros va. by rewrite Hv'.
  - intros [|q] Hq; [by rewrite Z.add_0_r|]. rewrite -Hv. replace (base + Z.of_nat (S q)) with (base + 1 + Z.of_nat q) by lia. apply Hs. lia.
  - destruct r as [j'|]; simpl; [|destruct Hr; split; [lia|done]]. destruct Hr as (-> & _ & Hd & Hn). split_and!; [done|done| |].
    + intros _. apply Hd. by rewrite /dead Hro Hpr.
    + intros Hlt. rewrite -Hv. replace (base + Z.of_nat (S j)) with (base + 1 + Z.of_nat j) by lia. apply Hn. lia.
  - by rewrite Hh'.
  - intros Hr'. destruct Hroom as (H1 & -> & H3 & H4).
    { pose proof (pipe_bytes_length x). pose proof (pipe_bytes_length x1) as Hl1. rewrite Hb length_app /= in Hl1. lia. }
    split_and!; [done|done|by eapply same_view_trans|congruence].
Qed.

(** After a sleep on the full pipe. *)
Lemma write_post_slept ps s x base k r ps1 s1 x1 l1 s' :
  pipe_len x = PIPESIZE → (0 < k)%nat → ¬ dead x s →
  pipe_bytes x = l1 ++ pipe_bytes x1 → (∀ va, uread (k_mem s1) a va = uread (k_mem s) a va) → held s1 = held s →
  write_post ps1 s1 x1 base k r s' → write_post ps s x base k r s'.
Proof.
  intros Hfull Hk Hnd Hb Hv Hh (j & l & fl' & ps' & i' & x' & Hj & Hu & Hx & Ho & Hl & Hv' & Hs & Hr & Hh' & _).
  exists j, (l1 ++ l), fl', ps', i', x'. split_and!; try done.
  - rewrite Hb -!app_assoc -Hl. do 2 f_equal. symmetry. by apply user_bytes_ext.
  - intros va. by rewrite Hv'.
  - intros q Hq. rewrite -Hv. by apply Hs.
  - destruct r as [j'|]; [|done]. destruct Hr as (-> & Hz & Hd & Hn). rewrite -Hv. split_and!; [done|done| |done].
    intros _. apply Hd. intros Hd1. specialize (Hz Hd1). lia.
  - by rewrite Hh'.
  - lia.
Qed.

(** One round of the loop that finds room. *)
Lemma wp_write_byte_loop fl ps i s x addr i0 k fuel (Q : option Z → kern → Prop) :
  user_ctx fl ps p i a s → k_pipes s !! pi = Some x → pipe_ok x → ¬ dead x s → PROC p ∉ held s → pipe_len x ≠ PIPESIZE →
  0 ≤ addr → 0 ≤ i0 → addr + i0 < 2 ^ 64 - 1 →
  (uread (k_mem s) a (addr + i0) = None → ∀ m, only_mem (k_mem s) m → world m fl ps → same_view (k_mem s) ps m ps → Q (Some i0) (set_k_mem m s)) →
  (is_Some (uread (k_mem s) a (addr + i0)) → ∀ m, only_mem (k_mem s) m → world m fl ps → same_view (k_mem s) ps m ps →
    wp (pipewrite_loop fuel pi addr (i0 + 1) (i0 + Z.of_nat (S k))) Q
      (set_k_pipes (<[pi := pipe_put (default 0 (uread (k_mem s) a (addr + i0))) x]> (k_pipes s)) (set_k_mem m s))) →
  wp (pipewrite_loop (S fuel) pi addr i0 (i0 + Z.of_nat (S k))) Q s.
Proof.
  intros Hu Hx Ho Hnd Hf Hroom Ha Hi Hlt HQ0 HQ1. cbn [pipewrite_loop]. rewrite (proj2 (Z.ltb_lt _ _)); [|lia].
  apply wp_bind. eapply wp_pipe_at; [done|]. apply wp_bind. eapply wp_myproc; [apply Hu|].
  assert (pi_readopen x = true ∧ p_killed (k_procs s p) = false) as [Hopen Hk].
  { rewrite /dead in Hnd. destruct (pi_readopen x), (p_killed (k_procs s p)); naive_solver. }
  rewrite Hopen. cbn [negb]. apply wp_bind, wp_killed; [done|]. rewrite Hk. cbv iota.
  destruct (Z.eqb_spec (pi_nwrite x) (u32 (pi_nread x + PIPESIZE))) as [He|Hne]; [by apply pipe_full in He|].
  apply wp_bind. eapply wp_local; [apply Hu|]. set (ch := p_kstack (k_procs s p) + LOC_CH).
  assert (PHYSTOP ≤ ch < 2 ^ 63 + 424) as Hch. { destruct (uc_stack _ _ _ _ _ _ Hu). subst ch. lia. }
  apply wp_bind, wp_bind, wp_proc_at, wp_ret. rewrite (uc_pt _ _ _ _ _ _ Hu). rewrite /u64 Z.mod_small; [|lia].
  apply wp_bind, wp_in_mem. eapply wp_mono; [apply (wp_copyin (k_mem s) fl ps i a); [apply Hu|apply Hu|lia|lia|lia|lia|]|].
  { intros q Hq. apply quiet_high; [apply Hu|lia]. }
  intros r m ((n & W1 & V1 & Hn & Hr & Hsome & [[-> ->]|(-> & Hn0 & Hnone)]) & Hom).
  - change (0 =? -1) with false. cbv iota. apply wp_bind, wp_in_mem, wp_gets. cbv beta.
    assert (ld8 (mem m) ch = default 0 (uread (k_mem s) a (addr + i0))) as Hc.
    { rewrite Hr decide_True; [|unfold span; lia]. by rewrite Z.sub_diag Z.add_0_r. }
    cbn [k_mem set_k_mem]. rewrite Hc. apply wp_bind. eapply wp_upd_pipe; [done|]. specialize (Hsome 0 ltac:(lia)). rewrite Z.add_0_r in Hsome.
    by apply HQ1.
  - change (-1 =? -1) with true. cbv iota. apply wp_ret. assert (n = 0) as -> by lia. rewrite Z.add_0_r in Hnone. by apply HQ0.
Qed.

(** What the loop needs to sleep, and how far it goes on. *)
Definition may_sleep (x : pipe) (k fuel : nat) (s : kern) : Prop :=
  PIPESIZE < pipe_len x + Z.of_nat k → at_rest (PIPE pi) s ∧ reader_law ∧ (2 * k < fuel)%nat.

Definition loop_spec (k : nat) : Prop := ∀ fuel fl ps i s x addr i0,
  user_ctx fl ps p i a s → k_pipes s !! pi = Some x → pipe_ok x → procs_free s → 0 ≤ addr → 0 ≤ i0 →
  addr + i0 + Z.of_nat k < 2 ^ 64 → (k < fuel)%nat → may_sleep x k fuel s →
  wp (pipewrite_loop fuel pi addr i0 (i0 + Z.of_nat k))
    (λ r s', ∃ r', r = (λ j : nat, i0 + Z.of_nat j) <$> r' ∧ write_post ps s x (addr + i0) k r' s') s.

Lemma wp_write_dead k fuel fl ps i s x addr i0 :
  user_ctx fl ps p i a s → k_pipes s !! pi = Some x → pipe_ok x → procs_free s → dead x s →
  wp (pipewrite_loop (S fuel) pi addr i0 (i0 + Z.of_nat (S k)))
    (λ r s', ∃ r', r = (λ j : nat, i0 + Z.of_nat j) <$> r' ∧ write_post ps s x (addr + i0) (S k) r' s') s.
Proof.
  intros Hu Hx Ho Hf Hd. cbn [pipewrite_loop]. rewrite (proj2 (Z.ltb_lt _ _)); [|lia].
  apply wp_bind. eapply wp_pipe_at; [done|]. apply wp_bind. eapply wp_myproc; [apply Hu|]. apply wp_bind.
  assert (write_post ps s x (addr + i0) (S k) None s) as Hp by (eapply write_post_stay; [done..|]; split; [lia|done]).
  destruct (pi_readopen x) eqn:Er; cbn [negb].
  - apply wp_killed; [apply Hf|]. destruct Hd as [?|Hk]; [congruence|]. rewrite Hk. apply wp_ret. by exists None.
  - apply wp_ret. apply wp_ret. by exists None.
Qed.

(** A round that does not sleep. *)
Lemma wp_write_round k fuel fl ps i s x addr i0 :
  loop_spec k → user_ctx fl ps p i a s → k_pipes s !! pi = Some x → pipe_ok x → procs_free s →
  dead x s ∨ pipe_len x ≠ PIPESIZE → 0 ≤ addr → 0 ≤ i0 → addr + i0 + Z.of_nat (S k) < 2 ^ 64 → (k < fuel)%nat →
  may_sleep x (S k) (S (S fuel)) s →
  wp (pipewrite_loop (S fuel) pi addr i0 (i0 + Z.of_nat (S k)))
    (λ r s', ∃ r', r = (λ j : nat, i0 + Z.of_nat j) <$> r' ∧ write_post ps s x (addr + i0) (S k) r' s') s.
Proof.
  intros IH Hu Hx Ho Hf Hc Ha Hi Hlt Hfuel Hsl. destruct (decide (dead x s)) as [Hd|Hd]; [by eapply wp_write_dead|].
  destruct Hc as [?|Hroom]; [done|]. eapply wp_write_byte_loop; [done|done|done|done|apply Hf|done|done|done|lia| |].
  - intros Hnone m Hom W V. exists (Some 0%nat). split; [simpl; f_equal; lia|].
    eapply write_post_stop; [done..|]. split_and!; [done|done|]. intros _. by rewrite Hnone.
  - intros Hsome m Hom W V. set (c := default 0 _). set (s1 := set_k_pipes _ _).
    assert (0 ≤ c < 256) as Hcr.
    { subst c. rewrite /uread. case_bool_decide; [|done]. case_match; [|done]. apply ld8_bound. }
    destruct (pipe_put_bytes x c Ho) as [Ho' Hb]; [by rewrite pipe_full|done|].
    assert (pipe_len (pipe_put c x) = pipe_len x + 1) as Hlen. { rewrite -!pipe_bytes_length Hb length_app /=. lia. }
    replace (i0 + Z.of_nat (S k)) with (i0 + 1 + Z.of_nat k) by lia. eapply wp_mono.
    { apply (IH fuel fl ps i s1 (pipe_put c x) addr (i0 + 1)); try done; try lia.
      - destruct Hu. by split.
      - by rewrite /s1 /= lookup_insert_eq.
      - intros Hs. destruct Hsl as ((R1 & R2 & R3) & Hr & Hfl); [lia|]. split_and!; [|done|lia].
        split_and!; [done| |done]. rewrite /s1 /=. by rewrite Hom. }
    intros r s' (r' & -> & Hp). exists (S <$> r'). split; [destruct r'; simpl; f_equal; lia|].
    replace (addr + (i0 + 1)) with (addr + i0 + 1) in Hp by lia.
    eapply write_post_cons; [done|exact Hb| | | | | | |exact Hp]; try done. intros va. apply (V i a a); apply Hu.
Qed.

(** [wakeup] by process [p] leaves [p] alone. *)
Lemma wakeup_self c ps s :
  k_cur s = Some p → (∀ q, ps q = if decide (0 ≤ q < NPROC) then woken c (k_cur s) q (k_procs s q) else k_procs s q) →
  ps p = k_procs s p.
Proof. intros Hc Hps. rewrite Hps Hc /woken bool_decide_eq_true_2 //. by case_decide. Qed.

Lemma wp_pipewrite_loop k : loop_spec k.
Proof.
  induction k as [|k IH]; intros [|fuel] fl ps i s x addr i0 Hu Hx Ho Hf Ha Hi Hlt Hfuel Hsl; try lia.
  { cbn [pipewrite_loop]. rewrite (proj2 (Z.ltb_ge _ _)); [|lia]. apply wp_ret. exists (Some 0%nat). split; [simpl; f_equal; lia|].
    eapply write_post_stay; [done..|]. split_and!; [done|done|lia]. }
  destruct (decide (dead x s)) as [Hd|Hd]; [by eapply wp_write_dead|].
  destruct (decide (pipe_len x = PIPESIZE)) as [Hfull|Hroom].
  2:{ eapply wp_write_round; [done..|by right|done|done|done|lia|]. intros Hs. destruct (Hsl Hs) as (? & ? & ?). split_and!; [done..|lia]. }
  destruct Hsl as (Hrest & Hread & H2k); [lia|]. cbn [pipewrite_loop]. rewrite (proj2 (Z.ltb_lt _ _)); [|lia].
  apply wp_bind. eapply wp_pipe_at; [done|]. apply wp_bind. eapply wp_myproc; [apply Hu|].
  assert (pi_readopen x = true ∧ p_killed (k_procs s p) = false) as [Hopen Hk].
  { rewrite /dead in Hd. destruct (pi_readopen x), (p_killed (k_procs s p)); naive_solver. }
  rewrite Hopen. cbn [negb]. apply wp_bind, wp_killed; [apply Hf|]. rewrite Hk. cbv iota.
  rewrite (proj2 (Z.eqb_eq _ _)); [|by apply pipe_full]. apply wp_bind, wp_wakeup; [done|]. intros ps1 Hps1.
  pose proof (wakeup_self _ _ _ (uc_cur _ _ _ _ _ _ Hu) Hps1) as Hself. pose proof Hrest as (R1 & R2 & R3).
  apply wp_bind, (wp_sleep _ _ p); [apply Hu|done|done|]. intros ps2 Hps2. simpl in Hps2.
  assert (ps2 p = with_p_state SLEEPING (with_p_chan (Some (ChPipeWrite pi)) (k_procs s p))) as Hp2.
  { rewrite Hps2 decide_True // Hself //. }
  eapply wp_mono; [eapply (Hread fl ps i _ x)|]; try done.
  - destruct Hu as [U1 U2 U3 U4 U5]. split; simpl; rewrite ?Hp2 //.
  - by simpl; rewrite Hp2.
  - by simpl; rewrite Hp2.
  - simpl. intros _ s3 (fl3 & ps3 & i3 & x3 & l3 & Hu3 & (T1 & T2 & T3) & Hv3 & Hx3 & Ho3 & Hb3 & Hc3). split; [done|].
    set (s4 := set_k_held _ _). destruct fuel as [|fuel]; [lia|].
    assert (k_procs s4 p = with_p_chan None (k_procs s3 p)) as Hp4 by by rewrite /s4 /= fn_lookup_insert.
    eapply wp_mono; [eapply (wp_write_round k fuel fl3 ps3 i3 s4 x3); [done| |done|done| | |done|done|done|lia|]|].
    + destruct Hu3 as [U1 U2 U3 U4 U5]. split; rewrite ?Hp4 //.
    + intros q. rewrite /s4 /held /=. by intros ?%elem_of_singleton.
    + destruct Hc3 as [Hl3|Hd3]; [right|left].
      * pose proof (pipe_bytes_length x) as L1. pose proof (pipe_bytes_length x3) as L2. rewrite Hb3 length_app in L1.
        destruct l3; [done|]. simpl in L1. lia.
      * rewrite /dead Hp4. exact Hd3.
    + intros _. split_and!; [by split|done|lia].
    + intros r s' (r' & -> & Hp). exists r'. split; [done|].
      eapply (write_post_slept ps s x _ _ _ ps3 s4 x3 l3); [done|lia|done|done|exact Hv3| |exact Hp]. by rewrite R1.
Qed.

(** C33: [pipewrite] appends the process's bytes to the pipe, in order.  What
    was in the pipe, followed by the [j] bytes that the process has at the
    address, is what readers took from the pipe while it slept, followed by
    what is in the pipe now.  It returns -1 exactly when, before all bytes
    were written, the reading end was closed or the process was killed;
    otherwise it returns [j], which is [n] or smaller because the address
    after these bytes is not readable.  With room for [n] bytes it does not
    sleep, and no process sees a change; otherwise it sleeps whenever the pipe
    is full, with no other lock held, and returns provided that each time a
    reader takes something, or closes the pipe, or the process is killed. *)
Theorem pipewrite_spec fl ps i s x addr n :
  user_ctx fl ps p i a s → k_pipes s !! pi = Some x → pipe_ok x → procs_free s → PIPE pi ∉ held s →
  0 ≤ addr → 0 ≤ n → addr + n < 2 ^ 64 →
  (PIPESIZE < pipe_len x + n →
     held s = ∅ ∧ kheld (k_mem s) = ∅ ∧ fheld (k_fs s) = ∅ ∧ reader_law ∧ n ≤ Z.of_nat patience) →
  wp (pipewrite pi addr n) (λ r s', ∃ j l x', (j ≤ Z.to_nat n)%nat ∧
    k_pipes s' !! pi = Some x' ∧ pipe_ok x' ∧ pipe_bytes x ++ user_bytes s addr j = l ++ pipe_bytes x' ∧
    (∀ q, (q < j)%nat → is_Some (uread (k_mem s) a (addr + Z.of_nat q))) ∧
    ((r = -1 ∧ Z.of_nat j < n ∧ dead x' s') ∨
     (r = Z.of_nat j ∧ (0 < n → ¬ dead x' s') ∧ (r < n → uread (k_mem s) a (addr + r) = None))) ∧
    (dead x s → j = 0%nat ∧ l = []) ∧
    (pipe_len x + n ≤ PIPESIZE → l = [] ∧ same_view (k_mem s) ps (k_mem s') ps) ∧ held s' = held s) s.
Proof.
  intros Hu Hx Ho Hf Hl Ha Hn Hlt Hsl. rewrite /pipewrite. apply wp_bind, wp_acquire; [done|].
  rewrite {1}/held /=. set (s0 := set_k_held ({[PIPE pi]} ∪ k_held s) s).
  assert (procs_free s0) as Hf0.
  { intros q. rewrite /held /s0 /=. intros [?%elem_of_singleton|Hq]%elem_of_union; [done|]. by apply (Hf q). }
  pose proof (wp_pipewrite_loop (Z.to_nat n) (S (patience + Z.to_nat n)) fl ps i s0 x addr 0) as Hw.
  rewrite Z2Nat.id // Z.add_0_l Z.add_0_r in Hw. apply wp_bind. eapply wp_mono; [apply Hw; try done; [by destruct Hu|lia|]|].
  { intros Hs. destruct Hsl as (H1 & H2 & H3 & H4 & H5); [lia|]. split_and!; [|done|lia]. split_and!; [|done|done].
    rewrite /held /s0 /=. rewrite /held /= in H1. rewrite H1. set_solver. }
  intros r s1 (r' & -> & j & l & fl' & ps' & i' & x' & Hj & Hu' & Hx' & Ho' & Hb & _ & Hs & Hr & Hh & Hd0 & Hroom).
  assert (PIPE pi ∈ held s1) as Hin by (rewrite Hh /held /s0 /=; set_solver).
  assert (held s1 ∖ {[PIPE pi]} = held s) as Hrel by (rewrite Hh /s0 /held /=; by apply held_restore).
  assert (∀ s2, k_mem s2 = k_mem s1 → pipe_len x + n ≤ PIPESIZE → l = [] ∧ same_view (k_mem s) ps (k_mem s2) ps) as Hro.
  { intros s2 -> Hle. destruct Hroom as (-> & _ & Hv & _); [lia|done]. }
  destruct r' as [j'|]; simpl.
  - destruct Hr as (-> & Hz & Hnd & Hnone). apply wp_bind, wp_wakeup; [intros q; rewrite Hh; apply Hf0|]. intros ps1 Hps1.
    pose proof (wakeup_self _ _ _ (uc_cur _ _ _ _ _ _ Hu') Hps1) as Hself.
    apply wp_bind, wp_release; [done|]. apply wp_ret. exists j, l, x'. split_and!; try done; [|by apply Hro].
    right. split_and!; [done| |].
    + intros Hpos. rewrite /dead /= Hself. apply Hnd. intros Hdead. specialize (Hz Hdead). lia.
    + intros Hjn. apply Hnone. lia.
  - destruct Hr as [Hjk Hdead]. apply wp_bind, wp_release; [done|]. apply wp_ret. exists j, l, x'.
    split_and!; try done; [|by apply Hro]. left. split_and!; [done|lia|done].
Qed.
End write.
End transfer.

(** ** A concrete run *)

(** The parent of the small machine runs; the pipe holds "ab" across the end
    of the ring, its read counter about to wrap around. *)
Definition demo_pipe : pipe := mk_pipe (<[511 := 97]> (<[0 := 98]> ∅)) (2 ^ 32 - 1) 1 true true.
Definition demo_run : kern :=
  set_k_pipes {[ 0x87fc6000 := demo_pipe ]}
    (set_k_cur (Some 0)
       (set_k_procs (<[0 := with_p_kstack (KSTACK 0) (with_p_pagetable pA2 (with_p_state RUNNING proc0))]> (λ _, proc0))
          (set_k_mem run_w kern0))).

Lemma demo_pipe_ok : pipe_ok demo_pipe.
Proof.
  split; [by vm_compute..|]. intros k v. rewrite /demo_pipe /= !lookup_insert_Some lookup_empty. naive_solver lia.
Qed.
Lemma demo_ctx : @user_ctx small_image fl2 demo_ps 0 0 demo_parent demo_run.
Proof. split; [done|done|done|exact run_w_world|by vm_compute]. Qed.

Lemma piperead_witness :
  pipe_bytes demo_pipe = [97; 98] ∧
  wp (@piperead small_image no_others 0x87fc6000 100 8)
    (λ r s', ∃ j s1, r = Z.of_nat j ∧
       @read_post small_image demo_ps 0 demo_parent 0x87fc6000 demo_run demo_pipe 100 8 j s1 ∧
       k_mem s' = k_mem s1 ∧ k_pipes s' = k_pipes s1 ∧ held s' = held demo_run) demo_run.
Proof.
  split; [reflexivity|].
  apply (@piperead_spec small_image no_others demo_ps 0 0 demo_parent 0x87fc6000 demo_run fl2 demo_pipe 100 8).
  - exact demo_ctx.
  - reflexivity.
  - exact demo_pipe_ok.
  - left. by vm_compute.
  - intros q. apply not_elem_of_empty.
  - apply not_elem_of_empty.
  - lia.
  - lia.
  - lia.
Defined.

(** A reader that takes a byte while the writer sleeps. *)
Definition one_reader : Others := {| others _ := upd_pipe 0x87fc6000 pipe_take; patience := 8 |}.

Definition full_pipe : pipe := mk_pipe ∅ (2 ^ 32 - 1) 510 true true.
Definition full_run : kern := set_k_pipes {[ 0x87fc6000 := full_pipe ]} demo_run.

Lemma one_reader_law : @reader_law small_image one_reader 0 demo_parent 0x87fc6000.
Proof.
  intros fl ps i s x Hu (H1 & H2 & H3) Hx Ho Hfull _ _. eapply wp_upd_pipe; [done|].
  destruct (pipe_take_bytes x Ho) as [Ho' Hb].
  { intros He%pipe_empty; [lia|done]. }
  exists fl, ps, i, (pipe_take x), [pipe_next x]. split_and!; try done.
  - destruct Hu. by split.
  - by rewrite /= lookup_insert_eq.
  - by left.
Qed.

(** The pipe holds 511 bytes, and the writer has eight. *)
Lemma pipewrite_witness :
  wp (@pipewrite one_reader 0x87fc6000 100 8) (λ r s', ∃ j l x',
    (j ≤ 8)%nat ∧ k_pipes s' !! 0x87fc6000 = Some x' ∧ pipe_ok x' ∧
    pipe_bytes full_pipe ++ user_bytes demo_parent full_run 100 j = l ++ pipe_bytes x' ∧
    ((r = -1 ∧ Z.of_nat j < 8 ∧ dead 0 x' s') ∨
     (r = Z.of_nat j ∧ ¬ dead 0 x' s' ∧ (r < 8 → uread (k_mem full_run) demo_parent (100 + r) = None)))) full_run.
Proof.
  eapply wp_mono; [apply (@pipewrite_spec small_image one_reader 0 demo_parent 0x87fc6000 fl2 demo_ps 0 full_run full_pipe 100 8)|].
  - split; [done|done|done|exact run_w_world|by vm_compute].
  - reflexivity.
  - split; [by vm_compute..|]. intros k v. by rewrite /full_pipe /= lookup_empty.
  - intros q. apply not_elem_of_empty.
  - apply not_elem_of_empty.
  - lia.
  - lia.
  - lia.
  - intros _. split_and!; [done|done|done|exact one_reader_law|done].
  - cbv beta. intros r s' (j & l & x' & Hj & Hx & Ho & Hb & _ & Hr & _). exists j, l, x'. split_and!; [done..|].
    destruct Hr as [?|(? & Hd & ?)]; [by left|right]. split_and!; [done|by apply Hd|done].
Defined.
