(* ===== verification/File.v ===== *)
(** * The file table (kernel/file.c, and pipealloc of kernel/pipe.c)

    Reference counted files, and the dispatch of reads, writes and closes to
    pipes, devices and inodes. *)

From stdpp Require Import functions list.
From S2P Require Import Prelude Mem Cstring Riscv Spinlock Kalloc Vm Uvm Cow Sleeplock Bio Bcache Log Fs Virtio State Sched Dir Console Pipe.

Local Open Scope Z_scope.

Definition fileinit : M kern unit := modify (λ s, set_held (held s ∖ {[FTABLE]}) s).

Fixpoint filealloc_loop (n : nat) (f : Z) : M kern (option Z) :=
  match n with
  | O => mret None
  | S n' =>
      x ← file_at f;
      if f_ref x =? 0 then
        upd_file f (with_f_ref 1);;
        mret (Some f)
      else filealloc_loop n' (f + 1)
  end.

Definition filealloc : M kern (option Z) :=
  acquire FTABLE;;
  r ← filealloc_loop (Z.to_nat NFILE) 0;
  release FTABLE;;
  mret r.

Definition filedup (f : Z) : M kern Z :=
  acquire FTABLE;;
  x ← file_at f;
  if f_ref x <? 1 then panic "filedup"
  else
    upd_file f (λ x, with_f_ref (f_ref x + 1) x);;
    release FTABLE;;
    mret f.

Section file.
Context {KI : KernelImage} {KS : KernelSyms} {OT : Others}.

Definition fileclose (f : Z) : M kern unit :=
  acquire FTABLE;;
  x ← file_at f;
  if f_ref x <? 1 then panic "fileclose"
  else
    upd_file f (λ x, with_f_ref (f_ref x - 1) x);;
    x ← file_at f;
    if 0 <? f_ref x then release FTABLE
    else
      let ff := x in
      upd_file f (with_f_ref 0);;
      upd_file f (with_f_type FD_NONE);;
      release FTABLE;;
      match f_type ff with
      | FD_PIPE => pipeclose (f_pipe ff) (f_writable ff)
      | FD_INODE | FD_DEVICE =>
          in_fs begin_op;;
          in_fs (iput (f_ip ff));;
          in_fs end_op
      | FD_NONE => mret tt
      end.

(** [bad:] of [pipealloc] *)
Definition pipealloc_bad (f0 f1 : option Z) : M kern (option (Z * Z)) :=
  (match f0 with Some f => fileclose f | None => mret tt end);;
  (match f1 with Some f => fileclose f | None => mret tt end);;
  mret None.

Definition set_pipe_file (f : Z) (readable : bool) (pi : Z) : M kern unit :=
  upd_file f (with_f_type FD_PIPE);;
  upd_file f (with_f_readable readable);;
  upd_file f (with_f_writable (negb readable));;
  upd_file f (with_f_pipe pi).

(** The two files, or [None] for -1. *)
Definition pipealloc : M kern (option (Z * Z)) :=
  f0 ← filealloc;
  match f0 with
  | None => pipealloc_bad None None
  | Some rf =>
      f1 ← filealloc;
      match f1 with
      | None => pipealloc_bad f0 None
      | Some wf =>
          pi ← in_mem kalloc;
          if pi =? 0 then pipealloc_bad f0 f1
          else
            modify (λ s, set_k_pipes (<[pi := mk_pipe ∅ 0 0 true true]> (k_pipes s)) s);;
            modify (λ s, set_held (held s ∖ {[PIPE pi]}) s);;
            set_pipe_file rf true pi;;
            set_pipe_file wf false pi;;
            mret (Some (rf, wf))
      end
  end.

(** The bytes of a [struct stat] at [a]. *)
Definition put_stat (a : Z) (st : stat) (m : gmap Z Z) : gmap Z Z :=
  st64 (st16 (st16 (st32 (st32 m a (st_dev st)) (a + 4) (st_ino st)) (a + 8) (st_type st)) (a + 10) (st_nlink st))
    (a + 16) (st_size st).
Notation SIZEOF_STAT := 24.

Definition filestat (f addr : Z) : M kern Z :=
  p ← myproc;
  x ← file_at f;
  match f_type x with
  | FD_INODE | FD_DEVICE =>
      st ← local LOC_ST;
      in_fs (ilock (f_ip x));;
      v ← in_fs (stati (f_ip x));
      in_mem (modify (λ s, set_mem (put_stat st v (mem s)) s));;
      in_fs (iunlock (f_ip x));;
      pt ← (y ← proc_at p; mret (p_pagetable y));
      r ← in_mem (copyout pt pt addr st SIZEOF_STAT);
      if r <? 0 then mret (-1) else mret 0
  | _ => mret (-1)
  end.

(** The read function of device [major], if there is one. *)
Definition dev_reader (major : Z) : M kern (option devread) :=
  if (major <? 0) || (NDEV <=? major) then mret None else gets (λ s, dev_read (k_devsw s major)).
Definition dev_writer (major : Z) : M kern (option devwrite) :=
  if (major <? 0) || (NDEV <=? major) then mret None else gets (λ s, dev_write (k_devsw s major)).

Definition fileread (f addr n : Z) : M kern Z :=
  x ← file_at f;
  if negb (f_readable x) then mret (-1)
  else
    match f_type x with
    | FD_PIPE => piperead (f_pipe x) addr n
    | FD_DEVICE =>
        d ← dev_reader (f_major x);
        match d with
        | Some DR_consoleread => consoleread true addr n
        | None => mret (-1)
        end
    | FD_INODE =>
        in_fs (ilock (f_ip x));;
        off ← (y ← file_at f; mret (f_off y));
        r ← readi (f_ip x) true addr off (u32 n);
        (if 0 <? s32 r then upd_file f (λ y, with_f_off (u32 (f_off y + r)) y) else mret tt);;
        in_fs (iunlock (f_ip x));;
        mret (s32 r)
    | FD_NONE => panic "fileread"
    end.

(** [((MAXOPBLOCKS-1-1-2) / 2) * BSIZE] *)
Definition max_write : Z := (MAXOPBLOCKS - 1 - 1 - 2) / 2 * BSIZE.

(** The value of [i] after the loop. *)
Fixpoint filewrite_loop (fuel : nat) (f ip addr i n : Z) : M kern Z :=
  match fuel with
  | O => out_of_fuel
  | S fuel' =>
      if i <? n then
        let n1 := Z.min (n - i) max_write in
        in_fs begin_op;;
        in_fs (ilock ip);;
        off ← (y ← file_at f; mret (f_off y));
        r ← writei ip true (u64 (addr + i)) off n1;
        (if 0 <? r then upd_file f (λ y, with_f_off (u32 (f_off y + r)) y) else mret tt);;
        in_fs (iunlock ip);;
        in_fs end_op;;
        if negb (r =? n1) then mret i
        else filewrite_loop fuel' f ip addr (i + r) n
      else mret i
  end.

Definition filewrite (f addr n : Z) : M kern Z :=
  x ← file_at f;
  if negb (f_writable x) then mret (-1)
  else
    match f_type x with
    | FD_PIPE => pipewrite (f_pipe x) addr n
    | FD_DEVICE =>
        d ← dev_writer (f_major x);
        match d with
        | Some DW_consolewrite => consolewrite true addr n
        | None => mret (-1)
        end
    | FD_INODE =>
        i ← filewrite_loop (S (S (Z.to_nat (n / max_write)))) f (f_ip x) addr 0 n;
        mret (if i =? n then n else -1)
    | FD_NONE => panic "filewrite"
    end.
End file.
