(* ===== verification/Proc.v ===== *)
(** * Processes (kernel/proc.c and the kernel page table of kernel/vm.c)

    Allocation and release of process table slots, fork, exit, wait, and the
    kernel page table with the kernel stacks.  [exit] is split at its call of
    [sched]: [exit_enter] is all that it does before. *)

From stdpp Require Import functions list.
From S2P Require Import Prelude Mem Cstring Riscv Spinlock Kalloc Vm Uvm Cow Usermem Demo Sleeplock Bio Bcache Log Fs Virtio State Sched Dir Console Pipe File.

Local Open Scope Z_scope.

Notation UART0 := 0x10000000.
Notation VIRTIO0 := 0x10001000.
Notation PLIC := 0x0c000000.
Notation SATP_SV39 := 0x8000000000000000.

Definition MAKE_SATP (pagetable : Z) : Z := Z.lor SATP_SV39 (Z.shiftr pagetable 12).

(** [safestrcpy(p->name, s, sizeof(p->name))] of the string [l]. *)
Definition proc_name (l : list Z) : list Z := take 15 l.

(** [sizeof(struct trapframe)] *)
Notation SIZEOF_TRAPFRAME := 288.

Definition initcode : list Z :=
  [0x17; 0x05; 0x00; 0x00; 0x13; 0x05; 0x45; 0x02;
   0x97; 0x05; 0x00; 0x00; 0x93; 0x85; 0x35; 0x02;
   0x93; 0x08; 0x70; 0x00; 0x73; 0x00; 0x00; 0x00;
   0x93; 0x08; 0x20; 0x00; 0x73; 0x00; 0x00; 0x00;
   0xef; 0xf0; 0x9f; 0xff; 0x2f; 0x69; 0x6e; 0x69;
   0x74; 0x00; 0x00; 0x24; 0x00; 0x00; 0x00; 0x00;
   0x00; 0x00; 0x00; 0x00].

Section kvm.
Context {KI : KernelImage}.

Definition proc_mapstacks (kpgtbl : Z) : M kst unit :=
  for_upto 0 NPROC (λ p,
    pa ← kalloc;
    if pa =? 0 then panic "kalloc"
    else kvmmap kpgtbl (KSTACK p) pa PGSIZE (Z.lor PTE_R PTE_W)).

Definition kvmmake : M kst Z :=
  kpgtbl ← kalloc;
  kmemset kpgtbl 0 PGSIZE;;
  kvmmap kpgtbl UART0 UART0 PGSIZE (Z.lor PTE_R PTE_W);;
  kvmmap kpgtbl VIRTIO0 VIRTIO0 PGSIZE (Z.lor PTE_R PTE_W);;
  kvmmap kpgtbl PLIC PLIC 0x400000 (Z.lor PTE_R PTE_W);;
  kvmmap kpgtbl KERNBASE KERNBASE (etext - KERNBASE) (Z.lor PTE_R PTE_X);;
  kvmmap kpgtbl etext etext (PHYSTOP - etext) (Z.lor PTE_R PTE_W);;
  kvmmap kpgtbl TRAMPOLINE trampoline PGSIZE (Z.lor PTE_R PTE_X);;
  proc_mapstacks kpgtbl;;
  mret kpgtbl.

Definition kvminit : M kern unit :=
  kpgtbl ← in_mem kvmmake;
  modify (set_k_pagetable kpgtbl).

Definition kvminithart : M kern unit :=
  kpgtbl ← gets k_pagetable;
  upd_csr (with_c_satp (MAKE_SATP kpgtbl)).

(** ** Page tables of processes *)

Definition proc_pagetable (trapframe : Z) : M kst Z :=
  pagetable ← uvmcreate;
  if pagetable =? 0 then mret 0
  else
    r ← mappages pagetable TRAMPOLINE PGSIZE trampoline (Z.lor PTE_R PTE_X);
    if r <? 0 then
      uvmfree pagetable 0;;
      mret 0
    else
      r ← mappages pagetable TRAPFRAME PGSIZE trapframe (Z.lor PTE_R PTE_W);
      if r <? 0 then
        uvmunmap pagetable TRAMPOLINE 1 false;;
        uvmfree pagetable 0;;
        mret 0
      else mret pagetable.

Definition proc_freepagetable (pagetable sz : Z) : M kst unit :=
  uvmunmap pagetable TRAMPOLINE 1 false;;
  uvmunmap pagetable TRAPFRAME 1 false;;
  uvmfree pagetable sz.
End kvm.

Section proc.
Context {KI : KernelImage} {KS : KernelSyms} {OT : Others}.

Definition freeproc (p : Z) : M kern unit :=
  x ← proc_at p;
  (if negb (p_trapframe x =? 0) then in_mem (kfree (p_trapframe x)) else mret tt);;
  upd_proc p (with_p_trapframe 0);;
  (if negb (p_pagetable x =? 0) then in_mem (proc_freepagetable (p_pagetable x) (p_sz x)) else mret tt);;
  upd_proc p (with_p_pagetable 0);;
  upd_proc p (with_p_sz 0);;
  upd_proc p (with_p_pid 0);;
  upd_proc p (with_p_parent None);;
  upd_proc p (with_p_name []);;
  upd_proc p (with_p_chan None);;
  upd_proc p (with_p_killed false);;
  upd_proc p (with_p_xstate 0);;
  upd_proc p (with_p_state UNUSED).

(** The first [UNUSED] slot, with its lock held. *)
Fixpoint find_unused (n : nat) (p : Z) : M kern (option Z) :=
  match n with
  | O => mret None
  | S n' =>
      acquire (PROC p);;
      x ← proc_at p;
      if is_state UNUSED x then mret (Some p)
      else
        release (PROC p);;
        find_unused n' (p + 1)
  end.

(** The error path of [allocproc]. *)
Definition allocproc_fail (p : Z) : M kern (option Z) :=
  freeproc p;;
  release (PROC p);;
  mret None.

Definition allocproc : M kern (option Z) :=
  r ← find_unused (Z.to_nat NPROC) 0;
  match r with
  | None => mret None
  | Some p =>
      pid ← allocpid;
      upd_proc p (with_p_pid pid);;
      upd_proc p (with_p_state USED);;
      tf ← in_mem kalloc;
      upd_proc p (with_p_trapframe tf);;
      if tf =? 0 then allocproc_fail p
      else
        pt ← in_mem (proc_pagetable tf);
        upd_proc p (with_p_pagetable pt);;
        if pt =? 0 then allocproc_fail p
        else
          x ← proc_at p;
          upd_proc p (with_p_context (mk_context forkret_addr (p_kstack x + PGSIZE) (replicate 12 0)));;
          mret (Some p)
  end.

Definition userinit : M kern unit :=
  r ← allocproc;
  modify (set_k_initproc r);;
  match r with
  | None => undefined
  | Some p =>
      x ← proc_at p;
      in_mem (uvmfirst (p_pagetable x) initcode_addr (Z.of_nat (length initcode)));;
      upd_proc p (with_p_sz PGSIZE);;
      tf_set p TF_EPC 0;;
      tf_set p TF_SP PGSIZE;;
      upd_proc p (with_p_name (proc_name (chars "initcode")));;
      cwd ← (name ← gets (λ s, p_kstack (k_procs s p) + LOC_NAMEI); namex str_root false name);
      upd_proc p (with_p_cwd cwd);;
      upd_proc p (with_p_state RUNNABLE);;
      release (PROC p)
  end.

Definition growproc (n : Z) : M kern Z :=
  p ← myproc;
  x ← proc_at p;
  if 0 <? n then
    sz ← in_mem (uvmalloc (p_pagetable x) (p_sz x) (u64 (p_sz x + n)) PTE_W);
    if sz =? 0 then mret (-1)
    else
      upd_proc p (with_p_sz sz);;
      mret 0
  else
    sz ← (if n <? 0 then in_mem (uvmdealloc (p_pagetable x) (p_sz x) (u64 (p_sz x + n)))
          else mret (p_sz x));
    upd_proc p (with_p_sz sz);;
    mret 0.

(** [for(i = 0; i < NOFILE; i++) if(p->ofile[i]) np->ofile[i] = filedup(p->ofile[i]);] *)
Definition dup_ofile (p np : Z) : M kern unit :=
  for_upto 0 NOFILE (λ i,
    x ← proc_at p;
    match p_ofile x !! i with
    | Some f =>
        f' ← filedup f;
        upd_proc np (λ y, with_p_ofile (<[i := f']> (p_ofile y)) y)
    | None => mret tt
    end).

Definition fork : M kern Z :=
  p ← myproc;
  r ← allocproc;
  match r with
  | None => mret (-1)
  | Some np =>
      x ← proc_at p;
      y ← proc_at np;
      e ← in_mem (uvmcopy (p_pagetable x) (p_pagetable y) (p_sz x));
      if e <? 0 then
        freeproc np;;
        release (PROC np);;
        mret (-1)
      else
        upd_proc np (with_p_sz (p_sz x));;
        in_mem (kmemmove (p_trapframe y) (p_trapframe x) SIZEOF_TRAPFRAME);;
        tf_set np TF_A0 0;;
        dup_ofile p np;;
        cwd ← (match p_cwd x with Some d => in_fs (idup d) | None => undefined end);
        upd_proc np (with_p_cwd (Some cwd));;
        upd_proc np (with_p_name (proc_name (p_name x)));;
        pid ← (y ← proc_at np; mret (p_pid y));
        release (PROC np);;
        acquire WAIT_LOCK;;
        upd_proc np (with_p_parent (Some p));;
        release WAIT_LOCK;;
        acquire (PROC np);;
        upd_proc np (with_p_state RUNNABLE);;
        release (PROC np);;
        mret pid
  end.

(** [wakeup] on a process structure; nobody sleeps on a null pointer. *)
Definition wakeup_proc (q : option Z) : M kern unit :=
  match q with Some q => wakeup (ChProc q) | None => mret tt end.

Definition reparent (p : Z) : M kern unit :=
  for_upto 0 NPROC (λ pp,
    x ← proc_at pp;
    if bool_decide (p_parent x = Some p) then
      init ← gets k_initproc;
      upd_proc pp (with_p_parent init);;
      wakeup_proc init
    else mret tt).

(** [for(int fd = 0; fd < NOFILE; fd++)]: close the open files. *)
Definition close_all (p : Z) : M kern unit :=
  for_upto 0 NOFILE (λ fd,
    x ← proc_at p;
    match p_ofile x !! fd with
    | Some f =>
        fileclose f;;
        upd_proc p (λ y, with_p_ofile (delete fd (p_ofile y)) y)
    | None => mret tt
    end).

(** [exit] up to its call of [sched]. *)
Definition exit_enter (status : Z) : M kern unit :=
  p ← myproc;
  init ← gets k_initproc;
  if bool_decide (init = Some p) then panic "init exiting"
  else
    close_all p;;
    in_fs begin_op;;
    x ← proc_at p;
    (match p_cwd x with Some d => in_fs (iput d) | None => undefined end);;
    in_fs end_op;;
    upd_proc p (with_p_cwd None);;
    acquire WAIT_LOCK;;
    reparent p;;
    (x ← proc_at p; wakeup_proc (p_parent x));;
    acquire (PROC p);;
    upd_proc p (with_p_xstate status);;
    upd_proc p (with_p_state ZOMBIE);;
    release WAIT_LOCK.

Definition exit {A} (status : Z) : M kern A :=
  exit_enter status;;
  sched;;
  panic "zombie exit".

(** One pass over the table: a result to return, or whether there are
    children. *)
Fixpoint wait_scan (n : nat) (p addr pp : Z) (havekids : bool) : M kern (Z + bool) :=
  match n with
  | O => mret (inr havekids)
  | S n' =>
      y ← proc_at pp;
      if bool_decide (p_parent y = Some p) then
        acquire (PROC pp);;
        y ← proc_at pp;
        if is_state ZOMBIE y then
          let pid := p_pid y in
          x ← proc_at p;
          r ← (if negb (addr =? 0) then
                 xs ← local LOC_XSTATE;
                 in_mem (modify (λ s, set_mem (st32 (mem s) xs (p_xstate y)) s));;
                 in_mem (copyout (p_pagetable x) (p_pagetable x) addr xs 4)
               else mret 0);
          if r <? 0 then
            release (PROC pp);;
            release WAIT_LOCK;;
            mret (inl (-1))
          else
            freeproc pp;;
            release (PROC pp);;
            release WAIT_LOCK;;
            mret (inl pid)
        else
          release (PROC pp);;
          wait_scan n' p addr (pp + 1) true
      else wait_scan n' p addr (pp + 1) havekids
  end.

Fixpoint wait_loop (fuel : nat) (p addr : Z) : M kern Z :=
  match fuel with
  | O => out_of_fuel
  | S fuel' =>
      r ← wait_scan (Z.to_nat NPROC) p addr 0 false;
      match r with
      | inl pid => mret pid
      | inr havekids =>
          dead ← (if havekids : bool then killed p else mret true);
          if dead : bool then
            release WAIT_LOCK;;
            mret (-1)
          else
            sleep (ChProc p) WAIT_LOCK;;
            wait_loop fuel' p addr
      end
  end.

Definition wait (addr : Z) : M kern Z :=
  p ← myproc;
  acquire WAIT_LOCK;;
  wait_loop (S patience) p addr.
End proc.

(** ** What [kill] and [allocproc] do to the [killed] flag *)

Section killed.
Context {KI : KernelImage} {KS : KernelSyms} {OT : Others}.

Lemma acquire_procs l s s' : acquire l s = Ret (tt, s') → k_procs s' = k_procs s.
Proof. rewrite /acquire. case_decide; [done|]. by intros [= <-]. Qed.
Lemma release_procs l s s' : release l s = Ret (tt, s') → k_procs s' = k_procs s.
Proof. rewrite /release. case_decide; [|done]. by intros [= <-]. Qed.
Lemma keeps_acquire_procs l : keeps k_procs (acquire l : M kern unit).
Proof. intros s [] s' H. by apply acquire_procs in H. Qed.
Lemma keeps_release_procs l : keeps k_procs (release l : M kern unit).
Proof. intros s [] s' H. by apply release_procs in H. Qed.
Lemma keeps_in_mem_procs {A} (c : M kst A) : keeps k_procs (in_mem c).
Proof. intros s a s'. rewrite /in_mem /zoom. by destruct (c (k_mem s)) as [[? ?]| | |]; intros [= <- <-]. Qed.
Lemma keeps_allocpid : keeps k_procs allocpid.
Proof.
  rewrite /allocpid. apply keeps_bind; [apply keeps_acquire_procs|intros _]. apply keeps_bind; [apply keeps_gets|].
  intros pid. apply keeps_bind; [case_match; [apply keeps_undefined|by apply keeps_modify]|intros _].
  apply keeps_bind; [apply keeps_release_procs|intros _]. apply keeps_ret.
Qed.

Lemma find_unused_first n p s q s' :
  find_unused n p s = Ret (Some q, s') →
  k_procs s' = k_procs s ∧ p ≤ q < p + Z.of_nat n ∧ p_state (k_procs s q) = UNUSED ∧
  ∀ r, p ≤ r < q → p_state (k_procs s r) ≠ UNUSED.
Proof.
  revert p s. induction n as [|n IH]; intros p s; [done|]. simpl. intros H.
  apply bind_Ret_inv in H as ([] & s1 & H1 & H). apply acquire_procs in H1.
  apply bind_Ret_inv in H as (x & s2 & [= <- <-] & H). rewrite /is_state H1 in H.
  case_bool_decide as Hst.
  { injection H as <- <-. split; [done|]. split; [lia|]. split; [done|]. lia. }
  apply bind_Ret_inv in H as ([] & s3 & H3 & H). apply release_procs in H3.
  apply IH in H as (Hp & Hq & Hu & Hr). rewrite H3 H1 in Hp Hu Hr. split; [done|]. split; [lia|].
  split; [done|]. intros r Hrq. destruct (decide (r = p)) as [->|]; [done|]. apply Hr. lia.
Qed.

(** The part of [allocproc] after a slot was found leaves its flag alone. *)
Lemma allocproc_killed s q s' :
  allocproc s = Ret (Some q, s') →
  (0 ≤ q < NPROC ∧ p_state (k_procs s q) = UNUSED ∧ ∀ r, 0 ≤ r < q → p_state (k_procs s r) ≠ UNUSED) ∧
  p_killed (k_procs s' q) = p_killed (k_procs s q).
Proof.
  rewrite /allocproc. intros H. apply bind_Ret_inv in H as ([p|] & s1 & H1 & H); [|done].
  apply find_unused_first in H1 as (E1 & Hp & Hu & Hr). rewrite -E1.
  apply bind_Ret_inv in H as (pid & s2 & H2 & H). apply keeps_allocpid in H2. rewrite -H2.
  apply bind_Ret_inv in H as ([] & s3 & [= <-] & H). apply bind_Ret_inv in H as ([] & s4 & [= <-] & H).
  apply bind_Ret_inv in H as (tf & s5 & H5 & H). apply keeps_in_mem_procs in H5.
  apply bind_Ret_inv in H as ([] & s6 & [= <-] & H). case_match eqn:Htf.
  { apply bind_Ret_inv in H as ([] & s7 & _ & H). by apply bind_Ret_inv in H as ([] & s8 & _ & [=]). }
  apply bind_Ret_inv in H as (pt & s7 & H7 & H). apply keeps_in_mem_procs in H7.
  apply bind_Ret_inv in H as ([] & s8 & [= <-] & H). case_match.
  { apply bind_Ret_inv in H as ([] & s9 & _ & H). by apply bind_Ret_inv in H as ([] & s10 & _ & [=]). }
  apply bind_Ret_inv in H as (x & s9 & [= <- <-] & H). apply bind_Ret_inv in H as ([] & s10 & [= <-] & [= <- <-]).
  split; [rewrite H2 E1; split; [lia|done]|]. simpl. rewrite H7 /= H5 /= !fn_lookup_insert. done.
Qed.

(** [kill] reaches the first slot with the given pid. *)
Lemma wp_kill_loop n q pid p (Q : Z → kern → Prop) s :
  procs_free s → q ≤ p < q + Z.of_nat n → p_pid (k_procs s p) = pid →
  (∀ r, q ≤ r < p → p_pid (k_procs s r) ≠ pid) →
  (∀ s', (∀ r, p_state (k_procs s r) = UNUSED → p_state (k_procs s' r) = UNUSED) →
         (∀ r, p_state (k_procs s r) ≠ UNUSED → p_state (k_procs s' r) ≠ UNUSED) →
         p_killed (k_procs s' p) = true → Q 0 s') →
  wp (kill_loop n q pid) Q s.
Proof.
  revert q s. induction n as [|n IH]; intros q s Hf Hq Hp Hr HQ; [lia|]. simpl.
  apply wp_bind, wp_acquire; [apply Hf|]. apply wp_bind, wp_proc_at. simpl. case_match eqn:E.
  - assert (q = p) as ->. { destruct (decide (q = p)); [done|]. exfalso. apply (Hr q); lia. }
    apply wp_bind, wp_upd_proc. simpl. rewrite /is_state. case_bool_decide as Hst.
    + apply wp_bind, wp_upd_proc, wp_bind, wp_release; [rewrite /held /=; set_solver|]. apply wp_ret, HQ; simpl.
      * intros r. rewrite /insert /fn_insert. repeat case_decide; subst; simpl; congruence.
      * intros r. rewrite /insert /fn_insert. repeat case_decide; subst; simpl; congruence.
      * by rewrite !fn_lookup_insert.
    + apply wp_bind, wp_ret, wp_bind, wp_release; [rewrite /held /=; set_solver|]. apply wp_ret, HQ; simpl.
      * intros r. rewrite /insert /fn_insert. by case_decide; subst.
      * intros r. rewrite /insert /fn_insert. by case_decide; subst.
      * by rewrite !fn_lookup_insert.
  - apply wp_bind, wp_release; [rewrite /held /=; set_solver|].
    rewrite /held /= held_restore; [|apply Hf]. destruct (decide (q = p)) as [->|]; [lia|].
    destruct s; apply IH; [done|simpl in *; lia|done|intros r Hrp; apply Hr; lia|done].
Qed.

(** C40: [kill(0)] dooms the next process: pid 0 is not a process, but the
    pid of every free slot, so [kill(0)] succeeds and sets [killed] in the
    first free slot, and [allocproc], which does not clear the flag, hands
    exactly that slot to the next process, which is thus born killed. *)
Theorem kill_zero_dooms s p :
  procs_free s → 0 ≤ p < NPROC → p_state (k_procs s p) = UNUSED → p_pid (k_procs s p) = 0 →
  (∀ r, 0 ≤ r < p → p_state (k_procs s r) ≠ UNUSED ∧ p_pid (k_procs s r) ≠ 0) →
  wp (kill 0) (λ e s1, e = 0 ∧ ∀ q s2, allocproc s1 = Ret (Some q, s2) →
                       q = p ∧ p_killed (k_procs s2 q) = true) s.
Proof.
  intros Hf Hp Hu Hz Hr. apply (wp_kill_loop _ _ _ p); [done|lia|done|intros r Hx; by apply Hr|].
  intros s1 Hun Hus Hk. split; [done|]. intros q s2 Hq. apply allocproc_killed in Hq as ((Hq & Hqu & Hqr) & ->).
  assert (q = p) as ->; [|done]. destruct (Z.lt_trichotomy q p) as [|[|]]; [|done|].
  - exfalso. apply (Hus q); [|done]. apply Hr. lia.
  - exfalso. apply (Hqr p); [lia|]. auto.
Qed.
End killed.

(** On a machine that has not started any process, there is a next process. *)
Definition got_proc (s : kern) : bool :=
  match @allocproc small_image demo_syms s with Ret (Some _, _) => true | _ => false end.

Lemma kill_zero_dooms_witness :
  wp (kill 0) (λ e s1, e = 0 ∧
      match @allocproc small_image demo_syms s1 with
      | Ret (Some q, s2) => q = 0 ∧ p_killed (k_procs s2 q) = true
      | _ => False
      end) (set_k_mem eight_free kern0).
Proof.
  assert (wp (kill 0) (λ _ s1, got_proc s1 = true) (set_k_mem eight_free kern0)) as Hg by by vm_compute.
  eapply wp_mono.
  - apply wp_and; [exact Hg|]. apply (@kill_zero_dooms small_image demo_syms _ 0).
    + intros p. apply not_elem_of_empty.
    + lia.
    + reflexivity.
    + reflexivity.
    + intros r Hr. lia.
  - clear Hg. intros e s1 (Hg & He & H). split; [exact He|]. rewrite /got_proc in Hg.
    destruct allocproc as [[[q|] s2]| | |]; [by apply H|done..].
Defined.
