(* ===== verification/ProcMem.v ===== *)
(** * The memory of a process that is created and destroyed

    What [proc_pagetable] and [proc_freepagetable] do to the address spaces of
    all processes: the first adds an address space with no user memory to the
    others, or takes everything back that it took from the allocator; the
    second removes one.  Neither changes what another process sees. *)

From stdpp Require Import list.
From S2P Require Import Prelude Mem Cstring Riscv Spinlock Kalloc Vm Uvm Cow Usermem Proc.

Local Open Scope Z_scope.

Section procmem.
Context {KI : KernelImage}.

(** What the processes see of their memory. *)
Definition seen (s : kst) (ps : list aspace) (s' : kst) : Prop :=
  ∀ i a va, ps !! i = Some a → ukept s a s' va.

Lemma seen_trans s ps s1 s2 : seen s ps s1 → seen s1 ps s2 → seen s ps s2.
Proof. intros H1 H2 i a va Hi. eapply ukept_trans; [by apply (H1 i)|by apply (H2 i)]. Qed.

(** ** Pages of no process *)

(** An allocated page that is neither user memory nor a page table. *)
Definition spare (s : kst) (fl : list Z) (ps : list aspace) (q : Z) : Prop :=
  page_ok q ∧ q ∉ fl ∧ q ∉ all_pages s ps ∧ ∀ i a π, ps !! i = Some a → as_tab a !! π ≠ Some q.

Lemma in_page_start q : in_page q q.
Proof. unfold span. lia. Qed.

Lemma quiet_spare s fl ps q : page_ok q → quiet s fl ps q → spare s fl ps q.
Proof.
  intros Hq (Hf & Hp & Ht). split_and!; [done|..].
  - intros H. apply Hf. exists q. split; [done|apply in_page_start].
  - intros H. apply Hp. exists q. split; [done|apply in_page_start].
  - intros i a π Hi H. apply (Ht i a Hi). exists π, q. split; [done|apply in_page_start].
Qed.

Lemma spare_quiet s fl ps q x : world s fl ps → spare s fl ps q → in_page q x → quiet s fl ps x.
Proof.
  intros Hw (Hq & Hf & Hp & Ht) Hx. split_and!.
  - intros (p & Hin & Hx'). pose proof (ki_ok _ _ (wo_inv _ _ _ Hw)) as Ho. rewrite Forall_forall in Ho.
    specialize (Ho p Hin). by rewrite (pages_disjoint p q x) in Hin.
  - intros (p & Hin & Hx'). destruct (mapped_page _ _ _ _ Hw Hin) as (Hpo & _). by rewrite (pages_disjoint p q x) // in Hin.
  - intros i a Hi (π & p & Hin & Hx'). destruct (table_page _ _ _ _ _ _ _ Hw Hi Hin) as (Hpo & _).
    rewrite (pages_disjoint p q x) // in Hin. by eapply Ht.
Qed.

Lemma calm_spare s fl ps s' fl' ps' q : world s fl ps → calm_to s fl ps s' fl' ps' → spare s fl ps q → spare s' fl' ps' q.
Proof.
  intros Hw Hc Hs. apply quiet_spare; [apply Hs|]. apply Hc. eapply spare_quiet; [done|done|apply in_page_start].
Qed.

Lemma all_pages_ext s s' ps : (∀ i a va, ps !! i = Some a → upte s' a va = upte s a va) → all_pages s' ps = all_pages s ps.
Proof. intros Hu. rewrite /all_pages. f_equal. apply list_fmap_ext. intros i a Hi. apply as_pages_ext. intros va _. by eapply Hu. Qed.

(** A step that touches one page, of no process. *)
Lemma world_page s fl ps q s' fl' :
  world s fl ps → page_ok q → q ∉ all_pages s ps → (∀ i a π, ps !! i = Some a → as_tab a !! π ≠ Some q) →
  kinv s' fl' → unlocked s' → (∀ p, page_ok p → p ≠ q → ref s' p = ref s p) →
  mem_eq_on (λ x, ¬ in_page q x) (mem s) (mem s') → (∀ p, p ∈ fl' → p ∈ fl ∨ p = q) →
  world s' fl' ps ∧ seen s ps s' ∧ (∀ i a va, ps !! i = Some a → upte s' a va = upte s a va) ∧
  (∀ x, ¬ in_page q x → quiet s fl ps x → quiet s' fl' ps x ∧ ld8 (mem s') x = ld8 (mem s) x).
Proof.
  intros Hw Hq Hqp Hqt Hk Hl Hr Hm Hfl.
  assert (∀ i a, ps !! i = Some a → mem_eq_on (table_byte (as_tab a)) (mem s) (mem s')) as Ht.
  { intros i a Hi x (π & p & Hp & Hx). apply Hm. intros Hx'. apply (Hqt i a π Hi).
    rewrite (pages_disjoint q p x) //. by destruct (table_page _ _ _ _ _ _ _ Hw Hi Hp). }
  assert (∀ i a va, ps !! i = Some a → upte s' a va = upte s a va) as Hu.
  { intros i a va Hi. apply upte_ext. by eapply Ht. }
  pose proof (all_pages_ext s s' ps Hu) as Hall.
  assert (∀ p, p ∈ all_pages s ps → ref s' p = ref s p) as Hr'.
  { intros p Hp. destruct (mapped_page _ _ _ _ Hw Hp) as (Hpo & _). apply Hr; [done|]. by intros ->. }
  split_and!;
    [|intros i a va Hi; split_and!; [apply uread_ext; [done|]; intros Hva|intros _ _; by eapply Hu|by rewrite /writable (Hu i)]|done|].
  - split; rewrite ?Hall; try done.
    + intros i a Hi. destruct (wo_space _ _ _ Hw i a Hi) as [H1 H2]. split; [eapply pt_wf_ext; [exact H1|by eapply Ht]|].
      intros π p Hp [Hin| ->]%Hfl; [by eapply H2|by eapply Hqt].
    + apply Hw.
    + apply Hw.
    + intros i a va Hi Hva. rewrite (Hu i) //. by eapply wo_map.
    + intros i a va Hi Hva Hn. rewrite (Hu i) //. by eapply wo_out.
    + apply Hw.
    + intros p Hp. rewrite Hr' //. by apply Hw.
    + intros i a va Hi Hva HW. rewrite (Hu i) // in HW |- *. by eapply wo_cow.
    + intros i a π p Hi Hp. rewrite Hr; [by eapply wo_tref| |].
      * by destruct (table_page _ _ _ _ _ _ _ Hw Hi Hp).
      * intros ->. by eapply Hqt.
  - rewrite /ubyte (Hu i) //. split_and!; [done..|]. apply Hm. intros Hx. apply Hqp.
    pose proof (as_pages_in s ps i a va Hi Hva) as Hin. destruct (mapped_page _ _ _ _ Hw Hin) as (Hpo & _).
    rewrite (pages_disjoint q (PTE2PA (upte s a va)) (ubyte s a va)) //. apply ubyte_page.
  - intros x Hx (Hf & Hp & Hn). split; [|by apply Hm]. split_and!; [|by rewrite Hall|done].
    intros (p & [Hin| ->]%Hfl & Hx'); [|done]. apply Hf. by exists p.
Qed.

(** Taking a page from the allocator, and writing to it. *)
Lemma world_taken s q fl ps m :
  world s (q :: fl) ps → mem_eq_on (λ x, ¬ in_page q x) (mem s) m → let s' := set_mem m (taken q s) in
  world s' fl ps ∧ seen s ps s' ∧ spare s' fl ps q ∧ ref s' q = 1 ∧ calm_to s (q :: fl) ps s' fl ps ∧
  (∀ p, page_ok p → p ∉ q :: fl → ref s' p = ref s p).
Proof.
  intros Hw Hm s'. pose proof (wo_inv _ _ _ Hw) as Hk. destruct (kinv_head _ _ _ Hk) as [Hq Hqf].
  destruct (kinv_taken s q fl Hk) as [_ Hk'].
  assert (q ∉ all_pages s ps) as Hqp. { intros Hin. destruct (mapped_page _ _ _ _ Hw Hin) as (_ & _ & Hn). set_solver. }
  assert (∀ i a π, ps !! i = Some a → as_tab a !! π ≠ Some q) as Hqt.
  { intros i a π Hi Hin. eapply (sp_free _ _ _ _ (wo_space _ _ _ Hw _ _ Hi)); [exact Hin|set_solver]. }
  assert (∀ p, page_ok p → ref s' p = if decide (p = q) then 1 else ref s p) as Hr.
  { intros p Hp. change (ref s' p) with (ref (with_ref q 1 s) p). by rewrite ref_ok_with_ref. }
  destruct (world_page s (q :: fl) ps q s' fl) as (Hw' & Hs & Hu & Hc); try done.
  - apply kinv_set_mem; [done|]. intros a (r & Hin & Ha). assert (¬ in_page q a) as Hn.
    { intros Ha'. pose proof (ki_ok _ _ Hk') as Ho. rewrite Forall_forall in Ho. specialize (Ho r Hin).
      by rewrite (pages_disjoint r q a) in Hin. }
    rewrite (Hm a Hn) /=. by rewrite ld8_memset_page decide_False.
  - apply Hw.
  - intros p Hp Hn. by rewrite Hr // decide_False.
  - set_solver.
  - split_and!; [done|done|by split_and!; rewrite ?(all_pages_ext s s' ps)| | |].
    + by rewrite Hr // decide_True.
    + intros x Hx. apply Hc; [|done]. intros Hin. destruct Hx as [Hf _]. apply Hf. exists q. split; [apply elem_of_cons; by left|done].
    + intros p Hp [Hn _]%not_elem_of_cons. by rewrite Hr // decide_False.
Qed.

(** Giving it back. *)
Lemma world_freed s fl ps q :
  world s fl ps → spare s fl ps q → let s' := freed q s in
  world s' (q :: fl) ps ∧ seen s ps s' ∧ (∀ p, page_ok p → p ≠ q → ref s' p = ref s p) ∧
  (∀ x, ¬ in_page q x → quiet s fl ps x → quiet s' (q :: fl) ps x ∧ ld8 (mem s') x = ld8 (mem s) x) ∧
  (∀ i a va, ps !! i = Some a → upte s' a va = upte s a va).
Proof.
  intros Hw (Hq & Hf & Hp & Ht) s'.
  assert (∀ p, page_ok p → p ≠ q → ref s' p = ref s p) as Hr by (intros p Hpo Hn; by rewrite freed_ref // decide_False).
  destruct (world_page s fl ps q s' (q :: fl)) as (Hw' & Hs & Ha & Hc); try done.
  - apply kinv_freed; [apply Hw|done|done].
  - apply Hw.
  - intros x Hx. by apply freed_mem.
  - set_solver.
Qed.

(** Writing to it. *)
Lemma world_write s fl ps q m :
  world s fl ps → spare s fl ps q → mem_eq_on (λ x, ¬ in_page q x) (mem s) m → let s' := set_mem m s in
  world s' fl ps ∧ seen s ps s' ∧ (∀ r, spare s fl ps r → spare s' fl ps r) ∧
  (∀ x, ¬ in_page q x → quiet s fl ps x → quiet s' fl ps x ∧ ld8 (mem s') x = ld8 (mem s) x) ∧
  (∀ i a va, ps !! i = Some a → upte s' a va = upte s a va).
Proof.
  intros Hw (Hq & Hf & Hp & Ht) Hm s'.
  destruct (world_page s fl ps q s' fl) as (Hw' & Hs & Hu & Hc); try done.
  - apply kinv_set_mem; [apply Hw|]. intros x (p & Hin & Hx). apply Hm. intros Hx'. apply Hf.
    pose proof (ki_ok _ _ (wo_inv _ _ _ Hw)) as Ho. rewrite Forall_forall in Ho. specialize (Ho p Hin). by rewrite (pages_disjoint q p x).
  - apply Hw.
  - by left.
  - split_and!; try done. intros r (H1 & H2 & H3 & H4). split_and!; try done. by rewrite (all_pages_ext s s' ps).
Qed.

(** ** A new address space *)

Lemma all_pages_snoc s ps a : all_pages s (ps ++ [a]) = all_pages s ps ++ as_pages s a.
Proof. by rewrite /all_pages fmap_app concat_app /= app_nil_r. Qed.

Lemma lookup_snoc (ps : list aspace) a i b :
  (ps ++ [a]) !! i = Some b ↔ ps !! i = Some b ∨ (i = length ps ∧ b = a).
Proof. rewrite lookup_snoc_Some. split; [intros [[_ ?]|[? ?]]; auto|intros [H|[-> ->]]; auto]. left. split; [by eapply lookup_lt_Some|done]. Qed.

Lemma empty_table_pte m q va : pte_of m {[ [] := q ]} va = 0.
Proof. by rewrite /pte_of /pte_addr lookup_singleton_ne. Qed.

(** A zeroed page of no process is the root of an address space without
    user memory. *)
Lemma world_snoc s fl ps q :
  world s fl ps → spare s fl ps q → ref s q = 1 → (∀ x, in_page q x → ld8 (mem s) x = 0) →
  world s fl (ps ++ [mk_as q {[ [] := q ]} 0]).
Proof.
  intros Hw (Hq & Hf & Hp & Ht) Hr Hz. set (a := mk_as _ _ _).
  assert (all_pages s (ps ++ [a]) = all_pages s ps) as Hall by (rewrite all_pages_snoc; apply app_nil_r).
  assert (∀ π p, as_tab a !! π = Some p → p = q) as HT by (intros π p Hπ; simpl in Hπ; by apply lookup_singleton_Some in Hπ as [_ <-]).
  assert (∀ va, ¬ in_as a va) as Hin by (unfold in_as, span; simpl; lia).
  split; rewrite ?Hall; [apply Hw|apply Hw|..].
  - intros i b [Hi|[-> ->]]%lookup_snoc; [by eapply wo_space|]. split; [by apply empty_table_wf|]. by intros π p ->%HT.
  - intros i j b c π π' p [Hi|[-> ->]]%lookup_snoc [Hj|[-> ->]]%lookup_snoc Hij Hp1 Hp2; [by eapply (wo_disj _ _ _ Hw i j)|..|done].
    + apply HT in Hp2 as ->. by eapply Ht.
    + apply HT in Hp1 as ->. by eapply Ht.
  - intros i b [Hi|[-> ->]]%lookup_snoc; [by eapply wo_size|done].
  - intros i b va [Hi|[-> ->]]%lookup_snoc Hva; [by eapply wo_map|by destruct (Hin va)].
  - intros i b va [Hi|[-> ->]]%lookup_snoc Hva Hn; [by eapply wo_out|]. by rewrite /upte empty_table_pte.
  - intros i b p π [Hi|[-> ->]]%lookup_snoc Hpg; [by eapply wo_table|]. by intros ->%HT.
  - apply Hw.
  - intros i b va [Hi|[-> ->]]%lookup_snoc Hva HW; [by eapply wo_cow|by destruct (Hin va)].
  - intros i b π p [Hi|[-> ->]]%lookup_snoc Hpg; [by eapply wo_tref|]. by apply HT in Hpg as ->.
Qed.
(** ** An address space goes *)

(** The last address space was given up: its table is free, and one
    reference to each of its pages is gone. *)
Record removed (s : kst) (fl : list Z) (ps : list aspace) (a : aspace) (s' : kst) (fl' : list Z) : Prop := {
  rm_world : world s' fl' ps;
  rm_seen : seen s ps s';
  rm_calm : calm_to s fl (ps ++ [a]) s' fl' ps;
  rm_ref : ∀ p, page_ok p → ref s' p = if decide (p ∈ sub_pages (as_tab a) []) then 0 else ref s p - occ (as_pages s a) p;
}.

Lemma elem_of_table T q : q ∈ sub_pages T [] ↔ ∃ π, T !! π = Some q.
Proof. by rewrite elem_of_sub_pages. Qed.

Section remove.
Context (s : kst) (fl : list Z) (ps : list aspace) (a : aspace) (s' : kst) (fl' : list Z).
Context (Hw : world s fl (ps ++ [a])) (Hk : kinv s' fl') (Hl : unlocked s').
Context (Hr : ∀ p, page_ok p → ref s' p = if decide (p ∈ sub_pages (as_tab a) []) then 0 else ref s p - occ (as_pages s a) p).
Context (Hm : mem_eq_on (λ x, ¬ free_byte fl' x) (mem s) (mem s')).

Lemma snoc_l i b : ps !! i = Some b → (ps ++ [a]) !! i = Some b.
Proof. intros Hi. apply lookup_snoc. by left. Qed.

Lemma snoc_last : (ps ++ [a]) !! length ps = Some a.
Proof. apply lookup_snoc. by right. Qed.

Lemma kept_page p : p ∈ all_pages s ps → page_ok p ∧ occ (all_pages s ps) p ≤ ref s' p ∧ p ∉ fl'.
Proof.
  intros Hp. assert (p ∈ all_pages s (ps ++ [a])) as Hin by (rewrite all_pages_snoc; apply elem_of_app; by left).
  destruct (mapped_page _ _ _ _ Hw Hin) as (Hpo & _). pose proof (wo_ref _ _ _ Hw p Hin) as Ho.
  rewrite all_pages_snoc occ_app in Ho. pose proof (occ_pos _ _ Hp).
  assert (occ (all_pages s ps) p ≤ ref s' p) as Hle.
  { rewrite Hr // decide_False; [lia|]. intros [π Hπ]%elem_of_table. eapply (wo_table _ _ _ Hw); [apply snoc_last|exact Hin|exact Hπ]. }
  split_and!; [done|done|]. eapply kinv_not_free; [done|done|lia].
Qed.

Lemma kept_table i b π p : ps !! i = Some b → as_tab b !! π = Some p → page_ok p ∧ ref s' p = 1 ∧ p ∉ fl'.
Proof.
  intros Hi Hp. pose proof (snoc_l _ _ Hi) as Hi'. destruct (table_page _ _ _ _ _ _ _ Hw Hi' Hp) as (Hpo & _ & H1 & Hn).
  assert (ref s' p = 1) as H1'.
  { rewrite Hr // decide_False.
    - rewrite occ_not_in; [lia|]. intros Hin. apply Hn. rewrite all_pages_snoc. apply elem_of_app. by right.
    - intros [π' Hπ]%elem_of_table. eapply (wo_disj _ _ _ Hw i (length ps) b a); [done|apply snoc_last| |done..].
      apply lookup_lt_Some in Hi. lia. }
  split_and!; [done|done|]. eapply kinv_not_free; [done|done|lia].
Qed.

Lemma free_ok p : p ∈ fl' → page_ok p.
Proof. intros Hp. pose proof (ki_ok _ _ Hk) as Ho. rewrite Forall_forall in Ho. by apply Ho. Qed.

Lemma kept_byte q x : page_ok q → q ∉ fl' → in_page q x → ld8 (mem s') x = ld8 (mem s) x.
Proof. intros Hq Hn Hx. apply Hm. intros (p & Hp & Hx'). by rewrite (pages_disjoint q p x) // in Hn; apply free_ok. Qed.

Lemma kept_table_mem i b : ps !! i = Some b → mem_eq_on (table_byte (as_tab b)) (mem s) (mem s').
Proof. intros Hi x (π & p & Hp & Hx). destruct (kept_table _ _ _ _ Hi Hp) as (Hpo & _ & Hn). by apply (kept_byte p). Qed.

Lemma kept_upte i b va : ps !! i = Some b → upte s' b va = upte s b va.
Proof. intros Hi. apply upte_ext. by eapply kept_table_mem. Qed.

Lemma kept_pages : all_pages s' ps = all_pages s ps.
Proof. apply all_pages_ext. intros i b va. apply kept_upte. Qed.

Lemma remove_world : world s' fl' ps.
Proof.
  split; rewrite ?kept_pages; try done.
  - intros i b Hi. destruct (wo_space _ _ _ Hw i b (snoc_l _ _ Hi)) as [H1 H2].
    split; [eapply pt_wf_ext; [exact H1|by eapply kept_table_mem]|]. intros π p Hp. by eapply kept_table.
  - intros i j b c π π' p Hi Hj. by apply (wo_disj _ _ _ Hw i j b c); apply snoc_l.
  - intros i b Hi. by eapply (wo_size _ _ _ Hw i), snoc_l.
  - intros i b va Hi Hva. rewrite (kept_upte i) //. by apply (wo_map _ _ _ Hw i), Hva; apply snoc_l.
  - intros i b va Hi Hva Hn. rewrite (kept_upte i) //. by apply (wo_out _ _ _ Hw i); [apply snoc_l|..].
  - intros i b p π Hi Hp. apply (wo_table _ _ _ Hw i); [by apply snoc_l|]. rewrite all_pages_snoc. apply elem_of_app. by left.
  - intros p Hp. by apply kept_page.
  - intros i b va Hi Hva HW. rewrite (kept_upte i) // in HW |- *.
    pose proof (wo_cow _ _ _ Hw i b va (snoc_l _ _ Hi) Hva HW) as Ho. rewrite all_pages_snoc occ_app in Ho.
    pose proof (occ_pos _ _ (as_pages_in s ps i b va Hi Hva)). pose proof (occ_nonneg (as_pages s a) (PTE2PA (upte s b va))). lia.
  - intros i b π p Hi Hp. by eapply kept_table.
Qed.

Lemma remove_removed : removed s fl ps a s' fl'.
Proof.
  split; [apply remove_world| | |done].
  - intros i b va Hi. split_and!; [|intros _ _; by eapply kept_upte|by rewrite /writable (kept_upte i)]. apply uread_ext; [done|]. intros Hva. rewrite /ubyte (kept_upte i) //. split_and!; [done..|].
    destruct (kept_page _ (as_pages_in s ps i b va Hi Hva)) as (Hpo & _ & Hn). eapply kept_byte; [done|done|apply ubyte_page].
  - intros x (Hf & Hp & Ht). assert (¬ free_byte fl' x) as Hf'.
    { intros (p & Hin & Hx). pose proof (free_ok _ Hin) as Hpo. apply (ki_ref _ _ Hk) in Hin; [|done]. rewrite Hr // in Hin.
      case_decide as Hd; [apply elem_of_table in Hd as [π Hπ]; by apply (Ht _ _ snoc_last); exists π, p|].
      destruct (decide (p ∈ as_pages s a)) as [Hin'|Hn].
      - apply Hp. exists p. split; [|done]. rewrite all_pages_snoc. apply elem_of_app. by right.
      - rewrite occ_not_in // in Hin. apply Hf. exists p. split; [|done]. apply (ki_ref _ _ (wo_inv _ _ _ Hw)); [done|lia]. }
    split; [|by apply Hm]. split_and!; [done| |].
    + rewrite kept_pages. intros (p & Hin & Hx). apply Hp. exists p. split; [|done]. rewrite all_pages_snoc. apply elem_of_app. by left.
    + intros i b Hi. by apply (Ht i), snoc_l.
Qed.
End remove.

(** [uvmfree] of an address space whose table has no other entries. *)
Lemma wp_uvmfree_last s fl ps a sz :
  world s fl (ps ++ [a]) → 0 ≤ sz ≤ MAXVA → as_n a = Z.to_nat (PGROUNDUP sz / PGSIZE) →
  (∀ va, legal va → ¬ in_as a va → upte s a va = 0) →
  wp (uvmfree (as_root a) sz) (λ _ s', ∃ fl', removed s fl ps a s' fl') s.
Proof.
  intros Hw Hsz Hn Hz. pose proof (snoc_last ps a) as Hi. destruct (PGROUNDUP_ok sz) as (Hr1 & Hr2 & Hr3); [lia|].
  eapply wp_mono; [apply (wp_uvmfree (as_root a) sz s fl (as_tab a)); rewrite -?Hn|].
  - by eapply world_vm_ok.
  - done.
  - intros va Hva _. apply (wo_map _ _ _ Hw _ _ va Hi). unfold in_as, span. rewrite Hn. dlia.
  - intros va Hva Hge. apply Hz; [done|]. unfold in_as, span. rewrite Hn. dlia.
  - intros p Hp. change (p ∈ as_pages s a) in Hp. destruct (as_pages_table s fl _ _ a p [] Hw Hi Hp) as [Hin _].
    destruct (mapped_page _ _ _ _ Hw Hin) as (? & _). split_and!; [done|intros π; by apply (wo_table _ _ _ Hw (length ps) a p)|].
    etrans; [|by apply (wo_ref _ _ _ Hw)]. apply (occ_concat_le _ (length ps)). by rewrite list_lookup_fmap Hi.
  - intros π p. by apply (wo_tref _ _ _ Hw (length ps)).
  - intros [] s' (fl' & Hk & Hl & Hr & Hm). rewrite -Hn in Hr. exists fl'. by apply remove_removed.
Qed.
(** ** An address space comes *)

(** Between the two states the address space [a] was made, of pages of the
    free list. *)
Record added (s : kst) (fl : list Z) (ps : list aspace) (a : aspace) (s' : kst) (fl' : list Z) : Prop := {
  ad_world : world s' fl' (ps ++ [a]);
  ad_seen : seen s ps s';
  ad_calm : calm_to s fl ps s' fl' (ps ++ [a]);
  ad_acc : accounted s fl (mk_as 0 ∅ 0) s' fl' a;
}.

(** Everything is as before, but for the order of the free list. *)
Record undone (s : kst) (fl : list Z) (ps : list aspace) (s' : kst) (fl' : list Z) : Prop := {
  un_world : world s' fl' ps;
  un_seen : seen s ps s';
  un_calm : calm_to s fl ps s' fl' ps;
  un_ref : ∀ p, page_ok p → ref s' p = ref s p;
}.

Lemma undone_refl s fl ps : world s fl ps → undone s fl ps s fl.
Proof. intros Hw. by split. Qed.

Lemma added_step s fl ps a s1 fl1 a2 s2 fl2 :
  added s fl ps a s1 fl1 → (∀ p, p ∈ fl1 → p ∈ fl) → world s2 fl2 (ps ++ [a2]) →
  view_kept s1 (ps ++ [a]) (length ps) s2 → calm_to s1 fl1 (ps ++ [a]) s2 fl2 (ps ++ [a2]) →
  accounted s1 fl1 a s2 fl2 a2 → added s fl ps a2 s2 fl2.
Proof.
  intros [Hw Hs Hc Ha] Hfl Hw2 Hv2 Hc2 Ha2. split; [done| |by eapply calm_to_trans|by eapply accounted_trans].
  intros i b va Hi. eapply ukept_trans; [by apply (Hs i)|]. apply (Hv2 i); [|by apply snoc_l]. apply lookup_lt_Some in Hi. lia.
Qed.

Lemma insert_last (ps : list aspace) a b : <[length ps := b]> (ps ++ [a]) = ps ++ [b].
Proof. rewrite -{1}(Nat.add_0_r (length ps)) insert_app_r. done. Qed.

Lemma grown_sub l s T fl s' T' fl' p : grown l s T fl s' T' fl' → p ∈ fl' → p ∈ fl.
Proof. intros Hg Hp. destruct (gr_fl _ _ _ _ _ _ _ Hg) as [u ->]. apply elem_of_app. by right. Qed.

(** Changing entries that are not the user's. *)
Lemma added_map s fl ps a s1 fl1 f s2 T2 fl2 :
  added s fl ps a s1 fl1 → (∀ p, p ∈ fl1 → p ∈ fl) → mapped_to s1 (as_tab a) fl1 (as_root a) f s2 T2 fl2 →
  (∀ va, in_as a va → f va = upte s1 a va) → (∀ va, legal va → ¬ in_as a va → flag (f va) PTE_U = false) →
  added s fl ps (mk_as (as_root a) T2 (as_n a)) s2 fl2 ∧ (∀ p, p ∈ fl2 → p ∈ fl).
Proof.
  intros Had Hfl Hm Hin Hout. pose proof (ad_world _ _ _ _ _ _ Had) as Hw. pose proof (snoc_last ps a) as Hi.
  pose proof Hm as [Hg _ Hmap].
  split; [|intros p Hp; eapply Hfl, grown_sub; [exact Hg|exact Hp]]. eapply added_step; [done|done|..].
  - rewrite -(insert_last ps a). by eapply world_kmap.
  - by eapply grown_view.
  - rewrite -(insert_last ps a (mk_as (as_root a) T2 (as_n a))). eapply grown_calm; [exact Hi|exact Hg|]. intros p. by eapply grow_pages.
  - apply grow_accounted; [exact Hg|]. intros va Hva. rewrite Hmap; [by apply Hin|by eapply in_as_legal].
Qed.

(** Unmapping without freeing is such a change. *)
Lemma unmapped_mapped s fl root T va n s' fl' :
  unmapped_to false s fl root T va n s' fl' →
  mapped_to s T fl root (unmap_range (pte_of (mem s) T) va (Z.of_nat n)) s' T fl' ∧ fl' = fl.
Proof.
  intros (Hok & [Hr (new & -> & Hnew) Hm Hh] & Hmap). assert (new = []) as ->.
  { destruct new as [|p new]; [done|]. specialize (Hnew p ltac:(apply elem_of_cons; by left)). by apply elem_of_nil in Hnew. }
  split; [|done]. split; [|done|done]. split; try done.
  - by exists [].
  - by left.
  - apply NoDup_nil_2.
  - intros p ?%elem_of_nil. done.
  - intros p Hp. rewrite decide_False; [|tauto]. rewrite Hr //. change (occ [] p) with 0. lia.
Qed.

(** What was added and then removed. *)
Lemma added_removed s fl ps a s1 fl1 s2 fl2 :
  world s fl ps → added s fl ps a s1 fl1 → removed s1 fl1 ps a s2 fl2 → undone s fl ps s2 fl2.
Proof.
  intros Hw [Hw1 Hs1 Hc1 (_ & Hn & Hr1 & Hf)] [Hw2 Hs2 Hc2 Hr2].
  split; [done|by eapply seen_trans|by eapply calm_to_trans|]. intros p Hp. rewrite Hr2 //.
  pose proof (ki_ref _ _ (wo_inv _ _ _ Hw) p Hp) as H0. case_decide as Hd.
  - apply elem_of_table in Hd as [π Hπ]. destruct (Hn π p Hπ) as [Hx|Hx]; [by rewrite lookup_empty in Hx|]. symmetry. by apply H0.
  - destruct (decide (p ∈ fl)) as [Hin|Hin].
    + rewrite (proj1 H0) //. destruct (Hf p Hin) as [Hin1|Hin1]; [|by apply elem_of_table in Hin1].
      pose proof (proj1 (ki_ref _ _ (wo_inv _ _ _ Hw1) p Hp) Hin1) as ->. rewrite occ_not_in //. intros Hin2.
      destruct (as_pages_table s1 fl1 _ _ a p [] Hw1 (snoc_last ps a) Hin2) as [Hin3 _].
      by destruct (mapped_page _ _ _ _ Hw1 Hin3) as (_ & _ & ?).
    + rewrite Hr1 //. change (occ (as_pages s (mk_as 0 ∅ 0)) p) with 0. lia.
Qed.

Lemma wp_uvmcreate s fl ps (Q : Z → kst → Prop) :
  world s fl ps → (fl = [] → Q 0 s) →
  (∀ q s' fl', q ≠ 0 → added s fl ps (mk_as q {[ [] := q ]} 0) s' fl' → (∀ p, p ∈ fl' → p ∈ fl) →
     length fl = S (length fl') → Q q s') →
  wp uvmcreate Q s.
Proof.
  intros Hw H0 HQ. apply wp_bind, (wp_kalloc s fl); [apply Hw|apply Hw| |intros ->; by apply wp_ret, H0].
  intros q fl' -> _. destruct (kinv_head _ _ _ (wo_inv _ _ _ Hw)) as [Hq Hqf]. pose proof (page_ok_range q Hq).
  destruct (Z.eqb_spec q 0); [lia|]. apply wp_bind, wp_kmemset, wp_ret.
  change (set_mem _ (taken q s)) with (set_mem (mem (fresh q s)) (taken q s)).
  destruct (world_taken s q fl' ps (mem (fresh q s))) as (Hw' & Hs & Hsp & Hr & Hc & Hr'); [done| |].
  { intros x Hx. by rewrite ld8_fresh decide_False. }
  set (s' := set_mem _ _) in *. apply (HQ q s' fl'); [done| |intros p Hp; apply elem_of_cons; by right|done].
  pose proof (world_snoc s' fl' ps q Hw' Hsp Hr) as Hw2. split; [apply Hw2|done|..].
  - intros x Hx. by rewrite ld8_fresh decide_True.
  - intros x Hx. destruct (Hc x Hx) as [(Hf & Hp & Ht) E]. split; [|done]. split_and!; [done|by rewrite all_pages_snoc app_nil_r|].
    intros i b [Hi|[-> ->]]%lookup_snoc; [by eapply Ht|]. intros (π & p & Hπ & Hx'). simpl in Hπ.
    apply lookup_singleton_Some in Hπ as [_ <-]. destruct Hx as [Hx _]. apply Hx. exists q. split; [apply elem_of_cons; by left|done].
  - split_and!.
    + apply map_empty_subseteq.
    + intros π p Hπ. simpl in Hπ. apply lookup_singleton_Some in Hπ as [_ <-]. right. apply elem_of_cons. by left.
    + intros p Hp Hn. rewrite Hr' //. change (occ (as_pages s (mk_as 0 ∅ 0)) p) with 0. change (occ (as_pages s' (mk_as q {[ [] := q ]} 0)) p) with 0. lia.
    + intros p [->|Hp]%elem_of_cons; [right; exists []; apply lookup_singleton_eq|by left].
Qed.
(** ** The kernel's part of a process's table *)

(** The entries outside the user memory. *)
Definition kernel_pte (tf va : Z) : Z :=
  if decide (va / PGSIZE = TRAMPOLINE / PGSIZE) then leaf_pte trampoline (Z.lor PTE_R PTE_X)
  else if decide (va / PGSIZE = TRAPFRAME / PGSIZE) then leaf_pte tf (Z.lor PTE_R PTE_W)
  else 0.

Lemma kernel_pte_trampoline tf : kernel_pte tf TRAMPOLINE = leaf_pte trampoline (Z.lor PTE_R PTE_X).
Proof. reflexivity. Qed.
Lemma kernel_pte_trapframe tf : kernel_pte tf TRAPFRAME = leaf_pte tf (Z.lor PTE_R PTE_W).
Proof. reflexivity. Qed.

Lemma leaf_pte_bit pa perm k : 0 ≤ k < 10 → Z.testbit (leaf_pte pa perm) k = Z.testbit (Z.lor perm 1) k.
Proof.
  intros Hk. rewrite /leaf_pte /PA2PTE /u64 !Z.lor_spec. change PTE_V with 1.
  rewrite Z.mod_pow2_bits_low; [|lia]. rewrite Z.shiftl_spec; [|lia]. rewrite (Z.testbit_neg_r _ (k - 10)) //. lia.
Qed.

Lemma kernel_leaf pa perm : Z.testbit perm 1 = true → leaf (leaf_pte pa perm).
Proof.
  intros Hp. split; [apply leaf_pte_V|]. intros E. assert (Z.testbit (PTE_FLAGS (leaf_pte pa perm)) 1 = true) as H.
  { rewrite /PTE_FLAGS Z.land_spec leaf_pte_bit // Z.lor_spec Hp. done. }
  by rewrite E in H.
Qed.

Lemma kernel_pte_U tf va : flag (kernel_pte tf va) PTE_U = false.
Proof.
  rewrite /kernel_pte. change PTE_U with (Z.shiftl 1 4). repeat case_decide; [..|done];
    rewrite flag_testbit // leaf_pte_bit //.
Qed.

(** A change of one entry of the kernel's part. *)
Lemma wp_unmap_kpage s fl ps a va (Q : unit → kst → Prop) :
  world s fl (ps ++ [a]) → va mod PGSIZE = 0 → Z.of_nat (as_n a) * PGSIZE ≤ va → va + PGSIZE ≤ MAXVA →
  leaf (upte s a va) →
  (∀ s', world s' fl (ps ++ [a]) → (∀ s2 fl2, removed s' fl ps a s2 fl2 → removed s fl ps a s2 fl2) →
     (∀ va', legal va' → upte s' a va' = if decide (va' / PGSIZE = va / PGSIZE) then 0 else upte s a va') → Q tt s') →
  wp (uvmunmap (as_root a) va 1 false) Q s.
Proof.
  intros Hw Hal Hlow Hmax Hleaf HQ. pose proof (snoc_last ps a) as Hi.
  eapply wp_mono; [apply (wp_uvmunmap false (as_root a) va 1 s fl (as_tab a)); try done; try lia; [by eapply world_vm_ok|]|].
  { intros i Hx. replace (va + i * PGSIZE) with va by lia. done. }
  intros [] s' (fl' & Hu). apply unmapped_mapped in Hu as [Hm ->].
  assert (∀ va', legal va' → upte s' a va' = if decide (va' / PGSIZE = va / PGSIZE) then 0 else upte s a va') as Hup.
  { intros va' Hva'. rewrite /upte (mt_map _ _ _ _ _ _ _ _ Hm) // /unmap_range. unfold span, legal in *.
    repeat case_decide; try done; dlia. }
  assert (∀ va', in_as a va' → upte s' a va' = upte s a va') as Hus.
  { intros va' Hin. rewrite Hup; [|by eapply in_as_legal]. rewrite decide_False //. unfold in_as, span in Hin. dlia. }
  pose proof Hm as [Hg _ Hmap].
  assert (∀ b, mk_as (as_root b) (as_tab b) (as_n b) = b) as Heta by (by intros []).
  pose proof (insert_last ps a a) as Hins. rewrite -{1}(Heta a) in Hins.
  assert (∀ va', in_as a va' → unmap_range (pte_of (mem s) (as_tab a)) va (Z.of_nat 1) va' = upte s a va') as Hin.
  { intros va' Hva'. rewrite -Hus // /upte -Hmap //. by eapply in_as_legal. }
  apply HQ; [|intros s2 fl2 [Hw2 Hs2 Hc2 Hr2]|done].
  - rewrite -Hins. eapply world_kmap; [done|done|exact Hm|done|]. intros va' Hva' Hn. rewrite -Hmap //.
    change (flag (upte s' a va') PTE_U = false). rewrite Hup //. case_decide; [done|by eapply wo_out].
  - split; [done|..].
    + intros i b va' Hb. eapply ukept_trans; [|exact (Hs2 i b va' Hb)]. eapply (grown_view _ _ _ _ (length ps)); [done|done|exact Hg| |by apply snoc_l].
      apply lookup_lt_Some in Hb. lia.
    + eapply calm_to_trans; [|exact Hc2]. rewrite -{2}Hins. eapply grown_calm; [exact Hi|exact Hg|].
      intros p. by eapply grow_pages.
    + intros p Hp. rewrite Hr2 // (as_pages_ext s s' a) // (gr_ref_same _ _ _ _ _ _ Hg) //.
Qed.

(** The address space of a process: the kernel's part is the trampoline and
    the trapframe [tf]. *)
Definition proc_as (s : kst) (a : aspace) (tf : Z) : Prop :=
  Z.of_nat (as_n a) * PGSIZE ≤ TRAPFRAME ∧ ∀ va, legal va → ¬ in_as a va → upte s a va = kernel_pte tf va.

Lemma proc_as_high s a tf va : proc_as s a tf → TRAPFRAME ≤ va < MAXVA → upte s a va = kernel_pte tf va.
Proof. intros [H1 H2] Hva. apply H2; [unfold legal; lia|]. unfold in_as, span. lia. Qed.

Lemma wp_proc_freepagetable s fl ps a tf sz :
  world s fl (ps ++ [a]) → proc_as s a tf → 0 ≤ sz → as_n a = Z.to_nat (PGROUNDUP sz / PGSIZE) → sz ≤ MAXVA →
  wp (proc_freepagetable (as_root a) sz) (λ _ s', ∃ fl', removed s fl ps a s' fl') s.
Proof.
  intros Hw Hpa Hsz Hn Hmax. pose proof Hpa as [Hlow Hker]. rewrite /proc_freepagetable.
  apply wp_bind, (wp_unmap_kpage s fl ps a); [done|done|lia|lia| |].
  { rewrite (proc_as_high s a tf) // kernel_pte_trampoline. by apply kernel_leaf. }
  intros s1 Hw1 Hrem1 Hup1. apply wp_bind, (wp_unmap_kpage s1 fl ps a); [done|done|lia|lia| |].
  { rewrite Hup1; [|unfold legal; lia]. case_decide; [done|].
    rewrite (proc_as_high s a tf) // kernel_pte_trapframe. by apply kernel_leaf. }
  intros s2 Hw2 Hrem2 Hup2. eapply wp_mono; [apply (wp_uvmfree_last s2 fl ps a sz); try done|].
  - intros va Hva Hout. rewrite Hup2 //. case_decide; [done|]. rewrite Hup1 //. case_decide; [done|].
    rewrite Hker // /kernel_pte !decide_False //.
  - intros [] s3 (fl3 & Hr). exists fl3. by apply Hrem1, Hrem2.
Qed.

(** Mapping one page of the kernel's part. *)
Lemma wp_map_kpage s fl ps a s1 fl1 va pa perm (Q : Z → kst → Prop) :
  added s fl ps a s1 fl1 → (∀ p, p ∈ fl1 → p ∈ fl) → as_n a = 0%nat →
  va mod PGSIZE = 0 → 0 ≤ va → va + PGSIZE ≤ MAXVA → 0 ≤ pa → pa + PGSIZE ≤ 2 ^ 56 → 0 ≤ perm < 1024 →
  Z.testbit perm 4 = false → flag (upte s1 a va) PTE_V = false →
  (∀ s2 T2 fl2, let a2 := mk_as (as_root a) T2 0 in added s fl ps a2 s2 fl2 → (∀ p, p ∈ fl2 → p ∈ fl) →
     (∀ va', legal va' → upte s2 a2 va' = if decide (va' / PGSIZE = va / PGSIZE) then leaf_pte pa perm else upte s1 a va') →
     (length fl1 ≤ length fl2 + 2)%nat → Q 0 s2) →
  (∀ s2 T2, let a2 := mk_as (as_root a) T2 0 in added s fl ps a2 s2 [] →
     (∀ va', legal va' → upte s2 a2 va' = upte s1 a va') → (length fl1 ≤ 1)%nat → Q (-1) s2) →
  wp (mappages (as_root a) va PGSIZE pa perm) Q s1.
Proof.
  intros Had Hfl Hn Hal Hva Hmax Hpa Hpa' Hperm HU Hun Hs Hf. pose proof (ad_world _ _ _ _ _ _ Had) as Hw.
  pose proof (world_vm_ok _ _ _ _ _ Hw (snoc_last ps a)) as Hok.
  assert (∀ va, ¬ in_as a va) as Hin by (unfold in_as, span; rewrite Hn; lia).
  assert (∀ va, legal va → flag (upte s1 a va) PTE_U = false) as Hout.
  { intros va' Hva'. eapply wo_out; [exact Hw|apply snoc_last|done|apply Hin]. }
  apply (wp_mappages_page (as_root a) va _ _ s1 fl1 (as_tab a)); try done.
  - intros s2 T2 fl2 Hm Hlen. destruct (added_map _ _ _ _ _ _ _ _ _ _ Had Hfl Hm) as [Had2 Hfl2].
    + intros va' Hx. by destruct (Hin va').
    + intros va' Hva' _. rewrite /map_range. case_decide; [|by apply Hout].
      change PTE_U with (Z.shiftl 1 4). rewrite flag_testbit // leaf_pte_bit // Z.lor_spec HU. done.
    + rewrite Hn in Had2. apply (Hs s2 T2 fl2); [done|done| |done]. intros va' Hva'.
      rewrite /upte /= (mt_map _ _ _ _ _ _ _ _ Hm) // /map_range. unfold span, legal in *.
      repeat case_decide; try done; try dlia. f_equal. dlia.
  - intros s2 T2 Hm Hlen. destruct (added_map _ _ _ _ _ _ _ _ _ _ Had Hfl Hm) as [Had2 Hfl2].
    + intros va' Hx. by destruct (Hin va').
    + intros va' Hva' _. by apply Hout.
    + rewrite Hn in Had2. apply (Hf s2 T2); [done| |done]. intros va' Hva'. apply (mt_map _ _ _ _ _ _ _ _ Hm _ Hva').
Qed.

(** [proc_pagetable] adds an address space without user memory, or takes
    everything back. *)
Lemma wp_proc_pagetable s fl ps tf (Q : Z → kst → Prop) :
  world s fl ps → page_ok tf →
  (∀ a s' fl', as_n a = 0%nat → as_root a ≠ 0 → proc_as s' a tf → added s fl ps a s' fl' → (∀ p, p ∈ fl' → p ∈ fl) →
     (length fl ≤ length fl' + 5)%nat → Q (as_root a) s') →
  (∀ s' fl', undone s fl ps s' fl' → (length fl < 5)%nat → Q 0 s') →
  wp (proc_pagetable tf) Q s.
Proof.
  intros Hw Htf Hs Hf. pose proof (page_ok_range tf Htf). pose proof trampoline_range. pose proof etext_range. pose proof kend_range.
  rewrite /proc_pagetable. apply wp_bind, (wp_uvmcreate s fl ps); [done|intros ->; eapply Hf; [by apply undone_refl|simpl; lia]|].
  intros q s1 fl1 Hq Had1 Hfl1 Hl1. destruct (Z.eqb_spec q 0); [done|].
  assert (∀ va, upte s1 (mk_as q {[ [] := q ]} 0) va = 0) as Hz1 by (intros va; apply empty_table_pte).
  apply wp_bind, (wp_map_kpage s fl ps _ s1 fl1 TRAMPOLINE trampoline (Z.lor PTE_R PTE_X) _ Had1 Hfl1); try done; try lia; simpl.
  2: { intros s2 T2 Had2 Hup2 Hl2. apply wp_bind. eapply wp_mono; [apply (wp_uvmfree_last s2 [] ps (mk_as q T2 0) 0); try done; [apply Had2|]|].
    - intros va Hva _. by rewrite Hup2.
    - intros [] s3 (fl3 & Hr). apply wp_ret. eapply Hf; [|lia]. eapply added_removed; [done|exact Had2|exact Hr]. }
  intros s2 T2 fl2 Had2 Hfl2 Hup2 Hl2.
  apply wp_bind, (wp_map_kpage s fl ps _ s2 fl2 TRAPFRAME tf (Z.lor PTE_R PTE_W) _ Had2 Hfl2); try done; try lia; simpl.
  { rewrite Hup2; [|unfold legal; lia]. case_decide; [done|]. by rewrite Hz1. }
  - intros s3 T3 fl3 Had3 Hfl3 Hup3 Hl3. apply wp_ret. apply (Hs (mk_as q T3 0) s3 fl3); try done; [|lia]. split; [done|].
    intros va Hva _. rewrite Hup3 // Hup2 // Hz1 /kernel_pte. repeat case_decide; try done; dlia.
  - intros s3 T3 Had3 Hup3 Hl3. apply wp_bind, (wp_unmap_kpage s3 [] ps (mk_as q T3 0)); [apply Had3|done|done|done| |].
    { rewrite Hup3; [|unfold legal; lia]. rewrite Hup2; [|unfold legal; lia]. case_decide; [by apply kernel_leaf|done]. }
    intros s4 Hw4 Hrem Hup4. apply wp_bind. eapply wp_mono; [apply (wp_uvmfree_last s4 [] ps (mk_as q T3 0) 0); try done|].
    + intros va Hva _. rewrite Hup4 //. case_decide; [done|]. by rewrite Hup3 // Hup2 // decide_False.
    + intros [] s5 (fl5 & Hr). apply wp_ret. eapply Hf; [|lia]. eapply added_removed; [done|exact Had3|by apply Hrem].
Qed.
(** ** The memory of a new process *)

(** A page [tf] was taken for the trapframe and then [a] was added. *)
Definition made (s : kst) (fl : list Z) (ps : list aspace) (tf : Z) (a : aspace) (s' : kst) (fl' : list Z) : Prop :=
  ∃ fl0, fl = tf :: fl0 ∧ added (taken tf s) fl0 ps a s' fl'.

Lemma taken_mem s q : set_mem (mem (taken q s)) (taken q s) = taken q s.
Proof. done. Qed.

Lemma taken_eq_on s q : mem_eq_on (λ x, ¬ in_page q x) (mem s) (mem (taken q s)).
Proof. intros x Hx. simpl. by rewrite ld8_memset_page decide_False. Qed.

Lemma made_facts s fl ps tf a s' fl' :
  world s fl ps → made s fl ps tf a s' fl' →
  page_ok tf ∧ spare s' fl' (ps ++ [a]) tf ∧ ref s' tf = 1 ∧ world s' fl' (ps ++ [a]) ∧ seen s ps s' ∧ calm_to s fl ps s' fl' (ps ++ [a]).
Proof.
  intros Hw (fl0 & -> & [Hw' Hs Hc (_ & _ & Hr & _)]). destruct (kinv_head _ _ _ (wo_inv _ _ _ Hw)) as [Hq Hqf].
  destruct (world_taken s tf fl0 ps _ Hw (taken_eq_on s tf)) as (Hw0 & Hs0 & Hsp & Hr0 & Hc0 & _). rewrite taken_mem in Hw0 Hs0 Hsp Hr0 Hc0.
  pose proof (calm_spare _ _ _ _ _ _ _ Hw0 Hc Hsp) as Hsp'.
  split_and!; [done|done| |done|by eapply seen_trans|by eapply calm_to_trans].
  rewrite Hr //. change (occ (as_pages _ (mk_as 0 ∅ 0)) tf) with 0. rewrite Hr0 occ_not_in; [lia|].
  intros Hin. destruct Hsp' as (_ & _ & Hn & _). apply Hn. rewrite all_pages_snoc. apply elem_of_app. by right.
Qed.

(** Giving the trapframe page back. *)
Lemma wp_kfree_tf s fl ps tf a s' fl' :
  world s fl ps → made s fl ps tf a s' fl' →
  wp (kfree tf) (λ _ s2, ∃ fl2, added s fl ps a s2 fl2 ∧ ∀ va, upte s2 a va = upte s' a va) s'.
Proof.
  intros Hw Hmd. destruct (made_facts _ _ _ _ _ _ _ Hw Hmd) as (Hq & Hsp & Hr1 & Hw' & Hs & Hc).
  destruct Hmd as (fl0 & -> & [_ _ _ (Ht & Hn & Hr & Hf)]).
  destruct (world_freed s' fl' _ tf Hw' Hsp) as (Hw2 & Hs2 & Hr2 & Hc2 & Hu2).
  destruct (world_taken s tf fl0 ps _ Hw (taken_eq_on s tf)) as (_ & _ & _ & _ & _ & Hr0). rewrite taken_mem in Hr0.
  apply (wp_kfree s' fl' tf); [apply Hw'|apply Hw'|done|apply Hsp|lia|]. intros _ _. exists (tf :: fl').
  split; [|by intros va; apply (Hu2 (length ps)), snoc_last]. split; [done|..].
  - eapply seen_trans; [exact Hs|]. intros i b va Hi. by apply (Hs2 i), snoc_l.
  - intros x Hx. destruct (Hc x Hx) as [Hx' E]. destruct (Hc2 x) as [Hx2 E']; [|exact Hx'|split; [exact Hx2|by etrans]].
    intros Hin. destruct Hx as [Hx _]. apply Hx. exists tf. split; [apply elem_of_cons; by left|done].
  - split_and!; [done|..].
    + intros π q [Hq'|Hq']%Hn; [by left|]. right. apply elem_of_cons. by right.
    + intros p Hp Hnp. pose proof Hnp as [Hne Hn0]%not_elem_of_cons. rewrite Hr2 // Hr // Hr0 //.
      change (occ (as_pages s (mk_as 0 ∅ 0)) p) with 0. change (occ (as_pages (taken tf s) (mk_as 0 ∅ 0)) p) with 0.
      rewrite (as_pages_ext s' (freed tf s') a) //. intros va _. apply (Hu2 (length ps)), snoc_last.
    + intros p [->|Hp]%elem_of_cons; [left; apply elem_of_cons; by left|].
      destruct (Hf p Hp) as [?|?]; [left; apply elem_of_cons; by right|by right].
Qed.

Lemma made_step s fl ps tf a s1 fl1 a2 s2 fl2 :
  made s fl ps tf a s1 fl1 → (∀ p, p ∈ fl1 → p ∈ fl ∧ p ≠ tf) → world s2 fl2 (ps ++ [a2]) →
  view_kept s1 (ps ++ [a]) (length ps) s2 → calm_to s1 fl1 (ps ++ [a]) s2 fl2 (ps ++ [a2]) →
  accounted s1 fl1 a s2 fl2 a2 → made s fl ps tf a2 s2 fl2.
Proof.
  intros (fl0 & -> & Had) Hfl Hw Hv Hc Ha. exists fl0. split; [done|]. eapply added_step; try done.
  intros p [[->|?]%elem_of_cons ?]%Hfl; done.
Qed.
(** Giving it back when nothing was added. *)
Lemma wp_kfree_undone s tf fl0 ps s' fl' :
  world s (tf :: fl0) ps → undone (taken tf s) fl0 ps s' fl' →
  wp (kfree tf) (λ _ s2, ∃ fl2, undone s (tf :: fl0) ps s2 fl2) s'.
Proof.
  intros Hw [Hw' Hs Hc Hr]. destruct (kinv_head _ _ _ (wo_inv _ _ _ Hw)) as [Hq Hqf].
  destruct (world_taken s tf fl0 ps _ Hw (taken_eq_on s tf)) as (Hw0 & Hs0 & Hsp & Hr0 & Hc0 & _). rewrite taken_mem in Hw0 Hs0 Hsp Hr0 Hc0.
  pose proof (calm_spare _ _ _ _ _ _ _ Hw0 Hc Hsp) as Hsp'. pose proof (Hr tf Hq) as Hr1. rewrite Hr0 in Hr1.
  destruct (world_freed s' fl' _ tf Hw' Hsp') as (Hw2 & Hs2 & Hr2 & Hc2 & _).
  apply (wp_kfree s' fl' tf); [apply Hw'|apply Hw'|done|apply Hsp'|lia|]. intros _ _. exists (tf :: fl'). split; [done|..].
  - eapply seen_trans; [exact Hs0|]. by eapply seen_trans.
  - intros x Hx. destruct (Hc0 x Hx) as [Hx0 E0]. destruct (Hc x Hx0) as [Hx1 E1].
    destruct (Hc2 x) as [Hx2 E2]; [|exact Hx1|split; [exact Hx2|congruence]].
    intros Hin. destruct Hx as [Hx _]. apply Hx. exists tf. split; [apply elem_of_cons; by left|done].
  - intros p Hp. destruct (decide (p = tf)) as [->|Hne].
    + rewrite freed_ref // decide_True //. symmetry. apply (ki_ref _ _ (wo_inv _ _ _ Hw)); [done|]. apply elem_of_cons. by left.
    + rewrite Hr2 // Hr //. change (ref (taken tf s) p) with (ref (with_ref tf 1 s) p). by rewrite ref_ok_with_ref // decide_False.
Qed.

Lemma occ_length l p : occ l p ≤ Z.of_nat (length l).
Proof. rewrite /occ. pose proof (count_occ_bound Z.eq_dec p l). lia. Qed.

(** Making a process adds at most a reference per page of it. *)
Lemma made_room s fl ps tf a s' fl' n :
  world s fl ps → made s fl ps tf a s' fl' → room (as_n a + n) s → Z.of_nat n < 2 ^ 31 → room n s'.
Proof.
  intros Hw Hmd Hroom Hb p Hp. specialize (Hroom p Hp). destruct (made_facts _ _ _ _ _ _ _ Hw Hmd) as (Hq & _ & Hr1 & Hw' & _).
  destruct Hmd as (fl0 & -> & [_ _ _ (_ & _ & Hr & Hf)]). destruct (decide (p = tf)) as [->|Hne]; [lia|].
  destruct (decide (p ∈ fl0)) as [Hin|Hin].
  - destruct (Hf p Hin) as [Hin'|[π Hπ]]; [apply (ki_ref _ _ (wo_inv _ _ _ Hw') p Hp) in Hin'; lia|].
    rewrite (wo_tref _ _ _ Hw' _ a π p (snoc_last ps a) Hπ). lia.
  - rewrite Hr //. change (ref (taken tf s) p) with (ref (with_ref tf 1 s) p). rewrite ref_ok_with_ref // decide_False //.
    pose proof (occ_length (as_pages s' a) p) as Ho. rewrite /as_pages range_pages_length in Ho.
    change (occ (as_pages (taken tf s) (mk_as 0 ∅ 0)) p) with 0. unfold as_pages. lia.
Qed.

Definition npages (sz : Z) : nat := Z.to_nat ((sz + PGSIZE - 1) / PGSIZE).

(** [uvmcopy] from a process to the new one. *)
Lemma wp_uvmcopy_made s fl ps i par sz tf root T m fl' (Q : Z → kst → Prop) :
  world s fl ps → ps !! i = Some par → 0 ≤ sz → as_n par = npages sz → Z.of_nat (as_n par) * PGSIZE ≤ TRAPFRAME →
  room (npages sz) s → made s fl ps tf (mk_as root T 0) m fl' → proc_as m (mk_as root T 0) tf →
  (∀ q, q ∈ fl' → q ∈ fl ∧ q ≠ tf) →
  (∀ m2 T2 fl2, let child := mk_as root T2 (npages sz) in made s fl ps tf child m2 fl2 → proc_as m2 child tf →
     (∀ va, uread m2 child va = uread s par va) → (length fl' ≤ length fl2 + 2 * npages sz)%nat → Q 0 m2) →
  (∀ m2 T2 fl2, let child := mk_as root T2 0 in made s fl ps tf child m2 fl2 → proc_as m2 child tf →
     (length fl' < 2 * npages sz)%nat → Q (-1) m2) →
  wp (uvmcopy (as_root par) root sz) Q m.
Proof.
  intros Hw Hpar Hsz Hn Hlow Hroom Hmd [_ Hker] Hsub Hs Hf. set (N := npages sz) in *.
  destruct (made_facts _ _ _ _ _ _ _ Hw Hmd) as (Htf & Hsp & _ & Hwm & Hseen & Hc).
  assert (Z.of_nat N * PGSIZE ≤ TRAPFRAME) as HN by lia. pose proof (snoc_last ps (mk_as root T 0)) as Hlast.
  eapply wp_mono; [apply (wp_uvmcopy m fl' (ps ++ [mk_as root T 0]) i (length ps) par root T sz); try done|];
    fold (npages sz); fold N.
  - by apply snoc_l.
  - apply lookup_lt_Some in Hpar. lia.
  - rewrite Hn /N /npages. dlia.
  - eapply made_room; [exact Hw|exact Hmd|done|lia].
  - intros va Hva. etrans; [apply Hker|]; [unfold legal; lia|unfold in_as, span; simpl; lia|].
    rewrite /kernel_pte !decide_False //; dlia.
  - intros r m2 (T2 & fl2 & Hv & Hpost). cbv zeta in Hpost. rewrite !insert_last in Hpost.
    destruct Hpost as [(-> & Hw2 & Hc2 & Ha2 & Hl2 & Hout & Heq)|(-> & Hw2 & Hc2 & Ha2 & Hl2 & Hout)]; simpl in Hl2.
    + eapply (Hs m2 T2 fl2); [by eapply made_step| | |lia].
      * split; [done|]. intros va Hva Hn'. rewrite Hout //. apply Hker; [done|]. unfold in_as, span. simpl. lia.
      * intros va. destruct (Hseen i par va Hpar) as [<- _]. destruct (Hv i par va) as [<- _];
          [apply lookup_lt_Some in Hpar; lia|by apply snoc_l|]. rewrite /uread. destruct (decide (in_as par va)) as [Hin|Hin].
        -- rewrite Heq; [|unfold in_as, span in *; simpl; lia]. rewrite !bool_decide_eq_true_2 //. unfold in_as, span in *. simpl. lia.
        -- rewrite !bool_decide_eq_false_2 //. unfold in_as, span in *. simpl. lia.
    + eapply (Hf m2 T2 fl2); [by eapply made_step| |lia]. split; [done|]. intros va Hva Hn'. rewrite Hout //.
      rewrite decide_False //. by apply Hker.
Qed.
End procmem.
