(* ===== verification/Exec.v ===== *)
(** * exec (kernel/exec.c, kernel/elf.h)

    Loading a program file into a fresh page table, building the stack with
    the arguments, and the switch of the process to the new image.  [argv] is
    the list of the addresses of the argument strings. *)

From stdpp Require Import functions list.
From S2P Require Import Prelude Mem Cstring Riscv Spinlock Kalloc Vm Uvm Cow Sleeplock Bio Bcache Log Fs Virtio State Sched Dir Console Pipe File Proc.

Local Open Scope Z_scope.

Notation ELF_MAGIC := 0x464C457F.
Notation ELF_PROG_LOAD := 1.

(** Offsets in [struct elfhdr] and [struct proghdr]. *)
Notation SIZEOF_ELFHDR := 64.
Notation EH_MAGIC := 0.
Notation EH_ENTRY := 24.
Notation EH_PHOFF := 32.
Notation EH_PHNUM := 56.
Notation SIZEOF_PROGHDR := 56.
Notation PH_TYPE := 0.
Notation PH_FLAGS := 4.
Notation PH_OFF := 8.
Notation PH_VADDR := 16.
Notation PH_FILESZ := 32.
Notation PH_MEMSZ := 40.

Definition flags2perm (flags : Z) : Z :=
  let perm := if flag flags 1 then PTE_X else 0 in
  if flag flags 2 then Z.lor perm PTE_W else perm.

(** The next stack pointer: [n] bytes lower and aligned to 16. *)
Definition push_sp (sp n : Z) : Z := let sp := u64 (sp - n) in sp - sp mod 16.

(** The part of [path] after its last slash. *)
Fixpoint last_elem (fuel : nat) (m : gmap Z Z) (last s : Z) : option Z :=
  match fuel with
  | O => None
  | S fuel' =>
      if ld8 m s =? 0 then Some last
      else last_elem fuel' m (if ld8 m s =? SLASH then s + 1 else last) (s + 1)
  end.

(** Strings in kernel pages. *)
Definition kstrlen (s : Z) : M kern Z :=
  m ← in_mem (gets mem);
  match strlen 4097 m s with Some n => mret n | None => out_of_fuel end.

Section exec.
Context {KI : KernelImage} {KS : KernelSyms} {OT : Others}.

Fixpoint loadseg_loop (fuel : nat) (pagetable va ip offset sz i : Z) : M kern Z :=
  match fuel with
  | O => out_of_fuel
  | S fuel' =>
      if i <? sz then
        pa ← in_mem (walkaddr pagetable (u64 (va + i)));
        if pa =? 0 then panic "loadseg: address should exist"
        else
          let n := if sz - i <? PGSIZE then sz - i else PGSIZE in
          r ← readi ip false pa (u32 (offset + i)) n;
          if negb (u32 r =? n) then mret (-1)
          else loadseg_loop fuel' pagetable va ip offset sz (u32 (i + PGSIZE))
      else mret 0
  end.

Definition loadseg (pagetable va ip offset sz : Z) : M kern Z :=
  loadseg_loop (S (S (Z.to_nat (sz / PGSIZE)))) pagetable va ip offset sz 0.

(** [bad:]; [ip] is [None] once the inode was put. *)
Definition exec_bad (pagetable sz : Z) (ip : option Z) : M kern Z :=
  (if negb (pagetable =? 0) then in_mem (proc_freepagetable pagetable sz) else mret tt);;
  (match ip with
   | Some ip => in_fs (iunlockput ip);; in_fs end_op
   | None => mret tt
   end);;
  mret (-1).

(** The loop over the [n] program headers left: whether it ran to its end,
    and [sz]. *)
Fixpoint load_loop (n : nat) (pagetable ip off sz : Z) : M kern (bool * Z) :=
  match n with
  | O => mret (true, sz)
  | S n' =>
      ph ← local LOC_PH;
      r ← readi ip false ph (u32 off) SIZEOF_PROGHDR;
      if negb (r =? SIZEOF_PROGHDR) then mret (false, sz)
      else
        m ← in_mem (gets mem);
        let vaddr := ld64 m (ph + PH_VADDR) in
        let memsz := ld64 m (ph + PH_MEMSZ) in
        let filesz := ld64 m (ph + PH_FILESZ) in
        if negb (ld32 m (ph + PH_TYPE) =? ELF_PROG_LOAD) then load_loop n' pagetable ip (s32 (off + SIZEOF_PROGHDR)) sz
        else if memsz <? filesz then mret (false, sz)
        else if u64 (vaddr + memsz) <? vaddr then mret (false, sz)
        else if negb (vaddr mod PGSIZE =? 0) then mret (false, sz)
        else
          sz1 ← in_mem (uvmalloc pagetable sz (u64 (vaddr + memsz)) (flags2perm (ld32 m (ph + PH_FLAGS))));
          if sz1 =? 0 then mret (false, sz)
          else
            e ← loadseg pagetable vaddr ip (u32 (ld64 m (ph + PH_OFF))) (u32 filesz);
            if e <? 0 then mret (false, sz1)
            else load_loop n' pagetable ip (s32 (off + SIZEOF_PROGHDR)) sz1
  end.

(** Push the argument strings: the stack pointer and [argc], or [None] for
    [goto bad]. *)
Fixpoint push_args (argv : list Z) (mine pagetable stackbase sp argc : Z) : M kern (option (Z * Z)) :=
  match argv with
  | [] => mret (Some (sp, argc))
  | a :: argv' =>
      if MAXARG <=? argc then mret None
      else
        len ← kstrlen a;
        let sp := push_sp sp (len + 1) in
        if sp <? stackbase then mret None
        else
          r ← in_mem (copyout mine pagetable sp a (len + 1));
          if r <? 0 then mret None
          else
            ustack ← local LOC_USTACK;
            in_mem (store64 (ustack + 8 * argc) sp);;
            push_args argv' mine pagetable stackbase sp (argc + 1)
  end.

(** From [p->trapframe->a1 = sp] on. *)
Definition exec_commit (path pagetable oldsz sz sp argc entry : Z) : M kern Z :=
  p ← myproc;
  tf_set p TF_A1 sp;;
  m ← in_mem (gets mem);
  match last_elem path_fuel m path path with
  | None => out_of_fuel
  | Some last =>
      upd_proc p (with_p_name (proc_name (cname path_fuel m last)));;
      x ← proc_at p;
      let oldpagetable := p_pagetable x in
      upd_proc p (with_p_pagetable pagetable);;
      upd_proc p (with_p_sz sz);;
      tf_set p TF_EPC entry;;
      tf_set p TF_SP sp;;
      in_mem (proc_freepagetable oldpagetable oldsz);;
      mret argc
  end.

(** The stack and the arguments, once the program is loaded. *)
Definition exec_stack (path : Z) (argv : list Z) (pagetable sz entry : Z) : M kern Z :=
  p ← myproc;
  x ← proc_at p;
  let oldsz := p_sz x in
  let sz := PGROUNDUP sz in
  sz1 ← in_mem (uvmalloc pagetable sz (u64 (sz + 2 * PGSIZE)) PTE_W);
  if sz1 =? 0 then exec_bad pagetable sz None
  else
    let sz := sz1 in
    in_mem (uvmclear pagetable (sz - 2 * PGSIZE));;
    let stackbase := sz - PGSIZE in
    r ← push_args argv (p_pagetable x) pagetable stackbase sz 0;
    match r with
    | None => exec_bad pagetable sz None
    | Some (sp, argc) =>
        if MAXARG <=? argc then undefined
        else
          ustack ← local LOC_USTACK;
          in_mem (store64 (ustack + 8 * argc) 0);;
          let sp := push_sp sp ((argc + 1) * 8) in
          if sp <? stackbase then exec_bad pagetable sz None
          else
            e ← in_mem (copyout (p_pagetable x) pagetable sp ustack ((argc + 1) * 8));
            if e <? 0 then exec_bad pagetable sz None
            else exec_commit path pagetable oldsz sz sp argc entry
    end.

Definition exec (path : Z) (argv : list Z) : M kern Z :=
  p ← myproc;
  in_fs begin_op;;
  ip ← namei path;
  match ip with
  | None =>
      in_fs end_op;;
      mret (-1)
  | Some ip =>
      in_fs (ilock ip);;
      elf ← local LOC_ELF;
      r ← readi ip false elf 0 SIZEOF_ELFHDR;
      m ← in_mem (gets mem);
      if negb (r =? SIZEOF_ELFHDR) then exec_bad 0 0 (Some ip)
      else if negb (ld32 m (elf + EH_MAGIC) =? ELF_MAGIC) then exec_bad 0 0 (Some ip)
      else
        x ← proc_at p;
        pagetable ← in_mem (proc_pagetable (p_trapframe x));
        if pagetable =? 0 then exec_bad 0 0 (Some ip)
        else
          l ← load_loop (Z.to_nat (ld16 m (elf + EH_PHNUM))) pagetable ip (s32 (ld64 m (elf + EH_PHOFF))) 0;
          let '(ok, sz) := l in
          if negb ok then exec_bad pagetable sz (Some ip)
          else
            in_fs (iunlockput ip);;
            in_fs end_op;;
            exec_stack path argv pagetable sz (ld64 m (elf + EH_ENTRY))
  end.
End exec.
