(* ===== verification/Sysarg.v ===== *)
(** * System call arguments (kernel/syscall.c)

    Fetching the arguments of a system call from the trap frame and from user
    memory.  ([syscall] itself is in [Syscall].) *)

From stdpp Require Import functions list.
From S2P Require Import Prelude Mem Cstring Riscv Spinlock Kalloc Vm Uvm Cow Sleeplock Bio Bcache Log Fs Virtio State Sched Dir Console Pipe File Proc Exec.

Local Open Scope Z_scope.

Section sysarg.
Context {KI : KernelImage}.

(** The 64-bit word at user address [addr] is stored at kernel address [ip]. *)
Definition fetchaddr (addr ip : Z) : M kern Z :=
  p ← myproc;
  x ← proc_at p;
  if (p_sz x <=? addr) || (p_sz x <? u64 (addr + 8)) then mret (-1)
  else
    r ← in_mem (copyin (p_pagetable x) ip addr 8);
    if negb (r =? 0) then mret (-1) else mret 0.

Definition fetchstr (addr buf max : Z) : M kern Z :=
  p ← myproc;
  x ← proc_at p;
  r ← in_mem (copyinstr (p_pagetable x) buf addr max);
  if r <? 0 then mret (-1) else kstrlen buf.

Definition argraw (n : Z) : M kern Z :=
  p ← myproc;
  if n =? 0 then tf_get p TF_A0
  else if n =? 1 then tf_get p TF_A1
  else if n =? 2 then tf_get p TF_A2
  else if n =? 3 then tf_get p TF_A3
  else if n =? 4 then tf_get p TF_A4
  else if n =? 5 then tf_get p TF_A5
  else panic "argraw".

Definition argint (n : Z) : M kern Z := v ← argraw n; mret (s32 v).
Definition argaddr (n : Z) : M kern Z := argraw n.

Definition argstr (n buf max : Z) : M kern Z :=
  addr ← argaddr n;
  fetchstr addr buf max.
End sysarg.
