(* ===== verification/Sysfile.v ===== *)
(** * File system calls (kernel/sysfile.c) *)

From stdpp Require Import functions list.
From S2P Require Import Prelude Mem Cstring Riscv Spinlock Kalloc Vm Uvm Cow Sleeplock Bio Bcache Log Fs Virtio State Sched Dir Console Pipe File Proc Exec Sysarg.

Local Open Scope Z_scope.

Notation O_RDONLY := 0x000.
Notation O_WRONLY := 0x001.
Notation O_RDWR := 0x002.
Notation O_CREATE := 0x200.
Notation O_TRUNC := 0x400.

Fixpoint fdalloc_loop (n : nat) (p f fd : Z) : M kern Z :=
  match n with
  | O => mret (-1)
  | S n' =>
      x ← proc_at p;
      match p_ofile x !! fd with
      | None =>
          upd_proc p (λ x, with_p_ofile (<[fd := f]> (p_ofile x)) x);;
          mret fd
      | Some _ => fdalloc_loop n' p f (fd + 1)
      end
  end.

Definition fdalloc (f : Z) : M kern Z :=
  p ← myproc;
  fdalloc_loop (Z.to_nat NOFILE) p f 0.

(** [myproc()->ofile[fd] = 0] *)
Definition clear_fd (fd : Z) : M kern unit :=
  p ← myproc;
  upd_proc p (λ x, with_p_ofile (delete fd (p_ofile x)) x).

Section sysfile.
Context {KI : KernelImage} {KS : KernelSyms} {OT : Others}.

(** The descriptor and the file, or [None] for -1. *)
Definition argfd (n : Z) : M kern (option (Z * Z)) :=
  fd ← argint n;
  p ← myproc;
  x ← proc_at p;
  if (fd <? 0) || (NOFILE <=? fd) then mret None
  else mret (pair fd <$> p_ofile x !! fd).

Definition sys_dup : M kern Z :=
  r ← argfd 0;
  match r with
  | None => mret (-1)
  | Some (_, f) =>
      fd ← fdalloc f;
      if fd <? 0 then mret (-1)
      else
        filedup f;;
        mret fd
  end.

Definition sys_read : M kern Z :=
  p ← argaddr 1;
  n ← argint 2;
  r ← argfd 0;
  match r with
  | None => mret (-1)
  | Some (_, f) => fileread f p n
  end.

Definition sys_write : M kern Z :=
  p ← argaddr 1;
  n ← argint 2;
  r ← argfd 0;
  match r with
  | None => mret (-1)
  | Some (_, f) => filewrite f p n
  end.

Definition sys_close : M kern Z :=
  r ← argfd 0;
  match r with
  | None => mret (-1)
  | Some (fd, f) =>
      clear_fd fd;;
      fileclose f;;
      mret 0
  end.

Definition sys_fstat : M kern Z :=
  st ← argaddr 1;
  r ← argfd 0;
  match r with
  | None => mret (-1)
  | Some (_, f) => filestat f st
  end.

(** [bad:] of [sys_link] *)
Definition link_bad (ip : Z) : M kern Z :=
  in_fs (ilock ip);;
  in_fs (upd_inode ip (λ x, with_nlink (s16 (i_nlink x - 1)) x));;
  in_fs (iupdate ip);;
  in_fs (iunlockput ip);;
  in_fs end_op;;
  mret (-1).

Definition sys_link : M kern Z :=
  name ← local LOC_NAME;
  new ← local LOC_NEW;
  old ← local LOC_OLD;
  a ← argstr 0 old MAXPATH;
  b ← (if a <? 0 then mret (-1) else argstr 1 new MAXPATH);
  if b <? 0 then mret (-1)
  else
    in_fs begin_op;;
    r ← namei old;
    match r with
    | None =>
        in_fs end_op;;
        mret (-1)
    | Some ip =>
        in_fs (ilock ip);;
        x ← in_fs (inode_at ip);
        if i_type x =? T_DIR then
          in_fs (iunlockput ip);;
          in_fs end_op;;
          mret (-1)
        else
          in_fs (upd_inode ip (λ x, with_nlink (s16 (i_nlink x + 1)) x));;
          in_fs (iupdate ip);;
          in_fs (iunlock ip);;
          r ← nameiparent new name;
          match r with
          | None => link_bad ip
          | Some dp =>
              in_fs (ilock dp);;
              d ← in_fs (inode_at dp);
              x ← in_fs (inode_at ip);
              e ← (if negb (i_dev d =? i_dev x) then mret (-1) else dirlink dp name (i_inum x));
              if e <? 0 then
                in_fs (iunlockput dp);;
                link_bad ip
              else
                in_fs (iunlockput dp);;
                in_fs (iput ip);;
                in_fs end_op;;
                mret 0
          end
    end.

Fixpoint isdirempty_loop (fuel : nat) (dp off : Z) : M kern bool :=
  match fuel with
  | O => out_of_fuel
  | S fuel' =>
      x ← in_fs (inode_at dp);
      if off <? i_size x then
        de ← local LOC_DE;
        r ← readi dp false de off SIZEOF_DIRENT;
        if negb (r =? SIZEOF_DIRENT) then panic "isdirempty: readi"
        else
          inum ← in_mem (gets (λ k, ld16 (mem k) (de + DE_INUM)));
          if negb (inum =? 0) then mret false
          else isdirempty_loop fuel' dp (off + SIZEOF_DIRENT)
      else mret true
  end.

Definition isdirempty (dp : Z) : M kern bool :=
  x ← in_fs (inode_at dp);
  isdirempty_loop (S (Z.to_nat (i_size x / SIZEOF_DIRENT))) dp (2 * SIZEOF_DIRENT).

(** [bad:] of [sys_unlink] *)
Definition unlink_bad (dp : Z) : M kern Z :=
  in_fs (iunlockput dp);;
  in_fs end_op;;
  mret (-1).

(** From [memset(&de, 0, sizeof(de))] on. *)
Definition unlink_entry (dp ip off : Z) : M kern Z :=
  de ← local LOC_DE;
  in_mem (kmemset de 0 SIZEOF_DIRENT);;
  r ← writei dp false de off SIZEOF_DIRENT;
  if negb (r =? SIZEOF_DIRENT) then panic "unlink: writei"
  else
    x ← in_fs (inode_at ip);
    (if i_type x =? T_DIR then
       in_fs (upd_inode dp (λ d, with_nlink (s16 (i_nlink d - 1)) d));;
       in_fs (iupdate dp)
     else mret tt);;
    in_fs (iunlockput dp);;
    in_fs (upd_inode ip (λ x, with_nlink (s16 (i_nlink x - 1)) x));;
    in_fs (iupdate ip);;
    in_fs (iunlockput ip);;
    in_fs end_op;;
    mret 0.

Definition sys_unlink : M kern Z :=
  name ← local LOC_NAME;
  path ← local LOC_PATH;
  a ← argstr 0 path MAXPATH;
  if a <? 0 then mret (-1)
  else
    in_fs begin_op;;
    r ← nameiparent path name;
    match r with
    | None =>
        in_fs end_op;;
        mret (-1)
    | Some dp =>
        in_fs (ilock dp);;
        c1 ← namecmp name str_dot;
        c2 ← namecmp name str_dotdot;
        if (c1 =? 0) || (c2 =? 0) then unlink_bad dp
        else
          r ← dirlookup dp name;
          match r with
          | None => unlink_bad dp
          | Some (ip, off) =>
              in_fs (ilock ip);;
              x ← in_fs (inode_at ip);
              if i_nlink x <? 1 then panic "unlink: nlink < 1"
              else
                empty ← (if i_type x =? T_DIR then isdirempty ip else mret true);
                if negb empty then
                  in_fs (iunlockput ip);;
                  unlink_bad dp
                else unlink_entry dp ip off
          end
    end.

(** [fail:] of [create] *)
Definition create_fail (dp ip : Z) : M kern (option Z) :=
  in_fs (upd_inode ip (with_nlink 0));;
  in_fs (iupdate ip);;
  in_fs (iunlockput ip);;
  in_fs (iunlockput dp);;
  mret None.

(** The entries [.] and [..] of a new directory. *)
Definition link_dots (dp ip : Z) : M kern Z :=
  x ← in_fs (inode_at ip);
  e ← dirlink ip str_dot (i_inum x);
  if e <? 0 then mret (-1)
  else
    d ← in_fs (inode_at dp);
    dirlink ip str_dotdot (i_inum d).

(** A new inode in [dp]: from [ialloc] on. *)
Definition create_new (dp name type major minor : Z) : M kern (option Z) :=
  d ← in_fs (inode_at dp);
  r ← in_fs (ialloc (i_dev d) type);
  match r with
  | None =>
      in_fs (iunlockput dp);;
      mret None
  | Some ip =>
      in_fs (ilock ip);;
      in_fs (upd_inode ip (with_majmin major minor));;
      in_fs (upd_inode ip (with_nlink 1));;
      in_fs (iupdate ip);;
      e ← (if type =? T_DIR then link_dots dp ip else mret 0);
      if e <? 0 then create_fail dp ip
      else
        x ← in_fs (inode_at ip);
        e ← dirlink dp name (i_inum x);
        if e <? 0 then create_fail dp ip
        else
          (if type =? T_DIR then
             in_fs (upd_inode dp (λ d, with_nlink (s16 (i_nlink d + 1)) d));;
             in_fs (iupdate dp)
           else mret tt);;
          in_fs (iunlockput dp);;
          mret (Some ip)
  end.

Definition create (path type major minor : Z) : M kern (option Z) :=
  name ← local LOC_NAME;
  r ← nameiparent path name;
  match r with
  | None => mret None
  | Some dp =>
      in_fs (ilock dp);;
      r ← dirlookup dp name;
      match r with
      | Some (ip, _) =>
          in_fs (iunlockput dp);;
          in_fs (ilock ip);;
          x ← in_fs (inode_at ip);
          if (type =? T_FILE) && ((i_type x =? T_FILE) || (i_type x =? T_DEVICE)) then mret (Some ip)
          else
            in_fs (iunlockput ip);;
            mret None
      | None => create_new dp name type major minor
      end
  end.

(** The file for the locked inode [ip]: from the check of the device number
    on. *)
Definition open_inode (ip omode : Z) : M kern Z :=
  x ← in_fs (inode_at ip);
  if (i_type x =? T_DEVICE) && ((i_major x <? 0) || (NDEV <=? i_major x)) then
    in_fs (iunlockput ip);;
    in_fs end_op;;
    mret (-1)
  else
    f ← filealloc;
    fd ← (match f with Some f => fdalloc f | None => mret (-1) end);
    match f with
    | Some f =>
        if fd <? 0 then
          fileclose f;;
          in_fs (iunlockput ip);;
          in_fs end_op;;
          mret (-1)
        else
          (if i_type x =? T_DEVICE then
             upd_file f (with_f_type FD_DEVICE);;
             upd_file f (with_f_major (i_major x))
           else
             upd_file f (with_f_type FD_INODE);;
             upd_file f (with_f_off 0));;
          upd_file f (with_f_ip ip);;
          upd_file f (with_f_readable (negb (flag omode O_WRONLY)));;
          upd_file f (with_f_writable (flag omode O_WRONLY || flag omode O_RDWR));;
          (if flag omode O_TRUNC && (i_type x =? T_FILE) then in_fs (itrunc ip) else mret tt);;
          in_fs (iunlock ip);;
          in_fs end_op;;
          mret fd
    | None =>
        in_fs (iunlockput ip);;
        in_fs end_op;;
        mret (-1)
    end.

Definition sys_open : M kern Z :=
  path ← local LOC_PATH;
  omode ← argint 1;
  n ← argstr 0 path MAXPATH;
  if n <? 0 then mret (-1)
  else
    in_fs begin_op;;
    if flag omode O_CREATE then
      r ← create path T_FILE 0 0;
      match r with
      | None =>
          in_fs end_op;;
          mret (-1)
      | Some ip => open_inode ip omode
      end
    else
      r ← namei path;
      match r with
      | None =>
          in_fs end_op;;
          mret (-1)
      | Some ip =>
          in_fs (ilock ip);;
          x ← in_fs (inode_at ip);
          if (i_type x =? T_DIR) && negb (omode =? O_RDONLY) then
            in_fs (iunlockput ip);;
            in_fs end_op;;
            mret (-1)
          else open_inode ip omode
      end.

(** The common end of [sys_mkdir] and [sys_mknod]. *)
Definition create_done (r : option Z) : M kern Z :=
  match r with
  | None =>
      in_fs end_op;;
      mret (-1)
  | Some ip =>
      in_fs (iunlockput ip);;
      in_fs end_op;;
      mret 0
  end.

Definition sys_mkdir : M kern Z :=
  path ← local LOC_PATH;
  in_fs begin_op;;
  n ← argstr 0 path MAXPATH;
  r ← (if n <? 0 then mret None else create path T_DIR 0 0);
  create_done r.

Definition sys_mknod : M kern Z :=
  path ← local LOC_PATH;
  in_fs begin_op;;
  major ← argint 1;
  minor ← argint 2;
  n ← argstr 0 path MAXPATH;
  r ← (if n <? 0 then mret None else create path T_DEVICE (s16 major) (s16 minor));
  create_done r.

Definition sys_chdir : M kern Z :=
  path ← local LOC_PATH;
  p ← myproc;
  in_fs begin_op;;
  n ← argstr 0 path MAXPATH;
  r ← (if n <? 0 then mret None else namei path);
  match r with
  | None =>
      in_fs end_op;;
      mret (-1)
  | Some ip =>
      in_fs (ilock ip);;
      x ← in_fs (inode_at ip);
      if negb (i_type x =? T_DIR) then
        in_fs (iunlockput ip);;
        in_fs end_op;;
        mret (-1)
      else
        in_fs (iunlock ip);;
        y ← proc_at p;
        (match p_cwd y with Some d => in_fs (iput d) | None => undefined end);;
        in_fs end_op;;
        upd_proc p (with_p_cwd (Some ip));;
        mret 0
  end.

(** [for(i = 0; i < NELEM(argv) && argv[i] != 0; i++) kfree(argv[i]);] *)
Fixpoint free_args (argv : list Z) : M kern unit :=
  match argv with
  | [] => mret tt
  | a :: argv' =>
      in_mem (kfree a);;
      free_args argv'
  end.

(** The loop that copies the arguments in: whether it met the null pointer,
    and the pages filled. *)
Fixpoint fetch_args (n : nat) (uargv i : Z) (argv : list Z) : M kern (bool * list Z) :=
  match n with
  | O => mret (false, argv)
  | S n' =>
      uarg ← local LOC_UARG;
      e ← fetchaddr (u64 (uargv + 8 * i)) uarg;
      if e <? 0 then mret (false, argv)
      else
        a ← in_mem (load64 uarg);
        if a =? 0 then mret (true, argv)
        else
          page ← in_mem kalloc;
          if page =? 0 then mret (false, argv)
          else
            e ← fetchstr a page PGSIZE;
            if e <? 0 then mret (false, argv ++ [page])
            else fetch_args n' uargv (i + 1) (argv ++ [page])
  end.

Definition sys_exec : M kern Z :=
  path ← local LOC_PATH;
  uargv ← argaddr 1;
  n ← argstr 0 path MAXPATH;
  if n <? 0 then mret (-1)
  else
    r ← fetch_args (Z.to_nat MAXARG) uargv 0 [];
    let '(ok, argv) := r in
    ret ← (if ok : bool then exec path argv else mret (-1));
    free_args argv;;
    mret ret.

Definition sys_pipe : M kern Z :=
  p ← myproc;
  fdarray ← argaddr 0;
  r ← pipealloc;
  match r with
  | None => mret (-1)
  | Some (rf, wf) =>
      fd0 ← fdalloc rf;
      fd1 ← (if fd0 <? 0 then mret (-1) else fdalloc wf);
      if (fd0 <? 0) || (fd1 <? 0) then
        (if 0 <=? fd0 then clear_fd fd0 else mret tt);;
        fileclose rf;;
        fileclose wf;;
        mret (-1)
      else
        a0 ← local LOC_FD0;
        a1 ← local LOC_FD1;
        in_mem (modify (λ s, set_mem (st32 (st32 (mem s) a0 fd0) a1 fd1) s));;
        x ← proc_at p;
        e ← in_mem (copyout (p_pagetable x) (p_pagetable x) fdarray a0 4);
        e ← (if e <? 0 then mret (-1)
             else in_mem (copyout (p_pagetable x) (p_pagetable x) (u64 (fdarray + 4)) a1 4));
        if e <? 0 then
          clear_fd fd0;;
          clear_fd fd1;;
          fileclose rf;;
          fileclose wf;;
          mret (-1)
        else mret 0
  end.
End sysfile.
