(* ===== verification/Frame.v ===== *)
(** * What the system calls leave alone

    Two states are [quiet]ly related when the open files of the processes,
    their pids, the reference counts of the files, the running process and the
    next pid are the same, and no process has ended.  The code that works on
    memory, on the file system, on pipes and on the console is quiet; the
    invariant of the file table, in [Refs], is shown with it. *)

From stdpp Require Import functions list.
From S2P Require Import Prelude Mem Cstring Riscv Spinlock Kalloc Vm Uvm Cow Usermem Demo Sleeplock Bio Bcache Log Fs Virtio State Sched Dir Console Pipe File Proc Exec Sysarg Sysfile.

Local Open Scope Z_scope.

(** A slot without a living process. *)
Definition dead (st : procstate) : bool := match st with UNUSED | ZOMBIE => true | _ => false end.

Record quiet (s s' : kern) : Prop := {
  q_ref : ∀ x, f_ref (k_files s' x) = f_ref (k_files s x);
  q_ofile : ∀ p, p_ofile (k_procs s' p) = p_ofile (k_procs s p);
  q_pid : ∀ p, p_pid (k_procs s' p) = p_pid (k_procs s p);
  q_dead : ∀ p, dead (p_state (k_procs s' p)) = true → dead (p_state (k_procs s p)) = true;
  q_cur : k_cur s' = k_cur s;
  q_next : k_nextpid s' = k_nextpid s;
}.

#[global] Instance quiet_preorder : PreOrder quiet.
Proof.
  split.
  - by intros s.
  - intros s s1 s2 [A1 A2 A3 A4 A5 A6] [B1 B2 B3 B4 B5 B6].
    split; intros; [by rewrite B1|by rewrite B2|by rewrite B3|by apply A4, B4|by rewrite B5|by rewrite B6].
Qed.

(** Updates of a process and of a file that are quiet. *)
Definition quiet_upd (g : proc → proc) : Prop :=
  ∀ x, p_ofile (g x) = p_ofile x ∧ p_pid (g x) = p_pid x ∧ (dead (p_state (g x)) = true → dead (p_state x) = true).
Definition quiet_fupd (g : file → file) : Prop := ∀ x, f_ref (g x) = f_ref x.

Section frame.
Context {KI : KernelImage} {KS : KernelSyms} {OT : Others}.

Lemma quiet_in_mem {A} (c : M kst A) : upholds quiet (in_mem c).
Proof.
  intros s a s'. rewrite /in_mem /zoom. by destruct (c (k_mem s)) as [[? ?]| | |]; intros [= <- <-].
Qed.
Lemma quiet_in_fs {A} (c : M fsst A) : upholds quiet (in_fs c).
Proof.
  intros s a s'. rewrite /in_fs /zoom. by destruct (c _) as [[? ?]| | |]; intros [= <- <-].
Qed.
Lemma quiet_acquire l : upholds quiet (acquire l).
Proof. intros s a s'. rewrite /acquire. case_decide; [done|]. by intros [= <- <-]. Qed.
Lemma quiet_release l : upholds quiet (release l).
Proof. intros s a s'. rewrite /release. case_decide; [|done]. by intros [= <- <-]. Qed.
Lemma quiet_upd_proc p g : quiet_upd g → upholds quiet (upd_proc p g).
Proof.
  intros Hg. apply upholds_modify. intros s. pose proof (Hg (k_procs s p)) as (H1 & H2 & H3).
  split; simpl; try done; intros q; rewrite /insert /fn_insert; case_decide; subst; done.
Qed.
Lemma quiet_upd_file x g : quiet_fupd g → upholds quiet (upd_file x g).
Proof.
  intros Hg. apply upholds_modify. intros s. split; simpl; try done.
  intros y. rewrite /insert /fn_insert. case_decide; subst; [apply Hg|done].
Qed.
Lemma quiet_proc_at p : upholds quiet (proc_at p).
Proof. apply upholds_gets, _. Qed.
Lemma quiet_file_at p : upholds quiet (file_at p).
Proof. apply upholds_gets, _. Qed.
Lemma quiet_myproc : upholds quiet myproc.
Proof. rewrite /myproc. solve_upholds. Qed.
Lemma quiet_upd_uart g : upholds quiet (upd_uart g).
Proof. by apply upholds_modify. Qed.
Lemma quiet_upd_cons g : upholds quiet (upd_cons g).
Proof. by apply upholds_modify. Qed.
Lemma quiet_upd_csr g : upholds quiet (upd_csr g).
Proof. by apply upholds_modify. Qed.
End frame.

#[export] Hint Resolve quiet_in_mem quiet_in_fs quiet_acquire quiet_release quiet_proc_at quiet_file_at
  quiet_myproc quiet_upd_uart quiet_upd_cons quiet_upd_csr : upholds.
#[export] Hint Extern 1 (upholds _ (upd_proc _ _)) => apply quiet_upd_proc; by intros ? : upholds.
#[export] Hint Extern 1 (upholds _ (upd_file _ _)) => apply quiet_upd_file; by intros ? : upholds.

(** Loops: induction on the fuel, with everything else general. *)
Ltac upholds_loop n := induction n; intros; simpl; solve_upholds.

Section frame_code.
Context {KI : KernelImage} {KS : KernelSyms} {OT : Others}.
(** A preorder that quiet steps respect, and that the other processes, which
    run while this one waits, respect too. *)
Context (R : kern → kern → Prop) `{!PreOrder R} (Hquiet : ∀ s s', quiet s s' → R s s').
Context (Hothers : ∀ p, upholds R (others p)).

Lemma lift_quiet {A} (c : M kern A) : upholds quiet c → upholds R c.
Proof. intros Hc s a s' H. by eapply Hquiet, Hc. Qed.
#[local] Hint Resolve Hothers : upholds.
#[local] Hint Extern 4 (upholds R _) => apply lift_quiet; solve [eauto 2 with upholds] : upholds.

(** ** proc.c *)

Lemma quiet_wakeup c : upholds R (wakeup c).
Proof. rewrite /wakeup /wakeup_one. solve_upholds. Qed.
#[local] Hint Resolve quiet_wakeup : upholds.
Lemma quiet_sched : upholds R sched.
Proof. rewrite /sched /intr_get. solve_upholds. Qed.
#[local] Hint Resolve quiet_sched : upholds.
Lemma quiet_sleep c l : upholds R (sleep c l).
Proof. rewrite /sleep. solve_upholds. Qed.
#[local] Hint Resolve quiet_sleep : upholds.
Lemma quiet_killed p : upholds R (killed p).
Proof. rewrite /killed. solve_upholds. Qed.
#[local] Hint Resolve quiet_killed : upholds.
Lemma quiet_kill pid : upholds R (kill pid).
Proof. rewrite /kill. generalize 0 (Z.to_nat NPROC). intros p n. revert p. upholds_loop n. Qed.
Lemma quiet_either_copyout u d a n : upholds R (either_copyout u d a n).
Proof. rewrite /either_copyout. solve_upholds. Qed.
Lemma quiet_either_copyin d u a n : upholds R (either_copyin d u a n).
Proof. rewrite /either_copyin. solve_upholds. Qed.
Lemma quiet_local k : upholds R (local k).
Proof. rewrite /local. solve_upholds. Qed.
Lemma quiet_tf_get p k : upholds R (tf_get p k).
Proof. rewrite /tf_get. solve_upholds. Qed.
Lemma quiet_tf_set p k v : upholds R (tf_set p k v).
Proof. rewrite /tf_set. solve_upholds. Qed.
#[local] Hint Resolve quiet_either_copyout quiet_either_copyin quiet_local quiet_tf_get quiet_tf_set : upholds.

(** ** fs.c *)

Lemma quiet_expose b o n : upholds R (expose b o n).
Proof. rewrite /expose. solve_upholds. Qed.
Lemma quiet_absorb b o n : upholds R (absorb b o n).
Proof. rewrite /absorb. solve_upholds. Qed.
#[local] Hint Resolve quiet_expose quiet_absorb : upholds.
Lemma quiet_readi ip u d o n : upholds R (readi ip u d o n).
Proof.
  assert (∀ k d o n t, upholds R (readi_loop k ip u d o n t)) as Hl by upholds_loop k.
  rewrite /readi. solve_upholds.
Qed.
#[local] Hint Resolve quiet_readi : upholds.
Lemma quiet_writei ip u d o n : upholds R (writei ip u d o n).
Proof.
  assert (∀ k d o t, upholds R (writei_loop k ip u d o n t)) as Hl by upholds_loop k.
  rewrite /writei. solve_upholds.
Qed.
#[local] Hint Resolve quiet_writei : upholds.
Lemma quiet_namecmp a b : upholds R (namecmp a b).
Proof. rewrite /namecmp. solve_upholds. Qed.
#[local] Hint Resolve quiet_namecmp : upholds.
Lemma quiet_dirlookup dp name : upholds R (dirlookup dp name).
Proof.
  assert (∀ k o, upholds R (dirlookup_loop k dp name o)) as Hl by upholds_loop k.
  rewrite /dirlookup. solve_upholds.
Qed.
#[local] Hint Resolve quiet_dirlookup : upholds.
Lemma quiet_dirlink dp name inum : upholds R (dirlink dp name inum).
Proof.
  assert (∀ k o, upholds R (dirlink_scan k dp o)) as Hl by upholds_loop k.
  rewrite /dirlink. solve_upholds.
Qed.
#[local] Hint Resolve quiet_dirlink : upholds.
Lemma quiet_skipelem a b : upholds R (skipelem a b).
Proof. rewrite /skipelem. solve_upholds. Qed.
#[local] Hint Resolve quiet_skipelem : upholds.
Lemma quiet_namex path parent name : upholds R (namex path parent name).
Proof.
  assert (∀ k ip q, upholds R (namex_loop k ip q parent name)) as Hl by upholds_loop k.
  rewrite /namex. solve_upholds.
Qed.
#[local] Hint Resolve quiet_namex : upholds.
Lemma quiet_namei path : upholds R (namei path).
Proof. rewrite /namei. solve_upholds. Qed.
Lemma quiet_nameiparent path name : upholds R (nameiparent path name).
Proof. apply quiet_namex. Qed.
#[local] Hint Resolve quiet_namei quiet_nameiparent : upholds.

(** ** The console and pipes *)

Lemma quiet_uartstart : upholds R uartstart.
Proof. rewrite /uartstart /send. generalize (S (Z.to_nat UART_TX_BUF_SIZE)). intros n. upholds_loop n. Qed.
#[local] Hint Resolve quiet_uartstart : upholds.
Lemma quiet_uartputc c : upholds R (uartputc c).
Proof.
  assert (∀ n, upholds R (uart_wait n)) as Hl by upholds_loop n. rewrite /uartputc. solve_upholds.
Qed.
#[local] Hint Resolve quiet_uartputc : upholds.
Lemma quiet_consolewrite u a n : upholds R (consolewrite u a n).
Proof.
  assert (∀ k i, upholds R (consolewrite_loop k u a i)) as Hl by upholds_loop k. apply Hl.
Qed.
Lemma quiet_consoleread u a n : upholds R (consoleread u a n).
Proof.
  assert (∀ k, upholds R (cons_wait k)) as Hw by upholds_loop k.
  assert (∀ k a n t, upholds R (consoleread_loop k u a n t)) as Hl by upholds_loop k.
  rewrite /consoleread. solve_upholds.
Qed.
Lemma quiet_pipe_at pi : upholds R (pipe_at pi).
Proof. rewrite /pipe_at. solve_upholds. Qed.
#[local] Hint Resolve quiet_pipe_at : upholds.
Lemma quiet_upd_pipe pi g : upholds R (upd_pipe pi g).
Proof. rewrite /upd_pipe. solve_upholds. intros. by apply Hquiet. Qed.
#[local] Hint Resolve quiet_upd_pipe quiet_consolewrite quiet_consoleread : upholds.
Lemma quiet_pipeclose pi w : upholds R (pipeclose pi w).
Proof. rewrite /pipeclose. solve_upholds. intros. by apply Hquiet. Qed.
Lemma quiet_pipewrite pi a n : upholds R (pipewrite pi a n).
Proof.
  assert (∀ k i, upholds R (pipewrite_loop k pi a i n)) as Hl by upholds_loop k. rewrite /pipewrite. solve_upholds.
Qed.
Lemma quiet_piperead pi a n : upholds R (piperead pi a n).
Proof.
  assert (∀ k, upholds R (pipe_wait k pi)) as Hw by upholds_loop k.
  assert (∀ k i, upholds R (piperead_loop k pi a i)) as Hl by upholds_loop k.
  rewrite /piperead. solve_upholds.
Qed.
#[local] Hint Resolve quiet_pipeclose quiet_pipewrite quiet_piperead : upholds.

(** ** file.c *)

Lemma quiet_filestat x a : upholds R (filestat x a).
Proof. rewrite /filestat. solve_upholds. Qed.
Lemma quiet_fileread x a n : upholds R (fileread x a n).
Proof. rewrite /fileread /dev_reader. solve_upholds. Qed.
Lemma quiet_filewrite x a n : upholds R (filewrite x a n).
Proof.
  assert (∀ k ip i, upholds R (filewrite_loop k x ip a i n)) as Hl by upholds_loop k.
  rewrite /filewrite /dev_writer. solve_upholds.
Qed.
#[local] Hint Resolve quiet_filestat quiet_fileread quiet_filewrite : upholds.

(** ** exec.c *)

Lemma quiet_kstrlen a : upholds R (kstrlen a).
Proof. rewrite /kstrlen. solve_upholds. Qed.
#[local] Hint Resolve quiet_kstrlen : upholds.
Lemma quiet_loadseg pt va ip o sz : upholds R (loadseg pt va ip o sz).
Proof.
  assert (∀ k i, upholds R (loadseg_loop k pt va ip o sz i)) as Hl by upholds_loop k. apply Hl.
Qed.
#[local] Hint Resolve quiet_loadseg : upholds.
Lemma quiet_exec_bad pt sz ip : upholds R (exec_bad pt sz ip).
Proof. rewrite /exec_bad. solve_upholds. Qed.
Lemma quiet_load_loop n pt ip o sz : upholds R (load_loop n pt ip o sz).
Proof. revert o sz. upholds_loop n. Qed.
Lemma quiet_push_args l m pt b sp n : upholds R (push_args l m pt b sp n).
Proof. revert sp n. upholds_loop l. Qed.
Lemma quiet_exec_commit path pt o sz sp n e : upholds R (exec_commit path pt o sz sp n e).
Proof. rewrite /exec_commit. solve_upholds. Qed.
#[local] Hint Resolve quiet_exec_bad quiet_load_loop quiet_push_args quiet_exec_commit : upholds.
Lemma quiet_exec_stack path l pt sz e : upholds R (exec_stack path l pt sz e).
Proof. rewrite /exec_stack. solve_upholds. Qed.
#[local] Hint Resolve quiet_exec_stack : upholds.
Lemma quiet_exec path l : upholds R (exec path l).
Proof. rewrite /exec. solve_upholds. Qed.
#[local] Hint Resolve quiet_exec : upholds.

(** ** System calls *)

Lemma quiet_fetchaddr a ip : upholds R (fetchaddr a ip).
Proof. rewrite /fetchaddr. solve_upholds. Qed.
Lemma quiet_fetchstr a b n : upholds R (fetchstr a b n).
Proof. rewrite /fetchstr. solve_upholds. Qed.
Lemma quiet_argraw n : upholds R (argraw n).
Proof. rewrite /argraw. solve_upholds. Qed.
#[local] Hint Resolve quiet_fetchaddr quiet_fetchstr quiet_argraw : upholds.
Lemma quiet_argint n : upholds R (argint n).
Proof. rewrite /argint. solve_upholds. Qed.
Lemma quiet_argaddr n : upholds R (argaddr n).
Proof. apply quiet_argraw. Qed.
#[local] Hint Resolve quiet_argint quiet_argaddr : upholds.
Lemma quiet_argstr n b k : upholds R (argstr n b k).
Proof. rewrite /argstr. solve_upholds. Qed.
#[local] Hint Resolve quiet_argstr : upholds.
Lemma quiet_argfd n : upholds R (argfd n).
Proof. rewrite /argfd. solve_upholds. Qed.
#[local] Hint Resolve quiet_argfd : upholds.
Lemma quiet_sys_read : upholds R sys_read.
Proof. rewrite /sys_read. solve_upholds. Qed.
Lemma quiet_sys_write : upholds R sys_write.
Proof. rewrite /sys_write. solve_upholds. Qed.
Lemma quiet_sys_fstat : upholds R sys_fstat.
Proof. rewrite /sys_fstat. solve_upholds. Qed.
Lemma quiet_sys_link : upholds R sys_link.
Proof. rewrite /sys_link /link_bad. solve_upholds. Qed.
Lemma quiet_isdirempty dp : upholds R (isdirempty dp).
Proof.
  assert (∀ k o, upholds R (isdirempty_loop k dp o)) as Hl by upholds_loop k. rewrite /isdirempty. solve_upholds.
Qed.
#[local] Hint Resolve quiet_isdirempty : upholds.
Lemma quiet_sys_unlink : upholds R sys_unlink.
Proof. rewrite /sys_unlink /unlink_bad /unlink_entry. solve_upholds. Qed.
Lemma quiet_create path t a b : upholds R (create path t a b).
Proof. rewrite /create /create_new /create_fail /link_dots. solve_upholds. Qed.
#[local] Hint Resolve quiet_create : upholds.
Lemma quiet_sys_mkdir : upholds R sys_mkdir.
Proof. rewrite /sys_mkdir /create_done. solve_upholds. Qed.
Lemma quiet_sys_mknod : upholds R sys_mknod.
Proof. rewrite /sys_mknod /create_done. solve_upholds. Qed.
Lemma quiet_sys_chdir : upholds R sys_chdir.
Proof. rewrite /sys_chdir. solve_upholds. Qed.
Lemma quiet_sys_exec : upholds R sys_exec.
Proof.
  assert (∀ l, upholds R (free_args l)) as Hf by upholds_loop l.
  assert (∀ n a i l, upholds R (fetch_args n a i l)) as Hl by upholds_loop n.
  rewrite /sys_exec. solve_upholds.
Qed.
End frame_code.
