(* ===== verification/Syscall.v ===== *)
(** * Process system calls and the dispatch (kernel/sysproc.c, kernel/syscall.c)

    The result of a system call goes to the trap frame's [a0] as a 64-bit
    word; the handlers give the C value. *)

From stdpp Require Import functions list strings.
From S2P Require Import Prelude Mem Cstring Riscv Spinlock Kalloc Vm Uvm Cow Sleeplock Bio Bcache Log Fs Virtio State Sched Dir Console Pipe File Proc Exec Sysarg Sysfile.

Local Open Scope Z_scope.

Section sysproc.
Context {KI : KernelImage} {KS : KernelSyms} {OT : Others}.

Definition sys_exit : M kern Z :=
  n ← argint 0;
  exit n.

Definition sys_getpid : M kern Z :=
  p ← myproc;
  x ← proc_at p;
  mret (p_pid x).

Definition sys_fork : M kern Z := fork.

Definition sys_wait : M kern Z :=
  p ← argaddr 0;
  wait p.

Definition sys_sbrk : M kern Z :=
  n ← argint 0;
  p ← myproc;
  x ← proc_at p;
  r ← growproc n;
  if r <? 0 then mret (-1) else mret (p_sz x).

(** [while(ticks - ticks0 < n)]; [false] when killed. *)
Fixpoint sleep_loop (fuel : nat) (ticks0 n : Z) : M kern bool :=
  match fuel with
  | O => out_of_fuel
  | S fuel' =>
      t ← gets k_ticks;
      if u32 (t - ticks0) <? n then
        p ← myproc;
        dead ← killed p;
        if dead : bool then mret false
        else
          sleep ChTicks TICKSLOCK;;
          sleep_loop fuel' ticks0 n
      else mret true
  end.

Definition sys_sleep : M kern Z :=
  n ← argint 0;
  let n := if n <? 0 then 0 else n in
  acquire TICKSLOCK;;
  ticks0 ← gets k_ticks;
  ok ← sleep_loop (S patience) ticks0 n;
  release TICKSLOCK;;
  mret (if ok : bool then 0 else -1).

Definition sys_kill : M kern Z :=
  pid ← argint 0;
  kill pid.

Definition sys_uptime : M kern Z :=
  acquire TICKSLOCK;;
  xticks ← gets k_ticks;
  release TICKSLOCK;;
  mret xticks.

(** ** The table of system calls *)

Inductive sysno :=
| SYS_fork | SYS_exit | SYS_wait | SYS_pipe | SYS_read | SYS_kill | SYS_exec | SYS_fstat | SYS_chdir
| SYS_dup | SYS_getpid | SYS_sbrk | SYS_sleep | SYS_uptime | SYS_open | SYS_write | SYS_mknod
| SYS_unlink | SYS_link | SYS_mkdir | SYS_close.

(** The numbers of syscall.h. *)
Definition sys_table : list (Z * sysno) :=
  [(1, SYS_fork); (2, SYS_exit); (3, SYS_wait); (4, SYS_pipe); (5, SYS_read); (6, SYS_kill); (7, SYS_exec);
   (8, SYS_fstat); (9, SYS_chdir); (10, SYS_dup); (11, SYS_getpid); (12, SYS_sbrk); (13, SYS_sleep);
   (14, SYS_uptime); (15, SYS_open); (16, SYS_write); (17, SYS_mknod); (18, SYS_unlink); (19, SYS_link);
   (20, SYS_mkdir); (21, SYS_close)].

Fixpoint sys_lookup (l : list (Z * sysno)) (num : Z) : option sysno :=
  match l with
  | [] => None
  | (n, c) :: l' => if n =? num then Some c else sys_lookup l' num
  end.

(** [syscalls[num]] *)
Definition syscalls (c : sysno) : M kern Z :=
  match c with
  | SYS_fork => sys_fork
  | SYS_exit => sys_exit
  | SYS_wait => sys_wait
  | SYS_pipe => sys_pipe
  | SYS_read => sys_read
  | SYS_kill => sys_kill
  | SYS_exec => sys_exec
  | SYS_fstat => sys_fstat
  | SYS_chdir => sys_chdir
  | SYS_dup => sys_dup
  | SYS_getpid => sys_getpid
  | SYS_sbrk => sys_sbrk
  | SYS_sleep => sys_sleep
  | SYS_uptime => sys_uptime
  | SYS_open => sys_open
  | SYS_write => sys_write
  | SYS_mknod => sys_mknod
  | SYS_unlink => sys_unlink
  | SYS_link => sys_link
  | SYS_mkdir => sys_mkdir
  | SYS_close => sys_close
  end.

Definition syscall : M kern unit :=
  p ← myproc;
  a7 ← tf_get p TF_A7;
  let num := s32 a7 in
  match sys_lookup sys_table num with
  | Some c =>
      r ← syscalls c;
      tf_set p TF_A0 (u64 r)
  | None =>
      x ← proc_at p;
      printf (chars "%d %s: unknown sys call %d" ++ [10]) [VInt (p_pid x); VStr (Some (p_name x)); VInt num];;
      tf_set p TF_A0 (u64 (-1))
  end.
End sysproc.
