(* ===== verification/Refs.v ===== *)
(** * Reference counts of open files

    [refs_ok e s]: the reference count of every file is the number of
    descriptors that hold it, over all processes, plus the references [e] that
    code in progress holds in its variables.  The theorem of this file: every
    system call keeps [refs_ok] with no reference left over, on its success
    and on all its error paths. *)

From stdpp Require Import functions list.
From S2P Require Import Prelude Mem Cstring Riscv Spinlock Kalloc Vm Uvm Cow Usermem Demo Sleeplock Bio Bcache Log Fs Virtio State Sched Dir Console Pipe File Proc Exec Sysarg Sysfile Frame Syscall.

Local Open Scope Z_scope.

(** ** Counting *)

(** How many descriptors of [m] hold file [x]. *)
Definition fds (m : gmap Z Z) (x : Z) : Z := Z.of_nat (size (filter (λ kv : Z * Z, kv.2 = x) m)).

(** The sum of [g] over the process table. *)
Definition total (g : Z → Z) : Z := foldr Z.add 0 (g <$> seqZ 0 NPROC).

Definition one (x y : Z) : Z := if decide (x = y) then 1 else 0.

Lemma fds_empty x : fds ∅ x = 0.
Proof. by rewrite /fds map_filter_empty. Qed.

Lemma fds_insert m i y x : m !! i = None → fds (<[i := y]> m) x = fds m x + one y x.
Proof.
  intros Hi. rewrite /fds /one. case_decide as Hy.
  - rewrite map_filter_insert_True //. rewrite map_size_insert_None; [lia|].
    apply map_lookup_filter_None. by left.
  - rewrite map_filter_insert_False //. rewrite delete_id //. lia.
Qed.

Lemma fds_delete m i y x : m !! i = Some y → fds (delete i m) x = fds m x - one y x.
Proof.
  intros Hi. rewrite -{2}(insert_delete_id m i y Hi). rewrite fds_insert; [|apply lookup_delete_eq]. lia.
Qed.

Lemma sum_update (g g' : Z → Z) p l :
  NoDup l → p ∈ l → (∀ q, q ≠ p → g' q = g q) →
  foldr Z.add 0 (g' <$> l) = foldr Z.add 0 (g <$> l) + g' p - g p.
Proof.
  intros Hnd Hp Hg. assert (∀ k : list Z, p ∉ k → g' <$> k = g <$> k) as Hk.
  { intros k Hpk. apply list_fmap_ext. intros i q Hq. apply Hg. intros ->. apply Hpk. by eapply list_elem_of_lookup_2. }
  induction l as [|a l IH]; [by apply elem_of_nil in Hp|]. apply NoDup_cons in Hnd as [Ha Hnd]. rewrite !fmap_cons. cbn [foldr].
  apply elem_of_cons in Hp as [->|Hp].
  - rewrite Hk //. lia.
  - rewrite IH // Hg; [lia|]. by intros ->.
Qed.

Lemma total_update (g g' : Z → Z) p :
  0 ≤ p < NPROC → (∀ q, q ≠ p → g' q = g q) → total g' = total g + g' p - g p.
Proof. intros Hp. apply sum_update; [apply NoDup_seqZ|]. apply elem_of_seqZ. lia. Qed.

Lemma total_ext g g' : (∀ q, g' q = g q) → total g' = total g.
Proof. intros H. rewrite /total. f_equal. by apply list_fmap_ext. Qed.

(** ** The invariant *)

Definition links (s : kern) (x : Z) : Z := total (λ p, fds (p_ofile (k_procs s p)) x).

Record refs_ok (e : Z → Z) (s : kern) : Prop := {
  r_ref : ∀ x, f_ref (k_files s x) = links s x + e x;
  r_dom : ∀ p fd, is_Some (p_ofile (k_procs s p) !! fd) → 0 ≤ fd < NOFILE;
  r_dead : ∀ p, dead (p_state (k_procs s p)) = true → p_ofile (k_procs s p) = ∅;
  r_cur : ∀ p, k_cur s = Some p → 0 ≤ p < NPROC ∧ dead (p_state (k_procs s p)) = false;
}.

Definition none (x : Z) : Z := 0.
Definition plus (e : Z → Z) (y : Z) (x : Z) : Z := e x + one y x.
Definition minus (e : Z → Z) (y : Z) (x : Z) : Z := e x - one y x.

Lemma refs_ext e e' s : (∀ x, e x = e' x) → refs_ok e s → refs_ok e' s.
Proof. intros He [H1 H2 H3 H4]. split; [|done..]. intros x. by rewrite -He. Qed.
Lemma refs_minus_plus e y s : refs_ok (minus (plus e y) y) s → refs_ok e s.
Proof. apply refs_ext. intros x. rewrite /minus /plus. lia. Qed.
Lemma refs_plus_minus e y s : refs_ok (plus (minus e y) y) s → refs_ok e s.
Proof. apply refs_ext. intros x. rewrite /minus /plus. lia. Qed.

Lemma quiet_refs e s s' : quiet s s' → refs_ok e s → refs_ok e s'.
Proof.
  intros [Q1 Q2 Q3 Q4 Q5 Q6] [H1 H2 H3 H4]. split.
  - intros x. rewrite Q1 H1. f_equal. apply total_ext. intros p. by rewrite Q2.
  - intros p fd. rewrite Q2. apply H2.
  - intros p Hd. rewrite Q2. by apply H3, Q4.
  - intros p. rewrite Q5. intros Hp. apply H4 in Hp as [Hp Hd]. split; [done|].
    destruct (dead (p_state (k_procs s' p))) eqn:E; [|done]. by rewrite Q4 in Hd.
Qed.

(** What keeps the counts right, whoever holds references. *)
Definition refs_step (s s' : kern) : Prop := ∀ e, refs_ok e s → refs_ok e s'.
#[global] Instance refs_preorder : PreOrder refs_step.
Proof. split; [by intros s e|]. intros s s1 s2 H1 H2 e H. by apply H2, H1. Qed.
Lemma quiet_step s s' : quiet s s' → refs_step s s'.
Proof. intros H e. by apply quiet_refs. Qed.

(** Any update of a process that leaves its files alone and does not end it. *)
Lemma refs_upd_proc p g :
  (∀ x, p_ofile (g x) = p_ofile x ∧ (dead (p_state (g x)) = true → dead (p_state x) = true)) →
  upholds refs_step (upd_proc p g).
Proof.
  intros Hg. apply upholds_modify. intros s e [H1 H2 H3 H4]. pose proof (Hg (k_procs s p)) as [G1 G2].
  assert (∀ q, p_ofile ((<[p := g (k_procs s p)]> (k_procs s)) q) = p_ofile (k_procs s q)) as Ho.
  { intros q. rewrite /insert /fn_insert. case_decide; subst; done. }
  split; simpl.
  - intros x. rewrite H1. f_equal. apply total_ext. intros q. by rewrite Ho.
  - intros q fd. rewrite Ho. apply H2.
  - intros q. rewrite Ho. rewrite /insert /fn_insert. case_decide; subst; auto.
  - intros q Hq. apply H4 in Hq as [Hq Hd]. split; [done|]. rewrite /insert /fn_insert. case_decide; subst; [|done].
    destruct (dead (p_state (g (k_procs s q)))) eqn:E; [|done]. by rewrite G2 in Hd.
Qed.

(** Process [p], in the table, gets the descriptors [m]. *)
Lemma refs_set_ofile p m e e' s :
  0 ≤ p < NPROC → dead (p_state (k_procs s p)) = false → (∀ fd, is_Some (m !! fd) → 0 ≤ fd < NOFILE) →
  (∀ x, e' x = e x + fds (p_ofile (k_procs s p)) x - fds m x) → refs_ok e s →
  refs_ok e' (set_k_procs (<[p := with_p_ofile m (k_procs s p)]> (k_procs s)) s).
Proof.
  intros Hp Hd Hm He [H1 H2 H3 H4]. split; simpl.
  - intros x. rewrite H1 He.
    pose proof (total_update (λ q, fds (p_ofile (k_procs s q)) x)
      (λ q, fds (p_ofile ((<[p := with_p_ofile m (k_procs s p)]> (k_procs s)) q)) x) p Hp) as Ht.
    rewrite /links /= Ht; [|intros q Hq; by rewrite fn_lookup_insert_ne]. rewrite fn_lookup_insert /=. lia.
  - intros q fd. rewrite /insert /fn_insert. case_decide; subst; [apply Hm|apply H2].
  - intros q. rewrite /insert /fn_insert. case_decide; subst; simpl; [by rewrite Hd|apply H3].
  - intros q Hq. apply H4 in Hq as [Hq Hd']. split; [done|]. rewrite /insert /fn_insert. by case_decide; subst.
Qed.

(** File [y] gets the count [n]. *)
Lemma refs_set_ref y n e e' s f :
  f_ref f = n → e' y = e y + n - f_ref (k_files s y) → (∀ x, x ≠ y → e' x = e x) → refs_ok e s →
  refs_ok e' (set_k_files (<[y := f]> (k_files s)) s).
Proof.
  intros Hf Hy He [H1 H2 H3 H4]. split; simpl; try done.
  intros x. rewrite /insert /fn_insert. change (links (set_k_files _ s) x) with (links s x).
  case_decide; subst; [specialize (H1 x)|specialize (H1 x); rewrite He //]; lia.
Qed.

(** ** The file table *)

(** One run of a step: the invariant before gives one after. *)
Ltac bind_inv H a s1 H1 := apply bind_Ret_inv in H as (a & s1 & H1 & H).

Section refs.
Context {KI : KernelImage} {KS : KernelSyms} {OT : Others}.

Lemma refs_acquire l s s' e : acquire l s = Ret (tt, s') → refs_ok e s → refs_ok e s'.
Proof. intros H. eapply quiet_refs, quiet_acquire. exact H. Qed.
Lemma refs_release l s s' e : release l s = Ret (tt, s') → refs_ok e s → refs_ok e s'.
Proof. intros H. eapply quiet_refs, quiet_release. exact H. Qed.

Lemma upd_ref_refs y g s s' e e' :
  upd_file y g s = Ret (tt, s') → e' y = e y + f_ref (g (k_files s y)) - f_ref (k_files s y) →
  (∀ x, x ≠ y → e' x = e x) → refs_ok e s → refs_ok e' s'.
Proof. intros [= <-] H1 H2. by eapply refs_set_ref. Qed.
Lemma one_eq y : one y y = 1.
Proof. by rewrite /one decide_True. Qed.
Lemma one_ne y x : x ≠ y → one y x = 0.
Proof. intros H. rewrite /one. case_decide; congruence. Qed.

Lemma filealloc_refs s r s' e :
  filealloc s = Ret (r, s') → refs_ok e s →
  match r with Some y => refs_ok (plus e y) s' | None => refs_ok e s' end.
Proof.
  rewrite /filealloc. intros H I. bind_inv H u s1 H1. destruct u. eapply refs_acquire in I; [|done].
  bind_inv H r0 s2 H2. bind_inv H u s3 H3. destruct u. injection H as <- <-.
  assert (match r0 with Some y => refs_ok (plus e y) s2 | None => refs_ok e s2 end) as I2; last first.
  { destruct r0; by eapply refs_release. }
  clear H1 H3 s s3. revert H2. generalize (Z.to_nat NFILE) 0. intros n y. revert y I.
  induction n as [|n IH]; intros y I H; simpl in H; [by injection H as <- <-|].
  bind_inv H x s3 H3. injection H3 as <- <-. destruct (f_ref (k_files s1 y) =? 0) eqn:E; [|by eapply IH].
  bind_inv H u s3 H3. destruct u. injection H as <- <-. eapply upd_ref_refs; [done|..|done]; rewrite /plus.
  - rewrite one_eq /=. lia.
  - intros x Hx. rewrite one_ne; [lia|done].
Qed.

Lemma filedup_refs y s r s' e : filedup y s = Ret (r, s') → refs_ok e s → refs_ok (plus e y) s'.
Proof.
  rewrite /filedup. intros H I. bind_inv H u s1 H1. destruct u. eapply refs_acquire in I; [|done].
  bind_inv H x s2 H2. injection H2 as <- <-. case_match; [done|].
  bind_inv H u s2 H2. destruct u. bind_inv H u' s3 H3. destruct u'. injection H as <- <-.
  eapply refs_release; [done|]. eapply upd_ref_refs; [done|..|done]; rewrite /plus.
  - rewrite one_eq /=. lia.
  - intros x Hx. rewrite one_ne; [lia|done].
Qed.

Lemma fileclose_refs y s s' e : fileclose y s = Ret (tt, s') → refs_ok e s → refs_ok (minus e y) s'.
Proof.
  rewrite /fileclose. intros H I. bind_inv H u s1 H1. destruct u. eapply refs_acquire in I; [|done].
  bind_inv H x s2 H2. injection H2 as <- <-. destruct (f_ref (k_files s1 y) <? 1) eqn:E1; [done|].
  bind_inv H u s2 H2. destruct u. bind_inv H x s3 H3. injection H3 as <- <-.
  assert (refs_ok (minus e y) s2) as I2.
  { eapply upd_ref_refs; [exact H2|..|exact I]; rewrite /minus.
    - rewrite one_eq /=. lia.
    - intros x Hx. rewrite one_ne; [lia|done]. }
  assert (f_ref (k_files s2 y) = f_ref (k_files s1 y) - 1) as Hr.
  { injection H2 as <-. by rewrite /= fn_lookup_insert. }
  destruct (0 <? f_ref (k_files s2 y)) eqn:E2; [by eapply refs_release|]. bind_inv H u s3 K3. destruct u. bind_inv H u s4 K4. destruct u.
  bind_inv H u s5 K5. destruct u. assert (refs_ok (minus e y) s5) as I5.
  { eapply refs_release; [exact K5|]. eapply quiet_refs; [by eapply quiet_upd_file; [|exact K4]|].
    eapply (upd_ref_refs _ _ _ _ (minus e y)); [exact K3|simpl; lia|done|done]. }
  eapply quiet_refs; [|exact I5]. revert H. generalize (k_files s2 y). clear. intros ff. revert s5 s'.
  assert (upholds quiet (match f_type ff with
    | FD_PIPE => pipeclose (f_pipe ff) (f_writable ff)
    | FD_INODE | FD_DEVICE => in_fs begin_op;; in_fs (iput (f_ip ff));; in_fs end_op
    | FD_NONE => mret tt end)) as Hq; [|intros s5 s'; apply Hq].
  destruct (f_type ff); try solve_upholds. apply (quiet_pipeclose quiet). done.
Qed.

(** ** Descriptors *)

Lemma fdalloc_refs y s fd s' e :
  fdalloc y s = Ret (fd, s') → refs_ok e s →
  (fd = -1 ∧ s' = s) ∨
  (0 ≤ fd ∧ refs_ok (minus e y) s' ∧ k_cur s' = k_cur s ∧ (∀ x, f_ref (k_files s' x) = f_ref (k_files s x)) ∧
   ∃ p, k_cur s = Some p ∧ p_ofile (k_procs s p) !! fd = None ∧
        p_ofile (k_procs s' p) = <[fd := y]> (p_ofile (k_procs s p))).
Proof.
  rewrite /fdalloc. intros H I. bind_inv H p s1 H1. rewrite /myproc in H1. bind_inv H1 c s2 H2. injection H2 as <- <-.
  destruct (k_cur s) as [p'|] eqn:Ec; [|done]. injection H1 as <- <-. destruct (r_cur _ _ I _ Ec) as [Hp Hd].
  assert (∀ n k, 0 ≤ k → k + Z.of_nat n = NOFILE → fdalloc_loop n p' y k s = Ret (fd, s') →
    (fd = -1 ∧ s' = s) ∨ (k ≤ fd < NOFILE ∧ p_ofile (k_procs s p') !! fd = None ∧
      s' = set_k_procs (<[p' := with_p_ofile (<[fd := y]> (p_ofile (k_procs s p'))) (k_procs s p')]> (k_procs s)) s)) as Hl.
  { clear H. intros n. induction n as [|n IH]; intros k Hk Hn H; simpl in H; [left; by injection H as <- <-|].
    bind_inv H x s1 H1. injection H1 as <- <-. destruct (p_ofile (k_procs s p') !! k) eqn:E.
    - apply IH in H as [?|(? & ?)]; [by left|right; split; [lia|done]|lia..].
    - bind_inv H u s1 H1. injection H1 as <- <-. injection H as <- <-. right. split; [lia|done]. }
  apply Hl in H as [?|(Hfd & Hn & ->)]; [by left| |lia..]. right. split; [lia|]. split; [|split; [done|split; [done|]]].
  - eapply refs_set_ofile; [done|done| |..|exact I].
    + intros k. rewrite lookup_insert_is_Some. intros [<-|[_ ?]]; [lia|by eapply r_dom].
    + intros x. rewrite fds_insert // /minus. lia.
  - exists p'. split; [done|]. split; [done|]. simpl. by rewrite fn_lookup_insert.
Qed.

Lemma clear_fd_refs fd y s s' e p :
  clear_fd fd s = Ret (tt, s') → k_cur s = Some p → p_ofile (k_procs s p) !! fd = Some y → refs_ok e s →
  refs_ok (plus e y) s' ∧ k_cur s' = Some p ∧ p_ofile (k_procs s' p) = delete fd (p_ofile (k_procs s p)).
Proof.
  rewrite /clear_fd. intros H Hc Hy I. bind_inv H q s1 H1. rewrite /myproc in H1. bind_inv H1 c s2 H2.
  injection H2 as <- <-. rewrite Hc in H1. injection H1 as <- <-. injection H as <-.
  destruct (r_cur _ _ I _ Hc) as [Hp Hd]. split; [|split; [done|by rewrite /= fn_lookup_insert]].
  eapply refs_set_ofile; [done|done| |..|exact I].
  - intros k. rewrite lookup_delete_is_Some. intros [_ ?]. by eapply r_dom.
  - intros x. rewrite (fds_delete _ _ y) // /plus. lia.
Qed.

(** A bad descriptor, or one that holds a file. *)
Lemma argfd_inv n s r s' e :
  argfd n s = Ret (r, s') → refs_ok e s →
  refs_ok e s' ∧ match r with
                 | Some (fd, y) => ∃ p, k_cur s' = Some p ∧ p_ofile (k_procs s' p) !! fd = Some y
                 | None => True
                 end.
Proof.
  rewrite /argfd. intros H I. bind_inv H fd s1 H1. apply (quiet_argint quiet (λ _ _ Hq, Hq)) in H1.
  eapply quiet_refs in I; [|exact H1]. clear H1. bind_inv H p s2 H2. rewrite /myproc in H2. bind_inv H2 c s3 H3.
  injection H3 as <- <-. destruct (k_cur s1) as [q|] eqn:Ec; [|done]. injection H2 as <- <-.
  bind_inv H x s2 H2. injection H2 as <- <-. destruct ((fd <? 0) || (NOFILE <=? fd)).
  { by injection H as <- <-. }
  injection H as <- <-. split; [done|]. destruct (p_ofile (k_procs s1 q) !! fd) eqn:E; [|done]. simpl. eauto.
Qed.

Lemma sys_dup_refs s r s' e : sys_dup s = Ret (r, s') → refs_ok e s → refs_ok e s'.
Proof.
  rewrite /sys_dup. intros H I. bind_inv H a s1 H1. eapply argfd_inv in H1 as [I1 Hy]; [|done].
  destruct a as [[fd y]|]; [|by injection H as <- <-]. bind_inv H fd' s2 H2.
  eapply fdalloc_refs in H2 as [[-> ->]|(Hfd & I2 & _)]; [by injection H as <- <-| |done].
  rewrite (_ : fd' <? 0 = false) in H; [|lia]. bind_inv H u s3 H3. eapply filedup_refs in H3; [|done].
  injection H as <- <-. by apply refs_plus_minus in H3.
Qed.

Lemma sys_close_refs s r s' e : sys_close s = Ret (r, s') → refs_ok e s → refs_ok e s'.
Proof.
  rewrite /sys_close. intros H I. bind_inv H a s1 H1. eapply argfd_inv in H1 as [I1 Hy]; [|done].
  destruct a as [[fd y]|]; [|by injection H as <- <-]. destruct Hy as (p & Hc & Hy).
  bind_inv H u s2 H2. destruct u. eapply clear_fd_refs in H2 as (I2 & _); [|done..].
  bind_inv H u s3 H3. destruct u. eapply fileclose_refs in H3; [|done]. injection H as <- <-.
  by apply refs_minus_plus in H3.
Qed.

(** ** Opening files and pipes *)

Lemma run_quiet {A} (c : M kern A) s a s' e :
  upholds quiet c → c s = Ret (a, s') → refs_ok e s → refs_ok e s'.
Proof. intros Hc H. eapply quiet_refs, Hc, H. Qed.

Local Ltac same_refs := eapply refs_ext; [|eassumption]; intros ?; rewrite /plus /minus; lia.

Lemma open_inode_refs ip omode s r s' e : open_inode ip omode s = Ret (r, s') → refs_ok e s → refs_ok e s'.
Proof.
  rewrite /open_inode. intros H I. bind_inv H x s1 H1. eapply run_quiet in I; [|apply quiet_in_fs|exact H1].
  destruct (_ && _). { eapply run_quiet in I; [|clear H|exact H]; [done|solve_upholds]. }
  bind_inv H f s2 H2. eapply filealloc_refs in H2; [|exact I]. destruct f as [f|]; last first.
  { bind_inv H fd s3 H3. injection H3 as <- <-. eapply run_quiet; [|exact H|exact H2]. solve_upholds. }
  bind_inv H fd s3 H3. eapply fdalloc_refs in H3 as [[-> ->]|(Hfd & I3 & _)]; [| |done].
  - change (-1 <? 0) with true in H. cbv iota in H. bind_inv H u s4 H4. destruct u.
    eapply fileclose_refs in H4; [|done]. apply refs_minus_plus in H4.
    eapply run_quiet; [|exact H|exact H4]. solve_upholds.
  - rewrite (_ : fd <? 0 = false) in H; [|lia]. apply refs_minus_plus in I3.
    eapply run_quiet; [|exact H|exact I3]. solve_upholds.
Qed.

Lemma refs_lift {A} (c : M kern A) : upholds quiet c → upholds refs_step c.
Proof. apply lift_quiet, quiet_step. Qed.
Lemma refs_open_inode ip omode : upholds refs_step (open_inode ip omode).
Proof. intros s r s' H e. by eapply open_inode_refs. Qed.
#[local] Hint Extern 4 (upholds refs_step _) => apply refs_lift; solve [eauto 2 with upholds] : upholds.
#[local] Hint Resolve refs_open_inode : upholds.
#[local] Hint Extern 3 (upholds refs_step _) => first
  [ apply (quiet_local refs_step quiet_step) | apply (quiet_argint refs_step quiet_step)
  | apply (quiet_argaddr refs_step quiet_step) | apply (quiet_argstr refs_step quiet_step)
  | apply (quiet_create refs_step quiet_step) | apply (quiet_namei refs_step quiet_step)
  | apply (quiet_namex refs_step quiet_step) | apply (quiet_wakeup refs_step quiet_step)
  | apply (quiet_tf_set refs_step quiet_step) | apply (quiet_killed refs_step quiet_step) ] : upholds.

Lemma refs_sys_open : upholds refs_step sys_open.
Proof. rewrite /sys_open. solve_upholds. Qed.

Lemma pipealloc_refs s r s' e :
  pipealloc s = Ret (r, s') → refs_ok e s →
  match r with Some (rf, wf) => refs_ok (plus (plus e rf) wf) s' | None => refs_ok e s' end.
Proof.
  rewrite /pipealloc. intros H I. bind_inv H f0 s1 H1. eapply filealloc_refs in H1; [|exact I].
  destruct f0 as [rf|]; [|by injection H as <- <-]. bind_inv H f1 s2 H2. eapply filealloc_refs in H2; [|exact H1].
  destruct f1 as [wf|]; last first.
  { rewrite /pipealloc_bad in H. bind_inv H u s3 H3. destruct u. eapply fileclose_refs in H3; [|exact H2].
    injection H as <- <-. by apply refs_minus_plus in H3. }
  bind_inv H pi s3 H3. eapply run_quiet in H2; [|apply quiet_in_mem|exact H3]. destruct (pi =? 0).
  - rewrite /pipealloc_bad in H. bind_inv H u s4 H4. destruct u. eapply fileclose_refs in H4; [|exact H2].
    bind_inv H u s5 H5. destruct u. eapply fileclose_refs in H5; [|exact H4]. injection H as <- <-. same_refs.
  - bind_inv H u s4 H4. injection H4 as <- <-. bind_inv H u s5 H5. injection H5 as <- <-.
    bind_inv H u s6 H6. bind_inv H u' s7 H7. injection H as <- <-.
    eapply run_quiet; [|exact H7|]; [rewrite /set_pipe_file; solve_upholds|].
    eapply run_quiet; [|exact H6|]; [rewrite /set_pipe_file; solve_upholds|].
    eapply quiet_refs; [|exact H2]. by split.
Qed.

(** What the descriptors and the running process are, and who is alive. *)
Record still (s s' : kern) : Prop := {
  st_ofile : ∀ p, p_ofile (k_procs s' p) = p_ofile (k_procs s p);
  st_cur : k_cur s' = k_cur s;
  st_dead : ∀ p, dead (p_state (k_procs s' p)) = true → dead (p_state (k_procs s p)) = true;
}.
#[local] Instance still_preorder : PreOrder still.
Proof.
  split; [by intros s|]. intros s s1 s2 [A1 A2 A3] [B1 B2 B3].
  split; intros; [by rewrite B1|by rewrite B2|by apply A3, B3].
Qed.
Lemma quiet_still s s' : quiet s s' → still s s'.
Proof. by intros [Q1 Q2 Q3 Q4 Q5 Q6]. Qed.
Lemma still_upd_file y g : upholds still (upd_file y g).
Proof. apply upholds_modify. by intros s. Qed.
#[local] Hint Extern 4 (upholds still _) => apply (lift_quiet still quiet_still); solve [eauto 2 with upholds] : upholds.
#[local] Hint Extern 2 (upholds still (upd_file _ _)) => apply still_upd_file : upholds.
#[local] Hint Extern 2 (upholds still (pipeclose _ _)) => apply (quiet_pipeclose still quiet_still) : upholds.
Lemma still_filedup y : upholds still (filedup y).
Proof. rewrite /filedup. solve_upholds. Qed.
Lemma still_fileclose y : upholds still (fileclose y).
Proof. rewrite /fileclose. solve_upholds. Qed.

(** Giving back two descriptors and their files. *)
Lemma pipe_undo_refs fd0 fd1 rf wf q s r s' e :
  (clear_fd fd0;; clear_fd fd1;; fileclose rf;; fileclose wf;; mret (-1)) s = Ret (r, s') →
  k_cur s = Some q → p_ofile (k_procs s q) !! fd0 = Some rf → p_ofile (k_procs s q) !! fd1 = Some wf → fd0 ≠ fd1 →
  refs_ok e s → refs_ok e s'.
Proof.
  intros H Hq H0 H1 Hne I. bind_inv H u s1 K1. destruct u.
  eapply (clear_fd_refs fd0 rf) in K1 as (I1 & Hq1 & Ho1); [|exact Hq|exact H0|exact I].
  bind_inv H u s2 K2. destruct u. eapply (clear_fd_refs fd1 wf) in K2 as (I2 & _); [|exact Hq1| |exact I1].
  2: { by rewrite Ho1 lookup_delete_ne. }
  bind_inv H u s3 K3. destruct u. eapply fileclose_refs in K3; [|exact I2].
  bind_inv H u s4 K4. destruct u. eapply fileclose_refs in K4; [|exact K3]. injection H as <- <-. same_refs.
Qed.

Lemma sys_pipe_refs s r s' e : sys_pipe s = Ret (r, s') → refs_ok e s → refs_ok e s'.
Proof.
  rewrite /sys_pipe. intros H I. bind_inv H p s1 H1. eapply run_quiet in I; [|apply quiet_myproc|exact H1].
  clear H1. bind_inv H a s2 H2. eapply run_quiet in I; [|apply (quiet_argaddr quiet (λ _ _ Hq, Hq))|exact H2]. clear H2.
  bind_inv H o s3 H3. eapply pipealloc_refs in H3; [|exact I]. clear I. rename H3 into I.
  destruct o as [[rf wf]|]; [|by injection H as <- <-].
  bind_inv H fd0 s4 H4. eapply fdalloc_refs in H4 as [[-> ->]|(Hf0 & I4 & Hc4 & _ & q & Hq & Hn0 & Ho4)]; [| |exact I].
  { change (-1 <? 0) with true in H. bind_inv H fd1 s5 H5. injection H5 as <- <-. simpl in H.
    bind_inv H u s5 H5. injection H5 as <- <-. bind_inv H u s6 H6. destruct u. eapply fileclose_refs in H6; [|exact I].
    bind_inv H u s7 H7. destruct u. eapply fileclose_refs in H7; [|exact H6]. injection H as <- <-. same_refs. }
  rewrite (_ : fd0 <? 0 = false) in H; [|lia]. rewrite -Hc4 in Hq. clear I.
  bind_inv H fd1 s5 H5. eapply fdalloc_refs in H5 as [[-> ->]|(Hf1 & I5 & Hc5 & _ & q' & Hq' & Hn1 & Ho5)]; [| |exact I4].
  { change (-1 <? 0) with true in H. simpl in H. rewrite (_ : 0 <=? fd0 = true) in H; [|lia].
    bind_inv H u s6 H6. destruct u. eapply (clear_fd_refs fd0 rf) in H6 as (I6 & _); [|exact Hq| |exact I4].
    2: { by rewrite Ho4 lookup_insert_eq. }
    bind_inv H u s7 H7. destruct u. eapply fileclose_refs in H7; [|exact I6].
    bind_inv H u s8 H8. destruct u. eapply fileclose_refs in H8; [|exact H7]. injection H as <- <-. same_refs. }
  rewrite (_ : fd1 <? 0 = false) in H; [|lia]. simpl in H. rewrite Hq in Hq'. injection Hq' as <-.
  rewrite Ho4 in Hn1 Ho5. rewrite Hq in Hc5.
  assert (fd0 ≠ fd1) as Hne by (intros <-; by rewrite lookup_insert_eq in Hn1).
  assert (refs_ok e s5) as I by same_refs. clear I4 I5 Hn0 Hn1 Ho4.
  bind_inv H a0 s6 H6. bind_inv H a1 s7 H7. bind_inv H u s8 H8. bind_inv H x s9 H9. bind_inv H e1 s10 H10.
  bind_inv H e2 s11 H11. assert (quiet s5 s11) as HQ.
  { etrans; [by eapply (quiet_local quiet (λ _ _ Hq, Hq))|]. etrans; [by eapply (quiet_local quiet (λ _ _ Hq, Hq))|].
    etrans; [by eapply quiet_in_mem|]. etrans; [by eapply quiet_proc_at|]. etrans; [by eapply quiet_in_mem|].
    destruct (e1 <? 0); [by injection H11 as <- <-|by eapply quiet_in_mem]. }
  eapply quiet_refs in I; [|exact HQ]. destruct (e2 <? 0); [|by injection H as <- <-].
  eapply (pipe_undo_refs fd0 fd1 rf wf q) in H; [exact H|..|exact Hne|exact I].
  - by rewrite (q_cur _ _ HQ).
  - by rewrite (q_ofile _ _ HQ) Ho5 lookup_insert_ne // lookup_insert_eq.
  - by rewrite (q_ofile _ _ HQ) Ho5 lookup_insert_eq.
Qed.

(** ** Processes *)

(** Both at once. *)
Record calm (s s' : kern) : Prop := { calm_refs : refs_step s s'; calm_still : still s s' }.
#[local] Instance calm_preorder : PreOrder calm.
Proof. split; [by intros s|]. intros s s1 s2 [A1 A2] [B1 B2]. split; etrans; eauto. Qed.
Lemma quiet_calm s s' : quiet s s' → calm s s'.
Proof. intros Hq. split; [by apply quiet_step|by apply quiet_still]. Qed.
Lemma calm_upd_proc p g :
  (∀ x, p_ofile (g x) = p_ofile x ∧ (dead (p_state (g x)) = true → dead (p_state x) = true)) →
  upholds calm (upd_proc p g).
Proof.
  intros Hg s a s' H. split; [by eapply refs_upd_proc in H|]. injection H as _ <-.
  pose proof (Hg (k_procs s p)) as [G1 G2].
  split; simpl; try done; intros q; rewrite /insert /fn_insert; case_decide; subst; done.
Qed.
#[local] Hint Extern 4 (upholds calm _) => apply (lift_quiet calm quiet_calm); solve [eauto 2 with upholds] : upholds.
#[local] Hint Extern 2 (upholds calm (upd_proc _ _)) => apply calm_upd_proc; by intros ? : upholds.

(** A process without files ends. *)
Lemma refs_end p st e s :
  p_ofile (k_procs s p) = ∅ → k_cur s ≠ Some p → refs_ok e s →
  refs_ok e (set_k_procs (<[p := with_p_state st (k_procs s p)]> (k_procs s)) s).
Proof.
  intros Ho Hc [H1 H2 H3 H4].
  assert (∀ q, p_ofile ((<[p := with_p_state st (k_procs s p)]> (k_procs s)) q) = p_ofile (k_procs s q)) as Hq.
  { intros q. rewrite /insert /fn_insert. by case_decide; subst. }
  split; simpl.
  - intros x. rewrite H1. f_equal. apply total_ext. intros q. by rewrite Hq.
  - intros q fd. rewrite Hq. apply H2.
  - intros q. rewrite Hq. rewrite /insert /fn_insert. case_decide; subst; auto.
  - intros q Hcq. rewrite fn_lookup_insert_ne; [by apply H4|congruence].
Qed.

(** What may happen to a process without files that is not the running one. *)
Definition freed (p : Z) (s s' : kern) : Prop :=
  p_ofile (k_procs s p) = ∅ → k_cur s ≠ Some p →
  p_ofile (k_procs s' p) = ∅ ∧ k_cur s' ≠ Some p ∧ refs_step s s'.
#[local] Instance freed_preorder p : PreOrder (freed p).
Proof.
  split; [by intros s|]. intros s s1 s2 H1 H2 Ho Hc. destruct (H1 Ho Hc) as (Ho1 & Hc1 & R1).
  destruct (H2 Ho1 Hc1) as (Ho2 & Hc2 & R2). split; [done|]. split; [done|]. by etrans.
Qed.
Lemma calm_freed p s s' : calm s s' → freed p s s'.
Proof. intros [Hr [H1 H2 H3]] Ho Hc. rewrite H1 H2. done. Qed.
Lemma freed_upd_proc p g : (∀ x, p_ofile (g x) = p_ofile x ∧ (dead (p_state (g x)) = true → dead (p_state x) = true)) →
  upholds (freed p) (upd_proc p g).
Proof. intros Hg s a s' H. eapply calm_freed, calm_upd_proc, H. apply Hg. Qed.
Lemma freed_state p st : upholds (freed p) (upd_proc p (with_p_state st)).
Proof.
  apply upholds_modify. intros s Ho Hc. simpl. rewrite fn_lookup_insert /=. split; [done|]. split; [done|].
  intros e. by apply refs_end.
Qed.
#[local] Hint Extern 4 (upholds (freed _) _) => apply (lift_quiet _ (λ _ _ Hq, calm_freed _ _ _ (quiet_calm _ _ Hq))); solve [eauto 2 with upholds] : upholds.
#[local] Hint Extern 1 (upholds (freed _) (upd_proc _ _)) => first [apply freed_state | apply freed_upd_proc; by intros ?] : upholds.

Lemma freed_freeproc p : upholds (freed p) (freeproc p).
Proof. rewrite /freeproc. solve_upholds. Qed.
#[local] Hint Resolve freed_freeproc : upholds.
Lemma freed_allocproc_fail p : upholds (freed p) (allocproc_fail p).
Proof. rewrite /allocproc_fail. solve_upholds. Qed.

Lemma quiet_find_unused n p : upholds quiet (find_unused n p).
Proof. revert p. induction n; intros; simpl; solve_upholds. Qed.

Lemma calm_allocpid : upholds calm allocpid.
Proof. rewrite /allocpid. solve_upholds. intros s. split; [intros e []; by split|by split]. Qed.

(** The new slot is empty, in the table, alive, and not the running one. *)
Lemma allocproc_refs s r s' e :
  allocproc s = Ret (r, s') → refs_ok e s →
  refs_ok e s' ∧ match r with
                 | Some np => 0 ≤ np < NPROC ∧ p_ofile (k_procs s' np) = ∅ ∧ k_cur s' ≠ Some np ∧
                              dead (p_state (k_procs s' np)) = false
                 | None => True
                 end.
Proof.
  rewrite /allocproc. intros H I. bind_inv H o s1 H1. pose proof (quiet_find_unused _ _ _ _ _ H1) as Q1.
  eapply quiet_refs in I; [|exact Q1]. destruct o as [p|]; [|by injection H as <- <-].
  apply find_unused_first in H1 as (E1 & Hp & Hu & _). rewrite -E1 in Hu.
  assert (p_ofile (k_procs s1 p) = ∅) as Ho by (apply (r_dead _ _ I); by rewrite Hu).
  assert (k_cur s1 ≠ Some p) as Hc. { intros Hc. destruct (r_cur _ _ I _ Hc) as [_ Hd]. by rewrite Hu in Hd. }
  bind_inv H pid s2 H2. apply calm_allocpid in H2. bind_inv H u s3 H3. destruct u.
  eapply (calm_upd_proc p) in H3; [|by intros ?]. bind_inv H u s4 H4. destruct u.
  assert (dead (p_state (k_procs s4 p)) = false) as Hd. { injection H4 as <-. by rewrite /= fn_lookup_insert. }
  eapply (calm_upd_proc p) in H4; [|by intros ?]. bind_inv H tf s5 H5. apply quiet_in_mem, quiet_calm in H5.
  bind_inv H u s6 H6. destruct u. eapply (calm_upd_proc p) in H6; [|by intros ?].
  assert (calm s4 s6) as C46 by (by etrans). assert (calm s1 s6) as C16 by (by repeat (etrans; [eassumption|])).
  clear H2 H3 H4 H5 H6. destruct (tf =? 0).
  { pose proof (freed_allocproc_fail _ _ _ _ H) as Hf. destruct C16 as [R [S1 S2 _]].
    assert (r = None) as ->. { bind_inv H u t K. bind_inv H u' t' K'. by injection H as <- _. }
    split; [|done]. by apply Hf; [rewrite S1|rewrite S2|apply R]. }
  bind_inv H pt s7 H7. apply quiet_in_mem, quiet_calm in H7. bind_inv H u s8 H8. destruct u.
  eapply (calm_upd_proc p) in H8; [|by intros ?]. assert (calm s6 s8) as C68 by (by etrans).
  destruct (pt =? 0).
  { pose proof (freed_allocproc_fail _ _ _ _ H) as Hf. assert (calm s1 s8) as [R [S1 S2 _]] by (by etrans).
    assert (r = None) as ->. { bind_inv H u t K. bind_inv H u' t' K'. by injection H as <- _. }
    split; [|done]. by apply Hf; [rewrite S1|rewrite S2|apply R]. }
  bind_inv H x s9 H9. injection H9 as <- <-. bind_inv H u s10 H10. destruct u. injection H as <- <-.
  eapply (calm_upd_proc p) in H10; [|by intros ?].
  assert (calm s4 s10) as [_ [_ _ D]] by (by repeat (etrans; [eassumption|])).
  assert (calm s1 s10) as [R [S1 S2 _]] by (by repeat (etrans; [eassumption|])).
  split; [by apply R|]. split; [lia|]. rewrite S1 S2. split; [done|]. split; [done|].
  destruct (dead (p_state (k_procs s10 p))) eqn:E; [|done]. by rewrite D in Hd.
Qed.

Lemma dup_ofile_refs p np s s' e :
  dup_ofile p np s = Ret (tt, s') → refs_ok e s → 0 ≤ np < NPROC → p_ofile (k_procs s np) = ∅ →
  dead (p_state (k_procs s np)) = false → refs_ok e s'.
Proof.
  intros H I Hr Ho Hd.
  assert (refs_ok e s' ∧ dead (p_state (k_procs s' np)) = false ∧
          ∀ fd, NOFILE ≤ fd → p_ofile (k_procs s' np) !! fd = None) as (? & _); [|done].
  revert H. apply (for_upto_inv (λ i t, refs_ok e t ∧ dead (p_state (k_procs t np)) = false ∧
    ∀ fd, i ≤ fd → p_ofile (k_procs t np) !! fd = None)); [lia| |].
  { split; [done|]. split; [done|]. intros fd _. by rewrite Ho lookup_empty. }
  intros i s1 s2 Hi (I1 & Hd1 & Hn1) H. bind_inv H x s3 H3. injection H3 as <- <-.
  destruct (p_ofile (k_procs s1 p) !! i) as [f|] eqn:Ef.
  - bind_inv H f' s3 H3. pose proof (still_filedup _ _ _ _ H3) as [S1 S2 S3].
    assert (f' = f) as ->. { rewrite /filedup in H3. bind_inv H3 u1 t1 K1. bind_inv H3 u2 t2 K2.
      destruct (f_ref u2 <? 1); [done|]. bind_inv H3 u3 t3 K3. bind_inv H3 u4 t4 K4. by injection H3 as <- _. }
    eapply filedup_refs in H3; [|exact I1]. injection H as <-. simpl.
    assert (dead (p_state (k_procs s3 np)) = false) as Hd3.
    { destruct (dead (p_state (k_procs s3 np))) eqn:E; [|done]. by rewrite S3 in Hd1. }
    split; [|split].
    + eapply refs_set_ofile; [done|exact Hd3| |..|exact H3].
      * intros k. rewrite lookup_insert_is_Some. intros [<-|[_ ?]]; [lia|by eapply r_dom].
      * intros x. rewrite fds_insert; [rewrite /plus; lia|]. rewrite S1. apply Hn1. lia.
    + by rewrite fn_lookup_insert.
    + intros fd Hfd. rewrite fn_lookup_insert /= lookup_insert_ne; [|lia]. rewrite S1. apply Hn1. lia.
  - injection H as <-. split; [done|]. split; [done|]. intros fd Hfd. apply Hn1. lia.
Qed.

Lemma fork_refs s r s' e : fork s = Ret (r, s') → refs_ok e s → refs_ok e s'.
Proof.
  rewrite /fork. intros H I. bind_inv H p s1 H1. eapply run_quiet in I; [|apply quiet_myproc|exact H1]. clear H1.
  bind_inv H o s2 H2. eapply allocproc_refs in H2 as [I2 Hnp]; [|exact I]. destruct o as [np|]; [|by injection H as <- <-].
  destruct Hnp as (Hr & Ho & Hc & Hd). bind_inv H x s3 H3. injection H3 as <- <-.
  bind_inv H y s3 H3. injection H3 as <- <-. bind_inv H er s3 H3. apply quiet_in_mem in H3.
  pose proof (quiet_refs _ _ _ H3 I2) as I3. destruct H3 as [_ Q2 _ Q4 Q5 _]. destruct (er <? 0).
  { bind_inv H u s4 H4. apply freed_freeproc in H4. destruct H4 as (_ & _ & R4); [by rewrite Q2|by rewrite Q5|].
    eapply run_quiet; [|exact H|exact (R4 _ I3)]. solve_upholds. }
  bind_inv H u s4 H4. eapply quiet_upd_proc in H4; [|by intros ?]. bind_inv H u' s5 H5. apply quiet_in_mem in H5.
  bind_inv H u'' s6 H6. apply (quiet_tf_set quiet (λ _ _ Hq, Hq)) in H6.
  assert (quiet s3 s6) as Q36 by (by repeat (etrans; [eassumption|])). clear H4 H5 H6.
  bind_inv H u3 s7 H7. destruct u3. eapply dup_ofile_refs in H7; [|by eapply quiet_refs|exact Hr|..].
  - eapply run_quiet; [|exact H|exact H7]. solve_upholds.
  - by rewrite (q_ofile _ _ Q36) Q2.
  - destruct (dead (p_state (k_procs s6 np))) eqn:E; [|done]. apply (q_dead _ _ Q36), Q4 in E. by rewrite E in Hd.
Qed.

(** All descriptors closed. *)
Lemma close_all_refs p s s' e :
  close_all p s = Ret (tt, s') → refs_ok e s → k_cur s = Some p →
  refs_ok e s' ∧ k_cur s' = Some p ∧ p_ofile (k_procs s' p) = ∅.
Proof.
  intros H I Hc. assert (refs_ok e s' ∧ k_cur s' = Some p ∧ ∀ fd, fd < NOFILE → p_ofile (k_procs s' p) !! fd = None)
    as (I' & Hc' & Hn).
  - revert H. apply (for_upto_inv (λ i t, refs_ok e t ∧ k_cur t = Some p ∧
      ∀ fd, fd < i → p_ofile (k_procs t p) !! fd = None)); [lia| |].
    { split; [done|]. split; [done|]. intros fd Hfd. destruct (p_ofile (k_procs s p) !! fd) eqn:E; [|done].
      destruct (r_dom _ _ I p fd) as [? _]; [by rewrite E|lia]. }
    intros i s1 s2 Hi (I1 & Hc1 & Hn1) H. bind_inv H x s3 H3. injection H3 as <- <-.
    destruct (p_ofile (k_procs s1 p) !! i) as [f|] eqn:Ef.
    + bind_inv H u s3 H3. destruct u. pose proof (still_fileclose _ _ _ _ H3) as [S1 S2 S3].
      eapply fileclose_refs in H3; [|exact I1]. injection H as <-. rewrite -S2 in Hc1.
      destruct (r_cur _ _ H3 _ Hc1) as [Hp Hd]. split; [|split; [done|]]; simpl.
      * eapply refs_set_ofile; [done|done| |..|exact H3].
        -- intros k. rewrite lookup_delete_is_Some. intros [_ ?]. by eapply r_dom.
        -- intros y. rewrite (fds_delete _ _ f); [rewrite /minus; lia|]. by rewrite S1.
      * intros fd Hfd. rewrite fn_lookup_insert /=. destruct (decide (fd = i)) as [->|]; [by rewrite lookup_delete_eq|].
        rewrite lookup_delete_ne // S1. apply Hn1. lia.
    + injection H as <-. split; [done|]. split; [done|]. intros fd Hfd.
      destruct (decide (fd = i)) as [->|]; [done|]. apply Hn1. lia.
  - split; [done|]. split; [done|]. apply map_empty. intros fd. destruct (decide (fd < NOFILE)); [by apply Hn|].
    destruct (p_ofile (k_procs s' p) !! fd) eqn:E; [|done]. destruct (r_dom _ _ I' p fd) as [_ ?]; [by rewrite E|lia].
Qed.

Lemma quiet_wakeup_proc q : upholds quiet (wakeup_proc q).
Proof. destruct q; [apply (quiet_wakeup quiet (λ _ _ Hq, Hq))|solve_upholds]. Qed.
#[local] Hint Resolve quiet_wakeup_proc : upholds.
Lemma quiet_reparent p : upholds quiet (reparent p).
Proof. rewrite /reparent. solve_upholds. Qed.
#[local] Hint Resolve quiet_reparent : upholds.
#[local] Hint Extern 2 (upholds quiet (wakeup _)) => apply (quiet_wakeup quiet (λ _ _ Hq, Hq)) : upholds.
#[local] Hint Extern 2 (upholds quiet (local _)) => apply (quiet_local quiet (λ _ _ Hq, Hq)) : upholds.

(** The exiting process still runs until it has switched away. *)
Lemma exit_enter_refs st s s' e :
  exit_enter st s = Ret (tt, s') → refs_ok e s → refs_ok e (set_k_cur None s').
Proof.
  rewrite /exit_enter. intros H I. bind_inv H p s1 H1. rewrite /myproc in H1. bind_inv H1 c s2 H2.
  injection H2 as <- <-. destruct (k_cur s) as [q|] eqn:Hc; [|done]. injection H1 as <- <-.
  bind_inv H init s1 H1. injection H1 as <- <-. case_bool_decide; [done|]. bind_inv H u s1 H1. destruct u.
  eapply close_all_refs in H1 as (I1 & Hc1 & Ho1); [|done..].
  bind_inv H u s2 H2. apply quiet_in_fs in H2. bind_inv H x s3 H3. injection H3 as <- <-.
  bind_inv H u' s3 H3. eapply (_ : upholds quiet _) in H3. bind_inv H u1 s4 H4. apply quiet_in_fs in H4.
  bind_inv H u2 s5 H5. eapply quiet_upd_proc in H5; [|by intros ?]. bind_inv H u3 s6 H6. apply quiet_acquire in H6.
  bind_inv H u4 s7 H7. apply quiet_reparent in H7. bind_inv H u5 s8 H8. eapply (_ : upholds quiet _) in H8.
  bind_inv H u6 s9 H9. apply quiet_acquire in H9. bind_inv H u7 s10 H10. eapply quiet_upd_proc in H10; [|by intros ?].
  assert (quiet s1 s10) as Q by (by repeat (etrans; [eassumption|])).
  bind_inv H w8 s11 H11. injection H11 as <- <-. rewrite /release in H. case_decide; [|done]. injection H as <-.
  eapply quiet_refs in I1; [|exact Q]. destruct Q as [_ Q2 _ _ _ _].
  assert (refs_ok e (set_k_cur None s10)) as I10 by (by destruct I1).
  apply (refs_end q ZOMBIE) in I10; [|by rewrite /= Q2|done]. by destruct I10.
  Unshelve. all: solve_upholds.
Qed.

(** A zombie has no open files. *)
Lemma refs_wait_scan n p addr pp k : upholds refs_step (wait_scan n p addr pp k).
Proof.
  revert pp k. induction n as [|n IH]; intros pp k; [apply upholds_ret, _|]. simpl.
  apply upholds_bind; [apply _|eauto with upholds|intros y0]. apply upholds_if; [|apply IH].
  intros s a s' H e I. bind_inv H u s1 H1. destruct u. eapply refs_acquire in I; [|done]. clear H1 s.
  bind_inv H y s2 H2. injection H2 as <- <-. destruct (is_state ZOMBIE (k_procs s1 pp)) eqn:Ez; last first.
  { bind_inv H u s2 H2. destruct u. eapply refs_release in I; [|done]. eapply IH; [exact H|exact I]. }
  rewrite /is_state in Ez. apply bool_decide_eq_true in Ez.
  bind_inv H x s2 H2. injection H2 as <- <-. bind_inv H r s3 H3.
  assert (k_procs s3 = k_procs s1 ∧ quiet s1 s3) as [Ep Q].
  { split; [eapply (_ : keeps k_procs _), H3|eapply (_ : upholds quiet _), H3]. Unshelve.
    - rewrite /local /myproc. apply keeps_if; [|apply keeps_ret]. apply keeps_bind; [solve_keeps|intros xs].
      apply keeps_bind; intros; apply keeps_in_mem_procs.
    - solve_upholds. }
  eapply quiet_refs in I; [|exact Q]. destruct (r <? 0).
  { eapply run_quiet; [|exact H|exact I]. solve_upholds. }
  bind_inv H u s4 H4. apply freed_freeproc in H4. destruct H4 as (_ & _ & R4).
  - apply (r_dead _ _ I). by rewrite Ep Ez.
  - intros Hc. destruct (r_cur _ _ I _ Hc) as [_ Hd]. by rewrite Ep Ez in Hd.
  - eapply run_quiet; [|exact H|by apply R4]. solve_upholds.
Qed.

Lemma total_nonneg g : (∀ q, 0 ≤ g q) → 0 ≤ total g.
Proof. intros Hg. rewrite /total. induction (seqZ 0 NPROC) as [|q l IH]; [done|]. rewrite fmap_cons /=. specialize (Hg q). lia. Qed.

(** A file that a descriptor holds has a reference. *)
Lemma refs_held s p fd x :
  refs_ok none s → 0 ≤ p < NPROC → p_ofile (k_procs s p) !! fd = Some x → 1 ≤ f_ref (k_files s x).
Proof.
  intros I Hp Hx. rewrite (r_ref _ _ I) /none /links.
  pose (g q := if decide (q = p) then fds (delete fd (p_ofile (k_procs s p))) x else fds (p_ofile (k_procs s q)) x).
  pose proof (total_update g (λ q, fds (p_ofile (k_procs s q)) x) p Hp) as Ht.
  rewrite Ht; [|intros q Hq; by rewrite /g decide_False].
  assert (0 ≤ total g). { apply total_nonneg. intros q. rewrite /g /fds. case_decide; lia. }
  assert (g p = fds (p_ofile (k_procs s p)) x - 1) as ->; [|lia].
  rewrite /g decide_True // (fds_delete _ _ x) // one_eq. done.
Qed.

Context (Hothers : ∀ p, upholds refs_step (others p)).

Lemma refs_growproc n : upholds refs_step (growproc n).
Proof. rewrite /growproc. solve_upholds. Qed.
Lemma refs_sleep c l : upholds refs_step (sleep c l).
Proof. by apply (quiet_sleep refs_step quiet_step). Qed.
#[local] Hint Resolve refs_growproc refs_sleep refs_wait_scan : upholds.

Lemma refs_wait addr : upholds refs_step (wait addr).
Proof.
  assert (∀ k p, upholds refs_step (wait_loop k p addr)) as Hl. { induction k; intros; cbn [wait_loop]; solve_upholds. }
  rewrite /wait. solve_upholds.
Qed.
Lemma refs_sleep_loop k t n : upholds refs_step (sleep_loop k t n).
Proof. induction k; simpl; solve_upholds. Qed.
#[local] Hint Resolve refs_wait refs_sleep_loop : upholds.

Lemma refs_syscalls c : upholds refs_step (syscalls c).
Proof.
  destruct c; simpl;
    try (intros s r s' H e; first [by eapply fork_refs|by eapply sys_dup_refs|by eapply sys_close_refs|by eapply sys_pipe_refs]).
  - rewrite /sys_exit. intros s r s' H. exfalso. bind_inv H n s1 H1. bind_inv H u s2 H2. by bind_inv H u' s3 H3.
  - rewrite /sys_wait. solve_upholds.
  - eapply quiet_sys_read; eauto using quiet_step with typeclass_instances.
  - rewrite /sys_kill. solve_upholds. apply (quiet_kill refs_step quiet_step).
  - eapply quiet_sys_exec; eauto using quiet_step with typeclass_instances.
  - eapply quiet_sys_fstat; eauto using quiet_step with typeclass_instances.
  - eapply quiet_sys_chdir; eauto using quiet_step with typeclass_instances.
  - rewrite /sys_getpid. solve_upholds.
  - rewrite /sys_sbrk. solve_upholds.
  - rewrite /sys_sleep. solve_upholds.
  - rewrite /sys_uptime. solve_upholds.
  - apply refs_sys_open.
  - eapply quiet_sys_write; eauto using quiet_step with typeclass_instances.
  - eapply quiet_sys_mknod; eauto using quiet_step with typeclass_instances.
  - eapply quiet_sys_unlink; eauto using quiet_step with typeclass_instances.
  - eapply quiet_sys_link; eauto using quiet_step with typeclass_instances.
  - eapply quiet_sys_mkdir; eauto using quiet_step with typeclass_instances.
Qed.

(** C11: the reference count of every open file is right, always: provided
    the processes that run while one waits keep it so, every system call that
    returns, with success or with an error, leaves every file's count equal to
    the number of descriptors that hold it, and so does [exit] when it leaves
    the hart; hence a file that a descriptor holds has a positive count, and
    the checks in [filedup] and [fileclose] cannot fail on it. *)
Theorem file_refs_invariant s :
  refs_ok none s →
  (∀ c r s', syscalls c s = Ret (r, s') → refs_ok none s') ∧
  (∀ st s', exit_enter st s = Ret (tt, s') → refs_ok none (set_k_cur None s')) ∧
  (∀ p fd x, 0 ≤ p < NPROC → p_ofile (k_procs s p) !! fd = Some x → 1 ≤ f_ref (k_files s x)).
Proof.
  intros I. split; [|split].
  - intros c r s' H. by eapply refs_syscalls.
  - intros st s' H. by eapply exit_enter_refs.
  - intros p fd x. by apply refs_held.
Qed.
End refs.

(** A process with one open file duplicates its descriptor. *)
Definition one_file : kern :=
  set_k_cur (Some 0)
    (set_k_procs (<[0 := with_p_ofile {[ 0 := 5 ]} (with_p_state RUNNING proc0)]> (λ _, proc0))
       (set_k_files (<[5 := with_f_ref 1 file0]> (λ _, file0)) kern0)).

Lemma one_file_refs : refs_ok none one_file.
Proof.
  split.
  - intros x. rewrite /none Z.add_0_r. destruct (decide (x = 5)) as [->|Hx]; [by vm_compute|].
    rewrite {1}/one_file /= fn_lookup_insert_ne //. symmetry. transitivity (total (λ _, 0)); [|done].
    apply total_ext. intros q. rewrite /one_file /= /insert /fn_insert. case_decide; simpl; [|apply fds_empty].
    change {[0 := 5]} with (<[0 := 5]> (∅ : gmap Z Z)). rewrite fds_insert // fds_empty one_ne //.
  - intros p fd. rewrite /one_file /= /insert /fn_insert. case_decide; simpl; [|by rewrite lookup_empty; intros []].
    rewrite lookup_singleton_is_Some. lia.
  - intros p. rewrite /one_file /= /insert /fn_insert. by case_decide.
  - intros p [= <-]. split; [lia|]. by vm_compute.
Qed.

Lemma file_refs_witness :
  wp (@sys_dup) (λ r s', r = 1 ∧ f_ref (k_files s' 5) = 2 ∧ refs_ok none s') one_file.
Proof.
  assert (wp sys_dup (λ r s', r = 1 ∧ f_ref (k_files s' 5) = 2) one_file) as Hw by by vm_compute.
  apply wp_elim in Hw as (r & s' & H & Hr & Hf). apply (wp_Ret _ _ _ _ _ H). split; [exact Hr|]. split; [exact Hf|].
  refine (proj1 (@file_refs_invariant small_image demo_syms no_others _ one_file one_file_refs) SYS_dup r s' H).
  intros p. apply upholds_ret, _.
Defined.
