(* ===== verification/Fork.v ===== *)
(** * Fork

    [allocproc], [freeproc] and [fork] over the whole kernel state.  The
    invariant [procs_mem] ties the process table to the address spaces: a free
    slot has no memory, every other slot has a page table, user memory of its
    size and a trapframe page of its own.  [fork_spec] says what fork does to
    all of it when it succeeds, and that it leaves nothing behind when it
    fails. *)

From stdpp Require Import functions list.
From S2P Require Import Prelude Mem Cstring Riscv Spinlock Kalloc Vm Uvm Bio Fs State Sched File Proc Frame Refs Cow Usermem ProcMem.

Local Open Scope Z_scope.

(** ** The parts of the state that change *)

Definition upto (s : kern) (m : kst) (P : Z → proc) (n : Z) (h : gset lockid) : kern :=
  mk_kern m (k_fs s) P (k_cur s) (k_files s) (k_pipes s) (k_initproc s) n (k_ticks s) (k_first s) (k_devsw s)
    (k_locking s) (k_pagetable s) (k_cons s) (k_uart s) (k_vdisk s) (k_csr s) h.

Lemma upto_id s : s = upto s (k_mem s) (k_procs s) (k_nextpid s) (k_held s).
Proof. by destruct s. Qed.

Section upto.
Context (s : kern) (m : kst) (P : Z → proc) (n : Z) (h : gset lockid).
Notation t := (upto s m P n h).

Lemma wpu_mem {A} (c : M kst A) (Q : A → kern → Prop) : wp c (λ a m', Q a (upto s m' P n h)) m → wp (in_mem c) Q t.
Proof. intros H. by apply wp_zoom. Qed.
Lemma wpu_at p (Q : proc → kern → Prop) : Q (P p) t → wp (proc_at p) Q t.
Proof. done. Qed.
Lemma wpu_upd p f (Q : unit → kern → Prop) : Q tt (upto s m (<[p := f (P p)]> P) n h) → wp (upd_proc p f) Q t.
Proof. done. Qed.
Lemma wpu_acquire l (Q : unit → kern → Prop) : l ∉ h → Q tt (upto s m P n ({[l]} ∪ h)) → wp (acquire l) Q t.
Proof. intros Hl HQ. by apply wp_acquire. Qed.
Lemma wpu_release l (Q : unit → kern → Prop) : l ∈ h → Q tt (upto s m P n (h ∖ {[l]})) → wp (release l) Q t.
Proof. intros Hl HQ. by apply wp_release. Qed.
End upto.

(** The table [P'] is [P] with slot [p] set to [y]. *)
Definition slot (P : Z → proc) (p : Z) (y : proc) (P' : Z → proc) : Prop :=
  ∀ q, P' q = if decide (q = p) then y else P q.

Lemma slot_at P p y P' : slot P p y P' → P' p = y.
Proof. intros H. by rewrite H decide_True. Qed.
Lemma slot_ne P p y P' q : slot P p y P' → q ≠ p → P' q = P q.
Proof. intros H Hq. by rewrite H decide_False. Qed.
Lemma slot_trans P p z P1 w P2 : slot P p z P1 → slot P1 p w P2 → slot P p w P2.
Proof. intros H1 H2 q. rewrite H2 H1. by case_decide. Qed.
Lemma slot_insert P p y P' z : slot P p y P' → slot P p z (<[p := z]> P').
Proof. intros H q. rewrite /insert /fn_insert. rewrite H. by repeat case_decide; subst. Qed.

Lemma wpu_slot P s m P1 n h p y f (Q : unit → kern → Prop) :
  slot P p y P1 → (∀ P2, slot P p (f y) P2 → Q tt (upto s m P2 n h)) → wp (upd_proc p f) Q (upto s m P1 n h).
Proof. intros H HQ. apply wpu_upd, HQ. rewrite (slot_at _ _ _ _ H). by eapply slot_insert. Qed.

Lemma slot_self P p : slot P p (P p) P.
Proof. intros q. by case_decide; subst. Qed.

(** One more update of the slot. *)
Ltac upd H := let P' := fresh "P'" in let H' := fresh "H'" in
  first [apply wp_bind | idtac]; eapply wpu_slot; [exact H|]; intros P' H'; clear H; rename H' into H; cbv beta in H.

Section fork.
Context {KI : KernelImage} {KS : KernelSyms} {OT : Others}.

(** ** [freeproc] *)

(** What is left of a slot. *)
Definition blank (x : proc) : proc :=
  mk_proc UNUSED None false 0 0 None (p_kstack x) 0 0 0 (p_context x) (p_ofile x) (p_cwd x) [].

Lemma wp_freeproc p s m P n h (Q : unit → kern → Prop) :
  let x := P p in
  wp (if negb (p_trapframe x =? 0) then kfree (p_trapframe x) else mret tt)
    (λ _, wp (if negb (p_pagetable x =? 0) then proc_freepagetable (p_pagetable x) (p_sz x) else mret tt)
      (λ _ m', ∀ P', slot P p (blank x) P' → Q tt (upto s m' P' n h))) m →
  wp (freeproc p) Q (upto s m P n h).
Proof.
  intros x H. rewrite /freeproc. apply wp_bind, wpu_at. fold x. apply wp_bind.
  assert (wp (if negb (p_trapframe x =? 0) then in_mem (kfree (p_trapframe x)) else mret tt)
    (λ _ t, ∃ m', t = upto s m' P n h ∧
       wp (if negb (p_pagetable x =? 0) then proc_freepagetable (p_pagetable x) (p_sz x) else mret tt)
         (λ _ m', ∀ P', slot P p (blank x) P' → Q tt (upto s m' P' n h)) m') (upto s m P n h)) as H1.
  { destruct (p_trapframe x =? 0); simpl in H |- *; [apply wp_ret; by eexists|]. apply wpu_mem.
    eapply wp_mono; [exact H|]. intros [] m' Hm'. by eexists. }
  eapply wp_mono; [exact H1|]. clear H H1. intros [] ? (m1 & -> & H). pose proof (slot_self P p) as Hs. fold x in Hs.
  upd Hs. apply wp_bind.
  assert (wp (if negb (p_pagetable x =? 0) then in_mem (proc_freepagetable (p_pagetable x) (p_sz x)) else mret tt)
    (λ _ t, ∃ m', t = upto s m' P' n h ∧ ∀ P', slot P p (blank x) P' → Q tt (upto s m' P' n h)) (upto s m1 P' n h)) as H1.
  { destruct (p_pagetable x =? 0); simpl in H |- *; [apply wp_ret; by eexists|]. apply wpu_mem.
    eapply wp_mono; [exact H|]. intros [] m' Hm'. by eexists. }
  eapply wp_mono; [exact H1|]. clear H H1. intros [] ? (m2 & -> & H). do 9 upd Hs. by apply H.
Qed.

(** ** [allocproc] *)

Lemma wp_find_unused k p s m P n h (Q : option Z → kern → Prop) :
  (∀ q, PROC q ∉ h) →
  (∀ q, p ≤ q < p + Z.of_nat k → p_state (P q) = UNUSED → Q (Some q) (upto s m P n ({[PROC q]} ∪ h))) →
  ((∀ q, p ≤ q < p + Z.of_nat k → p_state (P q) ≠ UNUSED) → Q None (upto s m P n h)) → wp (find_unused k p) Q (upto s m P n h).
Proof.
  intros Hh Hs Hn. revert p Hs Hn. induction k as [|k IH]; intros p Hs Hn; simpl; [apply wp_ret, Hn; lia|].
  apply wp_bind, wpu_acquire; [apply Hh|]. apply wp_bind, wpu_at. rewrite /is_state. case_bool_decide as Hst.
  - apply wp_ret, Hs; [lia|done].
  - apply wp_bind, wpu_release; [set_solver|]. rewrite held_restore; [|apply Hh]. apply IH; [intros q Hq; apply Hs; lia|].
    intros Hno. apply Hn. intros q Hq. destruct (decide (q = p)) as [->|]; [done|]. apply Hno. lia.
Qed.

Lemma wp_allocpid s m P n h (Q : Z → kern → Prop) :
  PID_LOCK ∉ h → n < 2 ^ 31 - 1 → Q n (upto s m P (n + 1) h) → wp allocpid Q (upto s m P n h).
Proof.
  intros Hh Hn HQ. rewrite /allocpid. apply wp_bind, wpu_acquire; [done|]. apply wp_bind, wp_gets. simpl.
  destruct (Z.eqb_spec n (2 ^ 31 - 1)); [lia|]. apply wp_bind, wp_modify.
  change (set_k_nextpid _ _) with (upto s m P (n + 1) ({[PID_LOCK]} ∪ h)).
  apply wp_bind, wpu_release; [set_solver|]. rewrite held_restore //.
Qed.

(** A free slot has no memory and no files. *)
Definition clear_slot (x : proc) : Prop := p_sz x = 0 ∧ p_pagetable x = 0 ∧ p_trapframe x = 0.

(** The slot of a process in the making. *)
Definition used_slot (y : proc) (pid root tf : Z) : proc :=
  mk_proc USED (p_chan y) (p_killed y) (p_xstate y) pid (p_parent y) (p_kstack y) (p_sz y) root tf
    (mk_context forkret_addr (p_kstack y + PGSIZE) (replicate 12 0)) (p_ofile y) (p_cwd y) (p_name y).

(** At most one free slot was blanked. *)
Definition given_up (P P' : Z → proc) : Prop :=
  ∀ q, P' q = P q ∨ (p_state (P q) = UNUSED ∧ ∃ c, P' q = with_p_context c (blank (P q))).

Lemma slot_given_up P p z P1 P2 :
  p_state (P p) = UNUSED → blank z = with_p_context (p_context z) (blank (P p)) →
  slot P p z P1 → slot P1 p (blank z) P2 → given_up P P2.
Proof. intros Hu E H1 H2 q. rewrite H2 H1. case_decide; subst; [right|by left]. split; [done|]. by eexists. Qed.

Lemma wp_allocproc s fl ps (Q : option Z → kern → Prop) :
  k_held s = ∅ → world (k_mem s) fl ps → k_nextpid s < 2 ^ 31 - 1 →
  (∀ q, 0 ≤ q < NPROC → p_state (k_procs s q) = UNUSED → clear_slot (k_procs s q)) →
  (∀ np tf a m fl' P', let y := k_procs s np in
     0 ≤ np < NPROC → p_state y = UNUSED → made (k_mem s) fl ps tf a m fl' → as_n a = 0%nat → as_root a ≠ 0 →
     proc_as m a tf → (∀ p, p ∈ fl' → p ∈ fl ∧ p ≠ tf) →
     slot (k_procs s) np (used_slot y (k_nextpid s) (as_root a) tf) P' → (length fl ≤ length fl' + 6)%nat →
     Q (Some np) (upto s m P' (k_nextpid s + 1) {[PROC np]})) →
  (∀ m fl' P' n', undone (k_mem s) fl ps m fl' → given_up (k_procs s) P' →
     (∀ q, 0 ≤ q < NPROC → p_state (k_procs s q) ≠ UNUSED) ∨ (length fl < 6)%nat → Q None (upto s m P' n' ∅)) →
  wp allocproc Q s.
Proof.
  intros Hh Hw Hpid Hclear Hs Hf. set (P := k_procs s) in *. set (n := k_nextpid s) in *. set (m := k_mem s) in *.
  rewrite (upto_id s) Hh. fold P n m. rewrite /allocproc. apply wp_bind, wp_find_unused; [set_solver| |].
  2: { intros Hno. apply wp_ret. apply (Hf m fl P n); [by apply undone_refl|by left|by left]. }
  intros np Hnp Hu. change (0 ≤ np < 0 + 64) in Hnp. rewrite Z.add_0_l in Hnp. rewrite right_id_L. apply wp_bind, wp_allocpid; [set_solver|done|].
  pose proof (slot_self P np) as Hsl. destruct (Hclear np Hnp Hu) as (Hsz & Hpt & Htf0). set (y := P np) in *.
  upd Hsl. upd Hsl. apply wp_bind, wpu_mem, (wp_kalloc m fl); [apply Hw|apply Hw| |].
  - intros tf fl0 Hfl _. destruct (kinv_head m tf fl0) as [Htf Htfn]; [rewrite -Hfl; apply Hw|].
    pose proof (page_ok_range tf Htf). upd Hsl. destruct (Z.eqb_spec tf 0); [lia|].
    pose proof Hw as Hw0. rewrite Hfl in Hw0.
    destruct (world_taken m tf fl0 ps _ Hw0 (taken_eq_on m tf)) as (Hwt & _). rewrite taken_mem in Hwt.
    apply wp_bind, wpu_mem, (wp_proc_pagetable (taken tf m) fl0 ps tf); [done|done| |].
    + intros a m' fl' Hn Hr Hpa Had Hsub Hlen. upd Hsl. destruct (Z.eqb_spec (as_root a) 0); [done|].
      apply wp_bind, wpu_at. rewrite (slot_at _ _ _ _ Hsl). upd Hsl. apply wp_ret.
      apply (Hs np tf a m' fl'); try done; [by exists fl0| |rewrite Hfl /=; lia].
      intros p Hp%Hsub. rewrite Hfl. split; [apply elem_of_cons; by right|by intros ->].
    + intros m' fl' Hun Hlen. upd Hsl. change (0 =? 0) with true. cbv iota. rewrite /allocproc_fail.
      apply wp_bind, wp_freeproc. rewrite (slot_at _ _ _ _ Hsl). simpl. destruct (Z.eqb_spec tf 0); [lia|]. simpl.
      eapply wp_mono; [apply (wp_kfree_undone m tf fl0 ps m' fl'); done|]. intros [] m2 (fl2 & Hun2). apply wp_ret.
      intros P2 HP2. apply wp_bind, wpu_release; [set_solver|]. apply wp_ret. rewrite difference_diag_L.
      apply (Hf m2 fl2 P2); [by rewrite Hfl| |right; rewrite Hfl /=; lia].
      eapply slot_given_up; [exact Hu| |exact Hsl|exact HP2]. done.
  - intros Hfl. upd Hsl. change (0 =? 0) with true. cbv iota. rewrite /allocproc_fail.
    apply wp_bind, wp_freeproc. rewrite (slot_at _ _ _ _ Hsl). simpl. rewrite Hpt. apply wp_ret, wp_ret.
    intros P2 HP2. apply wp_bind, wpu_release; [set_solver|]. apply wp_ret. rewrite difference_diag_L.
    apply (Hf m fl P2); [by apply undone_refl| |right; rewrite Hfl /=; lia].
    eapply slot_given_up; [exact Hu| |exact Hsl|exact HP2]. done.
Qed.
(** ** The open files *)

Lemma wp_filedup s fi m P n h f (Q : Z → kern → Prop) :
  FTABLE ∉ h → 1 ≤ f_ref (fi f) →
  (∀ fi', (∀ g, fi' g = if decide (g = f) then with_f_ref (f_ref (fi f) + 1) (fi f) else fi g) →
     Q f (upto (set_k_files fi' s) m P n h)) →
  wp (filedup f) Q (upto (set_k_files fi s) m P n h).
Proof.
  intros Hh Hf HQ. rewrite /filedup. apply wp_bind, wpu_acquire; [done|]. apply wp_bind, wp_gets. simpl.
  destruct (Z.ltb_spec (f_ref (fi f)) 1); [lia|]. apply wp_bind, wp_modify.
  change (set_k_files _ _) with (upto (set_k_files (<[f := with_f_ref (f_ref (fi f) + 1) (fi f)]> fi) s) m P n ({[FTABLE]} ∪ h)).
  apply wp_bind, wpu_release; [set_solver|]. rewrite held_restore //. apply wp_ret, HQ.
  intros g. rewrite /insert /fn_insert. by repeat case_decide; subst.
Qed.

(** The descriptors below [i]. *)
Definition below (i : Z) (o : gmap Z Z) : gmap Z Z := filter (λ kv : Z * Z, kv.1 < i) o.

Lemma below_lookup i o fd f : below i o !! fd = Some f ↔ o !! fd = Some f ∧ fd < i.
Proof. by rewrite /below map_lookup_filter_Some. Qed.

Lemma below_all i o : (∀ fd f, o !! fd = Some f → fd < i) → below i o = o.
Proof. intros H. apply map_eq. intros fd. apply option_eq. intros f. rewrite below_lookup. naive_solver. Qed.

Lemma below_none i o : (∀ fd f, o !! fd = Some f → i ≤ fd) → below i o = ∅.
Proof.
  intros H. apply map_empty. intros fd. destruct (below i o !! fd) as [f|] eqn:E; [|done].
  apply below_lookup in E as [E Hi]. apply H in E. lia.
Qed.

Lemma below_step i o : below (i + 1) o = match o !! i with Some f => <[i := f]> (below i o) | None => below i o end.
Proof.
  apply map_eq. intros fd. apply option_eq. intros f. rewrite below_lookup. destruct (o !! i) as [f'|] eqn:E.
  - rewrite lookup_insert_Some below_lookup. split.
    + intros [Hf Hfd]. destruct (decide (fd = i)) as [->|]; [left; split; congruence|right; split; [done|split; [done|lia]]].
    + intros [[<- <-]|(Hne & Hf & Hfd)]; (split; [done|lia]).
  - rewrite below_lookup. split; [|intros [? ?]; split; [done|lia]]. intros [Hf Hfd]. split; [done|].
    destruct (decide (fd = i)) as [->|]; [congruence|lia].
Qed.

Lemma wp_dup_ofile s m P n h p np (Q : unit → kern → Prop) :
  let o := p_ofile (P p) in
  FTABLE ∉ h → p ≠ np → (∀ fd f, o !! fd = Some f → 0 ≤ fd < NOFILE ∧ 1 ≤ f_ref (k_files s f)) → p_ofile (P np) = ∅ →
  (∀ fi P', (∀ f, fi f = with_f_ref (f_ref (k_files s f) + fds o f) (k_files s f)) →
     slot P np (with_p_ofile o (P np)) P' → Q tt (upto (set_k_files fi s) m P' n h)) →
  wp (dup_ofile p np) Q (upto s m P n h).
Proof.
  intros o Hh Hne Ho Hnp HQ. set (I i t := ∃ fi P', t = upto (set_k_files fi s) m P' n h ∧
    (∀ f, fi f = with_f_ref (f_ref (k_files s f) + fds (below i o) f) (k_files s f)) ∧
    slot P np (with_p_ofile (below i o) (P np)) P').
  apply (wp_for_upto I); [lia|..].
  - exists (k_files s), P. rewrite below_none; [|intros fd f Hf; by apply Ho in Hf as [[? _] _]]. split_and!; [done|..].
    + intros f. rewrite fds_empty Z.add_0_r. by destruct (k_files s f).
    + intros q. case_decide; [subst|done]. rewrite -Hnp. by destruct (P np).
  - intros i t Hi (fi & P' & -> & Hfi & HP). apply wp_bind, wpu_at. rewrite (slot_ne _ _ _ _ _ HP Hne). fold o.
    pose proof (below_step i o) as Hstep. destruct (o !! i) as [f|] eqn:Ef.
    + assert (∀ g, 0 ≤ fds (below i o) g) as Hpos by (intros g; rewrite /fds; lia).
      apply wp_bind, wp_filedup; [done| |].
      { rewrite Hfi /=. destruct (Ho i f Ef) as [_ ?]. specialize (Hpos f). lia. }
      intros fi' Hfi'. upd HP. exists fi', P'0. split_and!; [done|..|].
      * intros g. rewrite Hfi' Hstep fds_insert; [|apply eq_None_not_Some; intros [? [_ ?]%below_lookup]; lia].
        rewrite /one. case_decide; subst; rewrite !Hfi; simpl; [|case_decide; [by subst|by rewrite Z.add_0_r]].
        rewrite decide_True // Z.add_assoc. done.
      * rewrite Hstep. done.
    + apply wp_ret. exists fi, P'. by rewrite Hstep.
  - intros t (fi & P' & -> & Hfi & HP). rewrite below_all in Hfi HP; [|intros fd f Hf; by apply Ho in Hf as [[_ ?] _]]. by apply HQ.
Qed.
(** ** The working directory and the trapframe *)

Lemma wp_fs_idup s m P n h d (Q : Z → kern → Prop) :
  ITABLE ∉ fheld (k_fs s) →
  (let x := inodes (k_fs s) d in ∀ pid, Q d (upto (set_k_fs (set_inode d (with_iref (i_ref x + 1) x) (set_fpid pid (k_fs s))) s) m P n h)) →
  wp (in_fs (idup d)) Q (upto s m P n h).
Proof.
  intros Hh HQ. apply wp_zoom. rewrite /idup. apply wp_bind, wp_acquire; [done|]. apply wp_bind, wp_modify.
  apply wp_bind, wp_release; [rewrite /held /=; set_solver|]. apply wp_ret. rewrite /held /= held_restore //.
  specialize (HQ (cur_pid (upto s m P n h))). by destruct (k_fs s).
Qed.

(** [*(np->trapframe) = *(p->trapframe); np->trapframe->a0 = 0;] *)
Lemma trapframe_copy m0 tf ptf : page_ok tf → page_ok ptf → tf ≠ ptf →
  let m := st64 (memmove m0 tf ptf SIZEOF_TRAPFRAME) (tf + TF_A0) 0 in
  (∀ k, 0 ≤ k < SIZEOF_TRAPFRAME → ld8 m (tf + k) = if decide (TF_A0 ≤ k < TF_A0 + 8) then 0 else ld8 m0 (ptf + k)) ∧
  mem_eq_on (λ x, ¬ in_page tf x) m0 m.
Proof.
  intros Htf Hptf Hne m. split.
  - intros k Hk. rewrite /m /st64 ld8_stle. unfold span. case_decide as H1.
    + rewrite decide_True; [|lia]. by rewrite Zdiv_0_l.
    + rewrite decide_False; [|lia]. rewrite ld8_memmove; [|lia]. rewrite decide_True; [|unfold span; lia]. do 2 f_equal. lia.
  - intros x Hx. rewrite /m /st64 ld8_stle decide_False; [|unfold span in *; lia]. rewrite ld8_memmove; [|lia].
    rewrite decide_False //. unfold span in *. lia.
Qed.
(** ** The invariant *)

(** The memory of one process. *)
Record proc_mem (m : kst) (fl : list Z) (ps : list aspace) (x : proc) (a : aspace) : Prop := {
  pr_root : p_pagetable x = as_root a;
  pr_size : 0 ≤ p_sz x;
  pr_pages : as_n a = npages (p_sz x);
  pr_as : proc_as m a (p_trapframe x);
  pr_tf : spare m fl ps (p_trapframe x);
}.

(** The memory of all processes; [ix] gives the address space of each. *)
Record procs_mem (s : kern) (fl : list Z) (ps : list aspace) (ix : Z → nat) : Prop := {
  pm_world : world (k_mem s) fl ps;
  pm_free : ∀ q, 0 ≤ q < NPROC → p_state (k_procs s q) = UNUSED → clear_slot (k_procs s q);
  pm_used : ∀ q, 0 ≤ q < NPROC → p_state (k_procs s q) ≠ UNUSED →
    ∃ a, ps !! ix q = Some a ∧ proc_mem (k_mem s) fl ps (k_procs s q) a;
  pm_inj : ∀ q r, 0 ≤ q < NPROC → 0 ≤ r < NPROC → p_state (k_procs s q) ≠ UNUSED → p_state (k_procs s r) ≠ UNUSED →
    ix q = ix r ∨ p_trapframe (k_procs s q) = p_trapframe (k_procs s r) → q = r;
}.

Lemma PGROUNDUP_npages sz : 0 ≤ sz ≤ MAXVA → Z.to_nat (PGROUNDUP sz / PGSIZE) = npages sz.
Proof. intros Hsz. destruct (PGROUNDUP_ok sz) as (H1 & H2 & H3); [lia|]. rewrite /npages. dlia. Qed.

(** A process keeps its memory when the others' does not concern it. *)
Lemma proc_mem_kept m fl ps x a m' fl' ps' i :
  ps !! i = Some a → seen m ps m' → (∀ q, spare m fl ps q → spare m' fl' ps' q) →
  proc_mem m fl ps x a → proc_mem m' fl' ps' x a.
Proof.
  intros Hi Hs Hsp [H1 H2 H3 [H4 H4'] H5]. split; [done..| |by apply Hsp]. split; [done|].
  intros va Hva Hn. rewrite -H4' //. by apply (Hs i a va Hi).
Qed.

(** The failure of [fork]. *)
Lemma procs_mem_undone s fl ps ix m fl' P' n' h :
  procs_mem s fl ps ix → undone (k_mem s) fl ps m fl' → given_up (k_procs s) P' → procs_mem (upto s m P' n' h) fl' ps ix.
Proof.
  intros [Hw Hfree Hused Hinj] [Hw' Hs Hc _] Hg.
  assert (∀ q, p_state (P' q) = p_state (k_procs s q)) as Hst by (intros q; by destruct (Hg q) as [->|[-> [c ->]]]).
  assert (∀ q, p_state (k_procs s q) ≠ UNUSED → P' q = k_procs s q) as Hsame by (intros q Hq; by destruct (Hg q) as [->|[? _]]).
  split; simpl; [done|..].
  - intros q Hq Hu. rewrite Hst in Hu. destruct (Hg q) as [->|[_ [c ->]]]; [by apply Hfree|done].
  - intros q Hq Hu. rewrite Hst in Hu. rewrite Hsame //. destruct (Hused q Hq Hu) as (a & Hi & Ha). exists a. split; [done|].
    eapply proc_mem_kept; [exact Hi|exact Hs| |exact Ha]. intros r. by apply calm_spare.
  - intros q r Hq Hr. rewrite !Hst. intros Hu Hv. rewrite !Hsame //. by apply Hinj.
Qed.

(** Its success. *)
Lemma procs_mem_added s fl ps ix np y m child fl' P' t :
  procs_mem s fl ps ix → 0 ≤ np < NPROC → p_state y ≠ UNUSED →
  world m fl' (ps ++ [child]) → seen (k_mem s) ps m → (∀ q, spare (k_mem s) fl ps q → spare m fl' (ps ++ [child]) q) →
  (∀ q, spare (k_mem s) fl ps q → q ≠ p_trapframe y) →
  proc_mem m fl' (ps ++ [child]) y child → slot (k_procs s) np y P' → k_mem t = m → k_procs t = P' →
  p_state (k_procs s np) = UNUSED → procs_mem t fl' (ps ++ [child]) (<[np := length ps]> ix).
Proof.
  intros [Hw Hfree Hused Hinj] Hnp Hy Hw' Hs Hsp Htf Hpm HP <- <- Hu.
  assert (∀ q, q ≠ np → (<[np := length ps]> ix) q = ix q) as Hix by (intros q Hq; by rewrite fn_lookup_insert_ne).
  split; [done|..].
  - intros q Hq Hq'. destruct (decide (q = np)) as [->|Hne]; [by rewrite (slot_at _ _ _ _ HP) in Hq'|].
    rewrite (slot_ne _ _ _ _ _ HP Hne) in Hq' |- *. by apply Hfree.
  - intros q Hq Hq'. destruct (decide (q = np)) as [->|Hne].
    + exists child. rewrite fn_lookup_insert (slot_at _ _ _ _ HP). split; [apply snoc_last|done].
    + rewrite (slot_ne _ _ _ _ _ HP Hne) in Hq' |- *. rewrite Hix //. destruct (Hused q Hq Hq') as (a & Hi & Ha).
      exists a. split; [by apply snoc_l|]. by eapply proc_mem_kept.
  - assert (∀ q, 0 ≤ q < NPROC → q ≠ np → p_state (k_procs s q) ≠ UNUSED → ix q ≠ length ps ∧ p_trapframe (k_procs s q) ≠ p_trapframe y) as Hfresh.
    { intros q Hq Hne Hq'. destruct (Hused q Hq Hq') as (a & Hi & Ha). split; [|by apply Htf, Ha]. apply lookup_lt_Some in Hi. lia. }
    intros q r Hq Hr. destruct (decide (q = np)) as [->|Hqn]; destruct (decide (r = np)) as [->|Hrn]; [done|..];
      rewrite ?(slot_at _ _ _ _ HP) ?fn_lookup_insert ?(slot_ne _ _ _ _ q HP) ?(slot_ne _ _ _ _ r HP) // ?Hix //.
    + intros _ Hr' [E|E]; by destruct (Hfresh r Hr Hrn Hr').
    + intros Hq' _ [E|E]; by destruct (Hfresh q Hq Hqn Hq').
    + by apply Hinj.
Qed.
(** ** [fork] *)

(** The slot of the child of [x], in what was slot [y]. *)
Definition forked (x y : proc) (p pid root tf : Z) : proc :=
  mk_proc RUNNABLE (p_chan y) (p_killed y) (p_xstate y) pid (Some p) (p_kstack y) (p_sz x) root tf
    (mk_context forkret_addr (p_kstack y + PGSIZE) (replicate 12 0)) (p_ofile x) (p_cwd x) (proc_name (p_name x)).

(** A new process that sees the parent's memory. *)
Definition fork_success (s : kern) (fl : list Z) (ps : list aspace) (ix : Z → nat) (p : Z) (par : aspace)
    (r : Z) (s' : kern) : Prop :=
  ∃ np child tf fl', let x := k_procs s p in let y := k_procs s np in
    r = k_nextpid s ∧ 0 ≤ np < NPROC ∧ p_state y = UNUSED ∧
    slot (k_procs s) np (forked x y p r (as_root child) tf) (k_procs s') ∧
    procs_mem s' fl' (ps ++ [child]) (<[np := length ps]> ix) ∧
    (∀ va, uread (k_mem s') child va = uread (k_mem s) par va) ∧
    seen (k_mem s) ps (k_mem s') ∧ calm_to (k_mem s) fl ps (k_mem s') fl' (ps ++ [child]) ∧
    (∀ k, 0 ≤ k < SIZEOF_TRAPFRAME → ld8 (mem (k_mem s')) (tf + k) =
       if decide (TF_A0 ≤ k < TF_A0 + 8) then 0 else ld8 (mem (k_mem s)) (p_trapframe x + k)) ∧
    (∀ f, k_files s' f = with_f_ref (f_ref (k_files s f) + fds (p_ofile x) f) (k_files s f)) ∧
    (∃ d pid, p_cwd x = Some d ∧ let i := inodes (k_fs s) d in
       k_fs s' = set_inode d (with_iref (i_ref i + 1) i) (set_fpid pid (k_fs s))) ∧
    s' = upto (set_k_fs (k_fs s') (set_k_files (k_files s') s)) (k_mem s') (k_procs s') (k_nextpid s + 1) ∅.

(** No process, and nothing lost; only for want of a slot or of pages. *)
Definition fork_failure (s : kern) (fl : list Z) (ps : list aspace) (ix : Z → nat) (p : Z) (r : Z) (s' : kern) : Prop :=
  ((∀ q, 0 ≤ q < NPROC → p_state (k_procs s q) ≠ UNUSED) ∨ (length fl < 6 + 2 * npages (p_sz (k_procs s p)))%nat) ∧
  ∃ fl', r = -1 ∧ undone (k_mem s) fl ps (k_mem s') fl' ∧ given_up (k_procs s) (k_procs s') ∧ procs_mem s' fl' ps ix ∧
    s' = upto s (k_mem s') (k_procs s') (k_nextpid s') ∅.

Section running.
Context (s : kern) (fl : list Z) (ps : list aspace) (ix : Z → nat) (p d : Z) (par : aspace).
Context (Hpm : procs_mem s fl ps ix) (Hrefs : refs_ok none s) (Hheld : k_held s = ∅) (Hit : ITABLE ∉ fheld (k_fs s)).
Context (Hcur : k_cur s = Some p) (Hcwd : p_cwd (k_procs s p) = Some d) (Hpid : k_nextpid s < 2 ^ 31 - 1).
Context (Hpar : ps !! ix p = Some par) (Hpp : proc_mem (k_mem s) fl ps (k_procs s p) par).
Context (Hroom : room (npages (p_sz (k_procs s p))) (k_mem s)).
(** The slot that [allocproc] found. *)
Context (np tf root : Z) (Hnp : 0 ≤ np < NPROC) (Hfree : p_state (k_procs s np) = UNUSED).
Notation x := (k_procs s p).
Notation y := (k_procs s np).
Notation pid := (k_nextpid s).

Lemma fork_np : p ≠ np.
Proof. intros ->. destruct (r_cur _ _ Hrefs _ Hcur) as [_ Hd]. by rewrite Hfree in Hd. Qed.

(** The copy failed. *)
Lemma wp_fork_fail m T fl' P1 :
  made (k_mem s) fl ps tf (mk_as root T 0) m fl' → proc_as m (mk_as root T 0) tf → root ≠ 0 →
  slot (k_procs s) np (used_slot y pid root tf) P1 → (length fl < 6 + 2 * npages (p_sz x))%nat →
  wp (freeproc np;; release (PROC np);; mret (-1)) (λ r s', fork_failure s fl ps ix p r s') (upto s m P1 (pid + 1) {[PROC np]}).
Proof.
  intros Hmd Hpa Hr HP Hlen. pose proof (pm_world _ _ _ _ Hpm) as Hw. destruct (pm_free _ _ _ _ Hpm np Hnp Hfree) as (Hsz & _).
  destruct (made_facts _ _ _ _ _ _ _ Hw Hmd) as (Htf & _). pose proof (page_ok_range tf Htf).
  apply wp_bind, wp_freeproc. rewrite (slot_at _ _ _ _ HP). cbn [used_slot p_trapframe p_pagetable p_sz].
  destruct (Z.eqb_spec tf 0); [lia|]. destruct (Z.eqb_spec root 0); [done|]. rewrite Hsz. cbn [negb].
  eapply wp_mono; [by apply (wp_kfree_tf (k_mem s) fl ps tf (mk_as root T 0) m fl')|]. intros [] m1 (fl1 & Had & Hup).
  eapply wp_mono; [apply (wp_proc_freepagetable m1 fl1 ps (mk_as root T 0) tf 0); try done; [apply Had|]|].
  { destruct Hpa as [H1 H2]. split; [done|]. intros va Hva Hn. by rewrite Hup H2. }
  intros [] m2 (fl2 & Hrm) P2 HP2. apply wp_bind, wpu_release; [set_solver|]. rewrite difference_diag_L. apply wp_ret.
  pose proof (added_removed _ _ _ _ _ _ _ _ Hw Had Hrm) as Hun.
  assert (given_up (k_procs s) P2) as Hg by (eapply slot_given_up; [exact Hfree| |exact HP|exact HP2]; done).
  split; [by right|]. exists fl2. split_and!; [done..|by eapply procs_mem_undone|done].
Qed.

(** The copy succeeded: the memory when [fork] returns. *)
Lemma fork_memory m T fl' :
  let child := mk_as root T (npages (p_sz x)) in
  let m' := set_mem (st64 (memmove (mem m) tf (p_trapframe x) SIZEOF_TRAPFRAME) (tf + TF_A0) 0) m in
  made (k_mem s) fl ps tf child m fl' → proc_as m child tf → (∀ va, uread m child va = uread (k_mem s) par va) →
  world m' fl' (ps ++ [child]) ∧ seen (k_mem s) ps m' ∧ calm_to (k_mem s) fl ps m' fl' (ps ++ [child]) ∧
  (∀ q, spare (k_mem s) fl ps q → q ≠ tf) ∧ spare m' fl' (ps ++ [child]) tf ∧ proc_as m' child tf ∧
  (∀ va, uread m' child va = uread (k_mem s) par va) ∧
  (∀ k, 0 ≤ k < SIZEOF_TRAPFRAME → ld8 (mem m') (tf + k) =
     if decide (TF_A0 ≤ k < TF_A0 + 8) then 0 else ld8 (mem (k_mem s)) (p_trapframe x + k)).
Proof.
  intros child m' Hmd Hpa Hrd. pose proof (pm_world _ _ _ _ Hpm) as Hw. destruct (made_facts _ _ _ _ _ _ _ Hw Hmd) as (Htf & Hsp & _ & Hwm & Hs & Hc).
  assert (∀ q, spare (k_mem s) fl ps q → q ≠ tf) as Hne.
  { intros q (_ & Hq & _) ->. apply Hq. destruct Hmd as (fl0 & -> & _). apply elem_of_cons. by left. }
  pose proof (pr_tf _ _ _ _ _ Hpp) as Hspx. assert (page_ok (p_trapframe x)) as Hptf by apply Hspx.
  destruct (trapframe_copy (mem m) tf (p_trapframe x) Htf Hptf) as [Hbytes Hout]; [by apply not_eq_sym, Hne|].
  destruct (world_write m fl' _ tf _ Hwm Hsp Hout) as (Hw' & Hs' & Hsp' & Hc' & Hu').
  split_and!; [exact Hw'| | |done|by apply Hsp'| | |].
  - eapply seen_trans; [exact Hs|]. intros i b va Hi. by apply (Hs' i), snoc_l.
  - intros z Hz. destruct (Hc z Hz) as [Hz1 E1]. destruct (Hc' z) as [Hz2 E2]; [|exact Hz1|split; [exact Hz2|by etrans]].
    intros Hin. destruct Hz as [Hz _]. apply Hz. destruct Hmd as (fl0 & -> & _). exists tf. split; [apply elem_of_cons; by left|done].
  - destruct Hpa as [H1 H2]. split; [done|]. intros va Hva Hn. etrans; [apply (Hu' (length ps)), snoc_last|by apply H2].
  - intros va. rewrite -Hrd. apply (Hs' (length ps)), snoc_last.
  - intros k Hk. rewrite Hbytes //. case_decide; [done|]. apply Hc. eapply spare_quiet; [exact Hw|exact Hspx|]. unfold span. lia.
Qed.

Lemma wp_fork_finish m T fl' P1 :
  let child := mk_as root T (npages (p_sz x)) in
  made (k_mem s) fl ps tf child m fl' → proc_as m child tf → (∀ va, uread m child va = uread (k_mem s) par va) →
  slot (k_procs s) np (used_slot y pid root tf) P1 →
  wp (upd_proc np (with_p_sz (p_sz x));;
      in_mem (kmemmove tf (p_trapframe x) SIZEOF_TRAPFRAME);;
      tf_set np TF_A0 0;;
      dup_ofile p np;;
      cwd ← (match p_cwd x with Some d => in_fs (idup d) | None => undefined end);
      upd_proc np (with_p_cwd (Some cwd));;
      upd_proc np (with_p_name (proc_name (p_name x)));;
      pid ← (y ← proc_at np; mret (p_pid y));
      release (PROC np);;
      acquire WAIT_LOCK;;
      upd_proc np (with_p_parent (Some p));;
      release WAIT_LOCK;;
      acquire (PROC np);;
      upd_proc np (with_p_state RUNNABLE);;
      release (PROC np);;
      mret pid) (fork_success s fl ps ix p par) (upto s m P1 (pid + 1) {[PROC np]}).
Proof.
  intros child Hmd Hpa Hrd HP. destruct (fork_memory m T fl' Hmd Hpa Hrd) as (Hw' & Hs' & Hc' & Hne & Hsp' & Hpa' & Hrd' & Hb').
  set (m' := set_mem _ m) in *. upd HP. apply wp_bind, wpu_mem, wp_kmemmove. apply wp_bind, wp_bind, wpu_at.
  rewrite (slot_at _ _ _ _ HP). cbn [used_slot p_trapframe with_p_sz]. apply wpu_mem, wp_store64.
  change (set_mem _ _) with m'. destruct (r_cur _ _ Hrefs _ Hcur) as [Hp _]. pose proof fork_np as Hpn.
  apply wp_bind, wp_dup_ofile; [set_solver|done|..].
  { intros fd f Hf. rewrite (slot_ne _ _ _ _ _ HP Hpn) in Hf. split; [by eapply (r_dom _ _ Hrefs p)|by eapply refs_held]. }
  { rewrite (slot_at _ _ _ _ HP). simpl. apply (r_dead _ _ Hrefs). by rewrite Hfree. }
  intros fi P2 Hfi HP2. rewrite (slot_ne _ _ _ _ _ HP Hpn) in Hfi HP2. rewrite (slot_at _ _ _ _ HP) in HP2.
  pose proof (slot_trans _ _ _ _ _ _ HP HP2) as HP3. clear HP HP2. rewrite Hcwd. apply wp_bind, wp_fs_idup; [done|]. cbv zeta. intros cpid.
  upd HP3. upd HP3. apply wp_bind, wp_bind, wpu_at, wp_ret. rewrite (slot_at _ _ _ _ HP3).
  apply wp_bind, wpu_release; [set_solver|]. rewrite difference_diag_L. apply wp_bind, wpu_acquire; [set_solver|].
  upd HP3. apply wp_bind, wpu_release; [set_solver|]. rewrite held_restore; [|set_solver].
  apply wp_bind, wpu_acquire; [set_solver|]. upd HP3. apply wp_bind, wpu_release; [set_solver|].
  rewrite held_restore; [|set_solver]. apply wp_ret. exists np, child, tf, fl'. cbv zeta.
  assert (slot (k_procs s) np (forked x y p pid (as_root child) tf) P'3) as HPf by (rewrite /forked Hcwd; exact HP3).
  split; [done|]. split; [done|]. split; [done|]. split; [exact HPf|]. split.
  { eapply (procs_mem_added s fl ps ix np _ m' child fl' P'3); try done; cbn [forked p_state p_trapframe].
    - done.
    - intros q Hq. eapply calm_spare; [apply Hpm|exact Hc'|exact Hq].
    - done.
    - split; [done|apply Hpp|done|exact Hpa'|exact Hsp']. }
  split_and!; try done. by exists d, cpid.
Qed.
End running.

(** C2: fork makes a process that sees what its parent sees, or nothing at
    all.  From any state in which every process has its memory, trapframe and
    open files in order, [fork] either returns a new pid and the table has one
    more process: runnable, child of the caller, with the caller's size, files
    and directory, whose trapframe is the caller's with 0 in a0, and which at
    every user address reads what the caller reads, while no process sees its
    memory change; or it returns -1 with all reference counts, the memory of
    all processes, the file table and the file system as they were and at
    most a free slot blanked, and it does so only when the table is full or
    fewer than six pages plus two per user page are free.  Either way the processes' memory is in order
    again. *)
Theorem fork_spec s fl ps ix p d par :
  procs_mem s fl ps ix → refs_ok none s → k_held s = ∅ → ITABLE ∉ fheld (k_fs s) →
  k_cur s = Some p → p_cwd (k_procs s p) = Some d → k_nextpid s < 2 ^ 31 - 1 → ps !! ix p = Some par →
  room (npages (p_sz (k_procs s p))) (k_mem s) →
  wp fork (λ r s', fork_success s fl ps ix p par r s' ∨ fork_failure s fl ps ix p r s') s.
Proof.
  intros Hpm Hrefs Hheld Hit Hcur Hcwd Hpid Hpar Hroom. destruct (r_cur _ _ Hrefs _ Hcur) as [Hp Hd].
  destruct (pm_used _ _ _ _ Hpm p Hp) as (par' & Hpar' & Hpp); [by intros E; rewrite E in Hd|].
  assert (par' = par) as -> by congruence. rewrite /fork /myproc. apply wp_bind, wp_bind, wp_gets. rewrite Hcur. apply wp_ret.
  apply wp_bind, (wp_allocproc s fl ps); [done|apply Hpm|done|apply Hpm| |].
  2: { intros m fl' P' n' Hun Hg Hwhy. apply wp_ret. right. split; [destruct Hwhy; [by left|right; lia]|]. exists fl'. split_and!; [done..|by eapply procs_mem_undone|done]. }
  intros np tf [root T n] m fl' P' y Hnp Hfree Hmd Hn Hroot Hpa Hsub HP Hlen. simpl in Hn, Hroot. subst n.
  assert (p ≠ np) as Hpn by by eapply fork_np.
  apply wp_bind, wpu_at. rewrite (slot_ne _ _ _ _ _ HP Hpn). apply wp_bind, wpu_at. rewrite (slot_at _ _ _ _ HP).
  cbn [used_slot p_pagetable p_trapframe]. apply wp_bind, wpu_mem.
  rewrite (pr_root _ _ _ _ _ Hpp). eapply (wp_uvmcopy_made (k_mem s) fl ps (ix p) par); try done; [apply Hpm|apply Hpp..| |].
  - intros m2 T2 fl2 child Hmd2 Hpa2 Hrd _. change (0 <? 0) with false. cbv iota. eapply wp_mono; [by eapply wp_fork_finish|].
    intros r s' H. by left.
  - intros m2 T2 fl2 child Hmd2 Hpa2 Hlen2. change (-1 <? 0) with true. cbv iota.
    eapply wp_mono; [eapply wp_fork_fail; try done; lia|]. intros r s' H. by right.
Qed.
End fork.
