(* ===== verification/ForkDemo.v ===== *)
(** * A process that forks

    A concrete kernel: on the machine of the file Demo with 24 free pages, the
    kernel's own [proc_pagetable] and [uvmcopy] make the memory of process 0, a
    copy of the one page of memory there; it has an open file and a working
    directory, and forks. *)

From stdpp Require Import functions list.
From S2P Require Import Prelude Mem Cstring Riscv Spinlock Bio Fs State Sched File Proc Frame Refs Kalloc Vm Uvm Cow Usermem ProcMem Fork Demo.

Local Open Scope Z_scope.

#[local] Existing Instance small_image.
#[local] Existing Instance demo_syms.
#[local] Existing Instance no_others.

(** ** The memory of process 0 *)

(** A trapframe, a page table and a copy of the parent's page. *)
Definition make_proc0 : M kst (Z * Z) :=
  tf ← kalloc;
  pt ← proc_pagetable tf;
  uvmcopy pA2 pt PGSIZE;;
  mret (tf, pt).

(** The state and the result of a run. *)
Definition ran {A} (c : M kst A) (s : kst) (d : A) : A * kst :=
  match c s with Ret r => r | _ => (d, s) end.

Definition proc0_run : (Z * Z) * kst := ran make_proc0 run_many (0, 0).
Definition proc0_mem : kst := proc0_run.2.
Definition proc0_tf : Z := proc0_run.1.1.
Definition proc0_pt : Z := proc0_run.1.2.

Lemma wp_ran {A} (c : M kst A) (Q : A → kst → Prop) s d : wp c Q s → Q (ran c s d).1 (ran c s d).2.
Proof. rewrite /wp /ran. by destruct (c s) as [[a m]| | |]. Qed.

Lemma make_proc0_made s fl :
  world s fl demo_ps → room 2 s → length fl = 24%nat →
  wp make_proc0 (λ r m, ∃ T fl', let a := mk_as r.2 T 1 in
    made s fl demo_ps r.1 a m fl' ∧ proc_as m a r.1 ∧ (16 ≤ length fl')%nat) s.
Proof.
  intros Hw Hroom Hl. apply wp_bind, (wp_kalloc s fl); [apply Hw|apply Hw| |by intros ->].
  intros tf fl0 -> _. simpl in Hl. destruct (kinv_head s tf fl0) as [Htf Htfn]; [apply Hw|].
  destruct (world_taken s tf fl0 demo_ps _ Hw (taken_eq_on s tf)) as (Hwt & _). rewrite taken_mem in Hwt.
  apply wp_bind, (wp_proc_pagetable _ fl0 demo_ps tf); [done|done| |intros s' fl' _ Hlen; lia].
  intros [root T n] m fl1 Hn Hr Hpa Had Hsub Hlen. simpl in Hn, Hr. subst n. cbn [as_root].
  apply wp_bind, (wp_uvmcopy_made s (tf :: fl0) demo_ps 0 demo_parent PGSIZE tf root T m fl1); try done.
  - intros p Hp. specialize (Hroom p Hp). change (npages PGSIZE) with 1%nat. lia.
  - by exists fl0.
  - intros q Hq%Hsub. split; [apply elem_of_cons; by right|by intros ->].
  - intros m2 T2 fl2 child Hmd Hpa2 Hrd Hlen2. change (npages PGSIZE) with 1%nat in Hlen2. apply wp_ret. exists T2, fl2.
    split_and!; [done|done|lia].
  - intros m2 T2 fl2 child _ _ Hlen2. change (npages PGSIZE) with 1%nat in Hlen2. lia.
Qed.

(** ** The kernel *)

Definition forker (m : kst) (tf pt : Z) : kern :=
  set_k_cur (Some 0)
    (set_k_procs (<[0 := mk_proc RUNNING None false 0 1 None (KSTACK 0) PGSIZE pt tf (mk_context 0 0 []) {[ 0 := 5 ]} (Some 1)
                          (chars "sh")]> (λ _, proc0))
       (set_k_files (<[5 := with_f_ref 1 file0]> (λ _, file0)) (set_k_nextpid 2 (set_k_mem m kern0)))).

Lemma forker_procs m tf pt q :
  (q = 0 ∧ k_procs (forker m tf pt) q = k_procs (forker m tf pt) 0) ∨ (q ≠ 0 ∧ k_procs (forker m tf pt) q = proc0).
Proof. destruct (decide (q = 0)) as [->|Hq]; [by left|right]. split; [done|]. rewrite /forker /=. by rewrite fn_lookup_insert_ne. Qed.

Lemma forker_refs m tf pt : refs_ok none (forker m tf pt).
Proof.
  assert (∀ q, p_ofile (k_procs (forker m tf pt) q) = p_ofile (k_procs one_file q) ∧
               p_state (k_procs (forker m tf pt) q) = p_state (k_procs one_file q)) as Hp.
  { intros q. rewrite /forker /one_file /= /insert /fn_insert. by case_decide. }
  destruct one_file_refs as [H1 H2 H3 H4]. split.
  - intros x. etrans; [apply H1|]. by f_equal.
  - intros p fd. destruct (Hp p) as [-> _]. apply H2.
  - intros p. destruct (Hp p) as [-> ->]. apply H3.
  - intros p. destruct (Hp p) as [_ ->]. apply H4.
Qed.

Lemma forker_mem s fl tf pt T m fl' :
  world s fl demo_ps → made s fl demo_ps tf (mk_as pt T 1) m fl' → proc_as m (mk_as pt T 1) tf →
  procs_mem (forker m tf pt) fl' (demo_ps ++ [mk_as pt T 1]) (λ _, 2%nat).
Proof.
  intros Hw Hmd Hpa. destruct (made_facts _ _ _ _ _ _ _ Hw Hmd) as (Htf & Hsp & _ & Hwm & _). split.
  - done.
  - intros q Hq. destruct (forker_procs m tf pt q) as [[-> _]|[_ ->]]; done.
  - intros q Hq. destruct (forker_procs m tf pt q) as [[-> _]|[_ ->]]; [|done]. intros _. exists (mk_as pt T 1). by split.
  - intros q r Hq Hr. destruct (forker_procs m tf pt q) as [[-> _]|[_ ->]]; [|done].
    by destruct (forker_procs m tf pt r) as [[-> _]|[_ ->]].
Qed.

Lemma fork_witness : let s := forker proc0_mem proc0_tf proc0_pt in
  ∃ fl T, let a := mk_as proc0_pt T 1 in
    wp fork (fork_success s fl (demo_ps ++ [a]) (λ _, 2%nat) 0 a) s.
Proof.
  intros s. pose proof run_many_world as Hw.
  destruct (wp_ran _ _ run_many (0, 0) (make_proc0_made run_many pages24 Hw run_many_room eq_refl)) as (T & fl & Hmd & Hpa & Hlen).
  change (ran make_proc0 run_many (0, 0)) with proc0_run in *. exists fl, T. intros a.
  pose proof (made_room _ _ _ _ _ _ _ 1 Hw Hmd run_many_room eq_refl) as Hroom.
  eapply wp_mono; [apply (fork_spec s fl (demo_ps ++ [a]) (λ _, 2%nat) 0 1 a)|].
  - exact (forker_mem _ _ _ _ _ _ _ Hw Hmd Hpa).
  - apply forker_refs.
  - reflexivity.
  - apply not_elem_of_empty.
  - reflexivity.
  - reflexivity.
  - reflexivity.
  - reflexivity.
  - exact Hroom.
  - intros r s' [H|[[H|H] _]]; [exact H|exfalso..].
    + apply (H 1); [lia|reflexivity].
    + change (length fl < 8)%nat in H. lia.
Defined.
