(* ===== verification/Trap.v ===== *)
(** * Traps and boot (kernel/trap.c, kernel/plic.c, kernel/main.c,
    virtio_disk_init of kernel/virtio_disk.c, forkret of kernel/proc.c)

    The control registers of the hart are in [k_csr].  [usertrapret] ends with
    the jump to [userret]; the model stops at that jump and gives the page
    table register value that it is called with.  The PLIC's registers are
    words of memory: the claim register presents the interrupt to serve. *)

From stdpp Require Import functions list strings.
From S2P Require Import Prelude Mem Cstring Riscv Spinlock Kalloc Vm Uvm Cow Sleeplock Bio Bcache Log Fs Virtio State Sched Dir Console Pipe File Proc Exec Sysarg Sysfile Syscall.

Local Open Scope Z_scope.

Notation UART0_IRQ := 10.
Notation VIRTIO0_IRQ := 1.
Definition PLIC_SENABLE (hart : Z) : Z := PLIC + 0x2080 + hart * 0x100.
Definition PLIC_SPRIORITY (hart : Z) : Z := PLIC + 0x201000 + hart * 0x2000.
Definition PLIC_SCLAIM (hart : Z) : Z := PLIC + 0x201004 + hart * 0x2000.

Definition store32 (a v : Z) : M kst unit := modify (λ s, set_mem (st32 (mem s) a v) s).
Definition cpuid : M kern Z := gets (λ s, s32 (c_tp (k_csr s))).

(** ** plic.c *)

Definition plicinit : M kern unit :=
  in_mem (store32 (PLIC + UART0_IRQ * 4) 1);;
  in_mem (store32 (PLIC + VIRTIO0_IRQ * 4) 1).

Definition plicinithart : M kern unit :=
  hart ← cpuid;
  in_mem (store32 (PLIC_SENABLE hart) (Z.lor (Z.shiftl 1 UART0_IRQ) (Z.shiftl 1 VIRTIO0_IRQ)));;
  in_mem (store32 (PLIC_SPRIORITY hart) 0).

Definition plic_claim : M kern Z :=
  hart ← cpuid;
  in_mem (gets (λ s, s32 (ld32 (mem s) (PLIC_SCLAIM hart)))).

Definition plic_complete (irq : Z) : M kern unit :=
  hart ← cpuid;
  in_mem (store32 (PLIC_SCLAIM hart) irq).

(** ** trap.c *)

Section trap.
Context {KI : KernelImage} {KS : KernelSyms} {OT : Others}.

Definition trapinit : M kern unit := modify (λ s, set_held (held s ∖ {[TICKSLOCK]}) s).
Definition trapinithart : M kern unit := upd_csr (with_c_stvec kernelvec_addr).

Definition clockintr : M kern unit :=
  acquire TICKSLOCK;;
  modify (λ s, set_k_ticks (u32 (k_ticks s + 1)) s);;
  wakeup ChTicks;;
  release TICKSLOCK.

Definition devintr : M kern Z :=
  c ← gets k_csr;
  let scause := c_scause c in
  if flag scause 0x8000000000000000 && (Z.land scause 0xff =? 9) then
    irq ← plic_claim;
    (if irq =? UART0_IRQ then uartintr
     else if irq =? VIRTIO0_IRQ then in_vdisk virtio_disk_intr
     else if negb (irq =? 0) then printf (chars "unexpected interrupt irq=%d" ++ [10]) [VInt irq]
     else mret tt);;
    (if negb (irq =? 0) then plic_complete irq else mret tt);;
    mret 1
  else if scause =? 0x8000000000000001 then
    id ← cpuid;
    (if id =? 0 then clockintr else mret tt);;
    upd_csr (λ c, with_c_sip (Z.land (c_sip c) (Z.lnot 2)) c);;
    mret 2
  else mret 0.

(** [userret]'s argument. *)
Definition usertrapret : M kern Z :=
  p ← myproc;
  intr_off;;
  upd_csr (with_c_stvec (TRAMPOLINE + uservec_off));;
  c ← gets k_csr;
  x ← proc_at p;
  tf_set p TF_KERNEL_SATP (c_satp c);;
  tf_set p TF_KERNEL_SP (p_kstack x + PGSIZE);;
  tf_set p TF_KERNEL_TRAP usertrap_addr;;
  tf_set p TF_KERNEL_HARTID (c_tp c);;
  upd_csr (λ c, with_c_sstatus (Z.lor (Z.land (c_sstatus c) (Z.lnot SSTATUS_SPP)) SSTATUS_SPIE) c);;
  epc ← tf_get p TF_EPC;
  upd_csr (with_c_sepc epc);;
  mret (MAKE_SATP (p_pagetable x)).

(** The message and [setkilled] of an unexpected trap. *)
Definition report (fmt : list Z) (a : va) : M kern unit :=
  p ← myproc;
  x ← proc_at p;
  printf fmt [a; VInt (p_pid x)];;
  c ← gets k_csr;
  printf (chars "            sepc=%p stval=%p" ++ [10]) [VPtr (c_sepc c); VPtr (c_stval c)];;
  setkilled p.

(** What the trap was for: the value of [which_dev]. *)
Definition usertrap_cause : M kern Z :=
  p ← myproc;
  c ← gets k_csr;
  if c_scause c =? 8 then
    dead ← killed p;
    (if dead : bool then exit (-1) else mret tt);;
    epc ← tf_get p TF_EPC;
    tf_set p TF_EPC (u64 (epc + 4));;
    intr_on;;
    syscall;;
    mret 0
  else if c_scause c =? 15 then
    x ← proc_at p;
    err ← in_mem (CowHandler (p_pagetable x) (c_stval c));
    (if err <? 0 then report (chars "usertrap(): unexpected CowHandler err %p pid=%d" ++ [10]) (VPtr (u64 err))
     else mret tt);;
    mret 0
  else
    which_dev ← devintr;
    if negb (which_dev =? 0) then mret which_dev
    else
      report (chars "usertrap(): unexpected scause %p pid=%d" ++ [10]) (VPtr (c_scause c));;
      mret 0.

Definition usertrap : M kern Z :=
  c ← gets k_csr;
  if flag (c_sstatus c) SSTATUS_SPP then panic "usertrap: not from user mode"
  else
    upd_csr (with_c_stvec kernelvec_addr);;
    p ← myproc;
    c ← gets k_csr;
    tf_set p TF_EPC (c_sepc c);;
    which_dev ← usertrap_cause;
    dead ← killed p;
    (if dead : bool then exit (-1) else mret tt);;
    (if which_dev =? 2 then yield else mret tt);;
    usertrapret.

Definition kerneltrap : M kern unit :=
  c ← gets k_csr;
  if negb (flag (c_sstatus c) SSTATUS_SPP) then panic "kerneltrap: not from supervisor mode"
  else if flag (c_sstatus c) SSTATUS_SIE then panic "kerneltrap: interrupts enabled"
  else
    which_dev ← devintr;
    if which_dev =? 0 then
      printf (chars "scause %p" ++ [10]) [VPtr (c_scause c)];;
      c' ← gets k_csr;
      printf (chars "sepc=%p stval=%p" ++ [10]) [VPtr (c_sepc c'); VPtr (c_stval c')];;
      panic "kerneltrap"
    else
      cur ← gets k_cur;
      run ← (match cur with
             | Some p => x ← proc_at p; mret (is_state RUNNING x)
             | None => mret false
             end);
      (if (which_dev =? 2) && run then yield else mret tt);;
      upd_csr (with_c_sepc (c_sepc c));;
      upd_csr (with_c_sstatus (c_sstatus c)).

(** ** proc.c: the first scheduling of a process *)

Definition forkret : M kern Z :=
  p ← myproc;
  release (PROC p);;
  first ← gets k_first;
  (if first : bool then
     in_fs (fsinit ROOTDEV);;
     modify (set_k_first false)
   else mret tt);;
  usertrapret.

(** ** virtio_disk.c: initialisation *)

Notation R_MAGIC_VALUE := 0x000.
Notation R_VERSION := 0x004.
Notation R_DEVICE_ID := 0x008.
Notation R_VENDOR_ID := 0x00c.
Notation R_DEVICE_FEATURES := 0x010.
Notation R_DRIVER_FEATURES := 0x020.
Notation R_QUEUE_SEL := 0x030.
Notation R_QUEUE_NUM_MAX := 0x034.
Notation R_QUEUE_NUM := 0x038.
Notation R_QUEUE_READY := 0x044.
Notation R_STATUS := 0x070.
Notation R_QUEUE_DESC_LOW := 0x080.
Notation R_QUEUE_DESC_HIGH := 0x084.
Notation R_DRIVER_DESC_LOW := 0x090.
Notation R_DRIVER_DESC_HIGH := 0x094.
Notation R_DEVICE_DESC_LOW := 0x0a0.
Notation R_DEVICE_DESC_HIGH := 0x0a4.

Definition readR (r : Z) : M kern Z := gets (λ s, default 0 (v_regs (k_vdisk s) !! r)).
Definition writeR (r v : Z) : M kern unit :=
  in_vdisk (modify (λ s, set_v_regs (<[r := u32 v]> (v_regs s)) s)).

(** The feature bits the driver turns off. *)
Definition feature_mask (f : Z) : Z :=
  foldl (λ f b, Z.land f (Z.lnot (Z.shiftl 1 b))) f [5; 7; 11; 12; 27; 29; 28].

(** Three zeroed pages for the rings. *)
Definition virtio_rings : M kern (Z * Z * Z) :=
  d ← in_mem kalloc;
  a ← in_mem kalloc;
  u ← in_mem kalloc;
  if (d =? 0) || (a =? 0) || (u =? 0) then panic "virtio disk kalloc"
  else
    in_mem (kmemset d 0 PGSIZE);;
    in_mem (kmemset a 0 PGSIZE);;
    in_mem (kmemset u 0 PGSIZE);;
    in_vdisk (modify (λ s, set_v_desc (λ _, mk_vdesc ANull 0 0 0) s));;
    in_vdisk (modify (λ s, set_v_ring (λ _, 0) (set_v_avail 0 s)));;
    in_vdisk (modify (λ s, set_v_uring (λ _, 0) (set_v_used 0 s)));;
    mret (d, a, u).

(** The queue: from the selection of queue 0 on. *)
Definition virtio_queue (status : Z) : M kern unit :=
  writeR R_QUEUE_SEL 0;;
  rdy ← readR R_QUEUE_READY;
  if negb (rdy =? 0) then panic "virtio disk should not be ready"
  else
    mx ← readR R_QUEUE_NUM_MAX;
    if mx =? 0 then panic "virtio disk has no queue 0"
    else if mx <? NUM then panic "virtio disk max queue too short"
    else
      r ← virtio_rings;
      let '(d, a, u) := r in
      writeR R_QUEUE_NUM NUM;;
      writeR R_QUEUE_DESC_LOW d;;
      writeR R_QUEUE_DESC_HIGH (Z.shiftr d 32);;
      writeR R_DRIVER_DESC_LOW a;;
      writeR R_DRIVER_DESC_HIGH (Z.shiftr a 32);;
      writeR R_DEVICE_DESC_LOW u;;
      writeR R_DEVICE_DESC_HIGH (Z.shiftr u 32);;
      writeR R_QUEUE_READY 1;;
      for_upto 0 NUM (λ i, in_vdisk (set_free i true));;
      writeR R_STATUS (Z.lor status 4).

Definition virtio_disk_init : M kern unit :=
  in_vdisk (modify (λ s, set_held (held s ∖ {[VDISK]}) s));;
  magic ← readR R_MAGIC_VALUE;
  version ← readR R_VERSION;
  id ← readR R_DEVICE_ID;
  vendor ← readR R_VENDOR_ID;
  if negb (magic =? 0x74726976) || negb (version =? 2) || negb (id =? 2) || negb (vendor =? 0x554d4551)
  then panic "could not find virtio disk"
  else
    writeR R_STATUS 0;;
    writeR R_STATUS 1;;
    writeR R_STATUS 3;;
    features ← readR R_DEVICE_FEATURES;
    writeR R_DRIVER_FEATURES (feature_mask features);;
    writeR R_STATUS 11;;
    status ← readR R_STATUS;
    if negb (flag status 8) then panic "virtio disk FEATURES_OK unset"
    else virtio_queue status.

(** ** main.c *)

(** [main] on hart 0, up to its call of [scheduler]. *)
Definition boot : M kern unit :=
  consoleinit;;
  printfinit;;
  printf [10] [];;
  printf (chars "xv6 kernel is booting" ++ [10]) [];;
  printf [10] [];;
  in_mem kinit;;
  kvminit;;
  kvminithart;;
  procinit;;
  trapinit;;
  trapinithart;;
  plicinit;;
  plicinithart;;
  in_fs binit;;
  in_fs iinit;;
  fileinit;;
  virtio_disk_init;;
  userinit.

(** [main] on another hart, once hart 0 has started. *)
Definition start_hart : M kern unit :=
  id ← cpuid;
  printf (chars "hart %d starting" ++ [10]) [VInt id];;
  kvminithart;;
  trapinithart;;
  plicinithart.

Definition main (n : nat) (run : Z → M kern unit) : M kern unit :=
  id ← cpuid;
  (if id =? 0 then boot else start_hart);;
  scheduler n run.
End trap.
