(* ===== verification/User.v ===== *)
(** * User programs and the system calls they make (user/user.h)

    A user program runs on the memory of its process and on the system behind
    the system calls, class [Os]: a type of system states with one function
    per call that the programs of user/ use.  A call that passes memory gets
    or gives the bytes; a C string is the list of its characters.

    A program returns, ends with [exit] or is replaced by [exec]; the monad [U]
    adds the last two to the outcomes of [M].  A memory has finitely many
    bytes that are not zero, so every string in it ends. *)

From S2P Require Import Prelude Mem Cstring Fs.

(** ** The system *)

Class Os (O : Type) := {
  os_fork : O → Z * O;
  os_wait : O → Z * O;
  os_pipe : O → option (Z * Z) * O;
  os_write : Z → list Z → O → Z * O;
  os_read : Z → Z → O → Z * list Z * O;
  os_close : Z → O → Z * O;
  os_kill : Z → O → Z * O;
  os_exec : list Z → list (list Z) → O → bool * O;
  os_open : list Z → Z → O → Z * O;
  os_mknod : list Z → Z → Z → O → Z * O;
  os_unlink : list Z → O → Z * O;
  os_fstat : Z → O → option stat * O;
  os_link : list Z → list Z → O → Z * O;
  os_mkdir : list Z → O → Z * O;
  os_chdir : list Z → O → Z * O;
  os_dup : Z → O → Z * O;
  os_getpid : O → Z * O;
  os_sbrk : Z → O → Z * O;
  os_sleep : Z → O → Z * O;
  os_uptime : O → Z * O;
}.

(** ** Programs *)

(** The memory, the variable [freep] of user/umalloc.c, and the system. *)
Record user (O : Type) := mk_user { um : gmap Z Z; u_freep : Z; u_os : O }.
Arguments mk_user {_} _ _ _.
Arguments um {_} _.
Arguments u_freep {_} _.
Arguments u_os {_} _.

Definition set_um {O} (m : gmap Z Z) (s : user O) : user O := mk_user m (u_freep s) (u_os s).
Definition set_freep {O} (p : Z) (s : user O) : user O := mk_user (um s) p (u_os s).
Definition set_os {O} (o : O) (s : user O) : user O := mk_user (um s) (u_freep s) o.

(** How a program ends. *)
Inductive uend := Exited (status : Z) | Execed (path : list Z) (argv : list (list Z)).

Definition U (O A : Type) : Type := M (user O) (A + uend).

#[global] Instance U_ret (O : Type) : MRet (U O) := λ A a, (mret (inl a) : M _ _).
#[global] Instance U_bind (O : Type) : MBind (U O) := λ A B k c,
  ((c : M _ _) ≫= λ r, match r with inl a => k a | inr e => mret (inr e) end : M _ _).

Section prog.
Context {O : Type}.

Definition ugets {A} (f : user O → A) : U O A := gets (λ s, inl (f s)).
Definition umodify (f : user O → user O) : U O unit := λ s, Ret (inl tt, f s).
Definition uundefined {A} : U O A := undefined.
Definition uout_of_fuel {A} : U O A := out_of_fuel.

Definition load8 (a : Z) : U O Z := ugets (λ s, ld8 (um s) a).
Definition store8 (a v : Z) : U O unit := umodify (λ s, set_um (st8 (um s) a v) s).
Definition load32 (a : Z) : U O Z := ugets (λ s, ld32 (um s) a).
Definition store32 (a v : Z) : U O unit := umodify (λ s, set_um (st32 (um s) a v) s).
Definition load64 (a : Z) : U O Z := ugets (λ s, ld64 (um s) a).
Definition store64 (a v : Z) : U O unit := umodify (λ s, set_um (st64 (um s) a v) s).
End prog.

(** ** Strings *)

(** A string ends within as many bytes as the memory has. *)
Definition str_fuel (m : gmap Z Z) : nat := S (size m).

Fixpoint scan (fuel : nat) (m : gmap Z Z) (p : Z) : list Z :=
  match fuel with
  | 0%nat => []
  | S fuel => if ld8 m p =? 0 then [] else ld8 m p :: scan fuel m (p + 1)
  end.

(** The string at [p]. *)
Definition cstring (m : gmap Z Z) (p : Z) : list Z := scan (str_fuel m) m p.

Fixpoint put_bytes (m : gmap Z Z) (p : Z) (l : list Z) : gmap Z Z :=
  match l with
  | [] => m
  | c :: l => put_bytes (st8 m p c) (p + 1) l
  end.

Fixpoint get_bytes (n : nat) (m : gmap Z Z) (p : Z) : list Z :=
  match n with
  | 0%nat => []
  | S n => ld8 m p :: get_bytes n m (p + 1)
  end.

(** The addresses of the bytes of a string are different bytes of memory, so
    there are no more of them than the memory has. *)
Lemma cstr_in m p l a : cstr m p l → p ≤ a < p + Z.of_nat (length l) → a ∈ dom m.
Proof.
  revert p. induction l as [|c l IH]; intros p; simpl; [lia|]. intros (Hc & Hn & Hl) Ha.
  destruct (decide (a = p)) as [->|]; [|apply (IH (p + 1)); [done|lia]].
  apply elem_of_dom. destruct (m !! p) as [x|] eqn:E; [done|]. by rewrite ld8_None // in Hc; subst c.
Qed.

Lemma cstr_size m p l : cstr m p l → (length l ≤ size m)%nat.
Proof.
  intros Hl. rewrite -size_dom -(Nat2Z.id (length l)) -(length_seqZ p).
  rewrite -(size_list_to_set (C := gset Z)); [|apply NoDup_seqZ]. apply subseteq_size. intros a.
  rewrite elem_of_list_to_set elem_of_seqZ. by apply cstr_in.
Qed.

Lemma scan_cstr fuel m p l : cstr m p l → (length l < fuel)%nat → scan fuel m p = l.
Proof.
  revert fuel p. induction l as [|c l IH]; intros [|fuel] p; simpl; try lia.
  - by intros ->.
  - intros (-> & Hc & Hl) Hf. rewrite (proj2 (Z.eqb_neq c 0) Hc). f_equal. apply IH; [done|lia].
Qed.

(** [cstring] reads the string that is there, and there always is one. *)
Lemma cstring_cstr m p l : cstr m p l → cstring m p = l.
Proof. intros Hl. apply scan_cstr; [done|]. apply cstr_size in Hl. rewrite /str_fuel. lia. Qed.

Lemma cstr_scan fuel m p : (length (scan fuel m p) < fuel)%nat → cstr m p (scan fuel m p).
Proof.
  revert p. induction fuel as [|fuel IH]; intros p; simpl; [lia|].
  destruct (Z.eqb_spec (ld8 m p) 0) as [E|E]; simpl; [done|]. intros Hl. split; [done|]. split; [done|]. apply IH. lia.
Qed.

Lemma scan_in fuel m p a : p ≤ a < p + Z.of_nat (length (scan fuel m p)) → a ∈ dom m.
Proof.
  revert p. induction fuel as [|fuel IH]; intros p; simpl; [lia|].
  destruct (Z.eqb_spec (ld8 m p) 0) as [E|E]; simpl; [lia|]. intros Ha.
  destruct (decide (a = p)) as [->|]; [|apply (IH (p + 1)); lia].
  apply elem_of_dom. destruct (m !! p) as [x|] eqn:Ep; [done|]. by rewrite ld8_None in E.
Qed.

Lemma cstr_cstring m p : cstr m p (cstring m p).
Proof.
  apply cstr_scan. rewrite {2}/str_fuel. apply Nat.lt_succ_r. rewrite /cstring.
  set l := scan _ m p. rewrite -size_dom -(Nat2Z.id (length l)) -(length_seqZ p).
  rewrite -(size_list_to_set (C := gset Z)); [|apply NoDup_seqZ]. apply subseteq_size. intros a.
  rewrite elem_of_list_to_set elem_of_seqZ. apply scan_in.
Qed.

(** ** System calls *)

Section calls.
Context {O : Type} `{Os O}.

(** A call without memory. *)
Definition call (f : O → Z * O) : U O Z := λ s, let '(r, o) := f (u_os s) in Ret (inl r, set_os o s).

(** A call with the string at [p]. *)
Definition call_str (f : list Z → O → Z * O) (p : Z) : U O Z :=
  str ← ugets (λ s, cstring (um s) p);
  call (f str).

Definition exit {A} (status : Z) : U O A := λ s, Ret (inr (Exited status), s).
Definition fork : U O Z := call os_fork.
Definition wait0 : U O Z := call os_wait.
Definition close (fd : Z) : U O Z := call (os_close fd).
Definition kill (pid : Z) : U O Z := call (os_kill pid).
Definition open (path mode : Z) : U O Z := call_str (λ l, os_open l mode) path.
Definition mknod (path major minor : Z) : U O Z := call_str (λ l, os_mknod l major minor) path.
Definition unlink (path : Z) : U O Z := call_str os_unlink path.
Definition mkdir (path : Z) : U O Z := call_str os_mkdir path.
Definition chdir (path : Z) : U O Z := call_str os_chdir path.
Definition dup (fd : Z) : U O Z := call (os_dup fd).
Definition getpid : U O Z := call os_getpid.
Definition sbrk (n : Z) : U O Z := call (os_sbrk n).
Definition sleep (n : Z) : U O Z := call (os_sleep n).
Definition uptime : U O Z := call os_uptime.

Definition link (old new : Z) : U O Z :=
  l ← ugets (λ s, cstring (um s) old);
  call_str (os_link l) new.

Definition write (fd buf n : Z) : U O Z :=
  l ← ugets (λ s, get_bytes (Z.to_nat n) (um s) buf);
  call (os_write fd l).

Definition read (fd buf n : Z) : U O Z := λ s,
  let '(r, l, o) := os_read fd n (u_os s) in
  Ret (inl r, set_os o (set_um (put_bytes (um s) buf l) s)).

(** The two descriptors go to [p[0]] and [p[1]]. *)
Definition pipe : U O (option (Z * Z)) := λ s, let '(r, o) := os_pipe (u_os s) in Ret (inl r, set_os o s).

Definition fstat (fd : Z) : U O (option stat) := λ s, let '(r, o) := os_fstat fd (u_os s) in Ret (inl r, set_os o s).

(** [exec] returns only when it fails. *)
Definition exec (path : Z) (argv : list Z) : U O Z := λ s,
  let l := cstring (um s) path in
  let args := cstring (um s) <$> argv in
  let '(ok, o) := os_exec l args (u_os s) in
  if ok : bool then Ret (inr (Execed l args), set_os o s) else Ret (inl (-1), set_os o s).
End calls.

(** ** Rules *)

Section rules.
Context {O : Type}.

Lemma uwp_bind {A B} (c : U O A) (k : A → U O B) (Q : B + uend → user O → Prop) s :
  wp c (λ r, match r with inl a => wp (k a) Q | inr e => Q (inr e) end) s → wp (c ≫= k) Q s.
Proof. intros Hc. apply wp_bind. eapply wp_mono; [exact Hc|]. by intros [a|e] s'. Qed.

Lemma uwp_ret {A} (a : A) (Q : A + uend → user O → Prop) s : Q (inl a) s → wp (mret a : U O A) Q s.
Proof. done. Qed.

Lemma uwp_gets {A} (f : user O → A) (Q : A + uend → user O → Prop) s : Q (inl (f s)) s → wp (ugets f) Q s.
Proof. done. Qed.

Lemma wp_call (f : O → Z * O) (Q : Z + uend → user O → Prop) s :
  Q (inl (f (u_os s)).1) (set_os (f (u_os s)).2 s) → wp (call f) Q s.
Proof. rewrite /call /wp. by destruct (f (u_os s)). Qed.

Lemma uwp_modify (f : user O → user O) (Q : unit + uend → user O → Prop) s : Q (inl tt) (f s) → wp (umodify f) Q s.
Proof. done. Qed.
End rules.

Ltac uwp_steps :=
  repeat first [apply uwp_bind | apply uwp_gets | apply uwp_modify | apply uwp_ret]; cbv beta iota.

(** ** Bytes in memory *)

Definition byte (c : Z) : Prop := 0 ≤ c < 256.

Lemma put_bytes_out m p l a : a < p ∨ p + Z.of_nat (length l) ≤ a → ld8 (put_bytes m p l) a = ld8 m a.
Proof.
  revert m p. induction l as [|c l IH]; intros m p; simpl; [done|]. intros Ha.
  rewrite IH; [|lia]. rewrite ld8_st8 decide_False //. lia.
Qed.

Lemma put_bytes_in m p l i c : Forall byte l → l !! i = Some c → ld8 (put_bytes m p l) (p + Z.of_nat i) = c.
Proof.
  revert m p i. induction l as [|d l IH]; intros m p i Hl; [done|]. apply Forall_cons in Hl as [Hd Hl].
  destruct i as [|i]; simpl.
  - intros [= ->]. rewrite put_bytes_out; [|lia]. rewrite Z.add_0_r ld8_st8 decide_True //. apply Z.mod_small, Hd.
  - intros Hi. rewrite -(IH (st8 m p d) (p + 1) i Hl Hi). f_equal. lia.
Qed.

Lemma get_bytes_eq n m p l : length l = n → (∀ i c, l !! i = Some c → ld8 m (p + Z.of_nat i) = c) → get_bytes n m p = l.
Proof.
  revert p l. induction n as [|n IH]; intros p [|c l] Hlen Hl; try done. simpl. f_equal.
  - rewrite -(Hl 0%nat c) // Z.add_0_r //.
  - apply IH; [by injection Hlen|]. intros i d Hi. rewrite -(Hl (S i) d Hi). f_equal. lia.
Qed.

Lemma get_put_bytes m p l : Forall byte l → get_bytes (length l) (put_bytes m p l) p = l.
Proof. intros Hl. apply get_bytes_eq; [done|]. intros i c. by apply put_bytes_in. Qed.

(** A string, byte by byte. *)
Lemma cstr_bytes m p l :
  cstr m p l ↔ (∀ i c, l !! i = Some c → ld8 m (p + Z.of_nat i) = c ∧ c ≠ 0) ∧ ld8 m (p + Z.of_nat (length l)) = 0.
Proof.
  revert p. induction l as [|c l IH]; intros p; simpl.
  - rewrite Z.add_0_r. split; [done|]. by intros [_ ?].
  - rewrite IH. split.
    + intros (Hc & Hn & Hl & He). split; [|rewrite -He; f_equal; lia]. intros [|i] d; simpl.
      * intros [= <-]. by rewrite Z.add_0_r.
      * intros Hi. destruct (Hl i d Hi) as [Hd Hd']. split; [|done]. rewrite -Hd. f_equal. lia.
    + intros [Hl He]. destruct (Hl 0%nat c eq_refl) as [Hc Hn]. rewrite Z.add_0_r in Hc. split; [done|]. split; [done|].
      split; [|rewrite -He; f_equal; lia]. intros i d Hi. destruct (Hl (S i) d Hi) as [Hd Hd']. split; [|done].
      rewrite -Hd. f_equal. lia.
Qed.

Lemma cstr_nonzero m p l : cstr m p l → 0 ∉ l.
Proof. revert p. induction l as [|c l IH]; intros p; simpl; [by intros _ ?%elem_of_nil|]. intros (_ & Hc & Hl) [<-|Hx]%elem_of_cons; [done|by eapply IH]. Qed.

Lemma cstr_byte m p l : cstr m p l → Forall byte l.
Proof.
  revert p. induction l as [|c l IH]; intros p; simpl; [constructor|]. intros (<- & _ & Hl). constructor; [apply ld8_bound|by eapply IH].
Qed.

(** The string after the first part of a string. *)
Lemma cstr_get_bytes m p l1 l2 : cstr m p (l1 ++ l2) → get_bytes (length l1) m p = l1.
Proof.
  rewrite cstr_bytes. intros [Hl _]. apply get_bytes_eq; [done|]. intros i c Hi. apply Hl. by apply lookup_app_l_Some.
Qed.

(** ** Files as streams

    Descriptor [fd] gives the bytes that [inp] has left, in pieces of any size;
    descriptor 1 takes all that is written to it. *)

Class Stream (fd : Z) (O : Type) `{Os O} := {
  inp : O → list Z;
  outp : O → list Z;
  inp_bytes : ∀ o, Forall byte (inp o);
  read_some : ∀ n o, 0 ≤ n → let '(r, l, o') := os_read fd n o in
    r = Z.of_nat (length l) ∧ r ≤ n ∧ inp o = l ++ inp o' ∧ outp o' = outp o ∧ (0 < n → inp o ≠ [] → l ≠ []);
  write_all : ∀ l o, let '(r, o') := os_write 1 l o in
    r = Z.of_nat (length l) ∧ inp o' = inp o ∧ outp o' = outp o ++ l;
}.

Section stream.
Context {O : Type} {fd : Z} `{Stream fd O}.

Lemma wp_read buf n (Q : Z + uend → user O → Prop) s :
  0 ≤ n →
  (∀ l o', inp (u_os s) = l ++ inp o' → outp o' = outp (u_os s) → Z.of_nat (length l) ≤ n → Forall byte l →
     (0 < n → inp (u_os s) ≠ [] → l ≠ []) →
     Q (inl (Z.of_nat (length l))) (set_os o' (set_um (put_bytes (um s) buf l) s))) →
  wp (read fd buf n) Q s.
Proof.
  intros Hn HQ. rewrite /wp /read. pose proof (read_some n (u_os s) Hn) as Hr.
  destruct (os_read fd n (u_os s)) as [[r l] o']. destruct Hr as (-> & Hle & Hi & Ho & Hne).
  apply HQ; try done. pose proof (inp_bytes (u_os s)) as Hb. rewrite Hi in Hb. by apply Forall_app in Hb as [? _].
Qed.

Lemma wp_write buf n l (Q : Z + uend → user O → Prop) s :
  get_bytes (Z.to_nat n) (um s) buf = l →
  (∀ o', inp o' = inp (u_os s) → outp o' = outp (u_os s) ++ l → Q (inl (Z.of_nat (length l))) (set_os o' s)) →
  wp (write 1 buf n) Q s.
Proof.
  intros Hl HQ. apply uwp_bind, uwp_gets. rewrite Hl. apply wp_call. pose proof (write_all l (u_os s)) as Hw.
  destruct (os_write 1 l (u_os s)) as [r o']. destruct Hw as (-> & Hi & Ho). by apply HQ.
Qed.
End stream.

(** A system of two tapes that reads at most three bytes at a time. *)
Record tape := mk_tape { t_in : list Z; t_out : list Z }.

#[export] Instance tape_os : Os tape := {|
  os_fork o := (-1, o);
  os_wait o := (-1, o);
  os_pipe o := (None, o);
  os_write _ l o := (Z.of_nat (length l), mk_tape (t_in o) (t_out o ++ l));
  os_read _ n o :=
    let k := Z.to_nat (Z.min n 3) in
    let l := take k (u8 <$> t_in o) in
    (Z.of_nat (length l), l, mk_tape (drop k (t_in o)) (t_out o));
  os_close _ o := (0, o);
  os_kill _ o := (-1, o);
  os_exec _ _ o := (false, o);
  os_open _ _ o := (-1, o);
  os_mknod _ _ _ o := (-1, o);
  os_unlink _ o := (-1, o);
  os_fstat _ o := (None, o);
  os_link _ _ o := (-1, o);
  os_mkdir _ o := (-1, o);
  os_chdir _ o := (-1, o);
  os_dup _ o := (-1, o);
  os_getpid o := (1, o);
  os_sbrk _ o := (-1, o);
  os_sleep _ o := (-1, o);
  os_uptime o := (0, o);
|}.

#[export, refine] Instance tape_stream (fd : Z) : Stream fd tape := {| inp o := u8 <$> t_in o; outp := t_out |}.
Proof.
  - intros o. apply Forall_fmap, Forall_true. intros c. unfold byte, u8, compose. dlia.
  - intros n [i o] Hn. cbn. rewrite fmap_drop take_drop. split_and!; try done.
    + rewrite length_take. lia.
    + destruct i as [|c i]; [done|]. intros Hpos _ E. apply (f_equal length) in E. rewrite length_take /= in E. lia.
  - done.
Defined.
