(* ===== verification/Ulib.v ===== *)
(** * The user library (user/ulib.c, user/printf.c)

    The routines that read or write memory are the C loops, byte by byte.  A
    loop over a string takes as many steps as the memory has bytes, which is
    enough for it to meet the end of the string ([cstr_cstring]). *)

From S2P Require Import Prelude Mem Cstring Fs User.

Module Ulib.
Section ulib.
Context {O : Type} `{Os O}.

(** The copy of bytes up to and with the NUL. *)
Fixpoint strcpy_loop (fuel : nat) (s t : Z) : U O unit :=
  match fuel with
  | 0%nat => uout_of_fuel
  | S fuel =>
      c ← load8 t;
      store8 s c;;
      if c =? 0 then mret tt else strcpy_loop fuel (s + 1) (t + 1)
  end.

Definition strcpy (s t : Z) : U O Z :=
  n ← ugets (λ u, str_fuel (um u));
  strcpy_loop n s t;;
  mret s.

Fixpoint strcmp_loop (fuel : nat) (m : gmap Z Z) (p q : Z) : Z :=
  match fuel with
  | 0%nat => 0
  | S fuel =>
      if negb (ld8 m p =? 0) && (ld8 m p =? ld8 m q) then strcmp_loop fuel m (p + 1) (q + 1)
      else ld8 m p - ld8 m q
  end.

Definition strcmp (p q : Z) : U O Z := ugets (λ u, strcmp_loop (str_fuel (um u)) (um u) p q).

Fixpoint strlen_loop (fuel : nat) (m : gmap Z Z) (s n : Z) : Z :=
  match fuel with
  | 0%nat => n
  | S fuel => if ld8 m (s + n) =? 0 then n else strlen_loop fuel m s (n + 1)
  end.

Definition strlen (s : Z) : U O Z := ugets (λ u, strlen_loop (str_fuel (um u)) (um u) s 0).

Fixpoint memset_loop (k : nat) (cdst c i : Z) : U O unit :=
  match k with
  | 0%nat => mret tt
  | S k => store8 (cdst + i) c;; memset_loop k cdst c (i + 1)
  end.

Definition memset (dst c n : Z) : U O Z :=
  memset_loop (Z.to_nat (u32 n)) dst c 0;;
  mret dst.

Fixpoint strchr_loop (fuel : nat) (m : gmap Z Z) (s c : Z) : Z :=
  match fuel with
  | 0%nat => 0
  | S fuel =>
      if ld8 m s =? 0 then 0
      else if ld8 m s =? c then s
      else strchr_loop fuel m (s + 1) c
  end.

Definition strchr (s c : Z) : U O Z := ugets (λ u, strchr_loop (str_fuel (um u)) (um u) s c).

(** [gets]' loop from index [i]; the byte that [read] gets is at [c]. *)
Fixpoint gets_loop (k : nat) (c buf i max : Z) : U O Z :=
  match k with
  | 0%nat => mret i
  | S k =>
      cc ← read 0 c 1;
      if cc <? 1 then mret i
      else
        x ← load8 c;
        store8 (buf + i) x;;
        if (x =? 10) || (x =? 13) then mret (i + 1) else gets_loop k c buf (i + 1) max
  end.

Definition gets (c buf max : Z) : U O Z :=
  i ← gets_loop (Z.to_nat (max - 1)) c buf 0 max;
  store8 (buf + i) 0;;
  mret buf.

(** [None] for -1. *)
Definition stat (n : Z) : U O (option stat) :=
  fd ← open n 0;
  if fd <? 0 then mret None
  else
    r ← fstat fd;
    close fd;;
    mret r.

(** A result that does not fit an [int] is undefined. *)
Fixpoint atoi_loop (fuel : nat) (m : gmap Z Z) (s n : Z) : option Z :=
  match fuel with
  | 0%nat => Some n
  | S fuel =>
      let c := ld8 m s in
      if (48 <=? c) && (c <=? 57) then
        let n' := n * 10 + c - 48 in
        if n * 10 + c <? 2 ^ 31 then atoi_loop fuel m (s + 1) n' else None
      else Some n
  end.

Definition atoi (s : Z) : U O Z :=
  r ← ugets (λ u, atoi_loop (str_fuel (um u)) (um u) s 0);
  match r with Some n => mret n | None => uundefined end.

(** [while(n-- > 0) *dst++ = *src++;] *)
Fixpoint copy_fwd (k : nat) (dst src : Z) : U O unit :=
  match k with
  | 0%nat => mret tt
  | S k =>
      c ← load8 src;
      store8 dst c;;
      copy_fwd k (dst + 1) (src + 1)
  end.

(** [while(n-- > 0) *--dst = *--src;] *)
Fixpoint copy_bwd (k : nat) (dst src : Z) : U O unit :=
  match k with
  | 0%nat => mret tt
  | S k =>
      c ← load8 (src - 1);
      store8 (dst - 1) c;;
      copy_bwd k (dst - 1) (src - 1)
  end.

Definition memmove (vdst vsrc n : Z) : U O Z :=
  (if vdst <? vsrc then copy_fwd (Z.to_nat n) vdst vsrc
   else copy_bwd (Z.to_nat n) (vdst + n) (vsrc + n));;
  mret vdst.

Fixpoint memcmp_loop (k : nat) (m : gmap Z Z) (p1 p2 : Z) : Z :=
  match k with
  | 0%nat => 0
  | S k => if negb (ld8 m p1 =? ld8 m p2) then ld8 m p1 - ld8 m p2 else memcmp_loop k m (p1 + 1) (p2 + 1)
  end.

Definition memcmp (s1 s2 n : Z) : U O Z := ugets (λ u, memcmp_loop (Z.to_nat (u32 n)) (um u) s1 s2).

Definition memcpy (dst src n : Z) : U O Z := memmove dst src (s32 n).

(** The entry of every program. *)
Definition _main (main : U O Z) : U O unit :=
  main;;
  exit 0.

(** ** What the routines do *)

Lemma strchr_loop_found fuel m p c l1 l2 :
  cstr m p (l1 ++ c :: l2) → c ∉ l1 → (length l1 < fuel)%nat → strchr_loop fuel m p c = p + Z.of_nat (length l1).
Proof.
  revert fuel p. induction l1 as [|d l1 IH]; intros [|fuel] p; simpl; try lia.
  - intros (-> & Hc & _) _ _. rewrite (proj2 (Z.eqb_neq c 0) Hc) Z.eqb_refl. lia.
  - intros (-> & Hd & Hl) [Hne Hc]%not_elem_of_cons Hf. rewrite (proj2 (Z.eqb_neq d 0) Hd) (proj2 (Z.eqb_neq d c)); [|done].
    rewrite IH; [lia|done|done|lia].
Qed.

Lemma strchr_loop_none fuel m p c l : cstr m p l → c ∉ l → strchr_loop fuel m p c = 0.
Proof.
  revert fuel p. induction l as [|d l IH]; intros [|fuel] p; simpl; try done.
  - by intros ->.
  - intros (-> & Hd & Hl) [Hne Hc]%not_elem_of_cons. rewrite (proj2 (Z.eqb_neq d 0) Hd) (proj2 (Z.eqb_neq d c)); [|done].
    by apply IH.
Qed.

(** [strchr] points to the first [c] of the string, or is null. *)
Lemma wp_strchr_found p c l1 l2 (Q : Z + uend → user O → Prop) s :
  cstr (um s) p (l1 ++ c :: l2) → c ∉ l1 → Q (inl (p + Z.of_nat (length l1))) s → wp (strchr p c) Q s.
Proof.
  intros Hl Hc HQ. apply uwp_gets. rewrite (strchr_loop_found _ _ _ _ l1 l2) //.
  apply cstr_size in Hl. rewrite length_app /= in Hl. rewrite /str_fuel. lia.
Qed.

Lemma wp_strchr_none p c l (Q : Z + uend → user O → Prop) s :
  cstr (um s) p l → c ∉ l → Q (inl 0) s → wp (strchr p c) Q s.
Proof. intros Hl Hc HQ. apply uwp_gets. by rewrite (strchr_loop_none _ _ _ _ l). Qed.

Lemma strlen_loop_spec fuel m p n l :
  cstr m (p + n) l → (length l < fuel)%nat → strlen_loop fuel m p n = n + Z.of_nat (length l).
Proof.
  revert fuel n. induction l as [|c l IH]; intros [|fuel] n; simpl; try lia.
  - intros -> _. simpl. lia.
  - intros (-> & Hc & Hl) Hf. rewrite (proj2 (Z.eqb_neq c 0) Hc) IH; [lia| |lia]. by rewrite Z.add_assoc.
Qed.

Lemma wp_strlen p l (Q : Z + uend → user O → Prop) s :
  cstr (um s) p l → Q (inl (Z.of_nat (length l))) s → wp (strlen p) Q s.
Proof.
  intros Hl HQ. apply uwp_gets. rewrite (strlen_loop_spec _ _ _ _ l); [done|by rewrite Z.add_0_r|].
  apply cstr_size in Hl. rewrite /str_fuel. lia.
Qed.

Lemma wp_copy_fwd k d p (Q : unit + uend → user O → Prop) s :
  Q (inl tt) (set_um (copy_up k (um s) d p) s) → wp (copy_fwd k d p) Q s.
Proof.
  revert d p s. induction k as [|k IH]; intros d p s HQ; simpl; [by destruct s|].
  rewrite /load8 /store8. uwp_steps. by apply IH.
Qed.

Lemma wp_copy_bwd k d p (Q : unit + uend → user O → Prop) s :
  Q (inl tt) (set_um (copy_down k (um s) d p) s) → wp (copy_bwd k d p) Q s.
Proof.
  revert d p s. induction k as [|k IH]; intros d p s HQ; simpl; [by destruct s|].
  rewrite /load8 /store8. uwp_steps. by apply IH.
Qed.

(** [memmove] moves [n] bytes, also to a place that overlaps them. *)
Lemma wp_memmove d p n (Q : Z + uend → user O → Prop) s :
  0 ≤ n →
  (∀ m, (∀ a, ld8 m a = if decide (span d n a) then ld8 (um s) (p + (a - d)) else ld8 (um s) a) → Q (inl d) (set_um m s)) →
  wp (memmove d p n) Q s.
Proof.
  intros Hn HQ. apply uwp_bind. destruct (Z.ltb_spec d p) as [Hlt|Hge].
  - apply wp_copy_fwd, uwp_ret, HQ. intros a. rewrite ld8_copy_up; [|lia]. by rewrite Z2Nat.id.
  - apply wp_copy_bwd, uwp_ret, HQ. intros a. rewrite ld8_copy_down; [|lia]. rewrite Z2Nat.id //.
    replace (d + n - n) with d by lia. case_decide; [f_equal; lia|done].
Qed.
End ulib.
End Ulib.

(** ** printf *)

Module Uprintf.

(** What [va_arg] gives; a null [char*] is address 0. *)
Inductive va := VInt (n : Z) | VLong (n : Z) | VStr (p : Z).

Section uprintf.
Context {O : Type} `{Os O}.

Definition putc (fd c : Z) : U O unit :=
  call (os_write fd [u8 c]);;
  mret tt.

Fixpoint put_all (fd : Z) (l : list Z) : U O unit :=
  match l with
  | [] => mret tt
  | c :: l => putc fd c;; put_all fd l
  end.

(** [digits[d]] *)
Definition digit (d : Z) : Z := if d <? 10 then 48 + d else 55 + d.

(** The digits of [x], least significant first. *)
Fixpoint digits_loop (fuel : nat) (x base : Z) : list Z :=
  match fuel with
  | 0%nat => []
  | S fuel => digit (x mod base) :: (if x / base =? 0 then [] else digits_loop fuel (x / base) base)
  end.

(** The characters of [xx], as [printint] writes them; the negation of the
    least [int] is undefined. *)
Definition int_chars (xx base : Z) (sgn : bool) : option (list Z) :=
  let neg := sgn && (xx <? 0) in
  if neg && (xx =? - 2 ^ 31) then None
  else
    let x := if neg then - xx else u32 xx in
    Some (rev (digits_loop 32 x base ++ (if neg then [45] else []))).

Definition printint (fd xx base : Z) (sgn : bool) : U O unit :=
  match int_chars xx base sgn with
  | Some l => put_all fd l
  | None => uundefined
  end.

Fixpoint ptr_digits (n : nat) (x : Z) : list Z :=
  match n with
  | 0%nat => []
  | S n => digit (Z.shiftr x 60) :: ptr_digits n (u64 (Z.shiftl x 4))
  end.

Definition printptr (fd x : Z) : U O unit :=
  putc fd 48;;
  putc fd 120;;
  put_all fd (ptr_digits 16 x).

Notation PERCENT := 37.

(** [(null)] *)
Definition null_str : list Z := [40; 110; 117; 108; 108; 41].

(** The character [c] after a percent sign, with the arguments left: [d], [l],
    [x], [p], [s], [c]. *)
Definition conv (fd c : Z) (ap : list va) : U O (list va) :=
  if c =? 100 then
    match ap with VInt n :: ap => printint fd n 10 true;; mret ap | _ => uundefined end
  else if c =? 108 then
    match ap with VLong n :: ap => printint fd (s32 n) 10 false;; mret ap | _ => uundefined end
  else if c =? 120 then
    match ap with VInt n :: ap => printint fd n 16 false;; mret ap | _ => uundefined end
  else if c =? 112 then
    match ap with VLong n :: ap => printptr fd n;; mret ap | _ => uundefined end
  else if c =? 115 then
    match ap with
    | VStr p :: ap =>
        l ← ugets (λ s, if p =? 0 then null_str else cstring (um s) p);
        put_all fd l;;
        mret ap
    | _ => uundefined
    end
  else if c =? 99 then
    match ap with VInt n :: ap => putc fd n;; mret ap | _ => uundefined end
  else if c =? PERCENT then putc fd c;; mret ap
  else putc fd PERCENT;; putc fd c;; mret ap.

(** [pct]: the last character was a percent sign, [state == '%']. *)
Fixpoint vprintf_loop (fd : Z) (fmt : list Z) (ap : list va) (pct : bool) : U O unit :=
  match fmt with
  | [] => mret tt
  | c :: fmt =>
      if negb pct then
        if c =? PERCENT then vprintf_loop fd fmt ap true
        else putc fd c;; vprintf_loop fd fmt ap false
      else
        ap ← conv fd c ap;
        vprintf_loop fd fmt ap false
  end.

Definition vprintf (fd : Z) (fmt : list Z) (ap : list va) : U O unit := vprintf_loop fd fmt ap false.
Definition fprintf (fd : Z) (fmt : list Z) (ap : list va) : U O unit := vprintf fd fmt ap.
Definition printf (fmt : list Z) (ap : list va) : U O unit := vprintf 1 fmt ap.

(** ** Output that does not go wrong *)

(** The arguments are what the format asks for, and no [%d] gets the least
    [int]. *)
Fixpoint fmt_ok (fmt : list Z) (ap : list va) (pct : bool) : bool :=
  match fmt with
  | [] => true
  | c :: fmt =>
      if negb pct then fmt_ok fmt ap (c =? PERCENT)
      else if c =? 100 then match ap with VInt n :: ap => negb (n =? - 2 ^ 31) && fmt_ok fmt ap false | _ => false end
      else if c =? 108 then match ap with VLong _ :: ap => fmt_ok fmt ap false | _ => false end
      else if c =? 120 then match ap with VInt _ :: ap => fmt_ok fmt ap false | _ => false end
      else if c =? 112 then match ap with VLong _ :: ap => fmt_ok fmt ap false | _ => false end
      else if c =? 115 then match ap with VStr _ :: ap => fmt_ok fmt ap false | _ => false end
      else if c =? 99 then match ap with VInt _ :: ap => fmt_ok fmt ap false | _ => false end
      else fmt_ok fmt ap false
  end.

(** The text of the output. *)
Fixpoint fmt_text (m : gmap Z Z) (fmt : list Z) (ap : list va) (pct : bool) : list Z :=
  match fmt with
  | [] => []
  | c :: fmt =>
      if negb pct then (if c =? PERCENT then [] else [c]) ++ fmt_text m fmt ap (c =? PERCENT)
      else match ap with
      | VInt n :: ap' =>
          if c =? 100 then default [] (int_chars n 10 true) ++ fmt_text m fmt ap' false
          else if c =? 120 then default [] (int_chars n 16 false) ++ fmt_text m fmt ap' false
          else if c =? 99 then n :: fmt_text m fmt ap' false
          else (if c =? PERCENT then [c] else [PERCENT; c]) ++ fmt_text m fmt ap false
      | VLong n :: ap' =>
          if c =? 108 then default [] (int_chars (s32 n) 10 false) ++ fmt_text m fmt ap' false
          else if c =? 112 then [48; 120] ++ ptr_digits 16 n ++ fmt_text m fmt ap' false
          else (if c =? PERCENT then [c] else [PERCENT; c]) ++ fmt_text m fmt ap false
      | VStr p :: ap' =>
          if c =? 115 then (if p =? 0 then null_str else cstring m p) ++ fmt_text m fmt ap' false
          else (if c =? PERCENT then [c] else [PERCENT; c]) ++ fmt_text m fmt ap false
      | [] => (if c =? PERCENT then [c] else [PERCENT; c]) ++ fmt_text m fmt ap false
      end
  end.

(** The system after the characters [l] have been written, one at a time. *)
Definition wrote (fd : Z) (l : list Z) (o : O) : O := foldl (λ o c, (os_write fd [u8 c] o).2) o l.

(** A program that only writes [l], with memory [m]. *)
Definition writes {A} (m : gmap Z Z) (fd : Z) (c : U O A) (l : list Z) (a : A) : Prop :=
  ∀ s, um s = m → c s = Ret (inl a, set_os (wrote fd l (u_os s)) s).

Lemma writes_ret {A} m fd (a : A) : writes m fd (mret a) [] a.
Proof. intros [] <-. done. Qed.

Lemma writes_bind {A B} m fd (c : U O A) (k : A → U O B) l l' a b :
  writes m fd c l a → writes m fd (k a) l' b → writes m fd (c ≫= k) (l ++ l') b.
Proof.
  intros Hc Hk s Hs. rewrite /mbind /U_bind /mbind /M_bind (Hc s Hs).
  rewrite (Hk (set_os (wrote fd l (u_os s)) s) Hs). by rewrite /wrote foldl_app.
Qed.

Lemma writes_putc m fd c : writes m fd (putc fd c) [c] tt.
Proof. intros s _. rewrite /putc /mbind /U_bind /mbind /M_bind /call /wrote /=. by destruct (os_write fd [u8 c] (u_os s)). Qed.

Lemma writes_put_all m fd l : writes m fd (put_all fd l) l tt.
Proof. induction l as [|c l IH]; [apply writes_ret|]. apply (writes_bind _ _ _ _ [c] l tt); [apply writes_putc|done]. Qed.

Lemma writes_then {A} m fd (c : U O unit) l (a : A) : writes m fd c l tt → writes m fd (c;; mret a) l a.
Proof. intros Hc. rewrite -(app_nil_r l). eapply writes_bind; [exact Hc|apply writes_ret]. Qed.

Lemma writes_printint m fd n base sgn :
  (sgn = true → n ≠ - 2 ^ 31) → writes m fd (printint fd n base sgn) (default [] (int_chars n base sgn)) tt.
Proof.
  intros Hn. rewrite /printint /int_chars. destruct sgn; cbn [andb]; [|apply writes_put_all].
  rewrite (proj2 (Z.eqb_neq n (- 2 ^ 31)) (Hn eq_refl)) andb_false_r. apply writes_put_all.
Qed.

Lemma writes_str m fd p (ap : list va) :
  writes m fd (l ← ugets (λ s : user O, if p =? 0 then null_str else cstring (um s) p); put_all fd l;; mret ap)
    (if p =? 0 then null_str else cstring m p) ap.
Proof.
  intros s Hs. apply (writes_then m fd (put_all fd (if p =? 0 then null_str else cstring (um s) p)) _ ap); [|done].
  rewrite -Hs. apply writes_put_all.
Qed.

Lemma writes_printptr m fd n : writes m fd (printptr fd n) ([48; 120] ++ ptr_digits 16 n) tt.
Proof.
  apply (writes_bind _ _ _ _ [48] _ tt); [apply writes_putc|].
  apply (writes_bind _ _ _ _ [120] _ tt); [apply writes_putc|apply writes_put_all].
Qed.

Lemma writes_conv m fd c fmt ap :
  fmt_ok (c :: fmt) ap true = true →
  ∃ l ap', writes m fd (conv fd c ap) l ap' ∧ fmt_ok fmt ap' false = true ∧
    fmt_text m (c :: fmt) ap true = l ++ fmt_text m fmt ap' false.
Proof.
  cbn [fmt_ok fmt_text negb]. rewrite /conv.
  destruct (Z.eqb_spec c 100) as [->|N1].
  { destruct ap as [|[n|n|n] ap]; try done. intros [Hn Hok]%andb_true_iff. eexists _, ap. split; [|done].
    apply writes_then, writes_printint. intros _ ->. done. }
  destruct (Z.eqb_spec c 108) as [->|N2].
  { destruct ap as [|[n|n|n] ap]; try done. intros Hok. eexists _, ap. split; [by apply writes_then, writes_printint|done]. }
  destruct (Z.eqb_spec c 120) as [->|N3].
  { destruct ap as [|[n|n|n] ap]; try done. intros Hok. eexists _, ap. split; [by apply writes_then, writes_printint|done]. }
  destruct (Z.eqb_spec c 112) as [->|N4].
  { destruct ap as [|[n|n|n] ap]; try done. intros Hok. eexists _, ap. split; [by apply writes_then, writes_printptr|].
    split; [done|]. by rewrite -app_assoc. }
  destruct (Z.eqb_spec c 115) as [->|N5].
  { destruct ap as [|[n|n|n] ap]; try done. intros Hok. eexists _, ap. split; [apply writes_str|done]. }
  destruct (Z.eqb_spec c 99) as [->|N6].
  { destruct ap as [|[n|n|n] ap]; try done. intros Hok. exists [n], ap. split; [apply writes_then, writes_putc|done]. }
  intros Hok. exists (if c =? PERCENT then [c] else [PERCENT; c]), ap. split; [|split; [done|by destruct ap as [|[]]]].
  destruct (c =? PERCENT); [apply writes_then, writes_putc|].
  apply (writes_bind _ _ _ _ [PERCENT] _ tt); [apply writes_putc|apply writes_then, writes_putc].
Qed.

Lemma writes_vprintf_loop m fd fmt ap pct :
  fmt_ok fmt ap pct = true → writes m fd (vprintf_loop fd fmt ap pct) (fmt_text m fmt ap pct) tt.
Proof.
  revert ap pct. induction fmt as [|c fmt IH]; intros ap pct Hok; [apply writes_ret|]. cbn [vprintf_loop].
  destruct pct; cbn [negb].
  - destruct (writes_conv m fd c fmt ap Hok) as (l & ap' & Hw & Hok' & ->). eapply writes_bind; [exact Hw|by apply IH].
  - cbn [fmt_ok fmt_text negb] in *. destruct (c =? PERCENT); [by apply IH|]. eapply writes_bind; [apply writes_putc|by apply IH].
Qed.

Lemma wp_writes {A} (c : U O A) fd l a (Q : A + uend → user O → Prop) s :
  writes (um s) fd c l a → Q (inl a) (set_os (wrote fd l (u_os s)) s) → wp c Q s.
Proof. intros Hc HQ. by rewrite /wp (Hc s eq_refl). Qed.

(** What [fprintf] does: it writes the text. *)
Lemma wp_fprintf fd fmt ap (Q : unit + uend → user O → Prop) s :
  fmt_ok fmt ap false = true → Q (inl tt) (set_os (wrote fd (fmt_text (um s) fmt ap false) (u_os s)) s) →
  wp (fprintf fd fmt ap) Q s.
Proof. intros Hf. by apply wp_writes, writes_vprintf_loop. Qed.
End uprintf.

(** ** Decimal numbers *)

(** The number that a text of digits writes. *)
Definition value (l : list Z) : Z := foldl (λ v c, v * 10 + (c - 48)) 0 l.

(** [l] writes [n], in decimal and without leading zeros. *)
Definition decimal (n : Z) (l : list Z) : Prop :=
  value l = n ∧ Forall (λ c, 48 ≤ c ≤ 57) l ∧ l ≠ [] ∧ (head l = Some 48 → l = [48]).

Lemma digits_decimal fuel x :
  0 ≤ x < 10 ^ Z.of_nat fuel → (0 < fuel)%nat → decimal x (rev (digits_loop fuel x 10)) ∧ (0 < x → head (rev (digits_loop fuel x 10)) ≠ Some 48).
Proof.
  revert x. induction fuel as [|fuel IH]; intros x Hx Hf; [lia|]. cbn [digits_loop].
  assert (digit (x mod 10) = 48 + x mod 10 ∧ 0 ≤ x mod 10 < 10) as [-> Hd].
  { assert (0 ≤ x mod 10 < 10) as Hm by (apply Z.mod_pos_bound; lia). split; [|done].
    rewrite /digit (proj2 (Z.ltb_lt _ 10)); [done|apply Hm]. }
  rewrite Nat2Z.inj_succ Z.pow_succ_r in Hx; [|lia]. destruct (Z.eqb_spec (x / 10) 0) as [E|E].
  - assert (x mod 10 = x) as Hm by (apply Z.mod_small; dlia). rewrite Hm in Hd |- *. cbn. split.
    + split_and!; [rewrite /value /=; lia|repeat constructor; lia|done|by intros [= ->]].
    + intros Hp [= He]. lia.
  - assert (0 ≤ x / 10 < 10 ^ Z.of_nat fuel) as Hq by dlia. assert (0 < fuel)%nat as Hf' by (destruct fuel; [simpl in Hq; lia|lia]).
    destruct (IH _ Hq Hf') as ((Hv & Hall & Hne & Hz) & Hh). cbn [rev]. set l := rev (digits_loop fuel (x / 10) 10) in Hv Hall Hne Hz Hh |- *.
    assert (head (l ++ [48 + x mod 10]) = head l) as Ehd by by destruct l. rewrite /decimal Ehd.
    assert (head l ≠ Some 48) as Hn48 by (apply Hh; lia). split; [|done]. split_and!.
    + rewrite /value foldl_app -/(value l) Hv /=. dlia.
    + apply Forall_app. split; [done|]. repeat constructor; lia.
    + by destruct l.
    + done.
Qed.

(** [printf] writes a number as decimal. *)
Lemma int_chars_decimal n : 0 ≤ n < 2 ^ 31 → ∃ l, int_chars n 10 true = Some l ∧ decimal n l.
Proof.
  intros Hn. exists (rev (digits_loop 32 n 10)). rewrite /int_chars. rewrite (proj2 (Z.ltb_ge n 0)); [|lia].
  cbn [andb]. rewrite u32_id; [|lia]. rewrite app_nil_r. split; [done|]. apply digits_decimal; lia.
Qed.
End Uprintf.
