(* ===== verification/Umalloc.v ===== *)
(** * The user memory allocator (user/umalloc.c)

    Kernighan and Ritchie's allocator: free blocks on a circular list sorted
    by address, first fit from where the last search ended, and coalescing of
    neighbours.  A [Header] is 16 bytes, [s.ptr] at offset 0 and [s.size], in
    units of a header, at offset 8; [base] is the address of the static header
    the list starts with.  [fuel] bounds the walks along the list.

    [heap] relates memory to the list of free blocks and to the blocks handed
    out; [malloc_free_safe] shows that any program that frees only what it was
    given, once, keeps it, and [malloc_huge] that a request close to 4 GB is
    not served. *)

From S2P Require Import Prelude Mem Cstring Fs User.

Notation SIZEOF_HEADER := 16.

Module Umalloc.
Section umalloc.
Context {O : Type} `{Os O} (base : Z).

Definition ptr_of (p : Z) : U O Z := load64 p.
Definition set_ptr (p q : Z) : U O unit := store64 p q.
Definition size_of (p : Z) : U O Z := load32 (p + 8).
Definition set_size (p n : Z) : U O unit := store32 (p + 8) n.

(** The search of [free] for the neighbours of [bp]. *)
Fixpoint free_loop (fuel : nat) (bp p : Z) : U O Z :=
  match fuel with
  | 0%nat => uout_of_fuel
  | S fuel =>
      nxt ← ptr_of p;
      if (p <? bp) && (bp <? nxt) then mret p
      else if (nxt <=? p) && ((p <? bp) || (bp <? nxt)) then mret p
      else free_loop fuel bp nxt
  end.

(** [bp] joins the block after it, or points to it. *)
Definition join_next (bp p : Z) : U O unit :=
  nxt ← ptr_of p;
  bs ← size_of bp;
  if bp + SIZEOF_HEADER * bs =? nxt then
    ns ← size_of nxt;
    set_size bp (u32 (bs + ns));;
    nn ← ptr_of nxt;
    set_ptr bp nn
  else set_ptr bp nxt.

(** [p] joins [bp] after it, or points to it. *)
Definition join_prev (bp p : Z) : U O unit :=
  ps ← size_of p;
  if p + SIZEOF_HEADER * ps =? bp then
    bs ← size_of bp;
    set_size p (u32 (ps + bs));;
    bn ← ptr_of bp;
    set_ptr p bn
  else set_ptr p bp.

Definition free (fuel : nat) (ap : Z) : U O unit :=
  let bp := ap - SIZEOF_HEADER in
  f ← ugets u_freep;
  p ← free_loop fuel bp f;
  join_next bp p;;
  join_prev bp p;;
  umodify (set_freep p).

(** 0 when the system has no more memory. *)
Definition morecore (fuel : nat) (nu : Z) : U O Z :=
  let nu := if nu <? 4096 then 4096 else nu in
  p ← sbrk (s32 (nu * SIZEOF_HEADER));
  if p =? -1 then mret 0
  else
    set_size p nu;;
    free fuel (p + SIZEOF_HEADER);;
    ugets u_freep.

(** The block [p], found after [prevp], is large enough. *)
Definition take_block (nunits prevp p sz : Z) : U O Z :=
  r ← (if sz =? nunits then
         nxt ← ptr_of p;
         set_ptr prevp nxt;;
         mret p
       else
         set_size p (sz - nunits);;
         let p := p + SIZEOF_HEADER * (sz - nunits) in
         set_size p nunits;;
         mret p);
  umodify (set_freep prevp);;
  mret (r + SIZEOF_HEADER).

Fixpoint malloc_loop (fuel : nat) (nunits prevp p : Z) : U O Z :=
  match fuel with
  | 0%nat => uout_of_fuel
  | S fuel' =>
      sz ← size_of p;
      if nunits <=? sz then take_block nunits prevp p sz
      else
        f ← ugets u_freep;
        p ← (if p =? f then morecore fuel nunits else mret p);
        if p =? 0 then mret 0
        else
          nxt ← ptr_of p;
          malloc_loop fuel' nunits p nxt
  end.

Definition units (nbytes : Z) : Z := (nbytes + SIZEOF_HEADER - 1) / SIZEOF_HEADER + 1.

Definition malloc (fuel : nat) (nbytes : Z) : U O Z :=
  let nunits := units nbytes in
  f ← ugets u_freep;
  prevp ← (if f =? 0 then
             set_ptr base base;;
             umodify (set_freep base);;
             set_size base 0;;
             mret base
           else mret f);
  p ← ptr_of prevp;
  malloc_loop fuel nunits prevp p.
End umalloc.

(** ** The free list *)

(** Following [s.ptr] from [p] meets [l]. *)
Fixpoint upath (m : gmap Z Z) (p : Z) (l : list Z) : Prop :=
  match l with
  | [] => True
  | q :: l => ld64 m p = q ∧ upath m q l
  end.

(** The nodes whose pointers a path reads. *)
Fixpoint sources (p : Z) (l : list Z) : list Z :=
  match l with
  | [] => []
  | q :: l => p :: sources q l
  end.

(** Free blocks above [lo], in order, never next to each other. *)
Fixpoint sorted (lo : Z) (l : list (Z * Z)) : Prop :=
  match l with
  | [] => True
  | (a, n) :: l => lo < a ∧ 0 < n ∧ sorted (a + SIZEOF_HEADER * n) l
  end.

(** Where a path ends, and where a list of blocks does. *)
Fixpoint endp (p : Z) (l : list Z) : Z :=
  match l with
  | [] => p
  | q :: l => endp q l
  end.

Fixpoint top (lo : Z) (l : list (Z * Z)) : Z :=
  match l with
  | [] => lo
  | (a, n) :: l => top (a + SIZEOF_HEADER * n) l
  end.

Lemma upath_app m p l1 l2 : upath m p (l1 ++ l2) ↔ upath m p l1 ∧ upath m (endp p l1) l2.
Proof. revert p. induction l1 as [|q l1 IH]; intros p; simpl; [tauto|]. rewrite IH. tauto. Qed.

Lemma endp_app p l1 l2 : endp p (l1 ++ l2) = endp (endp p l1) l2.
Proof. revert p. induction l1 as [|q l1 IH]; intros p; simpl; [done|]. apply IH. Qed.

Lemma endp_in p l : endp p l ∈ p :: l.
Proof. revert p. induction l as [|q l IH]; intros p; simpl; [left|]. right. apply IH. Qed.

Lemma sources_in p l q : q ∈ sources p l → q ∈ p :: l.
Proof.
  revert p. induction l as [|x l IH]; intros p; simpl; [by intros ?%elem_of_nil|].
  intros [->|Hq]%elem_of_cons; [left|]. right. by apply IH.
Qed.

Lemma sources_snoc p l e q : q ∈ sources p (l ++ [e]) → q ∈ p :: l.
Proof.
  revert p. induction l as [|x l IH]; intros p; simpl.
  - intros [->|?%elem_of_nil]%elem_of_cons; [left|done].
  - intros [->|Hq]%elem_of_cons; [left|]. right. by apply IH.
Qed.

Lemma in_sources_snoc p l e q : q ∈ p :: l → q ∈ sources p (l ++ [e]).
Proof.
  revert p. induction l as [|x l IH]; intros p; simpl.
  - intros [->|?%elem_of_nil]%elem_of_cons; [left|done].
  - intros [->|Hq]%elem_of_cons; [left|]. right. by apply IH.
Qed.

Lemma path_target m p l q : upath m p l → q ∈ sources p l → ld64 m q ∈ l.
Proof.
  revert p. induction l as [|x l IH]; intros p; simpl; [by intros _ ?%elem_of_nil|].
  intros [<- Hl] [->|Hq]%elem_of_cons; [left|]. right. by apply (IH (ld64 m p)).
Qed.

(** On a upath without repetition a node has one predecessor. *)
Lemma path_inj m p l q1 q2 :
  upath m p l → NoDup l → q1 ∈ sources p l → q2 ∈ sources p l → ld64 m q1 = ld64 m q2 → q1 = q2.
Proof.
  revert p. induction l as [|x l IH]; intros p; simpl; [by intros _ _ ?%elem_of_nil|].
  intros [<- Hl] [Hx Hnd]%NoDup_cons [->|H1]%elem_of_cons [->|H2]%elem_of_cons E; [done|..].
  - destruct Hx. rewrite E. by eapply path_target.
  - destruct Hx. rewrite -E. by eapply path_target.
  - by eapply IH.
Qed.

Lemma endp_not_source p l : NoDup (p :: l) → endp p l ∉ sources p l.
Proof.
  revert p. induction l as [|x l IH]; intros p; simpl; [by intros _ ?%elem_of_nil|].
  intros [Hp Hnd]%NoDup_cons [E|Hq]%elem_of_cons; [|by apply (IH x)].
  apply Hp. rewrite -E. apply endp_in.
Qed.

Lemma upath_ext m m' p l : (∀ q, q ∈ sources p l → ld64 m' q = ld64 m q) → upath m p l → upath m' p l.
Proof.
  revert p. induction l as [|x l IH]; intros p; simpl; [done|]. intros Hs [Hx Hl]. split.
  - rewrite Hs //. left.
  - apply IH; [|done]. intros q Hq. apply Hs. by right.
Qed.

Lemma sorted_app lo l1 l2 : sorted lo (l1 ++ l2) ↔ sorted lo l1 ∧ sorted (top lo l1) l2.
Proof. revert lo. induction l1 as [|[a n] l1 IH]; intros lo; simpl; [tauto|]. rewrite IH. tauto. Qed.

Lemma sorted_mono lo lo' l : lo' ≤ lo → sorted lo l → sorted lo' l.
Proof. destruct l as [|[a n] l]; simpl; [done|]. intuition lia. Qed.

Lemma sorted_above lo l a n : sorted lo l → (a, n) ∈ l → lo < a ∧ 0 < n.
Proof.
  revert lo. induction l as [|[b k] l IH]; intros lo; simpl; [by intros _ ?%elem_of_nil|].
  intros (Hb & Hk & Hl) [[= -> ->]|Hin]%elem_of_cons; [done|]. destruct (IH _ Hl Hin). split; [lia|done].
Qed.

Lemma top_above lo l : sorted lo l → lo ≤ top lo l.
Proof.
  revert lo. induction l as [|[a n] l IH]; intros lo; simpl; [lia|]. intros (Ha & Hn & Hl). specialize (IH _ Hl). lia.
Qed.

Lemma top_ends lo l a n : sorted lo l → (a, n) ∈ l → a + SIZEOF_HEADER * n ≤ top lo l.
Proof.
  revert lo. induction l as [|[b k] l IH]; intros lo; simpl; [by intros _ ?%elem_of_nil|].
  intros (Hb & Hk & Hl) [[= -> ->]|Hin]%elem_of_cons; [by apply top_above|]. by apply IH.
Qed.

Lemma top_app lo l1 l2 : top lo (l1 ++ l2) = top (top lo l1) l2.
Proof. revert lo. induction l1 as [|[a n] l1 IH]; intros lo; simpl; [done|]. apply IH. Qed.

Lemma elem_of_fst (l : list (Z * Z)) a : a ∈ l.*1 ↔ ∃ n, (a, n) ∈ l.
Proof.
  rewrite list_elem_of_fmap. split; [intros ([b n] & -> & Hin); eauto|]. intros [n Hn]. by exists (a, n).
Qed.

Lemma sorted_nodup lo l : sorted lo l → NoDup l.*1.
Proof.
  revert lo. induction l as [|[a n] l IH]; intros lo; simpl; [constructor|]. intros (Ha & Hn & Hl).
  constructor; [|by eapply IH]. intros [k Hk]%elem_of_fst. eapply sorted_above in Hl as [? _]; [|done]. lia.
Qed.

(** ** The search of [free] *)

Definition stops (bp x y : Z) : bool := (x <? bp) && (bp <? y) || (y <=? x) && ((x <? bp) || (bp <? y)).

Fixpoint passes (bp x : Z) (l : list Z) : Prop :=
  match l with
  | [] => True
  | y :: l => stops bp x y = false ∧ passes bp y l
  end.

Lemma passes_app bp x l1 l2 : passes bp x (l1 ++ l2) ↔ passes bp x l1 ∧ passes bp (endp x l1) l2.
Proof. revert x. induction l1 as [|y l1 IH]; intros x; simpl; [tauto|]. rewrite IH. tauto. Qed.

Lemma passes_below bp lo x l :
  sorted lo l → x ≤ lo → (∀ a n, (a, n) ∈ l → a < bp) → passes bp x l.*1.
Proof.
  revert lo x. induction l as [|[a n] l IH]; intros lo x; simpl; [done|]. intros (Ha & Hn & Hl) Hx Hb.
  split; [|apply (IH (a + 16 * n)); [done|lia|intros; eapply Hb; by right]].
  assert (a < bp) by (eapply Hb; left). unfold stops. lia.
Qed.

Lemma passes_above bp lo x l : sorted lo l → x ≤ lo → bp ≤ x → passes bp x l.*1.
Proof.
  revert lo x. induction l as [|[a n] l IH]; intros lo x; simpl; [done|]. intros (Ha & Hn & Hl) Hx Hb.
  split; [|apply (IH (a + 16 * n)); [done|lia|lia]]. unfold stops. lia.
Qed.

Section runs.
Context {O : Type} `{Os O} (base : Z).

Lemma wp_free_loop fuel bp q l (Q : Z + uend → user O → Prop) s :
  upath (um s) q l → passes bp q l → stops bp (endp q l) (ld64 (um s) (endp q l)) = true →
  (length l < fuel)%nat → Q (inl (endp q l)) s → wp (free_loop fuel bp q) Q s.
Proof.
  revert fuel q. induction l as [|y l IH]; intros [|fuel] q; simpl; try lia.
  - intros _ _ Hst _ HQ. rewrite /ptr_of /load64. uwp_steps. rewrite /stops in Hst.
    destruct ((q <? bp) && (bp <? _)); [by apply uwp_ret|]. simpl in Hst. rewrite Hst. by apply uwp_ret.
  - intros [Hy Hp] [Hst Hps] He Hf HQ. rewrite /ptr_of /load64. uwp_steps. rewrite Hy.
    apply orb_false_iff in Hst as [-> ->]. apply IH; [done..|lia|done].
Qed.

(** ** Memory around a header *)

(** Only the header at [a] may differ. *)
Definition touched (a : Z) (m m' : gmap Z Z) : Prop := mem_eq_on (λ x, ¬ span a SIZEOF_HEADER x) m m'.

Lemma touched_st64 m a v : touched a m (st64 m a v).
Proof. apply mem_eq_on_st64. intros b Hb. unfold span in *. lia. Qed.
Lemma touched_st32 m a v : touched a m (st32 m (a + 8) v).
Proof. apply (mem_eq_on_stle 4). intros b Hb. unfold span in *. lia. Qed.
Lemma touched_trans a m m1 m2 : touched a m m1 → touched a m1 m2 → touched a m m2.
Proof. intros H1 H2 x Hx. by rewrite (H2 x Hx) (H1 x Hx). Qed.

Lemma touched_ptr a m m' q : touched a m m' → q + 16 ≤ a ∨ a + 16 ≤ q → ld64 m' q = ld64 m q.
Proof. intros Ht Hq. apply ld64_ext. intros x Hx. apply Ht. unfold span in *. lia. Qed.
Lemma touched_size a m m' q : touched a m m' → q + 16 ≤ a ∨ a + 16 ≤ q → ld32 m' (q + 8) = ld32 m (q + 8).
Proof. intros Ht Hq. apply (ldle_ext 4). intros x Hx. apply Ht. unfold span in *. lia. Qed.

Lemma ld64_st32 m a v : ld64 (st32 m (a + 8) v) a = ld64 m a.
Proof. apply (ldle_stle_ne 8 4). lia. Qed.
Lemma ld32_st64 m a v : ld32 (st64 m a v) (a + 8) = ld32 m (a + 8).
Proof. apply (ldle_stle_ne 4 8). lia. Qed.

(** ** The free list in memory *)

Definition sizes (m : gmap Z Z) (L : list (Z * Z)) : Prop := ∀ a n, (a, n) ∈ L → ld32 m (a + 8) = n.

Record flist (m : gmap Z Z) (L : list (Z * Z)) : Prop := {
  fl_path : upath m base (L.*1 ++ [base]);
  fl_base : ld32 m (base + 8) = 0;
  fl_sizes : sizes m L;
  fl_sorted : sorted (base + 15) L;
}.

(** Two blocks do not overlap. *)
Definition disjoint (a n b k : Z) : Prop := a + SIZEOF_HEADER * n ≤ b ∨ b + SIZEOF_HEADER * k ≤ a.

Lemma sizes_touched a n m m' L :
  touched a m m' → 0 < n → (∀ b k, (b, k) ∈ L → 0 < k ∧ disjoint a n b k) → sizes m L → sizes m' L.
Proof.
  intros Ht Hn Hd Hs b k Hin. destruct (Hd b k Hin) as [Hk Hdj]. rewrite (touched_size a m) //; [by apply Hs|].
  unfold disjoint in Hdj. lia.
Qed.

(** The head of a list of blocks that ends at [base]. *)
Definition headp (L : list (Z * Z)) : Z := match L with [] => base | (b, _) :: _ => b end.

(** A block [a] that is made to point at the list [L] continues the upath. *)
Lemma path_relink m m' p a L lo :
  upath m p (L.*1 ++ [base]) → sorted lo L → touched a m m' → ld64 m' a = headp L →
  (∀ b k, (b, k) ∈ L → b + 16 ≤ a ∨ a + 16 ≤ b) → upath m' a (L.*1 ++ [base]).
Proof.
  intros Hp Hs Ht Ha Hd. destruct L as [|[b k] L]; simpl in *; [done|]. split; [done|].
  eapply upath_ext; [|apply Hp]. intros q Hq. eapply touched_ptr; [done|].
  assert (q ∈ b :: L.*1) as Hin by by eapply sources_snoc.
  apply elem_of_cons in Hin as [->|[k' Hin]%elem_of_fst]; [apply (Hd b k); left|apply (Hd q k'); by right].
Qed.

Lemma path_head m p L : upath m p (L.*1 ++ [base]) → ld64 m p = headp L.
Proof. by destruct L as [|[b k] L]; intros [? _]. Qed.

Lemma u64_ld64 m a : u64 (ld64 m a) = ld64 m a.
Proof. apply Z.mod_small, ld64_bound. Qed.

Lemma u64_headp m p L : upath m p (L.*1 ++ [base]) → u64 (headp L) = headp L.
Proof. intros Hp%path_head. by rewrite -Hp u64_ld64. Qed.

(** What [join_next] leaves: the block [a], now of [n'] units, points at the
    blocks [R] that are left after it. *)
Record joined (s : user O) (a n : Z) (L : list (Z * Z)) (m : gmap Z Z) (n' : Z) (R : list (Z * Z)) : Prop := {
  jn_touched : touched a (um s) m;
  jn_size : ld32 m (a + 8) = n';
  jn_le : n ≤ n';
  jn_path : upath m a (R.*1 ++ [base]);
  jn_sizes : sizes m R;
  jn_sorted : sorted (a + 16 * n') R;
  jn_rest : ∃ X, L = X ++ R;
  jn_top : n' = n ∨ ∃ b k, (b, k) ∈ L ∧ a + 16 * n' = b + 16 * k;
  jn_disj : ∀ b k, 0 < k → disjoint a n b k → (∀ b' k', (b', k') ∈ L → disjoint b k b' k') → disjoint a n' b k;
}.

Lemma wp_join_next s p a n L T :
  upath (um s) p (L.*1 ++ [base]) → sizes (um s) L → sorted a L →
  ld32 (um s) (a + 8) = n → 0 < n → 0 < base < a → (∀ b k, (b, k) ∈ L → disjoint a n b k ∧ b + 16 * k ≤ T) →
  T ≤ 2 ^ 36 →
  wp (join_next a p) (λ r s', r = inl tt ∧ ∃ m n' R, s' = set_um m s ∧ joined s a n L m n' R) s.
Proof.
  intros Hp Hsz Hso Hn Hn0 Hb Hd HT. rewrite /join_next /ptr_of /size_of /set_ptr /set_size /load64 /load32. uwp_steps.
  rewrite (path_head _ _ _ Hp) Hn.
  assert (∀ b k, (b, k) ∈ L → b + 16 ≤ a ∨ a + 16 ≤ b) as Hap.
  { intros b k Hin. destruct (Hd b k Hin) as [Hdj _]. destruct (sorted_above _ _ _ _ Hso Hin). unfold disjoint in *. lia. }
  destruct (Z.eqb_spec (a + 16 * n) (headp L)) as [E|E].
  - destruct L as [|[b k] L]; [simpl in E; lia|]. simpl in E, Hp, Hso. destruct Hp as [Hpb Hp].
    destruct (Hd b k) as [_ HbT]; [left|]. destruct Hso as (_ & Hk & Hso).
    rewrite /store32 /store64. uwp_steps. simpl. split; [done|].
    assert (ld32 (um s) (b + 8) = k) as -> by (apply Hsz; left). rewrite (u32_id (n + k)); [|lia].
    set m1 := st32 _ _ _. assert (touched a (um s) m1) as Ht1 by apply touched_st32.
    rewrite (touched_ptr _ _ _ _ Ht1); [|lia]. rewrite (path_head _ _ _ Hp).
    set m2 := st64 _ _ _. assert (touched a (um s) m2) as Ht2 by (eapply touched_trans; [done|apply touched_st64]).
    exists m2, (n + k), L. split; [done|]. split; [done|..|].
    + rewrite ld32_st64 ld32_st32 u32_id //. lia.
    + lia.
    + eapply (path_relink (um s)); [done|done|done| |intros; eapply Hap; by right].
      rewrite ld64_st64. by eapply u64_headp.
    + eapply (sizes_touched a n (um s)); [done|done| |intros b' k' Hin; apply Hsz; by right].
      intros b' k' Hin. split; [by eapply sorted_above in Hso as [_ ?]|]. apply Hd. by right.
    + eapply sorted_mono; [|done]. lia.
    + by exists [(b, k)].
    + right. exists b, k. split; [left|lia].
    + intros b' k' Hk' Hdj Hall. assert (disjoint b' k' b k) as Hx by (apply Hall; left). unfold disjoint in *. lia.
  - rewrite /store64. uwp_steps. split; [done|]. set m1 := st64 _ _ _.
    assert (touched a (um s) m1) as Ht1 by apply touched_st64.
    exists m1, n, L. split; [done|]. split; [done|..|].
    + by rewrite ld32_st64.
    + done.
    + eapply (path_relink (um s)); [done|done|done| |done]. rewrite ld64_st64. by eapply u64_headp.
    + eapply (sizes_touched a n (um s)); [done|done| |done].
      intros b' k' Hin. split; [by eapply sorted_above in Hso as [_ ?]|]. by apply Hd.
    + destruct L as [|[b k] L]; [done|]. simpl in *. destruct Hso as (Hab & Hk & Hso).
      destruct (Hd b k) as [Hdj _]; [left|]. unfold disjoint in Hdj. split; [lia|done].
    + by exists [].
    + by left.
    + done.
Qed.

Lemma sorted_disjoint lo L x i y j : sorted lo L → (x, i) ∈ L → (y, j) ∈ L → x ≠ y → disjoint x i y j.
Proof.
  revert lo. induction L as [|[b k] L IH]; intros lo; simpl; [by intros _ ?%elem_of_nil|]. intros (Hb & Hk & Hl).
  intros [[= -> ->]|Hx]%elem_of_cons [[= -> ->]|Hy]%elem_of_cons Hne; [done|..].
  - destruct (sorted_above _ _ _ _ Hl Hy). left. lia.
  - destruct (sorted_above _ _ _ _ Hl Hx). right. lia.
  - by eapply IH.
Qed.

(** Nodes of the list are apart. *)
Lemma nodes_apart L x y :
  sorted (base + 15) L → x ∈ base :: L.*1 → y ∈ base :: L.*1 → x ≠ y → x + 16 ≤ y ∨ y + 16 ≤ x.
Proof.
  intros Hs [->|[i Hx]%elem_of_fst]%elem_of_cons [->|[j Hy]%elem_of_fst]%elem_of_cons Hne; [done|..].
  - destruct (sorted_above _ _ _ _ Hs Hy). lia.
  - destruct (sorted_above _ _ _ _ Hs Hx). lia.
  - destruct (sorted_above _ _ _ _ Hs Hx), (sorted_above _ _ _ _ Hs Hy), (sorted_disjoint _ _ _ _ _ _ Hs Hx Hy Hne); lia.
Qed.

Lemma nodes_nodup L : sorted (base + 15) L → NoDup (base :: L.*1).
Proof.
  intros Hs. constructor; [|by eapply sorted_nodup]. intros [n Hn]%elem_of_fst.
  destruct (sorted_above _ _ _ _ Hs Hn). lia.
Qed.

(** A change of the header of the last node leaves the upath to it. *)
Lemma upath_last m m' L :
  sorted (base + 15) L → touched (endp base L.*1) m m' → upath m base L.*1 → upath m' base L.*1.
Proof.
  intros Hs Ht. apply upath_ext. intros q Hq. eapply touched_ptr; [done|]. apply (nodes_apart L); [done|..].
  - by apply sources_in.
  - apply endp_in.
  - intros ->. by eapply endp_not_source, Hq; apply nodes_nodup.
Qed.

(** What [free] makes of the free blocks [L] and the block [a] of [n] units:
    the memory of both and no more. *)
Record released (L : list (Z * Z)) (a n : Z) (L' : list (Z * Z)) : Prop := {
  re_disj : ∀ c j, 0 < j → disjoint c j a n → (∀ b k, (b, k) ∈ L → disjoint c j b k) →
    ∀ b k, (b, k) ∈ L' → disjoint c j b k;
  re_top : ∀ T, a + 16 * n ≤ T → (∀ b k, (b, k) ∈ L → b + 16 * k ≤ T) → ∀ b k, (b, k) ∈ L' → b + 16 * k ≤ T;
  re_length : (length L' ≤ S (length L))%nat;
}.

Section join_prev.
Context (s : user O) (a n : Z) (L R : list (Z * Z)).
Context (Hp : upath (um s) base L.*1) (Hsz : sizes (um s) L) (Hb0 : ld32 (um s) (base + 8) = 0).
Context (Hso : sorted (base + 15) L) (Hlow : ∀ b k, (b, k) ∈ L → b + 16 * k ≤ a) (Ha : 0 < base ∧ base + 16 ≤ a).
Context (Hn : ld32 (um s) (a + 8) = n) (Hn0 : 0 < n) (HR : upath (um s) a (R.*1 ++ [base])) (HRs : sizes (um s) R).
Context (HRo : sorted (a + 16 * n) R) (HT : a + 16 * n ≤ 2 ^ 36).
Context (p : Z) (Ep : p = endp base L.*1).

Lemma last_in : p ∈ base :: L.*1.
Proof. rewrite Ep. apply endp_in. Qed.

Lemma path_before m : touched p (um s) m → upath m base L.*1.
Proof. rewrite Ep. intros Ht. by eapply upath_last. Qed.

(** The size of the last node, and where it is. *)
Lemma last_node : ∃ k, ld32 (um s) (p + 8) = k ∧ 0 ≤ k ∧ p + 16 * k ≤ a ∧ p + 16 ≤ a ∧ 0 < p ∧
  ((L = [] ∧ p = base ∧ k = 0) ∨ ∃ L0, L = L0 ++ [(p, k)]).
Proof.
  rewrite Ep. destruct L as [|[b k] L0 _] using rev_ind; simpl.
  - exists 0. split_and!; try done; try lia. by left.
  - rewrite fmap_app endp_app /=. assert ((b, k) ∈ L0 ++ [(b, k)]) as Hin by (apply elem_of_app; right; left).
    exists k. destruct (sorted_above _ _ _ _ Hso Hin). pose proof (Hlow _ _ Hin). split_and!; [by apply Hsz|lia..|].
    right. by exists L0.
Qed.

(** The nodes after [a] are apart from the last node before it. *)
Lemma after_apart b k : (b, k) ∈ R → p + 16 ≤ b ∨ b + 16 ≤ p.
Proof. intros Hin. destruct last_node as (j & ? & ? & ? & ? & ? & _). destruct (sorted_above _ _ _ _ HRo Hin). lia. Qed.

Lemma path_after m : touched p (um s) m → upath m a (R.*1 ++ [base]).
Proof.
  intros Ht. eapply upath_ext; [|exact HR]. intros q [->|[k Hq]%elem_of_fst]%sources_snoc%elem_of_cons.
  - eapply touched_ptr; [done|]. destruct last_node as (? & ? & ? & ? & ? & _). lia.
  - eapply touched_ptr; [done|]. apply after_apart in Hq. lia.
Qed.

Lemma sizes_after m : touched p (um s) m → sizes m R.
Proof. intros Ht b k Hin. rewrite (touched_size p (um s)) //; [by apply HRs|]. apply after_apart in Hin. lia. Qed.

Lemma sizes_before m b k : touched p (um s) m → (b, k) ∈ L → b ≠ p → ld32 m (b + 8) = k.
Proof.
  intros Ht Hin Hne. rewrite (touched_size p (um s)) //; [by apply Hsz|].
  apply (nodes_apart L); [done| |apply last_in|done]. right. apply elem_of_fst. eauto.
Qed.

Lemma base_before m : touched p (um s) m → base ≠ p → ld32 m (base + 8) = 0.
Proof.
  intros Ht Hne. rewrite (touched_size p (um s)) //. apply (nodes_apart L); [done|left|apply last_in|done].
Qed.

Lemma flist_linked m :
  touched p (um s) m → ld64 m p = a → ld32 m (p + 8) = ld32 (um s) (p + 8) →
  p + 16 * ld32 (um s) (p + 8) ≠ a → flist m (L ++ (a, n) :: R).
Proof.
  intros Ht Hl Hk Hne. destruct last_node as (k & Ek & Hk0 & Hka & Hpa & Hp0 & Hsp). split.
  - rewrite fmap_app -app_assoc /=. apply upath_app. rewrite -Ep. split; [by apply path_before|]. split; [done|]. by apply path_after.
  - destruct (decide (base = p)) as [E|]; [by rewrite E Hk -E|by apply base_before].
  - intros b j [Hin|[[= -> ->]|Hin]%elem_of_cons]%elem_of_app.
    + destruct (decide (b = p)) as [E|]; [rewrite E Hk -E; by apply Hsz|by apply sizes_before].
    + rewrite (touched_size p (um s)) //. lia.
    + by apply sizes_after.
  - apply sorted_app. split; [done|]. simpl. split; [|done].
    destruct Hsp as [(-> & _ & _)|[L0 ->]]; [simpl; lia|]. rewrite top_app /=. lia.
Qed.

Lemma flist_merged m L0 k :
  L = L0 ++ [(p, k)] → p + 16 * k = a → touched p (um s) m → ld64 m p = headp R → ld32 m (p + 8) = k + n →
  flist m (L0 ++ (p, k + n) :: R).
Proof.
  intros HL Hk Ht Hl Hsk. pose proof Hso as Hs0. rewrite HL in Hs0. apply sorted_app in Hs0 as [Hs0 (Hlo & Hk0 & _)].
  assert ((p, k) ∈ L) as Hin by (rewrite HL; apply elem_of_app; right; left).
  pose proof (sorted_above _ _ _ _ Hso Hin) as [Hbp _].
  assert (∀ b j, (b, j) ∈ L0 → b ≠ p) as Hne.
  { intros b j Hb E. assert (b + 16 * j ≤ top (base + 15) L0) by by apply top_ends.
    destruct (sorted_above _ _ _ _ Hs0 Hb). lia. }
  split.
  - replace ((L0 ++ (p, k + n) :: R).*1 ++ [base]) with (L.*1 ++ (R.*1 ++ [base])).
    2:{ rewrite HL !fmap_app -!app_assoc //. }
    apply upath_app. rewrite -Ep. split; [by apply path_before|].
    eapply (path_relink (um s) m a); [done|done|done|done|]. intros b j Hb. apply after_apart in Hb. lia.
  - apply base_before; [done|lia].
  - intros b j [Hb|[[= -> ->]|Hb]%elem_of_cons]%elem_of_app; [|done|by apply sizes_after].
    apply sizes_before; [done|rewrite HL; apply elem_of_app; by left|by eapply Hne].
  - apply sorted_app. split; [done|]. simpl. split_and!; [done|lia|]. eapply sorted_mono; [|done]. lia.
Qed.

Lemma wp_join_prev :
  wp (join_prev a p) (λ r s', r = inl tt ∧ ∃ m L', s' = set_um m s ∧ touched p (um s) m ∧ flist m L' ∧
    released (L ++ R) a n L' ∧ p ∈ base :: L'.*1 ∧
    ((∃ k, (p, k) ∈ L' ∧ n ≤ k) ∨ (a, n) ∈ L' ∧ ld64 m p = a)) s.
Proof.
  rewrite /join_prev /size_of /ptr_of /set_size /set_ptr /load32 /load64. uwp_steps.
  destruct last_node as (k & Ek & Hk0 & Hka & Hpa & Hp0 & Hsp). rewrite Ek.
  destruct (Z.eqb_spec (p + 16 * k) a) as [E|E].
  - rewrite /store32 /store64. uwp_steps. simpl. split; [done|]. rewrite Hn (u32_id (k + n)); [|lia].
    destruct Hsp as [(_ & ? & ->)|[L0 HL]]; [lia|]. set m1 := st32 _ _ _.
    assert (touched p (um s) m1) as Ht1 by apply touched_st32. rewrite (touched_ptr _ _ _ _ Ht1); [|lia].
    rewrite (path_head _ _ _ HR). set m2 := st64 _ _ _.
    assert (touched p (um s) m2) as Ht2 by (eapply touched_trans; [done|apply touched_st64]).
    exists m2, (L0 ++ (p, k + n) :: R). split; [done|]. split; [done|]. split_and!.
    + apply (flist_merged m2 L0 k); [done..| |].
      * rewrite ld64_st64. by eapply u64_headp.
      * rewrite ld32_st64 ld32_st32 u32_id //. lia.
    + rewrite HL. split.
      * intros c j Hj Hca Hall b i [Hb|[[= -> ->]|Hb]%elem_of_cons]%elem_of_app.
        -- apply Hall. rewrite !elem_of_app. auto.
        -- assert (disjoint c j p k) as Hcp by (apply Hall; rewrite !elem_of_app list_elem_of_singleton; auto).
           unfold disjoint in *. lia.
        -- apply Hall. rewrite !elem_of_app. auto.
      * intros T HaT Hall b i [Hb|[[= -> ->]|Hb]%elem_of_cons]%elem_of_app; [apply Hall; rewrite !elem_of_app; auto|lia|].
        apply Hall. rewrite !elem_of_app. auto.
      * rewrite !length_app /=. lia.
    + right. apply elem_of_fst. exists (k + n). apply elem_of_app. right. left.
    + left. exists (k + n). split; [apply elem_of_app; right; left|lia].
  - rewrite /store64. uwp_steps. simpl. split; [done|]. set m1 := st64 _ _ _.
    assert (touched p (um s) m1) as Ht1 by apply touched_st64. assert (ld64 m1 p = a) as Hl.
    { rewrite ld64_st64. apply Z.mod_small. lia. }
    exists m1, (L ++ (a, n) :: R). split; [done|]. split; [done|]. split_and!.
    + apply flist_linked; [done..|by rewrite ld32_st64|by rewrite Ek].
    + split.
      * intros c j Hj Hca Hall b i [Hb|[[= -> ->]|Hb]%elem_of_cons]%elem_of_app; [|done|]; apply Hall; rewrite elem_of_app; auto.
      * intros T HaT Hall b i [Hb|[[= -> ->]|Hb]%elem_of_cons]%elem_of_app; [|done|]; apply Hall; rewrite elem_of_app; auto.
      * rewrite !length_app /=. lia.
    + pose proof last_in as Hin. rewrite fmap_app. set_solver.
    + right. split; [|done]. apply elem_of_app. right. left.
Qed.
End join_prev.

(** ** [free] *)

Lemma split_at lo L a :
  sorted lo L → (∀ b k, (b, k) ∈ L → b ≠ a) →
  ∃ L1 L2, L = L1 ++ L2 ∧ (∀ b k, (b, k) ∈ L1 → b < a) ∧ sorted a L2.
Proof.
  revert lo. induction L as [|[b k] L IH]; intros lo Hs Hne.
  - exists [], []. split_and!; [done| |done]. by intros ?? ?%elem_of_nil.
  - simpl in Hs. destruct Hs as (Hb & Hk & Hs). assert (b ≠ a) as Hba by (eapply Hne; left).
    destruct (decide (b < a)) as [Hlt|Hge].
    + destruct (IH _ Hs) as (L1 & L2 & -> & H1 & H2); [intros; eapply Hne; by right|].
      exists ((b, k) :: L1), L2. split_and!; [done| |done]. intros b' k' [[= -> ->]|Hin]%elem_of_cons; [done|]. by eapply H1.
    + exists [], ((b, k) :: L). split_and!; [done|by intros ?? ?%elem_of_nil|]. simpl. split; [lia|done].
Qed.

(** The way from any node to the last one before [a]. *)
Lemma way_to m L1 L2 a f :
  upath m base ((L1 ++ L2).*1 ++ [base]) → sorted (base + 15) (L1 ++ L2) → base + 16 ≤ a →
  (∀ b k, (b, k) ∈ L1 → b < a) → sorted a L2 → f ∈ base :: (L1 ++ L2).*1 →
  ∃ l, upath m f l ∧ endp f l = endp base L1.*1 ∧ passes a f l ∧ (length l ≤ S (length (L1 ++ L2)))%nat.
Proof.
  intros Hp Hs Ha H1 H2 Hf. rewrite fmap_app -app_assoc in Hp. apply upath_app in Hp as [Hp1 Hp2].
  apply sorted_app in Hs as [Hs1 Hs2].
  assert (passes a base L1.*1) as Hpb by (apply (passes_below a (base + 15)); [done|lia|done]).
  apply elem_of_cons in Hf as [->|[k Hf]%elem_of_fst].
  { exists L1.*1. rewrite length_fmap length_app. split_and!; [done..|lia]. }
  apply elem_of_app in Hf as [Hf|Hf]; apply list_elem_of_split in Hf as (A & B & ->).
  - exists B.*1. rewrite fmap_app /= in Hp1. apply upath_app in Hp1 as [_ [_ Hp1]]. apply sorted_app in Hs1 as [_ (_ & Hk & Hs1)].
    split_and!; [done|by rewrite fmap_app endp_app| |rewrite !length_app length_fmap /=; lia].
    apply (passes_below a (f + 16 * k)); [done|lia|]. intros b j Hb. apply (H1 b j). apply elem_of_app. right. by right.
  - apply sorted_app in H2 as [H2a (Hfa & Hk & H2)]. pose proof (top_above _ _ H2a).
    rewrite fmap_app /= -app_assoc in Hp2. apply upath_app in Hp2 as [_ [_ Hp2]]. apply upath_app in Hp2 as [HpB [HpE _]].
    exists (B.*1 ++ base :: L1.*1). split_and!.
    + apply upath_app. split; [done|]. by split.
    + by rewrite endp_app.
    + apply passes_app. split; [apply (passes_above a (f + 16 * k)); [done|lia..]|]. split; [|done].
      assert (a < endp f B.*1).
      { pose proof (endp_in f B.*1) as [->|[j Hin]%elem_of_fst]%elem_of_cons; [lia|].
        destruct (sorted_above _ _ _ _ H2 Hin). lia. }
      unfold stops. lia.
    + rewrite !length_app /= !length_fmap. lia.
Qed.

(** The block [a] of [n] units becomes free. *)
Record freed_block (s : user O) (L : list (Z * Z)) (a n : Z) (m : gmap Z Z) (p : Z) (L' : list (Z * Z)) : Prop := {
  fb_flist : flist m L';
  fb_freep : p ∈ base :: L'.*1;
  fb_released : released L a n L';
  fb_found : (∃ k, (p, k) ∈ L' ∧ n ≤ k) ∨ (∃ k, (a, k) ∈ L' ∧ n ≤ k ∧ ld64 m p = a);
  fb_old : p ∈ base :: L.*1;
  fb_frame : ∀ x, ¬ span a 16 x → ¬ span p 16 x → ld8 m x = ld8 (um s) x;
}.

Lemma wp_free_block fuel s a n L T :
  flist (um s) L → u_freep s ∈ base :: L.*1 → 0 < base → base + 16 ≤ a → ld32 (um s) (a + 8) = n → 0 < n →
  (∀ b k, (b, k) ∈ L → disjoint a n b k ∧ b + 16 * k ≤ T) → a + 16 * n ≤ T → T ≤ 2 ^ 36 → (length L + 2 ≤ fuel)%nat →
  wp (free fuel (a + 16)) (λ r s', r = inl tt ∧ ∃ m p L', s' = set_freep p (set_um m s) ∧ freed_block s L a n m p L') s.
Proof.
  intros [Hp Hb0 Hsz Hso] Hf Hb Ha Hn Hn0 Hd HaT HT Hfuel.
  destruct (split_at _ L a Hso) as (L1 & L2 & -> & H1 & H2).
  { intros b k Hin ->. destruct (Hd a k Hin) as [Hdj _]. destruct (sorted_above _ _ _ _ Hso Hin). unfold disjoint in *. lia. }
  destruct (way_to _ _ _ _ _ Hp Hso Ha H1 H2 Hf) as (l & Hl & El & Hps & Hlen).
  rewrite /free. replace (a + 16 - 16) with a by lia. apply uwp_bind, uwp_gets, uwp_bind.
  pose proof Hp as Hp'. rewrite fmap_app -app_assoc in Hp'. apply upath_app in Hp' as [Hp1 Hp2].
  pose proof Hso as Hso'. apply sorted_app in Hso' as [Hs1 _].
  assert (endp base L1.*1 < a) as Hpa.
  { pose proof (endp_in base L1.*1) as [->|[j Hin]%elem_of_fst]%elem_of_cons; [lia|]. by eapply H1. }
  eapply (wp_free_loop _ _ _ l); [done|done| |lia|].
  { rewrite El (path_head _ _ _ Hp2) /stops. destruct L2 as [|[b k] L2]; simpl in *; [|lia].
    pose proof (endp_in base L1.*1) as [->|[j Hin]%elem_of_fst]%elem_of_cons; [lia|].
    destruct (sorted_above _ _ _ _ Hs1 Hin). lia. }
  rewrite El. apply uwp_bind. eapply wp_mono.
  { apply (wp_join_next s _ a n L2 T); try done; [intros b k Hin; apply Hsz, elem_of_app; by right|lia|].
    intros b k Hin. apply Hd, elem_of_app. by right. }
  intros r s1 (-> & m1 & n' & R & -> & J).
  assert (∀ b k, (b, k) ∈ L1 → b + 16 * k ≤ a ∧ 0 < k) as Hlow.
  { intros b k Hin. destruct (Hd b k) as [Hdj _]; [apply elem_of_app; by left|].
    pose proof (H1 _ _ Hin). destruct (sorted_above _ _ _ _ Hs1 Hin). unfold disjoint in Hdj. lia. }
  assert (a + 16 * n' ≤ T) as Hn'T.
  { destruct (jn_top _ _ _ _ _ _ _ J) as [->|(b & k & Hin & ->)]; [done|]. apply (Hd b k), elem_of_app. by right. }
  destruct J as [Jt Js Jl Jp Jz Jo [X ->] Jtop Jd].
  apply uwp_bind. eapply wp_mono.
  { apply (wp_join_prev (set_um m1 s) a n' L1 R); simpl; try done; try lia.
    - eapply upath_ext; [|exact Hp1]. intros q Hq%sources_in. eapply touched_ptr; [done|].
      apply elem_of_cons in Hq as [->|[k Hq]%elem_of_fst]; [lia|]. apply Hlow in Hq. lia.
    - intros b k Hin. rewrite (touched_size a (um s)); [apply Hsz, elem_of_app; by left|done|]. apply Hlow in Hin. lia.
    - rewrite (touched_size a (um s)) //. lia.
    - intros b k Hin. by apply Hlow. }
  intros r s2 (-> & m & L' & -> & Ht & Hfl & Hre & Hin & Hfo). uwp_steps. split; [done|].
  exists m, (endp base L1.*1), L'. split; [done|]. split; [done|done|..].
  - destruct Hre as [Hr1 Hr2 Hr3]. split.
    + intros c j Hj Hca Hall. apply Hr1; [done| |].
      * assert (disjoint a n' c j) as Hx; [|unfold disjoint in *; lia]. apply Jd; [done|unfold disjoint in *; lia|].
        intros b k Hin'. apply Hall, elem_of_app. by right.
      * intros b k Hin'. apply Hall. rewrite !elem_of_app in Hin' |- *. tauto.
    + intros T' HaT' Hall. apply Hr2.
      * destruct Jtop as [->|(b & k & Hin' & ->)]; [done|]. apply Hall, elem_of_app. by right.
      * intros b k Hin'. apply Hall. rewrite !elem_of_app in Hin' |- *. tauto.
    + rewrite !length_app in Hr3 |- *. lia.
  - destruct Hfo as [(k & Hk & Hnk)|[Hk He]]; [left; exists k; split; [done|lia]|right]. exists n'. done.
  - pose proof (endp_in base L1.*1) as Hx. rewrite fmap_app. set_solver.
  - intros x Hxa Hxp. rewrite (Ht x Hxp) /=. by apply Jt.
Qed.

(** ** The heap *)

(** [A]: the blocks handed out, their header and their units.  [brk]: the end
    of the process's memory. *)
Context (brk : O → Z).

Record heap (L : list (Z * Z)) (A : gmap Z Z) (s : user O) : Prop := {
  hp_list : flist (um s) L;
  hp_freep : u_freep s ∈ base :: L.*1;
  hp_top : ∀ b k, (b, k) ∈ L → b + 16 * k ≤ brk (u_os s);
  hp_live : ∀ a n, A !! a = Some n →
    0 < n ∧ base + 16 ≤ a ∧ a + 16 * n ≤ brk (u_os s) ∧ ld32 (um s) (a + 8) = n;
  hp_apart : ∀ a n b k, A !! a = Some n → (b, k) ∈ L → disjoint a n b k;
  hp_live_apart : ∀ a n b k, A !! a = Some n → A !! b = Some k → a ≠ b → disjoint a n b k;
  hp_base : 0 < base ∧ base + 16 ≤ brk (u_os s);
}.

Lemma heap_nonzero L A s x : heap L A s → x ∈ base :: L.*1 → x ≠ 0.
Proof.
  intros Hh. destruct (hp_base _ _ _ Hh). intros [->|[j Hx]%elem_of_fst]%elem_of_cons; [lia|].
  destruct (sorted_above _ _ _ _ (fl_sorted _ _ (hp_list _ _ _ Hh)) Hx). lia.
Qed.

(** The contents of the blocks [A]. *)
Definition kept (A : gmap Z Z) (m m' : gmap Z Z) : Prop :=
  ∀ a n x, A !! a = Some n → a + 16 ≤ x < a + 16 * n → ld8 m' x = ld8 m x.

Lemma kept_trans A m1 m2 m3 : kept A m1 m2 → kept A m2 m3 → kept A m1 m3.
Proof. intros H1 H2 a n x Ha Hx. by rewrite (H2 a n) // (H1 a n). Qed.

(** A change at the header of a node or of a block that is not in [A]. *)
Lemma outside_live L A s a n :
  heap L A s → A !! a = Some n →
  (∀ q x, q ∈ base :: L.*1 → span a (16 * n) x → ¬ span q 16 x).
Proof.
  intros Hh Ha q x Hq Hx Hqx. destruct (hp_live _ _ _ Hh _ _ Ha) as (? & ? & _).
  apply elem_of_cons in Hq as [->|[k Hk]%elem_of_fst]; [unfold span in *; lia|].
  pose proof (hp_apart _ _ _ Hh _ _ _ _ Ha Hk) as Hd.
  destruct (sorted_above _ _ _ _ (fl_sorted _ _ (hp_list _ _ _ Hh)) Hk). unfold disjoint, span in *. lia.
Qed.

Lemma heap_freed L A s a n m p L' :
  heap L A s → freed_block s L a n m p L' → 0 < n → a + 16 * n ≤ brk (u_os s) →
  (∀ b k, A !! b = Some k → disjoint a n b k) →
  heap L' A (set_freep p (set_um m s)) ∧ kept A (um s) m.
Proof.
  intros Hh [Hfl Hfp [Hr1 Hr2 _] _ Hold Hfr] Hn Ha Hd.
  assert (∀ b k x, A !! b = Some k → span b (16 * k) x → ld8 m x = ld8 (um s) x) as Hk.
  { intros b k x Hb Hx. apply Hfr; [|by eapply outside_live]. pose proof (Hd b k Hb).
    destruct (hp_live _ _ _ Hh _ _ Hb). unfold disjoint, span in *. lia. }
  split.
  - split; simpl; [done|done|..].
    + by apply Hr2, Hh.
    + intros b k Hb. destruct (hp_live _ _ _ Hh _ _ Hb) as (? & ? & ? & E). split_and!; [done..|].
      rewrite -E. apply (ldle_ext 4). intros x Hx. apply (Hk b k); [done|]. unfold span in *. lia.
    + intros b k c j Hb Hc. eapply Hr1; [| | |exact Hc].
      * by apply (hp_live _ _ _ Hh _ _ Hb).
      * pose proof (Hd b k Hb). unfold disjoint in *. lia.
      * intros b' k' Hin. by eapply (hp_apart _ _ _ Hh).
    + apply Hh.
    + apply Hh.
  - intros b k x Hb Hx. apply (Hk b k); [done|]. unfold span. destruct (hp_live _ _ _ Hh _ _ Hb). lia.
Qed.

Context (Hbrk : ∀ o, brk o ≤ 2 ^ 36).

Lemma wp_free L A s a n fuel :
  heap L A s → A !! a = Some n → (length L + 2 ≤ fuel)%nat →
  wp (free fuel (a + 16)) (λ r s', r = inl tt ∧ u_os s' = u_os s ∧ kept (delete a A) (um s) (um s') ∧
    ∃ L', heap L' (delete a A) s' ∧ (length L' ≤ S (length L))%nat) s.
Proof.
  intros Hh Ha Hf. destruct (hp_live _ _ _ Hh _ _ Ha) as (Hn & Hba & Hab & Hsz).
  eapply wp_mono.
  { apply (wp_free_block fuel s a n L (brk (u_os s))); [apply Hh..|done|done|done| |done|apply Hbrk|done].
    intros b k Hin. split; [by eapply (hp_apart _ _ _ Hh)|by apply (hp_top _ _ _ Hh)]. }
  intros r s' (-> & m & p & L' & -> & Hfb).
  assert (heap L (delete a A) s) as Hh'.
  { split; try apply Hh.
    - intros b k [_ Hb]%lookup_delete_Some. by apply (hp_live _ _ _ Hh).
    - intros b k c j [_ Hb]%lookup_delete_Some. by apply (hp_apart _ _ _ Hh).
    - intros b k c j [_ Hb]%lookup_delete_Some [_ Hc]%lookup_delete_Some. by apply (hp_live_apart _ _ _ Hh). }
  destruct (heap_freed _ _ _ _ _ _ _ _ Hh' Hfb Hn Hab) as [Hh2 Hk].
  { intros b k [Hne Hb]%lookup_delete_Some. by eapply (hp_live_apart _ _ _ Hh). }
  split; [done|]. split; [done|]. split; [done|]. exists L'. split; [done|]. apply Hfb.
Qed.

Lemma heap_os L A s o : heap L A s → brk (u_os s) ≤ brk o → heap L A (set_os o s).
Proof.
  intros Hh Ho. split; simpl; try apply Hh.
  - intros b k Hin. pose proof (hp_top _ _ _ Hh _ _ Hin). lia.
  - intros b k Hb. destruct (hp_live _ _ _ Hh _ _ Hb) as (? & ? & ? & ?). split_and!; [done|done|lia|done].
  - destruct (hp_base _ _ _ Hh). lia.
Qed.

(** A header written above everything. *)
Lemma heap_above L A s a v :
  heap L A s → (∀ b k, (b, k) ∈ L → b + 16 * k ≤ a) → (∀ b k, A !! b = Some k → b + 16 * k ≤ a) → base + 16 ≤ a →
  heap L A (set_um (st32 (um s) (a + 8) v) s) ∧ kept A (um s) (st32 (um s) (a + 8) v).
Proof.
  intros Hh HL HA Hb. pose proof (touched_st32 (um s) a v) as Ht. set m := st32 _ _ _ in Ht |- *.
  pose proof (hp_list _ _ _ Hh) as [Fp Fb Fz Fs].
  assert (∀ q, q ∈ base :: L.*1 → q + 16 ≤ a ∨ a + 16 ≤ q) as Hq.
  { intros q [->|[k Hk]%elem_of_fst]%elem_of_cons; [lia|]. pose proof (HL _ _ Hk). destruct (sorted_above _ _ _ _ Fs Hk). lia. }
  split; [split; simpl; try apply Hh|].
  - split; [|by rewrite (touched_size a (um s)); [..|apply Hq; left]| |done].
    + eapply upath_ext; [|exact Fp]. intros q Hs%sources_snoc. eapply touched_ptr; [done|]. by apply Hq.
    + intros b k Hin. rewrite (touched_size a (um s)) //; [by apply Fz|]. apply Hq. right. apply elem_of_fst. eauto.
  - intros b k Hin. destruct (hp_live _ _ _ Hh _ _ Hin) as (? & ? & ? & ?). split_and!; try done.
    rewrite (touched_size a (um s)) //. pose proof (HA _ _ Hin). lia.
  - intros b k x Hin Hx. apply Ht. pose proof (HA _ _ Hin). unfold span. lia.
Qed.

(** After [morecore]: a block of [nu] units is at the returned node or is the
    next one. *)
Definition supplied (L : list (Z * Z)) (nu p : Z) (m : gmap Z Z) : Prop :=
  ∃ q k, (q, k) ∈ L ∧ nu ≤ k ∧ (q = p ∨ ld64 m p = q).

Definition grown (L : list (Z * Z)) (A : gmap Z Z) (nu : Z) (r : Z + uend) (s' : user O) : Prop :=
  ∃ L', r = inl (u_freep s') ∧ heap L' A s' ∧ (length L' ≤ S (length L))%nat ∧ supplied L' nu (u_freep s') (um s').

(** The system does not give the memory that [morecore] asks for. *)
Definition refused (nu : Z) (o : O) : Prop := (os_sbrk (Z.max 4096 nu * 16) o).1 = -1.

Definition more_post (L : list (Z * Z)) (A : gmap Z Z) (nu : Z) (s : user O) (r : Z + uend) (s' : user O) : Prop :=
  kept A (um s) (um s') ∧ ((r = inl 0 ∧ refused nu (u_os s) ∧ heap L A s') ∨ grown L A nu r s').

Lemma wp_new_block L A s a n nu fuel :
  heap L A s → (∀ b k, (b, k) ∈ L → b + 16 * k ≤ a) → (∀ b k, A !! b = Some k → b + 16 * k ≤ a) →
  base + 16 ≤ a → a + 16 * n ≤ brk (u_os s) → 0 < n < 2 ^ 32 → nu ≤ n → (length L + 2 ≤ fuel)%nat →
  wp (set_size a n;; free fuel (a + 16);; ugets u_freep)
    (λ r s', u_os s' = u_os s ∧ kept A (um s) (um s') ∧ grown L A nu r s') s.
Proof.
  intros Hh HL HA Hb Ha Hn Hnu Hf. rewrite /set_size /store32. apply uwp_bind, uwp_modify, uwp_bind.
  destruct (heap_above L A s a n Hh HL HA Hb) as [Hh2 Hk2]. eapply wp_mono.
  { apply (wp_free_block fuel _ a n L (brk (u_os s)));
      [apply Hh2|apply Hh2|apply Hh|done| |lia| |done|apply Hbrk|done].
    - simpl. rewrite ld32_st32. apply u32_id. lia.
    - intros b k Hin. pose proof (HL _ _ Hin). split; [unfold disjoint; lia|lia]. }
  intros r s' (-> & m & p & L' & -> & Hfb). apply uwp_gets. simpl.
  destruct (heap_freed _ _ _ _ _ _ _ _ Hh2 Hfb) as [Hh3 Hk3]; [lia|done| |].
  { intros b k Hin. pose proof (HA _ _ Hin). unfold disjoint. lia. }
  split; [done|]. split; [by eapply kept_trans|]. exists L'. split; [done|]. split; [done|]. split; [apply Hfb|].
  destruct (fb_found _ _ _ _ _ _ _ Hfb) as [(k & Hk & Hnk)|(k & Hk & Hnk & He)].
  - exists p, k. split_and!; [done|lia|by left].
  - exists a, k. split_and!; [done|lia|by right].
Qed.

(** ** The search of [malloc] *)

(** Once around the list: every node, ending where it began. *)
Lemma around m L f :
  flist m L → f ∈ base :: L.*1 →
  ∃ W, upath m f (W ++ [f]) ∧ f ∉ W ∧ W ++ [f] ≡ₚ base :: L.*1.
Proof.
  intros [Fp _ _ Fs] Hf. pose proof (nodes_nodup L Fs) as Hnd.
  apply elem_of_cons in Hf as [->|[k Hf]%elem_of_fst].
  - exists L.*1. split; [done|]. apply NoDup_cons in Hnd as [Hnd _]. split; [done|]. by rewrite Permutation_app_comm.
  - apply list_elem_of_split in Hf as (A & B & ->). rewrite fmap_app /= in Hnd Fp |- *.
    rewrite -app_assoc /= in Fp. apply upath_app in Fp as [F1 [F2 F3]]. apply upath_app in F3 as [F3 [F4 _]].
    exists (B.*1 ++ base :: A.*1). split; [|split].
    + rewrite -app_assoc /=. apply upath_app. split; [done|]. split; [done|]. by apply upath_app.
    + apply NoDup_cons in Hnd as [Hb Hnd]. apply NoDup_app in Hnd as (_ & H1 & Hnd). apply NoDup_cons in Hnd as [H2 _].
      rewrite elem_of_app elem_of_cons. rewrite elem_of_app elem_of_cons in Hb. intros [?|[->|Hx]]; [done|tauto|].
      apply (H1 f Hx). left.
    + rewrite -app_assoc /=. rewrite (Permutation_app_comm (B.*1)) /=. constructor. rewrite -app_assoc /=. done.
Qed.

Lemma wp_malloc_walk W fuel nunits prevp f (Q : Z + uend → user O → Prop) s :
  upath (um s) prevp (W ++ [f]) → u_freep s = f → f ∉ W → (∀ p, p ∈ W → p ≠ 0) → (length W < fuel)%nat →
  (∀ X p Y, W ++ [f] = X ++ p :: Y → nunits ≤ ld32 (um s) (p + 8) →
     wp (take_block nunits (endp prevp X) p (ld32 (um s) (p + 8))) Q s) →
  ((∀ p, p ∈ W ++ [f] → ld32 (um s) (p + 8) < nunits) →
     ∀ fuel', fuel = (length W + S fuel')%nat →
     wp (p ← morecore (S fuel') nunits;
         if p =? 0 then mret 0 else nxt ← ptr_of p; malloc_loop fuel' nunits p nxt) Q s) →
  wp (malloc_loop fuel nunits prevp (ld64 (um s) prevp)) Q s.
Proof.
  revert fuel prevp. induction W as [|p W IH]; intros [|fuel] prevp; simpl; try lia; intros Hp Ef Hf Hz Hlen Htake Hmore.
  - destruct Hp as [-> _]. rewrite /size_of /load32. apply uwp_bind, uwp_gets.
    destruct (Z.leb_spec nunits (ld32 (um s) (f + 8))) as [Hle|Hlt].
    + apply (Htake [] f []); [done|lia].
    + apply uwp_bind, uwp_gets. rewrite Ef Z.eqb_refl. apply Hmore; [|done].
      intros p Hin. apply list_elem_of_singleton in Hin as ->. lia.
  - destruct Hp as [-> Hp]. rewrite /size_of /load32. apply uwp_bind, uwp_gets.
    destruct (Z.leb_spec nunits (ld32 (um s) (p + 8))) as [Hle|Hlt].
    + apply (Htake [] p (W ++ [f])); [done|lia].
    + apply uwp_bind, uwp_gets. assert (p ≠ f) as Hpf by (intros ->; apply Hf; left). rewrite Ef (proj2 (Z.eqb_neq p f) Hpf).
      apply uwp_bind, uwp_ret. assert (p ≠ 0) as Hp0 by (apply Hz; left). rewrite (proj2 (Z.eqb_neq p 0) Hp0).
      rewrite /ptr_of /load64. apply uwp_bind, uwp_gets. apply IH; [done..| | |lia| |].
      * intros Hin. apply Hf. by right.
      * intros q Hq. apply Hz. by right.
      * intros X q Y E Hq. apply (Htake (p :: X) q Y); [by rewrite E|done].
      * intros Hall fuel' ->. apply Hmore; [|lia]. intros q [->|Hq]%elem_of_cons; [done|by apply Hall].
Qed.

Lemma pred_unique m L1 L2 p sz q :
  flist m (L1 ++ (p, sz) :: L2) → q ∈ base :: (L1 ++ (p, sz) :: L2).*1 → ld64 m q = p → q = endp base L1.*1.
Proof.
  intros [Fp _ _ Fs] Hq E. eapply path_inj; [exact Fp| |by apply in_sources_snoc| |].
  - pose proof (nodes_nodup _ Fs) as Hnd. by rewrite Permutation_app_comm.
  - apply in_sources_snoc. rewrite fmap_app. pose proof (endp_in base L1.*1). set_solver.
  - rewrite E. rewrite fmap_app -app_assoc in Fp. by apply upath_app in Fp as [_ [-> _]].
Qed.

(** The block [p] of [n] units is taken out of the free memory of [L]. *)
Record taken (L : list (Z * Z)) (p n : Z) (L' : list (Z * Z)) : Prop := {
  tk_from : ∃ b k, (b, k) ∈ L ∧ b ≤ p ∧ p + 16 * n = b + 16 * k;
  tk_disj : ∀ b k, (b, k) ∈ L' → disjoint p n b k ∧ ∃ k', (b, k') ∈ L ∧ k ≤ k';
  tk_length : (length L' ≤ length L)%nat;
}.

Lemma heap_taken L A s p n L' m f :
  heap L A s → 0 < n → taken L p n L' → flist m L' → f ∈ base :: L'.*1 → ld32 m (p + 8) = n →
  (∀ x, (∀ q, q ∈ base :: L.*1 → ¬ span q 16 x) → ¬ span p 16 x → ld8 m x = ld8 (um s) x) →
  heap L' (<[p := n]> A) (set_freep f (set_um m s)) ∧ kept A (um s) m ∧ A !! p = None.
Proof.
  intros Hh Hn [(b0 & k0 & Hin0 & Hb0 & E0) Hd _] Hfl Hf Hsz Hfr.
  pose proof (fl_sorted _ _ (hp_list _ _ _ Hh)) as Hso.
  assert (∀ b k, A !! b = Some k → disjoint p n b k ∧ 0 < k ∧ p ≠ b) as HA.
  { intros b k Hb. pose proof (hp_apart _ _ _ Hh _ _ _ _ Hb Hin0) as Hx. destruct (hp_live _ _ _ Hh _ _ Hb) as (? & _).
    unfold disjoint in *. lia. }
  assert (∀ b k x, A !! b = Some k → span b (16 * k) x → ld8 m x = ld8 (um s) x) as Hk.
  { intros b k x Hb Hx. apply Hfr; [intros q Hq; by eapply outside_live|]. destruct (HA b k Hb) as (Hdj & _ & _).
    unfold disjoint, span in *. lia. }
  destruct (sorted_above _ _ _ _ Hso Hin0) as [Hbb _]. pose proof (hp_top _ _ _ Hh _ _ Hin0) as Htop.
  split; [split; simpl; [done|done|..]|].
  - intros b k Hin. destruct (Hd b k Hin) as (_ & k' & Hin' & Hkk). pose proof (hp_top _ _ _ Hh _ _ Hin'). lia.
  - intros b k [[<- <-]|[Hne Hb]]%lookup_insert_Some; [split_and!; [done|lia|lia|done]|].
    destruct (hp_live _ _ _ Hh _ _ Hb) as (? & ? & ? & E). split_and!; [done..|]. rewrite -E. apply (ldle_ext 4).
    intros x Hx. apply (Hk b k); [done|]. unfold span in *. lia.
  - intros b k c j [[<- <-]|[Hne Hb]]%lookup_insert_Some Hc; [by apply Hd|].
    destruct (Hd c j Hc) as (_ & j' & Hc' & Hj). pose proof (hp_apart _ _ _ Hh _ _ _ _ Hb Hc'). unfold disjoint in *. lia.
  - intros b k c j [[<- <-]|[Hne Hb]]%lookup_insert_Some [[<- <-]|[Hne' Hc]]%lookup_insert_Some Hbc; [done|..].
    + by apply HA.
    + destruct (HA b k Hb) as (Hx & _ & _). unfold disjoint in *. lia.
    + by eapply (hp_live_apart _ _ _ Hh).
  - apply Hh.
  - split; [intros b k x Hb Hx; apply (Hk b k); [done|]|].
    + destruct (hp_live _ _ _ Hh _ _ Hb). unfold span. lia.
    + destruct (A !! p) as [k|] eqn:Ep; [|done]. by destruct (HA p k Ep) as (_ & _ & ?).
Qed.

Lemma node_in (L : list (Z * Z)) b k : (b, k) ∈ L → b ∈ base :: L.*1.
Proof. intros Hin. right. apply elem_of_fst. eauto. Qed.

(** A whole block leaves the list. *)
Lemma flist_unlink m L1 p sz L2 q :
  flist m (L1 ++ (p, sz) :: L2) → q = endp base L1.*1 →
  flist (st64 m q (ld64 m p)) (L1 ++ L2) ∧ ld32 (st64 m q (ld64 m p)) (p + 8) = sz ∧ q ∈ base :: (L1 ++ L2).*1.
Proof.
  intros Hfl Eq. pose proof Hfl as [Fp Fb Fz Fs]. set L := L1 ++ (p, sz) :: L2 in Hfl Fp Fz Fs |- *.
  pose proof (endp_in base L1.*1) as HqL1. rewrite -Eq in HqL1.
  assert (q ∈ base :: L.*1) as Hq by (rewrite fmap_app; set_solver).
  assert ((p, sz) ∈ L) as Hpin by (apply elem_of_app; right; left).
  assert (∀ x, x ∈ base :: L.*1 → x ≠ q → x + 16 ≤ q ∨ q + 16 ≤ x) as Hap by (intros; by apply (nodes_apart L)).
  assert (∀ x, x ∈ base :: L.*1 → ld32 (st64 m q (ld64 m p)) (x + 8) = ld32 m (x + 8)) as Hsz.
  { intros x Hx. destruct (decide (x = q)) as [->|]; [apply ld32_st64|]. eapply touched_size; [apply touched_st64|]. by apply Hap. }
  assert (q ∉ p :: L2.*1) as Hq2.
  { pose proof (nodes_nodup _ Fs) as Hnd. rewrite fmap_app app_comm_cons in Hnd. apply NoDup_app in Hnd as (_ & Hx & _).
    by apply Hx. }
  pose proof Fs as Fs'. apply sorted_app in Fs' as [Fs1 (Hlo & Hk & Fs2)].
  rewrite /L fmap_app -app_assoc /= in Fp. apply upath_app in Fp as [F1 [F2 F3]].
  split; [split|split].
  - rewrite fmap_app -app_assoc. apply upath_app. split.
    + eapply upath_last; [done| |done]. rewrite -Eq. apply touched_st64.
    + rewrite -Eq. eapply (path_relink m _ p q L2); [done|done|apply touched_st64| |].
      * rewrite ld64_st64 u64_ld64. by apply path_head.
      * intros b k Hin. apply Hap.
        -- eapply node_in, elem_of_app. right. by right.
        -- intros ->. apply Hq2. right. apply elem_of_fst. eauto.
  - rewrite Hsz //. left.
  - intros b k Hin. assert ((b, k) ∈ L) by (apply elem_of_app in Hin as [?|?]; apply elem_of_app; [by left|right; by right]).
    rewrite Hsz; [by apply Fz|by eapply node_in].
  - apply sorted_app. split; [done|]. eapply sorted_mono; [|done]. lia.
  - rewrite Hsz; [by apply Fz|by eapply node_in].
  - rewrite fmap_app. set_solver.
Qed.

(** The end of a block leaves the list. *)
Lemma flist_split m L1 p sz L2 n :
  flist m (L1 ++ (p, sz) :: L2) → 0 < n < sz → sz < 2 ^ 32 →
  let m' := st32 (st32 m (p + 8) (sz - n)) (p + 16 * (sz - n) + 8) n in
  flist m' (L1 ++ (p, sz - n) :: L2) ∧ ld32 m' (p + 16 * (sz - n) + 8) = n.
Proof.
  intros [Fp Fb Fz Fs] Hn Hsz m'. set L := L1 ++ (p, sz) :: L2 in Fp Fz Fs |- *. set p' := p + 16 * (sz - n).
  set m1 := st32 m (p + 8) (sz - n). assert (touched p m m1) as Ht1 by apply touched_st32.
  assert (touched p' m1 m') as Ht2 by apply touched_st32.
  assert ((p, sz) ∈ L) as Hpin by (apply elem_of_app; right; left).
  assert (∀ x, x ∈ base :: L.*1 → x + 16 ≤ p' ∨ p' + 16 ≤ x) as Hap'.
  { intros x [->|[k Hx]%elem_of_fst]%elem_of_cons; [destruct (sorted_above _ _ _ _ Fs Hpin); lia|].
    destruct (decide (x = p)) as [->|Hne]; [lia|].
    pose proof (sorted_disjoint _ _ _ _ _ _ Fs Hx Hpin Hne) as Hd. destruct (sorted_above _ _ _ _ Fs Hx).
    unfold disjoint in Hd. lia. }
  assert (∀ x, x ∈ base :: L.*1 → ld64 m' x = ld64 m x) as Hptr.
  { intros x Hx. rewrite (touched_ptr _ _ _ _ Ht2); [|by apply Hap']. destruct (decide (x = p)) as [->|Hne]; [apply ld64_st32|].
    eapply touched_ptr; [done|]. apply (nodes_apart L); [done|done|by eapply node_in|done]. }
  assert (∀ x, x ∈ base :: L.*1 → x ≠ p → ld32 m' (x + 8) = ld32 m (x + 8)) as Hs.
  { intros x Hx Hne. rewrite (touched_size _ _ _ _ Ht2); [|by apply Hap'].
    eapply touched_size; [done|]. apply (nodes_apart L); [done|done|by eapply node_in|done]. }
  pose proof (sorted_nodup _ _ Fs) as Hnd. rewrite fmap_app in Hnd. apply NoDup_app in Hnd as (_ & Hd1 & [Hd2 _]%NoDup_cons).
  pose proof Fs as Fs'. apply sorted_app in Fs' as [Fs1 (Hlo & Hk & Fs2)].
  split; [split|].
  - replace ((L1 ++ (p, sz - n) :: L2).*1) with (L.*1) by by rewrite /L !fmap_app.
    eapply upath_ext; [|exact Fp]. intros x Hx%sources_snoc. by apply Hptr.
  - rewrite Hs //; [left|]. destruct (sorted_above _ _ _ _ Fs Hpin). lia.
  - intros b k [Hin|[[= -> ->]|Hin]%elem_of_cons]%elem_of_app.
    + assert ((b, k) ∈ L) by (apply elem_of_app; by left). rewrite Hs; [by apply Fz|by eapply node_in|].
      intros ->. apply (Hd1 p); [apply elem_of_fst; eauto|left].
    + rewrite (touched_size _ _ _ _ Ht2); [|apply Hap'; by eapply node_in]. rewrite ld32_st32. apply u32_id. lia.
    + assert ((b, k) ∈ L) by (apply elem_of_app; right; by right). rewrite Hs; [by apply Fz|by eapply node_in|].
      intros ->. apply Hd2, elem_of_fst. eauto.
  - apply sorted_app. split; [done|]. simpl. split_and!; [done|lia|]. eapply sorted_mono; [|done]. lia.
  - rewrite ld32_st32. apply u32_id. lia.
Qed.

(** The other free blocks. *)
Lemma other_blocks lo L1 L2 p sz b k :
  sorted lo (L1 ++ (p, sz) :: L2) → (b, k) ∈ L1 ++ L2 →
  (b, k) ∈ L1 ++ (p, sz) :: L2 ∧ disjoint p sz b k ∧ 0 < k.
Proof.
  intros Hs Hin. pose proof (sorted_nodup _ _ Hs) as Hnd. rewrite fmap_app in Hnd.
  apply NoDup_app in Hnd as (_ & Hd1 & [Hd2 _]%NoDup_cons).
  assert ((b, k) ∈ L1 ++ (p, sz) :: L2) as Hb.
  { rewrite elem_of_app elem_of_cons. rewrite elem_of_app in Hin. tauto. }
  destruct (sorted_above _ _ _ _ Hs Hb). split; [done|]. split; [|done].
  eapply sorted_disjoint; [done|apply elem_of_app; right; left|done|]. intros <-.
  apply elem_of_app in Hin as [Hin|Hin]; [apply (Hd1 p); [apply elem_of_fst; eauto|left]|apply Hd2, elem_of_fst; eauto].
Qed.

Lemma taken_whole lo L1 L2 p sz : sorted lo (L1 ++ (p, sz) :: L2) → taken (L1 ++ (p, sz) :: L2) p sz (L1 ++ L2).
Proof.
  intros Hs. split; [|intros b k Hb|rewrite !length_app /=; lia].
  - exists p, sz. split; [apply elem_of_app; right; left|lia].
  - destruct (other_blocks _ _ _ _ _ _ _ Hs Hb) as (? & ? & ?). split; [done|]. by exists k.
Qed.

Lemma taken_end lo L1 L2 p sz n :
  sorted lo (L1 ++ (p, sz) :: L2) → 0 < n < sz →
  taken (L1 ++ (p, sz) :: L2) (p + 16 * (sz - n)) n (L1 ++ (p, sz - n) :: L2).
Proof.
  intros Hs Hn. assert ((p, sz) ∈ L1 ++ (p, sz) :: L2) as Hp by (apply elem_of_app; right; left).
  split; [exists p, sz; split; [done|lia]|intros b k Hb|by rewrite !length_app].
  assert ((b, k) = (p, sz - n) ∨ (b, k) ∈ L1 ++ L2) as [[= -> ->]|Hb'].
  { rewrite elem_of_app elem_of_cons in Hb. rewrite elem_of_app. tauto. }
  - split; [unfold disjoint; lia|]. exists sz. split; [done|lia].
  - destruct (other_blocks _ _ _ _ _ _ _ Hs Hb') as (? & ? & ?). split; [unfold disjoint in *; lia|]. by exists k.
Qed.

Lemma wp_take_block L A s prevp p sz n :
  heap L A s → (p, sz) ∈ L → prevp ∈ base :: L.*1 → ld64 (um s) prevp = p → 0 < n ≤ sz →
  wp (take_block n prevp p sz) (λ r s', kept A (um s) (um s') ∧ u_os s' = u_os s ∧ ∃ q L', r = inl (q + 16) ∧
    A !! q = None ∧ heap L' (<[q := n]> A) s' ∧ (length L' ≤ length L)%nat) s.
Proof.
  intros Hh Hin Hprev Eprev Hn. pose proof (hp_list _ _ _ Hh) as Hfl. pose proof (fl_sorted _ _ Hfl) as Hso.
  pose proof (hp_top _ _ _ Hh _ _ Hin) as Htop. destruct (sorted_above _ _ _ _ Hso Hin) as [Hpb _].
  pose proof (Hbrk (u_os s)). destruct (hp_base _ _ _ Hh) as [Hb0 _].
  apply list_elem_of_split in Hin as (L1 & L2 & ->).
  rewrite /take_block /ptr_of /set_ptr /set_size /load64 /store64 /store32.
  destruct (Z.eqb_spec sz n) as [->|Hne].
  - uwp_steps. pose proof (pred_unique _ _ _ _ _ _ Hfl Hprev Eprev) as Eq.
    destruct (flist_unlink _ _ _ _ _ _ Hfl Eq) as (Hfl' & Hsz & Hf). set m := st64 _ _ _ in Hfl' Hsz |- *.
    destruct (heap_taken _ _ s p n (L1 ++ L2) m prevp Hh) as (Hh' & Hk & Hp); try done; try lia.
    + by eapply taken_whole.
    + intros x Hx _. apply touched_st64. by apply Hx.
    + split; [done|]. split; [done|]. exists p, (L1 ++ L2). split_and!; try done. rewrite !length_app /=. lia.
  - uwp_steps. destruct (flist_split _ _ _ _ _ n Hfl) as [Hfl' Hsz]; [lia|lia|]. simpl.
    set m := st32 _ _ _ in Hfl' Hsz |- *. set q := p + 16 * (sz - n) in Hsz |- *.
    destruct (heap_taken _ _ s q n (L1 ++ (p, sz - n) :: L2) m prevp Hh) as (Hh' & Hk & Hp); try done; try lia.
    + eapply taken_end; [done|lia].
    + replace ((L1 ++ (p, sz - n) :: L2).*1) with ((L1 ++ (p, sz) :: L2).*1); [done|]. by rewrite !fmap_app.
    + intros x Hx Hxq. rewrite (touched_st32 _ q n x Hxq). apply touched_st32, Hx. eapply node_in, elem_of_app. right. left.
    + split; [done|]. split; [done|]. exists q, (L1 ++ (p, sz - n) :: L2). split_and!; try done. by rewrite !length_app.
Qed.

(** ** [malloc] *)

(** A block of [n] units that was not in use is handed out. *)
Definition found (N : nat) (A : gmap Z Z) (n : Z) (s : user O) (r : Z + uend) (s' : user O) : Prop :=
  kept A (um s) (um s') ∧ u_os s' = u_os s ∧
  ∃ L' q, (length L' ≤ N)%nat ∧ r = inl (q + 16) ∧ A !! q = None ∧ heap L' (<[q := n]> A) s'.

(** No free block has [n] units and the system does not give more. *)
Definition starved (L : list (Z * Z)) (n : Z) (o : O) : Prop := (∀ b k, (b, k) ∈ L → k < n) ∧ refused n o.

(** What [malloc] gives for [n] units: such a block, or 0 if there is no memory. *)
Definition got (L : list (Z * Z)) (A : gmap Z Z) (n : Z) (s : user O) (r : Z + uend) (s' : user O) : Prop :=
  kept A (um s) (um s') ∧ ∃ L', (length L' ≤ S (length L))%nat ∧
    ((r = inl 0 ∧ starved L n (u_os s) ∧ heap L' A s') ∨ ∃ q, r = inl (q + 16) ∧ A !! q = None ∧ heap L' (<[q := n]> A) s').

(** A node on the way around the list that is large enough is taken. *)
Lemma take_on_way L A s W f n N X p Y :
  heap L A s → f ∈ base :: L.*1 → upath (um s) f (W ++ [f]) → W ++ [f] ≡ₚ base :: L.*1 → 0 < n → (length L ≤ N)%nat →
  W ++ [f] = X ++ p :: Y → n ≤ ld32 (um s) (p + 8) →
  wp (take_block n (endp f X) p (ld32 (um s) (p + 8))) (found N A n s) s.
Proof.
  intros Hh Hf HW Hperm Hn HN E Hle. pose proof (hp_list _ _ _ Hh) as [_ Fb Fz _].
  assert (p ∈ base :: L.*1) as Hp by (rewrite -Hperm E; apply elem_of_app; right; left).
  apply elem_of_cons in Hp as [->|[k Hp]%elem_of_fst]; [lia|]. rewrite (Fz _ _ Hp) in Hle |- *.
  eapply wp_mono; [apply (wp_take_block L A); try done|].
  - pose proof (endp_in f X) as [->|Hx]%elem_of_cons; [done|]. rewrite -Hperm E. apply elem_of_app. by left.
  - rewrite E in HW. by apply upath_app in HW as [_ [-> _]].
  - intros r s' (Hk & Ho & q & L' & -> & Hq & Hh' & Hlen). split; [done|]. split; [done|]. exists L', q. split; [lia|done].
Qed.

Lemma found_got L A n s r s' : found (S (length L)) A n s r s' → got L A n s r s'.
Proof. intros (Hk & _ & L' & q & HL & -> & Hq & Hh). split; [done|]. exists L'. split; [done|]. right. by exists q. Qed.

(** With a large enough block on the list, the search finds one. *)
Lemma wp_malloc_found L A s n fuel :
  heap L A s → supplied L n (u_freep s) (um s) → 0 < n → (length L + 1 < fuel)%nat →
  wp (malloc_loop fuel n (u_freep s) (ld64 (um s) (u_freep s))) (found (length L) A n s) s.
Proof.
  intros Hh (q & k & Hq & Hk & _) Hn Hf. pose proof (hp_list _ _ _ Hh) as Hfl.
  destruct (around _ _ _ Hfl (hp_freep _ _ _ Hh)) as (W & HW & Hnin & Hperm).
  eapply (wp_malloc_walk W _ _ _ (u_freep s)); [done|done|done| | | |].
  - intros x Hx. eapply heap_nonzero; [done|]. rewrite -Hperm. apply elem_of_app. by left.
  - apply Permutation_length in Hperm. rewrite length_app /= length_fmap in Hperm. lia.
  - intros X p Y. eapply take_on_way; [done|apply Hh|done|done|done|done].
  - intros Hall. assert (q ∈ W ++ [u_freep s]) as Hx by (rewrite Hperm; by eapply node_in).
    specialize (Hall q Hx). rewrite (fl_sizes _ _ Hfl _ _ Hq) in Hall. lia.
Qed.

(** [sbrk] gives the old end of memory and moves it, or -1. *)
Context (Hsbrk : ∀ n o, 0 < n → 0 ≤ brk o →
  let '(r, o') := os_sbrk n o in (r = -1 ∧ brk o' = brk o) ∨ (r = brk o ∧ brk o' = brk o + n)).

Lemma wp_morecore L A s nu fuel :
  heap L A s → 0 < nu < 2 ^ 27 → (length L + 2 ≤ fuel)%nat → wp (morecore fuel nu) (more_post L A nu s) s.
Proof.
  intros Hh Hnu Hf. rewrite /morecore. set n := if nu <? 4096 then 4096 else nu.
  assert (nu ≤ n ∧ 0 < n < 2 ^ 27) as [Hn1 Hn2] by (subst n; destruct (Z.ltb_spec nu 4096); lia).
  replace (s32 (n * 16)) with (n * 16) by (unfold s32; dlia).
  destruct (hp_base _ _ _ Hh) as [Hb Hbb]. apply uwp_bind. eapply (wp_call (os_sbrk (n * 16))).
  assert (Z.max 4096 nu = n) as En by (subst n; destruct (Z.ltb_spec nu 4096); lia).
  pose proof (Hsbrk (n * 16) (u_os s)) as Hl. rewrite /more_post /refused En. destruct (os_sbrk (n * 16) (u_os s)) as [p o].
  destruct Hl as [[-> Ho]|[-> Ho]]; [lia|lia|..]; simpl.
  - apply uwp_ret. split; [done|]. left. split; [done|]. split; [done|]. apply heap_os; [done|lia].
  - rewrite (proj2 (Z.eqb_neq (brk (u_os s)) (-1))); [|lia].
    eapply wp_mono; [apply (wp_new_block L A (set_os o s) (brk (u_os s)) n nu)|intros r s' (_ & ? & ?); split; [done|by right]];
      [apply heap_os; [done|lia]|apply Hh| |done|simpl; lia|lia|done|done].
    intros b k Hin. by apply (hp_live _ _ _ Hh).
Qed.

Lemma wp_malloc_loop L A s n fuel :
  heap L A s → 0 < n < 2 ^ 27 → (2 * length L + 6 ≤ fuel)%nat →
  wp (malloc_loop fuel n (u_freep s) (ld64 (um s) (u_freep s))) (got L A n s) s.
Proof.
  intros Hh Hn Hf. pose proof (hp_list _ _ _ Hh) as Hfl.
  destruct (around _ _ _ Hfl (hp_freep _ _ _ Hh)) as (W & HW & Hnin & Hperm).
  assert (length W = length L) as HWL.
  { apply Permutation_length in Hperm. rewrite length_app /= length_fmap in Hperm. lia. }
  eapply (wp_malloc_walk W _ _ _ (u_freep s)); [done|done|done| |lia| |].
  - intros x Hx. eapply heap_nonzero; [done|]. rewrite -Hperm. apply elem_of_app. by left.
  - intros X p Y HX Hle.
    eapply wp_mono; [apply (take_on_way L A s W _ n (S (length L)) X p Y Hh (hp_freep _ _ _ Hh) HW Hperm); [lia|lia|done|done]|].
    intros r s'. apply found_got.
  - intros Hall fuel' ->. apply uwp_bind. eapply wp_mono; [apply (wp_morecore L A); [done|done|lia]|].
    intros r s1 (Hk & [(-> & Hrf & Hh1)|(L' & -> & Hh1 & HL' & Hsup)]).
    + apply uwp_ret. split; [done|]. exists L. split; [lia|]. left. split_and!; [done| |done]. split; [|done].
      intros b k Hb. rewrite -(fl_sizes _ _ Hfl _ _ Hb). apply Hall. rewrite Hperm. by eapply node_in.
    + rewrite (proj2 (Z.eqb_neq _ 0)); [|by eapply heap_nonzero, hp_freep]. rewrite /ptr_of /load64. apply uwp_bind, uwp_gets.
      eapply wp_mono; [apply (wp_malloc_found L' A); [done|done|lia|lia]|].
      intros r s2 (Hk2 & _ & L2 & q & HL2 & Hr). split; [by eapply kept_trans|]. exists L2. split; [lia|]. right. by exists q.
Qed.

(** The heap, also before the first call of [malloc]. *)
Definition ready (L : list (Z * Z)) (A : gmap Z Z) (s : user O) : Prop :=
  heap L A s ∨ (u_freep s = 0 ∧ L = [] ∧ A = ∅ ∧ 0 < base ∧ base + 16 ≤ brk (u_os s)).

Lemma heap_init m s :
  0 < base → base + 16 ≤ brk (u_os s) → u_freep s = base → heap [] ∅ (set_um (st32 (st64 m base base) (base + 8) 0) s).
Proof.
  intros Hb Hbb Ef. pose proof (Hbrk (u_os s)).
  split; simpl; try (intros ??; by rewrite lookup_empty); try (intros ????; by rewrite lookup_empty);
    [|rewrite Ef; left|by intros ?? ?%elem_of_nil|done].
  split; simpl; [|rewrite ld32_st32 //|by intros ?? ?%elem_of_nil|done].
  split; [|done]. rewrite ld64_st32 ld64_st64. apply Z.mod_small. lia.
Qed.

Lemma wp_malloc L A s nbytes fuel :
  ready L A s → 0 ≤ nbytes < 2 ^ 31 - 64 → (2 * length L + 6 ≤ fuel)%nat →
  wp (malloc base fuel nbytes) (got L A (units nbytes) s) s.
Proof.
  intros Hr Hn Hf. rewrite /malloc. apply uwp_bind, uwp_gets.
  assert (0 < units nbytes < 2 ^ 27) as Hu by (unfold units; dlia).
  destruct Hr as [Hh|(-> & -> & -> & Hb & Hbb)].
  - rewrite (proj2 (Z.eqb_neq _ 0)); [|by eapply heap_nonzero, hp_freep]. rewrite /ptr_of /load64. apply uwp_bind, uwp_ret, uwp_bind, uwp_gets.
    by apply wp_malloc_loop.
  - rewrite /= /set_ptr /set_size /store64 /store32 /ptr_of /load64. uwp_steps. simpl.
    set s1 := set_um _ _. assert (heap [] ∅ s1) as Hh by by apply heap_init.
    change (ld64 _ base) with (ld64 (um s1) (u_freep s1)). change base with (u_freep s1) at 1.
    eapply wp_mono; [by apply (wp_malloc_loop [] ∅)|]. intros r s2 [_ Hr]. split; [intros a n x; by rewrite lookup_empty|done].
Qed.

(** ** Programs that use the heap *)

Inductive op := Malloc (nbytes : Z) | Free (p : Z).

Definition run (fuel : nat) (o : op) : U O Z :=
  match o with
  | Malloc nbytes => malloc base fuel nbytes
  | Free p => free fuel p;; mret 0
  end.

(** What a program may do: [malloc] of less than 2 GB, [free] of a pointer it
    got and has not freed. *)
Definition may (A : gmap Z Z) (o : op) : Prop :=
  match o with
  | Malloc nbytes => 0 ≤ nbytes < 2 ^ 31 - 64
  | Free p => is_Some (A !! (p - 16))
  end.

(** The result: [L] are the free blocks and [sys] the system before the call. *)
Definition result (L : list (Z * Z)) (A : gmap Z Z) (sys : O) (o : op) (r : Z) (A' : gmap Z Z) : Prop :=
  match o with
  | Malloc nbytes =>
      (r = 0 ∧ A' = A ∧ starved L (units nbytes) sys) ∨
      ∃ n, A !! (r - 16) = None ∧ A' = <[r - 16 := n]> A ∧ nbytes ≤ 16 * (n - 1)
  | Free p => A' = delete (p - 16) A
  end.

(** C8: the heap is safe.  Take any state of the heap, with any blocks [A]
    handed out, and a call of [malloc] for less than 2 GB or a [free] of a
    block in [A].  The call returns.  [malloc] returns a pointer to a new block
    at least as large as asked for, or 0, and that only when no free block is
    large enough and [sbrk] refuses more memory; [free] takes back just its
    block.  In the state after it the
    heap is well formed again: the blocks handed out do not overlap each other
    or the free memory, their headers are intact, the free list is sorted and
    coalesced, and the contents of the blocks that were and still are in use
    have not changed. *)
Theorem malloc_free_safe L A s o fuel :
  ready L A s → may A o → (2 * length L + 6 ≤ fuel)%nat →
  wp (run fuel o) (λ r s', ∃ v L' A', r = inl v ∧ result L A (u_os s) o v A' ∧ ready L' A' s' ∧ (length L' ≤ S (length L))%nat ∧
    ∀ a n x, A !! a = Some n → A' !! a = Some n → a + 16 ≤ x < a + 16 * n → ld8 (um s') x = ld8 (um s) x) s.
Proof.
  intros Hr Hm Hf. destruct o as [nbytes|p]; simpl in *.
  - eapply wp_mono; [by apply wp_malloc|]. intros r s' (Hk & L' & HL' & [(-> & Hst & Hh)|(q & -> & Hq & Hh)]).
    + exists 0, L', A. split; [done|]. split; [by left|]. split; [by left|]. split; [done|].
      intros a n x Ha _. by eapply Hk.
    + exists (q + 16), L', (<[q := units nbytes]> A). replace (q + 16 - 16) with q by lia.
      split; [done|]. split; [right; exists (units nbytes); split_and!; [done|done|unfold units; dlia]|].
      split; [by left|]. split; [done|]. intros a n x Ha _. by eapply Hk.
  - destruct Hm as [n Hn]. destruct Hr as [Hh|(_ & _ & -> & _)]; [|by rewrite lookup_empty in Hn].
    apply uwp_bind. replace p with (p - 16 + 16) at 1 by lia. eapply wp_mono; [eapply (wp_free L A); [done..|lia]|].
    intros r s' (-> & _ & Hk & L' & Hh' & HL'). apply uwp_ret. exists 0, L', (delete (p - 16) A).
    split; [done|]. split; [done|]. split; [by left|]. split; [done|].
    intros a k x _ Ha Hx. by eapply Hk.
Qed.

End runs.

(** ** Requests that are too large *)

Section huge.
Context {O : Type} `{Os O} (base : Z).

(** [malloc] of 4 GB less one byte does not fail and does not give that
    much memory.  [nu * sizeof(Header)] does not fit the [int] argument of
    [sbrk], so [morecore] asks for 16 bytes, and the header it writes says that
    they are 2^28 + 1 units.  [malloc] returns a pointer although the process
    has grown by one header: its memory ends, at [a + 16], within the block. *)
Lemma malloc_huge s fuel a o' :
  u_freep s = 0 → 0 < base → base + 16 ≤ a → a < 2 ^ 32 → os_sbrk 16 (u_os s) = (a, o') → (8 ≤ fuel)%nat →
  wp (malloc base fuel (2 ^ 32 - 1)) (λ r s', u_os s' = o' ∧ ∃ p, r = inl p ∧ p ≠ 0 ∧ a + 16 < p + (2 ^ 32 - 1)) s.
Proof.
  intros Hf0 Hb Hba Ha Hs Hf. destruct fuel as [|fuel]; [lia|]. set n := 2 ^ 28 + 1.
  assert (∀ o : O, (λ _, a + 16 * n) o ≤ 2 ^ 36) as Hbrk by (intros; simpl; lia).
  rewrite /malloc. change (units (2 ^ 32 - 1)) with n. apply uwp_bind, uwp_gets.
  rewrite Hf0 /= /set_ptr /set_size /store64 /store32 /ptr_of /load64.
  uwp_steps. simpl. set s1 := set_um _ _.
  assert (heap base (λ _, a + 16 * n) [] ∅ s1) as Hh by (apply heap_init; [done|done|simpl; lia|done]).
  rewrite /size_of /load32 /load64. uwp_steps.
  assert (ld64 (st32 (st64 (um s) base base) (base + 8) 0) base = base) as ->
    by (rewrite ld64_st32 ld64_st64; apply Z.mod_small; lia).
  rewrite ld32_st32. change (n <=? u32 0) with false. cbv iota. apply uwp_bind, uwp_gets. rewrite Z.eqb_refl.
  apply uwp_bind. rewrite /morecore. change (n <? 4096) with false. cbv iota zeta. change (s32 (n * 16)) with 16.
  apply uwp_bind. eapply (wp_call (os_sbrk 16)). change (u_os s1) with (u_os s). rewrite Hs /=. rewrite (proj2 (Z.eqb_neq a (-1))); [|lia].
  eapply wp_mono; [apply (wp_new_block base _ Hbrk [] ∅ (set_os o' s1) a n n); try done|].
  { apply heap_os; [done|simpl; lia]. } { by intros ?? ?%elem_of_nil. } { simpl; lia. }
  intros r s2 (Ho & _ & L' & -> & Hh2 & HL' & Hsup).
  rewrite (proj2 (Z.eqb_neq _ 0)); [|eapply heap_nonzero; [done|apply Hh2]].
  apply uwp_bind, uwp_gets. eapply wp_mono; [apply (wp_malloc_found base _ Hbrk L' ∅); [done|done|done|simpl in HL'; lia]|].
  intros r s3 (_ & Ho3 & L3 & q & _ & -> & _ & Hh3). rewrite Ho3 Ho. split; [done|].
  destruct (hp_live _ _ _ _ _ Hh3 q n) as (_ & Hq & _); [apply lookup_insert_eq|]. exists (q + 16). split; [done|].
  lia.
Qed.
End huge.

End Umalloc.

(** ** Runs on a small system *)

(** A system with nothing but memory, up to 1 GB. *)
Definition mem_brk (o : Z) : Z := Z.min o (2 ^ 30).

#[local] Instance mem_os : Os Z := {|
  os_fork o := (-1, o);
  os_wait o := (-1, o);
  os_pipe o := (None, o);
  os_write _ _ o := (-1, o);
  os_read _ _ o := (-1, [], o);
  os_close _ o := (-1, o);
  os_kill _ o := (-1, o);
  os_exec _ _ o := (false, o);
  os_open _ _ o := (-1, o);
  os_mknod _ _ _ o := (-1, o);
  os_unlink _ o := (-1, o);
  os_fstat _ o := (None, o);
  os_link _ _ o := (-1, o);
  os_mkdir _ o := (-1, o);
  os_chdir _ o := (-1, o);
  os_dup _ o := (-1, o);
  os_getpid o := (1, o);
  os_sbrk n o := if mem_brk o + n <=? 2 ^ 30 then (mem_brk o, mem_brk o + n) else (-1, o);
  os_sleep _ o := (-1, o);
  os_uptime o := (0, o);
|}.

Lemma mem_brk_le o : mem_brk o ≤ 2 ^ 36.
Proof. unfold mem_brk. lia. Qed.

Lemma mem_os_sbrk n o :
  0 < n → 0 ≤ mem_brk o →
  let '(r, o') := os_sbrk n o in (r = -1 ∧ mem_brk o' = mem_brk o) ∨ (r = mem_brk o ∧ mem_brk o' = mem_brk o + n).
Proof. intros Hn Ho. simpl. destruct (Z.leb_spec (mem_brk o + n) (2 ^ 30)); [right|by left]. unfold mem_brk in *. lia. Qed.

(** The first [malloc] of a process whose memory ends at 8192. *)
Lemma malloc_free_safe_witness :
  wp (Umalloc.run 4096 6 (Umalloc.Malloc 100)) (λ r s', ∃ v L' A', r = inl v ∧ Umalloc.result [] ∅ 8192 (Umalloc.Malloc 100) v A' ∧
    Umalloc.ready 4096 mem_brk L' A' s' ∧ (length L' ≤ 1)%nat ∧
    ∀ a n x, (∅ : gmap Z Z) !! a = Some n → A' !! a = Some n → a + 16 ≤ x < a + 16 * n → ld8 (um s') x = ld8 ∅ x)
    (mk_user ∅ 0 8192).
Proof.
  apply (Umalloc.malloc_free_safe 4096 mem_brk mem_brk_le mem_os_sbrk []
    ∅ (mk_user ∅ 0 8192) (Umalloc.Malloc 100) 6).
  - right. split_and!; done.
  - simpl. lia.
  - simpl. lia.
Defined.

