(* ===== verification/Grep.v ===== *)
(** * grep (user/grep.c)

    The matcher works on strings, so a pattern and a text are the lists of
    their characters.  [grep] works on the buffer in memory: it appends what
    [read] gives, cuts the lines off the front, and moves the rest down.

    The theorems: the matcher decides membership in the language of the
    pattern, and [grep] prints the matching lines of its input, however [read]
    cuts it into pieces. *)

From S2P Require Import Prelude Mem Cstring Fs User Ulib.
Import Ulib Uprintf.

Module Grep.

Notation CARET := 94.
Notation STAR := 42.
Notation DOLLAR := 36.
Notation DOT := 46.
Notation NL := 10.
Notation O_RDONLY := 0.

(** ** The matcher *)

(** The loop of [matchstar]: the character [c] any number of times, then what
    [here] matches. *)
Fixpoint star_loop (here : list Z → bool) (c : Z) (text : list Z) : bool :=
  here text ||
  match text with
  | [] => false
  | t :: text' => ((t =? c) || (c =? DOT)) && star_loop here c text'
  end.

Fixpoint matchhere (re text : list Z) : bool :=
  match re with
  | [] => true
  | r0 :: re1 =>
      let one := match text with
                 | [] => false
                 | t :: text' => ((r0 =? DOT) || (r0 =? t)) && matchhere re1 text'
                 end in
      match re1 with
      | r1 :: re2 => if r1 =? STAR then star_loop (matchhere re2) r0 text else one
      | [] => if r0 =? DOLLAR then bool_decide (text = []) else one
      end
  end.

Definition matchstar (c : Z) (re text : list Z) : bool := star_loop (matchhere re) c text.

(** The loop of [match] over the suffixes of the text, the empty one too. *)
Fixpoint match_loop (re text : list Z) : bool :=
  matchhere re text ||
  match text with
  | [] => false
  | _ :: text' => match_loop re text'
  end.

Definition match_ (re text : list Z) : bool :=
  match re with
  | r0 :: re1 => if r0 =? CARET then matchhere re1 text else match_loop re text
  | [] => match_loop re text
  end.

(** ** The program *)

Section grep.
Context {O : Type} `{Os O} (buf : Z).

(** The loop over the lines in the buffer from [p]; the result is the last [p]. *)
Fixpoint grep_lines (fuel : nat) (pattern p : Z) : U O Z :=
  match fuel with
  | 0%nat => uout_of_fuel
  | S fuel =>
      q ← strchr p NL;
      if q =? 0 then mret p
      else
        store8 q 0;;
        re ← ugets (λ s, cstring (um s) pattern);
        text ← ugets (λ s, cstring (um s) p);
        (if match_ re text then
           store8 q NL;;
           write 1 p (q + 1 - p);;
           mret tt
         else mret tt);;
        grep_lines fuel pattern (q + 1)
  end.

Fixpoint grep_loop (fuel : nat) (pattern fd m : Z) : U O unit :=
  match fuel with
  | 0%nat => uout_of_fuel
  | S fuel =>
      n ← read fd (buf + m) (1024 - m - 1);
      if 0 <? n then
        let m := m + n in
        store8 (buf + m) 0;;
        p ← grep_lines 1024 pattern buf;
        if 0 <? m then
          let m := m - (p - buf) in
          memmove buf p m;;
          grep_loop fuel pattern fd m
        else grep_loop fuel pattern fd m
      else mret tt
  end.

Definition grep (fuel : nat) (pattern fd : Z) : U O unit := grep_loop fuel pattern fd 0.

Fixpoint grep_files (fuel : nat) (pattern : Z) (files : list Z) : U O unit :=
  match files with
  | [] => mret tt
  | a :: files =>
      fd ← open a O_RDONLY;
      if fd <? 0 then
        printf (chars "grep: cannot open %s" ++ [NL]) [VStr a];;
        exit 1
      else
        grep fuel pattern fd;;
        close fd;;
        grep_files fuel pattern files
  end.

Definition main (fuel : nat) (argv : list Z) : U O Z :=
  match argv with
  | _ :: pattern :: files =>
      match files with
      | [] => grep fuel pattern 0;; exit 0
      | _ => grep_files fuel pattern files;; exit 0
      end
  | _ => fprintf 2 (chars "usage: grep pattern [file ...]" ++ [NL]) [];; exit 1
  end.
End grep.

(** ** Patterns as regular expressions *)

Inductive regex := Eps | Chr (c : Z) | Any | Seq (r1 r2 : regex) | Star (r : regex).

Inductive lang : regex → list Z → Prop :=
| lang_eps : lang Eps []
| lang_chr c : lang (Chr c) [c]
| lang_any c : lang Any [c]
| lang_seq r1 r2 w1 w2 : lang r1 w1 → lang r2 w2 → lang (Seq r1 r2) (w1 ++ w2)
| lang_star_nil r : lang (Star r) []
| lang_star_app r w1 w2 : lang r w1 → lang (Star r) w2 → lang (Star r) (w1 ++ w2).

Definition atom (c : Z) : regex := if c =? DOT then Any else Chr c.

(** A pattern without its anchor [^]: the expression, and whether [$] ends it. *)
Fixpoint compile (re : list Z) : regex * bool :=
  match re with
  | [] => (Eps, false)
  | c :: re1 =>
      match re1 with
      | x :: re2 =>
          if x =? STAR then (Seq (Star (atom c)) (compile re2).1, (compile re2).2)
          else (Seq (atom c) (compile re1).1, (compile re1).2)
      | [] => if c =? DOLLAR then (Eps, true) else (Seq (atom c) Eps, false)
      end
  end.

(** A text contains a match: a part [w] in the language, at the start when the
    pattern begins with [^] and at the end when it ends with [$]. *)
Definition contains (re text : list Z) : Prop :=
  let caret := bool_decide (head re = Some CARET) in
  let '(r, dollar) := compile (if caret then tail re else re) in
  ∃ pre w post, text = pre ++ w ++ post ∧ lang r w ∧ (caret = true → pre = []) ∧ (dollar = true → post = []).

(** ** The matcher decides the language *)

(** [text] starts with a word of [r], which is all of it if [dollar]. *)
Definition starts (r : regex * bool) (text : list Z) : Prop :=
  ∃ w post, text = w ++ post ∧ lang r.1 w ∧ (r.2 = true → post = []).

Lemma lang_atom c w : lang (atom c) w ↔ ∃ t, w = [t] ∧ (t = c ∨ c = DOT).
Proof.
  rewrite /atom. split.
  - destruct (Z.eqb_spec c DOT) as [->|]; inversion 1; subst; eauto.
  - intros (t & -> & [->| ->]); [|constructor]. destruct (_ =? _); constructor.
Qed.

Lemma starts_atom c r d text :
  starts (Seq (atom c) r, d) text ↔ ∃ t text', text = t :: text' ∧ (t = c ∨ c = DOT) ∧ starts (r, d) text'.
Proof.
  split.
  - intros (w & post & -> & Hl & Hd). inversion Hl as [| | |? ? w1 w2 H1 H2| |]; subst.
    apply lang_atom in H1 as (t & -> & Ht). exists t, (w2 ++ post). split; [done|]. split; [done|]. by exists w2, post.
  - intros (t & text' & -> & Ht & w & post & -> & Hl & Hd). exists (t :: w), post. split; [done|]. split; [|done].
    apply (lang_seq _ _ [t]); [|done]. apply lang_atom. eauto.
Qed.

Lemma starts_star c r d text :
  starts (Seq (Star (atom c)) r, d) text ↔
  starts (r, d) text ∨ ∃ t text', text = t :: text' ∧ (t = c ∨ c = DOT) ∧ starts (Seq (Star (atom c)) r, d) text'.
Proof.
  split.
  - intros (w & post & -> & Hl & Hd). inversion Hl as [| | |? ? w1 w2 H1 H2| |]; subst.
    inversion H1 as [| | | |?|? v1 v2 H3 H4]; subst; [left; by exists w2, post|]. right.
    apply lang_atom in H3 as (t & -> & Ht). exists t, (v2 ++ w2 ++ post). rewrite /= -app_assoc. split; [done|]. split; [done|].
    exists (v2 ++ w2), post. rewrite -app_assoc. split; [done|]. split; [by constructor|done].
  - intros [(w & post & -> & Hl & Hd)|(t & text' & -> & Ht & w & post & -> & Hl & Hd)].
    + exists w, post. split; [done|]. split; [|done]. apply (lang_seq _ _ []); [constructor|done].
    + exists (t :: w), post. split; [done|]. split; [|done]. inversion Hl as [| | |? ? w1 w2 H1 H2| |]; subst.
      apply (lang_seq _ _ (t :: w1)); [|done]. apply (lang_star_app _ [t]); [|done]. apply lang_atom. eauto.
Qed.

Lemma atom_test t c : (t =? c) || (c =? DOT) = true ↔ t = c ∨ c = DOT.
Proof. by rewrite orb_true_iff !Z.eqb_eq. Qed.

Lemma star_loop_spec here c r d text :
  (∀ t, here t = true ↔ starts (r, d) t) → star_loop here c text = true ↔ starts (Seq (Star (atom c)) r, d) text.
Proof.
  intros Hh. induction text as [|t text IH]; rewrite starts_star /= orb_true_iff Hh.
  - split; [intros [?|?]; [by left|done]|]. intros [?|(t & text' & ? & _)]; [by left|done].
  - rewrite andb_true_iff atom_test IH. split.
    + intros [?|[? ?]]; [by left|]. right. by exists t, text.
    + intros [?|(t' & text' & [= -> ->] & ? & ?)]; [by left|by right].
Qed.

Lemma matchhere_atom c re text r d :
  (∀ t, matchhere re t = true ↔ starts (r, d) t) →
  match text with [] => false | t :: text' => ((c =? DOT) || (c =? t)) && matchhere re text' end = true ↔
  starts (Seq (atom c) r, d) text.
Proof.
  intros Hre. rewrite starts_atom. destruct text as [|t text]; [by split; [|intros (? & ? & ? & _)]|].
  rewrite andb_true_iff orb_true_iff !Z.eqb_eq Hre. split.
  - intros [Hc ?]. exists t, text. split; [done|]. split; [|done]. destruct Hc; auto.
  - intros (t' & text' & [= -> ->] & Hc & ?). split; [|done]. destruct Hc; auto.
Qed.

Lemma matchhere_spec re text : matchhere re text = true ↔ starts (compile re) text.
Proof.
  revert text. induction (Nat.lt_wf_0_projected (length : list Z → nat) re) as [re _ IH]; intros text.
  destruct re as [|c [|x re]].
  - split; [intros _|done]. by exists [], text; repeat constructor.
  - cbn [matchhere compile]. destruct (Z.eqb_spec c DOLLAR) as [->|Hc].
    + rewrite bool_decide_eq_true. split; [intros ->; by exists [], []; repeat constructor|].
      intros (w & post & -> & Hl & Hd). inversion Hl. by rewrite Hd.
    + apply (matchhere_atom c []). intros t. apply (IH []). simpl. lia.
  - cbn [matchhere compile]. destruct (Z.eqb_spec x STAR) as [->|Hx].
    + rewrite (surjective_pairing (compile re)) /=. apply star_loop_spec. intros t.
      rewrite -surjective_pairing. apply IH. simpl. lia.
    + apply (matchhere_atom c (x :: re)). intros t. rewrite -surjective_pairing. apply (IH (x :: re)). simpl. lia.
Qed.

Lemma match_loop_starts re text :
  match_loop re text = true ↔ ∃ pre text', text = pre ++ text' ∧ starts (compile re) text'.
Proof.
  induction text as [|t text IH]; simpl; rewrite orb_true_iff matchhere_spec.
  - split.
    + intros [?|?]; [|done]. by exists [], [].
    + intros (pre & text' & E & ?). symmetry in E. apply app_nil in E as [-> ->]. by left.
  - rewrite IH. split.
    + intros [?|(pre & text' & -> & ?)]; [by exists [], (t :: text)|by exists (t :: pre), text'].
    + intros ([|t' pre] & text' & E & ?); simpl in E; [subst; by left|]. injection E as -> ->. right. eauto.
Qed.

Lemma match_loop_spec re text :
  match_loop re text = true ↔
  ∃ pre w post, text = pre ++ w ++ post ∧ lang (compile re).1 w ∧ ((compile re).2 = true → post = []).
Proof.
  rewrite match_loop_starts. split.
  - intros (pre & text' & -> & w & post & -> & ? & ?). by exists pre, w, post.
  - intros (pre & w & post & -> & ? & ?). exists pre, (w ++ post). split; [done|]. by exists w, post.
Qed.

(** C15: the matcher is correct.  [match_] accepts a text just when the text
    contains a word of the regular language of the pattern: [.] is any
    character, [*] any number of the character before it, [^] in front ties
    the word to the start of the text and [$] at the end to its end. *)
Theorem match_decides re text : match_ re text = true ↔ contains re text.
Proof.
  rewrite /contains. assert (head re ≠ Some CARET → match_ re text = match_loop re text) as Hm.
  { destruct re as [|r0 re]; [done|]. simpl. destruct (Z.eqb_spec r0 CARET) as [->|]; done. }
  case_bool_decide as Hc.
  - destruct re as [|r0 re]; [done|]. injection Hc as ->. cbn [match_ tail]. rewrite Z.eqb_refl matchhere_spec.
    destruct (compile re) as [r d]. split.
    + intros (w & post & -> & ? & ?). by exists [], w, post.
    + intros (pre & w & post & -> & ? & Hp & ?). rewrite (Hp eq_refl). by exists w, post.
  - rewrite Hm // match_loop_spec. destruct (compile re) as [r d]. naive_solver.
Qed.

(** ** What grep prints *)

(** A line that is complete. *)
Definition emit (re line : list Z) : list Z := if match_ re line then line ++ [NL] else [].

(** The output for the input [text], after the part [acc] of a line: every
    matching line that a newline ends, up to the first line of more than 1022
    characters, which does not fit the buffer. *)
Fixpoint grep_out (re acc text : list Z) : list Z :=
  match text with
  | [] => []
  | c :: text =>
      if c =? NL then emit re acc ++ grep_out re [] text
      else if (length acc <? 1022)%nat then grep_out re (acc ++ [c]) text
      else []
  end.

(** The same for one piece of the input, with the rest that is no line yet. *)
Fixpoint lines_out (re acc text : list Z) : list Z * list Z :=
  match text with
  | [] => ([], acc)
  | c :: text =>
      if c =? NL then let '(o, r) := lines_out re [] text in (emit re acc ++ o, r)
      else lines_out re (acc ++ [c]) text
  end.

Lemma lines_out_line re acc line text :
  NL ∉ line → lines_out re acc (line ++ text) = lines_out re (acc ++ line) text.
Proof.
  revert acc. induction line as [|c line IH]; intros acc; simpl; [by rewrite app_nil_r|].
  intros [Hc Hl]%not_elem_of_cons. rewrite (proj2 (Z.eqb_neq c NL)); [|done]. rewrite IH //. by rewrite -app_assoc.
Qed.

Lemma lines_out_rest re acc text o r :
  lines_out re acc text = (o, r) → NL ∉ acc → NL ∉ r ∧ (∃ pre, acc ++ text = pre ++ r).
Proof.
  revert acc o. induction text as [|c text IH]; intros acc o; simpl.
  - intros [= <- <-] ?. split; [done|]. exists []. by rewrite app_nil_r.
  - destruct (Z.eqb_spec c NL) as [->|Hc].
    + destruct (lines_out re [] text) as [o' r'] eqn:E. intros [= <- <-] Ha.
      destruct (IH _ _ E) as [? [pre Hp]]; [by apply not_elem_of_nil|]. split; [done|].
      exists (acc ++ NL :: pre). rewrite -app_assoc /= -Hp. done.
    + intros E Ha. destruct (IH _ _ E) as [? [pre Hp]].
      * rewrite not_elem_of_app list_elem_of_singleton. split; [done|]. congruence.
      * split; [done|]. exists pre. by rewrite -Hp -app_assoc.
Qed.

(** The output for a piece and the rest of the input. *)
Lemma grep_out_piece re acc piece rest o r :
  lines_out re acc piece = (o, r) → (length acc + length piece ≤ 1023)%nat →
  grep_out re acc (piece ++ rest) = o ++ (if decide (length r ≤ 1022)%nat then grep_out re r rest else []) ∨
  (length acc = 1023)%nat.
Proof.
  revert acc o. induction piece as [|c piece IH]; intros acc o; simpl.
  - intros [= <- <-] Hl. destruct (decide (length acc ≤ 1022)%nat); [by left|right; lia].
  - destruct (Z.eqb_spec c NL) as [->|Hc].
    + destruct (lines_out re [] piece) as [o' r'] eqn:E. intros [= <- <-] Hl. left. rewrite -app_assoc. f_equal.
      destruct (IH [] o' E) as [?|?]; simpl in *; [lia|done|lia].
    + intros E Hl. destruct (Nat.ltb_spec (length acc) 1022) as [Ha|Ha].
      * left. destruct (IH _ _ E) as [?|Hx]; [rewrite length_app /=; lia|done|rewrite length_app /= in Hx; lia].
      * destruct (decide (length acc = 1023%nat)); [by right|]. left. destruct piece as [|? piece]; simpl in *; [|lia].
        injection E as <- <-. rewrite decide_False // length_app /=. lia.
Qed.

Section prints.
Context {O : Type} {fd : Z} `{Stream fd O} (buf pattern : Z) (re : list Z).
Context (Hbuf : 0 < buf).

(** The pattern is in memory, outside of the buffer. *)
Definition patt (m : gmap Z Z) : Prop :=
  cstr m pattern re ∧ (pattern + Z.of_nat (length re) < buf ∨ buf + 1024 ≤ pattern).

Lemma patt_ext m m' : (∀ a, ¬ span buf 1024 a → ld8 m' a = ld8 m a) → patt m → patt m'.
Proof.
  intros He [Hp Ho]. split; [|done]. eapply cstr_ext; [|done]. intros a Ha. apply He. unfold span. lia.
Qed.

(** A state with input and output as in [s], but for [out] added. *)
Definition printed (out : list Z) (s s' : user O) : Prop :=
  inp (u_os s') = inp (u_os s) ∧ outp (u_os s') = outp (u_os s) ++ out.

Lemma printed_trans o1 o2 s1 s2 s3 : printed o1 s1 s2 → printed o2 s2 s3 → printed (o1 ++ o2) s1 s3.
Proof. rewrite /printed. intros [-> ->] [-> ->]. by rewrite app_assoc. Qed.

(** Cutting the first line off. *)
Lemma cut_line m p line text :
  cstr m p (line ++ NL :: text) →
  let q := p + Z.of_nat (length line) in
  cstr (st8 m q 0) p line ∧ cstr (st8 m q 0) (q + 1) text ∧
  get_bytes (Z.to_nat (q + 1 - p)) (st8 (st8 m q 0) q NL) p = line ++ [NL].
Proof.
  intros Hl q. pose proof (cstr_app _ _ _ _ Hl) as (Hq & _ & Ht). fold q in Hq, Ht.
  apply cstr_bytes in Hl as Hb. destruct Hb as [Hb _]. split_and!.
  - apply cstr_bytes. split; [|rewrite ld8_st8 decide_True //]. intros i c Hi. pose proof (lookup_lt_Some _ _ _ Hi).
    rewrite ld8_st8 decide_False; [|lia]. apply Hb. by apply lookup_app_l_Some.
  - eapply cstr_ext; [|done]. intros a Ha. rewrite ld8_st8 decide_False //. lia.
  - replace (Z.to_nat (q + 1 - p)) with (length (line ++ [NL])) by (rewrite length_app /=; lia).
    apply get_bytes_eq; [done|]. intros i c [Hi|[Hi Hc]]%lookup_app_Some.
    + pose proof (lookup_lt_Some _ _ _ Hi). rewrite !ld8_st8 !decide_False; [|lia..]. apply Hb. by apply lookup_app_l_Some.
    + apply list_lookup_singleton_Some in Hc as [Hi0 <-]. rewrite ld8_st8 decide_True //. lia.
Qed.

Lemma wp_grep_lines fuel p text s :
  cstr (um s) p text → buf ≤ p → p + Z.of_nat (length text) < buf + 1024 → patt (um s) → (length text < fuel)%nat →
  wp (grep_lines fuel pattern p) (λ r s', ∃ out rest, lines_out re [] text = (out, rest) ∧
    r = inl (p + Z.of_nat (length text) - Z.of_nat (length rest)) ∧
    cstr (um s') (p + Z.of_nat (length text) - Z.of_nat (length rest)) rest ∧ patt (um s') ∧ printed out s s') s.
Proof.
  revert p text s. induction fuel as [|fuel IH]; intros p text s Ht Hp Hlen Hpat Hf; [lia|]. simpl. apply uwp_bind.
  destruct (decide (NL ∈ text)) as [Hin|Hnin].
  - apply list_elem_of_split_l in Hin as (line & text' & -> & Hnl).
    eapply wp_strchr_found; [done|done|]. set q := p + Z.of_nat (length line).
    destruct (cut_line _ _ _ _ Ht) as (H1 & H2 & H3). fold q in H1, H2, H3.
    rewrite (proj2 (Z.eqb_neq q 0)); [|lia]. rewrite length_app /= in Hlen Hf.
    assert (patt (st8 (um s) q 0)) as [Hpat' ?].
    { eapply patt_ext; [|done]. intros a Ha. rewrite ld8_st8 decide_False //. unfold span in Ha. lia. }
    rewrite /store8. apply uwp_bind, uwp_modify, uwp_bind, uwp_gets, uwp_bind, uwp_gets. simpl.
    rewrite (cstring_cstr _ _ _ H1) (cstring_cstr _ _ _ Hpat'). apply uwp_bind.
    assert (∀ s1, cstr (um s1) (q + 1) text' → patt (um s1) → printed (emit re line) s s1 →
      wp (grep_lines fuel pattern (q + 1)) (λ r s', ∃ out rest, lines_out re [] (line ++ NL :: text') = (out, rest) ∧
        r = inl (p + Z.of_nat (length (line ++ NL :: text')) - Z.of_nat (length rest)) ∧
        cstr (um s') (p + Z.of_nat (length (line ++ NL :: text')) - Z.of_nat (length rest)) rest ∧
        patt (um s') ∧ printed out s s') s1) as Hgo.
    { intros s1 Hc1 Hp1 Ho1. eapply wp_mono; [apply (IH (q + 1) text'); [done|lia|lia|done|lia]|].
      intros r s2 (out & rest & E & -> & Hr & Hp2 & Ho2). exists (emit re line ++ out), rest.
      rewrite lines_out_line //= E length_app /=. replace (p + Z.of_nat (length line + S (length text')))
        with (q + 1 + Z.of_nat (length text')) by lia. split_and!; try done. by eapply printed_trans. }
    destruct (match_ re line) eqn:Em.
    + apply uwp_bind, uwp_modify, uwp_bind. eapply (wp_write _ _ (line ++ [NL])); [done|]. intros o' Hi Ho. apply uwp_ret.
      apply Hgo; simpl.
      * eapply cstr_ext; [|exact H2]. intros a Ha. rewrite ld8_st8 decide_False //. lia.
      * eapply patt_ext; [|by split]. intros a Ha. rewrite ld8_st8 decide_False //. unfold span in Ha. lia.
      * by rewrite /printed /emit Em /=.
    + apply uwp_ret, Hgo; [done|by split|]. rewrite /printed /emit Em app_nil_r //.
  - eapply wp_strchr_none; [done|done|]. simpl. apply uwp_ret. exists [], text.
    rewrite -(app_nil_r text) lines_out_line // !app_nil_r /=. replace (p + _ - _) with p by lia. split_and!; try done.
    by rewrite /printed app_nil_r.
Qed.

(** The bytes of a part of a line at the start of the buffer. *)
Definition holds (m : gmap Z Z) (acc : list Z) : Prop :=
  (∀ i c, acc !! i = Some c → ld8 m (buf + Z.of_nat i) = c) ∧ NL ∉ acc ∧ 0 ∉ acc ∧ (length acc ≤ 1023)%nat.

(** What [read] has put after them, with the NUL. *)
Lemma holds_read m acc l :
  holds m acc → Forall byte l → 0 ∉ l →
  cstr (st8 (put_bytes m (buf + Z.of_nat (length acc)) l) (buf + Z.of_nat (length (acc ++ l))) 0) buf (acc ++ l).
Proof.
  intros (Ha & _ & Hz & _) Hb Hl. apply cstr_bytes. split; [|by rewrite ld8_st8 decide_True].
  intros i c Hi. pose proof (lookup_lt_Some _ _ _ Hi). split; [|intros ->].
  - rewrite ld8_st8 decide_False; [|lia]. apply lookup_app_Some in Hi as [Hi|[Hge Hi]].
    + pose proof (lookup_lt_Some _ _ _ Hi). rewrite put_bytes_out; [by apply Ha|lia].
    + replace (buf + Z.of_nat i) with (buf + Z.of_nat (length acc) + Z.of_nat (i - length acc)) by lia.
      by apply put_bytes_in.
  - apply list_elem_of_lookup_2 in Hi. by apply elem_of_app in Hi as [?|?].
Qed.

Lemma patt_read m acc l :
  (length (acc ++ l) ≤ 1023)%nat → patt m →
  patt (st8 (put_bytes m (buf + Z.of_nat (length acc)) l) (buf + Z.of_nat (length (acc ++ l))) 0).
Proof.
  rewrite length_app. intros Hlen. apply patt_ext. unfold span. intros a Hx.
  rewrite ld8_st8 decide_False; [|lia]. apply put_bytes_out. lia.
Qed.

(** The rest of the lines, moved to the start of the buffer. *)
Lemma holds_move m m' p r :
  cstr m p r → NL ∉ r → (length r ≤ 1023)%nat →
  (∀ a, ld8 m' a = if decide (span buf (Z.of_nat (length r)) a) then ld8 m (p + (a - buf)) else ld8 m a) → holds m' r.
Proof.
  intros Hr Hn Hlen Hm. pose proof (cstr_nonzero _ _ _ Hr). split_and!; try done. intros i c Hi.
  pose proof (lookup_lt_Some _ _ _ Hi). rewrite Hm decide_True; [|unfold span; lia].
  apply cstr_bytes in Hr as [Hr _]. destruct (Hr i c Hi) as [<- _]. f_equal. lia.
Qed.

Lemma wp_grep_loop fuel acc s :
  holds (um s) acc → patt (um s) → 0 ∉ inp (u_os s) → (length (inp (u_os s)) < fuel)%nat →
  wp (grep_loop buf fuel pattern fd (Z.of_nat (length acc))) (λ r s', r = inl tt ∧
    outp (u_os s') = outp (u_os s) ++ (if decide (length acc ≤ 1022)%nat then grep_out re acc (inp (u_os s)) else [])) s.
Proof.
  revert acc s. induction fuel as [|fuel IH]; intros acc s Ha Hpat Hz Hf; [lia|]. cbn [grep_loop]. apply uwp_bind.
  pose proof Ha as (_ & Hnl & Hz' & Hlen). apply wp_read; [lia|]. intros l o' Hi Ho Hl Hb Hne.
  destruct (Z.ltb_spec 0 (Z.of_nat (length l))) as [Hpos|Hz0].
  - assert (0 ∉ l) as Hzl by (rewrite Hi elem_of_app in Hz; tauto).
    rewrite /store8. apply uwp_bind, uwp_modify, uwp_bind. cbv zeta.
    rewrite -Nat2Z.inj_add -length_app. pose proof (holds_read _ _ _ Ha Hb Hzl) as Hc. set m := st8 _ _ _ in Hc |- *.
    assert (length (acc ++ l) ≤ 1023)%nat as Hal by (rewrite length_app; lia).
    eapply wp_mono; [apply (wp_grep_lines 1024 buf (acc ++ l)); [exact Hc|lia|lia|by apply patt_read|lia]|].
    intros r s1 (out & rest & E & -> & Hr & Hp1 & Hi1 & Ho1). simpl in Hi1, Ho1.
    destruct (lines_out_rest _ _ _ _ _ E) as [Hnr [pre Epre]]; [by apply not_elem_of_nil|]. simpl in Epre.
    assert (length rest ≤ length (acc ++ l))%nat by (rewrite Epre length_app; lia).
    rewrite (proj2 (Z.ltb_lt 0 _)); [|rewrite length_app; lia]. apply uwp_bind.
    replace (Z.of_nat (length (acc ++ l)) - _) with (Z.of_nat (length rest)) by lia.
    apply wp_memmove; [lia|]. intros m' Hm'. rewrite lines_out_line // /= in E.
    eapply wp_mono; [apply (IH rest)|].
    + eapply holds_move; [exact Hr|done|lia|done].
    + eapply patt_ext; [|exact Hp1]. intros a Hx. simpl. rewrite Hm' decide_False //. unfold span in *. lia.
    + simpl. rewrite Hi1. rewrite Hi elem_of_app in Hz. tauto.
    + simpl. rewrite Hi1. rewrite Hi length_app in Hf. lia.
    + intros r s2 [-> Hout]. split; [done|]. rewrite Hout /= Hi1 Ho1 Ho -app_assoc. f_equal. rewrite length_app in Hal.
      rewrite (decide_True (P := (length acc ≤ 1022)%nat)); [|lia]. rewrite Hi.
      destruct (grep_out_piece _ _ _ (inp o') _ _ E) as [->|?]; [lia|done|lia].
  - apply uwp_ret. split; [done|]. simpl. rewrite Ho. assert (l = []) as -> by (destruct l; simpl in *; [done|lia]).
    case_decide; [|by rewrite app_nil_r]. destruct (inp (u_os s)) as [|c rest] eqn:E; [by rewrite app_nil_r|].
    exfalso. apply Hne; [lia|done|done].
Qed.

(** C27: grep prints the matching lines.  For any input without a NUL and any
    way in which [read] cuts it into pieces, [grep] returns, and it has written each line
    that a newline ends and that [match_] accepts, in order, up to the first
    line of more than 1022 characters.  A line of 1023 characters fills the
    buffer, and [grep] ends there as at the end of the file. *)
Theorem grep_prints fuel s :
  patt (um s) → 0 ∉ inp (u_os s) → (length (inp (u_os s)) < fuel)%nat →
  wp (grep buf fuel pattern fd) (λ r s', r = inl tt ∧
    outp (u_os s') = outp (u_os s) ++ grep_out re [] (inp (u_os s))) s.
Proof.
  intros Hp Hz Hf. apply (wp_grep_loop fuel []); try done. split_and!; try done; [by apply not_elem_of_nil..|simpl; lia].
Qed.
End prints.

End Grep.

(** The lines of "ab\nb\nxab\n" that match "^a". *)
Lemma grep_prints_witness :
  wp (Grep.grep 4096 10 100 0) (λ r s', r = inl tt ∧ t_out (u_os s') = [97; 98; 10])
    (mk_user (put_bytes ∅ 100 (chars "^a")) 0 (mk_tape (chars "ab" ++ [10] ++ chars "b" ++ [10] ++ chars "xab" ++ [10]) [])).
Proof.
  set s := mk_user _ _ _.
  assert (Grep.patt 4096 100 (chars "^a") (um s)) as Hp by (split; [split_and!; vm_compute; done|left; simpl; lia]).
  assert (0 ∉ inp (fd := 0) (u_os s)) as Hz by (apply (bool_decide_unpack _); vm_compute; done).
  assert (length (inp (fd := 0) (u_os s)) < 10)%nat as Hf by (apply Nat.ltb_lt; vm_compute; done).
  eapply wp_mono; [exact (Grep.grep_prints 4096 100 (chars "^a") ltac:(lia) 10 s Hp Hz Hf)|].
  intros r s' [-> E]. split; [done|]. etrans; [exact E|]. vm_compute. done.
Defined.
