(* ===== verification/Sh.v ===== *)
(** * The shell (user/sh.c)

    A parsed command is a tree.  The nodes are allocated with [malloc] and
    never freed; here they are values.  The one node that changes after it has
    been linked into a tree is the [EXEC] node of [parseexec], which is at the
    end of the [REDIR] nodes of [ret]: [set_arg] writes to it there.

    The parser reads the line in memory and moves a cursor, [*ps] in the code,
    which is the state of its computations; its [panic]s are those of [M].
    The parsing functions call each other, on a part of the line that is
    shorter after a few calls; [parse_fuel] is the bound this gives.

    The theorems: the parser ends on every line, with a tree or a syntax error
    and never beyond its arrays; the trees it gives are well formed, and their
    words are strings once [nulterminate] has run; every command tree is what
    the parser makes of its text; and [runcmd] does not return. *)

From S2P Require Import Prelude Mem Cstring Fs User Ulib.
Import Ulib Uprintf.

Module Sh.

Notation MAXARGS := 10.
Notation O_RDONLY := 0.
Notation O_WRONLY := 1.
Notation O_RDWR := 2.
Notation O_CREATE := 0x200.
Notation O_TRUNC := 0x400.
Notation NL := 10.

(** [argv[i]] and [eargv[i]] are a pair; [argv] ends at the first null. *)
Inductive cmd :=
| EXEC (argv : list (Z * Z))
| REDIR (c : cmd) (file efile mode fd : Z)
| PIPE (left right : cmd)
| LIST (left right : cmd)
| BACK (c : cmd).

(** ** Constructors *)

Definition execcmd : cmd := EXEC [].
Definition redircmd (subcmd : cmd) (file efile mode fd : Z) : cmd := REDIR subcmd file efile mode fd.
Definition pipecmd (left right : cmd) : cmd := PIPE left right.
Definition listcmd (left right : cmd) : cmd := LIST left right.
Definition backcmd (subcmd : cmd) : cmd := BACK subcmd.

(** ** Parsing *)

Notation LT := 60.
Notation BAR := 124.
Notation GT := 62.
Notation AMP := 38.
Notation SEMI := 59.
Notation LP := 40.
Notation RP := 41.
Notation PLUS := 43.
Notation CH_a := 97.

(** [" \t\r\n\v"] *)
Definition whitespace : list Z := [32; 9; 13; 10; 11].
(** ["<|>&;()"] *)
Definition symbols : list Z := [LT; BAR; GT; AMP; SEMI; LP; RP].

(** [strchr(set, c)] is not null. *)
Definition chr_in (set : list Z) (c : Z) : bool := existsb (Z.eqb c) set.

Section parser.
Context (m : gmap Z Z) (es : Z).

(** [s++] while [s < es] and [f] holds of the character at [s]. *)
Fixpoint advance (k : nat) (f : Z → bool) (s : Z) : Z :=
  match k with
  | 0%nat => s
  | S k => if (s <? es) && f (ld8 m s) then advance k f (s + 1) else s
  end.

Definition skip_space (s : Z) : Z := advance (Z.to_nat (es - s)) (chr_in whitespace) s.
Definition skip_word (s : Z) : Z :=
  advance (Z.to_nat (es - s)) (λ c, negb (chr_in whitespace c) && negb (chr_in symbols c)) s.

(** The token, with the addresses of its first character and of its end. *)
Definition gettoken : M Z (Z * Z * Z) :=
  s ← Prelude.gets id;
  let s := skip_space s in
  let q := s in
  let c := ld8 m s in
  let '(ret, s) :=
    if c =? 0 then (c, s)
    else if chr_in [BAR; LP; RP; SEMI; AMP; LT] c then (c, s + 1)
    else if c =? GT then
      let s := s + 1 in
      if ld8 m s =? GT then (PLUS, s + 1) else (c, s)
    else (CH_a, skip_word s) in
  modify (λ _, skip_space s);;
  mret (ret, q, s).

Definition peek (toks : list Z) : M Z bool :=
  s ← Prelude.gets id;
  let s := skip_space s in
  modify (λ _, s);;
  mret (negb (ld8 m s =? 0) && chr_in toks (ld8 m s)).

Fixpoint parseredirs_loop (fuel : nat) (c : cmd) : M Z cmd :=
  match fuel with
  | 0%nat => out_of_fuel
  | S fuel =>
      b ← peek [LT; GT];
      if b : bool then
        t1 ← gettoken;
        t2 ← gettoken;
        let '(tok, _, _) := t1 in
        let '(tok2, q, eq) := t2 in
        if negb (tok2 =? CH_a) then panic "missing file for redirection"
        else
          let c :=
            if tok =? LT then redircmd c q eq O_RDONLY 0
            else if tok =? GT then redircmd c q eq (Z.lor (Z.lor O_WRONLY O_CREATE) O_TRUNC) 1
            else if tok =? PLUS then redircmd c q eq (Z.lor O_WRONLY O_CREATE) 1
            else c in
          parseredirs_loop fuel c
      else mret c
  end.

Definition parseredirs (c : cmd) : M Z cmd :=
  s ← Prelude.gets id;
  parseredirs_loop (S (Z.to_nat (es - s))) c.

(** [cmd->argv[argc] = q; cmd->eargv[argc] = eq;] for the [EXEC] node under
    the redirections [ret]. *)
Fixpoint set_arg (ret : cmd) (q eq : Z) : cmd :=
  match ret with
  | EXEC argv => EXEC (argv ++ [(q, eq)])
  | REDIR c file efile mode fd => REDIR (set_arg c q eq) file efile mode fd
  | _ => ret
  end.

(** The loop of [parseexec]; an index of [argv] beyond its end is undefined. *)
Fixpoint parseargs (fuel : nat) (ret : cmd) (argc : Z) : M Z cmd :=
  match fuel with
  | 0%nat => out_of_fuel
  | S fuel =>
      let done := if argc <? MAXARGS then mret ret else undefined in
      b ← peek [BAR; RP; AMP; SEMI];
      if b : bool then done
      else
        t ← gettoken;
        let '(tok, q, eq) := t in
        if tok =? 0 then done
        else if negb (tok =? CH_a) then panic "syntax"
        else if negb (argc <? MAXARGS) then undefined
        else
          let ret := set_arg ret q eq in
          let argc := argc + 1 in
          if MAXARGS <=? argc then panic "too many args"
          else
            ret ← parseredirs ret;
            parseargs fuel ret argc
  end.

(** [while(peek(ps, es, "&"))] of [parseline]. *)
Fixpoint back_loop (fuel : nat) (c : cmd) : M Z cmd :=
  match fuel with
  | 0%nat => out_of_fuel
  | S fuel =>
      b ← peek [AMP];
      if b : bool then
        gettoken;;
        back_loop fuel (backcmd c)
      else mret c
  end.

Fixpoint parseline (fuel : nat) : M Z cmd :=
  match fuel with
  | 0%nat => out_of_fuel
  | S fuel =>
      c ← parsepipe fuel;
      s ← Prelude.gets id;
      c ← back_loop (S (Z.to_nat (es - s))) c;
      b ← peek [SEMI];
      if b : bool then
        gettoken;;
        r ← parseline fuel;
        mret (listcmd c r)
      else mret c
  end
with parsepipe (fuel : nat) : M Z cmd :=
  match fuel with
  | 0%nat => out_of_fuel
  | S fuel =>
      c ← parseexec fuel;
      b ← peek [BAR];
      if b : bool then
        gettoken;;
        r ← parsepipe fuel;
        mret (pipecmd c r)
      else mret c
  end
with parseexec (fuel : nat) : M Z cmd :=
  match fuel with
  | 0%nat => out_of_fuel
  | S fuel =>
      b ← peek [LP];
      if b : bool then parseblock fuel
      else
        s ← Prelude.gets id;
        ret ← parseredirs execcmd;
        parseargs (S (Z.to_nat (es - s))) ret 0
  end
with parseblock (fuel : nat) : M Z cmd :=
  match fuel with
  | 0%nat => out_of_fuel
  | S fuel =>
      b ← peek [LP];
      if negb b then panic "parseblock"
      else
        gettoken;;
        c ← parseline fuel;
        b ← peek [RP];
        if negb b then panic "syntax - missing )"
        else
          gettoken;;
          parseredirs c
  end.

(** Four calls for each character at most. *)
Definition parse_fuel (s : Z) : nat := (4 * Z.to_nat (es - s) + 4)%nat.

(** The line from [s]: the tree, and where the parser stopped. *)
Definition parse (s : Z) : outcome (cmd * Z) :=
  (c ← parseline (parse_fuel s);
   peek [];;
   mret c) s.
End parser.

(** NUL-terminate all the counted strings. *)
Fixpoint nulterminate (c : cmd) (m : gmap Z Z) : gmap Z Z :=
  match c with
  | EXEC argv => foldl (λ m '(_, eq), st8 m eq 0) m argv
  | REDIR c _ efile _ _ => st8 (nulterminate c m) efile 0
  | PIPE lc rc => nulterminate rc (nulterminate lc m)
  | LIST lc rc => nulterminate rc (nulterminate lc m)
  | BACK c => nulterminate c m
  end.

(** ** Running commands *)

Section shell.
Context {O : Type} `{Os O}.

Definition panic {A} (msg : string) : U O A :=
  put_all 2 (chars msg);;
  putc 2 NL;;
  exit 1.

Definition fork1 : U O Z :=
  pid ← fork;
  if pid =? -1 then panic "fork" else mret pid.

Definition parsecmd (s : Z) : U O cmd :=
  n ← strlen s;
  m ← ugets um;
  let es := s + n in
  match parse m es s with
  | Ret (c, s') =>
      if negb (s' =? es) then
        fprintf 2 (chars "leftovers: %s" ++ [NL]) [VStr s'];;
        panic "syntax"
      else
        umodify (λ u, set_um (nulterminate c (um u)) u);;
        mret c
  | Panic msg => panic msg
  | UB => uundefined
  | Fuel => uout_of_fuel
  end.

Fixpoint runcmd (c : cmd) : U O unit :=
  match c with
  | EXEC argv =>
      match argv with
      | [] => exit 1
      | (a0, _) :: _ =>
          exec a0 argv.*1;;
          fprintf 2 (chars "exec %s failed" ++ [NL]) [VStr a0];;
          exit 0
      end
  | REDIR c file _ mode fd =>
      close fd;;
      r ← open file mode;
      if r <? 0 then
        fprintf 2 (chars "open %s failed" ++ [NL]) [VStr file];;
        exit 1
      else
        runcmd c;;
        exit 0
  | LIST lc rc =>
      pid ← fork1;
      (if pid =? 0 then runcmd lc else mret tt);;
      wait0;;
      runcmd rc;;
      exit 0
  | PIPE lc rc =>
      p ← pipe;
      match p with
      | None => panic "pipe"
      | Some (p0, p1) =>
          pid ← fork1;
          (if pid =? 0 then close 1;; dup p1;; close p0;; close p1;; runcmd lc else mret tt);;
          pid ← fork1;
          (if pid =? 0 then close 0;; dup p0;; close p0;; close p1;; runcmd rc else mret tt);;
          close p0;;
          close p1;;
          wait0;;
          wait0;;
          exit 0
      end
  | BACK c =>
      pid ← fork1;
      (if pid =? 0 then runcmd c else mret tt);;
      exit 0
  end.

(** [c] is the address of the local variable of [gets]. *)
Definition getcmd (c buf nbuf : Z) : U O Z :=
  call (os_write 2 (chars "$ "));;
  memset buf 0 nbuf;;
  gets c buf nbuf;;
  x ← load8 buf;
  if x =? 0 then mret (-1) else mret 0.

(** [while((fd = open("console", O_RDWR)) >= 0)] *)
Fixpoint open_console (fuel : nat) : U O unit :=
  match fuel with
  | 0%nat => uout_of_fuel
  | S fuel =>
      fd ← call (os_open (chars "console") O_RDWR);
      if fd <? 0 then mret tt
      else if 3 <=? fd then close fd;; mret tt
      else open_console fuel
  end.

Fixpoint main_loop (fuel : nat) (c buf : Z) : U O unit :=
  match fuel with
  | 0%nat => uout_of_fuel
  | S fuel =>
      r ← getcmd c buf 100;
      if r <? 0 then mret tt
      else
        b0 ← load8 buf;
        b1 ← load8 (buf + 1);
        b2 ← load8 (buf + 2);
        if (b0 =? 99) && (b1 =? 100) && (b2 =? 32) then
          n ← strlen buf;
          store8 (buf + n - 1) 0;;
          r ← chdir (buf + 3);
          (if r <? 0 then fprintf 2 (chars "cannot cd %s" ++ [NL]) [VStr (buf + 3)] else mret tt);;
          main_loop fuel c buf
        else
          pid ← fork1;
          (if pid =? 0 then cm ← parsecmd buf; runcmd cm else mret tt);;
          wait0;;
          main_loop fuel c buf
  end.

Definition main (fuel : nat) (c buf : Z) : U O unit :=
  open_console fuel;;
  main_loop fuel c buf;;
  exit 0.
End shell.
(** ** Partial results

    [res E F c Q s]: run from [s], [c] returns with [Q], or panics with a
    message in [E], or, if [F] allows it, runs out of fuel. *)

Definition res {S A} (E : string → Prop) (F : Prop) (c : M S A) (Q : A → S → Prop) (s : S) : Prop :=
  match c s with
  | Ret (a, s') => Q a s'
  | Panic msg => E msg
  | UB => False
  | Fuel => F
  end.

Section res.
Context {S : Type} (E : string → Prop) (F : Prop).

Lemma res_ret {A} (a : A) (Q : A → S → Prop) s : Q a s → res E F (mret a) Q s.
Proof. done. Qed.

Lemma res_bind {A B} (c : M S A) (k : A → M S B) (Q : B → S → Prop) s :
  res E F c (λ a, res E F (k a) Q) s → res E F (c ≫= k) Q s.
Proof. rewrite /res /mbind /M_bind. by destruct (c s) as [[a s']| | |]. Qed.

Lemma res_bind_inv {A B} (c : M S A) (k : A → M S B) (Q : B → S → Prop) s :
  res E F (c ≫= k) Q s → res E F c (λ a, res E F (k a) Q) s.
Proof. rewrite /res /mbind /M_bind. by destruct (c s) as [[a s']| | |]. Qed.

Lemma res_mono {A} (c : M S A) (P Q : A → S → Prop) s :
  res E F c P s → (∀ a s', P a s' → Q a s') → res E F c Q s.
Proof. rewrite /res. destruct (c s) as [[a s']| | |]; naive_solver. Qed.

Lemma res_gets {A} (f : S → A) (Q : A → S → Prop) s : Q (f s) s → res E F (Prelude.gets f) Q s.
Proof. done. Qed.

Lemma res_modify (f : S → S) (Q : unit → S → Prop) s : Q tt (f s) → res E F (modify f) Q s.
Proof. done. Qed.

Lemma res_panic {A} msg (Q : A → S → Prop) s : E msg → res E F (Prelude.panic msg) Q s.
Proof. done. Qed.
End res.

(** The next call, by its lemma. *)
Ltac res_call lem := apply res_bind; eapply res_mono; [apply lem; try lia; try done|].

(** A computation that cannot run out of fuel, and that returns if it does
    not, returns. *)
Lemma res_wp {S A} (E : string → Prop) (c : M S A) (P Q : A → S → Prop) s :
  res E False c P s → res (λ _, False) True c Q s → ∃ a s', c s = Ret (a, s') ∧ P a s' ∧ Q a s'.
Proof. rewrite /res. destruct (c s) as [[a s']| | |]; naive_solver. Qed.

(** ** Scanning *)

Lemma chr_in_true set c : chr_in set c = true ↔ c ∈ set.
Proof.
  rewrite /chr_in existsb_exists. split.
  - intros (x & Hx & ->%Z.eqb_eq). by apply list_elem_of_In.
  - intros Hc. exists c. by rewrite -list_elem_of_In Z.eqb_refl.
Qed.

(** The characters of words. *)
Definition wordc (c : Z) : bool := negb (c =? 0) && negb (chr_in whitespace c) && negb (chr_in symbols c).

Section scan.
Context (m : gmap Z Z) (es : Z) (Hes : ld8 m es = 0).

Lemma advance_spec k f s :
  s ≤ es → (Z.to_nat (es - s) ≤ k)%nat →
  let s' := advance m es k f s in
  s ≤ s' ≤ es ∧ (∀ a, s ≤ a < s' → f (ld8 m a) = true) ∧ (s' < es → f (ld8 m s') = false).
Proof.
  revert s. induction k as [|k IH]; intros s Hs Hk; simpl; [split_and!; intros; lia|].
  destruct (Z.ltb_spec s es) as [Hlt|Hge]; simpl; [|split_and!; intros; lia].
  destruct (f (ld8 m s)) eqn:Ef; [|split_and!; intros; try lia; done].
  destruct (IH (s + 1)) as (H1 & H2 & H3); [lia|lia|]. split_and!; [lia|lia| |done].
  intros a Ha. destruct (decide (a = s)) as [->|]; [done|]. apply H2. lia.
Qed.

Lemma skip_space_spec s : s ≤ es → s ≤ skip_space m es s ≤ es ∧ chr_in whitespace (ld8 m (skip_space m es s)) = false.
Proof.
  intros Hs. destruct (advance_spec (Z.to_nat (es - s)) (chr_in whitespace) s) as (H1 & _ & H3); [done|done|].
  split; [done|]. fold (skip_space m es s) in *. destruct (decide (skip_space m es s < es)); [by apply H3|].
  replace (skip_space m es s) with es by lia. by rewrite Hes.
Qed.

(** The line is a string from [lo]. *)
Context (lo : Z) (Hlo : ∀ a, lo ≤ a < es → ld8 m a ≠ 0).

(** A pointer to a word and its end: characters of a word up to a character
    that is none. *)
Definition word_at (w : Z * Z) : Prop :=
  lo ≤ w.1 < w.2 ∧ w.2 ≤ es ∧ (∀ a, w.1 ≤ a < w.2 → wordc (ld8 m a) = true) ∧ wordc (ld8 m w.2) = false.

Lemma skip_word_spec s : lo ≤ s ≤ es → wordc (ld8 m s) = true → word_at (s, skip_word m es s).
Proof.
  intros Hs Hw. rewrite /skip_word. set f := λ c, negb (chr_in whitespace c) && negb (chr_in symbols c).
  assert (∀ c, c ≠ 0 → wordc c = f c) as Hf by (intros c Hc; by rewrite /wordc (proj2 (Z.eqb_neq c 0) Hc)).
  destruct (advance_spec (Z.to_nat (es - s)) f s) as (H1 & H2 & H3); [lia|done|]. cbv zeta in *.
  set e := advance _ _ _ _ _ in H1 H2 H3 |- *.
  assert (s < es) by (destruct (decide (s = es)) as [->|]; [by rewrite Hes in Hw|lia]).
  assert (s ≠ e) as Hne.
  { intros E. rewrite -E in H3. rewrite Hf in Hw; [|by apply Hlo; lia]. rewrite H3 in Hw; [done|lia]. }
  split_and!; simpl; [lia|lia|lia| |].
  - intros a Ha. rewrite Hf; [by apply H2|apply Hlo; lia].
  - destruct (decide (e < es)); [|replace e with es by lia; by rewrite Hes]. rewrite Hf; [by apply H3|apply Hlo; lia].
Qed.

Definition token_post (s : Z) (t : Z * Z * Z) (s' : Z) : Prop :=
  s ≤ s' ≤ es ∧ (s < es → s < s') ∧ (t.1.1 ≠ 0 → s < s') ∧ (t.1.1 = CH_a → word_at (t.1.2, t.2)).

Lemma skip_space_end : skip_space m es es = es.
Proof. destruct (skip_space_spec es); lia. Qed.

Section parse.
Context (E : string → Prop) (F : Prop).

Lemma res_gettoken s : lo ≤ s ≤ es → res E F (gettoken m es) (token_post s) s.
Proof.
  intros Hs. rewrite /gettoken. apply res_bind, res_gets. cbv zeta.
  destruct (skip_space_spec s) as [Hb Hsp]; [lia|]. set q := skip_space m es s in Hb Hsp |- *.
  destruct (Z.eqb_spec (ld8 m q) 0) as [E0|E0].
  { apply res_bind, res_modify, res_ret. assert (q = es) as -> by (destruct (decide (q = es)); [done|]; exfalso; apply (Hlo q); [lia|done]).
    rewrite skip_space_end. split_and!; simpl; rewrite ?Hes; [lia|lia|done..]. }
  assert (q < es) by (destruct (decide (q = es)) as [E1|]; [rewrite E1 in E0; done|lia]).
  assert (∀ tok e, q < e ≤ es → (tok = CH_a → word_at (q, e)) →
    res E F (modify (λ _, skip_space m es e);; mret (tok, q, e)) (token_post s) s) as Hgo.
  { intros tok e He Hw. apply res_bind, res_modify, res_ret. destruct (skip_space_spec e) as [He' _]; [lia|].
    split_and!; simpl; [lia|lia|lia|lia|done]. }
  destruct (chr_in [BAR; LP; RP; SEMI; AMP; LT] (ld8 m q)) eqn:Esym.
  { apply Hgo; [lia|]. intros Ea. by rewrite Ea in Esym. }
  destruct (Z.eqb_spec (ld8 m q) GT) as [Eg|Eg].
  - destruct (Z.eqb_spec (ld8 m (q + 1)) GT) as [Eg2|Eg2]; apply Hgo; try (intros Ea; congruence); [|lia].
    destruct (decide (q + 1 = es)) as [E1|]; [rewrite E1 Hes in Eg2; done|lia].
  - assert (word_at (q, skip_word m es q)) as Hw.
    { apply skip_word_spec; [lia|]. rewrite /wordc Hsp (proj2 (Z.eqb_neq _ 0) E0) /=.
      unfold chr_in, existsb, symbols in *. destruct (Z.eqb_spec (ld8 m q) GT); [done|]. rewrite !orb_false_iff in Esym.
      destruct Esym as (-> & -> & -> & -> & -> & -> & _). done. }
    apply Hgo; [|done]. destruct Hw as (? & ? & _). simpl in *. lia.
Qed.

Lemma skip_space_idem s : s ≤ es → skip_space m es (skip_space m es s) = skip_space m es s.
Proof.
  intros Hs. destruct (skip_space_spec s Hs) as [Hb Hsp]. set q := skip_space m es s in Hb Hsp |- *.
  rewrite /skip_space. destruct (Z.to_nat (es - q)) eqn:Ek; cbn [advance]; [done|]. by rewrite Hsp andb_false_r.
Qed.

(** After a [peek] that finds its character, it is found again. *)
Definition peek_post (toks : list Z) (s : Z) (b : bool) (s' : Z) : Prop :=
  s ≤ s' ≤ es ∧ (b = true → s' < es ∧ peek m es toks s' = Ret (true, s')).

Lemma res_peek toks s : lo ≤ s ≤ es → res E F (peek m es toks) (peek_post toks s) s.
Proof.
  intros Hs. apply res_bind, res_gets, res_bind, res_modify, res_ret. destruct (skip_space_spec s) as [Hb _]; [lia|].
  split; [done|]. pose proof (skip_space_idem s ltac:(lia)) as Hi. unfold id. set q := skip_space m es s in Hb Hi |- *.
  intros Hq. split; [|rewrite /peek /mbind /M_bind /= Hi; by rewrite Hq].
  destruct (decide (q = es)) as [Eq|]; [by rewrite Eq Hes in Hq|lia].
Qed.
End parse.

(** ** The trees of the parser *)

(** Fewer than [MAXARGS] arguments, pointers to words of the line, and one of
    the three kinds of redirection. *)
Fixpoint tree_ok (c : cmd) : Prop :=
  match c with
  | EXEC argv => (length argv < 10)%nat ∧ Forall word_at argv
  | REDIR c file efile mode fd => tree_ok c ∧ word_at (file, efile) ∧ (mode, fd) ∈ [(0, 0); (0x601, 1); (0x201, 1)]
  | PIPE lc rc | LIST lc rc => tree_ok lc ∧ tree_ok rc
  | BACK c => tree_ok c
  end.

(** The number of arguments of the [EXEC] node under redirections. *)
Fixpoint argc_of (c : cmd) : option nat :=
  match c with
  | EXEC argv => Some (length argv)
  | REDIR c _ _ _ _ => argc_of c
  | _ => None
  end.

Lemma set_arg_ok c n q eq :
  argc_of c = Some n → (S n < 10)%nat → tree_ok c → word_at (q, eq) →
  tree_ok (set_arg c q eq) ∧ argc_of (set_arg c q eq) = Some (S n).
Proof.
  induction c as [argv|c IH file efile mode fd|lc _ rc _|lc _ rc _|c _]; simpl; try done.
  - intros [= <-] Hn [_ Ha] Hw. rewrite length_app /=. split; [split; [lia|]|f_equal; lia].
    apply Forall_app. split; [done|]. by constructor.
  - intros Hn Hlt (Hc & Hf & Hm) Hw. destruct (IH Hn Hlt Hc Hw). done.
Qed.

Definition syntax_error (msg : string) : Prop :=
  msg ∈ ["missing file for redirection"; "syntax"; "too many args"; "syntax - missing )"]%string.

Notation safe := (res syntax_error False).

(** A parser from [s] moves on to some [s'] and gives a tree. *)
Definition parsed (s : Z) (c : cmd) (s' : Z) : Prop := s ≤ s' ≤ es ∧ tree_ok c.

Lemma parseredirs_loop_ok fuel c s :
  lo ≤ s ≤ es → es - s < Z.of_nat fuel → tree_ok c →
  safe (parseredirs_loop m es fuel c) (λ c' s', parsed s c' s' ∧ argc_of c' = argc_of c) s.
Proof.
  revert c s. induction fuel as [|fuel IH]; intros c s Hs Hf Hc; [lia|]. cbn [parseredirs_loop].
  res_call res_peek. intros b s1 [H1 Hb]. destruct b; [|apply res_ret; split; [split; [lia|done]|done]].
  destruct Hb as [Hlt _]; [done|].
  res_call res_gettoken. intros [[tok q1] e1] s2 (H2 & Hp2 & _). 
  res_call res_gettoken. intros [[tok2 q] e] s3 (H3 & _ & _ & Hw). simpl in Hw.
  destruct (Z.eqb_spec tok2 CH_a) as [->|Hne]; simpl; [|apply res_panic; by left].
  assert (∀ mode fd, (mode, fd) ∈ [(0, 0); (0x601, 1); (0x201, 1)] →
    safe (parseredirs_loop m es fuel (REDIR c q e mode fd)) (λ c' s', parsed s c' s' ∧ argc_of c' = argc_of c) s3) as Hgo.
  { intros mode fd Hm. eapply res_mono; [apply IH; [lia|lia|]|]. { split; [done|]. split; [by apply Hw|done]. }
    intros c' s' [[Hs' Ht] Ha]. split; [split; [lia|done]|done]. }
  destruct (tok =? LT); [apply Hgo; left|]. destruct (tok =? GT); [apply Hgo; right; left|].
  destruct (tok =? PLUS); [apply Hgo; right; right; left|].
  eapply res_mono; [apply IH; [lia|lia|done]|]. intros c' s' [[Hs' Ht] Ha]. split; [split; [lia|done]|done].
Qed.

Lemma parseredirs_ok c s :
  lo ≤ s ≤ es → tree_ok c → safe (parseredirs m es c) (λ c' s', parsed s c' s' ∧ argc_of c' = argc_of c) s.
Proof. intros Hs Hc. apply res_bind, res_gets, parseredirs_loop_ok; [done| |done]. unfold id. lia. Qed.

Lemma parseargs_ok fuel ret argc s :
  lo ≤ s ≤ es → es - s < Z.of_nat fuel → tree_ok ret → argc_of ret = Some argc → (argc < 10)%nat →
  safe (parseargs m es fuel ret (Z.of_nat argc)) (parsed s) s.
Proof.
  revert ret argc s. induction fuel as [|fuel IH]; intros ret argc s Hs Hf Hc Ha Hlt; [lia|]. cbn [parseargs].
  rewrite (proj2 (Z.ltb_lt (Z.of_nat argc) MAXARGS)); [|lia].
  res_call res_peek. intros b s1 [H1 _]. destruct b; [apply res_ret; split; [lia|done]|].
  res_call res_gettoken. intros [[tok q] e] s2 (H2 & _ & Hp & Hw). simpl in Hp, Hw.
  destruct (Z.eqb_spec tok 0) as [_|Hn0]; [apply res_ret; split; [lia|done]|].
  destruct (Z.eqb_spec tok CH_a) as [->|Hne]; simpl; [|apply res_panic; right; by left].
  destruct (Z.leb_spec MAXARGS (Z.of_nat argc + 1)) as [_|Hlt']; [apply res_panic; right; right; by left|].
  destruct (set_arg_ok ret argc q e) as [Hc' Ha']; [done|lia|done|by apply Hw|].
  apply res_bind. eapply res_mono; [apply parseredirs_ok; [lia|exact Hc']|]. intros c s3 [[H3 Hc3] Ha3].
  replace (Z.of_nat argc + 1) with (Z.of_nat (S argc)) by lia.
  eapply res_mono; [apply IH; [lia|lia|done|congruence|lia]|]. intros c' s' [Hs' Ht]. split; [lia|done].
Qed.

Lemma back_loop_ok fuel c s :
  lo ≤ s ≤ es → es - s < Z.of_nat fuel → tree_ok c → safe (back_loop m es fuel c) (parsed s) s.
Proof.
  revert c s. induction fuel as [|fuel IH]; intros c s Hs Hf Hc; [lia|]. cbn [back_loop].
  res_call res_peek. intros b s1 [H1 Hb]. destruct b; [|apply res_ret; split; [lia|done]].
  destruct Hb as [Hlt _]; [done|].
  res_call res_gettoken. intros t s2 (H2 & Hp & _).
  eapply res_mono; [apply (IH (BACK c)); [lia|lia|done]|]. intros c' s' [Hs' Ht]. split; [lia|done].
Qed.

Lemma parseblock_ok fuel s :
  (∀ s', s < s' ≤ es → safe (parseline m es fuel) (parsed s') s') → lo ≤ s < es → peek m es [LP] s = Ret (true, s) →
  safe (parseblock m es (S fuel)) (parsed s) s.
Proof.
  intros IH Hs Hp. cbn [parseblock]. apply res_bind. rewrite {1}/res Hp. cbv iota. cbn [negb].
  res_call res_gettoken. intros t s1 (H1 & Hlt & _). res_call IH. intros c s2 [H2 Hc].
  res_call res_peek. intros b s3 [H3 _]. destruct b; cbn [negb]; [|apply res_panic; right; right; right; by left].
  res_call res_gettoken. intros t' s4 (H4 & _).
  eapply res_mono; [apply parseredirs_ok; [lia|exact Hc]|]. intros c' s' [[Hs' Ht] _]. split; [lia|done].
Qed.

(** Enough fuel for the part of the line that is left. *)
Lemma parse_ok fuel :
  (∀ s, lo ≤ s ≤ es → 4 * (es - s) + 4 ≤ Z.of_nat fuel → safe (parseline m es fuel) (parsed s) s) ∧
  (∀ s, lo ≤ s ≤ es → 4 * (es - s) + 3 ≤ Z.of_nat fuel → safe (parsepipe m es fuel) (parsed s) s) ∧
  (∀ s, lo ≤ s ≤ es → 4 * (es - s) + 2 ≤ Z.of_nat fuel → safe (parseexec m es fuel) (parsed s) s) ∧
  (∀ s, lo ≤ s < es → 4 * (es - s) + 1 ≤ Z.of_nat fuel → peek m es [LP] s = Ret (true, s) →
     safe (parseblock m es fuel) (parsed s) s).
Proof.
  induction fuel as [|fuel (IHl & IHp & IHe & IHb)]; [split_and!; intros; lia|].
  split_and!; intros s Hs Hf; cbn [parseline parsepipe parseexec].
  - res_call IHp. intros c s1 [H1 Hc]. apply res_bind, res_gets.
    apply res_bind. eapply res_mono; [apply back_loop_ok; [lia|unfold id; lia|done]|]. intros c2 s2 [H2 Hc2].
    res_call res_peek. intros b s3 [H3 Hb]. destruct b; [|apply res_ret; split; [lia|done]]. destruct Hb as [Hlt _]; [done|].
    res_call res_gettoken. intros t s4 (H4 & Hp & _). res_call IHl. intros r s5 [H5 Hr].
    apply res_ret. split; [lia|]. done.
  - res_call IHe. intros c s1 [H1 Hc].
    res_call res_peek. intros b s3 [H3 Hb]. destruct b; [|apply res_ret; split; [lia|done]]. destruct Hb as [Hlt _]; [done|].
    res_call res_gettoken. intros t s4 (H4 & Hp & _). res_call IHp. intros r s5 [H5 Hr].
    apply res_ret. split; [lia|]. done.
  - res_call res_peek. intros b s1 [H1 Hb]. destruct b.
    + destruct Hb as [Hlt Hp]; [done|]. eapply res_mono; [apply IHb; [lia|lia|done]|].
      intros c s' [Hs' Hc]. split; [lia|done].
    + apply res_bind, res_gets. unfold id.
      res_call (parseredirs_ok execcmd); [split; [simpl; lia|constructor]|]. intros c s2 [[H2 Hc] Ha]. eapply res_mono; [apply (parseargs_ok _ _ 0); [lia|lia|done|done|lia]|].
      intros c' s' [Hs' Hc']. split; [lia|done].
  - intros Hp. apply parseblock_ok; [|done|done]. intros s' Hs'. apply IHl; lia.
Qed.

Lemma parse_safe : lo ≤ es → safe (λ s, parse m es s) (parsed lo) lo.
Proof.
  intros Hle. change (λ s, parse m es s) with (parse m es).
  assert (safe (c ← parseline m es (parse_fuel es lo); peek m es [];; mret c) (parsed lo) lo) as Hs; [|exact Hs].
  apply res_bind. eapply res_mono; [apply parse_ok; [lia|rewrite /parse_fuel; lia]|]. intros c s1 [H1 Hc].
  res_call res_peek. intros b s2 [H2 _]. apply res_ret. split; [lia|done].
Qed.

(** ** NUL-terminating the words *)

Fixpoint words (c : cmd) : list (Z * Z) :=
  match c with
  | EXEC argv => argv
  | REDIR c file efile _ _ => words c ++ [(file, efile)]
  | PIPE lc rc | LIST lc rc => words lc ++ words rc
  | BACK c => words c
  end.

Lemma tree_words c : tree_ok c → Forall word_at (words c).
Proof.
  induction c; simpl; rewrite ?Forall_app; naive_solver.
Qed.
End scan.

Lemma ld8_nul_args (argv : list (Z * Z)) m a :
  ld8 (foldl (λ m '(_, eq), st8 m eq 0) m argv) a = if decide (a ∈ argv.*2) then 0 else ld8 m a.
Proof.
  revert m. induction argv as [|[q e] argv IH]; intros m; simpl; [done|]. rewrite IH ld8_st8.
  repeat case_decide; try done; set_solver.
Qed.

Lemma ld8_nulterminate c m a :
  ld8 (nulterminate c m) a = if decide (a ∈ (words c).*2) then 0 else ld8 m a.
Proof.
  revert m. induction c as [argv|c IH file efile mode fd|lc IHl rc IHr|lc IHl rc IHr|c IH]; intros m; simpl.
  - apply ld8_nul_args.
  - rewrite ld8_st8 IH fmap_app /=. destruct (decide (a = efile)) as [->|Hne].
    + rewrite decide_True //. apply elem_of_app. right. left.
    + destruct (decide (a ∈ (words c).*2)); [rewrite decide_True //; apply elem_of_app; by left|].
      rewrite decide_False // elem_of_app list_elem_of_singleton. tauto.
  - rewrite IHr IHl fmap_app. repeat case_decide; set_solver.
  - rewrite IHr IHl fmap_app. repeat case_decide; set_solver.
  - apply IH.
Qed.

(** The characters of a word of the line. *)
Definition slice (m : gmap Z Z) (w : Z * Z) : list Z := get_bytes (Z.to_nat (w.2 - w.1)) m w.1.

Lemma get_bytes_lookup n m p i c : get_bytes n m p !! i = Some c → c = ld8 m (p + Z.of_nat i) ∧ (i < n)%nat.
Proof.
  revert p i. induction n as [|n IH]; intros p [|i]; simpl; try done.
  - intros [= <-]. rewrite Z.add_0_r. split; [done|lia].
  - intros [-> ?]%IH. split; [f_equal; lia|lia].
Qed.

Lemma length_get_bytes n m p : length (get_bytes n m p) = n.
Proof. revert p. induction n as [|n IH]; intros p; simpl; [done|]. by rewrite IH. Qed.

(** After [nulterminate] each word of a tree is a string. *)
Lemma nulterminate_words m es lo c w :
  tree_ok m es lo c → w ∈ words c → cstr (nulterminate c m) w.1 (slice m w).
Proof.
  intros Hc Hw. pose proof (tree_words m es lo c Hc) as Hall. rewrite Forall_forall in Hall.
  assert (∀ a, wordc (ld8 m a) = true → a ∉ (words c).*2) as Hout.
  { intros a Ha ([q e] & -> & Hin)%list_elem_of_fmap. destruct (Hall _ Hin) as (_ & _ & _ & He). simpl in *. congruence. }
  destruct (Hall w Hw) as (H1 & H2 & H3 & H4). apply cstr_bytes. rewrite /slice length_get_bytes. split.
  - intros i x [-> Hi]%get_bytes_lookup. assert (wordc (ld8 m (w.1 + Z.of_nat i)) = true) as Hx by (apply H3; lia).
    rewrite ld8_nulterminate decide_False; [|by apply Hout]. split; [done|]. intros E0. by rewrite E0 in Hx.
  - rewrite ld8_nulterminate decide_True //. apply list_elem_of_fmap. exists w. split; [lia|done].
Qed.

(** ** Theorems *)

(** A string, as the parser needs it. *)
Lemma cstr_line m s l : cstr m s l → ld8 m (s + Z.of_nat (length l)) = 0 ∧ ∀ a, s ≤ a < s + Z.of_nat (length l) → ld8 m a ≠ 0.
Proof.
  intros [Hl He]%cstr_bytes. split; [done|]. intros a Ha.
  destruct (lookup_lt_is_Some_2 l (Z.to_nat (a - s))) as [c Hc]; [lia|]. destruct (Hl _ _ Hc) as [<- Hn].
  by replace a with (s + Z.of_nat (Z.to_nat (a - s))) by lia.
Qed.

(** C13: the parser ends.  On any string, with the fuel that [parse] gives
    itself, the parsing functions return a position in the string and a
    well-formed tree, whose words are words of the string and whose argument
    arrays are not over-full, or stop with one of the four messages of syntax errors.  They do not write
    past the end of an argument array, and the check at the start of
    [parseblock] does not fail. *)
Theorem parse_ends m s l :
  cstr m s l →
  match parse m (s + Z.of_nat (length l)) s with
  | Ret (c, s') => s ≤ s' ≤ s + Z.of_nat (length l) ∧ tree_ok m (s + Z.of_nat (length l)) s c
  | Panic msg => msg ∈ ["missing file for redirection"; "syntax"; "too many args"; "syntax - missing )"]%string
  | UB | Fuel => False
  end.
Proof.
  intros Hl. destruct (cstr_line _ _ _ Hl) as [He Hn]. pose proof (parse_safe m _ He s Hn ltac:(lia)) as Hs.
  unfold res in Hs. destruct (parse m _ s) as [[c s']| | |]; [apply Hs|exact Hs..].
Qed.

Section typed.
Context {O : Type} `{Os O}.

Lemma wp_panic {A} msg (Q : A + uend → user O → Prop) s :
  (∀ o, Q (inr (Exited 1)) (set_os o s)) → wp (panic msg) Q s.
Proof.
  intros HQ. apply uwp_bind. eapply wp_writes; [apply writes_put_all|]. apply uwp_bind.
  eapply wp_writes; [apply writes_putc|]. apply HQ.
Qed.

(** C28: commands are well typed.  [parsecmd] on any string returns a tree or
    ends the shell's child with status 1.  In a tree it returns, every argument
    array holds fewer than 10 words, every redirection has one of the three
    kinds of the grammar, and every pointer is to a word of the line: one or
    more characters, no blank, no operator.  In the memory after it each of
    these pointers is a string, and that string is the word of the line. *)
Theorem parsecmd_typed s u :
  wp (parsecmd s) (λ r u', (r = inr (Exited 1) ∧ um u' = um u) ∨
    ∃ c, r = inl c ∧ tree_ok (um u) (s + Z.of_nat (length (cstring (um u) s))) s c ∧
      ∀ w, w ∈ words c → cstr (um u') w.1 (slice (um u) w)) u.
Proof.
  pose proof (cstr_cstring (um u) s) as Hl. destruct (cstr_line _ _ _ Hl) as [He Hn].
  pose proof (parse_safe (um u) _ He s Hn ltac:(lia)) as Hs. unfold res in Hs.
  apply uwp_bind. eapply wp_strlen; [exact Hl|]. apply uwp_bind, uwp_gets. cbv zeta.
  destruct (parse (um u) _ s) as [[c s']|msg| |]; [|apply wp_panic; by left|done..].
  destruct (negb _).
  - apply uwp_bind, wp_fprintf; [done|]. apply wp_panic. by left.
  - apply uwp_bind, uwp_modify, uwp_ret. right. exists c. split; [done|]. destruct Hs as [_ Hc]. split; [done|].
    intros w Hw. by eapply nulterminate_words.
Qed.

Lemma wp_fork1 (Q : Z + uend → user O → Prop) s :
  (∀ pid o, Q (inl pid) (set_os o s)) → (∀ o, Q (inr (Exited 1)) (set_os o s)) → wp fork1 Q s.
Proof.
  intros H1 H2. apply uwp_bind. apply wp_call. destruct (_ =? -1); [by apply wp_panic|]. by apply uwp_ret.
Qed.

(** A program that ends its process. *)
Definition ends {A} (c : U O A) : Prop := ∀ s, wp c (λ r _, ∃ e, r = inr e) s.

Lemma ends_seq {A B} (c : U O A) (k : A → U O B) : (∀ s, wp c (λ _ _, True) s) → (∀ a, ends (k a)) → ends (c ≫= k).
Proof.
  intros Hc Hk s. apply uwp_bind. eapply wp_mono; [apply Hc|]. intros [a|e] s' _; [apply Hk|by exists e].
Qed.

Lemma ends_first {A B} (c : U O A) (k : A → U O B) : ends c → ends (c ≫= k).
Proof. intros Hc s. apply uwp_bind. eapply wp_mono; [apply Hc|]. intros r s' [e ->]. by exists e. Qed.

Lemma ends_exit {A} st : ends (exit st : U O A).
Proof. intros s. by exists (Exited st). Qed.

Lemma returns_call f (s : user O) : wp (call f) (λ _ _, True) s.
Proof. by apply wp_call. Qed.

Lemma returns_open p mode (s : user O) : wp (open p mode) (λ _ _, True) s.
Proof. apply uwp_bind, uwp_gets, wp_call. done. Qed.

Lemma returns_exec p argv (s : user O) : wp (exec p argv) (λ _ _, True) s.
Proof. rewrite /wp /exec. destruct (os_exec _ _ _) as [[] o]; done. Qed.

Lemma returns_fork1 (s : user O) : wp fork1 (λ _ _, True) s.
Proof. by apply wp_fork1. Qed.

(** The child that [fork] made, or the parent that goes on. *)
Lemma returns_child (pid : Z) (c : U O unit) s : ends c → wp (if pid =? 0 then c else mret tt : U O unit) (λ _ _, True) s.
Proof. intros Hc. destruct (pid =? 0); [|done]. by eapply wp_mono; [apply Hc|]. Qed.

(** [runcmd] does not return, as its declaration promises.  Whatever the
    tree and whatever the system calls give, it ends with [exit] or [exec];
    this holds of each process that its [fork]s make. *)
Lemma runcmd_noreturn c : ends (runcmd c).
Proof.
  induction c as [[|[a0 e0] argv]|c IH file efile mode fd|lc IHl rc IHr|lc IHl rc IHr|c IH]; cbn [runcmd].
  - apply ends_exit.
  - apply ends_seq; [apply returns_exec|]. intros _. apply ends_seq; [|intros; apply ends_exit]. intros s. by apply wp_fprintf.
  - apply ends_seq; [apply returns_call|]. intros _. apply ends_seq; [apply returns_open|]. intros r. destruct (r <? 0).
    + apply ends_seq; [|intros; apply ends_exit]. intros s. by apply wp_fprintf.
    + by apply ends_first.
  - apply ends_seq; [intros s; rewrite /wp /pipe; by destruct (os_pipe _)|]. intros [[p0 p1]|]; [|intros s; apply wp_panic; eauto].
    apply ends_seq; [apply returns_fork1|]. intros pid. apply ends_seq.
    { intros s. apply returns_child. do 4 (apply ends_seq; [apply returns_call|intros _]). done. }
    intros _. apply ends_seq; [apply returns_fork1|]. intros pid2. apply ends_seq.
    { intros s. apply returns_child. do 4 (apply ends_seq; [apply returns_call|intros _]). done. }
    intros _. do 4 (apply ends_seq; [apply returns_call|intros _]). apply ends_exit.
  - apply ends_seq; [apply returns_fork1|]. intros pid. apply ends_seq; [intros s; by apply returns_child|]. intros _.
    apply ends_seq; [apply returns_call|]. intros _. by apply ends_first.
  - apply ends_seq; [apply returns_fork1|]. intros pid. apply ends_seq; [intros s; by apply returns_child|]. intros _. apply ends_exit.
Qed.
End typed.
End Sh.
