(* ===== verification/ShPrint.v ===== *)
(** * Printing and parsing commands (user/sh.c)

    The syntax of the shell, as trees with words for strings; a printer for
    them, with parentheses where the grammar needs them; and the proof that
    [parsecmd] reads back what has been printed. *)

From S2P Require Import Prelude Mem Cstring Fs User Ulib Sh.
Import Sh.

Module ShPrint.

(** ** Tokens *)

Inductive token := Word (w : list Z) | Sym (c : Z) | Append.

Definition tok_text (t : token) : list Z :=
  match t with
  | Word w => w
  | Sym c => [c]
  | Append => [GT; GT]
  end.

(** Each token with a blank after it. *)
Definition text (ts : list token) : list Z := ts ≫= λ t, tok_text t ++ [32].

Definition tok_ok (t : token) : Prop :=
  match t with
  | Word w => w ≠ [] ∧ Forall (λ c, byte c ∧ wordc c = true) w
  | Sym c => c ∈ symbols
  | Append => True
  end.

(** ** Commands *)

Inductive redir := In | Out | App.

Inductive ast :=
| AExec (argv : list (list Z))
| ARedir (a : ast) (k : redir) (file : list Z)
| APipe (a b : ast)
| AList (a b : ast)
| ABack (a : ast).

Definition redir_tok (k : redir) : token := match k with In => Sym LT | Out => Sym GT | App => Append end.
Definition redir_mode (k : redir) : Z * Z := match k with In => (0, 0) | Out => (0x601, 1) | App => (0x201, 1) end.

(** Fewer than 10 arguments, and words that are words. *)
Fixpoint ast_ok (a : ast) : Prop :=
  match a with
  | AExec argv => (length argv < 10)%nat ∧ Forall (λ w, tok_ok (Word w)) argv
  | ARedir a _ file => ast_ok a ∧ tok_ok (Word file)
  | APipe a b | AList a b => ast_ok a ∧ ast_ok b
  | ABack a => ast_ok a
  end.

(** The rule of the grammar that gives the command: [parseexec], [parsepipe],
    or [parseline] without or with a semicolon. *)
Definition level (a : ast) : nat :=
  match a with
  | AExec _ | ARedir _ _ _ => 0
  | APipe _ _ => 1
  | ABack _ => 2
  | AList _ _ => 3
  end.

Fixpoint print (a : ast) : list token :=
  let at_level l b := if (level b <=? l)%nat then print b else Sym LP :: print b ++ [Sym RP] in
  match a with
  | AExec argv => Word <$> argv
  | ARedir a k file => at_level 0%nat a ++ [redir_tok k; Word file]
  | APipe a b => at_level 0%nat a ++ Sym BAR :: at_level 1%nat b
  | AList a b => at_level 2%nat a ++ Sym SEMI :: at_level 3%nat b
  | ABack a => at_level 2%nat a ++ [Sym AMP]
  end.

Definition print_at (l : nat) (b : ast) : list token :=
  if (level b <=? l)%nat then print b else Sym LP :: print b ++ [Sym RP].

(** ** Lexing printed text *)

Lemma text_cons t ts : text (t :: ts) = tok_text t ++ 32 :: text ts.
Proof. rewrite /text bind_cons -app_assoc //. Qed.

Lemma wordc_spec c : wordc c = true → c ≠ 0 ∧ chr_in whitespace c = false ∧ chr_in symbols c = false.
Proof. rewrite /wordc !andb_true_iff !negb_true_iff Z.eqb_neq. tauto. Qed.

Lemma symbols_spec c : c ∈ symbols → c ≠ 0 ∧ chr_in whitespace c = false ∧ chr_in symbols c = true.
Proof. intros Hc. do 7 (apply elem_of_cons in Hc as [->|Hc]; [done|]). by apply elem_of_nil in Hc. Qed.

Section lex.
Context (m : gmap Z Z) (es : Z).

(** The cursor is in front of the tokens [ts], the last ones. *)
Definition at_ (s : Z) (ts : list token) : Prop :=
  cstr m s (text ts) ∧ es = s + Z.of_nat (length (text ts)) ∧ Forall tok_ok ts.

Lemma advance_over k f s l1 l2 :
  cstr m s (l1 ++ l2) → es = s + Z.of_nat (length (l1 ++ l2)) → Forall (λ c, f c = true) l1 →
  (∀ c l, l2 = c :: l → f c = false) → (length (l1 ++ l2) ≤ k)%nat → advance m es k f s = s + Z.of_nat (length l1).
Proof.
  revert k s. induction l1 as [|c l1 IH]; intros [|k] s; simpl.
  - intros. lia.
  - intros Hl He _ Hf Hk. destruct l2 as [|c l2]; simpl in *; [rewrite (proj2 (Z.ltb_ge s es)); [simpl; lia|lia]|].
    destruct Hl as (-> & _). rewrite (Hf c l2 eq_refl) andb_false_r. lia.
  - intros. lia.
  - intros (-> & _ & Hl) He [Hc Hf]%Forall_cons Hn Hk. rewrite (proj2 (Z.ltb_lt s es)); [|lia]. rewrite Hc /=.
    rewrite IH; [lia|done|lia|done|done|lia].
Qed.

(** No token starts with a blank. *)
Lemma tok_head t : tok_ok t → ∃ c l, tok_text t = c :: l ∧ chr_in whitespace c = false ∧ c ≠ 0.
Proof.
  destruct t as [[|c w]|c|]; simpl; [by intros [? _]|..].
  - intros [_ [[_ Hc] _]%Forall_cons]. apply wordc_spec in Hc as (? & ? & ?). eauto.
  - intros (? & ? & ?)%symbols_spec. eauto.
  - intros _. by exists GT, [GT].
Qed.

Lemma skip_at s ts : at_ s ts → skip_space m es s = s.
Proof.
  intros (Hc & He & Ht). rewrite /skip_space. replace s with (s + Z.of_nat (length (@nil Z))) at 3 by (simpl; lia).
  apply (advance_over _ _ s [] (text ts)); try done; [|simpl; lia].
  intros c l. destruct ts as [|t ts]; [done|]. rewrite text_cons. apply Forall_cons in Ht as [Ht _].
  destruct (tok_head t Ht) as (c' & l' & -> & Hc' & _). by intros [= <- _].
Qed.

Lemma at_next s t ts :
  at_ s (t :: ts) → at_ (s + Z.of_nat (length (tok_text t)) + 1) ts ∧
  skip_space m es (s + Z.of_nat (length (tok_text t))) = s + Z.of_nat (length (tok_text t)) + 1.
Proof.
  intros (Hc & He & Ht). rewrite text_cons in Hc He. apply Forall_cons in Ht as [_ Ht].
  pose proof (cstr_app _ _ _ _ Hc) as Hb. rewrite length_app /= in He.
  assert (at_ (s + Z.of_nat (length (tok_text t)) + 1) ts) as Hn by (split_and!; [apply Hb|lia|done]). split; [done|].
  rewrite /skip_space. apply (advance_over _ _ _ [32] (text ts)); try done; simpl; [lia|by repeat constructor| |lia].
  intros c l E. destruct ts as [|t' ts]; [done|]. rewrite text_cons in E. apply Forall_cons in Ht as [Ht _].
  destruct (tok_head t' Ht) as (c' & l' & E' & Hc' & _). rewrite E' in E. by injection E as <- _.
Qed.

Definition code (t : token) : Z := match t with Word _ => CH_a | Sym c => c | Append => PLUS end.

Lemma at_slice s t ts : at_ s (t :: ts) → slice m (s, s + Z.of_nat (length (tok_text t))) = tok_text t.
Proof.
  intros (Hc & _). rewrite text_cons in Hc. rewrite /slice /=. replace (Z.to_nat _) with (length (tok_text t)) by lia.
  by eapply cstr_get_bytes.
Qed.

Section run.
Notation gives := (res (λ _, False) True).

(** [gettoken] takes the next token. *)
Lemma gettoken_at s t ts (Q : Z * Z * Z → Z → Prop) :
  at_ s (t :: ts) →
  (∀ s', at_ s' ts → Q (code t, s, s + Z.of_nat (length (tok_text t))) s') → gives (gettoken m es) Q s.
Proof.
  intros Ha HQ. destruct (at_next _ _ _ Ha) as [Hn Hsk]. rewrite /gettoken. apply res_bind, res_gets. cbv zeta. unfold id.
  rewrite (skip_at _ _ Ha). pose proof Ha as (Hc & He & [Ht _]%Forall_cons). rewrite text_cons in Hc He.
  assert (∀ e, e = s + Z.of_nat (length (tok_text t)) → 
    gives (modify (λ _, skip_space m es e);; mret (code t, s, e)) Q s) as Hgo.
  { intros e ->. apply res_bind, res_modify, res_ret. rewrite Hsk. by apply HQ. }
  destruct t as [w|c|]; cbn [tok_text code] in *.
  - destruct Ht as [Hne Hw]. destruct w as [|c w]; [done|]. pose proof Hc as (-> & Hc0 & _).
    apply Forall_cons in Hw as Hw'. destruct Hw' as [[_ Hcw] _]. apply wordc_spec in Hcw as (_ & Hsp & Hsy).
    rewrite (proj2 (Z.eqb_neq c 0) Hc0).
    unfold chr_in, existsb, symbols in Hsy |- *. rewrite !orb_false_iff in Hsy.
    destruct Hsy as (-> & -> & -> & -> & -> & -> & -> & _). cbn [orb]. apply Hgo.
    rewrite /skip_word. apply (advance_over _ _ s (c :: w) (32 :: text ts)); try done; [|by intros ?? [= <- _]|lia].
    eapply Forall_impl; [exact Hw|]. intros x [_ Hx]. apply wordc_spec in Hx as (_ & -> & ->). done.
  - destruct Hc as (-> & Hc0 & Hc1 & _). rewrite (proj2 (Z.eqb_neq c 0) Hc0).
    rewrite /symbols in Ht. destruct (chr_in [BAR; LP; RP; SEMI; AMP; LT] c) eqn:Ein; [by apply Hgo|].
    assert (c = GT) as ->. { do 7 (apply elem_of_cons in Ht as [->|Ht]; [done|]). by apply elem_of_nil in Ht. }
    rewrite Z.eqb_refl Hc1. by apply Hgo.
  - destruct Hc as (-> & _ & -> & _). change (GT =? 0) with false. cbn iota.
    change (chr_in [BAR; LP; RP; SEMI; AMP; LT] GT) with false. rewrite Z.eqb_refl. apply Hgo. simpl. lia.
Qed.

Lemma gettoken_end s (Q : Z * Z * Z → Z → Prop) : at_ s [] → Q (0, s, s) s → gives (gettoken m es) Q s.
Proof.
  intros Ha HQ. rewrite /gettoken. apply res_bind, res_gets. cbv zeta. unfold id. rewrite (skip_at _ _ Ha).
  pose proof Ha as (Hc & _). simpl in Hc. rewrite Hc Z.eqb_refl. apply res_bind, res_modify, res_ret.
  by rewrite (skip_at _ _ Ha).
Qed.

(** What [peek] says of the next token. *)
Definition next_in (toks : list Z) (ts : list token) : bool :=
  match ts with
  | Sym c :: _ => chr_in toks c
  | Append :: _ => chr_in toks GT
  | _ => false
  end.

Lemma peek_at toks s ts (Q : bool → Z → Prop) :
  at_ s ts → toks ⊆ symbols → Q (next_in toks ts) s → gives (peek m es toks) Q s.
Proof.
  intros Ha Htoks HQ. apply res_bind, res_gets, res_bind, res_modify, res_ret. unfold id. rewrite (skip_at _ _ Ha).
  destruct Ha as (Hc & _ & Ht). destruct ts as [|t ts]; [simpl in Hc; by rewrite Hc|]. rewrite text_cons in Hc.
  apply Forall_cons in Ht as [Ht _]. destruct t as [w|c|]; cbn [tok_text next_in] in *.
  - destruct Ht as [Hne Hw]. destruct w as [|c w]; [done|]. destruct Hc as (-> & _). apply Forall_cons in Hw as [[_ Hw] _].
    apply wordc_spec in Hw as (Hc0 & _ & Hsy). rewrite (proj2 (Z.eqb_neq c 0) Hc0) /=.
    destruct (chr_in toks c) eqn:E; [|done]. apply chr_in_true, Htoks, chr_in_true in E. congruence.
  - destruct Hc as (-> & Hc0 & _). by rewrite (proj2 (Z.eqb_neq c 0) Hc0).
  - destruct Hc as (-> & _). done.
Qed.

(** ** What the trees mean *)

(** The tree [c] of the parser has the words of [a], in the text. *)
Fixpoint den (c : cmd) (a : ast) : Prop :=
  match c, a with
  | EXEC argv, AExec ws => slice m <$> argv = ws
  | REDIR c file efile mode fd, ARedir a k w => den c a ∧ slice m (file, efile) = w ∧ (mode, fd) = redir_mode k
  | PIPE c1 c2, APipe a1 a2 | LIST c1 c2, AList a1 a2 => den c1 a1 ∧ den c2 a2
  | BACK c, ABack a => den c a
  | _, _ => False
  end.

(** Text after a command: another operator, or the end. *)
Definition before (syms : list Z) (ts : list token) : Prop :=
  match ts with
  | [] => True
  | Sym c :: _ => c ∈ syms
  | Append :: _ => GT ∈ syms
  | Word _ :: _ => False
  end.

Lemma next_in_true toks syms ts : before syms ts → syms ⊆ toks → ts ≠ [] → next_in toks ts = true.
Proof.
  intros Hb Hs Hne. destruct ts as [|[w|c|] ts]; simpl in *; [done..| |]; by apply chr_in_true, Hs.
Qed.

Lemma next_in_false toks syms ts : before syms ts → (∀ c, c ∈ syms → c ∈ toks → False) → next_in toks ts = false.
Proof.
  intros Hb Hs. destruct ts as [|[w|c|] ts]; simpl in *; try done;
    (destruct (chr_in toks _) eqn:E; [|done]; apply chr_in_true in E; by destruct (Hs _ Hb E)).
Qed.

(** What [parseexec] still does after a redirection: nothing, or the loop over
    the arguments. *)
Definition kont (k : cmd → M Z cmd) : Prop :=
  k = mret ∨ ∃ fuel argc, argc < MAXARGS ∧ k = λ ret, parseargs m es fuel ret argc.

Lemma kont_end k n c s ts (Q : cmd → Z → Prop) :
  kont k → at_ s ts → before [BAR; RP; AMP; SEMI] ts → Q c s → gives (parseredirs_loop m es n c ≫= k) Q s.
Proof.
  intros Hk Ha Hb HQ. apply res_bind. destruct n as [|n]; [done|]. cbn [parseredirs_loop]. apply res_bind.
  eapply peek_at; [done|set_solver|]. rewrite (next_in_false _ _ _ Hb); [|intros x; by set_solver]. apply res_ret.
  destruct Hk as [->|([|fuel] & argc & Hargc & ->)]; [done|done|]. cbn [parseargs].
  rewrite (proj2 (Z.ltb_lt argc MAXARGS) Hargc). apply res_bind. eapply peek_at; [done|set_solver|].
  destruct ts as [|t ts]; [|rewrite (next_in_true _ _ _ Hb); [by apply res_ret|set_solver|done]].
  apply res_bind, gettoken_end; [done|]. by apply res_ret.
Qed.

(** One redirection. *)
Lemma kont_redir k n c s kind file ts (Q : cmd → Z → Prop) :
  at_ s (redir_tok kind :: Word file :: ts) →
  (∀ q e n' s', at_ s' ts → slice m (q, e) = file →
     gives (parseredirs_loop m es n' (REDIR c q e (redir_mode kind).1 (redir_mode kind).2) ≫= k) Q s') →
  gives (parseredirs_loop m es n c ≫= k) Q s.
Proof.
  intros Ha HQ. apply res_bind. destruct n as [|n]; [done|]. cbn [parseredirs_loop]. apply res_bind.
  eapply peek_at; [done|set_solver|]. replace (next_in _ _) with true by by destruct kind.
  apply res_bind. eapply gettoken_at; [done|]. intros s1 Ha1. apply res_bind. eapply gettoken_at; [done|]. intros s2 Ha2.
  cbn [code]. cbn [negb Z.eqb]. pose proof (at_slice _ _ _ Ha1) as Hsl. cbn [tok_text] in Hsl |- *.
  specialize (HQ _ _ n _ Ha2 Hsl). apply res_bind_inv in HQ. by destruct kind.
Qed.

(** The words of a command, up to its first redirection or its end. *)
Lemma words_at ws n fuel argv s ts (Q : cmd → Z → Prop) :
  at_ s ((Word <$> ws) ++ ts) → before [BAR; RP; AMP; SEMI; LT; GT] ts → (length argv + length ws < 10)%nat →
  (∀ k n' argv' s', kont k → at_ s' ts → slice m <$> argv' = (slice m <$> argv) ++ ws →
     gives (parseredirs_loop m es n' (EXEC argv') ≫= k) Q s') →
  gives (ret ← parseredirs_loop m es n (EXEC argv); parseargs m es fuel ret (Z.of_nat (length argv))) Q s.
Proof.
  revert n fuel argv s. induction ws as [|w ws IH]; intros n fuel argv s Ha Hb Hlen HQ; simpl in *.
  { apply HQ; [|done|by rewrite app_nil_r]. right. exists fuel, (Z.of_nat (length argv)). split; [lia|done]. }
  apply res_bind. destruct n as [|n]; [done|]. cbn [parseredirs_loop]. apply res_bind.
  eapply peek_at; [done|set_solver|]. apply res_ret. destruct fuel as [|fuel]; [done|]. cbn [parseargs].
  rewrite (proj2 (Z.ltb_lt _ MAXARGS)); [|lia]. apply res_bind. eapply peek_at; [done|set_solver|]. cbn [next_in].
  apply res_bind. eapply gettoken_at; [done|]. intros s1 Ha1. cbn [code].
  change (CH_a =? 0) with false. cbn [negb Z.eqb]. rewrite Pos.eqb_refl. cbn [negb set_arg].
  destruct (Z.leb_spec MAXARGS (Z.of_nat (length argv) + 1)); [lia|]. pose proof (at_slice _ _ _ Ha) as Hsl.
  apply res_bind, res_bind, res_gets, res_bind_inv.
  set argv1 := argv ++ [_]. replace (Z.of_nat (length argv) + 1) with (Z.of_nat (length argv1)) by (rewrite length_app /=; lia).
  apply IH; [done|done|rewrite length_app /=; lia|]. intros k n' argv' s' Hk Hs' E. apply HQ; [done|done|].
  rewrite E fmap_app -app_assoc /=. do 2 f_equal. exact Hsl.
Qed.

(** ** The parsing functions on printed commands *)

(** Up to the redirections that may follow. *)
Definition exec_ok (a : ast) : Prop := ∀ fuel s ts (Q : cmd → Z → Prop),
  at_ s (print_at 0 a ++ ts) → before [BAR; RP; AMP; SEMI; LT; GT] ts →
  (∀ k n c s', kont k → at_ s' ts → den c a → gives (parseredirs_loop m es n c ≫= k) Q s') →
  gives (parseexec m es fuel) Q s.

Definition pipe_ok (a : ast) : Prop := ∀ fuel s ts,
  at_ s (print_at 1 a ++ ts) → before [RP; AMP; SEMI] ts →
  gives (parsepipe m es fuel) (λ c s', at_ s' ts ∧ den c a) s.

(** Up to the [&]s that may follow. *)
Definition back_ok (a : ast) : Prop := ∀ fuel s ts (Q : cmd → Z → Prop),
  at_ s (print_at 2 a ++ ts) → before [RP; AMP; SEMI] ts →
  (∀ n c s', at_ s' ts → den c a → gives (back_loop m es n c) Q s') →
  gives (c ← parsepipe m es fuel; s ← Prelude.gets id; back_loop m es (S (Z.to_nat (es - s))) c) Q s.

Definition line_ok (a : ast) : Prop := ∀ fuel s ts,
  at_ s (print a ++ ts) → before [RP] ts → gives (parseline m es fuel) (λ c s', at_ s' ts ∧ den c a) s.

Lemma before_mono syms syms' ts : before syms ts → syms ⊆ syms' → before syms' ts.
Proof. intros Hb Hs. destruct ts as [|[w|c|] ts]; simpl in *; by try apply Hs. Qed.

Lemma print_at_le l a : (level a ≤ l)%nat → print_at l a = print a.
Proof. intros Hl. by rewrite /print_at (proj2 (Nat.leb_le _ _) Hl). Qed.

Lemma print_at_gt l a : (l < level a)%nat → print_at l a = Sym LP :: print a ++ [Sym RP].
Proof. intros Hl. by rewrite /print_at (proj2 (Nat.leb_gt _ _) Hl). Qed.

(** Parentheses around a line. *)
Lemma exec_of_line a : (0 < level a)%nat → line_ok a → exec_ok a.
Proof.
  intros Hl IH fuel s ts Q Ha Hb HQ. rewrite print_at_gt // /= -app_assoc /= in Ha.
  destruct fuel as [|fuel]; [done|]. cbn [parseexec]. apply res_bind. eapply peek_at; [done|set_solver|]. cbn [next_in].
  change (chr_in [LP] LP) with true. cbn iota. destruct fuel as [|fuel]; [done|]. cbn [parseblock].
  apply res_bind. eapply peek_at; [done|set_solver|]. cbn [next_in]. change (negb (chr_in [LP] LP)) with false. cbn iota.
  apply res_bind. eapply gettoken_at; [done|]. intros s1 Ha1.
  apply res_bind. eapply res_mono; [apply IH; [done|simpl; set_solver]|]. intros c s2 [Ha2 Hc].
  apply res_bind. eapply peek_at; [done|set_solver|]. cbn [next_in]. change (negb (chr_in [RP] RP)) with false. cbn iota.
  apply res_bind. eapply gettoken_at; [done|]. intros s3 Ha3. apply res_bind, res_gets.
  specialize (HQ mret (S (Z.to_nat (es - s3))) c s3 ltac:(by left) Ha3 Hc). apply res_bind_inv in HQ. exact HQ.
Qed.

Lemma pipe_of_exec a : level a ≠ 1%nat → exec_ok a → pipe_ok a.
Proof.
  intros Hl IH fuel s ts Ha Hb. destruct fuel as [|fuel]; [done|]. cbn [parsepipe]. apply res_bind.
  eapply (IH fuel s ts); [|eapply before_mono; [done|set_solver]|].
  { rewrite /print_at in Ha |- *. by destruct (level a) as [|[|?]]. }
  intros k n c s' Hk Ha' Hc. eapply kont_end; [done|done|eapply before_mono; [done|set_solver]|].
  apply res_bind. eapply peek_at; [done|set_solver|]. rewrite (next_in_false _ _ _ Hb); [|by set_solver].
  by apply res_ret.
Qed.

Lemma back_of_pipe a : level a ≠ 2%nat → pipe_ok a → back_ok a.
Proof.
  intros Hl IH fuel s ts Q Ha Hb HQ. apply res_bind. eapply res_mono; [apply (IH fuel s ts); [|done]|].
  { rewrite /print_at in Ha |- *. by destruct (level a) as [|[|[|?]]]. }
  intros c s' [Ha' Hc]. apply res_bind, res_gets. by apply HQ.
Qed.

Lemma back_end n c s ts (Q : cmd → Z → Prop) : at_ s ts → before [RP; SEMI] ts → Q c s → gives (back_loop m es n c) Q s.
Proof.
  intros Ha Hb HQ. destruct n as [|n]; [done|]. cbn [back_loop]. apply res_bind. eapply peek_at; [done|set_solver|].
  rewrite (next_in_false _ _ _ Hb); [|by set_solver]. done.
Qed.

(** The first part of a line. *)
Lemma line_first a fuel s ts (Q : cmd → Z → Prop) (k : cmd → M Z cmd) :
  back_ok a → at_ s (print_at 2 a ++ ts) → before [RP; SEMI] ts →
  (∀ c s', at_ s' ts → den c a → gives (k c) Q s') →
  gives (c ← parsepipe m es fuel; s ← Prelude.gets id; c ← back_loop m es (S (Z.to_nat (es - s))) c; k c) Q s.
Proof.
  intros IH Ha Hb HQ. assert (gives (c ← parsepipe m es fuel; s ← Prelude.gets id; back_loop m es (S (Z.to_nat (es - s))) c)
    (λ c s', gives (k c) Q s') s) as H.
  { apply (IH fuel s ts); [done|eapply before_mono; [done|set_solver]|]. intros n c s' Ha' Hc. eapply back_end; [done|done|]. by apply HQ. }
  apply res_bind_inv in H. apply res_bind. eapply res_mono; [exact H|]. intros c s' H'.
  apply res_bind_inv in H'. apply res_bind. eapply res_mono; [exact H'|]. intros x s2 H2. by apply res_bind.
Qed.

Lemma line_of_back a : level a ≠ 3%nat → back_ok a → line_ok a.
Proof.
  intros Hl IH fuel s ts Ha Hb. destruct fuel as [|fuel]; [done|]. cbn [parseline].
  eapply (line_first a fuel s ts); [done| |eapply before_mono; [done|set_solver]|].
  { rewrite print_at_le //. destruct a; simpl in *; lia. }
  intros c s' Ha' Hc. apply res_bind. eapply peek_at; [done|set_solver|]. rewrite (next_in_false _ _ _ Hb); [|by set_solver]. done.
Qed.

Lemma exec_words ws : (length ws < 10)%nat → Forall (λ w, tok_ok (Word w)) ws → exec_ok (AExec ws).
Proof.
  intros Hlen Hw fuel s ts Q Ha Hb HQ. rewrite print_at_le //= in Ha. destruct fuel as [|fuel]; [done|]. cbn [parseexec].
  apply res_bind. eapply peek_at; [done|set_solver|].
  replace (next_in _ _) with false; [|destruct ws; [symmetry; eapply next_in_false; [done|by set_solver]|done]].
  apply res_bind, res_gets, res_bind, res_bind, res_gets, res_bind_inv.
  apply (words_at ws _ _ [] s ts); [done|done|simpl; lia|]. intros k n argv' s' Hk Ha' E. by apply HQ.
Qed.

Lemma exec_redir a kind file : exec_ok a → exec_ok (ARedir a kind file).
Proof.
  intros IH fuel s ts Q Ha Hb HQ. rewrite print_at_le //= -/(print_at 0 a) -app_assoc /= in Ha.
  apply (IH fuel s (redir_tok kind :: Word file :: ts)); [done|destruct kind; simpl; set_solver|].
  intros k n c s' Hk Ha' Hc. eapply kont_redir; [done|]. intros q e n' s2 Ha2 Hf. apply HQ; [done|done|].
  split; [done|]. split; [done|]. by destruct kind.
Qed.

Lemma pipe_pipe a b : exec_ok a → pipe_ok b → pipe_ok (APipe a b).
Proof.
  intros IHa IHb fuel s ts Ha Hb. rewrite print_at_le //= -/(print_at 0 a) -/(print_at 1 b) -app_assoc /= in Ha.
  destruct fuel as [|fuel]; [done|]. cbn [parsepipe]. apply res_bind.
  apply (IHa fuel s (Sym BAR :: print_at 1 b ++ ts)); [done|simpl; set_solver|].
  intros k n c s' Hk Ha' Hc. eapply kont_end; [done|done|simpl; set_solver|].
  apply res_bind. eapply peek_at; [done|set_solver|]. cbn [next_in]. change (chr_in [BAR] BAR) with true. cbn iota.
  apply res_bind. eapply gettoken_at; [done|]. intros s1 Ha1. apply res_bind. eapply res_mono; [by apply IHb|].
  intros r s2 [Ha2 Hr]. by apply res_ret.
Qed.

Lemma back_back a : back_ok a → back_ok (ABack a).
Proof.
  intros IH fuel s ts Q Ha Hb HQ. rewrite print_at_le //= -/(print_at 2 a) -app_assoc /= in Ha.
  apply (IH fuel s (Sym AMP :: ts)); [done|simpl; set_solver|]. intros n c s' Ha' Hc. destruct n as [|n]; [done|].
  cbn [back_loop]. apply res_bind. eapply peek_at; [done|set_solver|]. cbn [next_in]. change (chr_in [AMP] AMP) with true. cbn iota.
  apply res_bind. eapply gettoken_at; [done|]. intros s1 Ha1. by apply HQ.
Qed.

Lemma line_list a b : back_ok a → line_ok b → line_ok (AList a b).
Proof.
  intros IHa IHb fuel s ts Ha Hb. cbn [print] in Ha. rewrite -/(print_at 2 a) -/(print_at 3 b) -app_assoc /= in Ha.
  destruct fuel as [|fuel]; [done|]. cbn [parseline].
  eapply (line_first a fuel s (Sym SEMI :: print_at 3 b ++ ts)); [done|done|simpl; set_solver|].
  intros c s' Ha' Hc. apply res_bind. eapply peek_at; [done|set_solver|]. cbn [next_in]. change (chr_in [SEMI] SEMI) with true. cbn iota.
  apply res_bind. eapply gettoken_at; [done|]. intros s1 Ha1. rewrite print_at_le in Ha1; [|by destruct b; simpl; lia].
  apply res_bind. eapply res_mono; [by apply IHb|]. intros r s2 [Ha2 Hr]. by apply res_ret.
Qed.

(** Every command, by each function of the parser. *)
Lemma print_parses a : ast_ok a → exec_ok a ∧ pipe_ok a ∧ back_ok a ∧ line_ok a.
Proof.
  induction a as [ws|a IH kind file|a IHa b IHb|a IHa b IHb|a IH]; cbn [ast_ok].
  - intros [Hl Hw]. pose proof (exec_words ws Hl Hw) as He. assert (pipe_ok (AExec ws)) as Hp by by apply pipe_of_exec.
    assert (back_ok (AExec ws)) as Hb by by apply back_of_pipe. split_and!; try done. by apply line_of_back.
  - intros [Ha Hf]. destruct (IH Ha) as [He _]. pose proof (exec_redir a kind file He) as He'.
    assert (pipe_ok (ARedir a kind file)) as Hp by by apply pipe_of_exec.
    assert (back_ok (ARedir a kind file)) as Hb by by apply back_of_pipe. split_and!; try done. by apply line_of_back.
  - intros [Ha Hb]. destruct (IHa Ha) as (He & _). destruct (IHb Hb) as (_ & Hp & _). pose proof (pipe_pipe a b He Hp) as Hp'.
    assert (back_ok (APipe a b)) as Hk by by apply back_of_pipe. assert (line_ok (APipe a b)) as Hl by by apply line_of_back.
    split_and!; try done. apply exec_of_line; [simpl; lia|done].
  - intros [Ha Hb]. destruct (IHa Ha) as (_ & _ & Hk & _). destruct (IHb Hb) as (_ & _ & _ & Hl).
    pose proof (line_list a b Hk Hl) as Hl'. assert (exec_ok (AList a b)) as He by (apply exec_of_line; [simpl; lia|done]).
    assert (pipe_ok (AList a b)) as Hp by by apply pipe_of_exec. split_and!; try done. by apply back_of_pipe.
  - intros Ha. destruct (IH Ha) as (_ & _ & Hk & _). pose proof (back_back a Hk) as Hk'.
    assert (line_ok (ABack a)) as Hl by by apply line_of_back.
    assert (exec_ok (ABack a)) as He by (apply exec_of_line; [simpl; lia|done]). split_and!; try done. by apply pipe_of_exec.
Qed.

Lemma parse_print a s :
  ast_ok a → at_ s (print a) → gives (λ s, parse m es s) (λ c s', s' = es ∧ den c a) s.
Proof.
  intros Ha Hs. change (λ s, parse m es s) with (parse m es).
  assert (gives (c ← parseline m es (parse_fuel es s); peek m es [];; mret c) (λ c s', s' = es ∧ den c a) s) as H; [|exact H].
  apply res_bind. destruct (print_parses a Ha) as (_ & _ & _ & Hl).
  eapply res_mono; [apply (Hl _ s []); [by rewrite app_nil_r|done]|]. intros c s' [Hs' Hc].
  apply res_bind. eapply peek_at; [done|set_solver|]. apply res_ret. split; [|done]. destruct Hs' as (_ & -> & _). simpl. lia.
Qed.
End run.
End lex.

(** The tree [c] is the command [a], with its words as strings in memory. *)
Fixpoint reads (m : gmap Z Z) (c : cmd) (a : ast) : Prop :=
  match c, a with
  | EXEC argv, AExec ws => Forall2 (λ w l, cstr m w.1 l) argv ws
  | REDIR c file _ mode fd, ARedir a k w => reads m c a ∧ cstr m file w ∧ (mode, fd) = redir_mode k
  | PIPE c1 c2, APipe a1 a2 | LIST c1 c2, AList a1 a2 => reads m c1 a1 ∧ reads m c2 a2
  | BACK c, ABack a => reads m c a
  | _, _ => False
  end.

Lemma den_reads m m' c a : den m c a → (∀ w, w ∈ words c → cstr m' w.1 (slice m w)) → reads m' c a.
Proof.
  revert a. induction c as [argv|c IH file efile mode fd|lc IHl rc IHr|lc IHl rc IHr|c IH]; intros [ws|a k w|a b|a b|a]; try done; simpl.
  - intros <- Hw. apply Forall2_fmap_r, Forall_Forall2_diag, Forall_forall. intros w Hin. by apply Hw.
  - intros (Hc & <- & Hm) Hw. split; [apply IH; [done|]; intros; apply Hw, elem_of_app; by left|]. split; [|done].
    apply (Hw (file, efile)), elem_of_app. right. left.
  - intros [Hl Hr] Hw. split; [apply IHl|apply IHr]; try done; intros; apply Hw, elem_of_app; auto.
  - intros [Hl Hr] Hw. split; [apply IHl|apply IHr]; try done; intros; apply Hw, elem_of_app; auto.
  - intros Hc Hw. by apply IH.
Qed.

Lemma print_ok a : ast_ok a → Forall tok_ok (print a).
Proof.
  assert (∀ l b, Forall tok_ok (print b) → Forall tok_ok (print_at l b)) as Hat.
  { intros l b Hb. rewrite /print_at. destruct (_ <=? _)%nat; [done|]. constructor; [simpl; set_solver|].
    apply Forall_app. split; [done|]. by repeat constructor. }
  assert (∀ l b (c : Z) ts, Forall tok_ok (print b) → c ∈ symbols → Forall tok_ok ts → Forall tok_ok (print_at l b ++ Sym c :: ts)) as Hop.
  { intros l b c ts Hb Hc Hts. apply Forall_app. split; [by apply Hat|]. by constructor. }
  induction a as [ws|a IH kind file|a IHa b IHb|a IHa b IHb|a IH]; cbn [ast_ok print].
  - intros [_ Hw]. by apply Forall_fmap.
  - intros [Ha Hf]. rewrite -/(print_at 0 a). apply Forall_app. split; [by apply Hat, IH|].
    constructor; [by destruct kind; simpl; try set_solver|]. constructor; [done|constructor].
  - intros [Ha Hb]. rewrite -/(print_at 0 a) -/(print_at 1 b). apply Hop; [by apply IHa|set_solver|by apply Hat, IHb].
  - intros [Ha Hb]. rewrite -/(print_at 2 a) -/(print_at 3 b). apply Hop; [by apply IHa|set_solver|by apply Hat, IHb].
  - intros Ha. rewrite -/(print_at 2 a). apply Hop; [by apply IH|set_solver|constructor].
Qed.

Section roundtrip.
Context {O : Type} `{Os O}.

(** C12: the shell reads what has been printed.  For every command tree with
    fewer than 10 arguments in each command, whatever its nesting of pipes,
    lists, background commands and redirections, [parsecmd] on its text gives
    that tree: pipes and lists associate to the right, [&] binds tighter than
    [;], redirections apply from left to right, and parentheses keep what they
    enclose.  The pointers of the tree are strings that are its words. *)
Theorem parsecmd_print a s u :
  ast_ok a → cstr (um u) s (text (print a)) →
  wp (parsecmd (O := O) s) (λ r u', ∃ c, r = inl c ∧ reads (um u') c a) u.
Proof.
  intros Ha Hs. destruct (cstr_line _ _ _ Hs) as [He Hn]. set es := s + Z.of_nat (length (text (print a))) in He Hn.
  pose proof (parse_safe (um u) es He s Hn ltac:(lia)) as H1.
  pose proof (parse_print (um u) es a s Ha ltac:(split_and!; [done|done|by apply print_ok])) as H2.
  destruct (res_wp _ _ _ _ _ H1 H2) as (c & s' & E & [_ Hc] & -> & Hd).
  apply uwp_bind. eapply Ulib.wp_strlen; [exact Hs|]. apply uwp_bind, uwp_gets. cbv zeta. fold es. rewrite E Z.eqb_refl. cbn [negb].
  apply uwp_bind, uwp_modify, uwp_ret. exists c. split; [done|]. eapply den_reads; [done|].
  intros w Hw. by eapply nulterminate_words.
Qed.
End roundtrip.
End ShPrint.

(** [ls a | ( wc ; x & ) > f] *)
Definition demo_ast : ShPrint.ast :=
  ShPrint.APipe (ShPrint.AExec [chars "ls"; chars "a"])
    (ShPrint.ARedir (ShPrint.AList (ShPrint.AExec [chars "wc"]) (ShPrint.ABack (ShPrint.AExec [chars "x"]))) ShPrint.Out (chars "f")).

Lemma parsecmd_print_witness :
  let u := mk_user (put_bytes ∅ 4096 (ShPrint.text (ShPrint.print demo_ast))) 0 (mk_tape [] []) in
  wp (Sh.parsecmd 4096) (λ r u', ∃ c, r = inl c ∧ ShPrint.reads (um u') c demo_ast) u.
Proof.
  intros u. apply (ShPrint.parsecmd_print demo_ast 4096 u).
  - vm_compute. repeat constructor; done.
  - vm_compute. repeat split; done.
Defined.

Lemma parse_ends_witness :
  match Sh.parse (put_bytes ∅ 4096 (chars "a|b >c")) 4102 4096 with
  | Ret (c, s') => 4096 ≤ s' ≤ 4102 ∧ Sh.tree_ok (put_bytes ∅ 4096 (chars "a|b >c")) 4102 4096 c
  | Panic msg => msg ∈ ["missing file for redirection"; "syntax"; "too many args"; "syntax - missing )"]%string
  | UB | Fuel => False
  end.
Proof. apply (Sh.parse_ends (put_bytes ∅ 4096 (chars "a|b >c")) 4096 (chars "a|b >c")). vm_compute. repeat split; done. Defined.
