(* ===== verification/Uprogs.v ===== *)
(** * The small user programs (user/cat.c, wc.c, echo.c, ls.c, ln.c, mkdir.c,
    rm.c, kill.c, init.c, zombie.c)

    The arguments of [main] are the list of the pointers in [argv].  Static
    variables and string literals whose address the program passes on are
    addresses that are arguments of the definitions.  A loop that ends when a
    system call says so takes fuel.

    The theorems: [cat] copies its input and [wc] counts it, however [read]
    cuts it into pieces. *)

From S2P Require Import Prelude Mem Cstring Fs User Ulib.
Import Ulib Uprintf.

Notation O_RDONLY := 0.
Notation O_RDWR := 2.
Notation NL := 10.

(** ** cat *)

Module Cat.
Section cat.
Context {O : Type} `{Os O} (buf : Z).

Fixpoint cat_loop (fuel : nat) (fd : Z) : U O Z :=
  match fuel with
  | 0%nat => uout_of_fuel
  | S fuel =>
      n ← read fd buf 512;
      if 0 <? n then
        r ← write 1 buf n;
        if negb (r =? n) then
          fprintf 2 (chars "cat: write error" ++ [NL]) [];;
          exit 1
        else cat_loop fuel fd
      else mret n
  end.

Definition cat (fuel : nat) (fd : Z) : U O unit :=
  n ← cat_loop fuel fd;
  if n <? 0 then
    fprintf 2 (chars "cat: read error" ++ [NL]) [];;
    exit 1
  else mret tt.

Fixpoint cat_files (fuel : nat) (files : list Z) : U O unit :=
  match files with
  | [] => mret tt
  | a :: files =>
      fd ← open a O_RDONLY;
      if fd <? 0 then
        fprintf 2 (chars "cat: cannot open %s" ++ [NL]) [VStr a];;
        exit 1
      else
        cat fuel fd;;
        close fd;;
        cat_files fuel files
  end.

Definition main (fuel : nat) (argv : list Z) : U O Z :=
  match argv with
  | _ :: _ :: _ => cat_files fuel (tail argv);; exit 0
  | _ => cat fuel 0;; exit 0
  end.
End cat.
End Cat.

(** ** wc *)

Module Wc.
Record counts := mk_counts { wc_l : Z; wc_w : Z; wc_c : Z; inword : bool }.

(** [" \r\t\n\v"] *)
Definition blanks : list Z := [32; 13; 9; 10; 11].
Definition blank (c : Z) : bool := existsb (Z.eqb c) blanks.

Section wc.
Context {O : Type} `{Os O} (buf : Z).

(** One character; a count that does not fit an [int] is undefined. *)
Definition wc_char (x : Z) (st : counts) : U O counts :=
  if wc_c st =? 2 ^ 31 - 1 then uundefined
  else
    let c := wc_c st + 1 in
    let l := if x =? NL then wc_l st + 1 else wc_l st in
    mret (if blank x then mk_counts l (wc_w st) c false
          else if negb (inword st) then mk_counts l (wc_w st + 1) c true
          else mk_counts l (wc_w st) c true).

Fixpoint wc_chars (k : nat) (i : Z) (st : counts) : U O counts :=
  match k with
  | 0%nat => mret st
  | S k =>
      x ← load8 (buf + i);
      st ← wc_char x st;
      wc_chars k (i + 1) st
  end.

Fixpoint wc_loop (fuel : nat) (fd : Z) (st : counts) : U O (Z * counts) :=
  match fuel with
  | 0%nat => uout_of_fuel
  | S fuel =>
      n ← read fd buf 512;
      if 0 <? n then
        st ← wc_chars (Z.to_nat n) 0 st;
        wc_loop fuel fd st
      else mret (n, st)
  end.

Definition wc (fuel : nat) (fd name : Z) : U O unit :=
  r ← wc_loop fuel fd (mk_counts 0 0 0 false);
  let '(n, st) := r in
  if n <? 0 then
    printf (chars "wc: read error" ++ [NL]) [];;
    exit 1
  else printf (chars "%d %d %d %s" ++ [NL]) [VInt (wc_l st); VInt (wc_w st); VInt (wc_c st); VStr name].

Fixpoint wc_files (fuel : nat) (files : list Z) : U O unit :=
  match files with
  | [] => mret tt
  | a :: files =>
      fd ← open a O_RDONLY;
      if fd <? 0 then
        printf (chars "wc: cannot open %s" ++ [NL]) [VStr a];;
        exit 1
      else
        wc fuel fd a;;
        close fd;;
        wc_files fuel files
  end.

(** [empty] is the address of the literal [""]. *)
Definition main (fuel : nat) (empty : Z) (argv : list Z) : U O Z :=
  match argv with
  | _ :: _ :: _ => wc_files fuel (tail argv);; exit 0
  | _ => wc fuel 0 empty;; exit 0
  end.
End wc.
End Wc.

(** ** echo *)

Module Echo.
Section echo.
Context {O : Type} `{Os O}.

Fixpoint echo_args (args : list Z) : U O unit :=
  match args with
  | [] => mret tt
  | a :: args =>
      n ← strlen a;
      write 1 a n;;
      call (os_write 1 (match args with [] => [NL] | _ => [32] end));;
      echo_args args
  end.

Definition main (argv : list Z) : U O Z :=
  echo_args (tail argv);;
  exit 0.
End echo.
End Echo.

(** ** ls *)

Module Ls.
Notation DIRSIZ := 14.
Notation SLASH := 47.
Notation T_FILE := 2.
Notation T_DEVICE := 3.

(** The search for the last slash, down from [p]. *)
Fixpoint last_slash (k : nat) (m : gmap Z Z) (p : Z) : Z :=
  match k with
  | 0%nat => p
  | S k => if ld8 m p =? SLASH then p else last_slash k m (p - 1)
  end.

Section ls.
Context {O : Type} `{Os O}.

(** [buf] is the static buffer. *)
Definition fmtname (buf path : Z) : U O Z :=
  n ← strlen path;
  p ← ugets (λ s, last_slash (Z.to_nat (n + 1)) (um s) (path + n));
  let p := p + 1 in
  len ← strlen p;
  if DIRSIZ <=? len then mret p
  else
    memmove buf p len;;
    memset (buf + len) 32 (DIRSIZ - len);;
    mret buf.

(** The loop over the entries of a directory: [de] is the address of the
    entry read, [buf] the path, [p] its last part. *)
Fixpoint ls_loop (fuel : nat) (fd nbuf de buf p : Z) : U O unit :=
  match fuel with
  | 0%nat => uout_of_fuel
  | S fuel =>
      r ← read fd de 16;
      if negb (r =? 16) then mret tt
      else
        inum ← ugets (λ s, ld16 (um s) de);
        if inum =? 0 then ls_loop fuel fd nbuf de buf p
        else
          memmove p (de + 2) DIRSIZ;;
          store8 (p + DIRSIZ) 0;;
          st ← stat buf;
          match st with
          | None =>
              printf (chars "ls: cannot stat %s" ++ [NL]) [VStr buf];;
              ls_loop fuel fd nbuf de buf p
          | Some st =>
              name ← fmtname nbuf buf;
              printf (chars "%s %d %d %d" ++ [NL])
                [VStr name; VInt (st_type st); VInt (s32 (st_ino st)); VInt (s32 (st_size st))];;
              ls_loop fuel fd nbuf de buf p
          end
  end.

Definition ls (fuel : nat) (nbuf de buf path : Z) : U O unit :=
  fd ← open path O_RDONLY;
  if fd <? 0 then fprintf 2 (chars "ls: cannot open %s" ++ [NL]) [VStr path]
  else
    st ← fstat fd;
    match st with
    | None =>
        fprintf 2 (chars "ls: cannot stat %s" ++ [NL]) [VStr path];;
        close fd;;
        mret tt
    | Some st =>
        (if (st_type st =? T_DEVICE) || (st_type st =? T_FILE) then
           name ← fmtname nbuf path;
           printf (chars "%s %d %d %l" ++ [NL])
             [VStr name; VInt (st_type st); VInt (s32 (st_ino st)); VLong (st_size st)]
         else if st_type st =? T_DIR then
           n ← strlen path;
           if 512 <? n + 1 + DIRSIZ + 1 then printf (chars "ls: path too long" ++ [NL]) []
           else
             strcpy buf path;;
             n ← strlen buf;
             store8 (buf + n) SLASH;;
             ls_loop fuel fd nbuf de buf (buf + n + 1)
         else mret tt);;
        close fd;;
        mret tt
    end.

Fixpoint ls_all (fuel : nat) (nbuf de buf : Z) (paths : list Z) : U O unit :=
  match paths with
  | [] => mret tt
  | a :: paths =>
      ls fuel nbuf de buf a;;
      ls_all fuel nbuf de buf paths
  end.

(** [dot] is the address of the literal ["."]. *)
Definition main (fuel : nat) (nbuf de buf dot : Z) (argv : list Z) : U O Z :=
  match argv with
  | _ :: _ :: _ => ls_all fuel nbuf de buf (tail argv);; exit 0
  | _ => ls fuel nbuf de buf dot;; exit 0
  end.
End ls.
End Ls.

(** ** ln, mkdir, rm, kill *)

Module Ln.
Definition main {O : Type} `{Os O} (argv : list Z) : U O Z :=
  match argv with
  | [_; old; new] =>
      r ← link old new;
      (if r <? 0 then fprintf 2 (chars "link %s %s: failed" ++ [NL]) [VStr old; VStr new] else mret tt);;
      exit 0
  | _ => fprintf 2 (chars "Usage: ln old new" ++ [NL]) [];; exit 1
  end.
End Ln.

Module Mkdir.
Section mkdir.
Context {O : Type} `{Os O}.

Fixpoint mkdir_args (args : list Z) : U O unit :=
  match args with
  | [] => mret tt
  | a :: args =>
      r ← mkdir a;
      if r <? 0 then fprintf 2 (chars "mkdir: %s failed to create" ++ [NL]) [VStr a]
      else mkdir_args args
  end.

Definition main (argv : list Z) : U O Z :=
  match argv with
  | _ :: _ :: _ => mkdir_args (tail argv);; exit 0
  | _ => fprintf 2 (chars "Usage: mkdir files..." ++ [NL]) [];; exit 1
  end.
End mkdir.
End Mkdir.

Module Rm.
Section rm.
Context {O : Type} `{Os O}.

Fixpoint rm_args (args : list Z) : U O unit :=
  match args with
  | [] => mret tt
  | a :: args =>
      r ← unlink a;
      if r <? 0 then fprintf 2 (chars "rm: %s failed to delete" ++ [NL]) [VStr a]
      else rm_args args
  end.

Definition main (argv : list Z) : U O Z :=
  match argv with
  | _ :: _ :: _ => rm_args (tail argv);; exit 0
  | _ => fprintf 2 (chars "Usage: rm files..." ++ [NL]) [];; exit 1
  end.
End rm.
End Rm.

Module Kill.
Section kill.
Context {O : Type} `{Os O}.

Fixpoint kill_args (args : list Z) : U O unit :=
  match args with
  | [] => mret tt
  | a :: args =>
      pid ← atoi a;
      kill pid;;
      kill_args args
  end.

Definition main (argv : list Z) : U O Z :=
  match argv with
  | _ :: _ :: _ => kill_args (tail argv);; exit 0
  | _ => fprintf 2 (chars "usage: kill pid..." ++ [NL]) [];; exit 1
  end.
End kill.
End Kill.

(** ** init, zombie *)

Module Init.
Notation CONSOLE := 1.

Section init.
Context {O : Type} `{Os O}.

(** [sh] is the address of the literal ["sh"], and [argv] holds it. *)
Variable sh : Z.

(** The inner loop: wait for the shell [pid]. *)
Fixpoint wait_shell (fuel : nat) (pid : Z) : U O unit :=
  match fuel with
  | 0%nat => uout_of_fuel
  | S fuel =>
      wpid ← wait0;
      if wpid =? pid then mret tt
      else if wpid <? 0 then
        printf (chars "init: wait returned an error" ++ [NL]) [];;
        exit 1
      else wait_shell fuel pid
  end.

Fixpoint main_loop (fuel : nat) : U O Z :=
  match fuel with
  | 0%nat => uout_of_fuel
  | S fuel =>
      printf (chars "init: starting sh" ++ [NL]) [];;
      pid ← fork;
      if pid <? 0 then
        printf (chars "init: fork failed" ++ [NL]) [];;
        exit 1
      else
        (if pid =? 0 then
           exec sh [sh];;
           printf (chars "init: exec sh failed" ++ [NL]) [];;
           exit 1
         else mret tt);;
        wait_shell fuel pid;;
        main_loop fuel
  end.

Definition main (fuel : nat) : U O Z :=
  fd ← call (os_open (chars "console") O_RDWR);
  (if fd <? 0 then
     call (os_mknod (chars "console") CONSOLE 0);;
     call (os_open (chars "console") O_RDWR);;
     mret tt
   else mret tt);;
  dup 0;;
  dup 0;;
  main_loop fuel.
End init.
End Init.

Module Zombie.
Definition main {O : Type} `{Os O} : U O Z :=
  pid ← fork;
  (if 0 <? pid then sleep 5;; mret tt else mret tt);;
  exit 0.
End Zombie.

(** ** What cat and wc do *)

Section cat.
Context {O : Type} {fd : Z} `{Stream fd O} (buf : Z).

(** [cat] writes its input. *)
Lemma cat_copies fuel s :
  (length (inp (u_os s)) < fuel)%nat →
  wp (Cat.cat buf fuel fd) (λ r s', r = inl tt ∧ outp (u_os s') = outp (u_os s) ++ inp (u_os s)) s.
Proof.
  intros Hf. apply uwp_bind.
  eapply (wp_mono _ (λ r s', r = inl 0 ∧ outp (u_os s') = outp (u_os s) ++ inp (u_os s))); [|by intros r s' [-> ?]].
  revert s Hf. induction fuel as [|fuel IH]; intros s Hf; [lia|]. cbn [Cat.cat_loop]. apply uwp_bind.
  apply wp_read; [lia|]. intros l o' Hi Ho Hl Hb Hne. destruct (Z.ltb_spec 0 (Z.of_nat (length l))) as [Hpos|Hz].
  - apply uwp_bind. eapply (wp_write _ _ l); [rewrite Nat2Z.id; by apply get_put_bytes|]. intros o2 Hi2 Ho2.
    rewrite Z.eqb_refl. cbn [negb]. eapply wp_mono; [apply IH|].
    + simpl. rewrite Hi2 /=. rewrite Hi length_app in Hf. lia.
    + intros r s' [-> E]. split; [done|]. rewrite E /= Ho2 Hi2 /= Ho Hi app_assoc //.
  - assert (l = []) as -> by (destruct l; simpl in *; [done|lia]). apply uwp_ret. simpl. split; [done|].
    rewrite Ho. destruct (inp (u_os s)) as [|c rest]; [by rewrite app_nil_r|]. exfalso. by apply Hne.
Qed.
End cat.

(** The counts of a text, by its positions: a word starts at a character that
    is no blank and is the first or comes after a blank. *)
Definition starts (text : list Z) (i : nat) : bool :=
  match text !! i with
  | Some c => negb (Wc.blank c) && match i with 0%nat => true | S j => default false (Wc.blank <$> text !! j) end
  | None => false
  end.

Definition n_lines (text : list Z) : nat := length (filter (λ c, c = NL) text).
Definition n_words (text : list Z) : nat := length (filter (λ i, starts text i = true) (seq 0 (length text))).

Definition wc_step (st : Wc.counts) (x : Z) : Wc.counts :=
  let l := if x =? NL then Wc.wc_l st + 1 else Wc.wc_l st in
  if Wc.blank x then Wc.mk_counts l (Wc.wc_w st) (Wc.wc_c st + 1) false
  else if negb (Wc.inword st) then Wc.mk_counts l (Wc.wc_w st + 1) (Wc.wc_c st + 1) true
  else Wc.mk_counts l (Wc.wc_w st) (Wc.wc_c st + 1) true.

Definition counted (text : list Z) : Wc.counts :=
  Wc.mk_counts (Z.of_nat (n_lines text)) (Z.of_nat (n_words text)) (Z.of_nat (length text))
    (default false ((λ c, negb (Wc.blank c)) <$> last text)).

Lemma filter_on (P Q : nat → Prop) `{∀ i, Decision (P i), ∀ i, Decision (Q i)} (l : list nat) :
  (∀ i, i ∈ l → P i ↔ Q i) → filter P l = filter Q l.
Proof.
  induction l as [|i l IH]; intros Hl; [done|]. rewrite !filter_cons IH; [|intros j Hj; apply Hl; by right].
  pose proof (Hl i ltac:(left)). repeat case_decide; tauto.
Qed.

Lemma n_words_snoc text x :
  n_words (text ++ [x]) = (n_words text + (if negb (Wc.blank x) && default true (Wc.blank <$> last text) then 1 else 0))%nat.
Proof.
  rewrite /n_words length_app Nat.add_1_r seq_S filter_app length_app /=. f_equal.
  - f_equal. apply filter_on. intros i Hi%elem_of_seq. rewrite /starts lookup_app_l; [|lia].
    destruct i as [|i]; [done|]. rewrite lookup_app_l; [done|lia].
  - assert (starts (text ++ [x]) (length text) = negb (Wc.blank x) && default true (Wc.blank <$> last text)) as E.
    { rewrite /starts list_lookup_middle //. f_equal. rewrite last_lookup. destruct (length text) as [|n] eqn:El; simpl.
      - by destruct text.
      - rewrite lookup_app_l; [|lia]. destruct (lookup_lt_is_Some_2 text n) as [y ->]; [lia|done]. }
    rewrite filter_cons filter_nil E. by destruct (_ && _).
Qed.

Lemma n_lines_snoc text x :
  Z.of_nat (n_lines (text ++ [x])) = if x =? NL then Z.of_nat (n_lines text) + 1 else Z.of_nat (n_lines text).
Proof.
  rewrite /n_lines filter_app length_app filter_cons filter_nil. destruct (Z.eqb_spec x NL).
  - rewrite decide_True //=. lia.
  - rewrite decide_False //=. lia.
Qed.

Lemma counted_snoc text x : wc_step (counted text) x = counted (text ++ [x]).
Proof.
  rewrite /counted n_words_snoc n_lines_snoc last_snoc length_app /wc_step /=.
  destruct (Wc.blank x), (last text) as [y|]; simpl; try destruct (Wc.blank y); simpl; f_equal; lia.
Qed.

Lemma counted_app text l : foldl wc_step (counted text) l = counted (text ++ l).
Proof.
  revert text. induction l as [|x l IH]; intros text; simpl; [by rewrite app_nil_r|].
  rewrite counted_snoc IH. by rewrite -app_assoc.
Qed.

(** The line that [wc] prints. *)
Definition wc_line (l w c : nat) (name out : list Z) : Prop :=
  ∃ dl dw dc, decimal (Z.of_nat l) dl ∧ decimal (Z.of_nat w) dw ∧ decimal (Z.of_nat c) dc ∧
    out = dl ++ [32] ++ dw ++ [32] ++ dc ++ [32] ++ name ++ [NL].

Section wc.
Context {O : Type} {fd : Z} `{Stream fd O} (buf : Z).

Lemma wp_wc_chars l k i st (Q : Wc.counts + uend → user O → Prop) s :
  (∀ j c, l !! j = Some c → ld8 (um s) (buf + i + Z.of_nat j) = c) → k = length l →
  Wc.wc_c st + Z.of_nat (length l) < 2 ^ 31 → Q (inl (foldl wc_step st l)) s → wp (Wc.wc_chars buf k i st) Q s.
Proof.
  intros Hl -> Hc HQ. revert i st Hl Hc HQ. induction l as [|x l IH]; intros i st Hl Hc HQ; cbn [Wc.wc_chars length]; [done|].
  rewrite /load8. apply uwp_bind, uwp_gets, uwp_bind. rewrite -(Z.add_0_r (buf + i)) (Hl 0%nat x) // /Wc.wc_char.
  simpl in Hc. rewrite (proj2 (Z.eqb_neq (Wc.wc_c st) (2 ^ 31 - 1))); [|lia]. apply uwp_ret. apply IH; [| |done].
  - intros j c Hj. rewrite -(Hl (S j) c Hj). f_equal. lia.
  - rewrite /wc_step. repeat case_match; simpl; lia.
Qed.

Lemma wp_wc_loop fuel text s :
  (length (inp (u_os s)) < fuel)%nat → Z.of_nat (length (text ++ inp (u_os s))) < 2 ^ 31 →
  wp (Wc.wc_loop buf fuel fd (counted text)) (λ r s', r = inl (0, counted (text ++ inp (u_os s))) ∧
    outp (u_os s') = outp (u_os s) ∧ ∀ a, ¬ span buf 512 a → ld8 (um s') a = ld8 (um s) a) s.
Proof.
  revert text s. induction fuel as [|fuel IH]; intros text s Hf Hb; [lia|]. cbn [Wc.wc_loop]. apply uwp_bind.
  apply wp_read; [lia|]. intros l o' Hi Ho Hl Hby Hne.
  assert (∀ a, ¬ span buf 512 a → ld8 (put_bytes (um s) buf l) a = ld8 (um s) a) as Hm.
  { intros a Ha. apply put_bytes_out. unfold span in Ha. lia. }
  destruct (Z.ltb_spec 0 (Z.of_nat (length l))) as [Hpos|Hz].
  - apply uwp_bind. eapply (wp_wc_chars l); [| by rewrite Nat2Z.id | |].
    + intros j c Hj. rewrite Z.add_0_r. by apply put_bytes_in.
    + rewrite Hi !length_app in Hb. simpl. lia.
    + rewrite counted_app. eapply wp_mono; [apply (IH (text ++ l))|]; simpl.
      * rewrite Hi length_app in Hf. lia.
      * by rewrite -app_assoc -Hi.
      * intros r s' (-> & Ho' & Hm'). rewrite -app_assoc -Hi Ho' Ho. split_and!; try done.
        intros a Ha. by rewrite Hm' // Hm.
  - assert (l = []) as -> by (destruct l; simpl in *; [done|lia]). apply uwp_ret. simpl. split_and!; [|done|done].
    destruct (inp (u_os s)) as [|c rest]; [by rewrite app_nil_r|]. exfalso. by apply Hne.
Qed.
End wc.

Section wc_claim.
Context {O : Type} {fd : Z} `{Stream fd O} (buf name : Z) (nm : list Z).

Lemma outp_wrote l (o : O) : outp (wrote 1 l o) = outp o ++ (u8 <$> l).
Proof.
  revert o. induction l as [|c l IH]; intros o; [by rewrite app_nil_r|].
  change (wrote 1 (c :: l) o) with (wrote 1 l (os_write 1 [u8 c] o).2). rewrite IH fmap_cons.
  pose proof (write_all [u8 c] o) as Hw. destruct (os_write 1 [u8 c] o) as [r o']. destruct Hw as (_ & _ & Hw). simpl. by rewrite Hw -app_assoc.
Qed.

Lemma n_words_le text : (n_words text ≤ length text)%nat.
Proof. rewrite /n_words. etrans; [apply length_filter|]. by rewrite length_seq. Qed.

Lemma fmap_u8 l : Forall byte l → u8 <$> l = l.
Proof. induction 1 as [|c l Hc Hl IH]; [done|]. rewrite fmap_cons IH. f_equal. apply Z.mod_small, Hc. Qed.

Lemma wc_fmt m a b c da db dc :
  int_chars a 10 true = Some da → int_chars b 10 true = Some db → int_chars c 10 true = Some dc →
  0 ≤ a → 0 ≤ b → 0 ≤ c → 0 < name → cstr m name nm →
  let fmt := chars "%d %d %d %s" ++ [NL] in let ap := [VInt a; VInt b; VInt c; VStr name] in
  fmt_ok fmt ap false = true ∧ fmt_text m fmt ap false = da ++ [32] ++ db ++ [32] ++ dc ++ [32] ++ nm ++ [NL].
Proof.
  intros Ea Eb Ec Ha Hb Hc Hn Hm fmt ap. subst fmt ap.
  change (chars "%d %d %d %s" ++ [NL]) with [37; 100; 32; 37; 100; 32; 37; 100; 32; 37; 115; 10]. split.
  - cbn [fmt_ok negb Z.eqb Pos.eqb]. repeat rewrite (proj2 (Z.eqb_neq _ (- 2 ^ 31))); [done|lia..].
  - cbn [fmt_text negb Z.eqb Pos.eqb]. rewrite Ea Eb Ec (cstring_cstr _ _ _ Hm) (proj2 (Z.eqb_neq name 0)); [done|lia].
Qed.

Lemma decimal_byte n l : decimal n l → Forall byte l.
Proof. intros (_ & Hl & _). eapply Forall_impl; [exact Hl|]. unfold byte. lia. Qed.

(** C29: wc counts.  For any input of less than 2 GB, in any pieces and
    without a read error, [wc] prints one line with the number of newlines, the
    number of words and the number of bytes of the input, in decimal, and the
    name.  A word starts wherever a character that is no blank comes first or
    follows a blank, also when the end of a piece is between them. *)
Theorem wc_counts fuel s :
  cstr (um s) name nm → 0 < name → (name + Z.of_nat (length nm) < buf ∨ buf + 512 ≤ name) →
  (length (inp (u_os s)) < fuel)%nat → Z.of_nat (length (inp (u_os s))) < 2 ^ 31 →
  wp (Wc.wc buf fuel fd name) (λ r s', r = inl tt ∧
    ∃ out, outp (u_os s') = outp (u_os s) ++ out ∧
      wc_line (n_lines (inp (u_os s))) (n_words (inp (u_os s))) (length (inp (u_os s))) nm out) s.
Proof.
  intros Hn Hn0 Hout Hf Hlen. apply uwp_bind. change (Wc.mk_counts 0 0 0 false) with (counted []).
  set text := inp (u_os s) in Hf Hlen |- *. eapply wp_mono; [by apply wp_wc_loop|]. intros r s' (-> & Ho & Hm).
  rewrite app_nil_l -/text. cbv beta iota. change (0 <? 0) with false. cbv iota. 
  assert (cstr (um s') name nm) as Hn'. { eapply cstr_ext; [|done]. intros a Ha. apply Hm. unfold span. lia. }
  assert (n_lines text ≤ length text)%nat by apply length_filter. pose proof (n_words_le text).
  destruct (int_chars_decimal (Z.of_nat (n_lines text))) as (dl & El & Hl); [lia|].
  destruct (int_chars_decimal (Z.of_nat (n_words text))) as (dw & Ew & Hw); [lia|].
  destruct (int_chars_decimal (Z.of_nat (length text))) as (dc & Ec & Hc); [lia|].
  destruct (wc_fmt (um s') (Wc.wc_l (counted text)) (Wc.wc_w (counted text)) (Wc.wc_c (counted text)) dl dw dc)
    as [Hok Htext]; try done; [simpl; lia..|].
  apply (wp_fprintf 1); [exact Hok|]. rewrite Htext. split; [done|]. exists (dl ++ [32] ++ dw ++ [32] ++ dc ++ [32] ++ nm ++ [NL]).
  split; [|by exists dl, dw, dc]. simpl u_os. rewrite outp_wrote Ho fmap_u8 //.
  apply decimal_byte in Hl, Hw, Hc. apply cstr_byte in Hn. cbn [app].
  repeat first [done | apply Forall_app; split | apply Forall_cons; split | by apply Forall_nil].
Qed.
End wc_claim.

(** "a b\nc" has one line, three words and five bytes. *)
Lemma wc_counts_witness :
  let s := mk_user (put_bytes ∅ 100 (chars "f")) 0 (mk_tape (chars "a b" ++ [10] ++ chars "c") []) in
  wp (Wc.wc 4096 10 0 100) (λ r s', r = inl tt ∧ ∃ out, t_out (u_os s') = out ∧ wc_line 1 3 5 (chars "f") out) s.
Proof.
  intros s. assert (inp (fd := 0) (u_os s) = [97; 32; 98; 10; 99]) as E by (vm_compute; done).
  eapply wp_mono; [apply (wc_counts (fd := 0) 4096 100 (chars "f") 10 s)|].
  - vm_compute. repeat split; done.
  - lia.
  - left. vm_compute. done.
  - rewrite E. simpl. lia.
  - rewrite E. simpl. lia.
  - rewrite E. intros r s' (-> & out & Ho & Hl). split; [done|]. exists out. split; [exact Ho|]. exact Hl.
Defined.
