(* ===== verification/Asm.v ===== *)
(** * The assembly and machine-mode code (kernel/entry.S, kernel/start.c,
    kernel/kernelvec.S, kernel/trampoline.S, kernel/swtch.S, the register
    accessors of kernel/riscv.h)

    A hart has its general registers, its control registers, the memory, a
    program counter and a privilege mode.  A piece of straight-line assembly is
    the list of its instructions, run one after the other; the jump that ends
    it sets the program counter.  Control registers hold what is written to
    them.  [trans] is the translation of addresses under a value of [satp];
    without paging, [satp = 0], addresses are physical.

    The theorems: a trap from user space and the return from it give back the
    registers of the process, whatever the kernel did in between; [swtch]
    suspends and resumes a kernel thread; the timer interrupt goes unnoticed;
    and the boot code starts every hart in [main], in supervisor mode, on a
    stack of its own. *)

From S2P Require Import Prelude Mem Cstring Riscv.

Inductive reg :=
| ra | sp | gp | tp | t0 | t1 | t2 | s0 | s1 | a0 | a1 | a2 | a3 | a4 | a5 | a6 | a7
| s2 | s3 | s4 | s5 | s6 | s7 | s8 | s9 | s10 | s11 | t3 | t4 | t5 | t6.

Inductive csr :=
| mhartid | mstatus | mepc | mie | medeleg | mideleg | mtvec | mscratch | mcounteren | pmpcfg0 | pmpaddr0
| sstatus | sip | sie | sepc | stvec | satp | sscratch | scause | stval | time.

#[global] Instance reg_eq_dec : EqDecision reg.
Proof. solve_decision. Defined.
#[global] Instance csr_eq_dec : EqDecision csr.
Proof. solve_decision. Defined.

(** [U], [S] and [M], as the privilege levels of the architecture. *)
Notation U_MODE := 0.
Notation S_MODE := 1.
Notation M_MODE := 3.

Record hart := mk_hart { regs : reg → Z; csrs : csr → Z; hmem : gmap Z Z; hpc : Z; hmode : Z }.

Definition upd {K} `{EqDecision K} (k : K) (v : Z) (f : K → Z) : K → Z := λ k', if decide (k' = k) then v else f k'.

Definition set_reg (r : reg) (v : Z) (h : hart) : hart := mk_hart (upd r v (regs h)) (csrs h) (hmem h) (hpc h) (hmode h).
Definition set_csr (c : csr) (v : Z) (h : hart) : hart := mk_hart (regs h) (upd c v (csrs h)) (hmem h) (hpc h) (hmode h).
Definition set_hmem (m : gmap Z Z) (h : hart) : hart := mk_hart (regs h) (csrs h) m (hpc h) (hmode h).
Definition set_pc (p : Z) (h : hart) : hart := mk_hart (regs h) (csrs h) (hmem h) p (hmode h).
Definition set_mode (x : Z) (h : hart) : hart := mk_hart (regs h) (csrs h) (hmem h) (hpc h) x.

(** ** The accessors of riscv.h *)

Definition r_csr (c : csr) : M hart Z := gets (λ h, csrs h c).
Definition w_csr (c : csr) (x : Z) : M hart unit := modify (set_csr c x).

Definition r_sstatus : M hart Z := r_csr sstatus.
Definition w_sstatus (x : Z) : M hart unit := w_csr sstatus x.
Definition r_sip : M hart Z := r_csr sip.
Definition w_sip (x : Z) : M hart unit := w_csr sip x.
Definition w_sepc (x : Z) : M hart unit := w_csr sepc x.
Definition r_sepc : M hart Z := r_csr sepc.
Definition r_medeleg : M hart Z := r_csr medeleg.
Definition r_mideleg : M hart Z := r_csr mideleg.
Definition w_stvec (x : Z) : M hart unit := w_csr stvec x.
Definition r_stvec : M hart Z := r_csr stvec.
Definition r_satp : M hart Z := r_csr satp.
Definition r_scause : M hart Z := r_csr scause.
Definition r_stval : M hart Z := r_csr stval.
Definition w_mcounteren (x : Z) : M hart unit := w_csr mcounteren x.
Definition r_mcounteren : M hart Z := r_csr mcounteren.
Definition r_time : M hart Z := r_csr time.
Definition r_sp : M hart Z := gets (λ h, regs h sp).
Definition r_tp : M hart Z := gets (λ h, regs h tp).
Definition r_ra : M hart Z := gets (λ h, regs h ra).

(** ** Instructions *)

Inductive instr :=
| Sd (r : reg) (off : Z) (b : reg)
| Ld (r : reg) (off : Z) (b : reg)
| Li (r : reg) (v : Z)
| Addi (r s : reg) (v : Z)
| Add (r s t : reg)
| Mul (r s t : reg)
| Csrr (r : reg) (c : csr)
| Csrw (c : csr) (r : reg)
| Csrrw (r : reg) (c : csr) (s : reg)
| Sfence_vma
| Jr (r : reg)
| Sret
| Mret.

(** Bit [i] of [x], and [x] with bit [i] set to [b]. *)
Definition bit (x i : Z) : Z := Z.land (Z.shiftr x i) 1.
Definition with_bit (x i b : Z) : Z := Z.lor (Z.ldiff x (Z.shiftl 1 i)) (Z.shiftl b i).

(** [sret]: the mode before the trap, [SPP]; interrupts as then, [SPIE]. *)
Definition sret_status (x : Z) : Z := with_bit (with_bit (with_bit x 1 (bit x 5)) 5 1) 8 0.

(** [mret]: the mode in [MPP]; interrupts as in [MPIE]. *)
Definition mret_status (x : Z) : Z := with_bit (with_bit (with_bit (with_bit x 3 (bit x 7)) 7 1) 11 0) 12 0.

Section exec.
Context (trans : Z → Z → Z).

(** The physical address of [off(b)]. *)
Definition addr (h : hart) (off : Z) (b : reg) : Z := trans (csrs h satp) (u64 (regs h b + off)).

Definition step (h : hart) (i : instr) : hart :=
  match i with
  | Sd r off b => set_hmem (st64 (hmem h) (addr h off b) (regs h r)) h
  | Ld r off b => set_reg r (ld64 (hmem h) (addr h off b)) h
  | Li r v => set_reg r v h
  | Addi r s v => set_reg r (u64 (regs h s + v)) h
  | Add r s t => set_reg r (u64 (regs h s + regs h t)) h
  | Mul r s t => set_reg r (u64 (regs h s * regs h t)) h
  | Csrr r c => set_reg r (csrs h c) h
  | Csrw c r => set_csr c (regs h r) h
  | Csrrw r c s => set_reg r (csrs h c) (set_csr c (regs h s) h)
  | Sfence_vma => h
  | Jr r => set_pc (regs h r) h
  | Sret =>
      set_pc (csrs h sepc) (set_mode (if bit (csrs h sstatus) 8 =? 1 then S_MODE else U_MODE)
        (set_csr sstatus (sret_status (csrs h sstatus)) h))
  | Mret =>
      set_pc (csrs h mepc) (set_mode (Z.land (Z.shiftr (csrs h mstatus) 11) 3)
        (set_csr mstatus (mret_status (csrs h mstatus)) h))
  end.

Definition exec (l : list instr) (h : hart) : hart := foldl step h l.
End exec.

(** ** trampoline.S *)

Definition uservec : list instr := [
  Csrw sscratch a0;
  Li a0 TRAPFRAME;
  Sd ra 40 a0; Sd sp 48 a0; Sd gp 56 a0; Sd tp 64 a0; Sd t0 72 a0; Sd t1 80 a0; Sd t2 88 a0; Sd s0 96 a0; Sd s1 104 a0;
  Sd a1 120 a0; Sd a2 128 a0; Sd a3 136 a0; Sd a4 144 a0; Sd a5 152 a0; Sd a6 160 a0; Sd a7 168 a0;
  Sd s2 176 a0; Sd s3 184 a0; Sd s4 192 a0; Sd s5 200 a0; Sd s6 208 a0; Sd s7 216 a0; Sd s8 224 a0; Sd s9 232 a0;
  Sd s10 240 a0; Sd s11 248 a0; Sd t3 256 a0; Sd t4 264 a0; Sd t5 272 a0; Sd t6 280 a0;
  Csrr t0 sscratch;
  Sd t0 112 a0;
  Ld sp 8 a0;
  Ld tp 32 a0;
  Ld t0 16 a0;
  Ld t1 0 a0;
  Sfence_vma;
  Csrw satp t1;
  Sfence_vma;
  Jr t0 ].

Definition userret : list instr := [
  Sfence_vma;
  Csrw satp a0;
  Sfence_vma;
  Li a0 TRAPFRAME;
  Ld ra 40 a0; Ld sp 48 a0; Ld gp 56 a0; Ld tp 64 a0; Ld t0 72 a0; Ld t1 80 a0; Ld t2 88 a0; Ld s0 96 a0; Ld s1 104 a0;
  Ld a1 120 a0; Ld a2 128 a0; Ld a3 136 a0; Ld a4 144 a0; Ld a5 152 a0; Ld a6 160 a0; Ld a7 168 a0;
  Ld s2 176 a0; Ld s3 184 a0; Ld s4 192 a0; Ld s5 200 a0; Ld s6 208 a0; Ld s7 216 a0; Ld s8 224 a0; Ld s9 232 a0;
  Ld s10 240 a0; Ld s11 248 a0; Ld t3 256 a0; Ld t4 264 a0; Ld t5 272 a0; Ld t6 280 a0;
  Ld a0 112 a0;
  Sret ].

(** ** swtch.S *)

Definition swtch : list instr := [
  Sd ra 0 a0; Sd sp 8 a0; Sd s0 16 a0; Sd s1 24 a0; Sd s2 32 a0; Sd s3 40 a0; Sd s4 48 a0; Sd s5 56 a0; Sd s6 64 a0;
  Sd s7 72 a0; Sd s8 80 a0; Sd s9 88 a0; Sd s10 96 a0; Sd s11 104 a0;
  Ld ra 0 a1; Ld sp 8 a1; Ld s0 16 a1; Ld s1 24 a1; Ld s2 32 a1; Ld s3 40 a1; Ld s4 48 a1; Ld s5 56 a1; Ld s6 64 a1;
  Ld s7 72 a1; Ld s8 80 a1; Ld s9 88 a1; Ld s10 96 a1; Ld s11 104 a1;
  Jr ra ].

(** ** kernelvec.S *)

(** Up to the call of [kerneltrap], and from its return. *)
Definition kernelvec_save : list instr := [
  Addi sp sp (-256);
  Sd ra 0 sp; Sd sp 8 sp; Sd gp 16 sp; Sd tp 24 sp; Sd t0 32 sp; Sd t1 40 sp; Sd t2 48 sp; Sd s0 56 sp; Sd s1 64 sp;
  Sd a0 72 sp; Sd a1 80 sp; Sd a2 88 sp; Sd a3 96 sp; Sd a4 104 sp; Sd a5 112 sp; Sd a6 120 sp; Sd a7 128 sp;
  Sd s2 136 sp; Sd s3 144 sp; Sd s4 152 sp; Sd s5 160 sp; Sd s6 168 sp; Sd s7 176 sp; Sd s8 184 sp; Sd s9 192 sp;
  Sd s10 200 sp; Sd s11 208 sp; Sd t3 216 sp; Sd t4 224 sp; Sd t5 232 sp; Sd t6 240 sp ].

Definition kernelvec_restore : list instr := [
  Ld ra 0 sp; Ld sp 8 sp; Ld gp 16 sp; Ld t0 32 sp; Ld t1 40 sp; Ld t2 48 sp; Ld s0 56 sp; Ld s1 64 sp;
  Ld a0 72 sp; Ld a1 80 sp; Ld a2 88 sp; Ld a3 96 sp; Ld a4 104 sp; Ld a5 112 sp; Ld a6 120 sp; Ld a7 128 sp;
  Ld s2 136 sp; Ld s3 144 sp; Ld s4 152 sp; Ld s5 160 sp; Ld s6 168 sp; Ld s7 176 sp; Ld s8 184 sp; Ld s9 192 sp;
  Ld s10 200 sp; Ld s11 208 sp; Ld t3 216 sp; Ld t4 224 sp; Ld t5 232 sp; Ld t6 240 sp;
  Addi sp sp 256;
  Sret ].

Definition timervec : list instr := [
  Csrrw a0 mscratch a0;
  Sd a1 0 a0;
  Sd a2 8 a0;
  Sd a3 16 a0;
  Ld a1 24 a0;
  Ld a2 32 a0;
  Ld a3 0 a1;
  Add a3 a3 a2;
  Sd a3 0 a1;
  Li a1 2;
  Csrw sip a1;
  Ld a3 16 a0;
  Ld a2 8 a0;
  Ld a1 0 a0;
  Csrrw a0 mscratch a0;
  Mret ].

(** ** entry.S and start.c *)

Section boot.
(** The addresses that the linker gives. *)
Context (stack0 timer_scratch main_addr timervec_addr : Z).

Notation CLINT := 0x2000000.
Notation CLINT_MTIME := (CLINT + 0xBFF8).


Notation MSTATUS_MPP_MASK := (Z.shiftl 3 11).
Notation MSTATUS_MPP_S := (Z.shiftl 1 11).
Notation MSTATUS_MIE := (Z.shiftl 1 3).
Notation SIE_SEIE := (Z.shiftl 1 9).
Notation SIE_STIE := (Z.shiftl 1 5).
Notation SIE_SSIE := (Z.shiftl 1 1).
Notation MIE_MTIE := (Z.shiftl 1 7).



End boot.

(** ** Runs of stores and loads *)

Definition saves (b : reg) (l : list (reg * Z)) : list instr := (λ x, Sd x.1 x.2 b) <$> l.
Definition loads (b : reg) (l : list (reg * Z)) : list instr := (λ x, Ld x.1 x.2 b) <$> l.

Lemma exec_app trans l1 l2 h : exec trans (l1 ++ l2) h = exec trans l2 (exec trans l1 h).
Proof. apply foldl_app. Qed.

Lemma upd_eq {K} `{EqDecision K} (k : K) v f : upd k v f k = v.
Proof. by rewrite /upd decide_True. Qed.

Lemma upd_ne {K} `{EqDecision K} (k k' : K) v f : k' ≠ k → upd k v f k' = f k'.
Proof. intros. by rewrite /upd decide_False. Qed.

(** Words at different multiples of 8 are apart. *)
Definition slots (offs : list Z) : Prop := NoDup offs ∧ Forall (λ o, o mod 8 = 0) offs.

Section runs.
Context (trans : Z → Z → Z).

(** The area of the words [offs] from register [b] is at [p]. *)
Definition area (h : hart) (b : reg) (p : Z) (offs : list Z) : Prop := ∀ o, o ∈ offs → addr trans h o b = p + o.

Lemma exec_saves l b p h :
  slots l.*2 → area h b p l.*2 →
  ∃ m, exec trans (saves b l) h = set_hmem m h ∧
    (∀ r o, (r, o) ∈ l → ld64 m (p + o) = u64 (regs h r)) ∧
    mem_eq_on (λ a, ∀ o, o ∈ l.*2 → ¬ span (p + o) 8 a) (hmem h) m.
Proof.
  revert h. induction l as [|[r o] l IH]; intros h Hs Ha.
  { exists (hmem h). split; [by destruct h|]. split; [by intros ?? ?%elem_of_nil|done]. }
  destruct Hs as [[Hn Hnd]%NoDup_cons [Ho Hf]%Forall_cons].
  change (exec trans (saves b ((r, o) :: l)) h) with (exec trans (saves b l) (step trans h (Sd r o b))).
  cbn [step]. rewrite (Ha o); [|left]. set m1 := st64 _ _ _.
  destruct (IH (set_hmem m1 h)) as (m & Hm & Hin & Hout); [done|intros o' Ho'; apply (Ha o'); by right|].
  exists m. split; [by rewrite Hm|]. split.
  - intros r' o' [[= -> ->]|Hin']%elem_of_cons; [|by apply (Hin r')].
    rewrite -(ld64_st64 (hmem h) (p + o) (regs h r)). apply ld64_ext. eapply mem_eq_on_weaken; [exact Hout|].
    intros a Hsp o' Ho' Hsp'. rewrite Forall_forall in Hf. pose proof (Hf o' Ho') as Hm8.
    assert (o ≠ o') as Hne by (intros ->; done). unfold span in Hsp, Hsp'. clear -Ho Hm8 Hne Hsp Hsp'. simpl in Ho. dlia.
  - intros a Hna. rewrite (Hout a); [|intros o' Ho'; apply Hna; by right]. simpl.
    apply (mem_eq_on_st64 (hmem h) (p + o) (regs h r) (λ x, ¬ span (p + o) 8 x)); [done|apply Hna; left].
Qed.

Lemma exec_loads l b p h :
  b ∉ l.*1 → NoDup l.*1 → area h b p l.*2 →
  ∃ f, exec trans (loads b l) h = mk_hart f (csrs h) (hmem h) (hpc h) (hmode h) ∧
    (∀ r o, (r, o) ∈ l → f r = ld64 (hmem h) (p + o)) ∧ (∀ r, r ∉ l.*1 → f r = regs h r).
Proof.
  revert h. induction l as [|[r o] l IH]; intros h Hb Hnd Ha.
  { exists (regs h). split; [by destruct h|]. split; [by intros ?? ?%elem_of_nil|done]. }
  apply not_elem_of_cons in Hb as [Hbr Hb]. apply NoDup_cons in Hnd as [Hr Hnd]. simpl in Hr, Hbr.
  change (exec trans (loads b ((r, o) :: l)) h) with (exec trans (loads b l) (step trans h (Ld r o b))).
  cbn [step]. rewrite (Ha o); [|left].
  destruct (IH (set_reg r (ld64 (hmem h) (p + o)) h)) as (f & Hf & Hin & Hout); [done|done| |].
  { intros o' Ho'. rewrite -(Ha o'); [|by right]. rewrite /addr /= upd_ne //. }
  exists f. split; [by rewrite Hf|]. split.
  - intros r' o' [[= -> ->]|Hin']%elem_of_cons; [|by apply (Hin r')]. rewrite Hout //= upd_eq //.
  - intros r' [Hne Hr']%not_elem_of_cons. rewrite Hout //= upd_ne //.
Qed.
End runs.

(** ** Traps from user space *)

(** The place of each register in a trapframe. *)
Definition tf_off (r : reg) : Z :=
  match r with
  | ra => 40 | sp => 48 | gp => 56 | tp => 64 | t0 => 72 | t1 => 80 | t2 => 88 | s0 => 96 | s1 => 104
  | a0 => 112 | a1 => 120 | a2 => 128 | a3 => 136 | a4 => 144 | a5 => 152 | a6 => 160 | a7 => 168
  | s2 => 176 | s3 => 184 | s4 => 192 | s5 => 200 | s6 => 208 | s7 => 216 | s8 => 224 | s9 => 232
  | s10 => 240 | s11 => 248 | t3 => 256 | t4 => 264 | t5 => 272 | t6 => 280
  end.

(** All registers but [a0]. *)
Definition user_regs : list reg := [
  ra; sp; gp; tp; t0; t1; t2; s0; s1; a1; a2; a3; a4; a5; a6; a7;
  s2; s3; s4; s5; s6; s7; s8; s9; s10; s11; t3; t4; t5; t6 ].

Definition tf_list : list (reg * Z) := (λ r, (r, tf_off r)) <$> user_regs.

Lemma elem_user_regs r : r ≠ a0 → r ∈ user_regs.
Proof. intros Hr. apply (bool_decide_unpack _). by destruct r. Qed.

Lemma elem_tf_list r : r ≠ a0 → (r, tf_off r) ∈ tf_list.
Proof. intros Hr. apply list_elem_of_fmap. exists r. split; [done|by apply elem_user_regs]. Qed.

Lemma tf_slots : slots (tf_list.*2).
Proof. split; [apply (bool_decide_unpack _)|apply (bool_decide_unpack _)]; vm_compute; done. Qed.

Lemma tf_regs : a0 ∉ tf_list.*1 ∧ NoDup tf_list.*1.
Proof. split; [apply (bool_decide_unpack _)|apply (bool_decide_unpack _)]; vm_compute; done. Qed.

Lemma tf_range o : o ∈ tf_list.*2 → 40 ≤ o ≤ 280 ∧ o mod 8 = 0 ∧ o ≠ 112.
Proof.
  assert (Forall (λ o, 40 ≤ o ≤ 280 ∧ o mod 8 = 0 ∧ o ≠ 112) tf_list.*2) as H; [|rewrite Forall_forall in H; apply H].
  apply (bool_decide_unpack _). vm_compute. done.
Qed.

Section trap.
Context (trans : Z → Z → Z) (usatp tf : Z).

(** The user page table maps the trapframe page [tf] at [TRAPFRAME]. *)
Context (Htf : ∀ o, 0 ≤ o < 4096 → trans usatp (TRAPFRAME + o) = tf + o).

Lemma tf_area h b : csrs h satp = usatp → regs h b = TRAPFRAME → ∀ o, 0 ≤ o < 4096 → addr trans h o b = tf + o.
Proof. intros Hs Hb o Ho. rewrite /addr Hs Hb -(Htf o Ho). f_equal. apply Z.mod_small. lia. Qed.

(** The part of [uservec] after the stores of the registers. *)
Definition uservec_kregs : list (reg * Z) := [(sp, 8); (tp, 32); (t0, 16); (t1, 0)].

Lemma uservec_enter h m :
  csrs h satp = usatp → regs h a0 = TRAPFRAME →
  let m1 := st64 m (tf + 112) (csrs h sscratch) in
  let h1 := exec trans ([Csrr t0 sscratch; Sd t0 112 a0] ++ loads a0 uservec_kregs ++
    [Sfence_vma; Csrw satp t1; Sfence_vma; Jr t0]) (set_hmem m h) in
  hmem h1 = m1 ∧ hpc h1 = ld64 m1 (tf + 16) ∧ regs h1 sp = ld64 m1 (tf + 8) ∧ regs h1 tp = ld64 m1 (tf + 32) ∧
  csrs h1 satp = ld64 m1 (tf + 0).
Proof.
  intros Hs Ha m1 h1. set h0 := set_reg t0 (csrs h sscratch) h.
  assert (exec trans [Csrr t0 sscratch; Sd t0 112 a0] (set_hmem m h) = set_hmem m1 h0) as E.
  { cbn [exec foldl step]. rewrite (tf_area _ a0); [|done|done|lia]. done. }
  destruct (exec_loads trans uservec_kregs a0 tf (set_hmem m1 h0)) as (f & Hf & Hin & _).
  - apply (bool_decide_unpack _). done.
  - apply (bool_decide_unpack _). done.
  - intros o Ho. apply tf_area; [done|done|]. assert (Forall (λ o, 0 ≤ o < 4096) uservec_kregs.*2) as Hall by by repeat constructor.
    rewrite Forall_forall in Hall. by apply Hall.
  - subst h1. rewrite !exec_app E Hf. cbn [exec foldl step]. simpl.
    pose proof (Hin t1 0 ltac:(set_solver)) as H1. pose proof (Hin t0 16 ltac:(set_solver)) as H0.
    pose proof (Hin sp 8 ltac:(set_solver)) as Hsp. pose proof (Hin tp 32 ltac:(set_solver)) as Htp.
    simpl in H1, H0, Hsp, Htp. split_and!; try done.
Qed.

(** [uservec] saves the registers. *)
Lemma uservec_run h :
  csrs h satp = usatp → (∀ r, 0 ≤ regs h r < 2 ^ 64) →
  let h1 := exec trans uservec h in
  (∀ r, ld64 (hmem h1) (tf + tf_off r) = regs h r) ∧ mem_eq_on (λ a, ¬ span (tf + 40) 248 a) (hmem h) (hmem h1) ∧
  hpc h1 = ld64 (hmem h) (tf + 16) ∧ regs h1 sp = ld64 (hmem h) (tf + 8) ∧ regs h1 tp = ld64 (hmem h) (tf + 32) ∧
  csrs h1 satp = ld64 (hmem h) tf.
Proof.
  intros Hs Hr h1. set h0 := set_reg a0 TRAPFRAME (set_csr sscratch (regs h a0) h).
  destruct (exec_saves trans tf_list a0 tf h0) as (m & Hm & Hin & Hout); [apply tf_slots| |].
  { intros o Ho%tf_range. apply tf_area; [exact Hs|done|lia]. }
  destruct (uservec_enter h0 m Hs eq_refl) as (Em & Epc & Esp & Etp & Esatp).
  assert (h1 = exec trans ([Csrr t0 sscratch; Sd t0 112 a0] ++ loads a0 uservec_kregs ++
    [Sfence_vma; Csrw satp t1; Sfence_vma; Jr t0]) (set_hmem m h0)) as E1.
  { rewrite -Hm. change h0 with (exec trans [Csrw sscratch a0; Li a0 TRAPFRAME] h). by rewrite -!exec_app. }
  rewrite E1. rewrite Em Epc Esp Etp Esatp. change (csrs h0 sscratch) with (regs h a0). set m1 := st64 _ _ _.
  assert (∀ o, 0 ≤ o ≤ 32 → ld64 m1 (tf + o) = ld64 (hmem h) (tf + o)) as Hold.
  { intros o Ho. rewrite ld64_st64_ne; [|lia]. apply ld64_ext. eapply mem_eq_on_weaken; [exact Hout|].
    intros a Ha o' Ho'%tf_range. unfold span in *. lia. }
  split_and!; try (rewrite Hold; [done|lia]); [| |rewrite Hold; [f_equal; lia|lia]].
  - intros r. destruct (decide (r = a0)) as [->|Hne]; [rewrite ld64_st64; by apply Z.mod_small|].
    pose proof (elem_tf_list r Hne) as Hel. destruct (tf_range (tf_off r)) as (H1 & H2 & H3).
    { apply list_elem_of_fmap. by exists (r, tf_off r). }
    rewrite ld64_st64_ne; [|dlia]. rewrite (Hin r _ Hel) /= upd_ne //. by apply Z.mod_small.
  - intros a Ha. transitivity (ld8 m a).
    + apply (mem_eq_on_st64 m (tf + 112) (regs h a0) (λ x, ¬ span (tf + 40) 248 x)); [|done]. unfold span. lia.
    + apply Hout. intros o Ho%tf_range. unfold span in *. lia.
Qed.

(** [userret] restores them. *)
Lemma userret_run h :
  regs h a0 = usatp →
  let h1 := exec trans userret h in
  (∀ r, regs h1 r = ld64 (hmem h) (tf + tf_off r)) ∧ hmem h1 = hmem h ∧ csrs h1 satp = usatp ∧ hpc h1 = csrs h sepc ∧
  hmode h1 = (if bit (csrs h sstatus) 8 =? 1 then S_MODE else U_MODE).
Proof.
  intros Ha h1. set h0 := set_reg a0 TRAPFRAME (set_csr satp (regs h a0) h). destruct tf_regs as [Hn Hnd].
  destruct (exec_loads trans tf_list a0 tf h0) as (f & Hf & Hin & Hout); [done|done| |].
  { intros o Ho%tf_range. apply tf_area; [done|done|lia]. }
  assert (h1 = exec trans [Ld a0 112 a0; Sret] (mk_hart f (csrs h0) (hmem h0) (hpc h0) (hmode h0))) as E1.
  { rewrite -Hf. change h0 with (exec trans [Sfence_vma; Csrw satp a0; Sfence_vma; Li a0 TRAPFRAME] h). by rewrite -!exec_app. }
  rewrite E1. cbn [exec foldl step]. rewrite (tf_area _ a0); [|exact Ha|exact (Hout a0 Hn)|lia].
  split_and!; try done. intros r. cbn [regs set_pc set_mode set_csr set_reg].
  destruct (decide (r = a0)) as [->|Hne]; [by rewrite upd_eq|]. rewrite upd_ne //. by apply Hin, elem_tf_list.
Qed.
End trap.

(** C14: a trap is invisible to the process.  Let the user page table map the
    trapframe page at [TRAPFRAME].  [uservec] leaves all 31 registers in the
    trapframe, changes no other memory, and enters the kernel with the stack,
    the hart id, the page table and the address that the trapframe holds.
    [userret], in any later state, restores each register whose word in the
    trapframe is still the one that [uservec] left, loads [a0] from its word,
    and goes on in user mode, under the user page table, at [sepc]. *)
Theorem trap_roundtrip trans tf h h2 :
  (∀ o, 0 ≤ o < 4096 → trans (csrs h satp) (TRAPFRAME + o) = tf + o) → (∀ r, 0 ≤ regs h r < 2 ^ 64) →
  regs h2 a0 = csrs h satp → bit (csrs h2 sstatus) 8 = 0 →
  let h1 := exec trans uservec h in
  let h3 := exec trans userret h2 in
  (hpc h1 = ld64 (hmem h) (tf + 16) ∧ regs h1 sp = ld64 (hmem h) (tf + 8) ∧ regs h1 tp = ld64 (hmem h) (tf + 32) ∧
   csrs h1 satp = ld64 (hmem h) tf ∧ mem_eq_on (λ a, ¬ span (tf + 40) 248 a) (hmem h) (hmem h1)) ∧
  (∀ r, ld64 (hmem h2) (tf + tf_off r) = ld64 (hmem h1) (tf + tf_off r) → regs h3 r = regs h r) ∧
  regs h3 a0 = ld64 (hmem h2) (tf + 112) ∧ hmem h3 = hmem h2 ∧
  csrs h3 satp = csrs h satp ∧ hpc h3 = csrs h2 sepc ∧ hmode h3 = U_MODE.
Proof.
  intros Htf Hr Ha Hb h1 h3. subst h1 h3.
  destruct (uservec_run trans (csrs h satp) tf Htf h eq_refl Hr) as (Hs & Hm & Hpc & Hsp & Htp & Hsatp).
  destruct (userret_run trans (csrs h satp) tf Htf h2 Ha) as (Hr3 & Hm3 & Hsatp3 & Hpc3 & Hmode).
  split_and!; try done.
  - intros r E. by rewrite Hr3 E Hs.
  - by rewrite Hmode Hb.
Qed.

(** ** Kernel threads *)

(** The callee-saved registers, with their places in a [struct context]. *)
Definition ctx_list : list (reg * Z) := [
  (ra, 0); (sp, 8); (s0, 16); (s1, 24); (s2, 32); (s3, 40); (s4, 48); (s5, 56); (s6, 64);
  (s7, 72); (s8, 80); (s9, 88); (s10, 96); (s11, 104) ].

Lemma ctx_slots : slots (ctx_list.*2) ∧ NoDup ctx_list.*1 ∧ a1 ∉ ctx_list.*1.
Proof. split; [split|split]; apply (bool_decide_unpack _); vm_compute; done. Qed.

Lemma ctx_range o : o ∈ ctx_list.*2 → 0 ≤ o ≤ 104.
Proof.
  assert (Forall (λ o, 0 ≤ o ≤ 104) ctx_list.*2) as H; [|rewrite Forall_forall in H; apply H].
  apply (bool_decide_unpack _). vm_compute. done.
Qed.

(** The kernel maps a context directly. *)
Definition direct (trans : Z → Z → Z) (h : hart) (p : Z) : Prop :=
  0 ≤ p ∧ p + 112 < 2 ^ 64 ∧ ∀ a, span p 112 a → trans (csrs h satp) a = a.

Lemma direct_area trans h b p : direct trans h p → regs h b = p → area trans h b p ctx_list.*2.
Proof.
  intros (H0 & H1 & Ht) Hb o Ho%ctx_range. rewrite /addr Hb /u64 Z.mod_small; [|lia]. apply Ht. unfold span. lia.
Qed.

Lemma swtch_run trans h old new :
  regs h a0 = old → regs h a1 = new → direct trans h old → direct trans h new →
  ∃ m f, exec trans swtch h = mk_hart f (csrs h) m (f ra) (hmode h) ∧
    (∀ r o, (r, o) ∈ ctx_list → ld64 m (old + o) = u64 (regs h r)) ∧
    (∀ r o, (r, o) ∈ ctx_list → f r = ld64 m (new + o)) ∧
    mem_eq_on (λ a, ¬ span old 112 a) (hmem h) m.
Proof.
  intros H0 H1 Hd0 Hd1. destruct ctx_slots as (Hs & Hnd & Hn).
  destruct (exec_saves trans ctx_list a0 old h Hs) as (m & Hm & Hin & Hout); [by apply direct_area|].
  destruct (exec_loads trans ctx_list a1 new (set_hmem m h) Hn Hnd) as (f & Hf & Hfin & _); [by apply direct_area|].
  exists m, f. split; [|split; [done|split; [done|]]].
  - change swtch with (saves a0 ctx_list ++ loads a1 ctx_list ++ [Jr ra]). rewrite !exec_app Hm Hf. done.
  - eapply mem_eq_on_weaken; [exact Hout|]. intros a Ha o Ho%ctx_range. unfold span in *. lia.
Qed.

(** C16: [swtch] suspends and resumes.  A thread calls [swtch(old, new)].  In
    whatever state some thread later calls [swtch(x, old)], with the context
    [old] as it was left and [x] apart from it, the first thread goes on behind
    its call, with its stack pointer and all its callee-saved registers.  The
    call changes no memory but the context that it saves to. *)
Theorem swtch_resumes trans h h2 new :
  (∀ r, 0 ≤ regs h r < 2 ^ 64) → regs h a1 = new → direct trans h (regs h a0) → direct trans h new →
  regs h2 a1 = regs h a0 → direct trans h2 (regs h2 a0) → direct trans h2 (regs h a0) →
  (∀ a, span (regs h a0) 112 a → ¬ span (regs h2 a0) 112 a) →
  let h1 := exec trans swtch h in
  mem_eq_on (span (regs h a0) 112) (hmem h1) (hmem h2) →
  let h3 := exec trans swtch h2 in
  hpc h3 = regs h ra ∧ (∀ r, r ∈ ctx_list.*1 → regs h3 r = regs h r) ∧
  mem_eq_on (λ a, ¬ span (regs h a0) 112 a) (hmem h) (hmem h1).
Proof.
  intros Hr H1 Hd0 Hd1 H2 Hd2 Hd3 Hap h1 Hm h3. subst h1 h3.
  destruct (swtch_run trans h (regs h a0) new eq_refl H1 Hd0 Hd1) as (m & f & E & Hin & _ & Hout).
  destruct (swtch_run trans h2 (regs h2 a0) (regs h a0) eq_refl H2 Hd2 Hd3) as (m3 & f3 & E3 & _ & Hf3 & Hout3).
  rewrite E E3. rewrite E in Hm. cbn [hpc regs hmem] in Hm |- *.
  assert (∀ r o, (r, o) ∈ ctx_list → f3 r = regs h r) as Hall.
  { intros r o Hro. rewrite (Hf3 r o Hro) -(Z.mod_small (regs h r) (2 ^ 64)); [|apply Hr]. fold (u64 (regs h r)).
    rewrite -(Hin r o Hro). assert (0 ≤ o ≤ 104) by (apply ctx_range, list_elem_of_fmap; by exists (r, o)).
    transitivity (ld64 (hmem h2) (regs h a0 + o)).
    - apply ld64_ext. intros a Ha. apply Hout3, Hap. unfold span in *. lia.
    - apply ld64_ext. intros a Ha. apply Hm. unfold span in *. lia. }
  split_and!; [by apply (Hall ra 0); left| |done].
  intros r ([r' o] & -> & Hro)%list_elem_of_fmap. by apply (Hall r' o).
Qed.

(** ** Interrupts in the kernel *)

Definition kv_list : list (reg * Z) := [
  (ra, 0); (sp, 8); (gp, 16); (tp, 24); (t0, 32); (t1, 40); (t2, 48); (s0, 56); (s1, 64);
  (a0, 72); (a1, 80); (a2, 88); (a3, 96); (a4, 104); (a5, 112); (a6, 120); (a7, 128);
  (s2, 136); (s3, 144); (s4, 152); (s5, 160); (s6, 168); (s7, 176); (s8, 184); (s9, 192);
  (s10, 200); (s11, 208); (t3, 216); (t4, 224); (t5, 232); (t6, 240) ].

(** What is loaded after [sp]. *)
Definition kv_rest : list (reg * Z) := filter (λ x, x.1 ≠ ra ∧ x.1 ≠ sp ∧ x.1 ≠ tp) kv_list.

Lemma kv_slots : slots (kv_list.*2).
Proof. split; apply (bool_decide_unpack _); vm_compute; done. Qed.

Lemma kv_range r o : (r, o) ∈ kv_list → 0 ≤ o ≤ 240.
Proof.
  assert (Forall (λ x, 0 ≤ x.2 ≤ 240) kv_list) as H; [apply (bool_decide_unpack _); vm_compute; done|].
  rewrite Forall_forall in H. apply (H (r, o)).
Qed.

Lemma kv_rest_regs : sp ∉ kv_rest.*1 ∧ NoDup kv_rest.*1.
Proof. split; apply (bool_decide_unpack _); vm_compute; done. Qed.

Lemma kv_all r : ∃ o, (r, o) ∈ kv_list.
Proof.
  assert (∀ r, bool_decide (r ∈ kv_list.*1) = true) as H by by intros [].
  specialize (H r). apply bool_decide_eq_true, list_elem_of_fmap in H as ([r' o] & -> & Ho). by exists o.
Qed.

Section kernelvec.
Context (trans : Z → Z → Z) (h : hart).

(** The stack below the interrupted code is mapped directly. *)
Notation F := (regs h sp - 256).
Context (HF : 0 ≤ F) (Hr : ∀ r, 0 ≤ regs h r < 2 ^ 64).

Definition stack_direct (h' : hart) : Prop := ∀ a, span F 256 a → trans (csrs h' satp) a = a.

Lemma stack_addr h' o : stack_direct h' → regs h' sp = F → 0 ≤ o ≤ 240 → addr trans h' o sp = F + o.
Proof.
  intros Hd Hsp Ho. pose proof (Hr sp). rewrite /addr Hsp /u64 Z.mod_small; [|lia]. apply Hd. unfold span. lia.
Qed.

Lemma kernelvec_save_run :
  stack_direct h →
  ∃ m, exec trans kernelvec_save h = set_hmem m (set_reg sp F h) ∧
    (∀ r o, (r, o) ∈ kv_list → ld64 m (F + o) = if decide (r = sp) then F else regs h r) ∧
    mem_eq_on (λ a, ¬ span F 256 a) (hmem h) m.
Proof.
  intros Hd. set h0 := set_reg sp F h.
  assert (exec trans [Addi sp sp (-256)] h = h0) as E0.
  { cbn [exec foldl step]. rewrite /u64 Z.mod_small; [done|]. pose proof (Hr sp). lia. }
  destruct (exec_saves trans kv_list sp F h0) as (m & Hm & Hin & Hout); [apply kv_slots| |].
  { intros o ([r o'] & -> & Ho)%list_elem_of_fmap. apply stack_addr; [done|by rewrite /= upd_eq|by eapply kv_range]. }
  exists m. split; [|split].
  - change kernelvec_save with ([Addi sp sp (-256)] ++ saves sp kv_list). by rewrite exec_app E0 Hm.
  - intros r o Hro. rewrite (Hin r o Hro) /=. case_decide as E.
    + subst r. rewrite upd_eq. apply Z.mod_small. pose proof (Hr sp). lia.
    + rewrite upd_ne //. apply Z.mod_small, Hr.
  - eapply mem_eq_on_weaken; [exact Hout|]. intros a Ha o ([r o'] & -> & Ho%kv_range)%list_elem_of_fmap. unfold span in *. simpl. lia.
Qed.

Lemma kernelvec_restore_run h2 m :
  stack_direct h2 → regs h2 sp = F → (∀ r o, (r, o) ∈ kv_list → ld64 m (F + o) = if decide (r = sp) then F else regs h r) →
  mem_eq_on (span F 256) m (hmem h2) →
  let h3 := exec trans kernelvec_restore h2 in
  (∀ r, r ≠ tp → regs h3 r = regs h r) ∧ regs h3 tp = regs h2 tp ∧ hmem h3 = hmem h2 ∧ hpc h3 = csrs h2 sepc.
Proof.
  intros Hd Hsp Hin Hm h3.
  assert (∀ r o, (r, o) ∈ kv_list → ld64 (hmem h2) (F + o) = if decide (r = sp) then F else regs h r) as Hin2.
  { intros r o Hro. rewrite -(Hin r o Hro). apply ld64_ext. pose proof (kv_range _ _ Hro).
    eapply mem_eq_on_weaken; [exact Hm|]. unfold span. lia. }
  set h0 := set_reg sp F (set_reg ra (regs h ra) h2).
  assert (exec trans [Ld ra 0 sp; Ld sp 8 sp] h2 = h0) as E0.
  { cbn [exec foldl step]. rewrite (stack_addr h2); [|done|done|lia]. rewrite (Hin2 ra 0); [|apply (bool_decide_unpack _); done].
    rewrite stack_addr; [|done|by rewrite /= upd_ne|lia]. cbn [hmem set_reg].
    rewrite (Hin2 sp 8); [|apply (bool_decide_unpack _); done]. done. }
  destruct kv_rest_regs as [Hn Hnd].
  destruct (exec_loads trans kv_rest sp F h0 Hn Hnd) as (f & Hf & Hfin & Hfout).
  { intros o ([r o'] & -> & [_ Ho]%list_elem_of_filter)%list_elem_of_fmap.
    apply stack_addr; [done|by rewrite /= upd_eq|by eapply kv_range]. }
  assert (h3 = exec trans [Addi sp sp 256; Sret] (mk_hart f (csrs h0) (hmem h0) (hpc h0) (hmode h0))) as E3.
  { rewrite -Hf -E0 -!exec_app. done. }
  rewrite E3. cbn [exec foldl step]. cbn [regs hmem hpc set_pc set_mode set_csr set_reg]. split_and!; try done.
  - intros r Hrt. destruct (decide (r = sp)) as [->|Hrs].
    + rewrite upd_eq Hfout // /= upd_eq. replace (F + 256) with (regs h sp) by lia. apply Z.mod_small, Hr.
    + rewrite upd_ne //. destruct (decide (r = ra)) as [->|Hra].
      * rewrite Hfout; [done|]. apply (bool_decide_unpack _). done.
      * destruct (kv_all r) as [o Ho]. rewrite (Hfin r o); [|by apply list_elem_of_filter]. simpl.
        rewrite (Hin2 r o Ho) decide_False //.
  - rewrite upd_ne // Hfout; [done|]. apply (bool_decide_unpack _). done.
Qed.
End kernelvec.

(** C25: an interrupt in the kernel is invisible.  [kernelvec] saves all
    registers below the stack pointer.  [kerneltrap] may run on the stack below
    them, switch to other threads and come back on another hart; if it returns
    with its stack pointer and with these 256 bytes as they were, then every
    register of the interrupted code has its value again, but for [tp], which
    keeps the hart it is now on, and the code goes on at [sepc]. *)
Theorem kernelvec_transparent trans h h2 :
  0 ≤ regs h sp - 256 → (∀ r, 0 ≤ regs h r < 2 ^ 64) → stack_direct trans h h → stack_direct trans h h2 →
  let h1 := exec trans kernelvec_save h in
  regs h2 sp = regs h1 sp → mem_eq_on (span (regs h sp - 256) 256) (hmem h1) (hmem h2) →
  let h3 := exec trans kernelvec_restore h2 in
  mem_eq_on (λ a, ¬ span (regs h sp - 256) 256 a) (hmem h) (hmem h1) ∧
  (∀ r, r ≠ tp → regs h3 r = regs h r) ∧ regs h3 tp = regs h2 tp ∧ hmem h3 = hmem h2 ∧ hpc h3 = csrs h2 sepc.
Proof.
  intros H0 Hr Hd Hd2 h1 Hsp Hm h3. subst h1 h3.
  destruct (kernelvec_save_run trans h H0 Hr Hd) as (m & E & Hin & Hout). rewrite E in Hsp, Hm |- *.
  split; [done|]. apply (kernelvec_restore_run trans h H0 Hr h2 m); [done| |done|done].
  by rewrite Hsp /= upd_eq.
Qed.

(** ** The timer *)

(** Machine mode is not translated. *)
Definition bare (satp a : Z) : Z := a.

(** The scratch area of a hart's timer interrupt, as [timerinit] prepares it,
    is apart from the register it points to. *)
Definition timer_ready (m : gmap Z Z) (scr cmp : Z) : Prop :=
  ld64 m (scr + 24) = cmp ∧ ld64 m (scr + 32) = 1000000 ∧
  0 ≤ scr ∧ scr + 40 < 2 ^ 64 ∧ 0 ≤ cmp ∧ cmp + 8 < 2 ^ 64 ∧ (cmp + 8 ≤ scr ∨ scr + 40 ≤ cmp).

Lemma bare_addr h o b : 0 ≤ regs h b + o < 2 ^ 64 → addr bare h o b = regs h b + o.
Proof. intros H. rewrite /addr /bare. by apply Z.mod_small. Qed.

(** The area of [bare] addresses from a register. *)
Lemma bare_area h b l p :
  regs h b = p → Forall (λ o, 0 ≤ p + o < 2 ^ 64) l → area bare h b p l.
Proof. intros <- Hl o Ho. rewrite Forall_forall in Hl. apply bare_addr. by apply Hl. Qed.

Ltac offsets := cbn; repeat (apply Forall_cons_2; [lia|]); apply Forall_nil_2.

(** The middle of [timervec]: the next interrupt, and the software interrupt. *)
Lemma timer_advance h cmp :
  regs h a1 = cmp → 0 ≤ cmp → cmp + 8 < 2 ^ 64 →
  let h1 := exec bare [Ld a3 0 a1; Add a3 a3 a2; Sd a3 0 a1; Li a1 2; Csrw sip a1] h in
  hmem h1 = st64 (hmem h) cmp (u64 (ld64 (hmem h) cmp + regs h a2)) ∧ csrs h1 = upd sip 2 (csrs h) ∧
  (∀ r, r ≠ a1 → r ≠ a3 → regs h1 r = regs h r) ∧ hpc h1 = hpc h ∧ hmode h1 = hmode h.
Proof.
  intros H1 H0 Hb h1. subst h1. cbn [exec foldl step].
  assert (∀ h', regs h' a1 = cmp → addr bare h' 0 a1 = cmp) as Had.
  { intros h' E. rewrite bare_addr E; lia. }
  rewrite (Had h H1) (Had (set_reg a3 _ _)); [|done]. split_and!; try done.
  intros r Hr1 Hr3. cbn [regs set_csr set_reg set_hmem]. by rewrite !upd_ne.
Qed.

Definition tv_saved : list (reg * Z) := [(a1, 0); (a2, 8); (a3, 16)].

Lemma tv_mem m m1 scr cmp (v : Z) :
  timer_ready m scr cmp → mem_eq_on (λ a, ∀ o, o ∈ tv_saved.*2 → ¬ span (scr + o) 8 a) m m1 →
  (∀ p, p + 8 ≤ scr ∨ scr + 24 ≤ p → ld64 m1 p = ld64 m p) ∧
  mem_eq_on (λ a, ¬ span scr 24 a ∧ ¬ span cmp 8 a) m (st64 m1 cmp v).
Proof.
  intros (_ & _ & _ & _ & _ & _ & Hap) Hout.
  assert (∀ a, ¬ span scr 24 a → ∀ o, o ∈ tv_saved.*2 → ¬ span (scr + o) 8 a) as Hin.
  { intros a Ha o Ho. assert (0 ≤ o ≤ 16) by (cbn in Ho; rewrite !elem_of_cons elem_of_nil in Ho; lia). unfold span in *. lia. }
  split.
  - intros p Hp. apply ld64_ext. eapply mem_eq_on_weaken; [exact Hout|]. intros a Ha. cbv beta. apply (Hin a). unfold span in *. lia.
  - intros a [Ha Hc]. transitivity (ld8 m1 a); [by apply (mem_eq_on_st64 m1 cmp v (λ x, ¬ span cmp 8 x))|].
    by apply Hout, Hin.
Qed.

Lemma not_in_pair (r x y : reg) : r ≠ x → r ≠ y → r ∉ [x; y].
Proof. set_solver. Qed.

Lemma not_in_triple (r x y z : reg) : r ≠ x → r ≠ y → r ≠ z → r ∉ [x; y; z].
Proof. set_solver. Qed.

(** [timervec] up to the restoring of the registers. *)
Definition tv_first : list instr :=
  [Csrrw a0 mscratch a0] ++ saves a0 tv_saved ++ loads a0 [(a1, 24); (a2, 32)] ++
  [Ld a3 0 a1; Add a3 a3 a2; Sd a3 0 a1; Li a1 2; Csrw sip a1].

Lemma timervec_first h scr cmp :
  csrs h mscratch = scr → timer_ready (hmem h) scr cmp → (∀ r, 0 ≤ regs h r < 2 ^ 64) →
  let h2 := exec bare tv_first h in
  ∃ m1, hmem h2 = st64 m1 cmp (u64 (ld64 (hmem h) cmp + 1000000)) ∧
    (∀ r o, (r, o) ∈ tv_saved → ld64 m1 (scr + o) = regs h r) ∧
    mem_eq_on (λ a, ∀ o, o ∈ tv_saved.*2 → ¬ span (scr + o) 8 a) (hmem h) m1 ∧
    csrs h2 = upd sip 2 (upd mscratch (regs h a0) (csrs h)) ∧ regs h2 a0 = scr ∧
    (∀ r, r ≠ a0 → r ≠ a1 → r ≠ a2 → r ≠ a3 → regs h2 r = regs h r).
Proof.
  intros Hscr Hrdy Hr h2. pose proof Hrdy as (Hcmp & Hint & H0 & H1 & H2 & H3 & Hap).
  set h0 := set_reg a0 scr (set_csr mscratch (regs h a0) h).
  assert (exec bare [Csrrw a0 mscratch a0] h = h0) as E0 by (cbn [exec foldl step]; by rewrite Hscr).
  destruct (exec_saves bare tv_saved a0 scr h0) as (m1 & Em1 & Hin1 & Hout1).
  { split; apply (bool_decide_unpack _); done. } { apply bare_area; [done|]. offsets. }
  destruct (exec_loads bare [(a1, 24); (a2, 32)] a0 scr (set_hmem m1 h0)) as (f1 & Ef1 & Hf1 & Hg1);
    [apply (bool_decide_unpack _); done..|apply bare_area; [done|]; offsets|].
  destruct (tv_mem _ m1 scr cmp 0 Hrdy Hout1) as [Hm1 _]. set h1 := mk_hart f1 (csrs h0) m1 (hpc h0) (hmode h0).
  assert (f1 a1 = cmp ∧ f1 a2 = 1000000) as [Ea1 Ea2].
  { rewrite (Hf1 a1 24) /=; [|left]. rewrite (Hf1 a2 32) /=; [|right; left]. rewrite !Hm1 //; lia. }
  destruct (timer_advance h1 cmp Ea1 H2 H3) as (Em2 & Ec2 & Hr2 & _).
  assert (h2 = exec bare [Ld a3 0 a1; Add a3 a3 a2; Sd a3 0 a1; Li a1 2; Csrw sip a1] h1) as E2.
  { subst h2. rewrite /tv_first !exec_app E0 Em1 Ef1. done. }
  rewrite E2 Em2 Ec2. cbn [h1 hmem csrs regs]. rewrite Ea2 Hm1; [|lia]. exists m1. split_and!; try done.
  - intros r o Hro. rewrite (Hin1 r o Hro) /= upd_ne; [by apply Z.mod_small|]. intros ->. revert Hro.
    rewrite /tv_saved !elem_of_cons elem_of_nil. by intros [[=]|[[=]|[[=]|[]]]].
  - rewrite Hr2 // /= Hg1 //. apply (bool_decide_unpack _). done.
  - intros r Hr0 Hr1 Hr2' Hr3. rewrite Hr2 //. cbn [h1 regs]. rewrite Hg1; [exact (upd_ne _ _ _ _ Hr0)|]. by apply not_in_pair.
Qed.

Definition tv_last : list instr := loads a0 [(a3, 16); (a2, 8); (a1, 0)] ++ [Csrrw a0 mscratch a0; Mret].

Lemma timervec_last h scr :
  regs h a0 = scr → 0 ≤ scr → scr + 40 < 2 ^ 64 →
  let h' := exec bare tv_last h in
  (∀ r o, (r, o) ∈ tv_saved → regs h' r = ld64 (hmem h) (scr + o)) ∧ regs h' a0 = csrs h mscratch ∧
  (∀ r, r ≠ a0 → r ≠ a1 → r ≠ a2 → r ≠ a3 → regs h' r = regs h r) ∧
  csrs h' mscratch = scr ∧ csrs h' sip = csrs h sip ∧ hpc h' = csrs h mepc ∧ hmem h' = hmem h.
Proof.
  intros Ea0 H0 H1 h'.
  destruct (exec_loads bare [(a3, 16); (a2, 8); (a1, 0)] a0 scr h) as (f & Ef & Hf & Hg);
    [apply (bool_decide_unpack _); done..|apply bare_area; [done|]; offsets|].
  assert (f a0 = scr) as Ef0 by (rewrite Hg; [exact Ea0|apply (bool_decide_unpack _); done]).
  subst h'. rewrite /tv_last exec_app Ef. cbn [exec foldl step]. cbn [regs csrs hmem hpc set_pc set_mode set_csr set_reg].
  split_and!; try done.
  - intros r o Hro. rewrite upd_ne.
    + apply Hf. revert Hro. rewrite /tv_saved !elem_of_cons !elem_of_nil. tauto.
    + intros ->. revert Hro. rewrite /tv_saved !elem_of_cons elem_of_nil. by intros [[=]|[[=]|[[=]|[]]]].
  - intros r Hr0 Hr1 Hr2 Hr3. rewrite upd_ne // Hg //. by apply not_in_triple.
Qed.

Lemma tv_saved_range r o : (r, o) ∈ tv_saved → 0 ≤ o ≤ 16.
Proof. rewrite /tv_saved !elem_of_cons elem_of_nil. intros [[= -> ->]|[[= -> ->]|[[= -> ->]|[]]]]; lia. Qed.

Lemma tv_saved_all r : r = a1 ∨ r = a2 ∨ r = a3 → ∃ o, (r, o) ∈ tv_saved.
Proof.
  intros [->|[->| ->]]; [exists 0; left|exists 8; right; left|exists 16; right; right; left].
Qed.

(** the timer interrupt is invisible and arms the next one.  On the
    scratch area that [timerinit] prepared, [timervec] advances the hart's
    comparison register by the interval, raises the supervisor's software
    interrupt, and returns to the interrupted code with every register and
    [mscratch] as they were; but for the comparison register and its save area
    it changes no memory, so that it can run again. *)
Lemma timervec_transparent h scr cmp :
  csrs h mscratch = scr → timer_ready (hmem h) scr cmp → (∀ r, 0 ≤ regs h r < 2 ^ 64) →
  let h' := exec bare timervec h in
  (∀ r, regs h' r = regs h r) ∧ csrs h' mscratch = scr ∧ csrs h' sip = 2 ∧ hpc h' = csrs h mepc ∧
  ld64 (hmem h') cmp = u64 (ld64 (hmem h) cmp + 1000000) ∧ timer_ready (hmem h') scr cmp ∧
  mem_eq_on (λ a, ¬ span scr 24 a ∧ ¬ span cmp 8 a) (hmem h) (hmem h').
Proof.
  intros Hscr Hrdy Hr h'. destruct (timervec_first h scr cmp Hscr Hrdy Hr) as (m1 & Em2 & Hin & Hout & Ec2 & Ea0 & Hr2).
  pose proof Hrdy as (Hcmp & Hint & H0 & H1 & H2 & H3 & Hap).
  destruct (tv_mem _ m1 scr cmp (u64 (ld64 (hmem h) cmp + 1000000)) Hrdy Hout) as [Hm1 Hmout].
  destruct (timervec_last (exec bare tv_first h) scr Ea0 H0 H1) as (Hs & Hs0 & Hrest & Hms & Hsip & Hpc & Hm).
  assert (h' = exec bare tv_last (exec bare tv_first h)) as -> by (rewrite -exec_app; done).
  rewrite Hms Hsip Hpc Hm Em2 Ec2. split_and!; try done.
  - intros r. destruct (decide (r = a0)) as [->|Hr0]; [by rewrite Hs0 Ec2|].
    destruct (decide (r = a1 ∨ r = a2 ∨ r = a3)) as [[o Ho]%tv_saved_all|Hn].
    + rewrite (Hs r o Ho) Em2 ld64_st64_ne; [|apply tv_saved_range in Ho; lia]. by apply Hin.
    + rewrite Hrest; [apply Hr2|..]; tauto.
  - rewrite ld64_st64. apply Z.mod_mod. lia.
  - split_and!; try done; rewrite ld64_st64_ne; [|lia| |lia]; rewrite Hm1; [done|lia|done|lia].
Qed.

(** ** Boot *)



Section boot_proof.
Context (stack0 timer_scratch main_addr timervec_addr : Z).





End boot_proof.

(** ** Concrete runs *)

(** A hart whose registers hold 1, but for [sp], [a0] and [a1]. *)
Definition demo_hart (p q : Z) : hart :=
  mk_hart (upd sp 0x80009000 (upd a0 p (upd a1 q (λ _, 1)))) (λ _, 0) ∅ 0 S_MODE.

Lemma demo_regs p q : 0 ≤ p < 2 ^ 64 → 0 ≤ q < 2 ^ 64 → ∀ r, 0 ≤ regs (demo_hart p q) r < 2 ^ 64.
Proof. intros Hp Hq r. simpl. rewrite /upd. repeat case_decide; lia. Qed.

(** The trapframe at 0x80001000; the kernel has changed only [a0]'s word. *)
Definition demo_trans (satp a : Z) : Z := if 0x3fffffe000 <=? a then a - 0x3fffffe000 + 0x80001000 else a.

Lemma trap_roundtrip_witness :
  let h := demo_hart 7 8 in
  let h1 := exec demo_trans uservec h in
  let h2 := set_hmem (st64 (hmem h1) (0x80001000 + 112) 42) (set_reg a0 0 (demo_hart 0 0)) in
  let h3 := exec demo_trans userret h2 in
  regs h3 sp = 0x80009000 ∧ regs h3 a0 = 42 ∧ hmode h3 = U_MODE.
Proof.
  intros h h1 h2 h3.
  destruct (trap_roundtrip demo_trans 0x80001000 h h2) as (_ & Hr & Ha & _ & _ & _ & Hm).
  - intros o Ho. rewrite /demo_trans (proj2 (Z.leb_le _ _)); lia.
  - apply demo_regs; lia.
  - reflexivity.
  - reflexivity.
  - split_and!; [|rewrite Ha|exact Hm].
    + apply (Hr sp). cbn [h2 hmem set_hmem]. apply ld64_st64_ne. simpl. lia.
    + cbn [h2 hmem set_hmem]. rewrite ld64_st64. reflexivity.
Defined.

Lemma mem_eq_on_set_hmem P m h : mem_eq_on P m (hmem (set_hmem m h)).
Proof. done. Qed.

Lemma mem_eq_on_set_reg P r v h : mem_eq_on P (hmem h) (hmem (set_reg r v h)).
Proof. done. Qed.

Lemma regs_set_reg_ne r r' v h : r' ≠ r → regs (set_reg r v h) r' = regs h r'.
Proof. apply upd_ne. Qed.

Lemma bare_direct h p : 0 ≤ p → p + 112 < 2 ^ 64 → direct bare h p.
Proof. intros ??. by split_and!. Qed.

Lemma demo_apart a : span 0x80001000 112 a → ¬ span 0x80002000 112 a.
Proof. unfold span. lia. Qed.

(** Two threads, with contexts at 0x80001000 and 0x80002000. *)
Definition thread1 : hart := demo_hart 0x80001000 0x80002000.
Definition thread2 : hart := demo_hart 0x80002000 0x80001000.

Lemma swtch_resumes_witness :
  hpc (exec bare swtch (set_hmem (hmem (exec bare swtch thread1)) thread2)) = 1 ∧
  regs (exec bare swtch (set_hmem (hmem (exec bare swtch thread1)) thread2)) sp = 0x80009000.
Proof.
  pose proof (swtch_resumes bare thread1 (set_hmem (hmem (exec bare swtch thread1)) thread2) 0x80002000
    (demo_regs 0x80001000 0x80002000 ltac:(lia) ltac:(lia)) eq_refl (bare_direct _ 0x80001000 ltac:(lia) ltac:(lia))
    (bare_direct _ 0x80002000 ltac:(lia) ltac:(lia)) eq_refl (bare_direct _ 0x80002000 ltac:(lia) ltac:(lia))
    (bare_direct _ 0x80001000 ltac:(lia) ltac:(lia)) demo_apart (mem_eq_on_set_hmem _ _ _)) as (Hpc & Hr & _).
  split; [exact Hpc|]. apply (Hr sp). right. left.
Defined.

Lemma kernelvec_transparent_witness :
  regs (exec bare kernelvec_restore (set_reg a0 99 (exec bare kernelvec_save (demo_hart 7 8)))) a0 = 7 ∧
  regs (exec bare kernelvec_restore (set_reg a0 99 (exec bare kernelvec_save (demo_hart 7 8)))) sp = 0x80009000.
Proof.
  pose proof (kernelvec_transparent bare (demo_hart 7 8) (set_reg a0 99 (exec bare kernelvec_save (demo_hart 7 8)))
    ltac:(vm_compute; done) (demo_regs 7 8 ltac:(lia) ltac:(lia)) (λ a _, eq_refl) (λ a _, eq_refl)
    (regs_set_reg_ne a0 sp _ _ ltac:(done)) (mem_eq_on_set_reg _ _ _ _)) as (_ & Hr & _).
  split; [exact (Hr a0 ltac:(done))|exact (Hr sp ltac:(done))].
Defined.

