(* ===== verification/Initcode.v ===== *)
(** * The first user code and the system-call stubs (user/initcode.S,
    user/usys.pl)

    [start] is the code of initcode.S, and [initcode_image] what the assembler
    makes of the file; the array [initcode] of kernel/proc.c is that image
    ([initcode_assembled]).  Run in the page that [uvmfirst] makes, it calls
    exec with the path and the argument vector of /init, and when exec returns
    it calls exit for ever ([initcode_execs], [initcode_exits]).  [entry] is
    the stub that usys.pl writes for a system call ([stub_calls]). *)

From S2P Require Import Prelude Mem Cstring Riscv Proc Syscall Asm.

(** ** User instructions *)

(** The instructions that the two files use, once [la], [li], [jal label] and
    [ret] are expanded. *)
Inductive uinsn :=
| Auipc (rd : reg) (imm : Z)
| UAddi (rd : reg) (rs : option reg) (imm : Z)
| Ecall
| Jal (rd : reg) (off : Z)
| Jalr (rs : reg).

(** The number of a register in an instruction; [None] is [x0]. *)
Definition reg_no (r : reg) : Z :=
  match r with
  | ra => 1 | sp => 2 | gp => 3 | tp => 4 | t0 => 5 | t1 => 6 | t2 => 7 | s0 => 8 | s1 => 9
  | a0 => 10 | a1 => 11 | a2 => 12 | a3 => 13 | a4 => 14 | a5 => 15 | a6 => 16 | a7 => 17
  | s2 => 18 | s3 => 19 | s4 => 20 | s5 => 21 | s6 => 22 | s7 => 23 | s8 => 24 | s9 => 25 | s10 => 26 | s11 => 27
  | t3 => 28 | t4 => 29 | t5 => 30 | t6 => 31
  end.

(** Bits [lo] to [lo + n - 1] of [x]. *)
Definition bits (x lo n : Z) : Z := Z.land (Z.shiftr x lo) (Z.ones n).

Definition encode (i : uinsn) : Z :=
  match i with
  | Auipc rd imm => bits imm 0 20 * 2 ^ 12 + reg_no rd * 2 ^ 7 + 0x17
  | UAddi rd rs imm => bits imm 0 12 * 2 ^ 20 + from_option reg_no 0 rs * 2 ^ 15 + reg_no rd * 2 ^ 7 + 0x13
  | Ecall => 0x73
  | Jal rd off =>
      bits off 20 1 * 2 ^ 31 + bits off 1 10 * 2 ^ 21 + bits off 11 1 * 2 ^ 20 + bits off 12 8 * 2 ^ 12
      + reg_no rd * 2 ^ 7 + 0x6f
  | Jalr rs => reg_no rs * 2 ^ 15 + 0x67
  end.

(** The [n] bytes of [v], the least significant first. *)
Fixpoint bytes_le (n : nat) (v : Z) : list Z :=
  match n with
  | O => []
  | S n => u8 v :: bytes_le n (Z.shiftr v 8)
  end.

Definition image (l : list uinsn) : list Z := l ≫= λ i, bytes_le 4 (encode i).

(** [la r, sym] at address [pc], for an address within 2 KB of it; [li r, v]
    for a [v] of 12 bits. *)
Definition la (pc : Z) (r : reg) (sym : Z) : list uinsn := [Auipc r 0; UAddi r (Some r) (sym - pc)].
Definition li (r : reg) (v : Z) : uinsn := UAddi r None v.

(** ** initcode.S *)

(** The number of a system call, as [#define]d in syscall.h. *)
Definition sys_number (c : sysno) : Z :=
  match c with
  | SYS_fork => 1 | SYS_exit => 2 | SYS_wait => 3 | SYS_pipe => 4 | SYS_read => 5 | SYS_kill => 6 | SYS_exec => 7
  | SYS_fstat => 8 | SYS_chdir => 9 | SYS_dup => 10 | SYS_getpid => 11 | SYS_sbrk => 12 | SYS_sleep => 13
  | SYS_uptime => 14 | SYS_open => 15 | SYS_write => 16 | SYS_mknod => 17 | SYS_unlink => 18 | SYS_link => 19
  | SYS_mkdir => 20 | SYS_close => 21
  end.

(** The code is at address 0; [exit] is its seventh instruction. *)
Definition initcode_start (init argv : Z) : list uinsn :=
  la 0 a0 init ++ la 8 a1 argv ++ [
  li a7 (sys_number SYS_exec);
  Ecall;
  (* exit: *)
  li a7 (sys_number SYS_exit);
  Ecall;
  Jal ra (24 - 32) ].

(** [.string "/init\0"]: the assembler adds a second NUL. *)
Definition init_string : list Z := chars "/init" ++ [0; 0].

(** [.long init], [.long 0]. *)
Definition argv_longs (init : Z) : list Z := bytes_le 4 init ++ bytes_le 4 0.

(** The file, with [init] after the code and [argv] after the string.  The
    instructions are 4 bytes each, and the assembler takes [.p2align 2] among
    them for already done; the section is padded to a multiple of 4. *)
Definition initcode_image : list Z :=
  image (initcode_start 36 43) ++ init_string ++ argv_longs 36 ++ [0].

(** ** Running *)

(** What one instruction does to the registers and the program counter; an
    [ecall] leaves user space. *)
Definition ustep (i : uinsn) (r : reg → Z) (pc : Z) : option ((reg → Z) * Z) :=
  match i with
  | Auipc rd imm => Some (upd rd (u64 (pc + imm * 2 ^ 12)) r, pc + 4)
  | UAddi rd rs imm => Some (upd rd (u64 (from_option r 0 rs + imm)) r, pc + 4)
  | Ecall => None
  | Jal rd off => Some (upd rd (pc + 4) r, pc + off)
  | Jalr rs => Some (r, r rs)
  end.

(** Up to the next [ecall], or out of the code: the registers there, and the
    program counter. *)
Fixpoint urun (fuel : nat) (code : list uinsn) (r : reg → Z) (pc : Z) : option (((reg → Z) * Z) * bool) :=
  match fuel with
  | O => None
  | S fuel =>
      match code !! Z.to_nat (pc / 4) with
      | None => Some (r, pc, false)
      | Some i =>
          match ustep i r pc with
          | None => Some (r, pc, true)
          | Some (r', pc') => urun fuel code r' pc'
          end
      end
  end.

(** ** usys.pl *)

Definition entry (c : sysno) : list uinsn := [li a7 (sys_number c); Ecall; Jalr ra].

(** The stubs, in the order of the file. *)
Definition usys : list sysno :=
  [SYS_fork; SYS_exit; SYS_wait; SYS_pipe; SYS_read; SYS_write; SYS_close; SYS_kill; SYS_exec; SYS_open; SYS_mknod;
   SYS_unlink; SYS_fstat; SYS_link; SYS_mkdir; SYS_chdir; SYS_dup; SYS_getpid; SYS_sbrk; SYS_sleep; SYS_uptime].

(** ** Lemmas *)

(** The array of proc.c is what initcode.S assembles to. *)
Lemma initcode_assembled : initcode = initcode_image.
Proof. vm_compute. reflexivity. Qed.

(** A page that starts with the array and is 0 after it. *)
Definition initcode_page (m : gmap Z Z) : Prop :=
  ∀ a, 0 ≤ a < PGSIZE → ld8 m a = nth (Z.to_nat a) initcode 0.

(** The number in [n] bytes of the page is that in the bytes of the array. *)
Fixpoint array_le (n : nat) (a : Z) : Z :=
  match n with
  | O => 0
  | S n => nth (Z.to_nat a) initcode 0 + 256 * array_le n (a + 1)
  end.

Lemma initcode_page_ldle m n a :
  initcode_page m → 0 ≤ a → a + Z.of_nat n ≤ PGSIZE → ldle n m a = array_le n a.
Proof.
  intros Hm. revert a. induction n as [|n IH]; intros a Ha Hn; simpl; [done|].
  rewrite -> Hm by lia. rewrite -> IH by lia. done.
Qed.

(** Each instruction of the code is in the page, where it is fetched from. *)
Lemma initcode_fetch m (i : nat) x :
  initcode_page m → initcode_start 36 43 !! i = Some x → ld32 m (4 * Z.of_nat i) = encode x.
Proof.
  intros Hm Hi. assert (Hlt : (i < 9)%nat) by exact (lookup_lt_Some _ _ _ Hi).
  unfold ld32. rewrite -> initcode_page_ldle by (try done; lia).
  do 9 (destruct i as [|i]; [injection Hi as <-; vm_compute; reflexivity|]). lia.
Qed.

(** The first system call is exec, of the string and the vector that the page
    has: "/init", and an array of a pointer to it and a null pointer. *)
Lemma initcode_execs m r :
  initcode_page m →
  ∃ r', urun 6 (initcode_start 36 43) r 0 = Some (r', 20, true) ∧
    sys_lookup sys_table (s32 (r' a7)) = Some SYS_exec ∧
    cstr m (r' a0) (chars "/init") ∧
    ld64 m (r' a1) = r' a0 ∧ ld64 m (r' a1 + 8) = 0.
Proof.
  intros Hm. eexists. split; [reflexivity|]. split_and!.
  - reflexivity.
  - change (cstr m 36 (chars "/init")). cbn -[Z.add]. split_and!; try done; by rewrite -> Hm by lia.
  - change (ldle 8 m 43 = 36). rewrite -> initcode_page_ldle by (try done; lia). reflexivity.
  - change (ldle 8 m 51 = 0). rewrite -> initcode_page_ldle by (try done; lia). reflexivity.
Qed.

(** After either system call, the next one is exit. *)
Lemma initcode_exits r pc :
  pc = 20 ∨ pc = 28 →
  ∃ r', urun 3 (initcode_start 36 43) r (pc + 4) = Some (r', 28, true) ∧
    sys_lookup sys_table (s32 (r' a7)) = Some SYS_exit.
Proof. intros [-> | ->]; eexists; split; reflexivity. Qed.

#[global] Instance sysno_eq_dec : EqDecision sysno.
Proof. solve_decision. Defined.

(** Every system call of the kernel has a stub, and only one. *)
Lemma usys_complete : NoDup usys ∧ ∀ c, c ∈ usys.
Proof. split; [by apply (bool_decide_unpack _)|]. intros []; by apply (bool_decide_unpack _). Qed.

(** A stub keeps the arguments, asks the kernel for the call it is named after,
    and returns to its caller when the kernel comes back. *)
Lemma stub_calls c r :
  ∃ r', urun 2 (entry c) r 0 = Some (r', 4, true) ∧
    sys_lookup sys_table (s32 (r' a7)) = Some c ∧
    (∀ q, q ≠ a7 → r' q = r q) ∧
    ∀ r2, (entry c !! 2%nat ≫= λ i, ustep i r2 8) = Some (r2, r2 ra).
Proof.
  eexists. split; [reflexivity|]. split_and!; [by destruct c| |done].
  intros q Hq. unfold upd. by case_decide.
Qed.
